(* ===== verification/_CoqProject ===== *)
-Q . S2P
Prelude.v
Config.v
Snapshot.v
Redact.v
Plan.v
Compute.v
ComputeFacts.v
Fixtures.v
ComputeProps.v
PlanProps.v
Shadow.v
Services.v
ServicesProps.v
Restart.v
RestartProps.v
State.v
Base64.v
Observe.v
Actions.v
ConfigMgr.v
ConfigMgrProps.v
Network.v
Trigger.v
Watchdog.v
MainLoop.v
MainLoopProps.v
Lexer.v
Parser.v
ParserProps.v
ParserSpec.v
MtaLoad.v
Ldap.v
LdapProps.v
LdapWatch.v
LdapWatchProps.v
Files.v
FilesProps.v
RewriteProps.v
Text.v
Transformer.v
TransformerProps.v
Cache.v
LcDefaults.v
Localconfig.v
ExpandProps.v
LocalconfigProps.v
Commands.v
Loaders.v
LoadersProps.v
LoadRace.v
MtaOps.v
PlanHost.v
PlanHostProps.v
Host.v
ProcIdent.v
Launch.v
Launchers.v
Controller.v
Registry.v
Orchestrate.v
TraceLogic.v
ControllerProps.v
RegistryProps.v
Hooks.v
Tmpl.v
TmplFormat.v
TmplProps.v
TmplLint.v
TmplFormatProps.v
NetIP.v
Proxy.v
ProxyUpstream.v
ProxyResolvers.v
ProxyRegister.v
ProxyExplode.v
ProxyResolveProps.v
ProxyGen.v
ProxyCertProps.v
ProxyGenerateProps.v
ProxyOffline.v
