(* ===== verification/Prelude.v ===== *)
(** * carbonio-configd: a verification of the configuration daemon

    carbonio-configd keeps the services of a Carbonio mail host in line with
    their configuration.  It loads the configuration (localconfig, LDAP,
    provisioning commands), decides in each cycle of its main loop which files to
    rewrite, which postfix directives to set and which services to restart, carries
    that out, generates the nginx configuration of the proxy, controls the services
    with or without systemd, and serves a small control protocol.  This library
    models the code that decides and keeps state, from the Go sources under [src/],
    and proves what makes it correct.  The definitions are executable and carry the
    names of the Go functions; what the code calls outside the repository (the
    operating system, the directory, postconf, systemctl, certbot, the XML, YAML
    and JSON codecs) is a parameter, an argument or an oracle that may answer
    anything.

    ** The parts and how they work together

    A cycle is [MainLoop.runLoopIteration]: [Loaders.LoadAllConfigs], then
    [ConfigMgr.Plan_] (observe the lookups, publish the snapshot, take the requested
    sections, [Compute.Compute]), then [ConfigMgr.Execute_] (the actions of [Actions]:
    rewrites through [Transformer] and [Files], postconf through [MtaOps], the proxy
    through [ProxyGen]), then [ConfigMgr.ApplyRestarts] ([Restart.Apply] on the service
    manager of [Services], whose backend is the [Controller]).  Clients of the control
    protocol ([Network]) queue sections through the [Trigger] and wait for the cycle
    that takes them; the LDAP watcher ([LdapWatch]) wakes the loop when the directory
    changed; the [Watchdog] shares the service manager and the state.

    ** Files and sources

    Foundations
    - this file: strings as Go uses them, sorting, ordered sets as lists, folds, the
      tactics and hint databases of the development;
    - [Text]: trimming, splitting and joining lines;  [Base64]: encoding/base64;
      [NetIP]: the addresses of package net;  [Redact]: internal/redact.

    Configuration
    - [Config]: internal/config;  [Snapshot]: internal/snapshot;  [State]:
      internal/state;
    - [Lexer], [Parser]: internal/parser; [ParserProps], [ParserSpec]: termination,
      well-formedness, and the language of zmconfigd.cf;  [MtaLoad]:
      configmgr/mtaconfig_parser.go, conditional.go;
    - [LcDefaults], [Localconfig]: internal/localconfig; [ExpandProps],
      [LocalconfigProps];
    - [Cache]: internal/cache;  [Commands]: internal/commands;  [Loaders]:
      configmgr/manager_load*.go, manager_stage.go, retry.go; [LoadersProps],
      [LoadRace] (load cycles over time);
    - [Ldap]: internal/ldap, the client of the directory; [LdapProps];
    - [LdapWatch]: internal/ldapwatch; [LdapWatchProps].

    Planning and executing
    - [Plan], [Compute]: internal/plan, one definition per method of the builder;
      [ComputeFacts], [ComputeProps], [PlanProps]; [Fixtures]: concrete
      configurations that the witnesses evaluate;
    - [Observe], [ConfigMgr]: configmgr/manager.go, manager_plan.go;
      [ConfigMgrProps];
    - [Actions]: manager_actions_*.go;  [MtaOps]: internal/mtaops;
      [PlanHost], [PlanHostProps]: manager_plan_host.go;
    - [Transformer]: internal/transformer; [TransformerProps];
    - [Files]: internal/fileutil and the rewrite of a template; [FilesProps] (a
      program logic for file operations with faults), [RewriteProps].

    Services
    - [Services]: services/manager.go, interfaces.go, systemd_restart.go;
      [ServicesProps];  [Restart]: internal/restart, written against
      the class [Manager] of which the service manager is an instance;
      [RestartProps];
    - [Host]: the requests of the controller to the operating system;  [ProcIdent],
      [Launch], [Launchers], [Controller], [Registry]: the controller of
      internal/services;  [Orchestrate]: cli/control;  [TraceLogic] (what an operation
      may ask of the host), [ControllerProps], [RegistryProps];
    - [Hooks]: services/hooks.go, the backend of pods;
    - [Watchdog]: internal/watchdog, with its theorems.

    Daemon
    - [Network]: internal/network;  [Trigger], [MainLoop]: cmd/configd/mainloop.go, as
      a step relation of clients and loop and as the iteration;
      [MainLoopProps];
    - [Shadow]: internal/shadow, sys/readonly.go and the redaction of plan/render.go.

    Proxy
    - [Tmpl], [TmplFormat], [TmplLint]: internal/proxy/tmpl; [TmplProps],
      [TmplFormatProps];
    - [Proxy], [ProxyUpstream], [ProxyResolvers], [ProxyRegister]: the variables of
      internal/proxy, their resolution and their registration (vars*.go,
      resolvers*.go, upstreams.go, registry.go); [ProxyResolveProps];
    - [ProxyExplode]: template.go, template_explode.go;
    - [ProxyGen]: generator.go, domaincerts.go, clientca.go, certbot.go;
      [ProxyCertProps], [ProxyGenerateProps];
    - [ProxyOffline]: legacycli.go, offline.go, config.go, and concrete
      runs behind the findings.

    ** What the theorems show

    - Planning: [Compute_no_restart_loop] and [Compute_change_not_lost] (a section
      that was itself requested restarts nothing in that cycle, yet no change is
      lost), [Compute_idle], [Compute_retry], [Compute_guard].
    - Cycles: [Plan_error_keeps] (a failed plan consumes nothing),
      [deferred_restart_released], [cycle_retries], [PlanHost_in_sync] and
      [rewrite_converges] (what was executed is not planned again).
    - Directory client: [pool_no_leak] (operations, peers and [Close] in any
      interleaving), [no_clear_text_password], [ModifyValues_converges] (a reported
      success means the requested state, whatever was lost or repeated).
    - Loading: [LoadAllConfigs_publishes] and [loaders_any_order] (the four loaders
      publish one consistent snapshot, in whatever order they finish), [load_fresh]
      (a load never publishes data older than its request, with the condition under
      which a stray loader breaks that).
    - Languages: [ParseString_file_text] and [ParseString_wf] (the parser reads every
      text of the grammar as its meaning, and answers on every text),
      [Transform_template], [expanders_agree], [SetKeys_load], [Tokenize_roundtrip],
      [RenderLine_switches], [Lint_sound], [Format_blanks_only].
    - Files: [AtomicWriteOwned_atomic], [processRewrite_atomic], [writers_serialised]:
      every state a reader or a crash can see has the old file or the new one.
    - Services: [modes_never_mix] (systemd hosts are driven by systemctl only),
      [daemon_never_asks_for_rewrite], [ProcessRestarts_accounts],
      [ProcessRestarts_terminates], [Apply_systemd_rules], [Apply_gives_up].
    - Pods and shadow mode: [hook_backend_contained] (only what the hooks file says),
      [shadow_confined] (reports stay out of the live tree), [ReadOnly_harmless].
    - Clients and watcher: [rewrite_released_after_execution], [rewrite_not_lost]
      under every interleaving; [Run_refines] (the LDAP watcher refines an abstract
      machine with two moves) and [watcher_no_lost_change].
    - Proxy: [NewGenerator_deterministic] (the variables do not depend on the order of
      Go's maps), [upstream_blocks_consistent], [ProcessTemplate_isolated] (domains
      and servers do not leak variables into each other), [certificates_deployed],
      [GenerateAll_success].

    ** Bounds and fuel

    A recursion that is not structural takes fuel and answers [None], or records it,
    when the fuel runs out; each has a theorem that the fuel chosen is enough.
    [Services.ProcessRestarts] takes the number of rounds
    ([ProcessRestarts_terminates] gives a sufficient number, and
    [ProcessRestarts_cycle_diverges] shows that for a cyclic DEPENDS there may be
    none); [Parser] takes [parse_fuel], which the laws of [Lexer] show to suffice;
    rendering and tokenizing a template line take one unit per byte
    ([TmplProps.render_enough]); the controller's recursions along members and wants
    take the size of the registry plus one, and exhausting it is the flag [cl_deep];
    waits poll as often as their timeout allows.  The bounds of the code are kept:
    the passes of [Interpolate] and of the formatter, three attempts of a
    restart, the retries of the loaders.  Integers are [Z] with [wrap64] where they
    can overflow (durations), and [Z] or [nat] for counters far from their bounds.

    ** Concurrency and order

    Accessors that run under a lock are atomic steps.  Clients and main loop interleave
    freely in [Trigger.step], loaders over several cycles in [LoadRace], the writers of
    one file in [Files].  The steps of [Execute] run concurrently in the code, on
    disjoint entries and disjoint fields of the carry; they are run in sequence here,
    on a world that may answer anything.  Where Go ranges over a map the order is an
    argument, or each step touches its own key only.  A shutdown is polled from the
    world, so it can arrive between any two calls; the clock's readings are arguments.

    ** What is not modelled

    - Case mapping, trimming and character classes are ASCII, as the names, keywords
      and files they are applied to are; values are byte strings.
    - Logging, metrics, tracing, timings and what the command line prints, with its
      parsing of arguments; the text of plans; documentation texts of localconfig keys
      and proxy variables.
    - The go-ldap library and the network below it: their answers are oracles.
      Sockets, the accept loop, sd_notify messages and readiness probes are single
      answers of the host.  The XML of localconfig and the YAML of fixtures are their
      decoded documents.
    - The disk checks, random passwords, the stand-alone template rewriter and
      the diff output of the formatter.
    - What certbot itself removes when it is asked to delete a certificate.
    - Panics, except where the loop recovers them. *)
From Stdlib Require Export Ascii String.
From stdpp Require Export strings gmap sorting list.

Declare Scope go_scope.
Delimit Scope go_scope with go.
Open Scope go_scope.

Create HintDb configd.
Create Rewrite HintDb configd.

(** ** Go's [strings] package, on byte strings

    A Go string is a sequence of bytes, as is [string].  Case mapping is the
    ASCII one: the code applies it to service names, configuration keys and
    keywords, which are ASCII. *)
Module GoStrings.

Fixpoint string_map (f : ascii → ascii) (s : string) : string :=
  match s with
  | EmptyString => EmptyString
  | String c s' => String (f c) (string_map f s')
  end.

Definition byte (c : ascii) : N := N_of_ascii c.

Definition in_range (lo hi : N) (c : ascii) : bool :=
  (lo <=? byte c)%N && (byte c <=? hi)%N.

Definition lower_ascii (c : ascii) : ascii :=
  if in_range 65 90 c then ascii_of_N (byte c + 32) else c.

Definition upper_ascii (c : ascii) : ascii :=
  if in_range 97 122 c then ascii_of_N (byte c - 32) else c.

Definition ToLower (s : string) : string := string_map lower_ascii s.
Definition ToUpper (s : string) : string := string_map upper_ascii s.

Definition EqualFold (a b : string) : bool := String.eqb (ToLower a) (ToLower b).

Definition HasPrefix (s p : string) : bool := String.prefix p s.

Fixpoint drop_string (n : nat) (s : string) : string :=
  match n, s with
  | S n', String _ s' => drop_string n' s'
  | _, _ => s
  end.

Fixpoint take_string (n : nat) (s : string) : string :=
  match n, s with
  | S n', String c s' => String c (take_string n' s')
  | _, _ => EmptyString
  end.

(** [CutPrefix s p] is the rest of [s] after the prefix [p] and whether it had it. *)
Definition CutPrefix (s p : string) : string * bool :=
  if HasPrefix s p then (drop_string (String.length p) s, true) else (s, false).

Definition TrimPrefix (s p : string) : string := (CutPrefix s p).1.

Definition HasSuffix (s p : string) : bool :=
  (String.length p <=? String.length s)%nat &&
  String.eqb (drop_string (String.length s - String.length p) s) p.

Fixpoint Contains (s sub : string) : bool :=
  String.prefix sub s ||
  match s with
  | EmptyString => false
  | String _ s' => Contains s' sub
  end.

Definition newline : ascii := ascii_of_N 10.
Definition space : ascii := ascii_of_N 32.
Definition tab : ascii := ascii_of_N 9.

(** [strings.ReplaceAll s "\n" " "]. *)
Definition ReplaceNewlines (s : string) : string :=
  string_map (λ c, if decide (c = newline) then space else c) s.

Fixpoint Join (l : list string) (sep : string) : string :=
  match l with
  | [] => ""
  | [x] => x
  | x :: l' => x +:+ sep +:+ Join l' sep
  end.

(** White space of [unicode.IsSpace], within ASCII: tab to carriage return, and space. *)
Definition IsSpace (c : ascii) : bool := in_range 9 13 c || (byte c =? 32)%N.

Fixpoint trim_left (s : string) : string :=
  match s with
  | String c s' => if IsSpace c then trim_left s' else s
  | EmptyString => EmptyString
  end.

Fixpoint trim_right (s : string) : string :=
  match s with
  | EmptyString => EmptyString
  | String c s' =>
      match trim_right s' with
      | EmptyString => if IsSpace c then EmptyString else String c EmptyString
      | t => String c t
      end
  end.

Definition TrimSpace (s : string) : string := trim_right (trim_left s).

(** [strings.Fields]: the maximal runs of non-space bytes; [cur] is the run being
    read, in reverse. *)
Fixpoint fields_go (cur : list ascii) (s : string) : list string :=
  let flush (rest : list string) :=
    match cur with [] => rest | _ => string_of_list_ascii (rev cur) :: rest end in
  match s with
  | EmptyString => flush []
  | String c s' => if IsSpace c then flush (fields_go [] s') else fields_go (c :: cur) s'
  end.

Definition Fields (s : string) : list string := fields_go [] s.

(** [strconv.Atoi]: an optional sign and decimal digits, within 64-bit [int]. *)
Definition digit_of (c : ascii) : option Z :=
  if in_range 48 57 c then Some (Z.of_N (byte c) - 48)%Z else None.

Fixpoint digits (acc : Z) (s : string) : option Z :=
  match s with
  | EmptyString => Some acc
  | String c s' =>
      match digit_of c with Some d => digits (acc * 10 + d)%Z s' | None => None end
  end.

Definition max_int : Z := (2 ^ 63 - 1)%Z.
Definition min_int : Z := (- 2 ^ 63)%Z.

Definition Atoi (s : string) : option Z :=
  let body (neg : bool) (t : string) :=
    match t with
    | EmptyString => None
    | _ => match digits 0 t with
           | Some v =>
               let v := if neg then (- v)%Z else v in
               if ((min_int <=? v) && (v <=? max_int))%Z then Some v else None
           | None => None
           end
    end in
  match s with
  | String "+" t => body false t
  | String "-" t => body true t
  | _ => body false s
  end.

(** The size of the UTF-8 encoded rune [s] starts with, [None] when its first
    byte starts no valid encoding ([utf8.DecodeRuneInString] with width 1). *)
Definition rune_size (s : string) : option nat :=
  let cont := in_range 128 191 in
  match s with
  | EmptyString => None
  | String a s1 =>
      if (byte a <? 128)%N then Some 1%nat else
      match s1 with
      | EmptyString => None
      | String b s2 =>
          if in_range 194 223 a then (if cont b then Some 2%nat else None) else
          match s2 with
          | EmptyString => None
          | String c s3 =>
              if in_range 224 239 a then
                let okb :=
                  if (byte a =? 224)%N then in_range 160 191 b
                  else if (byte a =? 237)%N then in_range 128 159 b else cont b in
                if okb && cont c then Some 3%nat else None
              else
              match s3 with
              | EmptyString => None
              | String d _ =>
                  if in_range 240 244 a then
                    let okb :=
                      if (byte a =? 240)%N then in_range 144 191 b
                      else if (byte a =? 244)%N then in_range 128 143 b else cont b in
                    if okb && cont c && cont d then Some 4%nat else None
                  else None
              end
          end
      end
  end.

(** The double quote [%q] puts around a string. *)
Definition dquote : string := String (ascii_of_nat 34) EmptyString.

(** [strings.Split s sep] for a one-byte separator: never empty. *)
Fixpoint SplitByte (sep : ascii) (s : string) : list string :=
  match s with
  | EmptyString => [EmptyString]
  | String c s =>
      if Ascii.eqb c sep then EmptyString :: SplitByte sep s
      else match SplitByte sep s with
           | x :: l => String c x :: l
           | [] => [String c EmptyString]
           end
  end.

(** [strings.Cut s sep] for a one-byte separator. *)
Fixpoint CutByte (sep : ascii) (s : string) : option (string * string) :=
  match s with
  | EmptyString => None
  | String c s =>
      if Ascii.eqb c sep then Some (EmptyString, s)
      else (λ '(a, b), (String c a, b)) <$> CutByte sep s
  end.

(** [strings.ToValidUTF8 s ""]: [skip] counts the bytes of the rune being copied. *)
Fixpoint to_valid_utf8 (skip : nat) (s : string) : string :=
  match s with
  | EmptyString => EmptyString
  | String c s' =>
      match skip with
      | S n => String c (to_valid_utf8 n s')
      | O =>
          match rune_size s with
          | Some (S n) => String c (to_valid_utf8 n s')
          | _ => to_valid_utf8 0 s'
          end
      end
  end.

Definition ToValidUTF8 (s : string) : string := to_valid_utf8 0 s.

(** Every byte of the string satisfies [P]. *)
Fixpoint chars (P : ascii → bool) (s : string) : bool :=
  match s with EmptyString => true | String c s => P c && chars P s end.

Lemma length_string_map f s : String.length (string_map f s) = String.length s.
Proof. induction s; simpl; auto. Qed.

Lemma chars_app P s t : chars P (s +:+ t) = chars P s && chars P t.
Proof. induction s as [|c s IH]; [done|]. change (P c && chars P (s +:+ t) = P c && chars P s && chars P t). rewrite IH. apply andb_assoc. Qed.

Lemma length_take_string n s : (String.length (take_string n s) ≤ n)%nat.
Proof. revert s; induction n; intros [|? s]; simpl; auto with lia. apply le_n_S, IHn. Qed.

Lemma length_to_valid_utf8 k s : (String.length (to_valid_utf8 k s) ≤ String.length s)%nat.
Proof.
  revert k; induction s as [|c s IH]; intros k; cbn [to_valid_utf8 String.length]; [lia|].
  destruct k as [|k]; [|cbn; specialize (IH k); lia].
  destruct (rune_size (String c s)) as [[|n]|]; cbn [String.length];
    [specialize (IH 0%nat)|specialize (IH n)|specialize (IH 0%nat)]; lia.
Qed.

Lemma length_string_app s1 s2 :
  String.length (s1 +:+ s2) = (String.length s1 + String.length s2)%nat.
Proof. induction s1 as [|c s1 IH]; simpl; [done|]. by rewrite IH. Qed.

Lemma string_app_nil_r s : s +:+ "" = s.
Proof.
  induction s as [|c s IH]; [done|]. change (String c s +:+ "") with (String c (s +:+ "")). by rewrite IH.
Qed.

Lemma string_app_cons c s t : String c s +:+ t = String c (s +:+ t).
Proof. done. Qed.

Lemma string_app_nil_l t : "" +:+ t = t.
Proof. done. Qed.

Lemma string_app_assoc s1 s2 s3 : (s1 +:+ s2) +:+ s3 = s1 +:+ (s2 +:+ s3).
Proof. induction s1 as [|c s1 IH]; [done|]. by rewrite !string_app_cons, IH. Qed.

Lemma CutByte_app sep s a b : CutByte sep s = Some (a, b) → s = a +:+ String sep b.
Proof.
  revert a b. induction s as [|c s IH]; intros a b H; [done|]. cbn in H. destruct (Ascii.eqb c sep) eqn:E.
  - apply Ascii.eqb_eq in E. by simplify_eq.
  - destruct (CutByte sep s) as [[a' b']|]; [|done]. cbn in H. injection H as <- <-. rewrite (IH _ _ eq_refl). done.
Qed.

Lemma CutByte_at sep k rest : chars (λ c, negb (Ascii.eqb c sep)) k → CutByte sep (k +:+ String sep rest) = Some (k, rest).
Proof.
  induction k as [|c k IH]; intros H; [rewrite string_app_nil_l; cbn [CutByte]; by rewrite Ascii.eqb_refl|]. cbn [chars] in H. apply andb_True in H as [Hc H].
  rewrite string_app_cons. cbn [CutByte]. destruct (Ascii.eqb c sep); [done|]. by rewrite IH.
Qed.

Lemma HasPrefix_app pre s : HasPrefix (pre +:+ s) pre = true.
Proof. unfold HasPrefix. induction pre as [|c pre IH]; [by destruct s|]. rewrite string_app_cons. cbn [String.prefix].
  by destruct (ascii_dec c c). Qed.

Lemma ToLower_idem s : ToLower (ToLower s) = ToLower s.
Proof.
  unfold ToLower. induction s as [|c s IH]; [done|]. cbn [string_map]. f_equal; [|exact IH].
  by destruct c as [[] [] [] [] [] [] [] []].
Qed.

End GoStrings.

Export GoStrings.

Lemma forallb_Forall {A} (f : A → bool) l : forallb f l = true ↔ Forall (λ x, f x = true) l.
Proof.
  induction l as [|x l IH]; cbn; [by split|]. by rewrite andb_true_iff, Forall_cons, IH.
Qed.

(** ** 64-bit integers *)
Definition wrap64 (z : Z) : Z := ((z + 2 ^ 63) mod 2 ^ 64 - 2 ^ 63)%Z.

Lemma wrap64_id z : (- 2 ^ 63 <= z < 2 ^ 63)%Z → wrap64 z = z.
Proof. intros H. unfold wrap64. rewrite Z.mod_small; lia. Qed.

(** ** Maps iterated in key order

    The Go code never lets a map's iteration order leak: it ranges over
    [slices.Sorted(maps.Keys(m))].  [sorted_items m] is that iteration, each
    key with the value [m[key]] the loop body fetches. *)
Section sorted.
Context {A : Type} (key : A → string).

Definition key_le (a b : A) : Prop := String.le (key a) (key b).

#[export] Instance key_le_dec : RelDecision key_le.
Proof. intros a b. unfold key_le. apply _. Defined.

Lemma key_le_trans : Transitive key_le.
Proof. intros a b c. unfold key_le. apply (transitivity (R := String.le)). Qed.

Lemma key_le_total : Total key_le.
Proof. intros a b. apply (total String.le). Qed.

Definition sort_by_key (l : list A) : list A := merge_sort key_le l.

(** Strictly increasing keys: sorted and without duplicates. *)
Definition key_lt (a b : A) : Prop := String.le (key a) (key b) ∧ key a ≠ key b.

Lemma sort_by_key_perm l : sort_by_key l ≡ₚ l.
Proof. apply merge_sort_Permutation. Qed.

Lemma elem_of_sort_by_key x l : x ∈ sort_by_key l ↔ x ∈ l.
Proof. by rewrite sort_by_key_perm. Qed.

Lemma strongly_sorted_lt (l : list A) :
  StronglySorted key_le l → NoDup (key <$> l) → StronglySorted key_lt l.
Proof.
  induction 1 as [|x l Hs IH Hall]; intros Hnd; [constructor|].
  apply NoDup_cons in Hnd as [Hni Hnd]. constructor; [by apply IH|].
  apply Forall_forall. intros y Hy. split.
  - by apply (proj1 (Forall_forall _ _) Hall).
  - intros Heq. apply Hni. rewrite Heq. apply list_elem_of_fmap. eauto.
Qed.

Lemma sort_by_key_lt l : NoDup (key <$> l) → StronglySorted key_lt (sort_by_key l).
Proof.
  intros Hnd. pose proof key_le_trans. pose proof key_le_total.
  apply strongly_sorted_lt.
  - by apply StronglySorted_merge_sort.
  - by rewrite sort_by_key_perm.
Qed.

Lemma key_lt_NoDup l : StronglySorted key_lt l → NoDup (key <$> l).
Proof.
  induction 1 as [|x l Hs IH Hall]; [constructor|].
  apply NoDup_cons; split; [|done].
  intros (y & Heq & Hy)%list_elem_of_fmap.
  by destruct (proj1 (Forall_forall _ _) Hall y Hy).
Qed.
End sorted.

Definition sorted_items {V} (m : gmap string V) : list (string * V) :=
  sort_by_key fst (map_to_list m).

Definition sorted_keys {V} (m : gmap string V) : list string := (sorted_items m).*1.

Lemma elem_of_sorted_items {V} (m : gmap string V) k v :
  (k, v) ∈ sorted_items m ↔ m !! k = Some v.
Proof. unfold sorted_items. by rewrite elem_of_sort_by_key, elem_of_map_to_list. Qed.

Lemma elem_of_sorted_keys {V} (m : gmap string V) k :
  k ∈ sorted_keys m ↔ is_Some (m !! k).
Proof.
  unfold sorted_keys. rewrite list_elem_of_fmap. split.
  - intros ([k' v] & -> & H%elem_of_sorted_items). by exists v.
  - intros [v H]. exists (k, v). split; [done|]. by apply elem_of_sorted_items.
Qed.

Lemma NoDup_sorted_keys {V} (m : gmap string V) : NoDup (sorted_keys m).
Proof.
  unfold sorted_keys, sorted_items. rewrite sort_by_key_perm. apply NoDup_fst_map_to_list.
Qed.

Lemma sorted_keys_lt {V} (m : gmap string V) :
  StronglySorted (key_lt id) (sorted_keys m).
Proof.
  assert (Hs : StronglySorted (key_lt fst) (sorted_items m)).
  { apply sort_by_key_lt, NoDup_fst_map_to_list. }
  unfold sorted_keys. induction Hs as [|x l Hs IH Hall]; simpl; constructor; [done|].
  apply Forall_fmap. eapply Forall_impl; [exact Hall|]. done.
Qed.

Lemma sorted_items_empty {V} : sorted_items (∅ : gmap string V) = [].
Proof. unfold sorted_items, sort_by_key. by rewrite map_to_list_empty. Qed.

(** ** Slices: append unless already present *)
Section append_unique.
Context {A : Type} `{EqDecision A}.

Definition append_unique (l : list A) (x : A) : list A :=
  if decide (x ∈ l) then l else l ++ [x].

Definition append_uniques (l add : list A) : list A := foldl append_unique l add.

Lemma elem_of_append_unique l x y : y ∈ append_unique l x ↔ y ∈ l ∨ y = x.
Proof.
  unfold append_unique. case_decide; [naive_solver|].
  rewrite elem_of_app, list_elem_of_singleton. done.
Qed.

Lemma elem_of_append_uniques l add y : y ∈ append_uniques l add ↔ y ∈ l ∨ y ∈ add.
Proof.
  unfold append_uniques. revert l. induction add as [|x add IH]; intros l; simpl.
  - split; [auto|]. intros [|H]; [done|]. by apply not_elem_of_nil in H.
  - rewrite IH, elem_of_append_unique, elem_of_cons. tauto.
Qed.

Lemma append_unique_NoDup l x : NoDup l → NoDup (append_unique l x).
Proof.
  intros Hl. unfold append_unique. case_decide; [done|].
  apply NoDup_app. split; [done|]. split; [|apply NoDup_singleton].
  intros y Hy ->%list_elem_of_singleton. done.
Qed.

Lemma append_uniques_NoDup l add : NoDup l → NoDup (append_uniques l add).
Proof.
  revert l. induction add as [|x add IH]; intros l Hl; simpl; [done|].
  by apply IH, append_unique_NoDup.
Qed.

Lemma append_unique_not_nil l x : append_unique l x ≠ [].
Proof.
  intros H. assert (x ∈ append_unique l x) as Hx by (apply elem_of_append_unique; auto).
  rewrite H in Hx. by apply not_elem_of_nil in Hx.
Qed.

Lemma append_uniques_not_nil l add : l ≠ [] ∨ add ≠ [] → append_uniques l add ≠ [].
Proof.
  intros Hne Heq.
  assert (∃ y, y ∈ append_uniques l add) as [y Hy].
  { setoid_rewrite elem_of_append_uniques.
    destruct Hne as [H|H]; [destruct l as [|y l]|destruct add as [|y add]]; try done;
      exists y; rewrite elem_of_cons; tauto. }
  rewrite Heq in Hy. by apply not_elem_of_nil in Hy.
Qed.
End append_unique.

#[export] Hint Resolve append_unique_NoDup append_uniques_NoDup append_unique_not_nil
  append_uniques_not_nil : configd.

(** ** Map update of an entry that may be new

    [upsert k new f m] is the Go idiom "[p := m[k]; if p == nil { p = &new;
    m[k] = p }]; update [p] in place with [f]". *)
Definition upsert {V} (k : string) (new : V) (f : V → V) (m : gmap string V) : gmap string V :=
  <[k := f (default new (m !! k))]> m.

Lemma map_Forall_upsert {V} (P : string → V → Prop) k new f (m : gmap string V) :
  map_Forall P m →
  (∀ v, m !! k = Some v ∨ (m !! k = None ∧ v = new) → P k (f v)) →
  map_Forall P (upsert k new f m).
Proof.
  intros Hm Hf. unfold upsert. apply map_Forall_insert_2; [|done].
  apply Hf. destruct (m !! k); simpl; auto.
Qed.

(** [foldl] keeps an invariant that every step of the loop keeps. *)
Lemma foldl_inv {A B} (P : A → Prop) (f : A → B → A) l a :
  P a → (∀ a x, x ∈ l → P a → P (f a x)) → P (foldl f a l).
Proof.
  revert a. induction l as [|x l IH]; intros a Ha Hf; simpl; [done|].
  apply IH; [apply Hf; [by left|done]|]. intros a' y Hy. apply Hf. by right.
Qed.

(** A loop over [l] reaches the step of [x]: what that step establishes and the
    later steps keep holds at the end. *)
Lemma foldl_reach {A B} (P : A → Prop) (f : A → B → A) l a x :
  x ∈ l → (∀ a, P (f a x)) → (∀ a y, y ∈ l → P a → P (f a y)) → P (foldl f a l).
Proof.
  intros Hx Hest Hkeep. revert a. induction l as [|y l IH]; intros a; simpl.
  - by apply not_elem_of_nil in Hx.
  - apply elem_of_cons in Hx as [<-|Hx].
    + apply foldl_inv; [apply Hest|]. intros; apply Hkeep; [by right|done].
    + apply IH; [done|]. intros; apply Hkeep; [by right|done].
Qed.
