(* ===== verification/Config.v ===== *)
(** * Config: internal/config

    The parsed [zmconfigd.cf] ([MtaConfig]), the legacy truth values and the
    daemon parameters read from localconfig ([SetVals]).  A [ConfigMap] is the
    map it guards. *)
From S2P Require Import Prelude.
Open Scope Z_scope.

(** ** The parsed zmconfigd.cf

    A nil section pointer is a missing key: [Compute] skips both. *)
Record RewriteEntry := { re_Value : string; re_Mode : string }.

Record Conditional := {
  cond_Type : string;
  cond_Key : string;
  cond_Negated : bool;
  cond_Postconf : gmap string string;
  cond_Postconfd : gmap string string;
  cond_RequiredVars : gmap string string
}.

Record MtaConfigSection := {
  sec_Name : string;
  sec_Depends : gmap string bool;
  sec_Rewrites : gmap string RewriteEntry;
  sec_Restarts : gmap string bool;
  sec_RequiredVars : gmap string string;
  sec_Postconf : gmap string string;
  sec_Postconfd : gmap string string;
  sec_Ldap : gmap string string;
  sec_Proxygen : bool;
  sec_Conditionals : list Conditional
}.

Record MtaConfig := { mta_Sections : gmap string MtaConfigSection }.

(** ** Legacy truth values (consts.go) *)
Definition IsTruthy (s : string) : bool := EqualFold s "TRUE" || String.eqb s "1".

Definition hasPrefixFold (s prefix : string) : bool :=
  (String.length prefix <=? String.length s)%nat &&
  EqualFold (take_string (String.length prefix) s) prefix.

Definition IsFalseValue (val : string) : bool :=
  match val with
  | EmptyString => true
  | String "0" _ => true
  | _ => hasPrefixFold val "no" || hasPrefixFold val "false"
  end.

Definition IsTrueValue (val : string) : bool := negb (IsFalseValue val).

(** ** Daemon parameters (types.go) *)
Record Config := {
  Progname : string; Hostname : string; WdAll : bool; Debug : bool;
  BaseDir : string; ConfigFile : string; TemplateDir : string;
  Sections : list string; ServiceHooks : string; LogFile : string;
  Interval : Z; WatchdogInterval : Z; SkipIdlePolls : bool; RestartConfig : bool;
  RestartDebounce : Z; MetricsTextfile : string; CycleSummary : bool; Watchdog : bool;
  WdList : list string; LogLevel : Z; LdapIsMaster : bool; LdapRootPassword : string;
  LdapMasterURL : string; LdapChangeTrigger : bool; LdapChangePollSeconds : Z;
  LdapChangeDebounceSeconds : Z
}.

Section local.
Variable data : gmap string string.

Definition localStr (key dst : string) : string := default dst (data !! key).

Definition localInt (key : string) (dst : Z) : Z :=
  match data !! key with
  | Some v => if String.eqb v "" then dst else default dst (Atoi v)
  | None => dst
  end.

Definition localBoolTrue (key : string) (dst : bool) : bool :=
  match data !! key with Some v => EqualFold v "TRUE" | None => dst end.

Definition localBoolNotFalse (key : string) (dst : bool) : bool :=
  match data !! key with Some v => negb (EqualFold v "FALSE") | None => dst end.

Definition localBoolUnlessOff (key : string) (dst : bool) : bool :=
  match data !! key with
  | Some v => negb (bool_decide (ToLower (TrimSpace v) ∈ ["false"; "no"; "0"; "off"]))
  | None => dst
  end.

(** [setTemplateDir] and [SetRuntimeVals]: the keys that shape the wiring. *)
Definition templateDirOf (c : Config) : string * string :=
  match data !! "zmconfigd_template_dir" with
  | Some v =>
      if String.eqb v "" then (TemplateDir c, ConfigFile c)
      else (v, v +:+ "/conf/zmconfigd.cf")
  | None => (TemplateDir c, ConfigFile c)
  end.

Definition SetRuntimeVals (c : Config) : Config :=
  let '(td, cf) := templateDirOf c in
  {| Progname := Progname c; Hostname := Hostname c; WdAll := WdAll c; Debug := Debug c;
     BaseDir := BaseDir c; ConfigFile := cf; TemplateDir := td;
     Sections := match data !! "zmconfigd_sections" with
                 | Some v => Fields v | None => Sections c end;
     ServiceHooks := localStr "zmconfigd_service_hooks" (ServiceHooks c);
     LogFile := LogFile c; Interval := Interval c; WatchdogInterval := WatchdogInterval c;
     SkipIdlePolls := SkipIdlePolls c; RestartConfig := RestartConfig c;
     RestartDebounce := RestartDebounce c; MetricsTextfile := MetricsTextfile c;
     CycleSummary := CycleSummary c; Watchdog := Watchdog c; WdList := WdList c;
     LogLevel := LogLevel c; LdapIsMaster := LdapIsMaster c;
     LdapRootPassword := LdapRootPassword c; LdapMasterURL := LdapMasterURL c;
     LdapChangeTrigger := LdapChangeTrigger c;
     LdapChangePollSeconds := LdapChangePollSeconds c;
     LdapChangeDebounceSeconds := LdapChangeDebounceSeconds c |}.

Definition SetVals (c : Config) : Config :=
  let c1 := SetRuntimeVals c in
  {| Progname := Progname c1; Hostname := Hostname c1; WdAll := WdAll c1;
     Debug := localBoolTrue "zmconfigd_debug" (Debug c1);
     BaseDir := BaseDir c1; ConfigFile := ConfigFile c1; TemplateDir := TemplateDir c1;
     Sections := Sections c1; ServiceHooks := ServiceHooks c1; LogFile := LogFile c1;
     Interval := localInt "zmconfigd_interval" (Interval c1);
     WatchdogInterval := localInt "zmconfigd_watchdog_interval" (WatchdogInterval c1);
     SkipIdlePolls := localBoolTrue "zmconfigd_skip_idle_polls" (SkipIdlePolls c1);
     RestartConfig := localBoolNotFalse "zmconfigd_enable_config_restarts" (RestartConfig c1);
     RestartDebounce := localInt "zmconfigd_restart_debounce_seconds" (RestartDebounce c1);
     MetricsTextfile := localStr "zmconfigd_metrics_textfile" (MetricsTextfile c1);
     CycleSummary := localBoolTrue "zmconfigd_cycle_summary" (CycleSummary c1);
     Watchdog := localBoolNotFalse "zmconfigd_watchdog" (Watchdog c1);
     WdList := match data !! "zmconfigd_watchdog_services" with
               | Some v => Fields v | None => WdList c1 end;
     LogLevel := localInt "zmconfigd_log_level" (LogLevel c1);
     LdapIsMaster := localBoolTrue "ldap_is_master" (LdapIsMaster c1);
     LdapRootPassword := localStr "ldap_root_password" (LdapRootPassword c1);
     LdapMasterURL := localStr "ldap_master_url" (LdapMasterURL c1);
     LdapChangeTrigger := localBoolUnlessOff "zmconfigd_ldap_change_trigger" (LdapChangeTrigger c1);
     LdapChangePollSeconds := localInt "zmconfigd_ldap_change_poll_seconds" (LdapChangePollSeconds c1);
     LdapChangeDebounceSeconds :=
       localInt "zmconfigd_ldap_change_debounce_seconds" (LdapChangeDebounceSeconds c1) |}.
End local.

(** [NewConfigWithHostname] with the base directory and the hostname resolved. *)
Definition NewConfigWithHostname (baseDir hostname : string) : Config :=
  {| Progname := "zmconfigd"; Hostname := hostname; WdAll := false; Debug := false;
     BaseDir := baseDir; ConfigFile := baseDir +:+ "/conf/zmconfigd.cf";
     TemplateDir := baseDir; Sections := []; ServiceHooks := "";
     LogFile := baseDir +:+ "/log/zmconfigd.log"; Interval := 300; WatchdogInterval := 120;
     SkipIdlePolls := false; RestartConfig := true; RestartDebounce := 0;
     MetricsTextfile := ""; CycleSummary := false; Watchdog := true;
     WdList := ["antivirus"]; LogLevel := 3; LdapIsMaster := false; LdapRootPassword := "";
     LdapMasterURL := ""; LdapChangeTrigger := true; LdapChangePollSeconds := 5;
     LdapChangeDebounceSeconds := 2 |}.

(** [TemplatePath]: a path under the template root. *)
Definition TemplatePath (c : Config) (rel : string) : string :=
  (if String.eqb (TemplateDir c) "" then BaseDir c else TemplateDir c) +:+ "/" +:+ rel.

Lemma IsFalseValue_examples :
  Forall (λ v, IsFalseValue v = true)
    [""; "0"; "0.5"; "00:30"; "no"; "None"; "NOBODY"; "FALSE"; "falsey"] ∧
  Forall (λ v, IsFalseValue v = false) ["1"; "TRUE"; "yes"; "n"; "fals"; "on"].
Proof. split; repeat constructor. Qed.
