(* ===== verification/Snapshot.v ===== *)
(** * Snapshot: internal/snapshot

    The immutable per-cycle view of the configuration and its accessors.  A
    [*Snapshot] is an [option]: the accessors answer for a nil pointer. *)
From S2P Require Import Prelude.

Definition TypeVar := "VAR".
Definition TypeLocal := "LOCAL".
Definition TypeFile := "FILE".
Definition TypeMapFile := "MAPFILE".
Definition TypeMapLocal := "MAPLOCAL".
Definition TypeService := "SERVICE".
Definition ServiceTrue := "TRUE".
Definition ServiceFalse := "FALSE".

(** The observed values are keyed by [Lookup{Type, Key}], here a pair. *)
Record Snapshot := {
  snap_local : gmap string string;
  snap_global : gmap string string;
  snap_server : gmap string string;
  snap_misc : gmap string string;
  snap_services : gmap string string;
  snap_observed : gmap (string * string) string
}.

Definition zero_snapshot : Snapshot :=
  {| snap_local := ∅; snap_global := ∅; snap_server := ∅; snap_misc := ∅;
     snap_services := ∅; snap_observed := ∅ |}.

Record Parts := {
  Local_ : gmap string string; Global_ : gmap string string; Server_ : gmap string string;
  Misc_ : gmap string string; Services_ : gmap string string
}.

Definition New (p : Parts) : Snapshot :=
  {| snap_local := Local_ p; snap_global := Global_ p; snap_server := Server_ p;
     snap_misc := Misc_ p; snap_services := Services_ p; snap_observed := ∅ |}.

Definition WithObserved (s : option Snapshot) (obs : gmap (string * string) string) : Snapshot :=
  let out := default zero_snapshot s in
  {| snap_local := snap_local out; snap_global := snap_global out; snap_server := snap_server out;
     snap_misc := snap_misc out; snap_services := snap_services out; snap_observed := obs |}.

(** Accessors: [None] is the Go [("", false)]. *)
Definition Local (s : option Snapshot) (key : string) : option string :=
  s ← s; snap_local s !! key.

Definition Global (s : option Snapshot) (key : string) : option string :=
  s ← s; snap_global s !! key.

Definition Server (s : option Snapshot) (key : string) : option string :=
  s ← s; snap_server s !! key.

Definition Misc (s : option Snapshot) (key : string) : option string :=
  s ← s; snap_misc s !! key.

(** [Var]: server config first, then misc, then global. *)
Definition Var (s : option Snapshot) (key : string) : option string :=
  match Server s key with
  | Some v => Some v
  | None => match Misc s key with Some v => Some v | None => Global s key end
  end.

Definition ServiceEnabled (s : option Snapshot) (name : string) : bool :=
  match s with
  | None => false
  | Some s => match snap_services s !! name with Some _ => true | None => false end
  end.

Definition ServiceNames (s : option Snapshot) : list string :=
  match s with None => [] | Some s => sorted_keys (snap_services s) end.

Definition ServiceValue (s : option Snapshot) (name : string) : string :=
  match s with None => "" | Some s => default "" (snap_services s !! name) end.

Definition Observed (s : option Snapshot) (lookupType key : string) : option string :=
  s ← s; snap_observed s !! (lookupType, key).

Definition Value (s : option Snapshot) (lookupType key : string) : option string :=
  if String.eqb lookupType TypeVar then Var s key
  else if String.eqb lookupType TypeLocal then Local s key
  else if String.eqb lookupType TypeService then
    Some (if ServiceEnabled s key then ServiceTrue else ServiceFalse)
  else Observed s lookupType key.

(** Copies with one layer replaced ([shallow] copies the zero value for nil). *)
Definition shallow (s : option Snapshot) : Snapshot := default zero_snapshot s.

Definition WithLocal (s : option Snapshot) (local : gmap string string) : Snapshot :=
  let out := shallow s in
  {| snap_local := local; snap_global := snap_global out; snap_server := snap_server out;
     snap_misc := snap_misc out; snap_services := snap_services out;
     snap_observed := snap_observed out |}.

Definition WithGlobal (s : option Snapshot) (global : gmap string string) : Snapshot :=
  let out := shallow s in
  {| snap_local := snap_local out; snap_global := global; snap_server := snap_server out;
     snap_misc := snap_misc out; snap_services := snap_services out;
     snap_observed := snap_observed out |}.

Definition WithMisc (s : option Snapshot) (misc : gmap string string) : Snapshot :=
  let out := shallow s in
  {| snap_local := snap_local out; snap_global := snap_global out; snap_server := snap_server out;
     snap_misc := misc; snap_services := snap_services out;
     snap_observed := snap_observed out |}.

Definition WithServer (s : option Snapshot) (server services : gmap string string) : Snapshot :=
  let out := shallow s in
  {| snap_local := snap_local out; snap_global := snap_global out; snap_server := server;
     snap_misc := snap_misc out; snap_services := services;
     snap_observed := snap_observed out |}.

Lemma elem_of_ServiceNames s svc : svc ∈ ServiceNames s ↔ ServiceEnabled s svc = true.
Proof.
  destruct s as [s|]; simpl; [|split; [by intros ?%not_elem_of_nil|done]].
  rewrite elem_of_sorted_keys. split.
  - by intros [v ->].
  - destruct (snap_services s !! svc); [by eexists|done].
Qed.

Lemma ServiceEnabled_not_names s svc : ServiceEnabled s svc = false ↔ svc ∉ ServiceNames s.
Proof. rewrite elem_of_ServiceNames. destruct (ServiceEnabled s svc); naive_solver. Qed.
