(* ===== verification/Redact.v ===== *)
(** * Redact: internal/redact

    Which configuration keys are secret, and the placeholder that replaces
    their value in log output. *)
From S2P Require Import Prelude.

Definition Placeholder := "[REDACTED]".

Definition secretKeyTokens : list string :=
  ["password"; "passwd"; "passphrase"; "secret"; "token"; "credential"; "privatekey";
   "private_key"; "apikey"; "api_key"; "_pwd"; "bindpw"; "creds"].

Definition secretKeySuffixes : list string := ["_key"; "_pass"; "_pw"; "_pin"].

Definition IsSecretKey (key : string) : bool :=
  let k := ToLower key in
  String.eqb k "pin" ||
  existsb (Contains k) secretKeyTokens ||
  existsb (HasSuffix k) secretKeySuffixes.

Definition ForLog (key value : string) : string :=
  if String.eqb value "" || negb (IsSecretKey key) then value else Placeholder.

Lemma ForLog_secret key value :
  IsSecretKey key = true → ForLog key value = "" ∨ ForLog key value = Placeholder.
Proof.
  intros Hs. unfold ForLog. rewrite Hs. simpl. rewrite orb_false_r.
  destruct (String.eqb_spec value ""); auto.
Qed.

Lemma IsSecretKey_examples :
  Forall (λ k, IsSecretKey k = true)
    ["ldap_amavis_password"; "zimbraAuthTokenKey"; "SSL_KEY"; "ldap_root_pw"; "PIN"] ∧
  Forall (λ k, IsSecretKey k = false) ["zimbraMailKeyPort"; "zimbraMtaMyNetworks"; "pinned"].
Proof. split; repeat constructor. Qed.
