(* ===== verification/Plan.v ===== *)
(** * Plan: internal/plan, the data of a plan

    The plan entries and their reasons (types.go, reason.go), the heavy-service
    classification (heavy.go) and the merge of deferred restarts (deferred.go). *)
From S2P Require Import Prelude Redact.

(** ** Reasons (reason.go) *)
Inductive ReasonKind :=
  | ReasonFirstRun | ReasonForced | ReasonRequested | ReasonVarChanged | ReasonEvaluated
  | ReasonServiceEnabled | ReasonServiceDisabled | ReasonDependency | ReasonRetry
  | ReasonDrift | ReasonDeferred | ReasonMapfileSync.

#[export] Instance ReasonKind_eq_dec : EqDecision ReasonKind.
Proof. solve_decision. Defined.

Definition kind_string (k : ReasonKind) : string :=
  match k with
  | ReasonFirstRun => "first-run" | ReasonForced => "forced"
  | ReasonRequested => "requested" | ReasonVarChanged => "var-changed"
  | ReasonEvaluated => "evaluated" | ReasonServiceEnabled => "service-enabled"
  | ReasonServiceDisabled => "service-disabled" | ReasonDependency => "dependency"
  | ReasonRetry => "retry" | ReasonDrift => "drift" | ReasonDeferred => "deferred"
  | ReasonMapfileSync => "mapfile-sync"
  end.

Record Reason := MkReason {
  Kind : ReasonKind; rn_Section : string; rn_Type : string; rn_Key : string;
  rn_Old : string; rn_New : string; rn_Service : string; rn_Detail : string
}.

#[export] Instance Reason_eq_dec : EqDecision Reason.
Proof. solve_decision. Defined.

(** A reason that only says a kind, or a kind and a section (and key). *)
Definition kind_reason (k : ReasonKind) : Reason := MkReason k "" "" "" "" "" "" "".
Definition section_reason (k : ReasonKind) (sn : string) : Reason := MkReason k sn "" "" "" "" "" "".
Definition service_reason (k : ReasonKind) (svc : string) : Reason := MkReason k "" "" "" "" "" svc "".
Definition drift_reason (detail : string) : Reason := MkReason ReasonDrift "" "" "" "" "" "" detail.

Definition maxReasonValue : nat := 120.

Definition displayValue (key val : string) : string :=
  let val := ForLog key val in
  if (maxReasonValue <? String.length val)%nat
  then ToValidUTF8 (take_string maxReasonValue val) +:+ "..."
  else val.

Definition varChanged (section lookupType key oldVal newVal : string) : Reason :=
  MkReason ReasonVarChanged section lookupType key (displayValue key oldVal)
    (displayValue key newVal) "" "".

Definition quoteValue (v : string) : string :=
  if String.eqb v "" then "<unset>" else "'" +:+ v +:+ "'".

Definition reason_string (r : Reason) : string :=
  match Kind r with
  | ReasonFirstRun => "first run: section " +:+ rn_Section r +:+ " rendered for the first time"
  | ReasonForced => "section " +:+ rn_Section r +:+ " forced by REWRITE request"
  | ReasonRequested => "section " +:+ rn_Section r +:+ " requested by REWRITE command"
  | ReasonEvaluated => "section " +:+ rn_Section r +:+ " evaluated against the host state"
  | ReasonVarChanged =>
      "section " +:+ rn_Section r +:+ " changed because " +:+ rn_Type r +:+ " " +:+ rn_Key r +:+
      " changed " +:+ quoteValue (rn_Old r) +:+ "->" +:+ quoteValue (rn_New r)
  | ReasonServiceEnabled => "service " +:+ rn_Service r +:+ " was enabled"
  | ReasonServiceDisabled => "service " +:+ rn_Service r +:+ " was disabled"
  | ReasonDependency => "dependency of " +:+ rn_Service r
  | ReasonRetry => "retry: previous attempt did not complete"
  | ReasonDrift => "drift: " +:+ rn_Detail r
  | ReasonDeferred => "restart deferred from the REWRITE of section " +:+ rn_Section r
  | ReasonMapfileSync => "mapped file kept in sync with the configuration"
  end.

Definition Strings (reasons : list Reason) : list string := reason_string <$> reasons.

Definition appendReason (reasons : list Reason) (r : Reason) : list Reason := append_unique reasons r.

Definition appendReasons (reasons add : list Reason) : list Reason := append_uniques reasons add.

Definition appendUnique (l : list string) (s : string) : list string := append_unique l s.

(** ** Plan entries (types.go) *)
Inductive Action := ActionRestart | ActionStop | ActionStart | ActionPendingRestart.

#[export] Instance Action_eq_dec : EqDecision Action.
Proof. solve_decision. Defined.

Record Section_ := { s_Name : string; s_Reasons : list Reason }.

Record Mapfile := {
  mf_Key : string; mf_Local : bool; mf_Sections : list string; mf_Reasons : list Reason }.

Record Rewrite := {
  rw_Source : string; rw_Target : string; rw_Mode : string;
  rw_Sections : list string; rw_Reasons : list Reason }.

Record Postconf := {
  pc_Key : string; pc_Value : string; pc_Sections : list string; pc_Reasons : list Reason }.

Record Postconfd := {
  pd_Key : string; pd_Value : string; pd_Sections : list string; pd_Reasons : list Reason }.

Record Ldap := {
  ld_Key : string; ld_Value : string; ld_Sections : list string; ld_Reasons : list Reason }.

Record Proxygen := { pg_Sections : list string; pg_Reasons : list Reason }.

Record Restart := {
  r_Service : string; r_Action : Action; r_Sections : list string; r_Reasons : list Reason }.

Record Carry := {
  c_Rewrites : list Rewrite; c_Postconf : list Postconf; c_Postconfd : list Postconfd;
  c_Ldap : list Ldap; c_Proxygen : option Proxygen; c_Restarts : list Restart }.

Definition empty_carry : Carry :=
  {| c_Rewrites := []; c_Postconf := []; c_Postconfd := []; c_Ldap := [];
     c_Proxygen := None; c_Restarts := [] |}.

Record Plan := {
  p_FirstRun : bool; p_Sections : list Section_; p_Heal : list Mapfile;
  p_Mapfiles : list Mapfile; p_Rewrites : list Rewrite; p_Postconf : list Postconf;
  p_Postconfd : list Postconfd; p_Ldap : list Ldap; p_Proxygen : option Proxygen;
  p_Restarts : list Restart; p_DeferredRestarts : list Restart;
  p_Tracked : gmap string string; p_Enabled : list string }.

Definition is_nil {A} (l : list A) : bool := match l with [] => true | _ => false end.

Definition Plan_IsEmpty (p : Plan) : bool :=
  is_nil (p_Mapfiles p) && is_nil (p_Rewrites p) && is_nil (p_Postconf p) &&
  is_nil (p_Postconfd p) && is_nil (p_Ldap p) &&
  match p_Proxygen p with None => true | Some _ => false end && is_nil (p_Restarts p).

Definition Carry_IsEmpty (c : Carry) : bool :=
  is_nil (c_Rewrites c) && is_nil (c_Postconf c) && is_nil (c_Postconfd c) &&
  is_nil (c_Ldap c) && match c_Proxygen c with None => true | Some _ => false end &&
  is_nil (c_Restarts c).

(** ** What every entry has

    The entries of a plan share a key, the sections they come from and the
    reasons behind them; [with_reasons] is the in-place update of the reasons. *)
Class PlanEntry (T : Type) := {
  entry_key : T → string;
  entry_sections : T → list string;
  entry_reasons : T → list Reason;
  with_reasons : list Reason → T → T;
  entry_reasons_with rs e : entry_reasons (with_reasons rs e) = rs;
  entry_sections_with rs e : entry_sections (with_reasons rs e) = entry_sections e;
  entry_key_with rs e : entry_key (with_reasons rs e) = entry_key e
}.

#[export] Program Instance Mapfile_entry : PlanEntry Mapfile := {|
  entry_key := mf_Key; entry_sections := mf_Sections; entry_reasons := mf_Reasons;
  with_reasons rs e := {| mf_Key := mf_Key e; mf_Local := mf_Local e;
                          mf_Sections := mf_Sections e; mf_Reasons := rs |} |}.
Solve All Obligations with done.

#[export] Program Instance Rewrite_entry : PlanEntry Rewrite := {|
  entry_key := rw_Source; entry_sections := rw_Sections; entry_reasons := rw_Reasons;
  with_reasons rs e := {| rw_Source := rw_Source e; rw_Target := rw_Target e;
                          rw_Mode := rw_Mode e; rw_Sections := rw_Sections e;
                          rw_Reasons := rs |} |}.
Solve All Obligations with done.

#[export] Program Instance Postconf_entry : PlanEntry Postconf := {|
  entry_key := pc_Key; entry_sections := pc_Sections; entry_reasons := pc_Reasons;
  with_reasons rs e := {| pc_Key := pc_Key e; pc_Value := pc_Value e;
                          pc_Sections := pc_Sections e; pc_Reasons := rs |} |}.
Solve All Obligations with done.

#[export] Program Instance Postconfd_entry : PlanEntry Postconfd := {|
  entry_key := pd_Key; entry_sections := pd_Sections; entry_reasons := pd_Reasons;
  with_reasons rs e := {| pd_Key := pd_Key e; pd_Value := pd_Value e;
                          pd_Sections := pd_Sections e; pd_Reasons := rs |} |}.
Solve All Obligations with done.

#[export] Program Instance Ldap_entry : PlanEntry Ldap := {|
  entry_key := ld_Key; entry_sections := ld_Sections; entry_reasons := ld_Reasons;
  with_reasons rs e := {| ld_Key := ld_Key e; ld_Value := ld_Value e;
                          ld_Sections := ld_Sections e; ld_Reasons := rs |} |}.
Solve All Obligations with done.

#[export] Program Instance Restart_entry : PlanEntry Restart := {|
  entry_key := r_Service; entry_sections := r_Sections; entry_reasons := r_Reasons;
  with_reasons rs e := {| r_Service := r_Service e; r_Action := r_Action e;
                          r_Sections := r_Sections e; r_Reasons := rs |} |}.
Solve All Obligations with done.

#[export] Hint Rewrite @entry_reasons_with @entry_sections_with @entry_key_with : configd.

(** ** Heavy services (heavy.go) *)
Definition heavyServices : list string :=
  ["mailbox"; "mailboxd"; "service"; "appserver-db"; "mysql"; "mariadb"; "store"; "ldap";
   "directory"; "directory-server"].

Definition HeavyService (service : string) : bool := bool_decide (ToLower service ∈ heavyServices).

Definition Classify (action : Action) (service : string) (systemd : bool) : Action :=
  if systemd && bool_decide (action = ActionRestart) && HeavyService service
  then ActionPendingRestart else action.

(** ** Merging restarts (deferred.go) *)
Definition set_Action (a : Action) (r : Restart) : Restart :=
  {| r_Service := r_Service r; r_Action := a; r_Sections := r_Sections r;
     r_Reasons := r_Reasons r |}.

Definition fold_into (have r : Restart) : Restart :=
  {| r_Service := r_Service have; r_Action := r_Action r;
     r_Sections := foldl appendUnique (r_Sections have) (r_Sections r);
     r_Reasons := appendReasons (r_Reasons have) (r_Reasons r) |}.

(** [mergeRestart]: fold [r] into the first entry of its service, or append it. *)
Fixpoint mergeRestart (l : list Restart) (r : Restart) : list Restart :=
  match l with
  | [] => [r]
  | have :: l' =>
      if decide (r_Service have = r_Service r) then fold_into have r :: l'
      else have :: mergeRestart l' r
  end.

Definition MergeRestarts (stale fresh : list Restart) (systemd : bool) : list Restart :=
  let merged := foldl mergeRestart (foldl mergeRestart [] stale) fresh in
  (λ r, set_Action (Classify (r_Action r) (r_Service r) systemd) r) <$>
    sort_by_key r_Service merged.
