(* ===== verification/Compute.v ===== *)
(** * Compute: internal/plan/compute.go

    [Compute] derives the plan of a cycle from the previous and the current
    snapshot.  The builder is a record whose maps hold the entries the Go maps
    point to; each method is the function from the builder to the builder it
    updates.  Loops over [slices.Sorted(maps.Keys(m))] are folds over
    [sorted_items m].  The maps whose entries are pruned against the host are
    ranged over in Go in any order; each step there touches its own key only. *)
From S2P Require Import Prelude Config Snapshot Plan.

Record Host := {
  h_Mapfiles : gmap string string; h_Rewrites : gmap string string;
  h_Postconf : gmap string string; h_Postconfd : gmap string string;
  h_Ldap : gmap string string; h_Proxygen : string }.

Record Input := {
  Prev : option Snapshot; Cur : option Snapshot; Conf : option MtaConfig;
  Forced : list string; Requested : list string; FirstRun : bool;
  Tracked : gmap string string; In_Carry : Carry; Scope : list string;
  AssumeChanged : bool; In_Host : option Host; Systemd : bool }.

Inductive ComputeError := ErrAllServicesDisabled.

Definition toSet (names : list string) : gset string := list_to_set names.

(** The builder.  [cur], [prev] and the three sets are functions of [in]. *)
Record builder := Builder {
  b_sections : list Section_;
  b_mapfiles : gmap (string * bool) Mapfile;
  b_heal : gmap string Mapfile;
  b_rewrites : gmap string Rewrite;
  b_postconf : gmap string Postconf;
  b_postconfd : gmap string Postconfd;
  b_ldap : gmap string Ldap;
  b_proxygen : option Proxygen;
  b_restarts : gmap string Restart;
  b_deferred : gmap string Restart;
  b_tracked : gmap string string
}.

Definition newBuilder (i : Input) : builder :=
  Builder [] ∅ ∅ ∅ ∅ ∅ ∅ None ∅ ∅ (Tracked i).

Definition set_sections f b := Builder (f (b_sections b)) (b_mapfiles b) (b_heal b) (b_rewrites b)
  (b_postconf b) (b_postconfd b) (b_ldap b) (b_proxygen b) (b_restarts b) (b_deferred b) (b_tracked b).
Definition set_mapfiles f b := Builder (b_sections b) (f (b_mapfiles b)) (b_heal b) (b_rewrites b)
  (b_postconf b) (b_postconfd b) (b_ldap b) (b_proxygen b) (b_restarts b) (b_deferred b) (b_tracked b).
Definition set_heal f b := Builder (b_sections b) (b_mapfiles b) (f (b_heal b)) (b_rewrites b)
  (b_postconf b) (b_postconfd b) (b_ldap b) (b_proxygen b) (b_restarts b) (b_deferred b) (b_tracked b).
Definition set_rewrites f b := Builder (b_sections b) (b_mapfiles b) (b_heal b) (f (b_rewrites b))
  (b_postconf b) (b_postconfd b) (b_ldap b) (b_proxygen b) (b_restarts b) (b_deferred b) (b_tracked b).
Definition set_postconf f b := Builder (b_sections b) (b_mapfiles b) (b_heal b) (b_rewrites b)
  (f (b_postconf b)) (b_postconfd b) (b_ldap b) (b_proxygen b) (b_restarts b) (b_deferred b) (b_tracked b).
Definition set_postconfd f b := Builder (b_sections b) (b_mapfiles b) (b_heal b) (b_rewrites b)
  (b_postconf b) (f (b_postconfd b)) (b_ldap b) (b_proxygen b) (b_restarts b) (b_deferred b) (b_tracked b).
Definition set_ldap f b := Builder (b_sections b) (b_mapfiles b) (b_heal b) (b_rewrites b)
  (b_postconf b) (b_postconfd b) (f (b_ldap b)) (b_proxygen b) (b_restarts b) (b_deferred b) (b_tracked b).
Definition set_proxygen f b := Builder (b_sections b) (b_mapfiles b) (b_heal b) (b_rewrites b)
  (b_postconf b) (b_postconfd b) (b_ldap b) (f (b_proxygen b)) (b_restarts b) (b_deferred b) (b_tracked b).
Definition set_restarts f b := Builder (b_sections b) (b_mapfiles b) (b_heal b) (b_rewrites b)
  (b_postconf b) (b_postconfd b) (b_ldap b) (b_proxygen b) (f (b_restarts b)) (b_deferred b) (b_tracked b).
Definition set_deferred f b := Builder (b_sections b) (b_mapfiles b) (b_heal b) (b_rewrites b)
  (b_postconf b) (b_postconfd b) (b_ldap b) (b_proxygen b) (b_restarts b) (f (b_deferred b)) (b_tracked b).
Definition set_tracked f b := Builder (b_sections b) (b_mapfiles b) (b_heal b) (b_rewrites b)
  (b_postconf b) (b_postconfd b) (b_ldap b) (b_proxygen b) (b_restarts b) (b_deferred b) (f (b_tracked b)).

(** ** Which sections are processed *)
Definition sectionServiceMap : gmap string string :=
  list_to_map [("amavis", "mta"); ("dhparam", "!dhparam"); ("sasl", "mta");
               ("webxml", "mailbox"); ("nginx", "proxy")].

Definition SectionEnabled (name : string) (enabled : string → bool) : bool :=
  let svc := default name (sectionServiceMap !! name) in
  match CutPrefix svc "!" with
  | (rest, true) => negb (enabled rest)
  | (_, false) => enabled svc
  end.

Section compute.
Variable i : Input.

Definition forced : gset string := toSet (Forced i).
Definition requested : gset string := toSet (Requested i).
Definition scope : gset string := toSet (Scope i).

Definition guardAllDisabled : option ComputeError :=
  if (size (Tracked i) <=? 1)%nat then None
  else if existsb (ServiceEnabled (Cur i)) (sorted_keys (Tracked i)) then None
  else Some ErrAllServicesDisabled.

Definition inScope (name : string) : bool :=
  bool_decide (scope = ∅) || bool_decide (name ∈ scope).

(** [diffSection]: one reason per required lookup whose observed value changed;
    a missing value and an empty one are the same. *)
Definition lookupKey (key : string) : string := TrimPrefix key "!".

Definition diffVar (sn : string) (kv : string * string) : list Reason :=
  let '(key, lookupType) := kv in
  let k := lookupKey key in
  let prevVal := default "" (Observed (Prev i) lookupType k) in
  let curVal := default "" (Observed (Cur i) lookupType k) in
  if String.eqb curVal "" then
    if String.eqb prevVal "" then [] else [varChanged sn lookupType k prevVal ""]
  else if String.eqb prevVal curVal then [] else [varChanged sn lookupType k prevVal curVal].

Definition diffSection (sn : string) (sec : MtaConfigSection) : list Reason :=
  sorted_items (sec_RequiredVars sec) ≫= diffVar sn.

Definition sectionReasons (sn : string) (changes : list Reason) : list Reason :=
  (if decide (sn ∈ forced) then [section_reason ReasonForced sn] else []) ++
  (if decide (sn ∈ requested) then [section_reason ReasonRequested sn] else []) ++
  (if FirstRun i then [section_reason ReasonFirstRun sn] else changes) ++
  (if AssumeChanged i then [section_reason ReasonEvaluated sn] else []).

(** ** Mapped files *)
Definition new_mapfile (key : string) (local : bool) : Mapfile :=
  {| mf_Key := key; mf_Local := local; mf_Sections := []; mf_Reasons := [] |}.

Definition add_mapfile (sn : string) (reasons : list Reason) (m : Mapfile) : Mapfile :=
  {| mf_Key := mf_Key m; mf_Local := mf_Local m;
     mf_Sections := appendUnique (mf_Sections m) sn;
     mf_Reasons := appendReasons (mf_Reasons m) reasons |}.

Definition mapfile_sync_reason (sn key : string) : Reason :=
  MkReason ReasonMapfileSync sn "" key "" "" "" "".

Definition healMapfiles (sn : string) (sec : MtaConfigSection) (compared : bool) (b : builder) : builder :=
  if negb compared then b else
  foldl (λ b '(key, lookupType),
    if negb (String.eqb lookupType TypeMapFile) then b else
    let k := lookupKey key in
    set_heal (upsert k (new_mapfile k false)
                (add_mapfile sn [mapfile_sync_reason sn k])) b)
    b (sorted_items (sec_RequiredVars sec)).

Definition mapfileOps (sn : string) (sec : MtaConfigSection) (reasons : list Reason) (b : builder) : builder :=
  foldl (λ b '(key, lookupType),
    if negb (String.eqb lookupType TypeMapFile) && negb (String.eqb lookupType TypeMapLocal)
    then b else
    let k := lookupKey key in
    let local := String.eqb lookupType TypeMapLocal in
    set_mapfiles (λ m, <[(k, local) :=
      add_mapfile sn reasons (default (new_mapfile k local) (m !! (k, local)))]> m) b)
    b (sorted_items (sec_RequiredVars sec)).

(** ** The actions of a processed section *)
Definition compileRewrites (sn : string) (sec : MtaConfigSection) (reasons : list Reason) (b : builder) : builder :=
  foldl (λ b '(src, entry),
    set_rewrites (upsert src
      {| rw_Source := src; rw_Target := ""; rw_Mode := ""; rw_Sections := []; rw_Reasons := [] |}
      (λ r, {| rw_Source := rw_Source r; rw_Target := re_Value entry; rw_Mode := re_Mode entry;
               rw_Sections := appendUnique (rw_Sections r) sn;
               rw_Reasons := appendReasons (rw_Reasons r) reasons |})) b)
    b (sorted_items (sec_Rewrites sec)).

Definition setPostconf (key val sn : string) (reasons : list Reason) (b : builder) : builder :=
  set_postconf (upsert key {| pc_Key := key; pc_Value := ""; pc_Sections := []; pc_Reasons := [] |}
    (λ p, {| pc_Key := pc_Key p; pc_Value := ReplaceNewlines val;
             pc_Sections := appendUnique (pc_Sections p) sn;
             pc_Reasons := appendReasons (pc_Reasons p) reasons |})) b.

Definition setPostconfd (key val sn : string) (reasons : list Reason) (b : builder) : builder :=
  set_postconfd (upsert key {| pd_Key := key; pd_Value := ""; pd_Sections := []; pd_Reasons := [] |}
    (λ p, {| pd_Key := pd_Key p; pd_Value := ReplaceNewlines val;
             pd_Sections := appendUnique (pd_Sections p) sn;
             pd_Reasons := appendReasons (pd_Reasons p) reasons |})) b.

Definition setPostconfs (m : gmap string string) (sn : string) (reasons : list Reason) (b : builder) : builder :=
  foldl (λ b '(key, val), setPostconf key val sn reasons b) b (sorted_items m).

Definition setPostconfds (m : gmap string string) (sn : string) (reasons : list Reason) (b : builder) : builder :=
  foldl (λ b '(key, val), setPostconfd key val sn reasons b) b (sorted_items m).

Definition compileProxygen (sn : string) (sec : MtaConfigSection) (reasons : list Reason) (b : builder) : builder :=
  if sec_Proxygen sec then
    set_proxygen (λ o,
      let p := default {| pg_Sections := []; pg_Reasons := [] |} o in
      Some {| pg_Sections := appendUnique (pg_Sections p) sn;
              pg_Reasons := appendReasons (pg_Reasons p) reasons |}) b
  else b.

(** An empty LDAP value means "no change". *)
Definition compileLdap (sn : string) (sec : MtaConfigSection) (reasons : list Reason) (b : builder) : builder :=
  foldl (λ b '(key, val),
    if String.eqb val "" then b else
    set_ldap (upsert key {| ld_Key := key; ld_Value := ""; ld_Sections := []; ld_Reasons := [] |}
      (λ l, {| ld_Key := ld_Key l; ld_Value := val;
               ld_Sections := appendUnique (ld_Sections l) sn;
               ld_Reasons := appendReasons (ld_Reasons l) reasons |})) b)
    b (sorted_items (sec_Ldap sec)).

Definition conditionHolds (cond : Conditional) : bool :=
  let '(key, negate) := CutPrefix (cond_Key cond) "!" in
  let holds :=
    match Value (Cur i) (cond_Type cond) key with
    | Some val => xorb (IsTrueValue val) negate
    | None => negate
    end in
  if cond_Negated cond then negb holds else holds.

Definition compileConditional (sn : string) (reasons : list Reason) (b : builder) (cond : Conditional) : builder :=
  if conditionHolds cond then
    setPostconfds (cond_Postconfd cond) sn reasons (setPostconfs (cond_Postconf cond) sn reasons b)
  else b.

(** ** Restarts *)
Definition addRestart (service : string) (action : Action) (section : string) (reasons : list Reason)
    (dst : gmap string Restart) : gmap string Restart :=
  upsert service
    {| r_Service := service; r_Action := action; r_Sections := []; r_Reasons := [] |}
    (λ r, {| r_Service := r_Service r; r_Action := action;
             r_Sections := if String.eqb section "" then r_Sections r
                           else appendUnique (r_Sections r) section;
             r_Reasons := appendReasons (r_Reasons r) reasons |}) dst.

(** The action a RESTART line gives its service; [None] leaves it alone. *)
Definition restartAction (name : string) : option Action :=
  if ServiceEnabled (Cur i) name then Some ActionRestart
  else if String.eqb name "archiving" then None
  else if String.eqb name "opendkim" && ServiceEnabled (Cur i) "mta" then Some ActionRestart
  else Some ActionStop.

Definition compileSectionRestarts (sn : string) (sec : MtaConfigSection) (reasons : list Reason)
    (dst : gmap string Restart) : gmap string Restart :=
  foldl (λ dst svc,
    let name := ToLower svc in
    match restartAction name with
    | Some action => addRestart name action sn reasons dst
    | None => dst
    end) dst (sorted_keys (sec_Restarts sec)).

Definition varChanges (reasons : list Reason) : list Reason :=
  filter (λ r, Kind r = ReasonVarChanged) reasons.

Definition compileRestarts (sn : string) (sec : MtaConfigSection) (reasons : list Reason) (b : builder) : builder :=
  if FirstRun i then b
  else if bool_decide (sn ∉ forced) && bool_decide (sn ∉ requested) then
    set_restarts (compileSectionRestarts sn sec reasons) b
  else
    let changes := varChanges reasons in
    match changes with
    | [] => b
    | _ => set_deferred (compileSectionRestarts sn sec
             (changes ++ [section_reason ReasonDeferred sn])) b
    end.

Definition compileSection (sn : string) (sec : MtaConfigSection) (reasons : list Reason) (b : builder) : builder :=
  let b := compileRewrites sn sec reasons b in
  let b := setPostconfs (sec_Postconf sec) sn reasons b in
  let b := setPostconfds (sec_Postconfd sec) sn reasons b in
  let b := compileProxygen sn sec reasons b in
  let b := compileLdap sn sec reasons b in
  let b := foldl (compileConditional sn reasons) b (sec_Conditionals sec) in
  compileRestarts sn sec reasons b.

(** ** The section loop *)
Definition compared (sn : string) : bool :=
  bool_decide (forced = ∅) || bool_decide (sn ∈ forced).

Definition sectionChanges (sn : string) (sec : MtaConfigSection) : list Reason :=
  if compared sn then diffSection sn sec else [].

Definition processSection (b : builder) (e : string * MtaConfigSection) : builder :=
  let '(sn, sec) := e in
  if negb (inScope sn) || negb (SectionEnabled sn (ServiceEnabled (Cur i))) then b else
  let changes := sectionChanges sn sec in
  let b := healMapfiles sn sec (compared sn) b in
  let reasons := sectionReasons sn changes in
  match reasons with
  | [] => b
  | _ =>
      let b := set_sections (λ l, l ++ [{| s_Name := sn; s_Reasons := reasons |}]) b in
      let b := if negb (is_nil changes) || FirstRun i then mapfileOps sn sec reasons b else b in
      compileSection sn sec reasons b
  end.

Definition processSections (b : builder) : builder :=
  match Conf i with
  | None => b
  | Some conf => foldl processSection b (sorted_items (mta_Sections conf))
  end.

(** ** Service status changes *)
Definition trackedStatus (enabled : bool) : string := if enabled then "running" else "stopped".

Definition stop_toggle (svc : string) : Restart :=
  {| r_Service := svc; r_Action := ActionStop; r_Sections := [];
     r_Reasons := [service_reason ReasonServiceDisabled svc] |}.

Definition start_toggle (svc : string) : Restart :=
  {| r_Service := svc; r_Action := ActionStart; r_Sections := [];
     r_Reasons := [service_reason ReasonServiceEnabled svc] |}.

(** [serviceToggles]: the stops of tracked services that are disabled and the
    starts of enabled ones that are not tracked; on the first run the latter
    are recorded in the tracking map instead. *)
Definition serviceToggles (tracked : gmap string string) : gmap string Restart * gmap string string :=
  let stops := foldl (λ t svc,
    if ServiceEnabled (Cur i) svc then t else <[svc := stop_toggle svc]> t)
    ∅ (sorted_keys tracked) in
  foldl (λ '(t, tr) svc,
    match tr !! svc with
    | Some _ => (t, tr)
    | None =>
        if FirstRun i
        then (t, <[svc := trackedStatus (IsTrueValue (ServiceValue (Cur i) svc))]> tr)
        else (<[svc := start_toggle svc]> t, tr)
    end) (stops, tracked) (ServiceNames (Cur i)).

(** A section-derived entry wins over a status change and keeps its reason too. *)
Definition add_toggle (m : gmap string Restart) (e : string * Restart) : gmap string Restart :=
  let '(svc, st) := e in
  match m !! svc with
  | Some have => <[svc := with_reasons (appendReasons (r_Reasons have) (r_Reasons st)) have]> m
  | None => <[svc := st]> m
  end.

Definition trackServices (b : builder) : builder :=
  let '(toggles, tracked) := serviceToggles (b_tracked b) in
  set_restarts (λ m, foldl add_toggle m (sorted_items toggles))
    (set_tracked (λ _, tracked) b).

(** ** Carry *)
Definition retry : Reason := kind_reason ReasonRetry.

Definition carryItem {T} `{PlanEntry T} (dst : gmap string T) (it : T) : gmap string T :=
  let key := entry_key it in
  match dst !! key with
  | Some have => <[key := with_reasons (appendReason (entry_reasons have) retry) have]> dst
  | None => <[key := with_reasons (appendReason (entry_reasons it) retry) it]> dst
  end.

Definition carryItems {T} `{PlanEntry T} (items : list T) (dst : gmap string T) : gmap string T :=
  foldl carryItem dst items.

Definition carryProxygen (c o : option Proxygen) : option Proxygen :=
  match c with
  | None => o
  | Some c =>
      let p := default c o in
      Some {| pg_Sections := pg_Sections p; pg_Reasons := appendReason (pg_Reasons p) retry |}
  end.

Definition mergeCarry (b : builder) : builder :=
  let c := In_Carry i in
  let b := set_rewrites (carryItems (c_Rewrites c)) b in
  let b := set_postconf (carryItems (c_Postconf c)) b in
  let b := set_postconfd (carryItems (c_Postconfd c)) b in
  let b := set_ldap (carryItems (c_Ldap c)) b in
  let b := set_proxygen (carryProxygen (c_Proxygen c)) b in
  set_restarts (carryItems (c_Restarts c)) b.

(** ** Pruning to the host

    [drifted.keep]: the reasons of an action whose target drifted. *)
Definition keep (drift : string) : option (list Reason) :=
  if String.eqb drift "" then None else Some [drift_reason drift].

Definition drift_of (m : gmap string string) (k : string) : string := default "" (m !! k).

Definition prune {T} `{PlanEntry T} (drifts : gmap string string) (m : gmap string T) : gmap string T :=
  map_imap (λ k e, (λ rs, with_reasons rs e) <$> keep (drift_of drifts k)) m.

(** The sections behind the drifted entries of [m]. *)
Definition touched_by {K T} `{Countable K} `{PlanEntry T} (drift : K → string) (m : gmap K T) : gset string :=
  map_fold (λ k e acc, match keep (drift k) with
                       | Some _ => list_to_set (entry_sections e) ∪ acc
                       | None => acc
                       end) ∅ m.

(** Drifted heal entries become regular mapfile writes. *)
Definition heal_to_mapfiles (h : Host) (heal : gmap string Mapfile)
    (mapfiles : gmap (string * bool) Mapfile) : gmap (string * bool) Mapfile :=
  foldl (λ ms '(key, m),
    match keep (drift_of (h_Mapfiles h) key) with
    | None => ms
    | Some reasons =>
        match ms !! (key, false) with
        | Some have => <[(key, false) := with_reasons reasons have]> ms
        | None => <[(key, false) := with_reasons reasons m]> ms
        end
    end) mapfiles (sorted_items heal).

Definition pruneMapfiles (h : Host) (b : builder) : builder * gset string :=
  let d (mk : string * bool) := drift_of (h_Mapfiles h) mk.1 in
  let ms := heal_to_mapfiles h (b_heal b) (b_mapfiles b) in
  let touched := touched_by (drift_of (h_Mapfiles h)) (b_heal b) ∪ touched_by d ms in
  let ms' := map_imap (λ mk m, (λ rs, with_reasons rs m) <$> keep (d mk)) ms in
  (set_mapfiles (λ _, ms') (set_heal (λ _, ∅) b), touched).

Definition pruneProxygen (h : Host) (o : option Proxygen) : option Proxygen :=
  p ← o; (λ rs, {| pg_Sections := pg_Sections p; pg_Reasons := rs |}) <$> keep (h_Proxygen h).

Definition pruneFiles (h : Host) (b : builder) : builder * gset string :=
  let touched := touched_by (drift_of (h_Rewrites h)) (b_rewrites b) ∪
    match b_proxygen b, keep (h_Proxygen h) with
    | Some p, Some _ => list_to_set (pg_Sections p)
    | _, _ => ∅
    end in
  (set_proxygen (pruneProxygen h) (set_rewrites (prune (h_Rewrites h)) b), touched).

(** LDAP drift never marks a section as drifted. *)
Definition pruneDirectives (h : Host) (b : builder) : builder * gset string :=
  let touched := touched_by (drift_of (h_Postconf h)) (b_postconf b) ∪
                 touched_by (drift_of (h_Postconfd h)) (b_postconfd b) in
  (set_ldap (prune (h_Ldap h))
     (set_postconfd (prune (h_Postconfd h)) (set_postconf (prune (h_Postconf h)) b)), touched).

Definition pruneRestart (touched : gset string) (r : Restart) : option Restart :=
  if existsb (λ s, bool_decide (s ∈ touched)) (r_Sections r)
  then Some (with_reasons [drift_reason ("configuration of section " +:+
         Join (r_Sections r) ", " +:+ " would change")] r)
  else None.

Definition pruneToHost (b : builder) : builder :=
  match In_Host i with
  | None => b
  | Some h =>
      let '(b, t1) := pruneMapfiles h b in
      let '(b, t2) := pruneFiles h b in
      let '(b, t3) := pruneDirectives h b in
      let touched := t1 ∪ t2 ∪ t3 in
      let b := set_sections (filter (λ s, s_Name s ∈ touched)) b in
      let b := set_deferred (λ _, ∅) b in
      set_restarts (omap (pruneRestart touched)) b
  end.

(** ** Assembling the plan *)
Definition hasMapfile (b : builder) (key : string) : bool :=
  match b_mapfiles b !! (key, false) with Some _ => true | None => false end.

(** [collectSorted] by the entries' own key field. *)
Definition collectSorted {T} `{PlanEntry T} (m : gmap string T) : list T :=
  sort_by_key entry_key (map_to_list m).*2.

(** Mapfiles are ordered by key, and the remote one before the local one. *)
Definition mapfile_le (a c : Mapfile) : Prop :=
  (mf_Key a ≠ mf_Key c ∧ String.le (mf_Key a) (mf_Key c)) ∨
  (mf_Key a = mf_Key c ∧ (mf_Local a = false ∨ mf_Local c = true)).

#[export] Instance mapfile_le_dec : RelDecision mapfile_le.
Proof. intros a c. unfold mapfile_le. apply _. Defined.

Definition collectMapfiles (m : gmap (string * bool) Mapfile) : list Mapfile :=
  merge_sort mapfile_le (map_to_list m).*2.

Definition classified (r : Restart) : Restart :=
  set_Action (Classify (r_Action r) (r_Service r) (Systemd i)) r.

Definition finish (b : builder) : Plan :=
  {| p_FirstRun := FirstRun i;
     p_Sections := b_sections b;
     p_Heal := (filter (λ kv, hasMapfile b kv.1 = false) (sorted_items (b_heal b))).*2;
     p_Mapfiles := collectMapfiles (b_mapfiles b);
     p_Rewrites := collectSorted (b_rewrites b);
     p_Postconf := collectSorted (b_postconf b);
     p_Postconfd := collectSorted (b_postconfd b);
     p_Ldap := collectSorted (b_ldap b);
     p_Proxygen := b_proxygen b;
     p_Restarts := classified <$> collectSorted (b_restarts b);
     p_DeferredRestarts := classified <$> collectSorted (b_deferred b);
     p_Tracked := b_tracked b;
     p_Enabled := ServiceNames (Cur i) |}.

(** [Compute]: the plan of a cycle, or the guard's error. *)
Definition build : builder := mergeCarry (trackServices (processSections (newBuilder i))).

Definition Compute : ComputeError + Plan :=
  match guardAllDisabled with
  | Some e => inl e
  | None => inr (finish (pruneToHost build))
  end.
End compute.
