(* ===== verification/ComputeFacts.v ===== *)
(** * ComputeFacts: how the builder's maps evolve

    Two facts carry the theorems on [Compute]: every step of the builder only
    grows its maps ([builder_grows]), and every step keeps each entry keyed,
    explained and attributed to allowed sections ([builder_good]). *)
From S2P Require Import Prelude Config Snapshot Plan Compute.

(** ** Growth of a map of entries *)
Section entries.
Context {T : Type} `{PlanEntry T}.

Definition entry_le (e e' : T) : Prop :=
  entry_sections e ⊆ entry_sections e' ∧ entry_reasons e ⊆ entry_reasons e'.

#[export] Instance entry_le_preorder : PreOrder entry_le.
Proof. split; [by intros e|]. intros e1 e2 e3 [] []. split; by etrans. Qed.

Definition map_grows {K} `{Countable K} (m m' : gmap K T) : Prop :=
  ∀ k e, m !! k = Some e → ∃ e', m' !! k = Some e' ∧ entry_le e e'.

#[export] Instance map_grows_preorder {K} `{Countable K} : PreOrder (map_grows (K := K)).
Proof.
  split; [intros m k e He; by exists e|].
  intros m1 m2 m3 H12 H23 k e (e2 & He2 & Hle)%H12.
  apply H23 in He2 as (e3 & He3 & Hle'). exists e3. split; [done|]. by etrans.
Qed.

(** An update that records section [sn] (unless it is the empty name) and the
    reasons [rs], and keeps the rest. *)
Definition adds (sn : string) (rs : list Reason) (f : T → T) : Prop := ∀ e,
  entry_key (f e) = entry_key e ∧
  (∀ s, s ∈ entry_sections (f e) ↔ s ∈ entry_sections e ∨ (s = sn ∧ s ∈ entry_sections (f e))) ∧
  (sn ≠ "" → sn ∈ entry_sections (f e)) ∧
  entry_reasons (f e) = appendReasons (entry_reasons e) rs.

Lemma adds_le sn rs f e : adds sn rs f → entry_le e (f e).
Proof.
  intros (_ & Hs & _ & Hr)%(λ H, H e). split; intros x Hx.
  - apply Hs. by left.
  - rewrite Hr. apply elem_of_append_uniques. by left.
Qed.

Lemma insert_grows {K} `{Countable K} (m : gmap K T) k e' :
  (∀ e, m !! k = Some e → entry_le e e') → map_grows m (<[k := e']> m).
Proof.
  intros Hle k' e He. destruct (decide (k = k')) as [<-|Hne].
  - exists e'. rewrite lookup_insert_eq. auto.
  - exists e. by rewrite lookup_insert_ne.
Qed.

Lemma insert_default_grows {K} `{Countable K} (m : gmap K T) k new sn rs f :
  adds sn rs f → map_grows m (<[k := f (default new (m !! k))]> m).
Proof. intros Ha. apply insert_grows. intros e ->. simpl. by eapply adds_le. Qed.

(** The map has an entry for [k] that names [sn] and carries [rs]. *)
Definition has {K} `{Countable K} (sn : string) (rs : list Reason) (m : gmap K T) (k : K) : Prop :=
  ∃ e, m !! k = Some e ∧ (sn ≠ "" → sn ∈ entry_sections e) ∧ rs ⊆ entry_reasons e.

Lemma has_grows {K} `{Countable K} sn rs (m m' : gmap K T) k :
  map_grows m m' → has sn rs m k → has sn rs m' k.
Proof.
  intros Hg (e & (e' & He' & [Hs Hr])%Hg & Hsn & Hrs). exists e'. split; [done|].
  split; [auto|]. by etrans.
Qed.

Lemma insert_default_has {K} `{Countable K} (m : gmap K T) k new sn rs f :
  adds sn rs f → has sn rs (<[k := f (default new (m !! k))]> m) k.
Proof.
  intros Ha. set (e := default new (m !! k)). destruct (Ha e) as (_ & _ & Hsn & Hr).
  exists (f e). rewrite lookup_insert_eq. repeat split; [done|].
  intros x Hx. rewrite Hr. apply elem_of_append_uniques. by right.
Qed.

(** ** Entries that are keyed, explained and attributed to sections in [Q] *)
Definition good (Q : string → Prop) (k : string) (e : T) : Prop :=
  entry_key e = k ∧ entry_reasons e ≠ [] ∧ ∀ s, s ∈ entry_sections e → Q s.

Definition fresh_entry (k : string) (e : T) : Prop :=
  entry_key e = k ∧ entry_sections e = [].

Lemma adds_good Q sn rs f k e :
  adds sn rs f → rs ≠ [] → Q sn → good Q k e ∨ fresh_entry k e → good Q k (f e).
Proof.
  intros (Hk & Hs & _ & Hr)%(λ H, H e) Hrs HQ He. split; [|split].
  - rewrite Hk. by destruct He as [[]|[]].
  - rewrite Hr. apply append_uniques_not_nil. auto.
  - intros s [Hin|[-> _]]%Hs; [|done].
    destruct He as [(_ & _ & HQs)|[_ Hnil]]; [auto|].
    rewrite Hnil in Hin. by apply not_elem_of_nil in Hin.
Qed.

Lemma upsert_good Q sn rs f k new (m : gmap string T) :
  adds sn rs f → rs ≠ [] → Q sn → fresh_entry k new →
  map_Forall (good Q) m → map_Forall (good Q) (upsert k new f m).
Proof.
  intros Ha Hrs HQ Hnew Hm. apply map_Forall_upsert; [done|].
  intros v [Hv|[_ ->]]; eapply adds_good; eauto.
Qed.

Lemma good_with_reasons Q k rs e : rs ≠ [] → good Q k e → good Q k (with_reasons rs e).
Proof.
  intros Hrs (Hk & _ & HQ). unfold good.
  by autorewrite with configd.
Qed.

(** ** Carried items *)
Lemma carryItem_grows (m : gmap string T) it : map_grows m (carryItem m it).
Proof.
  unfold carryItem. destruct (m !! entry_key it) as [have|] eqn:Hm; apply insert_grows.
  - intros e He. rewrite Hm in He. injection He as <-. split.
    + by rewrite entry_sections_with.
    + rewrite entry_reasons_with. intros x Hx. apply elem_of_append_unique. by left.
  - intros e He. congruence.
Qed.

Lemma carryItems_grows items (m : gmap string T) : map_grows m (carryItems items m).
Proof.
  unfold carryItems. apply foldl_inv; [done|]. intros m' it _ Hg.
  etrans; [exact Hg|apply carryItem_grows].
Qed.

Lemma carryItem_has (m : gmap string T) it : has "" [retry] (carryItem m it) (entry_key it).
Proof.
  unfold carryItem. destruct (m !! entry_key it) as [have|]; eexists;
    (split; [apply lookup_insert_eq|]); (split; [done|]); rewrite entry_reasons_with;
    intros x ->%list_elem_of_singleton; apply elem_of_append_unique; by right.
Qed.

Lemma carryItems_has items (m : gmap string T) it :
  it ∈ items → has "" [retry] (carryItems items m) (entry_key it).
Proof.
  intros Hit. unfold carryItems. eapply foldl_reach; [done|intros; apply carryItem_has|].
  intros m' y _. apply has_grows, carryItem_grows.
Qed.

Lemma carryItems_good Q items (m : gmap string T) :
  (∀ it s, it ∈ items → s ∈ entry_sections it → Q s) →
  map_Forall (good Q) m → map_Forall (good Q) (carryItems items m).
Proof.
  intros Hit Hm. apply (foldl_inv (map_Forall (good Q))); [done|]. intros m' it Hin Hg.
  unfold carryItem. destruct (m' !! entry_key it) as [have|] eqn:E;
    apply map_Forall_insert_2; try done.
  - apply good_with_reasons; [apply append_unique_not_nil|]. by apply (Hg (entry_key it)).
  - unfold good. autorewrite with configd.
    split; [done|]. split; [apply append_unique_not_nil|eauto].
Qed.

(** ** Collected lists *)
Lemma elem_of_collectSorted (m : gmap string T) e :
  e ∈ collectSorted m ↔ ∃ k, m !! k = Some e.
Proof.
  unfold collectSorted. rewrite elem_of_sort_by_key, list_elem_of_fmap. split.
  - intros ([k e'] & -> & ?%elem_of_map_to_list). eauto.
  - intros (k & ?%elem_of_map_to_list). by exists (k, e).
Qed.

Lemma collectSorted_sorted (m : gmap string T) :
  map_Forall (λ k e, entry_key e = k) m → StronglySorted (key_lt entry_key) (collectSorted m).
Proof.
  intros Hk. apply sort_by_key_lt.
  assert (entry_key <$> (map_to_list m).*2 = (map_to_list m).*1) as ->.
  { rewrite <- list_fmap_compose. apply list_fmap_ext.
    intros j [k e] Hl%list_elem_of_lookup_2%elem_of_map_to_list. simpl. by apply Hk. }
  apply NoDup_fst_map_to_list.
Qed.
End entries.

(** The updates of the Go code have the [adds] shape. *)
Lemma adds_intro {T} `{PlanEntry T} sn rs (f : T → T) :
  (∀ e, entry_key (f e) = entry_key e) →
  (∀ e, entry_sections (f e) = appendUnique (entry_sections e) sn) →
  (∀ e, entry_reasons (f e) = appendReasons (entry_reasons e) rs) → adds sn rs f.
Proof.
  intros Hk Hs Hr e. rewrite Hk, Hs, Hr. split; [done|]. unfold appendUnique.
  split; [|split; [|done]].
  - intros s. rewrite elem_of_append_unique. naive_solver.
  - intros _. apply elem_of_append_unique. by right.
Qed.

Ltac solve_adds := apply adds_intro; done.

(** ** Growth of the builder *)
Definition proxygen_grows (o o' : option Proxygen) : Prop := ∀ p, o = Some p →
  ∃ p', o' = Some p' ∧ pg_Sections p ⊆ pg_Sections p' ∧ pg_Reasons p ⊆ pg_Reasons p'.

#[export] Instance proxygen_grows_preorder : PreOrder proxygen_grows.
Proof.
  split; [intros o p ->; eauto|].
  intros o1 o2 o3 H12 H23 p (p2 & (p3 & -> & Hs' & Hr')%H23 & Hs & Hr)%H12.
  exists p3. split; [done|]. split; by etrans.
Qed.

Record builder_grows (b b' : builder) : Prop := {
  g_mapfiles : map_grows (b_mapfiles b) (b_mapfiles b');
  g_heal : map_grows (b_heal b) (b_heal b');
  g_rewrites : map_grows (b_rewrites b) (b_rewrites b');
  g_postconf : map_grows (b_postconf b) (b_postconf b');
  g_postconfd : map_grows (b_postconfd b) (b_postconfd b');
  g_ldap : map_grows (b_ldap b) (b_ldap b');
  g_proxygen : proxygen_grows (b_proxygen b) (b_proxygen b');
  g_restarts : map_grows (b_restarts b) (b_restarts b');
  g_deferred : map_grows (b_deferred b) (b_deferred b')
}.

#[export] Instance builder_grows_preorder : PreOrder builder_grows.
Proof.
  split; [intros b; split; reflexivity|].
  intros b1 b2 b3 H12 H23. split; etrans; solve [apply H12|apply H23].
Qed.

(** A setter grows the builder when its function grows the field. *)
Ltac grow_field :=
  intros; split; cbn; try reflexivity; auto.

Lemma grows_sections f b : builder_grows b (set_sections f b).
Proof. grow_field. Qed.
Lemma grows_mapfiles f b : map_grows (b_mapfiles b) (f (b_mapfiles b)) → builder_grows b (set_mapfiles f b).
Proof. grow_field. Qed.
Lemma grows_heal f b : map_grows (b_heal b) (f (b_heal b)) → builder_grows b (set_heal f b).
Proof. grow_field. Qed.
Lemma grows_rewrites f b : map_grows (b_rewrites b) (f (b_rewrites b)) → builder_grows b (set_rewrites f b).
Proof. grow_field. Qed.
Lemma grows_postconf f b : map_grows (b_postconf b) (f (b_postconf b)) → builder_grows b (set_postconf f b).
Proof. grow_field. Qed.
Lemma grows_postconfd f b : map_grows (b_postconfd b) (f (b_postconfd b)) → builder_grows b (set_postconfd f b).
Proof. grow_field. Qed.
Lemma grows_ldap f b : map_grows (b_ldap b) (f (b_ldap b)) → builder_grows b (set_ldap f b).
Proof. grow_field. Qed.
Lemma grows_proxygen f b : proxygen_grows (b_proxygen b) (f (b_proxygen b)) → builder_grows b (set_proxygen f b).
Proof. grow_field. Qed.
Lemma grows_restarts f b : map_grows (b_restarts b) (f (b_restarts b)) → builder_grows b (set_restarts f b).
Proof. grow_field. Qed.
Lemma grows_deferred f b : map_grows (b_deferred b) (f (b_deferred b)) → builder_grows b (set_deferred f b).
Proof. grow_field. Qed.
Lemma grows_tracked f b : builder_grows b (set_tracked f b).
Proof. grow_field. Qed.

#[export] Hint Resolve grows_sections grows_mapfiles grows_heal grows_rewrites grows_postconf
  grows_postconfd grows_ldap grows_proxygen grows_restarts grows_deferred grows_tracked
  carryItems_grows : configd.

(** A loop whose every step grows its state grows it. *)
Lemma foldl_grows {A B} (R : relation A) `{!PreOrder R} (f : A → B → A) l a :
  (∀ a x, x ∈ l → R a (f a x)) → R a (foldl f a l).
Proof.
  intros Hf. apply foldl_inv; [reflexivity|]. intros a' x Hx Ha.
  etrans; [exact Ha|by apply Hf].
Qed.

Lemma upsert_grows {T} `{PlanEntry T} (m : gmap string T) k new sn rs f :
  adds sn rs f → map_grows m (upsert k new f m).
Proof. apply insert_default_grows. Qed.

Lemma upsert_has {T} `{PlanEntry T} (m : gmap string T) k new sn rs f :
  adds sn rs f → has sn rs (upsert k new f m) k.
Proof. apply insert_default_has. Qed.

Lemma add_mapfile_adds sn rs : adds sn rs (add_mapfile sn rs).
Proof. solve_adds. Qed.

Lemma addRestart_adds action sn rs : adds sn rs (λ r,
  {| r_Service := r_Service r; r_Action := action;
     r_Sections := if String.eqb sn "" then r_Sections r else appendUnique (r_Sections r) sn;
     r_Reasons := appendReasons (r_Reasons r) rs |}).
Proof.
  destruct (String.eqb_spec sn "") as [->|Hne]; [|solve_adds].
  intros e; cbn. repeat split; naive_solver.
Qed.

#[export] Hint Resolve add_mapfile_adds addRestart_adds : configd.

Section steps.
Variable i : Input.

Lemma healMapfiles_grows sn sec c b : builder_grows b (healMapfiles sn sec c b).
Proof.
  unfold healMapfiles. destruct c; [|reflexivity]. apply (foldl_grows _).
  intros a [k t] _. case_match; [reflexivity|].
  apply grows_heal. eapply upsert_grows. auto with configd.
Qed.

Lemma mapfileOps_grows sn sec rs b : builder_grows b (mapfileOps sn sec rs b).
Proof.
  apply (foldl_grows _). intros a [k t] _. case_match; [reflexivity|].
  apply grows_mapfiles. eapply insert_default_grows. auto with configd.
Qed.

Lemma compileRewrites_grows sn sec rs b : builder_grows b (compileRewrites sn sec rs b).
Proof.
  apply (foldl_grows _). intros a [src e] _.
  apply grows_rewrites. eapply upsert_grows. solve_adds.
Qed.

Lemma setPostconf_grows k v sn rs b : builder_grows b (setPostconf k v sn rs b).
Proof. apply grows_postconf. eapply upsert_grows. solve_adds. Qed.

Lemma setPostconfd_grows k v sn rs b : builder_grows b (setPostconfd k v sn rs b).
Proof. apply grows_postconfd. eapply upsert_grows. solve_adds. Qed.

Lemma setPostconfs_grows m sn rs b : builder_grows b (setPostconfs m sn rs b).
Proof. apply (foldl_grows _). intros a [k v] _. apply setPostconf_grows. Qed.

Lemma setPostconfds_grows m sn rs b : builder_grows b (setPostconfds m sn rs b).
Proof. apply (foldl_grows _). intros a [k v] _. apply setPostconfd_grows. Qed.

Lemma compileProxygen_grows sn sec rs b : builder_grows b (compileProxygen sn sec rs b).
Proof.
  unfold compileProxygen. destruct (sec_Proxygen sec); [|reflexivity].
  apply grows_proxygen. intros p ->. eexists; split; [done|]. cbn.
  split; intros x Hx; [apply elem_of_append_unique|apply elem_of_append_uniques]; by left.
Qed.

Lemma compileLdap_grows sn sec rs b : builder_grows b (compileLdap sn sec rs b).
Proof.
  apply (foldl_grows _). intros a [k v] _. case_match; [reflexivity|].
  apply grows_ldap. eapply upsert_grows. solve_adds.
Qed.

Lemma compileConditional_grows sn rs b cond :
  builder_grows b (compileConditional i sn rs b cond).
Proof.
  unfold compileConditional. case_match; [|reflexivity].
  etrans; [apply setPostconfs_grows|apply setPostconfds_grows].
Qed.

Lemma compileConditionals_grows sn rs l b :
  builder_grows b (foldl (compileConditional i sn rs) b l).
Proof. apply (foldl_grows _). intros a c _. apply compileConditional_grows. Qed.

Lemma compileSectionRestarts_grows sn sec rs m :
  map_grows m (compileSectionRestarts i sn sec rs m).
Proof.
  apply (foldl_grows _). intros a svc _. cbv zeta beta.
  destruct (restartAction i (ToLower svc)); [|reflexivity].
  eapply upsert_grows. auto with configd.
Qed.

Lemma compileRestarts_grows sn sec rs b : builder_grows b (compileRestarts i sn sec rs b).
Proof.
  unfold compileRestarts. repeat case_match; try reflexivity;
    [apply grows_restarts|apply grows_deferred]; apply compileSectionRestarts_grows.
Qed.

Lemma compileSection_grows sn sec rs b : builder_grows b (compileSection i sn sec rs b).
Proof.
  unfold compileSection. cbn zeta.
  etrans; [apply compileRewrites_grows|]. etrans; [apply setPostconfs_grows|].
  etrans; [apply setPostconfds_grows|]. etrans; [apply compileProxygen_grows|].
  etrans; [apply compileLdap_grows|]. etrans; [apply compileConditionals_grows|].
  apply compileRestarts_grows.
Qed.

Lemma processSection_grows b e : builder_grows b (processSection i b e).
Proof.
  destruct e as [sn sec]. unfold processSection. case_match; [reflexivity|]. cbn zeta.
  etrans; [apply healMapfiles_grows|]. case_match; [reflexivity|].
  etrans; [apply grows_sections|]. etrans; [|apply compileSection_grows].
  case_match; [apply mapfileOps_grows|reflexivity].
Qed.

Lemma add_toggle_grows m e : map_grows m (add_toggle m e).
Proof.
  destruct e as [svc st]. unfold add_toggle. destruct (m !! svc) as [have|] eqn:E;
    apply insert_grows; intros e He; rewrite E in He; [|done]. injection He as <-.
  split; [done|]. intros x Hx. apply elem_of_append_uniques. by left.
Qed.

Lemma trackServices_grows b : builder_grows b (trackServices i b).
Proof.
  unfold trackServices. destruct (serviceToggles i (b_tracked b)) as [t tr].
  etrans; [apply grows_tracked|]. apply grows_restarts. apply (foldl_grows _).
  intros; apply add_toggle_grows.
Qed.

Lemma carryProxygen_grows c o : proxygen_grows o (carryProxygen c o).
Proof.
  destruct c as [c|]; [|reflexivity]. intros p ->. simpl. eexists; split; [done|]. cbn.
  split; [done|]. intros x Hx. apply elem_of_append_unique. by left.
Qed.

Lemma mergeCarry_grows b : builder_grows b (mergeCarry i b).
Proof.
  unfold mergeCarry. cbn zeta.
  etrans; [apply grows_rewrites, carryItems_grows|].
  etrans; [apply grows_postconf, carryItems_grows|].
  etrans; [apply grows_postconfd, carryItems_grows|].
  etrans; [apply grows_ldap, carryItems_grows|].
  etrans; [apply grows_proxygen, carryProxygen_grows|].
  apply grows_restarts, carryItems_grows.
Qed.
End steps.

(** ** Keyed, explained, attributed: the builder invariant

    [Q], [QH], [QR] and [QD] say which sections an action, a heal entry, a
    restart and a deferred restart may name. *)
Definition proxygen_good (Q : string → Prop) (o : option Proxygen) : Prop :=
  ∀ p, o = Some p → pg_Reasons p ≠ [] ∧ ∀ s, s ∈ pg_Sections p → Q s.

Record builder_good (Q QH QR QD : string → Prop) (b : builder) : Prop := {
  ok_mapfiles : map_Forall (λ mk m, good Q mk.1 m ∧ mf_Local m = mk.2) (b_mapfiles b);
  ok_heal : map_Forall (λ k m, good QH k m ∧ mf_Local m = false) (b_heal b);
  ok_rewrites : map_Forall (good Q) (b_rewrites b);
  ok_postconf : map_Forall (good Q) (b_postconf b);
  ok_postconfd : map_Forall (good Q) (b_postconfd b);
  ok_ldap : map_Forall (good Q) (b_ldap b);
  ok_proxygen : proxygen_good Q (b_proxygen b);
  ok_restarts : map_Forall (good QR) (b_restarts b);
  ok_deferred : map_Forall (good QD) (b_deferred b)
}.

Section good_steps.
Variable i : Input.
Variables Q QH QR QD : string → Prop.
Local Abbreviation ok := (builder_good Q QH QR QD).

(** A setter keeps the invariant when its function keeps the field's part. *)
Ltac keep_field Hb := destruct Hb; split; cbn; auto.

Lemma ok_new : ok (newBuilder i).
Proof. split; cbn; try apply map_Forall_empty. by intros p. Qed.

Lemma ok_set_sections f b : ok b → ok (set_sections f b).
Proof. intros Hb. keep_field Hb. Qed.

Lemma healMapfiles_good sn sec c b : (c = true → QH sn) → ok b → ok (healMapfiles sn sec c b).
Proof.
  intros HQ Hb. unfold healMapfiles. destruct c; cbn [negb]; [|done]. apply (foldl_inv ok); [done|].
  intros a [k t] _ Ha. case_match; [done|]. keep_field Ha.
  apply map_Forall_upsert; [done|]. intros v Hv. split.
  - eapply adds_good; [apply add_mapfile_adds|done|by apply HQ|].
    destruct Hv as [Hv|[_ ->]]; [left; by apply ok_heal0|by right].
  - destruct Hv as [Hv|[_ ->]]; [by apply (ok_heal0 _ _ Hv)|done].
Qed.

Lemma mapfileOps_good sn sec rs b : rs ≠ [] → Q sn → ok b → ok (mapfileOps sn sec rs b).
Proof.
  intros Hrs HQ Hb. apply (foldl_inv ok); [done|].
  intros a [k t] _ Ha. case_match; [done|]. keep_field Ha.
  apply map_Forall_insert_2; [|done].
  destruct (b_mapfiles a !! _) as [v|] eqn:E; cbn [default].
  - apply ok_mapfiles0 in E as [Hg Hl]. split; [|done].
    eapply adds_good; [apply add_mapfile_adds|..]; eauto.
  - split; [|done]. eapply adds_good; [apply add_mapfile_adds|..]; try done. by right.
Qed.

Lemma compileRewrites_good sn sec rs b : rs ≠ [] → Q sn → ok b → ok (compileRewrites sn sec rs b).
Proof.
  intros Hrs HQ Hb. apply (foldl_inv ok); [done|]. intros a [src e] _ Ha. keep_field Ha.
  eapply upsert_good; [solve_adds|..]; done.
Qed.

Lemma setPostconfs_good m sn rs b : rs ≠ [] → Q sn → ok b → ok (setPostconfs m sn rs b).
Proof.
  intros Hrs HQ Hb. apply (foldl_inv ok); [done|]. intros a [k v] _ Ha. keep_field Ha.
  eapply upsert_good; [solve_adds|..]; done.
Qed.

Lemma setPostconfds_good m sn rs b : rs ≠ [] → Q sn → ok b → ok (setPostconfds m sn rs b).
Proof.
  intros Hrs HQ Hb. apply (foldl_inv ok); [done|]. intros a [k v] _ Ha. keep_field Ha.
  eapply upsert_good; [solve_adds|..]; done.
Qed.

Lemma compileProxygen_good sn sec rs b : rs ≠ [] → Q sn → ok b → ok (compileProxygen sn sec rs b).
Proof.
  intros Hrs HQ Hb. unfold compileProxygen. case_match; [|done]. keep_field Hb.
  intros p [= <-]. cbn. split; [apply append_uniques_not_nil; auto|].
  intros s [Hs| ->]%elem_of_append_unique; [|done].
  destruct (b_proxygen b) as [p|]; [by apply (ok_proxygen0 p)|].
  by apply not_elem_of_nil in Hs.
Qed.

Lemma compileLdap_good sn sec rs b : rs ≠ [] → Q sn → ok b → ok (compileLdap sn sec rs b).
Proof.
  intros Hrs HQ Hb. apply (foldl_inv ok); [done|]. intros a [k v] _ Ha. case_match; [done|].
  keep_field Ha. eapply upsert_good; [solve_adds|..]; done.
Qed.

Lemma compileConditionals_good sn rs l b :
  rs ≠ [] → Q sn → ok b → ok (foldl (compileConditional i sn rs) b l).
Proof.
  intros Hrs HQ Hb. apply (foldl_inv ok); [done|]. intros a c _ Ha. unfold compileConditional.
  case_match; [|done]. by apply setPostconfds_good, setPostconfs_good.
Qed.

Lemma compileSectionRestarts_good (P : string → Prop) sn sec rs m :
  rs ≠ [] → P sn → map_Forall (good P) m →
  map_Forall (good P) (compileSectionRestarts i sn sec rs m).
Proof.
  intros Hrs HP Hm. apply (foldl_inv (map_Forall (good P))); [done|].
  intros a svc _ Ha. cbv zeta beta. destruct (restartAction i (ToLower svc)); [|done].
  eapply upsert_good; [apply addRestart_adds|..]; done.
Qed.

Lemma compileRestarts_good sn sec rs b :
  rs ≠ [] →
  (FirstRun i = false → sn ∉ forced i → sn ∉ requested i → QR sn) →
  (FirstRun i = false → varChanges rs ≠ [] → sn ∈ forced i ∨ sn ∈ requested i → QD sn) →
  ok b → ok (compileRestarts i sn sec rs b).
Proof.
  intros Hrs HR HD Hb. unfold compileRestarts. destruct (FirstRun i); [done|].
  destruct (_ && _) eqn:Ed.
  - apply andb_true_iff in Ed as [Hf%bool_decide_eq_true Hq%bool_decide_eq_true].
    keep_field Hb. apply compileSectionRestarts_good; auto.
  - destruct (varChanges rs) as [|r l] eqn:Ev; [done|]. keep_field Hb.
    apply compileSectionRestarts_good; [by destruct l|apply HD; [done|congruence|]|done].
    apply andb_false_iff in Ed as [Hd|Hd]; apply bool_decide_eq_false in Hd;
      [left|right]; by apply dec_stable.
Qed.

Lemma compileSection_good sn sec rs b :
  rs ≠ [] → Q sn →
  (FirstRun i = false → sn ∉ forced i → sn ∉ requested i → QR sn) →
  (FirstRun i = false → varChanges rs ≠ [] → sn ∈ forced i ∨ sn ∈ requested i → QD sn) →
  ok b → ok (compileSection i sn sec rs b).
Proof.
  intros Hrs HQ HR HD Hb. unfold compileSection. cbn zeta.
  apply compileRestarts_good; [done..|].
  by apply compileConditionals_good, compileLdap_good, compileProxygen_good,
    setPostconfds_good, setPostconfs_good, compileRewrites_good.
Qed.
End good_steps.

(** ** The sections of the plan *)
Section sections.
Variable i : Input.

(** The section is in scope, enabled on the node and has a reason to be processed. *)
Definition considered (sn : string) : bool :=
  inScope i sn && SectionEnabled sn (ServiceEnabled (Cur i)).

Definition planned (sn : string) (sec : MtaConfigSection) : bool :=
  considered sn && negb (is_nil (sectionReasons i sn (sectionChanges i sn sec))).

Definition planned_section (e : string * MtaConfigSection) : option Section_ :=
  if planned e.1 e.2
  then Some {| s_Name := e.1; s_Reasons := sectionReasons i e.1 (sectionChanges i e.1 e.2) |}
  else None.

(** Compiling the actions of a section leaves the section list, the tracking map
    and the restarts alone. *)
Definition frame (b : builder) : list Section_ * gmap string string * gmap string Restart * gmap string Restart :=
  (b_sections b, b_tracked b, b_restarts b, b_deferred b).

Ltac same_frame :=
  intros; match goal with |- frame ?t = frame ?b =>
    apply (foldl_inv (λ b', frame b' = frame b)) end;
  [done|]; intros ? [] ? <-; repeat case_match; done.

Lemma healMapfiles_frame sn sec c b : frame (healMapfiles sn sec c b) = frame b.
Proof. unfold healMapfiles. destruct c; cbn [negb]; [|done]. same_frame. Qed.
Lemma mapfileOps_frame sn sec rs b : frame (mapfileOps sn sec rs b) = frame b.
Proof. same_frame. Qed.
Lemma compileRewrites_frame sn sec rs b : frame (compileRewrites sn sec rs b) = frame b.
Proof. same_frame. Qed.
Lemma setPostconfs_frame m sn rs b : frame (setPostconfs m sn rs b) = frame b.
Proof. same_frame. Qed.
Lemma setPostconfds_frame m sn rs b : frame (setPostconfds m sn rs b) = frame b.
Proof. same_frame. Qed.
Lemma compileProxygen_frame sn sec rs b : frame (compileProxygen sn sec rs b) = frame b.
Proof. unfold compileProxygen. by case_match. Qed.
Lemma compileLdap_frame sn sec rs b : frame (compileLdap sn sec rs b) = frame b.
Proof. same_frame. Qed.
Lemma compileConditionals_frame sn rs l b :
  frame (foldl (compileConditional i sn rs) b l) = frame b.
Proof.
  apply (foldl_inv (λ b', frame b' = frame b)); [done|]. intros a c _ <-.
  unfold compileConditional. case_match; [|done].
  by rewrite setPostconfds_frame, setPostconfs_frame.
Qed.

Lemma compileSection_eq sn sec rs b :
  ∃ b', compileSection i sn sec rs b = compileRestarts i sn sec rs b' ∧ frame b' = frame b.
Proof.
  unfold compileSection. cbn zeta. eexists. split; [reflexivity|].
  by rewrite compileConditionals_frame, compileLdap_frame,
    compileProxygen_frame, setPostconfds_frame, setPostconfs_frame, compileRewrites_frame.
Qed.

Lemma compileRestarts_sections sn sec rs b :
  b_sections (compileRestarts i sn sec rs b) = b_sections b ∧
  b_tracked (compileRestarts i sn sec rs b) = b_tracked b.
Proof. unfold compileRestarts. by repeat case_match. Qed.

#[local] Arguments processSection : simpl never.

(** A section is skipped, only healed, or recorded and compiled. *)
Lemma processSection_cases b sn sec :
  (planned sn sec = false ∧ frame (processSection i b (sn, sec)) = frame b) ∨
  (planned sn sec = true ∧ ∃ b',
     processSection i b (sn, sec) =
       compileRestarts i sn sec (sectionReasons i sn (sectionChanges i sn sec)) b' ∧
     frame b' = frame (set_sections (λ l, l ++ [{| s_Name := sn;
       s_Reasons := sectionReasons i sn (sectionChanges i sn sec) |}]) b)).
Proof.
  unfold planned, considered, processSection.
  destruct (inScope i sn); [|by left]. simpl.
  destruct (SectionEnabled _ _); [|by left]. simpl.
  destruct (sectionReasons _ _ _) as [|r rs]; [left|right]; (split; [done|]).
  { apply healMapfiles_frame. }
  destruct (compileSection_eq sn sec (r :: rs) (if negb (is_nil (sectionChanges i sn sec)) || FirstRun i
    then mapfileOps sn sec (r :: rs) (set_sections (λ l, l ++ [{| s_Name := sn; s_Reasons := r :: rs |}])
      (healMapfiles sn sec (compared i sn) b))
    else set_sections (λ l, l ++ [{| s_Name := sn; s_Reasons := r :: rs |}])
      (healMapfiles sn sec (compared i sn) b))) as (b' & Heq & Hfr).
  exists b'. split; [exact Heq|]. rewrite Hfr.
  pose proof (healMapfiles_frame sn sec (compared i sn) b) as [= Hs Ht Hr Hd].
  case_match; rewrite ?mapfileOps_frame; unfold frame; simpl; congruence.
Qed.

Lemma processSection_frame b sn sec :
  b_sections (processSection i b (sn, sec)) = b_sections b ++ option_list (planned_section (sn, sec)) ∧
  b_tracked (processSection i b (sn, sec)) = b_tracked b.
Proof.
  unfold planned_section. simpl.
  destruct (processSection_cases b sn sec) as [(-> & [= Hs Ht _ _])|(-> & b' & -> & [= Hs Ht _ _])].
  - by rewrite Hs, Ht, app_nil_r.
  - destruct (compileRestarts_sections sn sec (sectionReasons i sn (sectionChanges i sn sec)) b')
      as [-> ->]. by rewrite Hs, Ht.
Qed.

Lemma processSections_frame b :
  b_sections (processSections i b) =
    b_sections b ++ match Conf i with
                    | Some conf => omap planned_section (sorted_items (mta_Sections conf))
                    | None => []
                    end ∧
  b_tracked (processSections i b) = b_tracked b.
Proof.
  unfold processSections. destruct (Conf i) as [conf|]; [|by rewrite app_nil_r].
  generalize (sorted_items (mta_Sections conf)). intros l. revert b.
  induction l as [|[sn sec] l IH]; intros b; simpl; [by rewrite app_nil_r|].
  destruct (processSection_frame b sn sec) as [Hs Ht].
  destruct (IH (processSection i b (sn, sec))) as [-> ->]. rewrite Hs, Ht, <- app_assoc.
  split; [|done]. f_equal. by destruct (planned_section (sn, sec)).
Qed.

(** No section restarts or defers anything on the first run. *)
Lemma processSections_first_run b :
  FirstRun i = true →
  b_restarts (processSections i b) = b_restarts b ∧ b_deferred (processSections i b) = b_deferred b.
Proof.
  intros Hf. unfold processSections. destruct (Conf i) as [conf|]; [|done].
  apply (foldl_inv (λ b', b_restarts b' = b_restarts b ∧ b_deferred b' = b_deferred b)); [done|].
  intros a [sn sec] _ [<- <-].
  destruct (processSection_cases a sn sec) as [(_ & [= _ _ Hr Hd])|(_ & b' & -> & [= _ _ Hr Hd])];
    [done|]. unfold compileRestarts. by rewrite Hf.
Qed.

(** ** Reasons that are variable changes *)
Lemma diffSection_kind sn sec r : r ∈ diffSection i sn sec → Kind r = ReasonVarChanged.
Proof.
  unfold diffSection. intros ([k t] & Hr & _)%list_elem_of_bind. unfold diffVar in Hr.
  repeat case_match; try (by apply not_elem_of_nil in Hr);
    apply list_elem_of_singleton in Hr as ->; done.
Qed.

Lemma sectionChanges_kind sn sec r : r ∈ sectionChanges i sn sec → Kind r = ReasonVarChanged.
Proof.
  unfold sectionChanges. destruct (compared i sn); [apply diffSection_kind|].
  by intros ?%not_elem_of_nil.
Qed.

Lemma elem_of_varChanges r rs : r ∈ varChanges rs ↔ Kind r = ReasonVarChanged ∧ r ∈ rs.
Proof. unfold varChanges. by rewrite list_elem_of_filter. Qed.

Lemma elem_of_sectionReasons sn ch r : r ∈ sectionReasons i sn ch →
  (FirstRun i = false ∧ r ∈ ch) ∨ Kind r ≠ ReasonVarChanged.
Proof.
  unfold sectionReasons. rewrite !elem_of_app.
  intros [H|[H|[H|H]]]; repeat case_match;
    try (by apply not_elem_of_nil in H);
    try (apply list_elem_of_singleton in H as ->; by right).
  by left.
Qed.

Lemma varChanges_sectionReasons sn sec :
  FirstRun i = false → ∀ r,
  r ∈ varChanges (sectionReasons i sn (sectionChanges i sn sec)) ↔ r ∈ sectionChanges i sn sec.
Proof.
  intros Hf r. rewrite elem_of_varChanges. split.
  - intros [Hk [[_ ?]|?]%elem_of_sectionReasons]; done.
  - intros Hr. split; [by eapply sectionChanges_kind|].
    unfold sectionReasons. rewrite Hf, !elem_of_app. auto.
Qed.

Lemma nonempty_iff {A} (l : list A) : l ≠ [] ↔ ∃ x, x ∈ l.
Proof.
  destruct l as [|x l]; split; try done.
  - by intros [x ?%not_elem_of_nil].
  - intros _. exists x. by left.
Qed.

(** A section with a variable change is processed. *)
Lemma changed_planned sn sec :
  FirstRun i = false → considered sn = true → sectionChanges i sn sec ≠ [] →
  planned sn sec = true.
Proof.
  intros Hf Hc [r Hr]%nonempty_iff. unfold planned. rewrite Hc. simpl.
  destruct (sectionReasons _ _ _) eqn:E; [|done].
  apply (varChanges_sectionReasons _ _ Hf) in Hr. rewrite E in Hr. by apply not_elem_of_nil in Hr.
Qed.

(** ** Attribution: the invariant of the section loop *)
Definition in_conf (P : string → MtaConfigSection → Prop) (sn : string) : Prop :=
  ∃ conf sec, Conf i = Some conf ∧ mta_Sections conf !! sn = Some sec ∧ P sn sec.

Definition Qplanned : string → Prop := in_conf (λ sn sec, planned sn sec = true).

Definition Qheal : string → Prop := in_conf (λ sn _, considered sn = true ∧ compared i sn = true).

Definition Qrestart (sn : string) : Prop :=
  Qplanned sn ∧ FirstRun i = false ∧ (sn ∉ forced i) ∧ (sn ∉ requested i).

Definition Qdeferred (sn : string) : Prop :=
  FirstRun i = false ∧ (sn ∈ forced i ∨ sn ∈ requested i) ∧
  in_conf (λ sn sec, planned sn sec = true ∧ sectionChanges i sn sec ≠ []) sn.

Abbreviation attributed := (builder_good Qplanned Qheal Qrestart Qdeferred).

Lemma processSection_good conf b sn sec :
  Conf i = Some conf → mta_Sections conf !! sn = Some sec →
  attributed b → attributed (processSection i b (sn, sec)).
Proof.
  intros Hc Hs Hb. unfold processSection.
  destruct (negb (inScope i sn) || _) eqn:Econ; [done|].
  assert (considered sn = true) as Hcon.
  { unfold considered. by destruct (inScope i sn), (SectionEnabled _ _). }
  cbn zeta.
  assert (attributed (healMapfiles sn sec (compared i sn) b)) as Hheal.
  { apply healMapfiles_good; [|done]. intros Hcmp. by exists conf, sec. }
  destruct (sectionReasons _ _ _) as [|r rs] eqn:Er; [done|].
  assert (planned sn sec = true) as Hp by (unfold planned; by rewrite Hcon, Er).
  assert (Qplanned sn) as HQ by (by exists conf, sec).
  apply compileSection_good; try done.
  - intros Hf [r' Hr']%(proj1 (nonempty_iff _)) Hfr. rewrite <- Er in Hr'.
    apply (varChanges_sectionReasons _ _ Hf) in Hr'.
    split; [done|]. split; [done|]. exists conf, sec. split_and!; try done.
    apply nonempty_iff. eauto.
  - case_match; [apply mapfileOps_good|]; try done; by apply ok_set_sections.
Qed.

Lemma processSections_good b : attributed b → attributed (processSections i b).
Proof.
  intros Hb. unfold processSections. destruct (Conf i) as [conf|] eqn:Hc; [|done].
  apply (foldl_inv attributed); [done|].
  intros a [sn sec] Hin%elem_of_sorted_items Ha. by eapply processSection_good.
Qed.
End sections.

(** ** Service status changes *)
Section toggles.
Variable i : Input.

Lemma stops_lookup (tracked : gmap string string) svc :
  foldl (λ t svc, if ServiceEnabled (Cur i) svc then t else <[svc := stop_toggle svc]> t)
    (∅ : gmap string Restart) (sorted_keys tracked) !! svc =
  if bool_decide (svc ∈ sorted_keys tracked) && negb (ServiceEnabled (Cur i) svc)
  then Some (stop_toggle svc) else None.
Proof.
  set (step := λ (t : gmap string Restart) s,
         if ServiceEnabled (Cur i) s then t else <[s := stop_toggle s]> t).
  assert (∀ l t, foldl step t l !! svc =
    if bool_decide (svc ∈ l) && negb (ServiceEnabled (Cur i) svc)
    then Some (stop_toggle svc) else t !! svc) as ->; [|by rewrite lookup_empty].
  induction l as [|s l IH]; intros t; simpl; [done|]. rewrite IH. unfold step.
  destruct (decide (svc = s)) as [->|Hne].
  - rewrite (bool_decide_eq_true_2 (s ∈ s :: l)) by by left. simpl.
    destruct (ServiceEnabled (Cur i) s); simpl; [by rewrite andb_false_r|].
    by destruct (bool_decide _); simpl; rewrite ?lookup_insert_eq.
  - rewrite (bool_decide_ext (svc ∈ s :: l) (svc ∈ l)) by (rewrite elem_of_cons; naive_solver).
    destruct (ServiceEnabled (Cur i) s); [done|]. by rewrite lookup_insert_ne.
Qed.

Definition start_step (st : gmap string Restart * gmap string string) (svc : string) :=
  match st.2 !! svc with
  | Some _ => st
  | None =>
      if FirstRun i
      then (st.1, <[svc := trackedStatus (IsTrueValue (ServiceValue (Cur i) svc))]> st.2)
      else (<[svc := start_toggle svc]> st.1, st.2)
  end.

Lemma start_steps_other l st svc : svc ∉ l →
  (foldl start_step st l).1 !! svc = st.1 !! svc ∧ (foldl start_step st l).2 !! svc = st.2 !! svc.
Proof.
  revert st. induction l as [|s l IH]; intros st Hn; simpl; [done|].
  apply not_elem_of_cons in Hn as [Hne Hn]. destruct (IH (start_step st s) Hn) as [-> ->].
  unfold start_step. repeat case_match; simpl; by rewrite ?lookup_insert_ne.
Qed.

Lemma start_steps_lookup l st svc : NoDup l → svc ∈ l → st.2 !! svc = None →
  (foldl start_step st l).1 !! svc =
    (if FirstRun i then st.1 !! svc else Some (start_toggle svc)) ∧
  (foldl start_step st l).2 !! svc =
    (if FirstRun i then Some (trackedStatus (IsTrueValue (ServiceValue (Cur i) svc))) else None).
Proof.
  revert st. induction l as [|s l IH]; intros st Hnd Hin Hnone; simpl.
  - by apply not_elem_of_nil in Hin.
  - apply NoDup_cons in Hnd as [Hs Hnd]. destruct (decide (svc = s)) as [->|Hne].
    + destruct (start_steps_other l (start_step st s) s Hs) as [-> ->]. unfold start_step.
      rewrite Hnone. destruct (FirstRun i); simpl; by rewrite ?lookup_insert_eq.
    + apply elem_of_cons in Hin as [->|Hin]; [done|].
      destruct (start_steps_other [s] st svc) as [H1 H2]; [by rewrite list_elem_of_singleton|].
      simpl in H1, H2. rewrite <- H1. apply IH; [done..|by rewrite H2].
Qed.

Lemma start_steps_known l st svc : is_Some (st.2 !! svc) →
  (foldl start_step st l).1 !! svc = st.1 !! svc ∧ (foldl start_step st l).2 !! svc = st.2 !! svc.
Proof.
  revert st. induction l as [|s l IH]; intros st Hk; simpl; [done|].
  assert ((start_step st s).1 !! svc = st.1 !! svc ∧ (start_step st s).2 !! svc = st.2 !! svc)
    as [H1 H2].
  { unfold start_step. destruct (decide (svc = s)) as [->|].
    - destruct Hk as [v Hv]. by destruct (st.2 !! s) eqn:E; [rewrite E|].
    - repeat case_match; simpl; by rewrite ?lookup_insert_ne. }
  rewrite <- H1, <- H2. apply IH. by rewrite H2.
Qed.

Lemma ServiceNames_NoDup : NoDup (ServiceNames (Cur i)).
Proof. destruct (Cur i); simpl; [apply NoDup_sorted_keys|constructor]. Qed.

Lemma serviceToggles_eq (tracked : gmap string string) :
  serviceToggles i tracked =
  foldl start_step
    (foldl (λ t svc, if ServiceEnabled (Cur i) svc then t else <[svc := stop_toggle svc]> t)
       ∅ (sorted_keys tracked), tracked) (ServiceNames (Cur i)).
Proof.
  unfold serviceToggles. cbn zeta. generalize (ServiceNames (Cur i)). intros l.
  match goal with |- foldl _ ?st l = _ => generalize st end. clear tracked.
  induction l as [|s l IH]; intros [t tr]; simpl; [done|]. rewrite <- IH.
  f_equal.
Qed.

(** Exactly which services the status changes act on, and how. *)
Lemma serviceToggles_lookup (tracked : gmap string string) svc :
  (serviceToggles i tracked).1 !! svc =
  match tracked !! svc with
  | Some _ => if ServiceEnabled (Cur i) svc then None else Some (stop_toggle svc)
  | None => if ServiceEnabled (Cur i) svc && negb (FirstRun i) then Some (start_toggle svc) else None
  end.
Proof.
  rewrite serviceToggles_eq. destruct (tracked !! svc) as [v|] eqn:E.
  - destruct (start_steps_known (ServiceNames (Cur i))
      (foldl (λ t svc, if ServiceEnabled (Cur i) svc then t else <[svc := stop_toggle svc]> t)
        ∅ (sorted_keys tracked), tracked) svc) as [-> _]; [by exists v|].
    simpl. rewrite stops_lookup, bool_decide_eq_true_2 by (apply elem_of_sorted_keys; by exists v).
    by destruct (ServiceEnabled (Cur i) svc).
  - assert (svc ∉ sorted_keys tracked) as Hn.
    { intros [v Hv]%elem_of_sorted_keys. congruence. }
    destruct (ServiceEnabled (Cur i) svc) eqn:En; simpl.
    + edestruct start_steps_lookup as [-> _]; [apply ServiceNames_NoDup|by apply elem_of_ServiceNames|done|].
      simpl. rewrite stops_lookup, bool_decide_eq_false_2 by done. by destruct (FirstRun i).
    + edestruct start_steps_other as [-> _]; [by apply ServiceEnabled_not_names|].
      simpl. rewrite stops_lookup, bool_decide_eq_false_2 by done. done.
Qed.

(** The tracking map only grows, and only on the first run. *)
Lemma serviceToggles_tracked tracked svc :
  (serviceToggles i tracked).2 !! svc =
  match tracked !! svc with
  | Some v => Some v
  | None => if ServiceEnabled (Cur i) svc && FirstRun i
            then Some (trackedStatus (IsTrueValue (ServiceValue (Cur i) svc))) else None
  end.
Proof.
  rewrite serviceToggles_eq. destruct (tracked !! svc) as [v|] eqn:E.
  - edestruct start_steps_known as [_ ->]; [|done]. simpl. by exists v.
  - destruct (ServiceEnabled (Cur i) svc) eqn:En; simpl.
    + edestruct start_steps_lookup as [_ ->]; [apply ServiceNames_NoDup|by apply elem_of_ServiceNames|done|].
      by destruct (FirstRun i).
    + edestruct start_steps_other as [_ ->]; [by apply ServiceEnabled_not_names|done].
Qed.

Lemma serviceToggles_good tracked QR : map_Forall (good QR) (serviceToggles i tracked).1.
Proof.
  intros svc r Hr. rewrite serviceToggles_lookup in Hr.
  repeat case_match; simplify_eq; (split; [done|]); split; try done;
    by intros ? ?%not_elem_of_nil.
Qed.

Lemma add_toggle_good QR m e : good QR e.1 e.2 → map_Forall (good QR) m →
  map_Forall (good QR) (add_toggle m e).
Proof.
  destruct e as [svc st]. intros He Hm. unfold add_toggle.
  destruct (m !! svc) as [have|] eqn:E; apply map_Forall_insert_2; try done.
  apply Hm in E. apply good_with_reasons; [|done].
  destruct E as (_ & Hr & _). apply append_uniques_not_nil. by left.
Qed.

Lemma add_toggle_has m e : has "" (r_Reasons e.2) (add_toggle m e) e.1.
Proof.
  destruct e as [svc st]. unfold add_toggle. destruct (m !! svc) as [have|]; eexists;
    (split; [apply lookup_insert_eq|]); (split; [done|]); simpl; [|done].
  intros x Hx. apply elem_of_append_uniques. by right.
Qed.

(** The restarts after the status changes of [toggles] are merged in. *)
Definition toggled (toggles m : gmap string Restart) : gmap string Restart :=
  foldl add_toggle m (sorted_items toggles).

Lemma toggled_has toggles m svc st :
  toggles !! svc = Some st → has "" (r_Reasons st) (toggled toggles m) svc.
Proof.
  intros Hst%elem_of_sorted_items. unfold toggled.
  eapply (foldl_reach (λ m, has "" (r_Reasons st) m svc)); [exact Hst|..].
  - intros a. apply (add_toggle_has a (svc, st)).
  - intros a y _. apply has_grows, add_toggle_grows.
Qed.

(** Absent from both, absent from the merge. *)
Lemma toggled_none toggles m svc :
  toggles !! svc = None → m !! svc = None → toggled toggles m !! svc = None.
Proof.
  intros Ht Hm. unfold toggled. apply (foldl_inv (λ m, m !! svc = None)); [done|].
  intros a [s st] Hin%elem_of_sorted_items Ha. unfold add_toggle.
  assert (s ≠ svc) by congruence. case_match; by rewrite lookup_insert_ne.
Qed.

(** With no other restart, a status change is taken as it is. *)
Lemma toggled_from_empty toggles svc st r :
  toggles !! svc = Some st → toggled toggles ∅ !! svc = Some r → r = st.
Proof.
  intros Hst. unfold toggled.
  assert (∀ l (m : gmap string Restart), NoDup l.*1 → (∀ k s, (k, s) ∈ l → toggles !! k = Some s) →
    (∀ x, m !! svc = Some x → x = st ∧ svc ∉ l.*1) →
    foldl add_toggle m l !! svc = Some r → r = st) as Hgen.
  { induction l as [|[k s] l IH]; intros m Hnd Hl Hm Hr; simpl in *; [by apply Hm in Hr as []|].
    apply NoDup_cons in Hnd as [Hk Hnd]. eapply IH; [done|intros; by apply Hl; right| |exact Hr].
    intros x. unfold add_toggle. destruct (decide (k = svc)) as [->|Hne].
    - assert (s = st) as -> by (specialize (Hl svc s); rewrite Hst in Hl;
        assert (Some st = Some s) as [= ->] by (apply Hl; by left); done).
      destruct (m !! svc) as [have|] eqn:E; rewrite lookup_insert_eq; intros [= <-]; [|done].
      destruct (Hm have eq_refl) as [_ []]. by left.
    - destruct (m !! k); rewrite lookup_insert_ne by done; intros [-> Hn]%Hm;
        (split; [done|]); by intros ?; apply Hn; right. }
  apply (Hgen _ ∅).
  - apply NoDup_sorted_keys.
  - intros k s. apply elem_of_sorted_items.
  - intros x. by rewrite lookup_empty.
Qed.

Lemma trackServices_restarts b :
  b_restarts (trackServices i b) = toggled (serviceToggles i (b_tracked b)).1 (b_restarts b).
Proof. unfold trackServices. by destruct (serviceToggles i (b_tracked b)). Qed.

Lemma trackServices_tracked b :
  b_tracked (trackServices i b) = (serviceToggles i (b_tracked b)).2.
Proof. unfold trackServices. by destruct (serviceToggles i (b_tracked b)). Qed.
End toggles.
