(* ===== verification/Fixtures.v ===== *)
(** * Fixtures: concrete inputs

    The small configuration of [internal/plan/compute_test.go] ([mtaConf]), on
    which the theorems are instantiated and the definitions evaluated. *)
From S2P Require Import Prelude Config Snapshot Plan Compute.

Definition names (l : list string) : gmap string bool := list_to_map ((λ n, (n, true)) <$> l).
Definition strs (l : list (string * string)) : gmap string string := list_to_map l.

Definition snap (services : list string) (vars : list (string * string)) : Snapshot :=
  WithObserved (Some (New {| Local_ := ∅; Global_ := strs vars; Server_ := ∅; Misc_ := ∅;
                             Services_ := strs ((λ s, (s, "zimbraServiceEnabled")) <$> services) |}))
    (list_to_map ((λ kv, ((TypeVar, kv.1), kv.2)) <$> vars)).

Definition mta_section : MtaConfigSection := {|
  sec_Name := "mta"; sec_Depends := names ["amavis"];
  sec_Rewrites := {["conf/main.cf.in" := {| re_Value := "conf/main.cf"; re_Mode := "0640" |}]};
  sec_Restarts := names ["mta"];
  sec_RequiredVars := strs [("zimbraMtaRestriction", "VAR")];
  sec_Postconf := strs [("smtpd_restrictions", "VAR:zimbraMtaRestriction")];
  sec_Postconfd := strs [("old_param", "")];
  sec_Ldap := strs [("zimbraMtaMyNetworks", "LOCAL:mynetworks"); ("zimbraEmpty", "")];
  sec_Proxygen := false; sec_Conditionals := [] |}.

Definition amavis_section : MtaConfigSection := {|
  sec_Name := "amavis"; sec_Depends := ∅; sec_Rewrites := ∅;
  sec_Restarts := names ["antivirus"; "amavis"; "mta"];
  sec_RequiredVars := strs [("zimbraAmavisX", "VAR")];
  sec_Postconf := ∅; sec_Postconfd := ∅; sec_Ldap := ∅;
  sec_Proxygen := false; sec_Conditionals := [] |}.

Definition proxy_section : MtaConfigSection := {|
  sec_Name := "proxy"; sec_Depends := ∅; sec_Rewrites := ∅;
  sec_Restarts := names ["proxy"]; sec_RequiredVars := strs [("zimbraProxyX", "VAR")];
  sec_Postconf := ∅; sec_Postconfd := ∅; sec_Ldap := ∅;
  sec_Proxygen := true; sec_Conditionals := [] |}.

Definition mtaConf : MtaConfig :=
  {| mta_Sections := list_to_map
       [("mta", mta_section); ("amavis", amavis_section); ("proxy", proxy_section)] |}.

Definition allServices := ["mta"; "proxy"; "antivirus"; "antispam"].
Definition allTracked := strs ((λ s, (s, "running")) <$> allServices).

Definition base : Snapshot :=
  snap allServices [("zimbraMtaRestriction", "a"); ("zimbraAmavisX", "1"); ("zimbraProxyX", "p")].
Definition mta_changed : Snapshot :=
  snap allServices [("zimbraMtaRestriction", "b"); ("zimbraAmavisX", "1"); ("zimbraProxyX", "p")].

Definition cycle (prev cur : Snapshot) (requested : list string) (carry : Carry) : Input :=
  {| Prev := Some prev; Cur := Some cur; Conf := Some mtaConf; Forced := [];
     Requested := requested; FirstRun := false; Tracked := allTracked; In_Carry := carry;
     Scope := []; AssumeChanged := false; In_Host := None; Systemd := false |}.

Definition plan_of (i : Input) : option Plan :=
  match Compute i with inr p => Some p | inl _ => None end.

(** [TestCompute_SingleVarChange]. *)
Example single_var_change :
  (λ p, ((s_Name <$> p_Sections p), (rw_Target <$> p_Rewrites p), (pc_Key <$> p_Postconf p),
         (ld_Key <$> p_Ldap p),
         ((λ r, (r_Service r, r_Action r, Strings (r_Reasons r))) <$> p_Restarts p))) <$>
  plan_of (cycle base mta_changed [] empty_carry) =
  Some (["mta"], ["conf/main.cf"], ["smtpd_restrictions"], ["zimbraMtaMyNetworks"],
        [("mta", ActionRestart,
          ["section mta changed because VAR zimbraMtaRestriction changed 'a'->'b'"])]).
Proof. vm_compute. reflexivity. Qed.

(** [TestCompute_NoChangeIsEmpty]. *)
Example no_change_is_empty :
  Plan_IsEmpty <$> plan_of (cycle base base [] empty_carry) = Some true.
Proof. vm_compute. reflexivity. Qed.

(** A REWRITE of the changed section defers its restart. *)
Example requested_defers :
  (λ p, (r_Service <$> p_Restarts p, r_Service <$> p_DeferredRestarts p)) <$>
  plan_of (cycle base mta_changed ["mta"] empty_carry) = Some ([], ["mta"]).
Proof. vm_compute. reflexivity. Qed.
