(* ===== verification/ComputeProps.v ===== *)
(** * ComputeProps: what a plan promises

    The theorems on [Compute]: a change is never lost and never duplicated, a
    REWRITE never restarts the services it was sent for, every entry of a plan
    is explained, sorted and unique, an unchanged configuration plans nothing,
    unfinished work is retried and the host comparison prunes exactly what is in
    sync. *)
From S2P Require Import Prelude Config Snapshot Plan Compute ComputeFacts Fixtures.

(** ** The invariant at the end of the build *)
Lemma good_mono {T} `{PlanEntry T} (Q Q' : string → Prop) k (e : T) :
  (∀ s, Q s → Q' s) → good Q k e → good Q' k e.
Proof. intros HQ (Hk & Hr & Hs). split_and!; auto. Qed.

Lemma builder_good_mono (Q QH QR QD Q' QH' QR' QD' : string → Prop) b :
  (∀ s, Q s → Q' s) → (∀ s, QH s → QH' s) → (∀ s, QR s → QR' s) → (∀ s, QD s → QD' s) →
  builder_good Q QH QR QD b → builder_good Q' QH' QR' QD' b.
Proof.
  intros HQ HH HR HD []. split;
    try (eapply map_Forall_impl; [eassumption|]; intros ? ? ?; by eapply good_mono).
  - eapply map_Forall_impl; [eassumption|]. intros ? ? [? ?]. split; [by eapply good_mono|done].
  - eapply map_Forall_impl; [eassumption|]. intros ? ? [? ?]. split; [by eapply good_mono|done].
  - intros p Hp. destruct (ok_proxygen p Hp). auto.
Qed.

Section build.
Variable i : Input.

(** A section an action left over from the previous cycle names. *)
Definition carried (s : string) : Prop :=
  let c := In_Carry i in
  (∃ r, r ∈ c_Rewrites c ∧ s ∈ rw_Sections r) ∨ (∃ r, r ∈ c_Postconf c ∧ s ∈ pc_Sections r) ∨
  (∃ r, r ∈ c_Postconfd c ∧ s ∈ pd_Sections r) ∨ (∃ r, r ∈ c_Ldap c ∧ s ∈ ld_Sections r) ∨
  (∃ p, c_Proxygen c = Some p ∧ s ∈ pg_Sections p).

Definition carried_restart (s : string) : Prop :=
  ∃ r, r ∈ c_Restarts (In_Carry i) ∧ s ∈ r_Sections r.

Lemma trackServices_good Q QH QR QD b :
  builder_good Q QH QR QD b → builder_good Q QH QR QD (trackServices i b).
Proof.
  intros []. unfold trackServices.
  pose proof (serviceToggles_good i (b_tracked b) QR) as Ht.
  destruct (serviceToggles i (b_tracked b)) as [t tr]. split; cbn; try done.
  apply (foldl_inv (map_Forall (good QR))); [done|].
  intros m [k st] Hin%elem_of_sorted_items Hm. by apply add_toggle_good; [apply Ht|].
Qed.

Lemma mergeCarry_good Q QH QR QD b :
  (∀ s, carried s → Q s) → (∀ s, carried_restart s → QR s) →
  builder_good Q QH QR QD b → builder_good Q QH QR QD (mergeCarry i b).
Proof.
  intros HQ HR []. unfold carried in HQ. split; cbn; try done;
    try (apply carryItems_good; [|done]; intros it s Hit Hs;
         first [apply HQ|apply HR]; unfold carried_restart; by eauto 7).
  unfold carryProxygen. destruct (c_Proxygen (In_Carry i)) as [c|]; [|done].
  intros p [= <-]. cbn. split; [apply append_unique_not_nil|].
  intros s Hs. destruct (b_proxygen b) as [p|]; simpl in Hs; [by apply (ok_proxygen p)|].
  apply HQ. naive_solver.
Qed.

Lemma build_good : builder_good
  (λ s, Qplanned i s ∨ carried s) (Qheal i)
  (λ s, Qrestart i s ∨ carried_restart s) (Qdeferred i) (build i).
Proof.
  apply mergeCarry_good; [by right|by right|].
  apply trackServices_good. eapply builder_good_mono; [by left|done|by left|done|].
  apply processSections_good, ok_new.
Qed.

(** Keyed and explained, whatever the sections: what pruning keeps. *)
Abbreviation keyed := (builder_good (λ _, True) (λ _, True) (λ _, True) (λ _, True)).

Lemma build_keyed : keyed (build i).
Proof. eapply builder_good_mono; [..|apply build_good]; done. Qed.

Lemma keep_not_nil d rs : keep d = Some rs → rs ≠ [].
Proof. unfold keep. case_match; [done|]. by intros [= <-]. Qed.

Lemma prune_good {T} `{PlanEntry T} drifts (m : gmap string T) :
  map_Forall (good (λ _, True)) m → map_Forall (good (λ _, True)) (prune drifts m).
Proof.
  intros Hm k e He. unfold prune in He. rewrite map_lookup_imap in He.
  destruct (m !! k) as [e0|] eqn:E; [|done]. simpl in He.
  destruct (keep _) as [rs|] eqn:Ek; [|done]. injection He as <-.
  apply good_with_reasons; [by eapply keep_not_nil|by apply Hm].
Qed.

Lemma heal_to_mapfiles_good h b : keyed b →
  map_Forall (λ mk m, good (λ _, True) mk.1 m ∧ mf_Local m = mk.2)
    (heal_to_mapfiles h (b_heal b) (b_mapfiles b)).
Proof.
  intros []. unfold heal_to_mapfiles. apply (foldl_inv (map_Forall _)); [done|].
  intros ms [k m] Hin%elem_of_sorted_items Hms. destruct (keep _) as [rs|] eqn:Ek; [|done].
  apply keep_not_nil in Ek. destruct (ms !! (k, false)) as [have|] eqn:E;
    apply map_Forall_insert_2; try done.
  - apply Hms in E as [? ?]. split; [by apply good_with_reasons|done].
  - apply ok_heal in Hin as [? ?]. split; [by apply good_with_reasons|done].
Qed.

Lemma pruneToHost_keyed b : keyed b → keyed (pruneToHost i b).
Proof.
  intros Hb. unfold pruneToHost. destruct (In_Host i) as [h|]; [|done].
  pose proof (heal_to_mapfiles_good h b Hb) as Hms. destruct Hb.
  unfold pruneMapfiles, pruneFiles, pruneDirectives. cbn zeta. split; cbn;
    try apply map_Forall_empty; try (by apply prune_good).
  - intros mk m Hm. rewrite map_lookup_imap in Hm.
    destruct (heal_to_mapfiles _ _ _ !! mk) as [m0|] eqn:E; [|done]. simpl in Hm.
    destruct (keep _) as [rs|] eqn:Ek; [|done]. injection Hm as <-.
    apply Hms in E as [(Hk & _ & _) ?]. split; [|done].
    split_and!; [done|by eapply keep_not_nil|done].
  - intros p Hp. unfold pruneProxygen in Hp. destruct (b_proxygen b); [|done]. simpl in Hp.
    destruct (keep _) as [rs|] eqn:Ek; [|done]. injection Hp as <-. split; [|done].
    by eapply keep_not_nil.
  - intros k r Hr. rewrite lookup_omap in Hr. destruct (b_restarts b !! k) as [r0|] eqn:E; [|done].
    simpl in Hr. unfold pruneRestart in Hr. case_match; [|done]. injection Hr as <-.
    apply ok_restarts in E as (Hk & _ & _). by split_and!.
Qed.
End build.

(** ** From the builder to the plan *)
Lemma Compute_inr i p : Compute i = inr p → p = finish i (pruneToHost i (build i)).
Proof. unfold Compute. destruct (guardAllDisabled i); [done|]. by intros [= <-]. Qed.

Lemma pruneToHost_None i b : In_Host i = None → pruneToHost i b = b.
Proof. intros H. unfold pruneToHost. by rewrite H. Qed.

Lemma Compute_no_host i p : Compute i = inr p → In_Host i = None → p = finish i (build i).
Proof. intros ->%Compute_inr H. by rewrite pruneToHost_None. Qed.

Lemma elem_of_classified i (m : gmap string Restart) r :
  r ∈ classified i <$> collectSorted m ↔ ∃ k r0, m !! k = Some r0 ∧ r = classified i r0.
Proof.
  rewrite list_elem_of_fmap. setoid_rewrite elem_of_collectSorted. naive_solver.
Qed.

(** The list has an entry for [key] that names section [sn] and carries [rs]. *)
Definition planned_for {T} `{PlanEntry T} (l : list T) (key sn : string) (rs : list Reason) : Prop :=
  ∃ e, e ∈ l ∧ entry_key e = key ∧ sn ∈ entry_sections e ∧ rs ⊆ entry_reasons e.

Lemma has_planned_for {T} `{PlanEntry T} Q (m : gmap string T) k sn rs :
  sn ≠ "" → map_Forall (good Q) m → has sn rs m k → planned_for (collectSorted m) k sn rs.
Proof.
  intros Hne Hm (e & He & Hs & Hr). exists e. split; [apply elem_of_collectSorted; eauto|].
  split_and!; auto. by apply Hm in He as [].
Qed.

Lemma has_planned_restart i Q (m : gmap string Restart) k sn rs :
  sn ≠ "" → map_Forall (good Q) m → has sn rs m k →
  planned_for (classified i <$> collectSorted m) k sn rs.
Proof.
  intros Hne Hm (e & He & Hs & Hr). exists (classified i e).
  split; [apply elem_of_classified; eauto|]. split_and!; simpl; auto. by apply Hm in He as [].
Qed.

(** ** Shape of a plan *)
Lemma good_sorted {T} `{PlanEntry T} Q (m : gmap string T) :
  map_Forall (good Q) m → StronglySorted (key_lt entry_key) (collectSorted m).
Proof.
  intros Hm. apply collectSorted_sorted. eapply map_Forall_impl; [exact Hm|]. by intros k e [].
Qed.

Lemma classified_sorted i (l : list Restart) :
  StronglySorted (key_lt r_Service) l → StronglySorted (key_lt r_Service) (classified i <$> l).
Proof.
  induction 1 as [|r l Hs IH Hall]; simpl; constructor; [done|].
  apply Forall_fmap. eapply Forall_impl; [exact Hall|]. done.
Qed.

Lemma mapfile_le_total : Total mapfile_le.
Proof.
  intros a c. unfold mapfile_le. destruct (decide (mf_Key a = mf_Key c)) as [->|Hne].
  - destruct (mf_Local a), (mf_Local c); auto.
  - destruct (total String.le (mf_Key a) (mf_Key c)); auto.
Qed.

Lemma mapfile_le_trans : Transitive mapfile_le.
Proof.
  intros a b c [[Hn1 H1]|[E1 L1]] [[Hn2 H2]|[E2 L2]]; unfold mapfile_le in *.
  - left. split; [|by etrans]. intros E. apply Hn1. apply (anti_symm String.le); [done|].
    by rewrite E.
  - left. rewrite <- E2. auto.
  - left. rewrite E1. auto.
  - right. split; [congruence|]. destruct L1 as [?|L1], L2 as [L2|?]; auto. congruence.
Qed.

(** The lists of a plan are sorted by key without duplicates: equal inputs give
    identical plans, and no target is acted on twice. *)
Definition plan_sorted (p : Plan) : Prop :=
  StronglySorted (key_lt rw_Source) (p_Rewrites p) ∧
  StronglySorted (key_lt pc_Key) (p_Postconf p) ∧
  StronglySorted (key_lt pd_Key) (p_Postconfd p) ∧
  StronglySorted (key_lt ld_Key) (p_Ldap p) ∧
  StronglySorted (key_lt r_Service) (p_Restarts p) ∧
  StronglySorted (key_lt r_Service) (p_DeferredRestarts p) ∧
  StronglySorted mapfile_le (p_Mapfiles p) ∧
  NoDup ((λ m, (mf_Key m, mf_Local m)) <$> p_Mapfiles p).

Lemma collectMapfiles_NoDup (m : gmap (string * bool) Mapfile) :
  map_Forall (λ mk e, (mf_Key e, mf_Local e) = mk) m →
  NoDup ((λ e, (mf_Key e, mf_Local e)) <$> collectMapfiles m).
Proof.
  intros Hm. unfold collectMapfiles. rewrite merge_sort_Permutation, <- list_fmap_compose.
  assert ((λ e, (mf_Key e, mf_Local e)) ∘ snd <$> map_to_list m = (map_to_list m).*1) as ->.
  { apply list_fmap_ext. intros j [k e] Hl%list_elem_of_lookup_2%elem_of_map_to_list.
    by apply Hm. }
  apply NoDup_fst_map_to_list.
Qed.

(** Every list of a plan is strictly sorted by its key (rewrites by source,
    directives by key, restarts by service), and no mapped file is listed twice. *)
Theorem Compute_sorted i p : Compute i = inr p → plan_sorted p.
Proof.
  intros ->%Compute_inr. destruct (pruneToHost_keyed i _ (build_keyed i)).
  unfold plan_sorted. cbn [finish p_Rewrites p_Postconf p_Postconfd p_Ldap p_Restarts
    p_DeferredRestarts p_Mapfiles]. split_and!.
  - exact (good_sorted _ _ ok_rewrites).
  - exact (good_sorted _ _ ok_postconf).
  - exact (good_sorted _ _ ok_postconfd).
  - exact (good_sorted _ _ ok_ldap).
  - apply classified_sorted, (good_sorted _ _ ok_restarts).
  - apply classified_sorted, (good_sorted _ _ ok_deferred).
  - pose proof mapfile_le_total. pose proof mapfile_le_trans.
    by apply StronglySorted_merge_sort.
  - apply collectMapfiles_NoDup. eapply map_Forall_impl; [exact ok_mapfiles|].
    intros [k l] m [(Hk & _ & _) Hl]. simpl in *. congruence.
Qed.

Lemma Compute_sorted_witness :
  ∃ p, Compute (cycle base mta_changed [] empty_carry) = inr p ∧ plan_sorted p.
Proof. eexists. split; [|apply (Compute_sorted (cycle base mta_changed [] empty_carry))]; reflexivity. Defined.

(** No entry of the plan is without a reason. *)
Definition plan_explained (p : Plan) : Prop :=
  (∀ s, s ∈ p_Sections p → s_Reasons s ≠ []) ∧
  (∀ m, m ∈ p_Mapfiles p → mf_Reasons m ≠ []) ∧
  (∀ m, m ∈ p_Heal p → mf_Reasons m ≠ []) ∧
  (∀ r, r ∈ p_Rewrites p → rw_Reasons r ≠ []) ∧
  (∀ r, r ∈ p_Postconf p → pc_Reasons r ≠ []) ∧
  (∀ r, r ∈ p_Postconfd p → pd_Reasons r ≠ []) ∧
  (∀ r, r ∈ p_Ldap p → ld_Reasons r ≠ []) ∧
  (∀ g, p_Proxygen p = Some g → pg_Reasons g ≠ []) ∧
  (∀ r, r ∈ p_Restarts p → r_Reasons r ≠ []) ∧
  (∀ r, r ∈ p_DeferredRestarts p → r_Reasons r ≠ []).

Lemma collectSorted_explained {T} `{PlanEntry T} Q (m : gmap string T) e :
  map_Forall (good Q) m → e ∈ collectSorted m → entry_reasons e ≠ [].
Proof. intros Hm (k & Hk)%elem_of_collectSorted. by apply Hm in Hk as (_ & ? & _). Qed.

Lemma build_sections i :
  b_sections (build i) = match Conf i with
                         | Some conf => omap (planned_section i) (sorted_items (mta_Sections conf))
                         | None => []
                         end.
Proof.
  unfold build, mergeCarry, trackServices. simpl.
  destruct (serviceToggles i _) as [t tr]. simpl.
  by destruct (processSections_frame i (newBuilder i)) as [-> _].
Qed.

Lemma elem_of_build_sections i s :
  s ∈ b_sections (build i) ↔ ∃ conf sn sec, Conf i = Some conf ∧
    mta_Sections conf !! sn = Some sec ∧ planned i sn sec = true ∧
    s = {| s_Name := sn; s_Reasons := sectionReasons i sn (sectionChanges i sn sec) |}.
Proof.
  rewrite build_sections. destruct (Conf i) as [conf|].
  - rewrite list_elem_of_omap. split.
    + intros ([sn sec] & Hin%elem_of_sorted_items & Hp). unfold planned_section in Hp. simpl in Hp.
      destruct (planned i sn sec) eqn:E; [|done]. injection Hp as <-. by exists conf, sn, sec.
    + intros (? & sn & sec & [= <-] & Hs & Hp & ->). exists (sn, sec).
      split; [by apply elem_of_sorted_items|]. unfold planned_section. simpl. by rewrite Hp.
  - split; [by intros ?%not_elem_of_nil|]. by intros (? & ? & ? & ? & _).
Qed.

Lemma pruneToHost_sections i b s : s ∈ b_sections (pruneToHost i b) → s ∈ b_sections b.
Proof.
  unfold pruneToHost. destruct (In_Host i); [|done]. cbn. by intros [_ ?]%list_elem_of_filter.
Qed.

(** Every entry of a plan, of every kind, carries at least one reason. *)
Theorem Compute_explained i p : Compute i = inr p → plan_explained p.
Proof.
  intros ->%Compute_inr. destruct (pruneToHost_keyed i _ (build_keyed i)).
  unfold plan_explained. cbn [finish p_Sections p_Mapfiles p_Heal p_Rewrites p_Postconf p_Postconfd
    p_Ldap p_Proxygen p_Restarts p_DeferredRestarts]. split_and!.
  - intros s (conf & sn & sec & _ & _ & Hp & ->)%pruneToHost_sections%elem_of_build_sections. simpl.
    unfold planned in Hp. by destruct (sectionReasons _ _ _); [rewrite andb_false_r in Hp|].
  - intros m Hm. unfold collectMapfiles in Hm. rewrite merge_sort_Permutation in Hm.
    apply list_elem_of_fmap in Hm as ([k e] & -> & Hm%elem_of_map_to_list).
    by apply ok_mapfiles in Hm as [(_ & ? & _) _].
  - intros m ([k e] & -> & [_ Hm%elem_of_sorted_items]%list_elem_of_filter)%list_elem_of_fmap.
    by apply ok_heal in Hm as [(_ & ? & _) _].
  - exact (λ e, collectSorted_explained _ _ e ok_rewrites).
  - exact (λ e, collectSorted_explained _ _ e ok_postconf).
  - exact (λ e, collectSorted_explained _ _ e ok_postconfd).
  - exact (λ e, collectSorted_explained _ _ e ok_ldap).
  - intros g Hg. by destruct (ok_proxygen g Hg).
  - intros r (k & r0 & H0 & ->)%elem_of_classified. by apply ok_restarts in H0 as (_ & ? & _).
  - intros r (k & r0 & H0 & ->)%elem_of_classified. by apply ok_deferred in H0 as (_ & ? & _).
Qed.

Lemma Compute_explained_witness :
  ∃ p, Compute (cycle base mta_changed ["mta"] empty_carry) = inr p ∧ plan_explained p.
Proof.
  eexists. split; [|apply (Compute_explained (cycle base mta_changed ["mta"] empty_carry))]; reflexivity.
Defined.

(** ** REWRITE cycles never restart what they were sent for *)

(** C1: a section named by a restart of the plan was neither forced nor requested in
    this cycle, which is not the first run, and is itself planned; the only
    other sections named are those of restarts carried over from an earlier
    cycle. *)
Theorem Compute_no_restart_loop i p r s :
  Compute i = inr p → In_Host i = None → r ∈ p_Restarts p → s ∈ r_Sections r →
  (FirstRun i = false ∧ (s ∉ Forced i) ∧ (s ∉ Requested i) ∧ s ∈ s_Name <$> p_Sections p) ∨
  (∃ c, c ∈ c_Restarts (In_Carry i) ∧ s ∈ r_Sections c).
Proof.
  intros Hc Hh. apply (Compute_no_host _ _ Hc) in Hh as ->. cbn [finish p_Restarts p_Sections].
  intros (k & r0 & H0 & ->)%elem_of_classified Hs.
  apply (ok_restarts _ _ _ _ _ (build_good i)) in H0 as (_ & _ & HQ).
  destruct (HQ s Hs) as [(Hp & Hf & Hfo & Hre)|?]; [left|by right].
  unfold forced, requested, toSet in *. rewrite elem_of_list_to_set in Hfo, Hre.
  split_and!; try done. destruct Hp as (conf & sec & HC & HS & Hpl).
  apply list_elem_of_fmap. eexists.
  split; [|apply elem_of_build_sections; exists conf, s, sec; split_and!; done]. done.
Qed.

Lemma Compute_no_restart_loop_witness :
  ∃ p r, Compute (cycle base mta_changed [] empty_carry) = inr p ∧ r ∈ p_Restarts p ∧
    (("mta" ∉ Requested (cycle base mta_changed [] empty_carry)) ∨
     ∃ c, c ∈ c_Restarts empty_carry ∧ "mta" ∈ r_Sections c).
Proof.
  eexists _, _. split; [reflexivity|]. split; [vm_compute; by left|].
  edestruct (Compute_no_restart_loop (cycle base mta_changed [] empty_carry)) as [H|H];
    [reflexivity|reflexivity|vm_compute; by left|vm_compute; by left|..].
  - left. exact (proj1 (proj2 (proj2 H))).
  - right. exact H.
Defined.

(** ** A variable change is never lost *)
Section change.
Variables (i : Input) (conf : MtaConfig) (sn : string) (sec : MtaConfigSection).
Hypothesis Hrun : FirstRun i = false.
Hypothesis Hconf : Conf i = Some conf.
Hypothesis Hsec : mta_Sections conf !! sn = Some sec.
Hypothesis Hcons : considered i sn = true.
Hypothesis Hchg : sectionChanges i sn sec ≠ [].

Local Abbreviation chg := (sectionChanges i sn sec).
Local Abbreviation reasons := (sectionReasons i sn chg).

Lemma chg_sub : chg ⊆ reasons.
Proof.
  intros r Hr. apply (varChanges_sectionReasons i sn sec Hrun) in Hr.
  by apply elem_of_varChanges in Hr as [_ ?].
Qed.

(** The builder when the loop reaches the section, and right after it. *)
Lemma processSection_changed b :
  processSection i b (sn, sec) =
  compileSection i sn sec reasons (mapfileOps sn sec reasons
    (set_sections (λ l, l ++ [{| s_Name := sn; s_Reasons := reasons |}])
      (healMapfiles sn sec (compared i sn) b))).
Proof.
  unfold processSection. pose proof Hcons as Hc. unfold considered in Hc.
  apply andb_true_iff in Hc as [-> ->]. cbn [negb orb].
  assert (reasons ≠ []) as Hne.
  { apply nonempty_iff in Hchg as [r Hr]. apply nonempty_iff. exists r. by apply chg_sub. }
  cbn zeta. destruct reasons; [done|]. by destruct chg.
Qed.

(** What the section's step establishes, and growth keeps, holds at the end of
    the build. *)
Lemma changed_build_P (P : builder → Prop) :
  (∀ b b', builder_grows b b' → P b → P b') →
  (∀ b, P (compileSection i sn sec reasons (mapfileOps sn sec reasons b))) → P (build i).
Proof.
  intros HP Hest.
  assert (P (processSections i (newBuilder i))) as Hp.
  { unfold processSections. rewrite Hconf.
    eapply (foldl_reach P); [by apply elem_of_sorted_items|..].
    - intros b. rewrite processSection_changed. apply Hest.
    - intros b e _. apply HP, processSection_grows. }
  eapply HP; [|exact Hp]. etrans; [apply trackServices_grows|apply mergeCarry_grows].
Qed.

Lemma changed_build {T} `{PlanEntry T} (f : builder → gmap string T) k :
  (∀ b b', builder_grows b b' → map_grows (f b) (f b')) →
  (∀ b, has sn chg (f (compileSection i sn sec reasons b)) k) → has sn chg (f (build i)) k.
Proof.
  intros Hf Hest. apply (changed_build_P (λ b, has sn chg (f b) k)); [|auto].
  intros b b' Hg. by apply has_grows, Hf.
Qed.

Lemma has_weaken {T K} `{PlanEntry T} `{Countable K} s rs rs' (m : gmap K T) k :
  rs ⊆ rs' → has s rs' m k → has s rs m k.
Proof. intros Hsub (e & He & Hs & Hr). exists e. split_and!; [done|done|by etrans]. Qed.

(** An entry set while the section is compiled survives its later steps. *)
Lemma compile_has {T} `{PlanEntry T} (f : builder → gmap string T) k b b' :
  (∀ b b', builder_grows b b' → map_grows (f b) (f b')) →
  has sn reasons (f b) k → builder_grows b b' → has sn chg (f b') k.
Proof.
  intros Hf Hh Hg. eapply has_weaken; [apply chg_sub|]. eapply has_grows; [by apply Hf|done].
Qed.

Lemma changed_rewrites src e :
  sec_Rewrites sec !! src = Some e → has sn chg (b_rewrites (build i)) src.
Proof.
  intros He. apply changed_build; [apply g_rewrites|]. intros b.
  eapply (compile_has b_rewrites _ (compileRewrites sn sec reasons b)); [apply g_rewrites|..].
  - eapply (foldl_reach (λ b, has sn reasons (b_rewrites b) src));
      [by apply elem_of_sorted_items|..].
    + intros a. cbn. eapply upsert_has. solve_adds.
    + intros a [k v] _. cbn. apply has_grows. eapply upsert_grows. solve_adds.
  - unfold compileSection. cbn zeta.
    etrans; [apply setPostconfs_grows|]. etrans; [apply setPostconfds_grows|].
    etrans; [apply compileProxygen_grows|]. etrans; [apply compileLdap_grows|].
    etrans; [apply compileConditionals_grows|apply compileRestarts_grows].
Qed.

Lemma changed_postconf key v :
  sec_Postconf sec !! key = Some v → has sn chg (b_postconf (build i)) key.
Proof.
  intros He. apply changed_build; [apply g_postconf|]. intros b.
  eapply (compile_has b_postconf _
    (setPostconfs (sec_Postconf sec) sn reasons (compileRewrites sn sec reasons b)));
    [apply g_postconf|..].
  - eapply (foldl_reach (λ b, has sn reasons (b_postconf b) key));
      [by apply elem_of_sorted_items|..].
    + intros a. cbn. eapply upsert_has. solve_adds.
    + intros a [k w] _. cbn. apply has_grows. eapply upsert_grows. solve_adds.
  - unfold compileSection. cbn zeta. etrans; [apply setPostconfds_grows|].
    etrans; [apply compileProxygen_grows|]. etrans; [apply compileLdap_grows|].
    etrans; [apply compileConditionals_grows|apply compileRestarts_grows].
Qed.

Lemma changed_postconfd key v :
  sec_Postconfd sec !! key = Some v → has sn chg (b_postconfd (build i)) key.
Proof.
  intros He. apply changed_build; [apply g_postconfd|]. intros b.
  eapply (compile_has b_postconfd _ (setPostconfds (sec_Postconfd sec) sn reasons _));
    [apply g_postconfd|..].
  - eapply (foldl_reach (λ b, has sn reasons (b_postconfd b) key));
      [by apply elem_of_sorted_items|..].
    + intros a. cbn. eapply upsert_has. solve_adds.
    + intros a [k w] _. cbn. apply has_grows. eapply upsert_grows. solve_adds.
  - unfold compileSection. cbn zeta.
    etrans; [apply compileProxygen_grows|]. etrans; [apply compileLdap_grows|].
    etrans; [apply compileConditionals_grows|apply compileRestarts_grows].
Qed.

Lemma changed_mapfiles key t :
  sec_RequiredVars sec !! key = Some t → t = TypeMapFile ∨ t = TypeMapLocal →
  has sn chg (b_mapfiles (build i)) (lookupKey key, String.eqb t TypeMapLocal).
Proof.
  intros He Ht. apply (changed_build_P (λ b, has sn chg (b_mapfiles b) _)).
  { intros b b' Hg. by apply has_grows, g_mapfiles. }
  intros b. eapply has_grows; [apply g_mapfiles, compileSection_grows|].
  eapply has_weaken; [apply chg_sub|].
  eapply (foldl_reach (λ b, has sn reasons (b_mapfiles b) _)); [by apply elem_of_sorted_items|..].
  - intros a. destruct Ht as [-> | ->]; cbn; apply insert_default_has, add_mapfile_adds.
  - intros a [k w] _. case_match; [done|]. apply has_grows, insert_default_grows with sn reasons.
    apply add_mapfile_adds.
Qed.

Lemma changed_ldap key v :
  sec_Ldap sec !! key = Some v → v ≠ "" → has sn chg (b_ldap (build i)) key.
Proof.
  intros He Hv. apply changed_build; [apply g_ldap|]. intros b.
  eapply (compile_has b_ldap _ (compileLdap sn sec reasons _)); [apply g_ldap|..].
  - eapply (foldl_reach (λ b, has sn reasons (b_ldap b) key));
      [by apply elem_of_sorted_items|..].
    + intros a. cbn. destruct (String.eqb_spec v ""); [done|]. eapply upsert_has. solve_adds.
    + intros a [k w] _. cbn. case_match; [done|]. apply has_grows. eapply upsert_grows. solve_adds.
  - unfold compileSection. cbn zeta.
    etrans; [apply compileConditionals_grows|apply compileRestarts_grows].
Qed.

(** The restarts go to the plan, or are deferred when the section was asked for. *)
Lemma compileSectionRestarts_has rs svc v a m :
  sec_Restarts sec !! svc = Some v → restartAction i (ToLower svc) = Some a →
  has sn rs (compileSectionRestarts i sn sec rs m) (ToLower svc).
Proof.
  intros Hv Ha. unfold compileSectionRestarts.
  eapply (foldl_reach (λ m, has sn rs m (ToLower svc))); [apply elem_of_sorted_keys; by exists v|..].
  - intros m'. cbv zeta. rewrite Ha. eapply upsert_has. apply addRestart_adds.
  - intros m' s _. cbv zeta. destruct (restartAction i (ToLower s)); [|done].
    apply has_grows. eapply upsert_grows. apply addRestart_adds.
Qed.

Definition asked : bool := bool_decide (sn ∈ forced i) || bool_decide (sn ∈ requested i).

Lemma not_asked : negb asked = bool_decide (sn ∉ forced i) && bool_decide (sn ∉ requested i).
Proof. unfold asked. by rewrite negb_orb, <- !bool_decide_not. Qed.

Lemma changed_restarts svc v a :
  sec_Restarts sec !! svc = Some v → restartAction i (ToLower svc) = Some a →
  has sn chg ((if asked then b_deferred else b_restarts) (build i)) (ToLower svc).
Proof.
  intros Hv Ha. apply changed_build; [destruct asked; [apply g_deferred|apply g_restarts]|].
  intros b. unfold compileSection. cbn zeta.
  match goal with |- context [compileRestarts i sn sec reasons ?x] => generalize x end.
  clear b. intros b. unfold compileRestarts. rewrite Hrun, <- not_asked.
  destruct asked; cbn [negb].
  - assert (varChanges reasons ≠ []) as Hne.
    { apply nonempty_iff in Hchg as [r Hr]. apply nonempty_iff. exists r.
      by apply varChanges_sectionReasons. }
    assert (chg ⊆ varChanges reasons ++ [section_reason ReasonDeferred sn]) as Hsub.
    { intros r Hr. apply elem_of_app. left. by apply varChanges_sectionReasons. }
    destruct (varChanges reasons) as [|r l] eqn:E; [done|]. cbn [b_deferred set_deferred].
    eapply has_weaken; [exact Hsub|]. by eapply compileSectionRestarts_has.
  - cbn [b_restarts set_restarts]. eapply has_weaken; [apply chg_sub|].
    by eapply compileSectionRestarts_has.
Qed.

Lemma changed_proxygen :
  sec_Proxygen sec = true →
  ∃ g, b_proxygen (build i) = Some g ∧ sn ∈ pg_Sections g ∧ chg ⊆ pg_Reasons g.
Proof.
  intros Hpg. apply (changed_build_P (λ b, ∃ g, b_proxygen b = Some g ∧
    sn ∈ pg_Sections g ∧ chg ⊆ pg_Reasons g)).
  - intros b b' Hg (g & Hb & Hs & Hr). apply g_proxygen in Hg.
    destruct (Hg g Hb) as (g' & -> & Hs' & Hr'). exists g'. split_and!; [done|auto|by etrans].
  - intros b. unfold compileSection. cbn zeta.
    match goal with |- context [compileProxygen sn sec reasons ?x] => generalize x end.
    clear b. intros b. eassert (builder_grows (compileProxygen sn sec reasons b) _) as Hg.
    { etrans; [apply compileLdap_grows|].
      etrans; [apply compileConditionals_grows|apply compileRestarts_grows]. }
    apply g_proxygen in Hg. unfold compileProxygen in Hg at 1. rewrite Hpg in Hg.
    destruct (Hg _ eq_refl) as (g & Hgp & Hs & Hr). exists g. split; [exact Hgp|].
    split; [apply Hs, elem_of_append_unique; by right|].
    intros r Hin. apply Hr, elem_of_append_uniques. right. by apply chg_sub.
Qed.
End change.

(** A required lookup with a new value is a reason of the section. *)
Lemma diffSection_changed i sn sec key t :
  sec_RequiredVars sec !! key = Some t →
  default "" (Observed (Prev i) t (lookupKey key)) ≠ default "" (Observed (Cur i) t (lookupKey key)) →
  diffSection i sn sec ≠ [].
Proof.
  intros Hv Hdiff. assert (∃ r, r ∈ diffVar i sn (key, t)) as [r Hr].
  { unfold diffVar. pose proof (proj2 (String.eqb_neq _ _) Hdiff) as Hneq.
    destruct (String.eqb_spec (default "" (Observed (Cur i) t (lookupKey key))) "") as [E|E].
    - rewrite E in Hneq. rewrite Hneq. eexists. by left.
    - rewrite Hneq. eexists. by left. }
  apply nonempty_iff. exists r. apply list_elem_of_bind. exists (key, t).
  by rewrite elem_of_sorted_items.
Qed.



(** ** The guard *)

(** [Compute] fails exactly when more than one service is tracked and none of the
    tracked ones is enabled. *)
Theorem Compute_guard i :
  Compute i = inl ErrAllServicesDisabled ↔
  (1 < size (Tracked i))%nat ∧
  ∀ svc, is_Some (Tracked i !! svc) → ServiceEnabled (Cur i) svc = false.
Proof.
  unfold Compute, guardAllDisabled. destruct (Nat.leb_spec (size (Tracked i)) 1) as [Hle|Hgt].
  { split; [done|]. intros [? _]. lia. }
  destruct (existsb _ _) eqn:E.
  - split; [done|]. intros [_ H]. apply existsb_exists in E as (svc & Hin & Hen).
    rewrite H in Hen; [done|]. by apply elem_of_sorted_keys, list_elem_of_In.
  - split; [|done]. intros _. split; [done|]. intros svc Hs%elem_of_sorted_keys%list_elem_of_In.
    destruct (ServiceEnabled (Cur i) svc) eqn:En; [|done].
    rewrite <- E. symmetry. apply existsb_exists. eauto.
Qed.

(** ** An unchanged configuration plans nothing *)
Record quiet (b : builder) : Prop := {
  q_sections : b_sections b = []; q_mapfiles : b_mapfiles b = ∅; q_rewrites : b_rewrites b = ∅;
  q_postconf : b_postconf b = ∅; q_postconfd : b_postconfd b = ∅; q_ldap : b_ldap b = ∅;
  q_proxygen : b_proxygen b = None; q_restarts : b_restarts b = ∅; q_deferred : b_deferred b = ∅ }.

Lemma healMapfiles_quiet sn sec c b : quiet b → quiet (healMapfiles sn sec c b).
Proof.
  intros Hb. unfold healMapfiles. destruct c; cbn [negb]; [|done]. apply (foldl_inv quiet); [done|].
  intros a [k t] _ Ha. case_match; [done|]. by destruct Ha.
Qed.

Lemma processSection_quiet i b sn sec :
  planned i sn sec = false → quiet b → quiet (processSection i b (sn, sec)).
Proof.
  intros Hp Hb. unfold processSection, planned, considered in *.
  destruct (inScope i sn), (SectionEnabled _ _); simpl in *; try done.
  destruct (sectionReasons _ _ _); [by apply healMapfiles_quiet|done].
Qed.

Lemma diffSection_nil i sn sec :
  (∀ key t, sec_RequiredVars sec !! key = Some t →
     default "" (Observed (Prev i) t (lookupKey key)) = default "" (Observed (Cur i) t (lookupKey key))) →
  diffSection i sn sec = [].
Proof.
  intros Heq. destruct (diffSection i sn sec) as [|r l] eqn:E; [done|].
  assert (r ∈ diffSection i sn sec) as Hr by (rewrite E; by left).
  unfold diffSection in Hr. apply list_elem_of_bind in Hr as ([key t] & Hr & Hin%elem_of_sorted_items).
  apply Heq in Hin. unfold diffVar in Hr. rewrite Hin, String.eqb_refl in Hr.
  destruct (String.eqb _ "") in Hr; by apply not_elem_of_nil in Hr.
Qed.

Definition unchanged (i : Input) : Prop :=
  FirstRun i = false ∧ AssumeChanged i = false ∧ Forced i = [] ∧ Requested i = [] ∧
  In_Carry i = empty_carry ∧ In_Host i = None ∧
  (∀ conf sn sec key t, Conf i = Some conf → mta_Sections conf !! sn = Some sec →
     sec_RequiredVars sec !! key = Some t →
     default "" (Observed (Prev i) t (lookupKey key)) =
     default "" (Observed (Cur i) t (lookupKey key))) ∧
  (∀ svc, is_Some (Tracked i !! svc) ↔ ServiceEnabled (Cur i) svc = true).

Lemma processSections_quiet i : unchanged i → quiet (processSections i (newBuilder i)).
Proof.
  intros (Hf & Ha & Hfo & Hre & _ & _ & Hobs & _). unfold processSections.
  destruct (Conf i) as [conf|] eqn:Hc; [|done]. apply (foldl_inv quiet); [done|].
  intros b [sn sec] Hin%elem_of_sorted_items Hb. apply processSection_quiet; [|done].
  unfold planned, sectionReasons, sectionChanges, forced, requested, toSet.
  rewrite Hf, Ha, Hfo, Hre, (diffSection_nil i sn sec) by eauto. cbn [list_to_set].
  destruct (considered i sn), (compared i sn); simpl; done.
Qed.

Lemma unchanged_toggles i :
  (∀ svc, is_Some (Tracked i !! svc) ↔ ServiceEnabled (Cur i) svc = true) →
  (serviceToggles i (Tracked i)).1 = ∅.
Proof.
  intros Hsv. apply map_eq. intros svc. rewrite serviceToggles_lookup, lookup_empty.
  specialize (Hsv svc). destruct (Tracked i !! svc) eqn:E, (ServiceEnabled (Cur i) svc); simpl;
    try done; destruct Hsv as [H1 H2].
  - by discriminate H1.
  - by destruct (H2 eq_refl).
Qed.


Lemma processSections_tracked i b : b_tracked (processSections i b) = b_tracked b.
Proof. by destruct (processSections_frame i b). Qed.

Lemma toggled_empty m : toggled ∅ m = m.
Proof. unfold toggled. by rewrite sorted_items_empty. Qed.

Lemma build_restarts i :
  b_restarts (build i) = carryItems (c_Restarts (In_Carry i))
    (toggled (serviceToggles i (Tracked i)).1 (b_restarts (processSections i (newBuilder i)))).
Proof.
  unfold build, mergeCarry. cbn. by rewrite trackServices_restarts, processSections_tracked.
Qed.

Lemma build_tracked i : b_tracked (build i) = (serviceToggles i (Tracked i)).2.
Proof.
  unfold build, mergeCarry. cbn. by rewrite trackServices_tracked, processSections_tracked.
Qed.

Lemma collectSorted_empty {T} `{PlanEntry T} : collectSorted (∅ : gmap string T) = [].
Proof. unfold collectSorted. by rewrite map_to_list_empty. Qed.

(** C24: a cycle over an unchanged configuration, with no request, nothing carried over
    and the tracked services the enabled ones, plans no section, no effect and
    no deferred restart, and keeps the tracking map. *)
Theorem Compute_idle i p :
  Compute i = inr p → unchanged i →
  Plan_IsEmpty p = true ∧ p_Sections p = [] ∧ p_DeferredRestarts p = [] ∧ p_Tracked p = Tracked i.
Proof.
  intros Hc Hu. pose proof (processSections_quiet i Hu) as Hq.
  destruct Hu as (Hf & _ & _ & _ & Hcarry & Hh & _ & Hsv).
  apply (Compute_no_host _ _ Hc) in Hh as ->.
  pose proof (build_restarts i) as Hr. pose proof (build_tracked i) as Htr.
  rewrite (unchanged_toggles i Hsv), toggled_empty, Hcarry in Hr.
  unfold Plan_IsEmpty, finish. cbn [p_Mapfiles p_Rewrites p_Postconf p_Postconfd p_Ldap p_Proxygen
    p_Restarts p_Sections p_DeferredRestarts p_Tracked]. rewrite Hr, Htr.
  unfold build, mergeCarry, trackServices. rewrite Hcarry.
  destruct (serviceToggles i (b_tracked _)) as [t tr]. cbn. destruct Hq.
  rewrite q_sections0, q_mapfiles0, q_rewrites0, q_postconf0, q_postconfd0, q_ldap0, q_proxygen0,
    q_restarts0, q_deferred0, !collectSorted_empty. split_and!; try done.
  apply map_eq. intros svc. rewrite serviceToggles_tracked, Hf, andb_false_r.
  by destruct (Tracked i !! svc).
Qed.

Lemma Compute_idle_witness :
  ∃ p, Compute (cycle base base [] empty_carry) = inr p ∧ Plan_IsEmpty p = true.
Proof.
  eexists. split; [reflexivity|].
  refine (proj1 (Compute_idle (cycle base base [] empty_carry) _ _ _)); [reflexivity|].
  repeat split; try done.
  - intros [v Hv]. destruct (decide (svc ∈ allServices)) as [Hin|Hin].
    + repeat (apply elem_of_cons in Hin as [->|Hin]; [reflexivity|]).
      by apply not_elem_of_nil in Hin.
    + exfalso. apply Hin. apply elem_of_list_to_map_2 in Hv.
      apply list_elem_of_fmap in Hv as (s & [= -> _] & Hs). done.
  - intros Hen%elem_of_ServiceNames. vm_compute in Hen.
    repeat (apply elem_of_cons in Hen as [->|Hen]; [by eexists|]).
    by apply not_elem_of_nil in Hen.
Defined.

(** ** Unfinished work is retried *)
Definition retried {T} `{PlanEntry T} (l : list T) (it : T) : Prop :=
  ∃ e, e ∈ l ∧ entry_key e = entry_key it ∧ retry ∈ entry_reasons e.

Lemma has_retried {T} `{PlanEntry T} Q (m : gmap string T) it :
  map_Forall (good Q) m → has "" [retry] m (entry_key it) → retried (collectSorted m) it.
Proof.
  intros Hm (e & He & _ & Hr). exists e. split; [apply elem_of_collectSorted; eauto|].
  split; [by apply Hm in He as []|]. apply Hr. by left.
Qed.

Lemma carry_retried i p :
  Compute i = inr p → In_Host i = None →
  (∀ it, it ∈ c_Rewrites (In_Carry i) → retried (p_Rewrites p) it) ∧
  (∀ it, it ∈ c_Postconf (In_Carry i) → retried (p_Postconf p) it) ∧
  (∀ it, it ∈ c_Postconfd (In_Carry i) → retried (p_Postconfd p) it) ∧
  (∀ it, it ∈ c_Ldap (In_Carry i) → retried (p_Ldap p) it) ∧
  (c_Proxygen (In_Carry i) ≠ None → ∃ g, p_Proxygen p = Some g ∧ retry ∈ pg_Reasons g) ∧
  (∀ it, it ∈ c_Restarts (In_Carry i) → retried (p_Restarts p) it).
Proof.
  intros Hc Hh. apply (Compute_no_host _ _ Hc) in Hh as ->. pose proof (build_good i) as [].
  cbn [finish p_Rewrites p_Postconf p_Postconfd p_Ldap p_Proxygen p_Restarts]. split_and!.
  - intros it Hit. eapply has_retried; [exact ok_rewrites|]. by apply carryItems_has.
  - intros it Hit. eapply has_retried; [exact ok_postconf|]. by apply carryItems_has.
  - intros it Hit. eapply has_retried; [exact ok_postconfd|]. by apply carryItems_has.
  - intros it Hit. eapply has_retried; [exact ok_ldap|]. by apply carryItems_has.
  - intros Hp. unfold build, mergeCarry. cbn. unfold carryProxygen.
    destruct (c_Proxygen (In_Carry i)) as [c|]; [|done]. eexists. split; [done|]. cbn.
    apply elem_of_append_unique. by right.
  - intros it Hit. rewrite build_restarts in *.
    edestruct (carryItems_has (c_Restarts (In_Carry i)) (toggled (serviceToggles i (Tracked i)).1
      (b_restarts (processSections i (newBuilder i)))) it Hit) as (e & He & _ & Hr).
    exists (classified i e). split; [apply elem_of_classified; eauto|].
    split; [by apply ok_restarts in He as []|]. apply Hr. by left.
Qed.

(** Every action the previous execution left unfinished is in the plan again,
    marked as a retry, until an execution completes it. *)
Theorem Compute_retry i p :
  Compute i = inr p → In_Host i = None →
  (∀ it, it ∈ c_Rewrites (In_Carry i) → retried (p_Rewrites p) it) ∧
  (∀ it, it ∈ c_Postconf (In_Carry i) → retried (p_Postconf p) it) ∧
  (∀ it, it ∈ c_Postconfd (In_Carry i) → retried (p_Postconfd p) it) ∧
  (∀ it, it ∈ c_Ldap (In_Carry i) → retried (p_Ldap p) it) ∧
  (c_Proxygen (In_Carry i) ≠ None → ∃ g, p_Proxygen p = Some g ∧ retry ∈ pg_Reasons g) ∧
  (∀ it, it ∈ c_Restarts (In_Carry i) → retried (p_Restarts p) it).
Proof. apply carry_retried. Qed.

Definition failed_rewrite : Rewrite :=
  {| rw_Source := "conf/nginx.conf.in"; rw_Target := "conf/nginx.conf"; rw_Mode := "";
     rw_Sections := ["proxy"]; rw_Reasons := [section_reason ReasonForced "proxy"] |}.

Definition failed_carry : Carry :=
  {| c_Rewrites := [failed_rewrite]; c_Postconf := []; c_Postconfd := []; c_Ldap := [];
     c_Proxygen := None; c_Restarts := [] |}.

Lemma Compute_retry_witness :
  ∃ p, Compute (cycle base base [] failed_carry) = inr p ∧ retried (p_Rewrites p) failed_rewrite.
Proof.
  eexists. split; [reflexivity|].
  apply (proj1 (Compute_retry (cycle base base [] failed_carry) _ eq_refl eq_refl)). by left.
Defined.

(** ** Services that were enabled or disabled *)

(** A tracked service that is disabled is in the restarts of the plan with the
    reason that it was disabled, an enabled one that is not tracked with the
    reason that it was enabled (after the first run), and the tracking map gains
    entries on the first run only. *)
Theorem Compute_status_changes i p :
  Compute i = inr p → In_Host i = None →
  (∀ svc, is_Some (Tracked i !! svc) → ServiceEnabled (Cur i) svc = false →
     ∃ r, r ∈ p_Restarts p ∧ r_Service r = svc ∧ service_reason ReasonServiceDisabled svc ∈ r_Reasons r) ∧
  (FirstRun i = false →
     ∀ svc, Tracked i !! svc = None → ServiceEnabled (Cur i) svc = true →
     ∃ r, r ∈ p_Restarts p ∧ r_Service r = svc ∧ service_reason ReasonServiceEnabled svc ∈ r_Reasons r) ∧
  (∀ svc, p_Tracked p !! svc =
     match Tracked i !! svc with
     | Some st => Some st
     | None => if ServiceEnabled (Cur i) svc && FirstRun i
               then Some (trackedStatus (IsTrueValue (ServiceValue (Cur i) svc))) else None
     end).
Proof.
  intros Hc Hh. apply (Compute_no_host _ _ Hc) in Hh as ->. pose proof (build_good i) as [].
  cbn [finish p_Restarts p_Tracked]. rewrite build_restarts in *. rewrite build_tracked.
  assert (∀ svc st, (serviceToggles i (Tracked i)).1 !! svc = Some st →
    ∃ r, r ∈ classified i <$> collectSorted (carryItems (c_Restarts (In_Carry i))
        (toggled (serviceToggles i (Tracked i)).1 (b_restarts (processSections i (newBuilder i))))) ∧
      r_Service r = svc ∧ r_Reasons st ⊆ r_Reasons r) as Htog.
  { intros svc st Hst.
    apply (toggled_has _ (b_restarts (processSections i (newBuilder i)))) in Hst.
    eapply has_grows in Hst as (r & Hr & _ & Hsub); [|apply carryItems_grows].
    exists (classified i r). split; [apply elem_of_classified; eauto|].
    split; [by apply ok_restarts in Hr as []|done]. }
  split_and!.
  - intros svc [st Hst] Hen. destruct (Htog svc (stop_toggle svc)) as (r & ? & ? & Hsub).
    { by rewrite serviceToggles_lookup, Hst, Hen. }
    exists r. split_and!; [done..|]. apply Hsub. by left.
  - intros Hf svc Hst Hen. destruct (Htog svc (start_toggle svc)) as (r & ? & ? & Hsub).
    { by rewrite serviceToggles_lookup, Hst, Hen, Hf. }
    exists r. split_and!; [done..|]. apply Hsub. by left.
  - intros svc. apply serviceToggles_tracked.
Qed.

Definition antispam_disabled : Snapshot :=
  snap ["mta"; "proxy"; "antivirus"; "opendkim"]
    [("zimbraMtaRestriction", "a"); ("zimbraAmavisX", "1"); ("zimbraProxyX", "p")].

Lemma Compute_status_changes_witness :
  ∃ p, Compute (cycle base antispam_disabled [] empty_carry) = inr p ∧
    ∃ r, r ∈ p_Restarts p ∧ r_Service r = "antispam" ∧
      service_reason ReasonServiceDisabled "antispam" ∈ r_Reasons r.
Proof.
  eexists. split; [reflexivity|].
  apply (proj1 (Compute_status_changes (cycle base antispam_disabled [] empty_carry) _ eq_refl eq_refl)).
  - by eexists.
  - reflexivity.
Defined.

(** ** The first run *)
(** On the first run every section in scope whose service is enabled is processed,
    nothing is deferred, and the only restarts (none being carried) are the
    stops of services that were tracked and are disabled. *)
Theorem Compute_first_run i p :
  Compute i = inr p → In_Host i = None → FirstRun i = true → c_Restarts (In_Carry i) = [] →
  (∀ conf sn sec, Conf i = Some conf → mta_Sections conf !! sn = Some sec →
     considered i sn = true → sn ∈ s_Name <$> p_Sections p) ∧
  p_DeferredRestarts p = [] ∧
  (∀ r, r ∈ p_Restarts p → r = stop_toggle (r_Service r) ∧
     is_Some (Tracked i !! r_Service r) ∧ ServiceEnabled (Cur i) (r_Service r) = false).
Proof.
  intros Hc Hh Hf Hca. apply (Compute_no_host _ _ Hc) in Hh as ->.
  destruct (processSections_first_run i (newBuilder i) Hf) as [Hr Hd].
  change (b_restarts (newBuilder i)) with (∅ : gmap string Restart) in Hr.
  change (b_deferred (newBuilder i)) with (∅ : gmap string Restart) in Hd.
  cbn [finish p_Sections p_DeferredRestarts p_Restarts]. split_and!.
  - intros conf sn sec HC HS Hcons. apply list_elem_of_fmap. eexists.
    split; [|apply elem_of_build_sections; exists conf, sn, sec; split_and!; try done]; [done|].
    unfold planned, sectionReasons. rewrite Hcons, Hf. simpl.
    by repeat case_match.
  - replace (b_deferred (build i)) with (∅ : gmap string Restart); [by rewrite collectSorted_empty|].
    rewrite <- Hd. unfold build, mergeCarry, trackServices. by destruct (serviceToggles i _).
  - intros r (k & r0 & H0 & ->)%elem_of_classified. rewrite build_restarts, Hr, Hca in H0.
    destruct ((serviceToggles i (Tracked i)).1 !! k) as [st|] eqn:Est.
    2:{ unfold carryItems in H0. simpl in H0.
        rewrite (toggled_none _ ∅ k Est) in H0; [done|by rewrite lookup_empty]. }
    assert (r0 = stop_toggle k ∧ is_Some (Tracked i !! k) ∧ ServiceEnabled (Cur i) k = false)
      as (-> & ? & ?); [|split_and!; [unfold classified, Classify; by destruct (Systemd i)|done..]].
    assert (r0 = st) as ->.
    { unfold carryItems in H0. simpl in H0. by apply (toggled_from_empty _ _ _ _ Est) in H0. }
    rewrite serviceToggles_lookup, Hf in Est.
    destruct (Tracked i !! k), (ServiceEnabled (Cur i) k); simplify_eq/=; eauto.
Qed.

Definition first_cycle : Input :=
  {| Prev := None; Cur := Some antispam_disabled; Conf := Some mtaConf; Forced := [];
     Requested := []; FirstRun := true; Tracked := strs [("antispam", "running")];
     In_Carry := empty_carry; Scope := []; AssumeChanged := false; In_Host := None;
     Systemd := false |}.

Lemma Compute_first_run_witness :
  ∃ p, Compute first_cycle = inr p ∧ p_DeferredRestarts p = [] ∧ "proxy" ∈ s_Name <$> p_Sections p.
Proof.
  eexists. split; [reflexivity|].
  pose proof (Compute_first_run first_cycle _ eq_refl eq_refl eq_refl eq_refl) as (Hs & Hd & _).
  split; [exact Hd|]. apply (Hs mtaConf "proxy" proxy_section); reflexivity.
Defined.

(** ** Comparing with the host *)
Definition with_host (h : option Host) (i : Input) : Input :=
  {| Prev := Prev i; Cur := Cur i; Conf := Conf i; Forced := Forced i; Requested := Requested i;
     FirstRun := FirstRun i; Tracked := Tracked i; In_Carry := In_Carry i; Scope := Scope i;
     AssumeChanged := AssumeChanged i; In_Host := h; Systemd := Systemd i |}.

Lemma build_with_host h i : build (with_host h i) = build i.
Proof. by destruct i. Qed.

(** The entries of [l] whose target drifted, each with the drift as its reason. *)
Definition drifted_only {T} `{PlanEntry T} (drifts : gmap string string) (l l' : list T) : Prop :=
  ∀ e, e ∈ l' ↔ ∃ e0, e0 ∈ l ∧ drift_of drifts (entry_key e0) ≠ "" ∧
    e = with_reasons [drift_reason (drift_of drifts (entry_key e0))] e0.

Lemma prune_drifted {T} `{PlanEntry T} Q drifts (m : gmap string T) :
  map_Forall (good Q) m → drifted_only drifts (collectSorted m) (collectSorted (prune drifts m)).
Proof.
  intros Hm e. setoid_rewrite elem_of_collectSorted. unfold prune.
  setoid_rewrite map_lookup_imap. split.
  - intros (k & He). destruct (m !! k) as [e0|] eqn:E; [|done]. simpl in He.
    unfold keep in He. destruct (String.eqb_spec (drift_of drifts k) ""); [done|].
    injection He as <-. exists e0. apply Hm in E as Hk. destruct Hk as [-> _]. eauto.
  - intros (e0 & (k & E) & Hd & ->). exists k. apply Hm in E as Hk. destruct Hk as [Hk _].
    rewrite Hk in *. rewrite E. simpl. unfold keep. by apply String.eqb_neq in Hd as ->.
Qed.

Lemma keep_is_Some d : is_Some (keep d) ↔ d ≠ "".
Proof. unfold keep. destruct (String.eqb_spec d ""); split; try done; by intros []. Qed.

Lemma elem_of_touched_by {K T} `{Countable K} `{PlanEntry T} (drift : K → string) (m : gmap K T) s :
  s ∈ touched_by drift m ↔ ∃ k e, m !! k = Some e ∧ drift k ≠ "" ∧ s ∈ entry_sections e.
Proof.
  unfold touched_by.
  apply (map_fold_weak_ind (λ acc m, s ∈ acc ↔ ∃ k e, m !! k = Some e ∧ drift k ≠ "" ∧ s ∈ entry_sections e)).
  - split; [by intros ?%not_elem_of_empty|]. intros (k & e & Hk & _). by rewrite lookup_empty in Hk.
  - intros k e m' acc Hk IH. pose proof (keep_is_Some (drift k)) as Hkeep.
    setoid_rewrite lookup_insert. split.
    + destruct (keep (drift k)) as [rs|].
      * intros [Hin%elem_of_list_to_set|(k' & e' & ? & ? & ?)%IH]%elem_of_union.
        -- exists k, e. rewrite decide_True by done. split_and!; [done| |done]. by apply Hkeep.
        -- exists k', e'. rewrite decide_False by congruence. done.
      * intros (k' & e' & ? & ? & ?)%IH. exists k', e'. by rewrite decide_False by congruence.
    + intros (k' & e' & Hk' & Hd & Hs). destruct (decide (k = k')) as [<-|Hne].
      * injection Hk' as <-. apply Hkeep in Hd as [rs ->].
        apply elem_of_union. left. by apply elem_of_list_to_set.
      * assert (s ∈ acc) by (apply IH; eauto). destruct (keep (drift k)); [|done].
        apply elem_of_union. by right.
Qed.

Lemma touched_by_prune {T} `{PlanEntry T} drifts (m : gmap string T) s :
  s ∈ touched_by (drift_of drifts) m ↔ ∃ e, e ∈ collectSorted (prune drifts m) ∧ s ∈ entry_sections e.
Proof.
  rewrite elem_of_touched_by. setoid_rewrite elem_of_collectSorted. unfold prune.
  setoid_rewrite map_lookup_imap. split.
  - intros (k & e & Hk & [rs Hd]%keep_is_Some & Hs). exists (with_reasons rs e).
    rewrite entry_sections_with. split; [|done]. exists k. rewrite Hk. simpl. by rewrite Hd.
  - intros (e & (k & Hk) & Hs). destruct (m !! k) as [e0|] eqn:E; [|done]. simpl in Hk.
    destruct (keep (drift_of drifts k)) as [rs|] eqn:Ek; [|done]. injection Hk as <-.
    rewrite entry_sections_with in Hs. exists k, e0. split_and!; [done| |done].
    apply keep_is_Some. by rewrite Ek.
Qed.

Lemma pruneRestart_Some touched r :
  is_Some (pruneRestart touched r) ↔ ∃ s, s ∈ r_Sections r ∧ s ∈ touched.
Proof.
  unfold pruneRestart. destruct (existsb _ _) eqn:Ex.
  - split; [|by eexists]. intros _. apply existsb_exists in Ex as (s & Hs & Ht%bool_decide_eq_true).
    exists s. by rewrite list_elem_of_In.
  - split; [by intros []|]. intros (s & Hs & Ht). exfalso. apply Bool.not_true_iff_false in Ex.
    apply Ex, existsb_exists. exists s. rewrite <- list_elem_of_In.
    split; [done|by apply bool_decide_eq_true].
Qed.

Lemma pruneRestart_service touched r r' : pruneRestart touched r = Some r' → r_Service r' = r_Service r.
Proof. unfold pruneRestart. case_match; [|done]. by intros [= <-]. Qed.

(** The sections behind a non-LDAP action the plan keeps, or behind a mapped file
    that drifted. *)
Definition drift_section (heal : gmap string Mapfile) (h : Host) (p : Plan) (s : string) : Prop :=
  (∃ e, e ∈ p_Rewrites p ∧ s ∈ rw_Sections e) ∨ (∃ e, e ∈ p_Postconf p ∧ s ∈ pc_Sections e) ∨
  (∃ e, e ∈ p_Postconfd p ∧ s ∈ pd_Sections e) ∨
  (∃ g, p_Proxygen p = Some g ∧ s ∈ pg_Sections g) ∨
  (∃ m, m ∈ p_Mapfiles p ∧ s ∈ mf_Sections m) ∨
  (∃ k m, heal !! k = Some m ∧ drift_of (h_Mapfiles h) k ≠ "" ∧ s ∈ mf_Sections m).

Lemma touched_mapfiles (d : string * bool → string) (ms : gmap (string * bool) Mapfile) s :
  s ∈ touched_by d ms ↔
  ∃ m, m ∈ collectMapfiles (map_imap (λ mk m, (λ rs, with_reasons rs m) <$> keep (d mk)) ms) ∧
       s ∈ mf_Sections m.
Proof.
  rewrite elem_of_touched_by. unfold collectMapfiles. setoid_rewrite merge_sort_Permutation.
  setoid_rewrite list_elem_of_fmap. split.
  - intros (k & e & Hk & [rs Hd]%keep_is_Some & Hs). exists (with_reasons rs e).
    split; [|done]. exists (k, with_reasons rs e). split; [done|].
    apply elem_of_map_to_list. rewrite map_lookup_imap, Hk. simpl. by rewrite Hd.
  - intros (e & ([k e1] & -> & Hk%elem_of_map_to_list) & Hs). rewrite map_lookup_imap in Hk.
    destruct (ms !! k) as [e0|] eqn:E; [|done]. simpl in Hk.
    destruct (keep (d k)) as [rs|] eqn:Ek; [|done]. injection Hk as <-.
    exists k, e0. split_and!; [done| |done]. apply keep_is_Some. by rewrite Ek.
Qed.

Lemma touched_proxygen h (o : option Proxygen) s :
  s ∈ (match o, keep (h_Proxygen h) with
       | Some p, Some _ => list_to_set (pg_Sections p) | _, _ => ∅ end : gset string) ↔
  ∃ g, pruneProxygen h o = Some g ∧ s ∈ pg_Sections g.
Proof.
  unfold pruneProxygen. destruct o as [g|]; simpl.
  - destruct (keep (h_Proxygen h)); simpl; [rewrite elem_of_list_to_set|]; set_solver.
  - set_solver.
Qed.

(** What [pruneToHost] leaves in each field of the builder, and the sections it
    counts as touched. *)
Lemma pruneToHost_fields i h b :
  In_Host i = Some h →
  let b' := pruneToHost i b in
  b_rewrites b' = prune (h_Rewrites h) (b_rewrites b) ∧
  b_postconf b' = prune (h_Postconf h) (b_postconf b) ∧
  b_postconfd b' = prune (h_Postconfd h) (b_postconfd b) ∧
  b_ldap b' = prune (h_Ldap h) (b_ldap b) ∧
  b_proxygen b' = pruneProxygen h (b_proxygen b) ∧
  b_deferred b' = ∅ ∧
  ∃ touched,
    b_sections b' = filter (λ s, s_Name s ∈ touched) (b_sections b) ∧
    b_restarts b' = omap (pruneRestart touched) (b_restarts b) ∧
    ∀ s, s ∈ touched ↔ drift_section (b_heal b) h (finish i b') s.
Proof.
  intros E. cbn zeta. unfold pruneToHost. rewrite E.
  unfold pruneMapfiles, pruneFiles, pruneDirectives. cbn zeta.
  split_and!; [done..|]. eexists. split_and!; [done|done|]. intros s. unfold drift_section.
  cbn [finish p_Rewrites p_Postconf p_Postconfd p_Ldap p_Proxygen p_Mapfiles b_rewrites b_postconf
    b_postconfd b_ldap b_proxygen b_mapfiles set_restarts set_deferred set_sections set_ldap
    set_postconfd set_postconf set_proxygen set_rewrites set_mapfiles set_heal].
  rewrite !elem_of_union, (elem_of_touched_by (drift_of (h_Mapfiles h)) (b_heal b)),
    touched_mapfiles, !touched_by_prune, touched_proxygen.
  split; intros Hin; destruct_or! Hin; auto 7.
Qed.

Lemma pruneProxygen_Some h o : is_Some (pruneProxygen h o) ↔ is_Some o ∧ h_Proxygen h ≠ "".
Proof.
  unfold pruneProxygen, keep. destruct o; simpl; [|by split; intros []].
  destruct (String.eqb_spec (h_Proxygen h) ""); simpl; split; by intros [].
Qed.

(** The restarts [pruneRestart] keeps are those with a touched section. *)
Lemma elem_of_pruned_restarts i j touched (m : gmap string Restart) svc :
  svc ∈ r_Service <$> (classified i <$> collectSorted (omap (pruneRestart touched) m)) ↔
  ∃ r0 s, r0 ∈ classified j <$> collectSorted m ∧ r_Service r0 = svc ∧ s ∈ r_Sections r0 ∧ s ∈ touched.
Proof.
  rewrite list_elem_of_fmap. setoid_rewrite elem_of_classified. setoid_rewrite lookup_omap. split.
  - intros (? & -> & k & r & Hr & ->). destruct (m !! k) as [r0|] eqn:E; [|done].
    simpl in Hr. destruct (proj1 (pruneRestart_Some touched r0)) as (s & Hs & Ht); [by eexists|].
    exists (classified j r0), s. split_and!; [by eauto| |done..].
    by apply pruneRestart_service in Hr.
  - intros (? & s & (k & r0 & E & ->) & <- & Hs & Ht).
    destruct (proj2 (pruneRestart_Some touched r0)) as [r Hr]; [eauto|].
    exists (classified i r). split; [symmetry; by apply pruneRestart_service in Hr|].
    exists k, r. by rewrite E.
Qed.

(** What the comparison with a host keeps of a plan. *)
Lemma Compute_host_spec i h p p0 :
  Compute (with_host (Some h) i) = inr p → Compute (with_host None i) = inr p0 →
  drifted_only (h_Rewrites h) (p_Rewrites p0) (p_Rewrites p) ∧
  drifted_only (h_Postconf h) (p_Postconf p0) (p_Postconf p) ∧
  drifted_only (h_Postconfd h) (p_Postconfd p0) (p_Postconfd p) ∧
  drifted_only (h_Ldap h) (p_Ldap p0) (p_Ldap p) ∧
  (is_Some (p_Proxygen p) ↔ is_Some (p_Proxygen p0) ∧ h_Proxygen h ≠ "") ∧
  p_DeferredRestarts p = [] ∧
  (∀ sec, sec ∈ p_Sections p ↔ sec ∈ p_Sections p0 ∧ drift_section (b_heal (build i)) h p (s_Name sec)) ∧
  (∀ svc, svc ∈ r_Service <$> p_Restarts p ↔
     ∃ r0 s, r0 ∈ p_Restarts p0 ∧ r_Service r0 = svc ∧ s ∈ r_Sections r0 ∧
       drift_section (b_heal (build i)) h p s).
Proof.
  intros ->%Compute_inr ->%Compute_inr. rewrite !build_with_host.
  destruct (pruneToHost_fields (with_host (Some h) i) h (build i) eq_refl)
    as (Hrw & Hpc & Hpd & Hld & Hpg & Hdf & touched & Hsec & Hrs & Htouched).
  pose proof (build_good i) as []. change (pruneToHost (with_host None i) (build i)) with (build i).
  set (b' := pruneToHost (with_host (Some h) i) (build i)) in *. clearbody b'.
  split_and!; cbn [finish p_Rewrites p_Postconf p_Postconfd p_Ldap p_Proxygen p_DeferredRestarts
    p_Sections p_Restarts]; rewrite ?Hrw, ?Hpc, ?Hpd, ?Hld, ?Hpg, ?Hdf, ?Hsec, ?Hrs;
    try (by eapply prune_drifted).
  - apply pruneProxygen_Some.
  - by rewrite collectSorted_empty.
  - intros sec. rewrite list_elem_of_filter, Htouched. tauto.
  - intros svc. rewrite (elem_of_pruned_restarts _ (with_host None i)). by setoid_rewrite Htouched.
Qed.

(** Compared with a host, the plan keeps exactly the rewrites and directives whose
    target the host reports as drifted, each explained by that drift; nothing
    is deferred; a section is kept exactly when a kept non-LDAP action or a
    drifted mapped file is its own, and a restart exactly when one of its
    sections is such a section. *)
Theorem Compute_host i h p p0 :
  Compute (with_host (Some h) i) = inr p → Compute (with_host None i) = inr p0 →
  drifted_only (h_Rewrites h) (p_Rewrites p0) (p_Rewrites p) ∧
  drifted_only (h_Postconf h) (p_Postconf p0) (p_Postconf p) ∧
  drifted_only (h_Postconfd h) (p_Postconfd p0) (p_Postconfd p) ∧
  drifted_only (h_Ldap h) (p_Ldap p0) (p_Ldap p) ∧
  (is_Some (p_Proxygen p) ↔ is_Some (p_Proxygen p0) ∧ h_Proxygen h ≠ "") ∧
  p_DeferredRestarts p = [] ∧
  (∀ sec, sec ∈ p_Sections p ↔ sec ∈ p_Sections p0 ∧ drift_section (b_heal (build i)) h p (s_Name sec)) ∧
  (∀ svc, svc ∈ r_Service <$> p_Restarts p ↔
     ∃ r0 s, r0 ∈ p_Restarts p0 ∧ r_Service r0 = svc ∧ s ∈ r_Sections r0 ∧
       drift_section (b_heal (build i)) h p s).
Proof. apply Compute_host_spec. Qed.

(** A host on which only the rendered [main.cf] differs. *)
Definition drifted_host : Host :=
  {| h_Rewrites := strs [("conf/main.cf", "content differs")]; h_Mapfiles := ∅; h_Proxygen := "";
     h_Postconf := ∅; h_Postconfd := ∅; h_Ldap := ∅ |}.

Lemma Compute_host_witness :
  ∃ p, Compute (with_host (Some drifted_host) (cycle base mta_changed [] empty_carry)) = inr p ∧
    (is_Some (p_Proxygen p) → False) ∧ p_DeferredRestarts p = [] ∧
    drifted_only (h_Rewrites drifted_host)
      (from_option p_Rewrites [] (plan_of (cycle base mta_changed [] empty_carry))) (p_Rewrites p).
Proof.
  eexists. split; [reflexivity|].
  pose proof (Compute_host (cycle base mta_changed [] empty_carry) drifted_host _ _ eq_refl eq_refl)
    as (Hrw & _ & _ & _ & Hpg & Hdf & _).
  split; [|split; [exact Hdf|exact Hrw]]. intros Hg. by apply (proj1 Hpg) in Hg as [_ []].
Defined.
