(* ===== verification/PlanProps.v ===== *)
(** * PlanProps: reasons, classification and the merge of restarts

    A reason never leaks a secret and is bounded; [Classify] is idempotent;
    [MergeRestarts] is characterised against the concatenation of its inputs. *)
From S2P Require Import Prelude Redact Plan.

(** ** Reasons are safe to log *)
Lemma length_displayValue key val : (String.length (displayValue key val) ≤ maxReasonValue + 3)%nat.
Proof.
  unfold displayValue. destruct (Nat.ltb_spec maxReasonValue (String.length (ForLog key val))) as [H|H].
  - rewrite length_string_app. unfold ToValidUTF8. cbn [String.length].
    pose proof (length_to_valid_utf8 0 (take_string maxReasonValue (ForLog key val))).
    pose proof (length_take_string maxReasonValue (ForLog key val)). lia.
  - lia.
Qed.

Lemma displayValue_secret key v v' :
  IsSecretKey key = true → (v = "" ↔ v' = "") → displayValue key v = displayValue key v'.
Proof.
  intros Hs Hv. unfold displayValue, ForLog. rewrite Hs. simpl. rewrite !orb_false_r.
  destruct (String.eqb_spec v ""), (String.eqb_spec v' ""); naive_solver.
Qed.

(** The reason of a changed variable holds at most 123 bytes of each value, and for
    a secret key it depends on the values only through which of them are unset:
    two runs that differ in the secret give the same reason, hence the same text. *)
Theorem varChanged_safe section lookupType key old new old' new' :
  let r := varChanged section lookupType key old new in
  (String.length (rn_Old r) ≤ 123)%nat ∧ (String.length (rn_New r) ≤ 123)%nat ∧
  (IsSecretKey key = true → (old = "" ↔ old' = "") → (new = "" ↔ new' = "") →
   r = varChanged section lookupType key old' new' ∧
   reason_string r = reason_string (varChanged section lookupType key old' new')).
Proof.
  cbn zeta. split_and!; [apply length_displayValue..|]. intros Hs Ho Hn.
  assert (varChanged section lookupType key old new = varChanged section lookupType key old' new') as ->.
  { unfold varChanged. by rewrite (displayValue_secret key old old'), (displayValue_secret key new new'). }
  done.
Qed.

Lemma varChanged_safe_witness :
  varChanged "mta" "LOCAL" "ldap_amavis_password" "hunter2" "hunter3" =
  varChanged "mta" "LOCAL" "ldap_amavis_password" "swordfish" "xyzzy".
Proof.
  apply (varChanged_safe "mta" "LOCAL" "ldap_amavis_password" "hunter2" "hunter3" "swordfish" "xyzzy");
    [reflexivity|by split|by split].
Defined.

(** ** Classification *)
Lemma Classify_idem a svc sd : Classify (Classify a svc sd) svc sd = Classify a svc sd.
Proof. unfold Classify. by destruct sd, a, (HeavyService svc). Qed.

Lemma Classify_heavy a svc : HeavyService svc = true → Classify a svc true ≠ ActionRestart.
Proof. intros H. unfold Classify. rewrite H. by destruct a. Qed.

Lemma Classify_light a svc : HeavyService svc = false → Classify a svc true = a.
Proof. intros H. unfold Classify. rewrite H. by destruct a. Qed.

(** ** Merging restarts

    [of_service svc l] are the entries of [svc] in a list of restarts, and
    [entry_of svc l es] says that the merged list [l] has one entry for [svc]
    which stands for the entries [es]: the action of the last, the sections and
    the reasons of all. *)
Definition of_service (svc : string) (l : list Restart) : list Restart :=
  filter (λ r, r_Service r = svc) l.

Definition stands_for (es : list Restart) (r : Restart) : Prop :=
  (∃ e, last es = Some e ∧ r_Action r = r_Action e) ∧
  (∀ s, s ∈ r_Sections r ↔ ∃ e, e ∈ es ∧ s ∈ r_Sections e) ∧
  (∀ n, n ∈ r_Reasons r ↔ ∃ e, e ∈ es ∧ n ∈ r_Reasons e).

Definition merged_from (l all : list Restart) : Prop :=
  NoDup (r_Service <$> l) ∧
  (∀ svc, svc ∈ r_Service <$> l ↔ svc ∈ r_Service <$> all) ∧
  (∀ r, r ∈ l → stands_for (of_service (r_Service r) all) r).

Lemma mergeRestart_services l r svc :
  svc ∈ r_Service <$> mergeRestart l r ↔ svc ∈ r_Service <$> l ∨ svc = r_Service r.
Proof.
  induction l as [|have l IH]; simpl; [set_solver|].
  case_decide as E; simpl; [rewrite !elem_of_cons, E; tauto|].
  rewrite !elem_of_cons, IH. tauto.
Qed.

Lemma mergeRestart_NoDup l r : NoDup (r_Service <$> l) → NoDup (r_Service <$> mergeRestart l r).
Proof.
  induction l as [|have l IH]; simpl; [intros; apply NoDup_singleton|].
  intros [Hni Hnd]%NoDup_cons. case_decide as E; simpl; apply NoDup_cons; [done|].
  split; [|by apply IH]. rewrite mergeRestart_services. naive_solver.
Qed.

(** The entry of [mergeRestart l r]: an old one of another service, a new one, or
    an old one [r] was folded into. *)
Lemma elem_of_mergeRestart l r x :
  NoDup (r_Service <$> l) → x ∈ mergeRestart l r →
  (x ∈ l ∧ r_Service x ≠ r_Service r) ∨
  (x = r ∧ r_Service r ∉ r_Service <$> l) ∨
  (∃ have, have ∈ l ∧ r_Service have = r_Service r ∧ x = fold_into have r).
Proof.
  induction l as [|have l IH]; simpl; [set_solver|].
  intros [Hni Hnd]%NoDup_cons. case_decide as E; intros [->|Hx]%elem_of_cons.
  - right. right. exists have. set_solver.
  - left. split; [by right|]. intros Heq. apply Hni. rewrite E, <- Heq. by apply list_elem_of_fmap_2.
  - left. split; [by left|done].
  - destruct (IH Hnd Hx) as [[? ?]|[[-> ?]|(h & ? & ? & ->)]].
    + left. split; [by right|done].
    + right. left. split; [done|]. rewrite elem_of_cons. naive_solver.
    + right. right. exists h. split; [by right|done].
Qed.

Lemma of_service_snoc_ne svc l r : r_Service r ≠ svc → of_service svc (l ++ [r]) = of_service svc l.
Proof. intros H. unfold of_service. rewrite filter_app, filter_cons_False, app_nil_r; done. Qed.

Lemma of_service_snoc_eq svc l r : r_Service r = svc → of_service svc (l ++ [r]) = of_service svc l ++ [r].
Proof. intros H. unfold of_service. rewrite filter_app, filter_cons_True; done. Qed.

Lemma of_service_nil svc l : svc ∉ r_Service <$> l → of_service svc l = [].
Proof.
  intros H. unfold of_service. induction l as [|r l IH]; [done|].
  rewrite fmap_cons, elem_of_cons in H. rewrite filter_cons_False; naive_solver.
Qed.

Lemma fold_into_stands es have r : stands_for es have → stands_for (es ++ [r]) (fold_into have r).
Proof.
  intros (Ha & Hs & Hr). split_and!; simpl.
  - exists r. by rewrite last_snoc.
  - intros s. change (foldl appendUnique ?a ?b) with (append_uniques a b).
    rewrite elem_of_append_uniques, Hs. setoid_rewrite elem_of_app. set_solver.
  - intros n. unfold appendReasons. rewrite elem_of_append_uniques, Hr.
    setoid_rewrite elem_of_app. set_solver.
Qed.

Lemma merged_from_step l all r : merged_from l all → merged_from (mergeRestart l r) (all ++ [r]).
Proof.
  intros (Hnd & Hsvc & Hst). split_and!.
  - by apply mergeRestart_NoDup.
  - intros svc. rewrite mergeRestart_services, Hsvc, fmap_app, elem_of_app. set_solver.
  - intros x Hx. destruct (elem_of_mergeRestart _ _ _ Hnd Hx) as [[Hl Hne]|[[-> Hni]|(h & Hl & He & ->)]].
    + rewrite of_service_snoc_ne by done. auto.
    + rewrite of_service_snoc_eq, of_service_nil by (done || by rewrite <- Hsvc).
      split_and!; [by exists r|set_solver..].
    + cbn [r_Service fold_into]. rewrite of_service_snoc_eq by done. apply fold_into_stands. auto.
Qed.

Lemma merged_from_foldl l all rs : merged_from l all → merged_from (foldl mergeRestart l rs) (all ++ rs).
Proof.
  revert l all. induction rs as [|r rs IH]; intros l all H; simpl; [by rewrite app_nil_r|].
  rewrite (cons_middle r), app_assoc. apply IH. by apply merged_from_step.
Qed.

Lemma merged_from_nil : merged_from [] [].
Proof. split_and!; [constructor|set_solver..]. Qed.

(** The list [MergeRestarts] sorts and classifies. *)
Definition merge_all (stale fresh : list Restart) : list Restart :=
  foldl mergeRestart (foldl mergeRestart [] stale) fresh.

Lemma merge_all_from stale fresh : merged_from (merge_all stale fresh) (stale ++ fresh).
Proof. apply merged_from_foldl. apply (merged_from_foldl [] []), merged_from_nil. Qed.

Lemma fmap_key_lt {A} (key : A → string) (f : A → A) l :
  (∀ x, key (f x) = key x) → StronglySorted (key_lt key) l → StronglySorted (key_lt key) (f <$> l).
Proof.
  intros Hf. induction 1 as [|x l Hs IH Hall]; simpl; constructor; [done|].
  apply Forall_fmap. eapply Forall_impl; [exact Hall|]. intros y. unfold key_lt, compose. by rewrite !Hf.
Qed.

(** The merge of two restart lists is strictly sorted by service, has exactly the
    services of both lists, and its entry of a service has the sections and the
    reasons of every entry of that service in either list and the action of the
    last one (the fresh one when both have it), classified for the host. *)
Theorem MergeRestarts_spec stale fresh systemd :
  let m := MergeRestarts stale fresh systemd in
  StronglySorted (key_lt r_Service) m ∧
  (∀ svc, svc ∈ r_Service <$> m ↔ svc ∈ r_Service <$> stale ∨ svc ∈ r_Service <$> fresh) ∧
  (∀ r, r ∈ m → ∃ e, last (of_service (r_Service r) (stale ++ fresh)) = Some e ∧
     r_Action r = Classify (r_Action e) (r_Service r) systemd ∧
     (∀ s, s ∈ r_Sections r ↔
        ∃ e, e ∈ stale ++ fresh ∧ r_Service e = r_Service r ∧ s ∈ r_Sections e) ∧
     (∀ n, n ∈ r_Reasons r ↔
        ∃ e, e ∈ stale ++ fresh ∧ r_Service e = r_Service r ∧ n ∈ r_Reasons e)).
Proof.
  cbn zeta. destruct (merge_all_from stale fresh) as (Hnd & Hsvc & Hst).
  unfold MergeRestarts. fold (merge_all stale fresh). cbn zeta.
  split_and!.
  - apply fmap_key_lt; [done|]. by apply sort_by_key_lt.
  - intros svc. rewrite <- list_fmap_compose.
    change (r_Service ∘ _) with r_Service. rewrite sort_by_key_perm, Hsvc, fmap_app. apply elem_of_app.
  - intros ? (r & -> & Hr%elem_of_sort_by_key)%list_elem_of_fmap. cbn [set_Action r_Service r_Action r_Sections r_Reasons].
    destruct (Hst r Hr) as ((e & He & Ha) & Hs & Hn). exists e. rewrite Ha. split_and!; [done..| |].
    + intros s. rewrite Hs. unfold of_service. setoid_rewrite list_elem_of_filter. naive_solver.
    + intros n. rewrite Hn. unfold of_service. setoid_rewrite list_elem_of_filter. naive_solver.
Qed.
