(* ===== verification/Shadow.v ===== *)
(** * Shadow: planning next to a live daemon

    internal/shadow/shadow.go, internal/sys/readonly.go and the redaction of a plan
    (internal/plan/render.go).  A shadow cycle loads, plans and reports; the
    configuration manager it runs on is a [Source], the file system of the report is
    [Out], and both act on a world [W].  Every call of [Out] is recorded.

    A cleaned path is its components; the functions of path/filepath work on them. *)
From S2P Require Import Prelude Config Redact Plan.
Open Scope Z_scope.

(** ** Paths (path/filepath) *)
Record Path := { rooted : bool; comps : list string }.
#[export] Instance Path_eq_dec : EqDecision Path.
Proof. solve_decision. Defined.

(** One element of a path being cleaned: empty ones and dots go, a double dot takes the
    last one away. *)
Definition add_comp (root : bool) (cs : list string) (c : string) : list string :=
  if String.eqb c "" || String.eqb c "." then cs
  else if String.eqb c ".." then
    match reverse cs with
    | [] => if root then [] else [".."]
    | last :: rest => if String.eqb last ".." then cs ++ [".."] else reverse rest
    end
  else cs ++ [c].

Definition is_rooted (s : string) : bool := HasPrefix s "/".

Definition Clean (s : string) : Path :=
  {| rooted := is_rooted s; comps := foldl (add_comp (is_rooted s)) [] (SplitByte "/" s) |}.

(** [filepath.Join] of a path and an element, or a cleaned one. *)
Definition Join (p : Path) (elem : string) : Path :=
  {| rooted := rooted p; comps := foldl (add_comp (rooted p)) (comps p) (SplitByte "/" elem) |}.
Definition Join_path (p q : Path) : Path :=
  {| rooted := rooted p; comps := foldl (add_comp (rooted p)) (comps p) (comps q) |}.

(** [filepath.Dir]: without the last element. *)
Definition Dir (p : Path) : Path :=
  {| rooted := rooted p; comps := match reverse (comps p) with [] => [] | _ :: rest => reverse rest end |}.

Definition Base (p : Path) : string :=
  match reverse (comps p) with [] => if rooted p then "/" else "." | last :: _ => last end.

(** [filepath.Rel]: the way from [base] to [targ]; [None] when there is none. *)
Fixpoint rel_comps (base targ : list string) : list string * list string :=
  match base, targ with
  | b :: bs, t :: ts => if String.eqb b t then rel_comps bs ts else (base, targ)
  | _, _ => (base, targ)
  end.

Definition Rel (base targ : Path) : option (list string) :=
  if negb (Bool.eqb (rooted base) (rooted targ)) then None else
  let '(b, t) := rel_comps (comps base) (comps targ) in
  if match b with x :: _ => String.eqb x ".." | [] => false end then None
  else Some (((λ _, "..") <$> b) ++ t).

(** Whether [path] is [dir] or lies below it. *)
Definition contains (dir path : Path) : bool :=
  match Rel dir path with
  | None => false
  | Some [] => true
  | Some (x :: _) => negb (String.eqb x "..")
  end.

(** ** Redaction of a plan (render.go) *)
Definition redact_postconf (c : Postconf) : Postconf :=
  {| pc_Key := pc_Key c; pc_Value := ForLog (pc_Key c) (pc_Value c); pc_Sections := pc_Sections c; pc_Reasons := pc_Reasons c |}.

Definition redact_postconfd (c : Postconfd) : Postconfd :=
  {| pd_Key := pd_Key c; pd_Value := ForLog (pd_Key c) (pd_Value c); pd_Sections := pd_Sections c; pd_Reasons := pd_Reasons c |}.
Definition redact_ldap (l : Ldap) : Ldap :=
  {| ld_Key := ld_Key l; ld_Value := ForLog (ld_Key l) (ld_Value l); ld_Sections := ld_Sections l; ld_Reasons := ld_Reasons l |}.

Definition Redacted (p : Plan) : Plan :=
  {| p_FirstRun := p_FirstRun p; p_Sections := p_Sections p; p_Heal := p_Heal p; p_Mapfiles := p_Mapfiles p;
     p_Rewrites := p_Rewrites p; p_Postconf := redact_postconf <$> p_Postconf p;
     p_Postconfd := redact_postconfd <$> p_Postconfd p; p_Ldap := redact_ldap <$> p_Ldap p;
     p_Proxygen := p_Proxygen p; p_Restarts := p_Restarts p; p_DeferredRestarts := p_DeferredRestarts p;
     p_Tracked := p_Tracked p; p_Enabled := p_Enabled p |}.

(** ** The shadow *)
Definition RenderedDir : string := "rendered".
Definition PlansDir : string := "plans".
Definition LatestPlan : string := "plan-latest.json".
Definition retryDelay : Z := 60000000000.
Definition dirMode : Z := 448.    (* 0o700 *)
Definition fileMode : Z := 384.   (* 0o600 *)

(** Whole seconds of the clock's UTC time. *)
Record Stamp := { t_year : N; t_month : N; t_day : N; t_hour : N; t_min : N; t_sec : N }.

(** What a cycle asks of the outside.  [JSON] encodes a plan, [None] being an error. *)
Record Source (W : Type) := {
  src_Load : W → option string * W;
  src_Plan : W → (Plan + string) * W;
  src_RenderRewrite : Rewrite → W → (string + string) * W;
  src_CycleDone : W → W }.
Arguments src_Load {W}. Arguments src_Plan {W}. Arguments src_RenderRewrite {W}. Arguments src_CycleDone {W}.

Record Env (W : Type) := {
  env_Now : W → Stamp * W;
  env_Interval : W → Z;
  env_wait : Z → W → bool * W;
  env_MkdirAll : Path → Z → W → bool * W;
  env_WriteFileAtomic : Path → string → Z → W → bool * W;
  env_JSON : Plan → option string }.
Arguments env_Now {W}. Arguments env_Interval {W}. Arguments env_wait {W}. Arguments env_MkdirAll {W}.
Arguments env_WriteFileAtomic {W}. Arguments env_JSON {W}.

(** The calls of the report's file system. *)
Inductive OutCall := OMkdirAll (p : Path) (mode : Z) | OWriteFile (p : Path) (data : string) (mode : Z).

Record Shadow := { sh_dir : option Path; sh_cycle : N }.

Inductive NewError := ErrAbs | ErrUnsafeDir (dir base : Path).

Section New.
(** [evalSymlinks] is [filepath.EvalSymlinks]; [cwd] the working directory, if known. *)
Variables (evalSymlinks : Path → option Path) (cwd : option Path).

Definition Abs (s : string) : option Path := if is_rooted s then Some (Clean s) else (λ c, Join c s) <$> cwd.

Fixpoint resolve_go (fuel : nat) (p : Path) : Path :=
  match evalSymlinks p with
  | Some q => q
  | None =>
      let parent := Dir p in
      match fuel with
      | O => p
      | S fuel => if decide (parent = p) then p else Join (resolve_go fuel parent) (Base p)
      end
  end.

(** Each step takes an element away, so there are no more steps than elements. *)
Definition resolvePath (p : Path) : Path := resolve_go (length (comps p)) p.

Definition New (dir baseDir : string) : Shadow + NewError :=
  if String.eqb dir "" then inl {| sh_dir := None; sh_cycle := 0 |} else
  match Abs dir with
  | None => inr ErrAbs
  | Some d =>
      let d := resolvePath d in
      let base := resolvePath (Clean baseDir) in
      if contains d base || contains base d then inr (ErrUnsafeDir d base)
      else inl {| sh_dir := Some d; sh_cycle := 0 |}
  end.
End New.

(** [fmt]'s [%0wd] of a number that is not negative. *)
Fixpoint decimal (fuel : nat) (n : N) : list ascii :=
  match fuel with
  | O => []
  | S fuel => if (n <? 10)%N then [ascii_of_N (48 + n)] else decimal fuel (n / 10) ++ [ascii_of_N (48 + n mod 10)]
  end.

Definition padded (width : nat) (n : N) : string :=
  let ds := decimal (S (N.to_nat (N.size n))) n in
  string_of_list_ascii (repeat "0"%char (width - length ds) ++ ds).

Definition plan_name (t : Stamp) (cycle : N) : string :=
  "plan-" +:+ padded 4 (t_year t) +:+ padded 2 (t_month t) +:+ padded 2 (t_day t) +:+ "T"
  +:+ padded 2 (t_hour t) +:+ padded 2 (t_min t) +:+ padded 2 (t_sec t) +:+ "Z-" +:+ padded 6 cycle +:+ ".json".

Section cycle.
Context {W : Type} (src : Source W) (env : Env W).

(** The world and the calls of the report so far, the newest first. *)
Definition SM (A : Type) : Type := W * list OutCall → A * (W * list OutCall).
#[export] Instance SM_ret : MRet SM := λ A a s, (a, s).
#[export] Instance SM_bind : MBind SM := λ A B f m s, let '(a, s) := m s in f a s.

Definition lift {A} (f : W → A * W) : SM A := λ s, let '(a, w) := f s.1 in (a, (w, s.2)).
Definition call (c : OutCall) (f : W → bool * W) : SM bool := λ s, let '(ok, w) := f s.1 in (ok, (w, c :: s.2)).

Definition write (name : Path) (data : string) : SM (option string) :=
  ok ← call (OMkdirAll (Dir name) dirMode) (env_MkdirAll env (Dir name) dirMode);
  if negb ok then mret (Some "create directory") else
  ok ← call (OWriteFile name data fileMode) (env_WriteFileAtomic env name data fileMode);
  mret (if (ok : bool) then None else Some "write file").

Definition writePlan (dir : Path) (cycle : N) (pl : Plan) : SM (option string) :=
  match env_JSON env (Redacted pl) with
  | None => mret (Some "encode plan")
  | Some data =>
      err ← write (Join dir LatestPlan) data;
      match err with
      | Some e => mret (Some e)
      | None =>
          if Plan_IsEmpty pl then mret None else
          t ← lift (env_Now env);
          write (Join (Join dir PlansDir) (plan_name t cycle)) data
      end
  end.

Definition writeRewrite (dir : Path) (r : Rewrite) : SM (option string) :=
  content ← lift (src_RenderRewrite src r);
  match content with
  | inr e => mret (Some ("render " +:+ rw_Source r))
  | inl data => write (Join_path (Join dir RenderedDir) (Clean ("/" +:+ rw_Target r))) data
  end.

Fixpoint writeRewrites (dir : Path) (rs : list Rewrite) : SM (list string) :=
  match rs with
  | [] => mret []
  | r :: rs =>
      err ← writeRewrite dir r;
      errs ← writeRewrites dir rs;
      mret (match err with Some e => e :: errs | None => errs end)
  end.

Definition report (sh : Shadow) (pl : Plan) : SM (list string) :=
  let red := Redacted pl in
  match sh_dir sh with
  | None => mret []
  | Some dir =>
      err ← writePlan dir (sh_cycle sh) red;
      errs ← writeRewrites dir (p_Rewrites red);
      mret (match err with Some e => e :: errs | None => errs end)
  end.

(** The errors of a cycle. *)
Definition Cycle (sh : Shadow) : SM (list string * Shadow) :=
  let sh := {| sh_dir := sh_dir sh; sh_cycle := (sh_cycle sh + 1)%N |} in
  err ← lift (src_Load src);
  match err with
  | Some e => mret ([ "load: " +:+ e ], sh)
  | None =>
      pl ← lift (src_Plan src);
      match pl with
      | inr e => mret ([ "plan: " +:+ e ], sh)
      | inl pl =>
          errs ← report sh pl;
          lift (λ w, (tt, src_CycleDone src w)) ;;
          mret (errs, sh)
      end
  end.

(** At most [n] cycles: [None] when the loop would go on. *)
Fixpoint Run (n : nat) (once : bool) (sh : Shadow) : SM (option (list string)) :=
  match n with
  | O => mret None
  | S n =>
      '(errs, sh) ← Cycle sh;
      if once then mret (Some errs) else
      go ← (λ s, lift (env_wait env (match errs with [] => env_Interval env s.1 | _ => retryDelay end)) s);
      if (go : bool) then Run n once sh else mret (Some [])
  end.
End cycle.

(** ** Cleaned paths *)
Definition good (c : string) : Prop := c ≠ "" ∧ c ≠ "." ∧ c ≠ "..".

(** A rooted path in its clean form. *)
Definition clean_rooted (p : Path) : Prop := rooted p = true ∧ Forall good (comps p).

Lemma add_comp_good root cs c : good c → add_comp root cs c = cs ++ [c].
Proof.
  intros (H1 & H2 & H3). unfold add_comp. apply String.eqb_neq in H1, H2, H3. by rewrite H1, H2, H3.
Qed.

Lemma add_comps_good root cs new : Forall good new → foldl (add_comp root) cs new = cs ++ new.
Proof.
  intros Hn. revert cs. induction Hn as [|c new Hc _ IH]; intros cs; simpl; [by rewrite app_nil_r|].
  by rewrite add_comp_good, IH, <- app_assoc.
Qed.

Lemma add_comp_rooted cs c : Forall good cs → Forall good (add_comp true cs c).
Proof.
  intros Hcs. unfold add_comp. destruct (String.eqb_spec c ""); [done|]. destruct (String.eqb_spec c "."); [done|]. simpl.
  destruct (String.eqb_spec c ".."); [|apply Forall_app; split; [done|by constructor]].
  destruct (reverse cs) as [|last rest] eqn:E; [done|]. apply (f_equal reverse) in E. rewrite reverse_involutive, reverse_cons in E.
  rewrite E in Hcs |- *. apply Forall_app in Hcs as [Hr Hl]. apply Forall_inv in Hl as (_ & _ & Hl).
  by destruct (String.eqb_spec last "..").
Qed.

Lemma add_comps_rooted cs new : Forall good cs → Forall good (foldl (add_comp true) cs new).
Proof. revert cs. induction new as [|c new IH]; intros cs Hcs; simpl; [done|]. by apply IH, add_comp_rooted. Qed.

Lemma Clean_rooted s : is_rooted s = true → clean_rooted (Clean s).
Proof. intros Hs. split; [done|]. unfold Clean. simpl. rewrite Hs. by apply add_comps_rooted. Qed.

Lemma Join_rooted p s : clean_rooted p → clean_rooted (Join p s).
Proof. intros [Hr Hc]. split; [done|]. unfold Join. simpl. rewrite Hr. by apply add_comps_rooted. Qed.

Lemma Dir_comps p cs c : comps p = cs ++ [c] → comps (Dir p) = cs.
Proof. intros E. unfold Dir. simpl. by rewrite E, reverse_snoc, reverse_involutive. Qed.

Lemma Dir_rooted p : clean_rooted p → clean_rooted (Dir p).
Proof.
  intros [Hr Hc]. split; [done|]. destruct (comps p) as [|c cs _] eqn:E using rev_ind; [by unfold Dir; simpl; rewrite E|].
  rewrite (Dir_comps _ _ _ E). by apply Forall_app in Hc as [? _].
Qed.

(** [p] is [dir] or lies below it. *)
Definition below (dir p : Path) : Prop := rooted p = rooted dir ∧ ∃ rest, comps p = comps dir ++ rest.

Lemma rel_comps_spec b t b' t' :
  rel_comps b t = (b', t') → ∃ pre, b = pre ++ b' ∧ t = pre ++ t' ∧
    match b', t' with x :: _, y :: _ => x ≠ y | _, _ => True end.
Proof.
  revert t. induction b as [|x b IH]; intros t; simpl.
  { intros [= <- <-]. by exists []. }
  destruct t as [|y t]; [intros [= <- <-]; by exists []|]. destruct (String.eqb_spec x y) as [->|].
  - intros (pre & -> & -> & ?)%IH. by exists (y :: pre).
  - intros [= <- <-]. by exists [].
Qed.

Lemma contains_below d p : clean_rooted d → clean_rooted p → contains d p = true ↔ below d p.
Proof.
  intros [Hd Gd] [Hp Gp]. unfold contains, Rel, below. rewrite Hd, Hp. simpl.
  destruct (rel_comps (comps d) (comps p)) as [b t] eqn:E. destruct (rel_comps_spec _ _ _ _ E) as (pre & Eb & Et & Hne).
  rewrite Eb in Gd. rewrite Et in Gp. apply Forall_app in Gd as [_ Gb]. apply Forall_app in Gp as [_ Gt]. split.
  - intros H. split; [done|]. destruct b as [|x b]; [exists t; by rewrite Et, Eb, app_nil_r|].
    simpl in H. by destruct (String.eqb x "..").
  - intros [_ [rest Er]]. destruct b as [|x b].
    + simpl. destruct t as [|y t]; [done|]. apply Forall_inv in Gt as (_ & _ & Hy).
      by apply negb_true_iff, String.eqb_neq.
    + exfalso. rewrite Eb, Et, <- app_assoc in Er. apply app_inv_head in Er. simpl in Er. rewrite Er in Hne. by simpl in Hne.
Qed.

(** ** Names without a slash *)
Definition no_slash (c : ascii) : bool := negb (Ascii.eqb c "/").

Lemma split_no_slash s : chars no_slash s = true → SplitByte "/" s = [s].
Proof.
  induction s as [|c s IH]; simpl; [done|]. intros [Hc Hs]%andb_prop. rewrite (IH Hs). unfold no_slash in Hc.
  by destruct (Ascii.eqb c "/").
Qed.

Lemma Join_name p name : chars no_slash name = true → good name → comps (Join p name) = comps p ++ [name].
Proof. intros Hs Hg. unfold Join. simpl. rewrite split_no_slash by done. by apply add_comps_good, Forall_singleton. Qed.

Lemma chars_list P l : forallb P l = true → chars P (string_of_list_ascii l) = true.
Proof. induction l as [|c l IH]; simpl; [done|]. intros [-> ?]%andb_prop. by apply IH. Qed.

Lemma digit_no_slash n : (n < 10)%N → no_slash (ascii_of_N (48 + n)) = true.
Proof.
  intros H.
  assert (Hn : (n = 0 ∨ n = 1 ∨ n = 2 ∨ n = 3 ∨ n = 4 ∨ n = 5 ∨ n = 6 ∨ n = 7 ∨ n = 8 ∨ n = 9)%N) by lia.
  by destruct_or! Hn; subst.
Qed.

Lemma padded_no_slash w n : chars no_slash (padded w n) = true.
Proof.
  unfold padded. apply chars_list. rewrite forallb_app. apply andb_true_intro. split.
  - generalize (w - length (decimal (S (N.to_nat (N.size n))) n))%nat. intros k. by induction k.
  - generalize (S (N.to_nat (N.size n))). intros fuel. revert n. induction fuel as [|fuel IH]; intros n; simpl; [done|].
    destruct (N.ltb_spec n 10); simpl; [by rewrite digit_no_slash|]. rewrite forallb_app, IH. cbn [forallb andb].
    rewrite digit_no_slash; [done|]. by apply N.mod_lt.
Qed.

Lemma plan_name_no_slash t n : chars no_slash (plan_name t n) = true.
Proof. unfold plan_name. rewrite !chars_app, !padded_no_slash. reflexivity. Qed.

Lemma plan_name_good t n : good (plan_name t n).
Proof. unfold plan_name. rewrite string_app_cons. split_and!; discriminate. Qed.

(** ** The calls of a report

    [writes P m]: every call of the report's file system that [m] makes satisfies [P]. *)
Definition writes {W A} (P : OutCall → Prop) (m : SM A) : Prop :=
  ∀ s : W * list OutCall, ∃ new, (m s).2.2 = new ++ s.2 ∧ Forall P new.

Section Writes.
Context {W : Type} (P : OutCall → Prop).

Lemma writes_ret {A} (a : A) : writes (W := W) P (mret a).
Proof. intros s. by exists []. Qed.

Lemma writes_bind {A B} (m : @SM W A) (f : A → @SM W B) : writes P m → (∀ a, writes P (f a)) → writes P (m ≫= f).
Proof.
  intros Hm Hf s. unfold mbind, SM_bind. destruct (Hm s) as (n1 & H1 & F1). destruct (m s) as [a s1]. simpl in *.
  destruct (Hf a s1) as (n2 & H2 & F2). exists (n2 ++ n1). rewrite H2, H1, app_assoc. split; [done|]. by apply Forall_app.
Qed.

Lemma writes_lift {A} (f : W → A * W) : writes P (lift f).
Proof. intros s. unfold lift. exists []. by destruct (f s.1). Qed.

Lemma writes_call c (f : W → bool * W) : P c → writes P (call c f).
Proof. intros Hc s. unfold call. exists [c]. destruct (f s.1). split; [done|]. by constructor. Qed.
End Writes.

(** Inside the report directory, outside the install tree, for the owner only. *)
Definition confined (dir base : Path) (c : OutCall) : Prop :=
  match c with
  | OMkdirAll p mode => below dir p ∧ ¬ below base p ∧ mode = dirMode
  | OWriteFile p _ mode => below dir p ∧ ¬ below base p ∧ mode = fileMode
  end.

(** Two trees neither of which lies in the other have nothing in common. *)
Definition apart (dir base : Path) : Prop := ¬ below dir base ∧ ¬ below base dir.

Lemma apart_below dir base p : rooted dir = rooted base → apart dir base → below dir p → ¬ below base p.
Proof.
  intros Hr [H1 H2] [Hd [r1 E1]] [Hb [r2 E2]]. rewrite E1 in E2.
  destruct (app_eq_app _ _ _ _ E2) as (l & [[El _]|[El _]]).
  - apply H2. split; [done|]. by exists l.
  - apply H1. split; [done|]. by exists l.
Qed.

Section Confined.
Context {W : Type} (src : Source W) (env : Env W) (dir base : Path).
Hypothesis Hdir : clean_rooted dir.
Hypothesis Hbase : clean_rooted base.
Hypothesis Hapart : apart dir base.

Lemma confined_write p rest data :
  rooted p = true → comps p = comps dir ++ rest → rest ≠ [] → writes (confined dir base) (write env p data).
Proof.
  intros Hp Hc Hne.
  assert (Hb : ∀ q, below dir q → below dir q ∧ ¬ below base q).
  { intros q Hq. split; [done|]. apply (apart_below dir); [by rewrite (proj1 Hdir), (proj1 Hbase)|done|done]. }
  assert (Hpd : below dir p) by (split; [by rewrite Hp, (proj1 Hdir)|eauto]).
  assert (Hdd : below dir (Dir p)).
  { split; [simpl; by rewrite Hp, (proj1 Hdir)|]. destruct rest as [|x rest _] using rev_ind; [done|].
    exists rest. apply (Dir_comps _ _ x). by rewrite Hc, app_assoc. }
  unfold write. apply writes_bind; [apply writes_call; split_and!; [by apply Hb..|done]|].
  intros ok. destruct (negb ok); [apply writes_ret|].
  apply writes_bind; [apply writes_call; split_and!; [by apply Hb..|done]|intros; apply writes_ret].
Qed.

Lemma confined_writePlan n pl : writes (confined dir base) (writePlan env dir n pl).
Proof.
  unfold writePlan. destruct (env_JSON env _) as [data|]; [|apply writes_ret]. apply writes_bind.
  - apply (confined_write _ [LatestPlan]); [apply Hdir|by apply Join_name|done].
  - intros [e|]; [apply writes_ret|]. destruct (Plan_IsEmpty pl); [apply writes_ret|].
    apply writes_bind; [apply writes_lift|]. intros t. apply (confined_write _ [PlansDir; plan_name t n]); [apply Hdir| |done].
    rewrite Join_name; [|apply plan_name_no_slash|apply plan_name_good]. rewrite Join_name by done. by rewrite <- app_assoc.
Qed.

Lemma confined_writeRewrites rs : writes (confined dir base) (writeRewrites src env dir rs).
Proof.
  induction rs as [|r rs IH]; [apply writes_ret|]. apply writes_bind.
  - unfold writeRewrite. apply writes_bind; [apply writes_lift|]. intros [data|e]; [|apply writes_ret].
    destruct (Clean_rooted ("/" +:+ rw_Target r)) as [_ Hg]; [apply HasPrefix_app|].
    apply (confined_write _ (RenderedDir :: comps (Clean ("/" +:+ rw_Target r)))); [apply Hdir| |done].
    unfold Join_path. cbn [comps]. rewrite add_comps_good by done. rewrite Join_name by done. by rewrite <- app_assoc.
  - intros err. apply writes_bind; [done|intros; apply writes_ret].
Qed.

Lemma confined_Cycle sh : sh_dir sh = Some dir → writes (confined dir base) (Cycle src env sh).
Proof.
  intros Hsh. unfold Cycle. apply writes_bind; [apply writes_lift|]. intros [e|]; [apply writes_ret|].
  apply writes_bind; [apply writes_lift|]. intros [pl|e]; [|apply writes_ret]. apply writes_bind.
  - unfold report. cbn [sh_dir]. rewrite Hsh. apply writes_bind; [apply confined_writePlan|]. intros err.
    apply writes_bind; [apply confined_writeRewrites|intros; apply writes_ret].
  - intros errs. apply writes_bind; [apply writes_lift|intros; apply writes_ret].
Qed.

Lemma Cycle_dir sh s : sh_dir (Cycle src env sh s).1.2 = sh_dir sh.
Proof.
  unfold Cycle, mbind, SM_bind, lift, mret, SM_ret. destruct (src_Load src s.1) as [[e|] w]; [done|].
  destruct (src_Plan src _) as [[pl|e] w']; [|done]. by destruct (report _ _ _ _ _).
Qed.

Lemma confined_Run n once sh : sh_dir sh = Some dir → writes (confined dir base) (Run src env n once sh).
Proof.
  revert sh. induction n as [|n IH]; intros sh Hsh s; simpl; [by exists []|]. unfold mbind at 1, SM_bind at 1.
  destruct (confined_Cycle sh Hsh s) as (n1 & H1 & F1). pose proof (Cycle_dir sh s) as Hd.
  destruct (Cycle src env sh s) as [[errs sh'] s1]. simpl in *. destruct once; [by exists n1|].
  unfold mbind, SM_bind, lift. destruct (env_wait env _ s1.1) as [go w]. destruct go; [|by exists n1].
  destruct (IH sh' ltac:(by rewrite Hd) (w, s1.2)) as (n2 & H2 & F2). exists (n2 ++ n1). rewrite H2. simpl. rewrite H1, app_assoc.
  split; [done|]. by apply Forall_app.
Qed.
End Confined.

Lemma silent_Run {W} (src : Source W) env n once sh : sh_dir sh = None → writes (λ _, False) (Run src env n once sh).
Proof.
  revert sh. induction n as [|n IH]; intros sh Hsh s; simpl; [by exists []|]. unfold mbind at 1, SM_bind at 1.
  assert (Hc : (Cycle src env sh s).2.2 = s.2).
  { unfold Cycle, report, mbind, SM_bind, lift, mret, SM_ret. cbn [sh_dir]. rewrite Hsh.
    destruct (src_Load src s.1) as [[e|] w]; [done|]. by destruct (src_Plan src _) as [[pl|e] w']. }
  pose proof (Cycle_dir src env sh s) as Hd. destruct (Cycle src env sh s) as [[errs sh'] s1]. simpl in *.
  destruct once; [by exists []|]. unfold mbind, SM_bind, lift. destruct (env_wait env _ s1.1) as [go w].
  destruct go; [|by exists []]. rewrite <- Hc. apply (IH sh' ltac:(by rewrite Hd) (w, s1.2)).
Qed.

(** What [New] accepts. *)
Section New_ok.
Context (evalSymlinks : Path → option Path) (cwd : option Path).
Hypothesis Heval : ∀ p q, evalSymlinks p = Some q → clean_rooted p → clean_rooted q.
Hypothesis Hcwd : ∀ p, cwd = Some p → clean_rooted p.

Lemma resolve_go_rooted fuel p : clean_rooted p → clean_rooted (resolve_go evalSymlinks fuel p).
Proof.
  revert p. induction fuel as [|fuel IH]; intros p Hp; simpl; destruct (evalSymlinks p) eqn:E; eauto.
  destruct (decide (Dir p = p)); [done|]. by apply Join_rooted, IH, Dir_rooted.
Qed.

Lemma New_apart dir baseDir sh d :
  is_rooted baseDir = true → New evalSymlinks cwd dir baseDir = inl sh → sh_dir sh = Some d →
  clean_rooted d ∧ clean_rooted (resolvePath evalSymlinks (Clean baseDir)) ∧
  apart d (resolvePath evalSymlinks (Clean baseDir)).
Proof.
  intros Hb. unfold New. destruct (String.eqb dir ""); [by intros [= <-]|].
  destruct (Abs cwd dir) as [a|] eqn:Ea; [|done].
  assert (Ha : clean_rooted a).
  { unfold Abs in Ea. destruct (is_rooted dir) eqn:Er; [injection Ea as <-; by apply Clean_rooted|].
    destruct cwd as [c|]; [|done]. injection Ea as <-. by apply Join_rooted, Hcwd. }
  pose proof (resolve_go_rooted (length (comps a)) a Ha) as Hd.
  pose proof (resolve_go_rooted (length (comps (Clean baseDir))) (Clean baseDir) (Clean_rooted _ Hb)) as Hbase.
  fold (resolvePath evalSymlinks a) in Hd. fold (resolvePath evalSymlinks (Clean baseDir)) in Hbase.
  destruct (contains (resolvePath evalSymlinks a) (resolvePath evalSymlinks (Clean baseDir))) eqn:E1; [done|].
  destruct (contains (resolvePath evalSymlinks (Clean baseDir)) (resolvePath evalSymlinks a)) eqn:E2; [done|].
  intros [= <-] [= <-]. split_and!; [done|done|]. split; rewrite <- contains_below by done; congruence.
Qed.
End New_ok.


(** A report directory reached through a symbolic link, and a plan whose target climbs. *)
Definition demo_eval (p : Path) : option Path :=
  if decide (p = {| rooted := true; comps := ["tmp"; "link"] |}) then Some {| rooted := true; comps := ["srv"; "shadow"] |}
  else if decide (comps p = []) then Some p else None.

Definition demo_plan : Plan :=
  {| p_FirstRun := true; p_Sections := []; p_Heal := []; p_Mapfiles := [];
     p_Rewrites := [{| rw_Source := "conf/nginx.in"; rw_Target := "../../opt/zextras/./conf//nginx.conf"; rw_Mode := "";
                       rw_Sections := ["proxy"]; rw_Reasons := [] |}];
     p_Postconf := []; p_Postconfd := []; p_Ldap := []; p_Proxygen := None; p_Restarts := []; p_DeferredRestarts := [];
     p_Tracked := ∅; p_Enabled := [] |}.

Definition demo_source : Source unit :=
  {| src_Load := λ w, (None, w); src_Plan := λ w, (inl demo_plan, w); src_RenderRewrite := λ _ w, (inl "text", w);
     src_CycleDone := λ w, w |}.

Definition demo_env : Env unit :=
  {| env_Now := λ w, ({| t_year := 2026; t_month := 3; t_day := 9; t_hour := 7; t_min := 5; t_sec := 1 |}, w);
     env_Interval := λ _, 0; env_wait := λ _ w, (false, w); env_MkdirAll := λ _ _ w, (true, w);
     env_WriteFileAtomic := λ _ _ _ w, (true, w); env_JSON := λ _, Some "{}" |}.

Definition demo_shadow : Shadow := {| sh_dir := Some {| rooted := true; comps := ["srv"; "shadow"; "run1"] |}; sh_cycle := 0 |}.

Definition in_report (cs : list string) : Path := {| rooted := true; comps := ["srv"; "shadow"; "run1"] ++ cs |}.


(** ** The read-only system (internal/sys/readonly.go)

    The calls of the side-effect boundary.  A system is what answers them, [X] being the
    answers of the real host. *)
Inductive SysCall :=
  | CReadFile (name : string) | COpen (name : string) | CStat (name : string) | CLstat (name : string)
  | CReadDir (name : string) | CWalkDir (root : string) | CGlob (pattern : string) | CReadlink (name : string)
  | CAvailBytes (path : string) | COpenFile (name : string) (flag perm : Z)
  | CCreateTemp (dir pattern : string) | CWriteFileAtomic (name data : string) (perm : Z)
  | CCopyFile (src dst : string) | CRename (oldpath newpath : string) | CRemove (name : string)
  | CRemoveAll (name : string) | CMkdirAll (path : string) (perm : Z) | CChmod (name : string) (mode : Z)
  | CChown (name : string) (uid gid : Z) | CSymlink (oldname newname : string)
  | CRun (path : string) (args : list string) | CStart (path : string) (args : list string)
  | CTable | CEntry (pid : Z) | CAlive (pid : Z) | CZombie (pid : Z) | CPid | CPpid | CUID | CUmask
  | CLookupGID (group : string) | CSignal (pid sig : Z) | CSignalGroup (pgid sig : Z)
  | CNow | CNewTimer (d : Z).

Inductive SysAnswer (X : Type) := Real (x : X) | ErrReadOnly (op target : string).
Arguments Real {X}. Arguments ErrReadOnly {X}.

Definition System (W X : Type) : Type := SysCall → W → SysAnswer X * W.

(** The flags of [os.OpenFile]: WRONLY, RDWR, APPEND, CREATE, TRUNC. *)
Definition writeFlags : Z := Z.lor 1 (Z.lor 2 (Z.lor 1024 (Z.lor 64 512))).

Definition ReadOnly {W X} (s : System W X) : System W X := λ c w,
  match c with
  | CRun path _ | CStart path _ => (ErrReadOnly "exec" path, w)
  | COpenFile name flag _ => if negb (Z.land flag writeFlags =? 0) then (ErrReadOnly "open for write" name, w) else s c w
  | CCreateTemp dir pattern => (ErrReadOnly "create temp" (dir +:+ "/" +:+ pattern), w)
  | CWriteFileAtomic name _ _ => (ErrReadOnly "write" name, w)
  | CCopyFile _ dst => (ErrReadOnly "copy to" dst, w)
  | CRename _ newpath => (ErrReadOnly "rename to" newpath, w)
  | CRemove name | CRemoveAll name => (ErrReadOnly "remove" name, w)
  | CMkdirAll path _ => (ErrReadOnly "mkdir" path, w)
  | CChmod name _ => (ErrReadOnly "chmod" name, w)
  | CChown name _ _ => (ErrReadOnly "chown" name, w)
  | CSymlink _ newname => (ErrReadOnly "symlink" newname, w)
  | CSignal _ _ | CSignalGroup _ _ => (ErrReadOnly "signal" "pid", w)
  | _ => s c w
  end.

(** What can change a host: commands, signals, and the calls of the file system that
    write, an open counting as one when any of its write bits is set. *)
Definition reads (c : SysCall) : Prop :=
  match c with
  | COpenFile _ flag _ => ∀ i, i ∈ [0; 1; 6; 9; 10] → Z.testbit flag i = false
  | CCreateTemp _ _ | CWriteFileAtomic _ _ _ | CCopyFile _ _ | CRename _ _ | CRemove _ | CRemoveAll _ | CMkdirAll _ _
  | CChmod _ _ | CChown _ _ _ | CSymlink _ _ | CRun _ _ | CStart _ _ | CSignal _ _ | CSignalGroup _ _ => False
  | _ => True
  end.

(** Code that runs on a system: it makes calls and looks at the answers. *)
Inductive Code (X A : Type) := Done (a : A) | Call (c : SysCall) (k : SysAnswer X → Code X A).
Arguments Done {X A}. Arguments Call {X A}.

Fixpoint run_code {W X A} (s : System W X) (p : Code X A) (w : W) : A * W :=
  match p with
  | Done a => (a, w)
  | Call c k => let '(x, w) := s c w in run_code s (k x) w
  end.

Lemma open_reads name flag perm : Z.land flag writeFlags = 0 → reads (COpenFile name flag perm).
Proof.
  intros Hf i Hi. assert (Hm : Z.testbit writeFlags i = true).
  { repeat (apply elem_of_cons in Hi as [->|Hi]; [reflexivity|]). by apply elem_of_nil in Hi. }
  apply (f_equal (λ z, Z.testbit z i)) in Hf. rewrite Z.land_spec, Z.bits_0, Hm, andb_true_r in Hf. done.
Qed.

(** Whatever code runs on a read-only system, the calls that reach the host only read: the
    part [host] of the world that no reading call changes is as it was. *)
Lemma ReadOnly_harmless {W X A H} (s : System W X) (host : W → H) (p : Code X A) w :
  (∀ c w, reads c → host (s c w).2 = host w) → host (run_code (ReadOnly s) p w).2 = host w.
Proof.
  intros Hs. revert w. induction p as [a|c k IH]; intros w; simpl; [done|].
  assert (Hc : host (ReadOnly s c w).2 = host w).
  { destruct c; simpl; try done; try (by apply Hs).
    destruct (Z.eqb_spec (Z.land flag writeFlags) 0); simpl; [|done]. by apply Hs, open_reads. }
  destruct (ReadOnly s c w) as [x w']. simpl in *. by rewrite IH.
Qed.

(** ** Secrets do not reach a report *)
Lemma Redacted_hides p :
  (∀ c, c ∈ p_Postconf (Redacted p) → IsSecretKey (pc_Key c) = true → pc_Value c = "" ∨ pc_Value c = Placeholder) ∧
  (∀ c, c ∈ p_Postconfd (Redacted p) → IsSecretKey (pd_Key c) = true → pd_Value c = "" ∨ pd_Value c = Placeholder) ∧
  (∀ l, l ∈ p_Ldap (Redacted p) → IsSecretKey (ld_Key l) = true → ld_Value l = "" ∨ ld_Value l = Placeholder).
Proof.
  split_and!; intros x (y & -> & _)%list_elem_of_fmap; simpl; auto using ForLog_secret.
Qed.
