(* ===== verification/Services.v ===== *)
(** * Services: internal/services/manager.go, systemd_restart.go, interfaces.go

    The service manager: the restart queue shared by the restart policy and the
    watchdog, the rounds that work it off, the DEPENDS cascade and the systemd
    action of a plan entry.

    What the manager calls (the [Backend], the cancellation of its context) acts
    on and answers from a world [W] that is threaded through; every poll of
    [ctx.Err()] may see a new world, so a shutdown can arrive between any two
    steps.  The manager holds its lock for the whole of [ProcessRestarts], so no
    other operation interleaves with one. *)
From stdpp Require Import pretty.
From S2P Require Import Prelude Config Plan.

(** ** The interfaces (interfaces.go) *)
Module ServiceAction.
Definition ActionRestart : Z := -1.
Definition ActionStop : Z := 0.
Definition ActionStart : Z := 1.
Definition ActionStatus : Z := 2.

(** [ServiceAction.String]. *)
Definition to_string (a : Z) : string :=
  if decide (a = ActionRestart) then "restart"
  else if decide (a = ActionStop) then "stop"
  else if decide (a = ActionStart) then "start"
  else if decide (a = ActionStatus) then "status"
  else "unknown".
End ServiceAction.

(** An error is its message; [None] is Go's nil error. *)
Definition error := string.

(** What only the host controller offers. *)
Record HostBackend (W : Type) := {
  IsSystemdMode_ : W → bool;
  ServiceTryReloadOrRestart : string → W → option error * W }.

Record Backend (W : Type) := {
  ServiceStart : string → W → option error * W;
  ServiceStop : string → W → option error * W;
  ServiceRestart : string → W → option error * W;
  ServiceStatus : string → W → (error + bool) * W;
  LookupService : string → bool;
  asHost : option (HostBackend W);
  (** the context of the calls: [ctx.Err() != nil] *)
  ctx_Err : W → bool * W }.

Arguments IsSystemdMode_ {W}. Arguments ServiceTryReloadOrRestart {W}.
Arguments ServiceStart {W}. Arguments ServiceStop {W}. Arguments ServiceRestart {W}.
Arguments ServiceStatus {W}. Arguments LookupService {W}. Arguments asHost {W}. Arguments ctx_Err {W}.

(** ** The manager's state *)
Record ServiceManager := {
  RestartQueue : gmap string bool;
  restartReasons : gmap string (list string);
  MaxFailedRestarts : Z;
  StartOrder : gmap string Z;
  Dependencies : gmap string (list string);
  DisableRestarts : bool }.

Definition set_queue (q : gmap string bool) (rs : gmap string (list string)) (sm : ServiceManager) :=
  {| RestartQueue := q; restartReasons := rs; MaxFailedRestarts := MaxFailedRestarts sm;
     StartOrder := StartOrder sm; Dependencies := Dependencies sm;
     DisableRestarts := DisableRestarts sm |}.

Definition getDefaultStartOrder : gmap string Z := list_to_map
  [("ldap", 0%Z); ("configd", 10%Z); ("service-discover", 20%Z); ("appserver-db", 48%Z);
   ("store", 49%Z); ("mailbox", 50%Z); ("memcached", 60%Z); ("proxy", 70%Z); ("amavis", 75%Z);
   ("antispam-db", 79%Z); ("antispam", 80%Z); ("antivirus", 90%Z); ("clamd", 91%Z);
   ("freshclam", 92%Z); ("opendkim", 100%Z); ("cbpolicyd", 120%Z); ("saslauthd", 130%Z);
   ("milter", 140%Z); ("mta", 150%Z); ("stats", 160%Z)].

Definition NewServiceManager : ServiceManager :=
  {| RestartQueue := ∅; restartReasons := ∅; MaxFailedRestarts := 3;
     StartOrder := getDefaultStartOrder; Dependencies := ∅; DisableRestarts := false |}.

Definition unknownStartOrder : Z := 1000.

(** ** Queueing *)
Definition addRestartLocked (service : string) (reasons : list string) (sm : ServiceManager) : ServiceManager :=
  let service := ToLower service in
  set_queue (<[service := true]> (RestartQueue sm))
    (if is_nil reasons then restartReasons sm
     else <[service := append_uniques (default [] (restartReasons sm !! service)) reasons]>
            (restartReasons sm)) sm.

(** It never fails: the error result of the Go method is always nil. *)
Definition AddRestartWithReasons (service : string) (reasons : list string) (sm : ServiceManager) :
  option error * ServiceManager := (None, addRestartLocked service reasons sm).

Definition AddRestart (service : string) (sm : ServiceManager) : option error * ServiceManager :=
  AddRestartWithReasons service [] sm.

Definition reasonsOf (sm : ServiceManager) (service : string) : list string :=
  default [] (restartReasons sm !! service).

Definition clearRestartsLocked (sm : ServiceManager) : ServiceManager := set_queue ∅ ∅ sm.

Definition ClearRestarts (sm : ServiceManager) : ServiceManager := clearRestartsLocked sm.

(** In the iteration order of the map, which callers may not rely on. *)
Definition GetPendingRestarts (sm : ServiceManager) : list string := (map_to_list (RestartQueue sm)).*1.

Definition SetDependencies (deps : gmap string (list string)) (sm : ServiceManager) : ServiceManager :=
  {| RestartQueue := RestartQueue sm; restartReasons := restartReasons sm;
     MaxFailedRestarts := MaxFailedRestarts sm; StartOrder := StartOrder sm;
     Dependencies := deps; DisableRestarts := DisableRestarts sm |}.

(** ** The start order *)
Definition startOrderOf (sm : ServiceManager) (service : string) : Z :=
  default unknownStartOrder (StartOrder sm !! service).

(** Start order first, then the name. *)
Definition start_le (sm : ServiceManager) (a b : string) : Prop :=
  (startOrderOf sm a < startOrderOf sm b)%Z ∨ (startOrderOf sm a = startOrderOf sm b ∧ String.le a b).

#[export] Instance start_le_dec sm : RelDecision (start_le sm).
Proof. intros a b. unfold start_le. apply _. Defined.

Definition getSortedServices (sm : ServiceManager) : list string :=
  merge_sort (start_le sm) (map_to_list (RestartQueue sm)).*1.

(** ** The DEPENDS cascade *)
Definition addRestartLogged (service reason : string) (sm : ServiceManager) : ServiceManager :=
  addRestartLocked service [reason] sm.

Definition queueDependencyRestart (depService reason : string) (configLookup : string → string)
    (sm : ServiceManager) : ServiceManager :=
  if String.eqb depService "amavis" then addRestartLogged depService reason sm
  else
    let serviceStatus := configLookup ("SERVICE_" +:+ ToUpper depService) in
    if IsTruthy serviceStatus || String.eqb serviceStatus "enabled"
    then addRestartLogged depService reason sm else sm.

Definition addDependencyRestarts (sectionName : string) (configLookup : string → string)
    (sm : ServiceManager) : ServiceManager :=
  let reason := reason_string (service_reason ReasonDependency sectionName) in
  foldl (λ sm dep, queueDependencyRestart (ToLower dep) reason configLookup sm) sm
    (default [] (Dependencies sm !! sectionName)).

Definition AddDependencyRestarts (sectionName : string) (configLookup : string → string)
    (sm : ServiceManager) : ServiceManager := addDependencyRestarts sectionName configLookup sm.

(** The inner loop over the dependents of one service: state is what was seen,
    what was collected and the queue. *)
Definition closure_visit (st : gset string * list string * list string) (dep : string) :
  gset string * list string * list string :=
  let '(seen, out, queue) := st in
  let dep := ToLower dep in
  if decide (dep ∈ seen) then st else ({[dep]} ∪ seen, out ++ [dep], queue ++ [dep]).

Fixpoint closure_loop (fuel : nat) (deps : gmap string (list string)) (seen : gset string)
    (out queue : list string) : list string :=
  match fuel, queue with
  | O, _ | _, [] => out
  | S fuel, cur :: queue =>
      let '(seen, out, queue) := foldl closure_visit (seen, out, queue) (default [] (deps !! cur)) in
      closure_loop fuel deps seen out queue
  end.

(** Enough fuel: every root and every dependent is taken off the queue once. *)
Definition closure_fuel (deps : gmap string (list string)) (roots : list string) : nat :=
  length roots + length (mjoin (map_to_list deps).*2).

Definition DependencyClosure (deps : gmap string (list string)) (roots : list string) : list string :=
  sort_by_key id (closure_loop (closure_fuel deps roots) deps (list_to_set roots) [] roots).

(** ** Acting on services *)
Section manager.
Context {W : Type} (ctl : Backend W).
(** The optional callback that runs before each restart. *)
Variable BeforeRestart : option (string → W → W).

Definition ControlProcess (service : string) (action : Z) (w : W) : option error * W :=
  let service := ToLower service in
  if decide (action = ServiceAction.ActionStart) then ServiceStart ctl service w
  else if decide (action = ServiceAction.ActionStop) then ServiceStop ctl service w
  else if decide (action = ServiceAction.ActionRestart) then ServiceRestart ctl service w
  else if decide (action = ServiceAction.ActionStatus) then
    match ServiceStatus ctl service w with
    | (inl err, w) => (Some err, w)
    | (inr running, w) =>
        (if running then None else Some ("service " +:+ service +:+ " is not running"), w)
    end
  else (Some ("invalid action " +:+ pretty action +:+ " for service " +:+ service), w).

Definition IsRunning (service : string) (w : W) : (error + bool) * W :=
  ServiceStatus ctl (ToLower service) w.

Definition HasCommand (service : string) : bool := LookupService ctl (ToLower service).

(** One attempt, as the log shows it: the service, its reasons and the outcome. *)
Record Attempt := { at_Service : string; at_Reasons : list string; at_Ok : bool }.

(** The state of a run of [ProcessRestarts]. *)
Record Run := {
  run_sm : ServiceManager; run_failed : gmap string Z; run_w : W; run_log : list Attempt }.

Definition forget (service : string) (sm : ServiceManager) : ServiceManager :=
  set_queue (delete service (RestartQueue sm)) (delete service (restartReasons sm)) sm.

Definition attemptServiceRestart (configLookup : option (string → string)) (service : string)
    (st : Run) : bool * Run :=
  let reasons := reasonsOf (run_sm st) service in
  let w := match BeforeRestart with Some f => f service (run_w st) | None => run_w st end in
  let '(err, w) := ControlProcess service ServiceAction.ActionRestart w in
  let log := run_log st ++ [{| at_Service := service; at_Reasons := reasons;
                               at_Ok := bool_decide (err = None) |}] in
  match err with
  | None =>
      let sm := forget service (run_sm st) in
      (true, {| run_sm := match configLookup with
                          | Some lookup => addDependencyRestarts service lookup sm
                          | None => sm
                          end;
                run_failed := delete service (run_failed st); run_w := w; run_log := log |})
  | Some _ =>
      let '(cancelled, w) := ctx_Err ctl w in
      if cancelled : bool
      then (false, {| run_sm := run_sm st; run_failed := run_failed st; run_w := w; run_log := log |})
      else
        let n := (default 0 (run_failed st !! service) + 1)%Z in
        let failed := <[service := n]> (run_failed st) in
        if (MaxFailedRestarts (run_sm st) <=? n)%Z
        then (true, {| run_sm := forget service (run_sm st); run_failed := failed;
                       run_w := w; run_log := log |})
        else (false, {| run_sm := run_sm st; run_failed := failed; run_w := w; run_log := log |})
  end.

Definition with_world (w : W) (st : Run) : Run :=
  {| run_sm := run_sm st; run_failed := run_failed st; run_w := w; run_log := run_log st |}.

(** The loop of [processRestartRound] over the services sorted at its start. *)
Fixpoint round_loop (configLookup : option (string → string)) (services : list string)
    (processed : gset string) (madeProgress : bool) (st : Run) : bool * Run :=
  match services with
  | [] => (madeProgress, st)
  | service :: services =>
      let '(cancelled, w) := ctx_Err ctl (run_w st) in
      let st := with_world w st in
      if cancelled : bool then (madeProgress, st)
      else if negb (default false (RestartQueue (run_sm st) !! service)) || bool_decide (service ∈ processed)
      then round_loop configLookup services processed madeProgress st
      else
        let '(handled, st) := attemptServiceRestart configLookup service st in
        if handled : bool then round_loop configLookup services ({[service]} ∪ processed) true st
        else round_loop configLookup services processed madeProgress st
  end.

Definition processRestartRound (configLookup : option (string → string)) (st : Run) : bool * Run :=
  round_loop configLookup (getSortedServices (run_sm st)) ∅ false st.

Inductive LoopEnd := LoopDone | LoopInterrupted.

(** The loop of [ProcessRestarts].  [processedThisRound] is empty whenever a
    round starts: it is replaced after a round with progress and the loop ends
    after one without.  [None] means out of fuel. *)
Fixpoint restart_loop (fuel : nat) (configLookup : option (string → string)) (st : Run) :
  option (LoopEnd * Run) :=
  if decide (RestartQueue (run_sm st) = ∅) then Some (LoopDone, st)
  else
    match fuel with
    | O => None
    | S fuel =>
        let '(madeProgress, st) := processRestartRound configLookup st in
        let '(cancelled, w) := ctx_Err ctl (run_w st) in
        let st := with_world w st in
        if cancelled : bool then Some (LoopInterrupted, st)
        else if madeProgress : bool then restart_loop fuel configLookup st
        else Some (LoopDone, st)
    end.

Inductive RestartsError :=
  | ErrInterrupted
  | ErrRestartsFailed (failed : list string).

(** The services of the error: those whose restart failed and those still queued. *)
Definition unrecovered (st : Run) : list string :=
  sort_by_key id (elements (dom (run_failed st) ∪ dom (RestartQueue (run_sm st)) : gset string)).

Definition ProcessRestarts (fuel : nat) (configLookup : option (string → string))
    (sm : ServiceManager) (w : W) : option (option RestartsError * Run) :=
  let st := {| run_sm := sm; run_failed := ∅; run_w := w; run_log := [] |} in
  if DisableRestarts sm
  then Some (None, {| run_sm := clearRestartsLocked sm; run_failed := ∅; run_w := w; run_log := [] |})
  else
    '(e, st) ← restart_loop fuel configLookup st;
    match e with
    | LoopInterrupted => Some (Some ErrInterrupted, st)
    | LoopDone =>
        let failed := unrecovered st in
        Some (if is_nil failed then None else Some (ErrRestartsFailed failed), st)
    end.

(** ** The systemd side (systemd_restart.go) *)
Definition IsSystemdMode (w : W) : bool :=
  match asHost ctl with Some host => IsSystemdMode_ host w | None => false end.

Definition ApplySystemd (sm : ServiceManager) (service : string) (action : Action) (w : W) :
  option error * W :=
  let service := ToLower service in
  if DisableRestarts sm then (None, w)
  else match action with
  | ActionRestart =>
      match asHost ctl with
      | None => (Some ("service " +:+ service +:+ ": the backend has no systemd restart"), w)
      | Some host => ServiceTryReloadOrRestart host service w
      end
  | ActionStart => ServiceStart ctl service w
  | ActionStop => ServiceStop ctl service w
  | ActionPendingRestart =>
      (Some ("action " +:+ dquote +:+ "pending-restart" +:+ dquote +:+ " of service " +:+ service +:+
             " is never executed"), w)
  end.
End manager.

Arguments Run : clear implicits.
