(* ===== verification/ServicesProps.v ===== *)
(** * ServicesProps: the restart queue is worked off

    Termination of [ProcessRestarts], what becomes of every queued restart, the
    order of the attempts, and the reach of the DEPENDS cascade:
    [DependencyClosure] is the set of services reachable from its roots, the
    restarts of a run stay inside it, a run whose restarts all fail attempts each
    service once, and a cycle of DEPENDS never ends. *)
From stdpp Require Import fin_sets.
From S2P Require Import Prelude Config Plan Services.

#[local] Open Scope nat_scope.

(** ** Weights of a queue *)
Section weight.
Variable wt : string → nat.

Definition queue_weight (q : gmap string bool) : nat := map_fold (λ k _ n, wt k + n) 0 q.

Lemma queue_weight_insert_new k v q :
  q !! k = None → queue_weight (<[k := v]> q) = wt k + queue_weight q.
Proof. intros H. unfold queue_weight. rewrite map_fold_insert_L; [done| |done]. intros; lia. Qed.

Lemma queue_weight_delete k v q :
  q !! k = Some v → queue_weight q = wt k + queue_weight (delete k q).
Proof.
  intros H. rewrite <- (queue_weight_insert_new k v) by apply lookup_delete_eq.
  by rewrite insert_delete_id.
Qed.

Lemma queue_weight_insert k v q : queue_weight (<[k := v]> q) ≤ wt k + queue_weight q.
Proof.
  destruct (q !! k) as [v'|] eqn:E; [|by rewrite queue_weight_insert_new].
  rewrite <- insert_delete_eq, queue_weight_insert_new by apply lookup_delete_eq.
  rewrite (queue_weight_delete k v' q) by done. lia.
Qed.

(** The cascade adds at most the weight of the dependents. *)
Lemma addDependencyRestarts_weight svc lookup sm :
  queue_weight (RestartQueue (addDependencyRestarts svc lookup sm)) ≤
  sum_list ((λ d, wt (ToLower d)) <$> default [] (Dependencies sm !! svc)) + queue_weight (RestartQueue sm).
Proof.
  unfold addDependencyRestarts. generalize (reason_string (service_reason ReasonDependency svc)) as reason.
  intros reason. generalize (default [] (Dependencies sm !! svc)) as deps. intros deps. revert sm.
  induction deps as [|d deps IH]; intros sm; csimpl; [lia|].
  etrans; [apply IH|].
  enough (queue_weight (RestartQueue (queueDependencyRestart (ToLower d) reason lookup sm)) ≤
          wt (ToLower d) + queue_weight (RestartQueue sm)) by lia.
  unfold queueDependencyRestart, addRestartLogged, addRestartLocked.
  repeat case_match; cbn [RestartQueue set_queue]; rewrite ?ToLower_idem; try apply queue_weight_insert; lia.
Qed.
End weight.

(** ** Running a loop of attempts *)
Section runs.
Context {W : Type} (ctl : Backend W) (BeforeRestart : option (string → W → W)).
Local Abbreviation attempt := (attemptServiceRestart ctl BeforeRestart).
Local Abbreviation rounds := (round_loop ctl BeforeRestart).
Local Abbreviation round := (processRestartRound ctl BeforeRestart).
Local Abbreviation loop := (restart_loop ctl BeforeRestart).

(** What an attempt does, on each of its four branches. *)
Inductive attempted (cfg : option (string → string)) (svc : string) (st : Run W) : bool → Run W → Prop :=
  | attempted_ok w :
      attempted cfg svc st true
        {| run_sm := match cfg with
                     | Some lookup => addDependencyRestarts svc lookup (forget svc (run_sm st))
                     | None => forget svc (run_sm st) end;
           run_failed := delete svc (run_failed st); run_w := w;
           run_log := run_log st ++ [{| at_Service := svc; at_Reasons := reasonsOf (run_sm st) svc; at_Ok := true |}] |}
  | attempted_cut w :
      attempted cfg svc st false
        {| run_sm := run_sm st; run_failed := run_failed st; run_w := w;
           run_log := run_log st ++ [{| at_Service := svc; at_Reasons := reasonsOf (run_sm st) svc; at_Ok := false |}] |}
  | attempted_drop w :
      (MaxFailedRestarts (run_sm st) ≤ default 0 (run_failed st !! svc) + 1)%Z →
      attempted cfg svc st true
        {| run_sm := forget svc (run_sm st);
           run_failed := <[svc := (default 0 (run_failed st !! svc) + 1)%Z]> (run_failed st); run_w := w;
           run_log := run_log st ++ [{| at_Service := svc; at_Reasons := reasonsOf (run_sm st) svc; at_Ok := false |}] |}
  | attempted_fail w :
      (default 0 (run_failed st !! svc) + 1 < MaxFailedRestarts (run_sm st))%Z →
      attempted cfg svc st false
        {| run_sm := run_sm st;
           run_failed := <[svc := (default 0 (run_failed st !! svc) + 1)%Z]> (run_failed st); run_w := w;
           run_log := run_log st ++ [{| at_Service := svc; at_Reasons := reasonsOf (run_sm st) svc; at_Ok := false |}] |}.

Lemma attempt_cases cfg svc st : attempted cfg svc st (attempt cfg svc st).1 (attempt cfg svc st).2.
Proof.
  unfold attemptServiceRestart. destruct (ControlProcess _ _ _ _) as [[err|] w].
  - destruct (ctx_Err ctl w) as [[] w']; [apply attempted_cut|].
    destruct (Z.leb_spec (MaxFailedRestarts (run_sm st)) (default 0 (run_failed st !! svc) + 1)%Z);
      [by apply attempted_drop|by apply attempted_fail].
  - apply attempted_ok.
Qed.

(** A property of a run that holds after every poll and every attempt of a queued
    service holds after a round, and after the loop. *)
Section invariant.
Variables (cfg : option (string → string)) (P : Run W → Prop).
Hypothesis P_world : ∀ st w, P st → P (with_world w st).
Hypothesis P_attempt : ∀ st svc b st', RestartQueue (run_sm st) !! svc = Some true →
  P st → attempted cfg svc st b st' → P st'.

Lemma round_loop_inv services processed made st : P st → P (rounds cfg services processed made st).2.
Proof using P_world P_attempt.
  revert processed made st. induction services as [|svc l IH]; intros pr made st Hst; simpl; [done|].
  destruct (ctx_Err ctl (run_w st)) as [[] w]; [by apply P_world|].
  apply (P_world st w) in Hst. cbn [run_sm with_world].
  destruct (RestartQueue (run_sm st) !! svc) as [[]|] eqn:Eq; simpl; [|by apply IH..].
  case_bool_decide; [by apply IH|].
  pose proof (attempt_cases cfg svc (with_world w st)) as Ha.
  destruct (attempt cfg svc (with_world w st)) as [[] st']; apply IH; exact (P_attempt (with_world w st) svc _ _ Eq Hst Ha).
Qed.

Lemma restart_loop_inv fuel st e st' : P st → loop fuel cfg st = Some (e, st') → P st'.
Proof using P_world P_attempt.
  revert st. induction fuel as [|fuel IH]; intros st Hst; cbn [restart_loop];
    case_decide; try (by intros [= <- <-] || done).
  pose proof (round_loop_inv (getSortedServices (run_sm st)) ∅ false st Hst) as Hr.
  unfold processRestartRound. destruct (rounds _ _ _ _ _) as [made st1].
  destruct (ctx_Err ctl (run_w st1)) as [[] w]; [intros [= <- <-]; by apply P_world|].
  destruct made; [|intros [= <- <-]; by apply P_world]. intros Hl. eapply IH; [|exact Hl]. by apply P_world.
Qed.
End invariant.

(** The settings of the manager are not touched. *)
Definition same_settings (sm sm' : ServiceManager) : Prop :=
  MaxFailedRestarts sm' = MaxFailedRestarts sm ∧ StartOrder sm' = StartOrder sm ∧
  Dependencies sm' = Dependencies sm ∧ DisableRestarts sm' = DisableRestarts sm.

Lemma addDependencyRestarts_settings svc lookup sm :
  same_settings sm (addDependencyRestarts svc lookup sm).
Proof.
  unfold addDependencyRestarts. apply foldl_inv; [done|]. intros sm' d _ H.
  unfold queueDependencyRestart, addRestartLogged, addRestartLocked. by repeat case_match.
Qed.

Lemma attempted_settings sm0 cfg svc st b st' :
  same_settings sm0 (run_sm st) → attempted cfg svc st b st' → same_settings sm0 (run_sm st').
Proof.
  intros H Ha. destruct Ha; try exact H. cbn [run_sm]. destruct cfg as [lookup|]; [|exact H].
  destruct (addDependencyRestarts_settings svc lookup (forget svc (run_sm st))) as (E0 & E1 & E2 & E3).
  destruct H as (? & ? & ? & ?). unfold same_settings. by rewrite E0, E1, E2, E3.
Qed.

(** ** Termination *)
Section termination.
Variables (cfg : option (string → string)) (wt : string → nat) (sm0 : ServiceManager).

(** Every service weighs more than its dependents together. *)
Definition outweighs : Prop :=
  ∀ svc, 0 < wt svc ∧
    (cfg ≠ None → sum_list ((λ d, wt (ToLower d)) <$> default [] (Dependencies sm0 !! svc)) < wt svc).

Hypothesis Hwt : outweighs.

Lemma forget_weight svc sm :
  RestartQueue sm !! svc = Some true →
  queue_weight wt (RestartQueue sm) = wt svc + queue_weight wt (RestartQueue (forget svc sm)).
Proof. apply queue_weight_delete. Qed.

Lemma attempted_weight svc st b st' :
  same_settings sm0 (run_sm st) → RestartQueue (run_sm st) !! svc = Some true →
  attempted cfg svc st b st' →
  if b then queue_weight wt (RestartQueue (run_sm st')) < queue_weight wt (RestartQueue (run_sm st))
  else run_sm st' = run_sm st.
Proof using Hwt.
  intros (_ & _ & Hdeps & _) Hq Ha. destruct (Hwt svc) as [Hpos Hdep].
  destruct Ha; cbn [run_sm]; try done; rewrite (forget_weight svc (run_sm st) Hq); [|lia].
  destruct cfg as [lookup|] eqn:E; [|lia].
  pose proof (addDependencyRestarts_weight wt svc lookup (forget svc (run_sm st))) as Hle.
  change (Dependencies (forget svc (run_sm st))) with (Dependencies (run_sm st)) in Hle.
  rewrite Hdeps in Hle. specialize (Hdep ltac:(done)). lia.
Qed.

(** A round that makes progress loses weight, one that does not leaves the
    manager as it was. *)
Lemma round_loop_weight services processed (st0 st : Run W) (made : bool) :
  same_settings sm0 (run_sm st) →
  (if made then queue_weight wt (RestartQueue (run_sm st)) < queue_weight wt (RestartQueue (run_sm st0))
   else run_sm st = run_sm st0) →
  same_settings sm0 (run_sm (rounds cfg services processed made st).2) ∧
  if (rounds cfg services processed made st).1
  then queue_weight wt (RestartQueue (run_sm (rounds cfg services processed made st).2)) <
       queue_weight wt (RestartQueue (run_sm st0))
  else run_sm (rounds cfg services processed made st).2 = run_sm st0.
Proof using Hwt.
  revert processed made st. induction services as [|svc l IH]; intros pr made st Hset Hst; simpl; [done|].
  destruct (ctx_Err ctl (run_w st)) as [[] w]; [done|]. cbn [run_sm with_world].
  destruct (RestartQueue (run_sm st) !! svc) as [[]|] eqn:Eq; simpl; [|by apply IH..].
  case_bool_decide; [by apply IH|].
  pose proof (attempt_cases cfg svc (with_world w st)) as Ha.
  destruct (attempt cfg svc (with_world w st)) as [b st'].
  pose proof (attempted_settings sm0 cfg svc (with_world w st) b st' Hset Ha) as Hset'.
  pose proof (attempted_weight svc (with_world w st) b st' Hset Eq Ha) as Hb. cbn [run_sm with_world] in Hb.
  destruct b; apply IH; try done.
  - destruct made; [lia|]. by rewrite <- Hst.
  - by rewrite Hb.
Qed.

Lemma restart_loop_terminates fuel st :
  same_settings sm0 (run_sm st) → queue_weight wt (RestartQueue (run_sm st)) ≤ fuel →
  is_Some (loop fuel cfg st).
Proof using Hwt.
  revert st. induction fuel as [|fuel IH]; intros st Hset Hle; cbn [restart_loop]; case_decide as Hemp;
    try (by eexists).
  - exfalso. apply map_choose in Hemp as (k & v & Hk).
    apply (queue_weight_delete wt) in Hk. destruct (Hwt k) as [? _]. lia.
  - destruct (round_loop_weight (getSortedServices (run_sm st)) ∅ st st false Hset eq_refl) as [Hset' Hw].
    unfold processRestartRound. destruct (rounds _ _ _ _ _) as [made st1]. simpl in Hset', Hw.
    destruct (ctx_Err ctl (run_w st1)) as [[] w]; [by eexists|].
    destruct made; [|by eexists]. apply IH; [done|]. cbn [run_sm with_world]. lia.
Qed.
End termination.

Lemma restart_loop_mono fuel fuel' cfg st r :
  loop fuel cfg st = Some r → fuel ≤ fuel' → loop fuel' cfg st = Some r.
Proof.
  revert fuel' st. induction fuel as [|fuel IH]; intros fuel' st Hl Hle; cbn [restart_loop] in Hl.
  - case_decide; [|done]. destruct fuel'; cbn [restart_loop]; by rewrite decide_True.
  - destruct fuel' as [|fuel']; [lia|]. cbn [restart_loop]. case_decide; [done|].
    destruct (round _ _) as [made st1], (ctx_Err ctl (run_w st1)) as [[] w]; [done|].
    destruct made; [|done]. apply IH; [done|lia].
Qed.
End runs.

(** ** Ranked dependencies

    A rank that falls along every DEPENDS edge: the graph has no cycle. *)
Definition ranked (rank : string → nat) (deps : gmap string (list string)) : Prop :=
  ∀ svc l d, deps !! svc = Some l → d ∈ l → rank (ToLower d) < rank svc.

Definition all_deps (deps : gmap string (list string)) : list string := mjoin (map_to_list deps).*2.

Lemma elem_of_all_deps deps d : d ∈ all_deps deps ↔ ∃ svc l, deps !! svc = Some l ∧ d ∈ l.
Proof.
  unfold all_deps. rewrite list_elem_of_join. setoid_rewrite list_elem_of_fmap. split.
  - intros (l & Hd & [svc l'] & -> & Hl%elem_of_map_to_list). eauto.
  - intros (svc & l & Hl & Hd). exists l. split; [done|]. exists (svc, l). by rewrite elem_of_map_to_list.
Qed.

Lemma length_elem_mjoin {A} (l : list A) ls : l ∈ ls → length l ≤ length (mjoin ls).
Proof.
  induction ls as [|l' ls IH]; [by intros ?%not_elem_of_nil|].
  change (mjoin (l' :: ls)) with (l' ++ mjoin ls). rewrite length_app.
  intros [->|Hl]%elem_of_cons; [lia|]. specialize (IH Hl). lia.
Qed.

Lemma length_all_deps deps svc l : deps !! svc = Some l → length l ≤ length (all_deps deps).
Proof.
  intros Hl. apply length_elem_mjoin, list_elem_of_fmap. exists (svc, l).
  by rewrite elem_of_map_to_list.
Qed.

Lemma sum_list_bound c l : (∀ x, x ∈ l → x ≤ c) → sum_list l ≤ length l * c.
Proof.
  induction l as [|x l IH]; intros H; simpl; [lia|].
  assert (x ≤ c) by (apply H; by left). specialize (IH (λ y Hy, H y (list_elem_of_further _ _ _ Hy))). lia.
Qed.

Lemma ranked_outweighs cfg rank sm :
  cfg = None ∨ ranked rank (Dependencies sm) →
  outweighs cfg (λ s, S (length (all_deps (Dependencies sm))) ^ rank s) sm.
Proof.
  intros Hr svc. set (B := length (all_deps (Dependencies sm))).
  assert (∀ n, 0 < S B ^ n) as Hpos by (intros n; assert (S B ^ n ≠ 0) by (by apply Nat.pow_nonzero); lia).
  split; [done|]. intros Hc. destruct Hr as [?|Hr]; [done|].
  destruct (Dependencies sm !! svc) as [l|] eqn:E; [|apply Hpos]. simpl.
  destruct (decide (l = [])) as [->|Hne]; [apply Hpos|].
  destruct (rank svc) as [|r] eqn:Er.
  { destruct l as [|d l]; [done|]. specialize (Hr svc _ d E (list_elem_of_here _ _)). lia. }
  apply Nat.le_lt_trans with (length l * S B ^ r).
  - rewrite <- (length_fmap (λ d, S B ^ rank (ToLower d)) l). apply sum_list_bound.
    intros ? (d & -> & Hd)%list_elem_of_fmap. apply Nat.pow_le_mono_r; [lia|].
    specialize (Hr svc l d E Hd). lia.
  - apply length_all_deps in E. fold B in E. cbn [Nat.pow]. specialize (Hpos r). nia.
Qed.

(** Some number of rounds is enough, and more fuel does not change the result. *)
Lemma ProcessRestarts_total {W} (ctl : Backend W) BeforeRestart cfg sm w :
  (cfg = None ∨ ∃ rank, ranked rank (Dependencies sm)) →
  ∃ n r, ∀ fuel, n ≤ fuel → ProcessRestarts ctl BeforeRestart fuel cfg sm w = Some r.
Proof.
  intros Hr. unfold ProcessRestarts. destruct (DisableRestarts sm); [by exists 0, (None, {| run_sm := clearRestartsLocked sm;
    run_failed := ∅; run_w := w; run_log := [] |})|].
  assert (∃ wt, outweighs cfg wt sm) as [wt Hwt].
  { destruct Hr as [Hc|[rank Hr]]; eexists; [apply (ranked_outweighs cfg (λ _, 0)); by left|].
    apply (ranked_outweighs cfg rank). by right. }
  set (st := {| run_sm := sm |}).
  destruct (restart_loop_terminates ctl BeforeRestart cfg wt sm Hwt (queue_weight wt (RestartQueue sm)) st)
    as [[e st'] Hl]; [done..|].
  destruct e; eexists (queue_weight wt (RestartQueue sm)), _; intros fuel Hle;
    by rewrite (restart_loop_mono _ _ _ _ _ _ _ Hl Hle).
Qed.

(** C35: [ProcessRestarts] returns, whatever the backend answers and whenever a shutdown
    arrives, when no enabled-service lookup is given (config-driven restarts) or
    the DEPENDS graph has no cycle: some number of rounds is enough, and more
    fuel does not change the result. *)
Theorem ProcessRestarts_terminates {W} (ctl : Backend W) BeforeRestart cfg sm w :
  (cfg = None ∨ ∃ rank, ranked rank (Dependencies sm)) →
  ∃ n r, ∀ fuel, n ≤ fuel → ProcessRestarts ctl BeforeRestart fuel cfg sm w = Some r.
Proof. apply ProcessRestarts_total. Qed.

(** Concrete backends: every call answers as told, no shutdown arrives. *)
Definition steady (restart : option error) : Backend unit :=
  {| ServiceStart _ w := (None, w); ServiceStop _ w := (None, w); ServiceRestart _ w := (restart, w);
     ServiceStatus _ w := (inr true, w); LookupService _ := true; asHost := None;
     ctx_Err w := (false, w) |}.

Definition queued (deps : list (string * list string)) (services : list string) : ServiceManager :=
  foldr (λ s, addRestartLocked s []) (SetDependencies (list_to_map deps) NewServiceManager) services.

Definition chain : list (string * list string) := [("antivirus", ["amavis"]); ("amavis", ["mta"])].
Definition chain_rank (s : string) : nat :=
  if String.eqb s "antivirus" then 2 else if String.eqb s "amavis" then 1 else 0.

Lemma ProcessRestarts_terminates_witness :
  ∃ n r, ∀ fuel, n ≤ fuel →
    ProcessRestarts (steady None) None fuel (Some (λ _, "TRUE")) (queued chain ["antivirus"]) tt = Some r.
Proof.
  apply (ProcessRestarts_terminates (steady None) None (Some (λ _, "TRUE")) (queued chain ["antivirus"]) tt).
  right. exists chain_rank. intros svc l d Hl Hd.
  apply (elem_of_list_to_map_2 chain) in Hl.
  repeat (apply elem_of_cons in Hl as [[= -> ->]|Hl]; [by apply list_elem_of_singleton in Hd as ->; vm_compute; lia|]).
  by apply not_elem_of_nil in Hl.
Defined.

(** ** What becomes of a queued restart *)
Definition succeeded (s : string) (log : list Attempt) : Prop :=
  ∃ a, a ∈ log ∧ at_Service a = s ∧ at_Ok a = true.

Definition failures (s : string) (log : list Attempt) : Z :=
  Z.of_nat (length (filter (λ a, at_Service a = s ∧ at_Ok a = false) log)).

Lemma succeeded_app s log a : succeeded s log → succeeded s (log ++ a).
Proof. intros (x & Hx & H). exists x. rewrite elem_of_app. auto. Qed.

Lemma succeeded_last s log r : succeeded s (log ++ [{| at_Service := s; at_Reasons := r; at_Ok := true |}]).
Proof. eexists. rewrite elem_of_app, list_elem_of_singleton. eauto. Qed.

Lemma failures_snoc s log r :
  failures s (log ++ [{| at_Service := s; at_Reasons := r; at_Ok := false |}]) = (failures s log + 1)%Z.
Proof.
  unfold failures. rewrite filter_app, length_app, filter_cons_True by done. simpl. lia.
Qed.

Lemma failures_app s log log' : (failures s log ≤ failures s (log ++ log'))%Z.
Proof. unfold failures. rewrite filter_app, length_app. lia. Qed.

Lemma addDependencyRestarts_grows svc lookup sm s :
  is_Some (RestartQueue sm !! s) → is_Some (RestartQueue (addDependencyRestarts svc lookup sm) !! s).
Proof.
  intros Hs. unfold addDependencyRestarts. apply foldl_inv; [done|]. intros sm' d _ H.
  unfold queueDependencyRestart, addRestartLogged, addRestartLocked.
  repeat case_match; cbn [RestartQueue set_queue]; try done; rewrite lookup_insert_is_Some';
    by right.
Qed.

Record accounted {W} (sm0 : ServiceManager) (st : Run W) : Prop := {
  acc_settings : same_settings sm0 (run_sm st);
  acc_kept s : is_Some (RestartQueue sm0 !! s) →
    is_Some (RestartQueue (run_sm st) !! s) ∨ succeeded s (run_log st) ∨
    ∃ n, run_failed st !! s = Some n ∧ (MaxFailedRestarts sm0 ≤ n)%Z;
  acc_count s n : run_failed st !! s = Some n → (1 ≤ n ≤ failures s (run_log st))%Z }.

Lemma forget_kept svc sm s : s ≠ svc → is_Some (RestartQueue sm !! s) → is_Some (RestartQueue (forget svc sm) !! s).
Proof. intros. cbn [RestartQueue forget set_queue]. by rewrite lookup_delete_ne. Qed.

Section accounting.
Context {W : Type} (sm0 : ServiceManager) (cfg : option (string → string)).

(** The counter of [svc] after a counted failure, and everybody else's. *)
Lemma count_failure (st : Run W) svc r s n :
  (∀ s n, run_failed st !! s = Some n → (1 ≤ n ≤ failures s (run_log st))%Z) →
  <[svc := (default 0 (run_failed st !! svc) + 1)%Z]> (run_failed st) !! s = Some n →
  (1 ≤ n ≤ failures s (run_log st ++ [{| at_Service := svc; at_Reasons := r; at_Ok := false |}]))%Z.
Proof.
  intros Hc [[<- <-]|[Hne Hn]]%lookup_insert_Some.
  - rewrite failures_snoc. assert (0 ≤ failures svc (run_log st))%Z by (unfold failures; lia).
    destruct (run_failed st !! svc) as [m|] eqn:E; simpl; [apply Hc in E|]; lia.
  - apply Hc in Hn. pose proof (failures_app s (run_log st)
      [{| at_Service := svc; at_Reasons := r; at_Ok := false |}]). lia.
Qed.

Lemma accounted_attempt svc (st : Run W) b st' :
  accounted sm0 st → attempted cfg svc st b st' → accounted sm0 st'.
Proof.
  intros [Hset Hkept Hcount] Ha. split; [by eapply attempted_settings|..].
  - intros s Hs. destruct (decide (s = svc)) as [->|Hne]; destruct (Hkept _ Hs) as [Hq|[Hok|(n & Hn & Hmax)]];
      destruct Ha as [w|w|w Hge|w Hlt]; cbn [run_sm run_failed run_log];
      auto using succeeded_app, succeeded_last, forget_kept;
      try (destruct Hset as [Hmx _]; rewrite ?Hmx in *).
    + right; right. rewrite lookup_insert_eq. eexists; split; [done|lia].
    + right; right. eexists; split; [done|lia].
    + right; right. rewrite lookup_insert_eq, Hn. eexists; split; [done|simpl; lia].
    + right; right. rewrite lookup_insert_eq, Hn. eexists; split; [done|simpl; lia].
    + left. destruct cfg; auto using addDependencyRestarts_grows, forget_kept.
    + right; right. rewrite lookup_delete_ne by done. eauto.
    + right; right. eauto.
    + right; right. rewrite lookup_insert_ne by done. eauto.
    + right; right. rewrite lookup_insert_ne by done. eauto.
  - intros s n. destruct Ha as [w|w|w Hge|w Hlt]; cbn [run_failed run_log]; try (by apply count_failure).
    + intros [Hne Hn]%lookup_delete_Some. apply Hcount in Hn.
      pose proof (failures_app s (run_log st) [{| at_Service := svc; at_Reasons := reasonsOf (run_sm st) svc; at_Ok := true |}]). lia.
    + intros Hn%Hcount.
      pose proof (failures_app s (run_log st) [{| at_Service := svc; at_Reasons := reasonsOf (run_sm st) svc; at_Ok := false |}]). lia.
Qed.
End accounting.

Lemma elem_of_unrecovered {W} (st : Run W) s :
  s ∈ unrecovered st ↔ is_Some (run_failed st !! s) ∨ is_Some (RestartQueue (run_sm st) !! s).
Proof.
  unfold unrecovered. rewrite elem_of_sort_by_key, elem_of_elements, elem_of_union, !elem_of_dom. done.
Qed.

Lemma unrecovered_lt {W} (st : Run W) : StronglySorted (key_lt id) (unrecovered st).
Proof. apply sort_by_key_lt. rewrite list_fmap_id. apply NoDup_elements. Qed.

(** Every result of [ProcessRestarts] accounts for the queue it started with. *)
Lemma ProcessRestarts_accounted {W} (ctl : Backend W) BeforeRestart fuel cfg sm w err st :
  DisableRestarts sm = false →
  ProcessRestarts ctl BeforeRestart fuel cfg sm w = Some (err, st) → accounted sm st.
Proof.
  intros Hd. unfold ProcessRestarts. rewrite Hd.
  set (st0 := {| run_sm := sm |}). destruct (restart_loop _ _ _ _ _) as [[e st']|] eqn:Hl; [|done]. simpl.
  intros Hst. assert (st' = st) as -> by (destruct e; congruence).
  eapply (restart_loop_inv ctl BeforeRestart cfg (accounted sm)); [..|exact Hl].
  - intros ? ? []. by split.
  - intros. by eapply accounted_attempt.
  - split; [done|by left|]. intros s n Hn. exfalso. exact (lookup_empty_Some s n Hn).
Qed.

Lemma is_nil_true {A} (l : list A) : is_nil l = true ↔ l = [].
Proof. by destruct l. Qed.



(** ** The order of the attempts *)
Lemma start_le_trans sm : Transitive (start_le sm).
Proof.
  intros a b c [H|[E H]] [H'|[E' H']]; unfold start_le; [left; lia..|].
  right. split; [congruence|]. by transitivity b.
Qed.

Lemma start_le_total sm : Total (start_le sm).
Proof.
  intros a b. unfold start_le. destruct (Z.lt_total (startOrderOf sm a) (startOrderOf sm b)) as [?|[E|?]];
    [by left; left| |by right; left].
  destruct (total String.le a b); [left|right]; by right.
Qed.

Lemma getSortedServices_sorted sm : StronglySorted (start_le sm) (getSortedServices sm).
Proof.
  pose proof (start_le_trans sm). pose proof (start_le_total sm). by apply StronglySorted_merge_sort.
Qed.

Lemma getSortedServices_perm sm : getSortedServices sm ≡ₚ (map_to_list (RestartQueue sm)).*1.
Proof. apply merge_sort_Permutation. Qed.

Lemma elem_of_getSortedServices sm s : s ∈ getSortedServices sm ↔ is_Some (RestartQueue sm !! s).
Proof.
  rewrite getSortedServices_perm, list_elem_of_fmap. split.
  - intros ([k v] & -> & Hk%elem_of_map_to_list). by eexists.
  - intros [v Hv]. exists (s, v). by rewrite elem_of_map_to_list.
Qed.

Lemma getSortedServices_NoDup sm : NoDup (getSortedServices sm).
Proof. rewrite getSortedServices_perm. apply NoDup_fst_map_to_list. Qed.

Lemma elem_of_sublist {A} (l l' : list A) x : x ∈ l' → l' `sublist_of` l → x ∈ l.
Proof. induction 2; set_solver. Qed.

Lemma StronglySorted_sublist {A} (R : A → A → Prop) l l' :
  l' `sublist_of` l → StronglySorted R l → StronglySorted R l'.
Proof.
  induction 1 as [|x l1 l2 Hs IH|x l1 l2 Hs IH]; intros H; [done|..]; inversion H; subst; auto.
  constructor; [auto|]. apply Forall_forall. intros y Hy.
  by eapply Forall_forall, elem_of_sublist.
Qed.

Section order.
Context {W : Type} (ctl : Backend W) (BeforeRestart : option (string → W → W)).

Lemma attempted_log cfg svc (st : Run W) b st' :
  attempted cfg svc st b st' → ∃ a, at_Service a = svc ∧ run_log st' = run_log st ++ [a].
Proof. destruct 1; eexists; split; try reflexivity; done. Qed.

(** The attempts of a round follow the list it started with. *)
Lemma round_loop_log cfg services processed made st :
  ∃ new, run_log (round_loop ctl BeforeRestart cfg services processed made st).2 = run_log st ++ new ∧
         (at_Service <$> new) `sublist_of` services.
Proof.
  revert processed made st. induction services as [|svc l IH]; intros pr made st; simpl.
  { exists []. by rewrite app_nil_r. }
  destruct (ctx_Err ctl (run_w st)) as [[] w].
  { exists []. split; [by rewrite app_nil_r|apply sublist_nil_l]. }
  destruct (_ || _); [destruct (IH pr made (with_world w st)) as (new & E & Hs); exists new; eauto using sublist_cons|].
  pose proof (attempt_cases ctl BeforeRestart cfg svc (with_world w st)) as (a & Ha & El)%attempted_log.
  destruct (attemptServiceRestart _ _ _ _ _) as [handled st']. simpl in El.
  assert (∀ pr made, ∃ new, run_log (round_loop ctl BeforeRestart cfg l pr made st').2 = run_log st ++ new ∧
    (at_Service <$> new) `sublist_of` svc :: l) as Hgo.
  { intros pr' made'. destruct (IH pr' made' st') as (new & E & Hs). exists (a :: new).
    rewrite E, El, <- app_assoc. split; [done|]. rewrite fmap_cons, Ha. by apply sublist_skip. }
  by destruct handled.
Qed.
End order.

(** A round attempts each service at most once and in start order (unknown services
    last, ties by name), and only services that were queued when it began. *)
Theorem round_in_start_order {W} (ctl : Backend W) BeforeRestart cfg st made st' :
  processRestartRound ctl BeforeRestart cfg st = (made, st') →
  ∃ new, run_log st' = run_log st ++ new ∧
    StronglySorted (start_le (run_sm st)) (at_Service <$> new) ∧ NoDup (at_Service <$> new) ∧
    ∀ a, a ∈ new → is_Some (RestartQueue (run_sm st) !! at_Service a).
Proof.
  intros E. destruct (round_loop_log ctl BeforeRestart cfg (getSortedServices (run_sm st)) ∅ false st)
    as (new & El & Hs). unfold processRestartRound in E. rewrite E in El. exists new. split_and!.
  - done.
  - eapply StronglySorted_sublist; [exact Hs|]. apply getSortedServices_sorted.
  - eapply sublist_NoDup; [|exact Hs]. apply getSortedServices_NoDup.
  - intros a Ha. apply elem_of_getSortedServices. eapply elem_of_sublist; [|exact Hs].
    apply list_elem_of_fmap. eauto.
Qed.

Lemma round_in_start_order_witness :
  ∃ new, at_Service <$> new = ["ldap"; "amavis"; "mta"; "aaa"] ∧
    StronglySorted (start_le (queued [] ["mta"; "aaa"; "amavis"; "ldap"])) (at_Service <$> new).
Proof.
  pose (st := {| run_sm := queued [] ["mta"; "aaa"; "amavis"; "ldap"]; run_failed := ∅; run_w := tt; run_log := [] |}).
  assert (at_Service <$> run_log (processRestartRound (steady None) None None st).2 =
          ["ldap"; "amavis"; "mta"; "aaa"]) as Hr by (vm_compute; reflexivity).
  destruct (processRestartRound (steady None) None None st) as [made st'] eqn:E.
  destruct (round_in_start_order (steady None) None None st made st' E) as (new & El & Hs & _).
  exists new. split; [|exact Hs]. cbn [run_log app st snd] in El, Hr. rewrite <- El. exact Hr.
Defined.

(** ** The reach of the DEPENDS cascade *)

#[local] Open Scope nat_scope.

(** The services a restart of [roots] can lead to. *)
Inductive reach (deps : gmap string (list string)) (roots : list string) : string → Prop :=
  | reach_root r : r ∈ roots → reach deps roots r
  | reach_dep c l d : reach deps roots c → deps !! c = Some l → d ∈ l → reach deps roots (ToLower d).

(** ** The work list *)
Lemma closure_visits ds seen out queue :
  ∃ new, foldl closure_visit (seen, out, queue) ds = (list_to_set new ∪ seen, out ++ new, queue ++ new) ∧
    NoDup new ∧ (∀ x, x ∈ new → (x ∉ seen) ∧ ∃ d, d ∈ ds ∧ x = ToLower d) ∧
    (∀ d, d ∈ ds → ToLower d ∈ (list_to_set new ∪ seen : gset string)).
Proof.
  revert seen out queue. induction ds as [|d ds IH]; intros seen out queue; cbn [foldl].
  { exists []. rewrite !app_nil_r, list_to_set_nil, union_empty_l_L. split_and!; [done|constructor|set_solver..]. }
  unfold closure_visit at 2. case_decide as Hd.
  - destruct (IH seen out queue) as (new & E & Hnd & Hnew & Hall). exists new.
    split_and!; [done|done|set_solver|]. intros d' [->|Hd']%elem_of_cons; set_solver.
  - destruct (IH ({[ToLower d]} ∪ seen) (out ++ [ToLower d]) (queue ++ [ToLower d]))
      as (new & E & Hnd & Hnew & Hall).
    exists (ToLower d :: new). rewrite E, <- !app_assoc. split_and!.
    + f_equal. f_equal. set_solver.
    + constructor; [|done]. intros Hin. apply Hnew in Hin as [Hn _]. set_solver.
    + intros x [->|Hx]%elem_of_cons; [set_solver|]. apply Hnew in Hx. set_solver.
    + intros d' [->|Hd']%elem_of_cons; [set_solver|]. apply Hall in Hd'. set_solver.
Qed.

Section closure.
Variables (deps : gmap string (list string)) (roots : list string).

Definition all_lower : gset string := list_to_set (ToLower <$> all_deps deps).

Record closure_inv (seen : gset string) (out queue : list string) : Prop := {
  cl_seen : seen = list_to_set roots ∪ list_to_set out;
  cl_nodup : NoDup out;
  cl_new x : x ∈ out → x ∉ roots;
  cl_reach x : x ∈ seen → reach deps roots x;
  cl_queue x : x ∈ queue → x ∈ seen;
  cl_closed c l d : c ∈ seen → c ∉ queue → deps !! c = Some l → d ∈ l → ToLower d ∈ seen }.

Lemma closure_inv_init : closure_inv (list_to_set roots) [] roots.
Proof.
  split; [set_solver|constructor|set_solver| |set_solver|set_solver].
  intros x Hx%elem_of_list_to_set. by apply reach_root.
Qed.

(** One turn of the loop keeps the invariant and uses up one unit of the measure
    "queued, plus not seen yet". *)
Lemma closure_step seen out cur queue :
  closure_inv seen out (cur :: queue) →
  ∃ new, foldl closure_visit (seen, out, queue) (default [] (deps !! cur)) =
           (list_to_set new ∪ seen, out ++ new, queue ++ new) ∧
    closure_inv (list_to_set new ∪ seen) (out ++ new) (queue ++ new) ∧
    length (queue ++ new) + size (all_lower ∖ (list_to_set new ∪ seen)) =
    length queue + size (all_lower ∖ seen).
Proof.
  intros [Hseen Hnd Hnew Hreach Hqueue Hclosed].
  destruct (closure_visits (default [] (deps !! cur)) seen out queue) as (new & E & Hnd' & Hn & Hall).
  assert (∀ x, x ∈ new → ∃ l d, deps !! cur = Some l ∧ d ∈ l ∧ x = ToLower d) as Hfrom.
  { intros x Hx. destruct (Hn x Hx) as (_ & d & Hd & ->).
    destruct (deps !! cur) as [l|]; simpl in Hd; [eauto|by apply not_elem_of_nil in Hd]. }
  exists new. split_and!; [done|split|].
  - rewrite list_to_set_app_L, Hseen. set_solver.
  - apply NoDup_app. split_and!; [done| |done]. intros x Hx Hx'. apply Hn in Hx' as [Hx' _]. set_solver.
  - intros x [Hx|Hx]%elem_of_app; [by apply Hnew|]. apply Hn in Hx as [Hx _]. set_solver.
  - intros x [Hx|Hx]%elem_of_union; [|by apply Hreach].
    apply elem_of_list_to_set, Hfrom in Hx as (l & d & Hl & Hd & ->).
    eapply reach_dep; [|done..]. apply Hreach, Hqueue. by left.
  - intros x [Hx|Hx]%elem_of_app; [|set_solver]. apply elem_of_union_r, Hqueue. by right.
  - intros c l d Hc Hq Hl Hd. rewrite elem_of_app in Hq.
    destruct (decide (c = cur)) as [->|Hne]; [apply Hall; by rewrite Hl|].
    apply elem_of_union_r. apply (Hclosed c l d); [set_solver|set_solver|done..].
  - assert (all_lower ∖ seen = list_to_set new ∪ all_lower ∖ (list_to_set new ∪ seen)) as ->.
    { apply set_eq. intros x. rewrite elem_of_union, !elem_of_difference, elem_of_union, elem_of_list_to_set.
      split; [destruct (decide (x ∈ new)); tauto|]. intros [Hx|?]; [|tauto].
      split; [|by apply Hn]. destruct (Hfrom x Hx) as (l & d & Hl & Hd & ->).
      apply elem_of_list_to_set, list_elem_of_fmap. exists d. rewrite elem_of_all_deps. eauto. }
    assert (list_to_set new ## all_lower ∖ (list_to_set new ∪ seen)) as Hdisj by set_solver.
    rewrite (size_union _ _ Hdisj), (size_list_to_set (C := gset string) new Hnd'), length_app. lia.
Qed.

Lemma closure_loop_inv fuel seen out queue :
  closure_inv seen out queue → length queue + size (all_lower ∖ seen) ≤ fuel →
  ∃ seen', closure_inv seen' (closure_loop fuel deps seen out queue) [].
Proof.
  revert seen out queue. induction fuel as [|fuel IH]; intros seen out [|cur queue] Hinv Hf;
    cbn [closure_loop]; [by exists seen|simpl in Hf; lia|by exists seen|].
  destruct (closure_step seen out cur queue Hinv) as (new & -> & Hinv' & Hm).
  apply IH; [done|]. simpl in Hf. lia.
Qed.

Lemma closure_inv_done seen out : closure_inv seen out [] → ∀ x, x ∈ seen ↔ reach deps roots x.
Proof.
  intros [Hseen _ _ Hreach _ Hclosed] x. split; [apply Hreach|].
  induction 1 as [r Hr|c l d Hc IH Hl Hd]; [set_solver|].
  apply (Hclosed c l d); [done|apply not_elem_of_nil|done..].
Qed.

Lemma size_all_lower : size all_lower ≤ length (all_deps deps).
Proof.
  unfold all_lower. rewrite <- (length_fmap ToLower). generalize (ToLower <$> all_deps deps). clear.
  intros l. induction l as [|x l IH]; [done|].
  rewrite list_to_set_cons, size_union_alt, size_singleton. simpl.
  assert (size (list_to_set l ∖ {[x]} : gset string) ≤ size (list_to_set l : gset string))
    by (apply subseteq_size; set_solver). lia.
Qed.

Lemma closure_result :
  ∃ seen, closure_inv seen (closure_loop (closure_fuel deps roots) deps (list_to_set roots) [] roots) [].
Proof.
  apply (closure_loop_inv _ _ _ _ closure_inv_init).
  unfold closure_fuel. fold (all_deps deps). pose proof size_all_lower.
  assert (size (all_lower ∖ list_to_set roots) ≤ size all_lower) by (apply subseteq_size; set_solver). lia.
Qed.
End closure.

Lemma elem_of_DependencyClosure deps roots s :
  s ∈ DependencyClosure deps roots ↔ reach deps roots s ∧ s ∉ roots.
Proof.
  destruct (closure_result deps roots) as (seen & Hinv).
  pose proof (closure_inv_done deps roots _ _ Hinv) as Hr. destruct Hinv as [Hseen _ Hnew _ _ _].
  unfold DependencyClosure. rewrite elem_of_sort_by_key, <- Hr, Hseen. split.
  - intros Hs. split; [set_solver|by apply Hnew].
  - intros [Hs Hn]. set_solver.
Qed.

(** [DependencyClosure] is exactly the services reachable from the roots along
    DEPENDS (names lower-cased), without the roots, strictly sorted: the fuel of
    its loop is enough for every dependency map, cyclic ones included. *)
Theorem DependencyClosure_spec deps roots :
  StronglySorted (key_lt id) (DependencyClosure deps roots) ∧
  ∀ s, s ∈ DependencyClosure deps roots ↔ reach deps roots s ∧ s ∉ roots.
Proof.
  split; [|intros s; apply elem_of_DependencyClosure].
  destruct (closure_result deps roots) as (seen & [_ Hnd _ _ _ _]).
  apply sort_by_key_lt. by rewrite list_fmap_id.
Qed.

(** ** The services a run touches *)
Lemma addDependencyRestarts_from svc lookup sm s :
  is_Some (RestartQueue (addDependencyRestarts svc lookup sm) !! s) →
  is_Some (RestartQueue sm !! s) ∨ ∃ l d, Dependencies sm !! svc = Some l ∧ d ∈ l ∧ s = ToLower d.
Proof.
  unfold addDependencyRestarts. destruct (Dependencies sm !! svc) as [l|] eqn:E; cbn [default]; [|by left].
  intros H. cut (is_Some (RestartQueue sm !! s) ∨ ∃ d, d ∈ l ∧ s = ToLower d); [naive_solver|].
  revert H. cbn [from_option id]. apply (foldl_inv (λ sm', is_Some (RestartQueue sm' !! s) →
    is_Some (RestartQueue sm !! s) ∨ ∃ d, d ∈ l ∧ s = ToLower d)); [by left|].
  intros sm' d Hd IH. unfold queueDependencyRestart, addRestartLogged, addRestartLocked.
  repeat case_match; cbn [RestartQueue set_queue]; try done;
    rewrite ToLower_idem; intros [?|?]%lookup_insert_is_Some'; eauto.
Qed.

Lemma forget_from svc sm s : is_Some (RestartQueue (forget svc sm) !! s) → is_Some (RestartQueue sm !! s).
Proof. cbn [RestartQueue forget set_queue]. by intros [_ ?]%lookup_delete_is_Some. Qed.

(** What a run may touch: what was queued and, with a lookup, what it leads to. *)
Definition in_scope (cfg : option (string → string)) (sm0 : ServiceManager) (s : string) : Prop :=
  match cfg with
  | None => is_Some (RestartQueue sm0 !! s)
  | Some _ => reach (Dependencies sm0) (GetPendingRestarts sm0) s
  end.

Definition scoped {W} cfg (sm0 : ServiceManager) (st : Run W) : Prop :=
  same_settings sm0 (run_sm st) ∧
  (∀ s, is_Some (RestartQueue (run_sm st) !! s) → in_scope cfg sm0 s) ∧
  (∀ a, a ∈ run_log st → in_scope cfg sm0 (at_Service a)).

Lemma scoped_attempt {W} cfg sm0 svc (st : Run W) b st' :
  RestartQueue (run_sm st) !! svc = Some true →
  scoped cfg sm0 st → attempted cfg svc st b st' → scoped cfg sm0 st'.
Proof.
  intros Hsvc (Hset & Hq & Hlog) Ha. assert (in_scope cfg sm0 svc) as Hin by (apply Hq; eauto).
  split_and!; [by eapply attempted_settings| |].
  - intros s Hs. destruct Ha; cbn [run_sm] in Hs; eauto using forget_from.
    destruct cfg as [lookup|]; [|eauto using forget_from].
    apply addDependencyRestarts_from in Hs as [Hs|(l & d & Hl & Hd & ->)]; [eauto using forget_from|].
    change (Dependencies (forget svc (run_sm st))) with (Dependencies (run_sm st)) in Hl.
    destruct Hset as (_ & _ & Hdeps & _). rewrite Hdeps in Hl. by eapply reach_dep.
  - destruct (attempted_log cfg svc st b st' Ha) as (a & Hsa & ->).
    intros a' [?|Hl%list_elem_of_singleton]%elem_of_app; [auto|]. by rewrite Hl, Hsa.
Qed.

Lemma elem_of_GetPendingRestarts sm s : s ∈ GetPendingRestarts sm ↔ is_Some (RestartQueue sm !! s).
Proof.
  unfold GetPendingRestarts. rewrite list_elem_of_fmap. split.
  - intros ([k v] & -> & Hk%elem_of_map_to_list). by eexists.
  - intros [v Hv]. exists (s, v). by rewrite elem_of_map_to_list.
Qed.

(** A run of [ProcessRestarts] without a lookup attempts only services that were
    queued (config-driven restarts never cascade); with a lookup it attempts
    only queued services and members of their [DependencyClosure]. *)
Theorem ProcessRestarts_scope {W} (ctl : Backend W) BeforeRestart fuel cfg sm w err st a :
  ProcessRestarts ctl BeforeRestart fuel cfg sm w = Some (err, st) → a ∈ run_log st →
  is_Some (RestartQueue sm !! at_Service a) ∨
  (cfg ≠ None ∧ at_Service a ∈ DependencyClosure (Dependencies sm) (GetPendingRestarts sm)).
Proof.
  unfold ProcessRestarts. destruct (DisableRestarts sm);
    [intros [= <- <-] Ha; by apply not_elem_of_nil in Ha|].
  set (st0 := {| run_sm := sm |}). destruct (restart_loop _ _ _ _ _) as [[e st']|] eqn:Hl; [|done]. simpl.
  intros Hst Ha. assert (st' = st) as -> by (destruct e; congruence). clear Hst.
  assert (scoped cfg sm st) as (_ & _ & Hlog).
  { eapply (restart_loop_inv ctl BeforeRestart cfg (scoped cfg sm)); [..|exact Hl].
    - intros ? ? ?. done.
    - intros. by eapply scoped_attempt.
    - split_and!; [done| |by intros ? ?%not_elem_of_nil]. intros s Hs. destruct cfg; [|done].
      by apply reach_root, elem_of_GetPendingRestarts. }
  specialize (Hlog a Ha). rewrite elem_of_DependencyClosure. destruct cfg; [|by left].
  rewrite elem_of_GetPendingRestarts. destruct (RestartQueue sm !! at_Service a) eqn:E; [by left; eexists|].
  right. split_and!; [done..|by intros []].
Qed.

Definition demo_run := ProcessRestarts (steady None) None 9 (Some (λ _, "TRUE")) (queued chain ["antivirus"]) tt.

Lemma ProcessRestarts_scope_witness :
  ∃ err st, demo_run = Some (err, st) ∧ (at_Service <$> run_log st) = ["antivirus"; "amavis"; "mta"] ∧
    ∀ a, a ∈ run_log st → is_Some (RestartQueue (queued chain ["antivirus"]) !! at_Service a) ∨
      (Some (λ _ : string, "TRUE") ≠ None ∧ at_Service a ∈ DependencyClosure (list_to_map chain) ["antivirus"]).
Proof.
  assert ((λ r, at_Service <$> run_log r.2) <$> demo_run = Some ["antivirus"; "amavis"; "mta"]) as Hr
    by (vm_compute; reflexivity).
  destruct demo_run as [[err st]|] eqn:E; [|discriminate Hr]. exists err, st.
  split; [reflexivity|]. split; [by injection Hr|]. intros a.
  exact (ProcessRestarts_scope (steady None) None 9 (Some (λ _, "TRUE")) (queued chain ["antivirus"]) tt err st a E).
Defined.

(** ** Restarts that all fail *)
Section all_fail.
Context {W : Type} (ctl : Backend W) (BeforeRestart : option (string → W → W)).
Variable cfg : option (string → string).
Hypothesis restart_fails : ∀ svc w, (ServiceRestart ctl svc w).1 ≠ None.
Hypothesis never_cancelled : ∀ w, (ctx_Err ctl w).1 = false.

Lemma attempt_fails svc (st : Run W) :
  run_failed st !! svc = None → (1 < MaxFailedRestarts (run_sm st))%Z →
  ∃ w a, at_Service a = svc ∧ attemptServiceRestart ctl BeforeRestart cfg svc st =
    (false, {| run_sm := run_sm st; run_failed := <[svc := 1%Z]> (run_failed st); run_w := w;
               run_log := run_log st ++ [a] |}).
Proof using restart_fails never_cancelled.
  intros Hf Hmax. unfold attemptServiceRestart, ControlProcess.
  repeat (rewrite decide_False by done). rewrite decide_True by done.
  match goal with |- context [ServiceRestart ctl ?s ?w] => specialize (restart_fails s w);
    destruct (ServiceRestart ctl s w) as [[e|] w1] end; [|done].
  pose proof (never_cancelled w1) as Hc. destruct (ctx_Err ctl w1) as [c w2]. simpl in Hc. subst c.
  rewrite Hf. cbn [default from_option]. destruct (Z.leb_spec (MaxFailedRestarts (run_sm st)) (0 + 1)); [lia|].
  eexists _, _. split; [|reflexivity]. done.
Qed.

Lemma round_loop_fails services (st : Run W) :
  NoDup services → (1 < MaxFailedRestarts (run_sm st))%Z →
  (∀ s, s ∈ services → RestartQueue (run_sm st) !! s = Some true ∧ run_failed st !! s = None) →
  ∃ st' new, round_loop ctl BeforeRestart cfg services ∅ false st = (false, st') ∧
    run_sm st' = run_sm st ∧ run_log st' = run_log st ++ new ∧ at_Service <$> new = services ∧
    ∀ s, is_Some (run_failed st' !! s) ↔ is_Some (run_failed st !! s) ∨ s ∈ services.
Proof using restart_fails never_cancelled.
  intros Hnd Hmax. revert st Hmax. induction Hnd as [|svc l Hni Hnd IH]; intros st Hmax Hall; cbn [round_loop].
  { exists st, []. rewrite app_nil_r. split_and!; try done. intros s. rewrite elem_of_nil. tauto. }
  pose proof (never_cancelled (run_w st)) as Hc. destruct (ctx_Err ctl (run_w st)) as [c w]. simpl in Hc. subst c.
  destruct (Hall svc (list_elem_of_here _ _)) as [Hq Hf]. cbn [run_sm with_world]. rewrite Hq.
  rewrite bool_decide_eq_false_2 by set_solver. cbn [default from_option negb orb id].
  destruct (attempt_fails svc (with_world w st) Hf Hmax) as (w' & a & Ha & ->).
  edestruct (IH {| run_sm := run_sm st; run_failed := <[svc := 1%Z]> (run_failed st); run_w := w';
    run_log := run_log st ++ [a] |}) as (st' & new & E & Hsm & Hlog & Hserv & Hfail); [done|..].
  { intros s Hs. destruct (Hall s) as [? ?]; [by right|]. split; [done|]. cbn [run_failed].
    rewrite lookup_insert_ne by (intros ->; done). done. }
  exists st', (a :: new). cbn [run_sm run_failed run_log with_world] in *. split_and!.
  - done.
  - done.
  - by rewrite Hlog, <- app_assoc.
  - by rewrite fmap_cons, Ha, Hserv.
  - intros s. rewrite Hfail, lookup_insert_is_Some', elem_of_cons. naive_solver.
Qed.
End all_fail.

(** When every restart fails and no shutdown arrives, one call attempts each queued
    service exactly once, in start order, leaves the queue as it was and reports
    all of it: [MaxFailedRestarts] neither retries nor drops anything in such a
    call, because a retry needs another service that makes progress. *)
Theorem ProcessRestarts_all_fail {W} (ctl : Backend W) BeforeRestart cfg fuel sm w :
  (∀ svc w, (ServiceRestart ctl svc w).1 ≠ None) → (∀ w, (ctx_Err ctl w).1 = false) →
  DisableRestarts sm = false → (1 < MaxFailedRestarts sm)%Z →
  RestartQueue sm ≠ ∅ → map_Forall (λ _ v, v = true) (RestartQueue sm) →
  ∃ failed st, ProcessRestarts ctl BeforeRestart (S fuel) cfg sm w = Some (Some (ErrRestartsFailed failed), st) ∧
    run_sm st = sm ∧ at_Service <$> run_log st = getSortedServices sm ∧
    ∀ s, s ∈ failed ↔ is_Some (RestartQueue sm !! s).
Proof.
  intros Hfails Hctx Hd Hmax Hne Hall. unfold ProcessRestarts. rewrite Hd. cbn [restart_loop run_sm].
  rewrite decide_False by done. set (st0 := {| run_sm := sm |}).
  destruct (round_loop_fails ctl BeforeRestart cfg Hfails Hctx (getSortedServices sm) st0)
    as (st' & new & E & Hsm & Hlog & Hserv & Hfail); [apply getSortedServices_NoDup|done|..].
  { intros s [v Hs]%elem_of_getSortedServices. split; [|done]. rewrite <- (Hall s v Hs). done. }
  unfold processRestartRound. cbn [run_sm st0]. rewrite E.
  pose proof (Hctx (run_w st')) as Hc. destruct (ctx_Err ctl (run_w st')) as [c w']. simpl in Hc. subst c.
  cbn [mbind option_bind]. assert (∀ s, s ∈ unrecovered (with_world w' st') ↔ is_Some (RestartQueue sm !! s)) as Hun.
  { intros s. rewrite elem_of_unrecovered. cbn [run_failed run_sm with_world].
    rewrite Hfail, Hsm, elem_of_getSortedServices. cbn [st0 run_failed]. rewrite lookup_empty. split; [|auto].
    by intros [[[]|]|]. }
  destruct (is_nil (unrecovered (with_world w' st'))) eqn:En.
  { apply is_nil_true in En. rewrite En in Hun. exfalso. apply map_choose in Hne as (k & v & Hk).
    apply (not_elem_of_nil k), Hun. eauto. }
  eexists _, _. split_and!; [done|done| |done]. cbn [run_log with_world]. by rewrite Hlog.
Qed.

Lemma ProcessRestarts_all_fail_witness :
  ∃ failed st, ProcessRestarts (steady (Some "exit status 1")) None 1 None (queued [] ["mta"]) tt =
    Some (Some (ErrRestartsFailed failed), st) ∧ run_sm st = queued [] ["mta"].
Proof.
  assert (RestartQueue (queued [] ["mta"]) = {["mta" := true]}) as Hq by (vm_compute; reflexivity).
  destruct (ProcessRestarts_all_fail (steady (Some "exit status 1")) None None 0 (queued [] ["mta"]) tt)
    as (failed & st & E & Hsm & _).
  - intros svc w. discriminate.
  - reflexivity.
  - reflexivity.
  - reflexivity.
  - rewrite Hq. apply insert_non_empty.
  - rewrite Hq. by apply map_Forall_singleton.
  - exists failed, st. split; [exact E|exact Hsm].
Defined.

(** ** Cyclic DEPENDS *)
Section cyclic.
Context {W : Type} (ctl : Backend W) (BeforeRestart : option (string → W → W)).
Variables (lookup : string → string) (C : string → Prop) (sm0 : ServiceManager).
Hypothesis restart_succeeds : ∀ svc w, (ServiceRestart ctl svc w).1 = None.
Hypothesis never_cancelled : ∀ w, (ctx_Err ctl w).1 = false.
Hypothesis all_enabled : ∀ key, IsTruthy (lookup key) = true.
Hypothesis C_cyclic : ∀ s, C s → ∃ l d, Dependencies sm0 !! s = Some l ∧ d ∈ l ∧ C (ToLower d).

(** A service of the cycle is queued, and nothing is queued as false. *)
Definition cycling (st : Run W) : Prop :=
  same_settings sm0 (run_sm st) ∧ (∃ s, C s ∧ is_Some (RestartQueue (run_sm st) !! s)) ∧
  map_Forall (λ _ v, v = true) (RestartQueue (run_sm st)).

Lemma addDependencyRestarts_true svc sm :
  map_Forall (λ _ v, v = true) (RestartQueue sm) →
  map_Forall (λ _ v, v = true) (RestartQueue (addDependencyRestarts svc lookup sm)).
Proof.
  intros H. unfold addDependencyRestarts. apply foldl_inv; [done|]. intros sm' d _ Hsm.
  unfold queueDependencyRestart, addRestartLogged, addRestartLocked.
  repeat case_match; cbn [RestartQueue set_queue]; try done; by apply map_Forall_insert_2.
Qed.

Lemma addDependencyRestarts_adds svc sm l d :
  Dependencies sm !! svc = Some l → d ∈ l →
  is_Some (RestartQueue (addDependencyRestarts svc lookup sm) !! ToLower d).
Proof using all_enabled.
  intros Hl Hd. unfold addDependencyRestarts. rewrite Hl. cbn [default from_option id].
  assert (∀ sm' d', RestartQueue (queueDependencyRestart (ToLower d') (reason_string
    (service_reason ReasonDependency svc)) lookup sm') = <[ToLower d' := true]> (RestartQueue sm')) as Hq.
  { intros sm' d'. unfold queueDependencyRestart, addRestartLogged, addRestartLocked.
    rewrite all_enabled. case_match; cbn [RestartQueue set_queue orb]; by rewrite ToLower_idem. }
  eapply (foldl_reach (λ sm', is_Some (RestartQueue sm' !! ToLower d))); [exact Hd|..].
  - intros sm'. rewrite Hq, lookup_insert_eq. by eexists.
  - intros sm' d' _ Hs. rewrite Hq. apply lookup_insert_is_Some'. by right.
Qed.

Lemma attempt_cycling svc st : cycling st →
  let '(handled, st') := attemptServiceRestart ctl BeforeRestart (Some lookup) svc st in
  handled = true ∧ cycling st'.
Proof using restart_succeeds all_enabled C_cyclic.
  intros (Hset & (s & Hs & Hq) & Htrue). unfold attemptServiceRestart, ControlProcess.
  repeat (rewrite decide_False by done). rewrite decide_True by done.
  match goal with |- context [ServiceRestart ctl ?s ?w] => pose proof (restart_succeeds s w) as Hok;
    destruct (ServiceRestart ctl s w) as [e w1] end. simpl in Hok. subst e. split; [done|].
  pose proof (map_Forall_delete (λ (_ : string) v, v = true) (RestartQueue (run_sm st)) svc Htrue) as Htrue'.
  split_and!; cbn [run_sm].
  - exact (attempted_settings sm0 (Some lookup) svc st true _ Hset (attempted_ok _ _ _ w1)).
  - destruct (decide (s = svc)) as [->|Hne].
    + destruct (C_cyclic svc Hs) as (l & d & Hl & Hd & Hc). exists (ToLower d). split; [done|].
      eapply addDependencyRestarts_adds; [|exact Hd]. destruct Hset as (_ & _ & E & _).
      transitivity (Dependencies (run_sm st) !! svc); [done|]. by rewrite E.
    + exists s. split; [done|]. by apply addDependencyRestarts_grows, forget_kept.
  - by apply addDependencyRestarts_true.
Qed.

Lemma round_loop_cycling services processed made st : cycling st →
  let '(made', st') := round_loop ctl BeforeRestart (Some lookup) services processed made st in
  cycling st' ∧ (made' = true ∨ (made' = made ∧
    ∀ s, head services = Some s → s ∉ processed → RestartQueue (run_sm st) !! s = None)).
Proof using restart_succeeds never_cancelled all_enabled C_cyclic.
  revert processed made st. induction services as [|svc l IH]; intros pr made st Hst; cbn [round_loop].
  { split; [done|]. right. split; [done|]. intros s [=]. }
  pose proof (never_cancelled (run_w st)) as Hc. destruct (ctx_Err ctl (run_w st)) as [c w]. simpl in Hc. subst c.
  cbn [run_sm with_world]. destruct (RestartQueue (run_sm st) !! svc) as [v|] eqn:Eq.
  - assert (v = true) as -> by (by eapply (proj2 (proj2 Hst))). cbn [default from_option negb orb id].
    case_bool_decide as Hp.
    + specialize (IH pr made (with_world w st) Hst). destruct (round_loop _ _ _ _ _ _ _) as [made' st'].
      destruct IH as [? [?|[-> _]]]; [by auto|]. split; [done|]. right. split; [done|]. intros s [= <-]. done.
    + pose proof (attempt_cycling svc (with_world w st) Hst) as Ha.
      destruct (attemptServiceRestart _ _ _ _ _) as [handled st1]. destruct Ha as [-> Hst1].
      specialize (IH ({[svc]} ∪ pr) true st1 Hst1). destruct (round_loop _ _ _ _ _ _ _) as [made' st'].
      destruct IH as [? [->|[-> _]]]; auto.
  - cbn [default from_option negb orb]. specialize (IH pr made (with_world w st) Hst).
    destruct (round_loop _ _ _ _ _ _ _) as [made' st']. destruct IH as [? [?|[-> _]]]; [by auto|].
    split; [done|]. right. split; [done|]. by intros s [= <-].
Qed.

Lemma restart_loop_cycling fuel st : cycling st → restart_loop ctl BeforeRestart fuel (Some lookup) st = None.
Proof using restart_succeeds never_cancelled all_enabled C_cyclic.
  revert st. induction fuel as [|fuel IH]; intros st Hst; cbn [restart_loop];
    destruct (Hst) as (_ & (s & _ & Hs) & _);
    (rewrite decide_False by (intros Hemp; rewrite Hemp, lookup_empty in Hs; by destruct Hs)); [done|].
  pose proof (round_loop_cycling (getSortedServices (run_sm st)) ∅ false st Hst) as Hr.
  unfold processRestartRound. destruct (round_loop _ _ _ _ _ _ _) as [made st1]. destruct Hr as [Hst1 Hmade].
  pose proof (never_cancelled (run_w st1)) as Hc. destruct (ctx_Err ctl (run_w st1)) as [c w]. simpl in Hc. subst c.
  destruct Hmade as [->|[_ Hhead]]; [by apply IH|]. exfalso.
  destruct (getSortedServices (run_sm st)) as [|x l] eqn:E.
  - apply elem_of_getSortedServices in Hs. rewrite E in Hs. by apply not_elem_of_nil in Hs.
  - assert (is_Some (RestartQueue (run_sm st) !! x)) as [v Hv] by (apply elem_of_getSortedServices; rewrite E; by left).
    rewrite (Hhead x) in Hv; [done|done|set_solver].
Qed.
End cyclic.

(** With a cycle of DEPENDS whose services are enabled, [ProcessRestarts] never
    returns once a service of the cycle is queued and the restarts succeed: no
    number of rounds is enough (the cascade has no visited set). *)
Theorem ProcessRestarts_cycle_diverges {W} (ctl : Backend W) BeforeRestart lookup (C : string → Prop) sm w fuel :
  (∀ svc w, (ServiceRestart ctl svc w).1 = None) → (∀ w, (ctx_Err ctl w).1 = false) →
  (∀ key, IsTruthy (lookup key) = true) →
  (∀ s, C s → ∃ l d, Dependencies sm !! s = Some l ∧ d ∈ l ∧ C (ToLower d)) →
  DisableRestarts sm = false → map_Forall (λ _ v, v = true) (RestartQueue sm) →
  (∃ s, C s ∧ is_Some (RestartQueue sm !! s)) →
  ProcessRestarts ctl BeforeRestart fuel (Some lookup) sm w = None.
Proof.
  intros Hok Hctx Hen Hcyc Hd Htrue Hs. unfold ProcessRestarts. rewrite Hd.
  by erewrite (restart_loop_cycling ctl BeforeRestart lookup C sm).
Qed.

Lemma ProcessRestarts_cycle_diverges_witness :
  ProcessRestarts (steady None) None 1000 (Some (λ _, "TRUE"))
    (queued [("mta", ["amavis"]); ("amavis", ["mta"])] ["mta"]) tt = None.
Proof.
  assert (RestartQueue (queued [("mta", ["amavis"]); ("amavis", ["mta"])] ["mta"]) = {["mta" := true]}) as Hq
    by (vm_compute; reflexivity).
  apply (ProcessRestarts_cycle_diverges (steady None) None (λ _, "TRUE") (λ s, s = "mta" ∨ s = "amavis")).
  - reflexivity.
  - reflexivity.
  - reflexivity.
  - intros s [->| ->]; eexists _, _; (split; [vm_compute; reflexivity|split; [by left|]]); [by right|by left].
  - reflexivity.
  - rewrite Hq. by apply map_Forall_singleton.
  - exists "mta". split; [by left|]. rewrite Hq. by eexists.
Defined.
