(* ===== verification/Restart.v ===== *)
(** * Restart: internal/restart/policy.go

    The restart policy of a cycle: what it hands to the service manager, what it
    flags as pending, what it holds back while debouncing, and what it returns to
    be carried into the next cycle.

    The policy is written against the interface [Manager], as the code is against
    [services.Manager] and [restart.Systemd]; the end of the file gives the
    instance that the service manager of [Services] is. *)
From S2P Require Import Prelude Config Plan Services ServicesProps.

#[local] Open Scope Z_scope.

(** ** The interface of the policy to the service manager

    [M] is the state of the manager and of the host behind it.  [pending m s]
    says that [s] is queued; the laws are what the policy relies on. *)
Class Manager (M : Type) := {
  mgr_AddRestartWithReasons : string → list string → M → option error * M;
  mgr_ProcessRestarts : M → option RestartsError * M;
  mgr_ApplySystemd : string → Action → M → option error * M;
  mgr_SystemdMode : M → bool;
  mgr_ctx_Err : M → bool * M;
  mgr_SetDependencies : gmap string (list string) → M → M;
  pending : M → string → Prop;
  pending_add s rs m : (mgr_AddRestartWithReasons s rs m).1 = None →
    pending (mgr_AddRestartWithReasons s rs m).2 (ToLower s);
  pending_add_other s rs m s' : pending m s' → pending (mgr_AddRestartWithReasons s rs m).2 s'
}.

(** ** State *)
Record Settings := { Enabled : bool; Debounce : Z }.

Record pendingRestart := {
  pr_action : Action; pr_reasons : list string; pr_kinds : list string; pr_lastRequest : Z }.

(** A call the policy makes on the manager or on the units. *)
Inductive Call :=
  | CallAdd (service : string) (reasons : list string)
  | CallApply (service : string) (action : Action)
  | CallProcess.

Section policy.
Context {M : Type} `{Manager M}.
Local Open Scope Z_scope.

(** [withSystemd] is whether a systemd host was attached; [requested] stands for
    the metrics registry, [calls] for the calls made so far. *)
Record Policy := {
  pol_withSystemd : bool;
  pol_pending : gmap string pendingRestart;
  pol_failures : gmap string Z;
  pol_requested : list (string * list string);
  pol_mgr : M;
  pol_calls : list Call }.

Definition maxAttempts : Z := 3.

Definition NewPolicy (withSystemd : bool) (m : M) : Policy :=
  {| pol_withSystemd := withSystemd; pol_pending := ∅; pol_failures := ∅; pol_requested := [];
     pol_mgr := m; pol_calls := [] |}.

Definition set_pending (f : gmap string pendingRestart → gmap string pendingRestart) (p : Policy) : Policy :=
  {| pol_withSystemd := pol_withSystemd p; pol_pending := f (pol_pending p);
     pol_failures := pol_failures p; pol_requested := pol_requested p; pol_mgr := pol_mgr p;
     pol_calls := pol_calls p |}.

Definition set_failures (f : gmap string Z → gmap string Z) (p : Policy) : Policy :=
  {| pol_withSystemd := pol_withSystemd p; pol_pending := pol_pending p;
     pol_failures := f (pol_failures p); pol_requested := pol_requested p; pol_mgr := pol_mgr p;
     pol_calls := pol_calls p |}.

Definition RestartRequested (service : string) (kinds : list string) (p : Policy) : Policy :=
  {| pol_withSystemd := pol_withSystemd p; pol_pending := pol_pending p;
     pol_failures := pol_failures p; pol_requested := pol_requested p ++ [(service, kinds)];
     pol_mgr := pol_mgr p; pol_calls := pol_calls p |}.

(** A call on the manager: its new state, and the call in the trace. *)
Definition called (c : Call) (m : M) (p : Policy) : Policy :=
  {| pol_withSystemd := pol_withSystemd p; pol_pending := pol_pending p;
     pol_failures := pol_failures p; pol_requested := pol_requested p; pol_mgr := m;
     pol_calls := pol_calls p ++ [c] |}.

Definition set_mgr (m : M) (p : Policy) : Policy :=
  {| pol_withSystemd := pol_withSystemd p; pol_pending := pol_pending p;
     pol_failures := pol_failures p; pol_requested := pol_requested p; pol_mgr := m;
     pol_calls := pol_calls p |}.

Definition SystemdMode (p : Policy) : bool := pol_withSystemd p && mgr_SystemdMode (pol_mgr p).

(** ** Acting on one request *)

(** A failed attempt: counted, and given up at [maxAttempts]. *)
Definition count_attempt (service : string) (p : Policy) : bool * Policy :=
  let n := default 0 (pol_failures p !! service) + 1 in
  if maxAttempts <=? n then (false, set_failures (delete service) p)
  else (true, set_failures (insert service n) p).

Definition queueLegacy (service : string) (reasons kinds : list string) (p : Policy) : bool * Policy :=
  let '(err, m) := mgr_AddRestartWithReasons service reasons (pol_mgr p) in
  let p := called (CallAdd service reasons) m p in
  match err with
  | Some _ => count_attempt service p
  | None => (false, RestartRequested service kinds (set_failures (delete service) p))
  end.

Definition applySystemd (service : string) (action : Action) (kinds : list string) (p : Policy) : bool * Policy :=
  let '(err, m) := mgr_ApplySystemd service action (pol_mgr p) in
  let p := called (CallApply service action) m p in
  match err with
  | None => (false, RestartRequested service kinds (set_failures (delete service) p))
  | Some _ =>
      let '(cancelled, m) := mgr_ctx_Err (pol_mgr p) in
      let p := set_mgr m p in
      if cancelled : bool then (false, p) else count_attempt service p
  end.

Definition dispatch (service : string) (action : Action) (reasons kinds : list string) (p : Policy) :
  bool * Policy :=
  if negb (SystemdMode p) then queueLegacy service reasons kinds p
  else match Classify action service true with
  | ActionPendingRestart => (false, p)
  | _ => applySystemd service action kinds p
  end.

Definition reasonKinds (reasons : list Reason) : list string :=
  sort_by_key id (append_uniques [] ((λ r, kind_string (Kind r)) <$> reasons)).

(** ** The queue, the debounce window and the cycle *)
Definition queue_step (st : list Restart * Policy) (e : Restart) : list Restart * Policy :=
  let '(carry, p) := st in
  let '(retry, p) := dispatch (r_Service e) (r_Action e) (Strings (r_Reasons e)) (reasonKinds (r_Reasons e)) p in
  (if retry : bool then carry ++ [e] else carry, p).

Definition queue (restarts : list Restart) (p : Policy) : list Restart * Policy :=
  foldl queue_step ([], p) restarts.

Definition record_one (now : Z) (p : Policy) (e : Restart) : Policy :=
  let r := pol_pending p !! r_Service e in
  set_pending (insert (r_Service e)
    {| pr_action := r_Action e;
       pr_reasons := append_uniques (from_option pr_reasons [] r) (Strings (r_Reasons e));
       pr_kinds := append_uniques (from_option pr_kinds [] r) (reasonKinds (r_Reasons e));
       pr_lastRequest := now |}) p.

Definition record (restarts : list Restart) (now : Z) (p : Policy) : Policy :=
  foldl (record_one now) p restarts.

Definition flush_one (due : pendingRestart → bool) (p : Policy) (name : string) : Policy :=
  match pol_pending p !! name with
  | None => p
  | Some r =>
      if negb (due r) then p
      else
        let '(retry, p) := dispatch name (pr_action r) (pr_reasons r) (pr_kinds r) p in
        if retry : bool then p else set_pending (delete name) p
  end.

Definition flush (due : pendingRestart → bool) (p : Policy) : Policy :=
  foldl (flush_one due) p (sorted_keys (pol_pending p)).

(** Errors of the run are only logged. *)
Definition process (p : Policy) : Policy :=
  let '(_, m) := mgr_ProcessRestarts (pol_mgr p) in called CallProcess m p.

(** [now] is what [p.clock.Now()] answers. *)
Definition Apply (restarts : list Restart) (s : Settings) (now : Z) (p : Policy) : list Restart * Policy :=
  if negb (Enabled s) then (restarts, p)
  else
    let '(carry, p) :=
      if Debounce s <=? 0 then queue restarts (flush (λ _, true) p)
      else ([], flush (λ r, Debounce s <=? now - pr_lastRequest r) (record restarts now p)) in
    (carry, process p).
End policy.

Arguments Policy : clear implicits.

(** ** The service manager is such a manager *)
Section instance.
Context {W : Type} (ctl : Backend W) (BeforeRestart : option (string → W → W)).

(** The manager, the world and the attempts made so far. *)
Record Shared := { sh_sm : ServiceManager; sh_w : W; sh_log : list Attempt }.

(** Without a lookup every round with progress empties the queue by one, so its
    size is fuel enough (see [shared_total]). *)
Definition shared_process (m : Shared) : option RestartsError * Shared :=
  match ProcessRestarts ctl BeforeRestart (size (RestartQueue (sh_sm m))) None (sh_sm m) (sh_w m) with
  | Some (err, st) => (err, {| sh_sm := run_sm st; sh_w := run_w st; sh_log := sh_log m ++ run_log st |})
  | None => (None, m)
  end.

Lemma queue_weight_one q : queue_weight (λ _, 1%nat) q = size q.
Proof.
  unfold queue_weight. induction q as [|k v q Hk IH] using map_ind; [done|].
  rewrite map_fold_insert_L, IH, map_size_insert_None by (done || intros; lia). lia.
Qed.

Lemma shared_total m : is_Some (ProcessRestarts ctl BeforeRestart (size (RestartQueue (sh_sm m))) None (sh_sm m) (sh_w m)).
Proof.
  unfold ProcessRestarts. destruct (DisableRestarts (sh_sm m)); [by eexists|].
  edestruct (restart_loop_terminates ctl BeforeRestart None (λ _, 1%nat) (sh_sm m)) as [[e st] ->].
  - intros svc. split; [lia|done].
  - done.
  - cbn [run_sm]. by rewrite queue_weight_one.
  - cbn [mbind option_bind]. destruct e; by eexists.
Qed.

#[export] Program Instance Shared_Manager : Manager Shared := {|
  mgr_AddRestartWithReasons s rs m :=
    let '(err, sm) := AddRestartWithReasons s rs (sh_sm m) in
    (err, {| sh_sm := sm; sh_w := sh_w m; sh_log := sh_log m |});
  mgr_ProcessRestarts := shared_process;
  mgr_ApplySystemd s a m :=
    let '(err, w) := ApplySystemd ctl (sh_sm m) s a (sh_w m) in
    (err, {| sh_sm := sh_sm m; sh_w := w; sh_log := sh_log m |});
  mgr_SystemdMode m := IsSystemdMode ctl (sh_w m);
  mgr_ctx_Err m :=
    let '(b, w) := ctx_Err ctl (sh_w m) in
    (b, {| sh_sm := sh_sm m; sh_w := w; sh_log := sh_log m |});
  mgr_SetDependencies deps m := {| sh_sm := SetDependencies deps (sh_sm m); sh_w := sh_w m; sh_log := sh_log m |};
  pending m s := is_Some (RestartQueue (sh_sm m) !! s) |}.
Next Obligation. intros s rs m _. cbn. rewrite lookup_insert_eq. by eexists. Qed.
Next Obligation. intros s rs m s' Hs. cbn. apply lookup_insert_is_Some'. by right. Qed.
End instance.

Arguments Shared : clear implicits.
