(* ===== verification/RestartProps.v ===== *)
(** * RestartProps: the restart policy

    What the policy asks of the manager, what it carries, when it gives up, and
    what debouncing holds back. *)
From S2P Require Import Prelude Config Plan PlanProps Services ServicesProps Restart.

#[local] Open Scope Z_scope.

Section policy_facts.
Context {M : Type} `{Manager M}.

(** The systemd rules hold for the whole life of the policy. *)
Definition always_systemd (p : Policy M) : Prop :=
  pol_withSystemd p = true ∧ ∀ m : M, mgr_SystemdMode m = true.

Definition never_systemd (p : Policy M) : Prop :=
  pol_withSystemd p = false ∨ ∀ m : M, mgr_SystemdMode m = false.

(** A call the systemd rules allow: never the restart of a heavy service, and no
    restart through the manager's queue. *)
Definition allowed (p : Policy M) (c : Call) : Prop :=
  match c with
  | CallAdd _ _ => ¬ always_systemd p
  | CallApply s a => Classify a s true ≠ ActionPendingRestart
  | CallProcess => True
  end.

(** ** Steps of the policy

    [acts on p p']: [p'] follows from [p] by calls about the service [on] (or by
    processing the queue), with the attachment to systemd unchanged. *)
Definition call_service (c : Call) : option string :=
  match c with CallAdd s _ | CallApply s _ => Some s | CallProcess => None end.

Definition follows (P : Call → Prop) (p p' : Policy M) : Prop :=
  pol_withSystemd p' = pol_withSystemd p ∧
  ∃ new, pol_calls p' = pol_calls p ++ new ∧ ∀ c, c ∈ new → allowed p c ∧ P c.

Lemma follows_refl P p : follows P p p.
Proof. split; [done|]. exists []. rewrite app_nil_r. split; [done|]. by intros c ?%not_elem_of_nil. Qed.

Lemma allowed_same (p p' : Policy M) c : pol_withSystemd p' = pol_withSystemd p → allowed p' c → allowed p c.
Proof. unfold allowed, always_systemd. intros ->. done. Qed.

Lemma follows_trans P p1 p2 p3 : follows P p1 p2 → follows P p2 p3 → follows P p1 p3.
Proof.
  intros (E1 & n1 & C1 & A1) (E2 & n2 & C2 & A2). split; [congruence|]. exists (n1 ++ n2).
  rewrite C2, C1, app_assoc. split; [done|]. intros c [Hc|Hc]%elem_of_app; [by apply A1|].
  destruct (A2 c Hc). split; [by eapply allowed_same|done].
Qed.

Lemma follows_weaken (P Q : Call → Prop) p p' : (∀ c, P c → Q c) → follows P p p' → follows Q p p'.
Proof. intros HPQ (E & n & C & A). split; [done|]. exists n. split; [done|]. intros c Hc. destruct (A c Hc). auto. Qed.

Lemma count_attempt_calls s (p : Policy M) :
  pol_withSystemd (count_attempt s p).2 = pol_withSystemd p ∧ pol_calls (count_attempt s p).2 = pol_calls p ∧
  pol_pending (count_attempt s p).2 = pol_pending p.
Proof. unfold count_attempt. by case_match. Qed.

Lemma follows_snoc (P : Call → Prop) (p p' : Policy M) c :
  pol_withSystemd p' = pol_withSystemd p → pol_calls p' = pol_calls p ++ [c] → allowed p c → P c →
  follows P p p'.
Proof.
  intros E C A HP. split; [done|]. exists [c]. split; [done|].
  by intros c' ->%list_elem_of_singleton.
Qed.

Lemma queueLegacy_follows s rs ks p : SystemdMode p = false →
  follows (λ c, call_service c = Some s) p (queueLegacy s rs ks p).2 ∧
  pol_pending (queueLegacy s rs ks p).2 = pol_pending p.
Proof.
  intros Hm. unfold queueLegacy. destruct (mgr_AddRestartWithReasons s rs (pol_mgr p)) as [[e|] m].
  - destruct (count_attempt_calls s (called (CallAdd s rs) m p)) as (E & C & Pn).
    split; [|by rewrite Pn]. eapply follows_snoc; [by rewrite E|by rewrite C| |done].
    intros [Hw Hs]. unfold SystemdMode in Hm. by rewrite Hw, Hs in Hm.
  - split; [|done]. eapply follows_snoc; [done|done| |done].
    intros [Hw Hs]. unfold SystemdMode in Hm. by rewrite Hw, Hs in Hm.
Qed.

Lemma applySystemd_follows s a ks p : Classify a s true ≠ ActionPendingRestart →
  follows (λ c, call_service c = Some s) p (applySystemd s a ks p).2 ∧
  pol_pending (applySystemd s a ks p).2 = pol_pending p.
Proof.
  intros Hc. unfold applySystemd. destruct (mgr_ApplySystemd s a (pol_mgr p)) as [[e|] m].
  - destruct (mgr_ctx_Err _) as [[] m']; [split; [by eapply follows_snoc|done]|].
    destruct (count_attempt_calls s (set_mgr m' (called (CallApply s a) m p))) as (E & C & Pn).
    split; [|by rewrite Pn]. eapply follows_snoc; [by rewrite E|by rewrite C|done|done].
  - split; [by eapply follows_snoc|done].
Qed.

Lemma dispatch_follows s a rs ks p :
  follows (λ c, call_service c = Some s) p (dispatch s a rs ks p).2 ∧
  pol_pending (dispatch s a rs ks p).2 = pol_pending p.
Proof.
  unfold dispatch. destruct (SystemdMode p) eqn:Em; simpl; [|by apply queueLegacy_follows].
  destruct (Classify a s true) eqn:Ec; try (apply applySystemd_follows; congruence).
  split; [apply follows_refl|done].
Qed.

Lemma set_pending_follows P f (p : Policy M) : follows P p (set_pending f p).
Proof. destruct (follows_refl P p) as [? ?]. done. Qed.

Lemma queue_follows restarts p :
  follows (λ c, ∃ s, call_service c = Some s) p (queue restarts p).2 ∧
  pol_pending (queue restarts p).2 = pol_pending p.
Proof.
  unfold queue. apply (foldl_inv (λ st : list Restart * Policy M,
    follows (λ c, ∃ s, call_service c = Some s) p st.2 ∧ pol_pending st.2 = pol_pending p)).
  { split; [apply follows_refl|done]. }
  intros [carry p'] e _ [Hf Hp]. unfold queue_step.
  destruct (dispatch_follows (r_Service e) (r_Action e) (Strings (r_Reasons e)) (reasonKinds (r_Reasons e)) p') as [Hf' Hp'].
  destruct (dispatch _ _ _ _ p') as [retry p2]. simpl in *. split; [|congruence].
  eapply follows_trans; [exact Hf|]. eapply follows_weaken; [|exact Hf']. intros c Hc. by exists (r_Service e).
Qed.

Lemma flush_one_follows due p name :
  follows (λ c, call_service c = Some name ∧ ∃ r, pol_pending p !! name = Some r ∧ due r = true) p
    (flush_one due p name) ∧
  ∀ s, s ≠ name → pol_pending (flush_one due p name) !! s = pol_pending p !! s.
Proof.
  unfold flush_one. destruct (pol_pending p !! name) as [r|] eqn:E; [|split; [apply follows_refl|done]].
  destruct (due r) eqn:Hd; simpl; [|split; [apply follows_refl|done]].
  destruct (dispatch_follows name (pr_action r) (pr_reasons r) (pr_kinds r) p) as [Hf Hp].
  assert (follows (λ c, call_service c = Some name ∧ ∃ r0, Some r = Some r0 ∧ due r0 = true) p
    (dispatch name (pr_action r) (pr_reasons r) (pr_kinds r) p).2) as Hf'.
  { eapply follows_weaken; [|exact Hf]. intros c Hc. split; [done|]. by exists r. }
  destruct (dispatch _ _ _ _ p) as [[] p2]; simpl in *; (split; [done|]); intros s Hs; [by rewrite Hp|].
  cbn [pol_pending set_pending]. by rewrite lookup_delete_ne, Hp.
Qed.

(** A flush acts only on requests that are due; the others stay as they are. *)
Lemma flush_fold_follows due (p0 : Policy M) names p :
  NoDup names →
  (∀ s, s ∈ names → pol_pending p !! s = pol_pending p0 !! s) →
  follows (λ c, ∃ s r, call_service c = Some s ∧ pol_pending p0 !! s = Some r ∧ due r = true) p
    (foldl (flush_one due) p names) ∧
  ∀ s r, s ∈ names → pol_pending p0 !! s = Some r → due r = false →
    pol_pending (foldl (flush_one due) p names) !! s = Some r.
Proof.
  intros Hnd. revert p. induction Hnd as [|name names Hni Hnd IH]; intros p Hp; cbn [foldl].
  { split; [apply follows_refl|]. by intros s r ?%not_elem_of_nil. }
  destruct (flush_one_follows due p name) as [Hf Hpend].
  destruct (IH (flush_one due p name)) as [Hf' Hkeep].
  { intros s Hs. rewrite Hpend by (intros ->; done). apply Hp. by right. }
  split.
  - eapply follows_trans; [|exact Hf']. eapply follows_weaken; [|exact Hf].
    intros c [Hc (r & Hr & Hd)]. exists name, r. rewrite <- Hp by (by left). done.
  - intros s r [->|Hs]%elem_of_cons Hr Hd; [|by apply Hkeep].
    assert (pol_pending (flush_one due p name) !! name = Some r) as Hn.
    { unfold flush_one. rewrite Hp, Hr, Hd by (by left). simpl. by rewrite Hp by (by left). }
    clear -Hn Hni. revert Hn. generalize (flush_one due p name) as q.
    induction names as [|x names IH]; intros q Hn; cbn [foldl]; [done|].
    apply IH; [set_solver|]. rewrite (proj2 (flush_one_follows due q x)) by set_solver. done.
Qed.

Lemma flush_follows due p :
  follows (λ c, ∃ s r, call_service c = Some s ∧ pol_pending p !! s = Some r ∧ due r = true) p (flush due p) ∧
  ∀ s r, pol_pending p !! s = Some r → due r = false → pol_pending (flush due p) !! s = Some r.
Proof.
  unfold flush. destruct (flush_fold_follows due p (sorted_keys (pol_pending p)) p) as [Hf Hk];
    [apply NoDup_sorted_keys|done|]. split; [done|]. intros s r Hr. apply Hk; [|done].
  apply elem_of_sorted_keys. eauto.
Qed.
End policy_facts.

Section apply_facts.
Context {M : Type} `{Manager M}.

Lemma process_follows (p : Policy M) : follows (λ _, True) p (process p) ∧ pol_pending (process p) = pol_pending p.
Proof.
  unfold process. destruct (mgr_ProcessRestarts _) as [e m]. split; [by eapply follows_snoc|done].
Qed.

Lemma record_frame restarts now (p : Policy M) :
  pol_withSystemd (record restarts now p) = pol_withSystemd p ∧
  pol_calls (record restarts now p) = pol_calls p ∧
  pol_failures (record restarts now p) = pol_failures p ∧ pol_mgr (record restarts now p) = pol_mgr p.
Proof.
  unfold record. apply (foldl_inv (λ q : Policy M, pol_withSystemd q = pol_withSystemd p ∧
    pol_calls q = pol_calls p ∧ pol_failures q = pol_failures p ∧ pol_mgr q = pol_mgr p)); [done|].
  intros q e _ Hq. exact Hq.
Qed.

Lemma Apply_follows restarts s now (p : Policy M) : follows (λ _, True) p (Apply restarts s now p).2.
Proof.
  unfold Apply. destruct (Enabled s); simpl; [|apply follows_refl].
  assert (∀ q : Policy M, follows (λ _, True) p q → follows (λ _, True) p (process q)) as Hproc.
  { intros q Hq. eapply follows_trans; [exact Hq|apply process_follows]. }
  destruct (Debounce s <=? 0).
  - assert (follows (λ _, True) p (queue restarts (flush (λ _, true) p)).2) as Hq.
    { eapply follows_trans; [eapply follows_weaken, flush_follows; done|].
      eapply follows_weaken; [|apply queue_follows]. done. }
    destruct (queue _ _). by apply Hproc.
  - simpl. apply Hproc. eapply (follows_trans _ _ (record restarts now p)).
    + destruct (record_frame restarts now p) as (E & C & _). split; [done|]. exists [].
      rewrite C, app_nil_r. split; [done|]. by intros c ?%not_elem_of_nil.
    + eapply follows_weaken; [|apply flush_follows]. done.
Qed.
End apply_facts.


(** ** Failed attempts *)
Section attempts.
Context {M : Type} `{Manager M}.

Definition counters_ok (p : Policy M) : Prop := map_Forall (λ _ n, 1 ≤ n < maxAttempts) (pol_failures p).

Lemma counters_delete p s : counters_ok p → counters_ok (set_failures (delete s) p).
Proof. intros Hc. by apply map_Forall_delete. Qed.

Lemma count_attempt_ok s p : counters_ok p →
  counters_ok (count_attempt s p).2 ∧
  ((count_attempt s p).1 = true → is_Some (pol_failures (count_attempt s p).2 !! s)) ∧
  ∀ s', s' ≠ s → pol_failures (count_attempt s p).2 !! s' = pol_failures p !! s'.
Proof.
  intros Hc. unfold count_attempt. destruct (Z.leb_spec maxAttempts (default 0 (pol_failures p !! s) + 1)).
  - split_and!; [by apply counters_delete|done|]. intros s' Hs. cbn. by rewrite lookup_delete_ne.
  - cbn. split_and!.
    + apply map_Forall_insert_2; [|done]. destruct (pol_failures p !! s) eqn:E; simpl in *; [|lia].
      apply Hc in E. lia.
    + intros _. rewrite lookup_insert_eq. by eexists.
    + intros s' Hs. by rewrite lookup_insert_ne.
Qed.

Lemma dispatch_ok s a rs ks p : counters_ok p →
  counters_ok (dispatch s a rs ks p).2 ∧
  ((dispatch s a rs ks p).1 = true → is_Some (pol_failures (dispatch s a rs ks p).2 !! s)) ∧
  ∀ s', s' ≠ s → pol_failures (dispatch s a rs ks p).2 !! s' = pol_failures p !! s'.
Proof.
  intros Hc. assert (∀ q : Policy M, pol_failures q = pol_failures p →
    counters_ok q ∧ counters_ok (set_failures (delete s) q) ∧
    ∀ s', s' ≠ s → pol_failures (set_failures (delete s) q) !! s' = pol_failures p !! s') as Hdel.
  { intros q Hq. assert (counters_ok q) by (unfold counters_ok; by rewrite Hq).
    split_and!; [done|by apply counters_delete|]. intros s' Hs. cbn. by rewrite lookup_delete_ne, Hq. }
  unfold dispatch. destruct (SystemdMode p); simpl.
  - destruct (Classify a s true); try done; unfold applySystemd;
      destruct (mgr_ApplySystemd s a (pol_mgr p)) as [[e|] m];
      try (destruct (Hdel (called (CallApply s a) m p)) as (? & ? & ?); done);
      destruct (mgr_ctx_Err _) as [[] m']; try done;
      exact (count_attempt_ok s (set_mgr m' (called (CallApply s a) m p)) Hc).
  - unfold queueLegacy. destruct (mgr_AddRestartWithReasons s rs (pol_mgr p)) as [[e|] m];
      [exact (count_attempt_ok s (called (CallAdd s rs) m p) Hc)|].
    destruct (Hdel (called (CallAdd s rs) m p)) as (? & ? & ?); done.
Qed.

(** The loop of [queue]: every entry carried so far has a counter, which the
    entries still to come do not touch. *)
Lemma queue_fold_ok restarts carry q : counters_ok q → NoDup (r_Service <$> restarts) →
  (∀ e, e ∈ carry → (r_Service e ∉ r_Service <$> restarts) ∧ is_Some (pol_failures q !! r_Service e)) →
  counters_ok (foldl queue_step (carry, q) restarts).2 ∧
  ∀ e, e ∈ (foldl queue_step (carry, q) restarts).1 → (e ∈ carry ∨ e ∈ restarts) ∧
    is_Some (pol_failures (foldl queue_step (carry, q) restarts).2 !! r_Service e).
Proof.
  revert carry q. induction restarts as [|r l IH]; intros carry q Hq Hnd Hcarry; cbn [foldl].
  { split; [done|]. intros e He. split; [by left|]. by apply Hcarry. }
  apply NoDup_cons in Hnd as [Hni Hnd]. unfold queue_step at 2 4 6.
  destruct (dispatch_ok (r_Service r) (r_Action r) (Strings (r_Reasons r)) (reasonKinds (r_Reasons r)) q Hq)
    as (Hq' & Hret & Hoth).
  destruct (dispatch _ _ _ _ q) as [retry q']. simpl in *.
  assert (∀ e, e ∈ carry → (r_Service e ∉ r_Service <$> l) ∧ is_Some (pol_failures q' !! r_Service e)) as Hold.
  { intros e He. destruct (Hcarry e He) as [Hn Hs]. rewrite not_elem_of_cons in Hn.
    destruct Hn as [Hne Hn]. split; [done|]. by rewrite Hoth. }
  destruct (IH (if retry then carry ++ [r] else carry) q' Hq' Hnd) as [Hc' He'].
  - destruct retry; [|done]. intros e [He|Heq%list_elem_of_singleton]%elem_of_app; [by apply Hold|].
    subst e. split; [done|by apply Hret].
  - split; [done|]. intros e He. destruct (He' e He) as [Hin Hs]. split; [|done]. destruct retry; set_solver.
Qed.

Lemma queue_ok restarts p : counters_ok p → NoDup (r_Service <$> restarts) →
  counters_ok (queue restarts p).2 ∧
  ∀ e, e ∈ (queue restarts p).1 → e ∈ restarts ∧ is_Some (pol_failures (queue restarts p).2 !! r_Service e).
Proof.
  intros Hc Hnd. unfold queue.
  destruct (queue_fold_ok restarts [] p Hc Hnd) as [Hc' He']; [by intros e ?%not_elem_of_nil|].
  split; [done|]. intros e He. destruct (He' e He) as [[?%not_elem_of_nil|?] ?]; done.
Qed.

Lemma flush_ok due p : counters_ok p → counters_ok (flush due p).
Proof.
  intros Hc. unfold flush. apply (foldl_inv counters_ok); [done|]. intros q name _ Hq. unfold flush_one.
  destruct (pol_pending q !! name) as [r|]; [|done]. destruct (due r); [|done]. simpl.
  destruct (dispatch_ok name (pr_action r) (pr_reasons r) (pr_kinds r) q Hq) as [Hd _].
  by destruct (dispatch _ _ _ _ q) as [[] q'].
Qed.
End attempts.

(** Disabled restarts are all carried and nothing else happens; otherwise the
    failure counters stay between 1 and 2, an entry that is carried is one of
    the plan's and its service has a counter, and with debouncing nothing is
    carried (retries stay pending). *)
Theorem Apply_carry {M} `{Manager M} restarts s now (p : Policy M) :
  counters_ok p → NoDup (r_Service <$> restarts) →
  let '(carry, p') := Apply restarts s now p in
  counters_ok p' ∧
  (Enabled s = false → carry = restarts ∧ p' = p) ∧
  (Enabled s = true → Debounce s ≤ 0 → ∀ e, e ∈ carry →
     e ∈ restarts ∧ ∃ n, pol_failures p' !! r_Service e = Some n ∧ 1 ≤ n < 3) ∧
  (Enabled s = true → 0 < Debounce s → carry = []).
Proof.
  intros Hc Hnd. unfold Apply. destruct (Enabled s); simpl; [|done].
  assert (∀ q : Policy M, counters_ok q → counters_ok (process q) ∧ pol_failures (process q) = pol_failures q) as Hp.
  { intros q Hq. unfold process. by destruct (mgr_ProcessRestarts _). }
  destruct (Z.leb_spec (Debounce s) 0).
  - destruct (queue_ok restarts (flush (λ _, true) p) (flush_ok _ _ Hc) Hnd) as [Hq He].
    destruct (queue restarts _) as [carry q]. simpl in *. destruct (Hp q Hq) as [Hq' Hf].
    split_and!; [done|done| |lia]. intros _ _ e Hin. destruct (He e Hin) as [? [n Hn]]. split; [done|].
    exists n. rewrite Hf. split; [done|]. by apply Hq in Hn.
  - split_and!; [|done|lia|done]. apply Hp, flush_ok. unfold counters_ok.
    by destruct (record_frame restarts now p) as (_ & _ & -> & _).
Qed.

(** A systemd host whose unit actions all answer [err]. *)
Definition systemd_host (err : option error) : Backend unit :=
  {| ServiceStart _ w := (err, w); ServiceStop _ w := (err, w); ServiceRestart _ w := (err, w);
     ServiceStatus _ w := (inr true, w); LookupService _ := true;
     asHost := Some {| IsSystemdMode_ _ := true; ServiceTryReloadOrRestart _ w := (err, w) |};
     ctx_Err w := (false, w) |}.

Definition failing := Shared_Manager (systemd_host (Some "exit status 1")) None.
Definition fresh_shared : Shared unit := {| sh_sm := NewServiceManager; sh_w := tt; sh_log := [] |}.
Definition on_cycle : Settings := {| Enabled := true; Debounce := 0 |}.
Definition restart_of (svc : string) : Restart :=
  {| r_Service := svc; r_Action := ActionRestart; r_Sections := []; r_Reasons := [] |}.

Lemma Apply_carry_witness :
  ∃ p', @Apply _ failing [restart_of "mta"; restart_of "mailbox"] on_cycle 0 (NewPolicy true fresh_shared) =
    ([restart_of "mta"], p') ∧ @counters_ok _ p'.
Proof.
  assert (fst (@Apply _ failing [restart_of "mta"; restart_of "mailbox"] on_cycle 0 (NewPolicy true fresh_shared)) =
    [restart_of "mta"]) as Hr by (vm_compute; reflexivity).
  pose proof (@Apply_carry _ failing [restart_of "mta"; restart_of "mailbox"] on_cycle 0 (NewPolicy true fresh_shared))
    as Hc.
  destruct (@Apply _ failing _ _ _ _) as [carry p']. simpl in Hr. subst carry.
  exists p'. split; [reflexivity|].
  apply Hc; [apply map_Forall_empty|]. repeat constructor; set_solver.
Defined.

(** ** Giving up on a failing service

    [broken I]: in the states [I], which the policy's calls do not leave, the
    host follows the systemd rules, every unit action fails and no shutdown
    arrives. *)
Record broken {M} `{Manager M} (I : M → Prop) : Prop := {
  broken_mode m : I m → mgr_SystemdMode m = true;
  broken_apply s a m : I m → (mgr_ApplySystemd s a m).1 ≠ None ∧ I (mgr_ApplySystemd s a m).2;
  broken_ctx m : I m → (mgr_ctx_Err m).1 = false ∧ I (mgr_ctx_Err m).2;
  broken_process m : I m → I (mgr_ProcessRestarts m).2 }.

Section giving_up.
Context {M : Type} `{Manager M} (I : M → Prop) (e : Restart).
Hypothesis Hbroken : broken I.
Hypothesis acted_on : Classify (r_Action e) (r_Service e) true ≠ ActionPendingRestart.

Lemma failing_dispatch (p : Policy M) n rs ks :
  pol_withSystemd p = true → I (pol_mgr p) → default 0 (pol_failures p !! r_Service e) = n →
  ∃ m, I m ∧ dispatch (r_Service e) (r_Action e) rs ks p =
    (negb (3 <=? n + 1),
     set_failures (if 3 <=? n + 1 then delete (r_Service e) else insert (r_Service e) (n + 1))
       (set_mgr m (called (CallApply (r_Service e) (r_Action e)) m p))).
Proof using Hbroken acted_on.
  intros Hw Hi Hn. unfold dispatch, SystemdMode. rewrite Hw, (broken_mode I Hbroken) by done. cbn [andb negb].
  assert (match Classify (r_Action e) (r_Service e) true with
          | ActionPendingRestart => (false, p)
          | _ => applySystemd (r_Service e) (r_Action e) ks p end =
          applySystemd (r_Service e) (r_Action e) ks p) as -> by (by destruct (Classify _ _ _)).
  unfold applySystemd. destruct (broken_apply I Hbroken (r_Service e) (r_Action e) _ Hi) as [Hf Hi1].
  destruct (mgr_ApplySystemd _ _ _) as [[err|] m]; [|done]. cbn [pol_mgr called]. simpl in Hi1.
  destruct (broken_ctx I Hbroken m Hi1) as [Hc Hi2]. destruct (mgr_ctx_Err m) as [c m']. simpl in Hc, Hi2. subst c.
  exists m'. split; [done|]. unfold count_attempt. cbn [pol_failures set_mgr called]. rewrite Hn.
  unfold maxAttempts. by destruct (3 <=? n + 1).
Qed.

(** One cycle that plans the failing entry [e] alone, after [n] failed ones. *)
Lemma failing_cycle (p : Policy M) s now n :
  pol_withSystemd p = true → I (pol_mgr p) → Enabled s = true → Debounce s ≤ 0 → pol_pending p = ∅ →
  default 0 (pol_failures p !! r_Service e) = n →
  ∃ p', Apply [e] s now p = (if 3 <=? n + 1 then [] else [e], p') ∧
    pol_withSystemd p' = true ∧ I (pol_mgr p') ∧ pol_pending p' = ∅ ∧
    default 0 (pol_failures p' !! r_Service e) = (if 3 <=? n + 1 then 0 else n + 1) ∧
    pol_calls p' = pol_calls p ++ [CallApply (r_Service e) (r_Action e); CallProcess].
Proof using Hbroken acted_on.
  intros Hw Hi He Hd Hp Hn. unfold Apply. rewrite He. cbn [negb]. destruct (Z.leb_spec (Debounce s) 0); [|lia].
  unfold flush. rewrite Hp. unfold sorted_keys. rewrite sorted_items_empty. cbn [fmap list_fmap foldl].
  unfold queue, queue_step. cbn [foldl].
  destruct (failing_dispatch p n (Strings (r_Reasons e)) (reasonKinds (r_Reasons e)) Hw Hi Hn) as (m & Hm & ->).
  pose proof (broken_process I Hbroken m Hm) as Hi3.
  destruct (3 <=? n + 1); cbn [negb app]; unfold process; cbn [pol_mgr set_failures set_mgr called];
    destruct (mgr_ProcessRestarts m) as [err' m']; eexists; (split; [reflexivity|]);
    (split_and!; [exact Hw|exact Hi3|exact Hp| |cbn; by rewrite <- app_assoc]); cbn.
  - by rewrite lookup_delete_eq.
  - by rewrite lookup_insert_eq.
Qed.
End giving_up.


(** The settings of the shared manager survive a run of its queue. *)
Lemma shared_process_settings {W} (ctl : Backend W) BeforeRestart m :
  same_settings (sh_sm m) (sh_sm (shared_process ctl BeforeRestart m).2).
Proof.
  unfold shared_process. destruct (ProcessRestarts _ _ _ _ _ _) as [[err st]|] eqn:E; [|done]. simpl.
  destruct (DisableRestarts (sh_sm m)) eqn:Hd.
  - unfold ProcessRestarts in E. rewrite Hd in E. injection E as <- <-. done.
  - by destruct (ProcessRestarts_accounted _ _ _ _ _ _ _ _ Hd E).
Qed.

Lemma failing_broken : @broken _ failing (λ m, DisableRestarts (sh_sm m) = false).
Proof.
  split.
  - done.
  - intros s a m Hm. cbn. unfold ApplySystemd. rewrite Hm. by destruct a.
  - done.
  - intros m Hm. cbn [mgr_ProcessRestarts failing Shared_Manager].
    destruct (shared_process_settings (systemd_host (Some "exit status 1")) None m) as (_ & _ & _ & ->). done.
Qed.


(** ** Debouncing *)
Section debounce.
Context {M : Type} `{Manager M}.

Lemma record_lookup restarts now (p : Policy M) s :
  (s ∉ r_Service <$> restarts → pol_pending (record restarts now p) !! s = pol_pending p !! s) ∧
  (s ∈ r_Service <$> restarts → ∃ r, pol_pending (record restarts now p) !! s = Some r ∧ pr_lastRequest r = now) ∧
  (∀ r, pol_pending p !! s = Some r → ∃ r', pol_pending (record restarts now p) !! s = Some r' ∧
     ∀ x, x ∈ pr_reasons r → x ∈ pr_reasons r').
Proof.
  unfold record. revert p. induction restarts as [|e l IH]; intros p; cbn [foldl].
  { split_and!; [done|by intros ?%not_elem_of_nil|]. intros r Hr. by exists r. }
  destruct (IH (record_one now p e)) as (Hout & Hin & Hold).
  cbn [pol_pending record_one set_pending] in *. rewrite fmap_cons. split_and!.
  - intros [Hne Hn]%not_elem_of_cons. rewrite Hout by done. by rewrite lookup_insert_ne.
  - intros [->|Hs]%elem_of_cons; [|by apply Hin].
    destruct (decide (r_Service e ∈ r_Service <$> l)) as [Hs|Hs]; [by apply Hin|].
    rewrite Hout by done. rewrite lookup_insert_eq. by eexists.
  - intros r Hr. destruct (decide (s = r_Service e)) as [->|Hne].
    + edestruct Hold as (r' & Hr' & Hx); [apply lookup_insert_eq|]. exists r'. split; [done|].
      intros x Hin'. apply Hx. cbn [pr_reasons]. rewrite Hr. apply elem_of_append_uniques. by left.
    + apply Hold. by rewrite lookup_insert_ne.
Qed.

Lemma record_reasons restarts now (p : Policy M) e r :
  e ∈ restarts → pol_pending (record restarts now p) !! r_Service e = Some r →
  ∀ x, x ∈ Strings (r_Reasons e) → x ∈ pr_reasons r.
Proof.
  unfold record. revert p. induction restarts as [|e' l IH]; intros p; [by intros ?%not_elem_of_nil|].
  intros [<-|He]%elem_of_cons Hr x Hx; [|by eapply IH].
  destruct (record_lookup l now (record_one now p e) (r_Service e)) as (_ & _ & Hold).
  edestruct Hold as (r' & Hr' & Hsub); [apply lookup_insert_eq|].
  unfold record in Hr'. cbn [foldl] in Hr. rewrite Hr in Hr'. injection Hr' as <-.
  apply Hsub. cbn [pr_reasons]. apply elem_of_append_uniques. by right.
Qed.

Lemma dispatch_calls s a rs ks (p : Policy M) :
  (∃ c, pol_calls (dispatch s a rs ks p).2 = pol_calls p ++ [c] ∧ call_service c = Some s) ∨
  Classify a s true = ActionPendingRestart.
Proof.
  unfold dispatch. destruct (SystemdMode p); simpl.
  - destruct (Classify a s true) eqn:Ec; [..|by right]; left; exists (CallApply s a); unfold applySystemd;
      destruct (mgr_ApplySystemd s a (pol_mgr p)) as [[e|] m];
      try destruct (mgr_ctx_Err _) as [[] m']; try done;
      destruct (count_attempt_calls s (set_mgr m' (called (CallApply s a) m p))) as (_ & -> & _); done.
  - left. exists (CallAdd s rs). unfold queueLegacy.
    destruct (mgr_AddRestartWithReasons s rs (pol_mgr p)) as [[e|] m]; [|done].
    by destruct (count_attempt_calls s (called (CallAdd s rs) m p)) as (_ & -> & _).
Qed.

Lemma flush_fold_frame due names (p : Policy M) s : s ∉ names →
  pol_calls p `prefix_of` pol_calls (foldl (flush_one due) p names) ∧
  pol_pending (foldl (flush_one due) p names) !! s = pol_pending p !! s.
Proof.
  intros Hs. apply (foldl_inv (λ q : Policy M, pol_calls p `prefix_of` pol_calls q ∧
    pol_pending q !! s = pol_pending p !! s)); [done|]. intros q x Hx [Hp Hq].
  destruct (flush_one_follows due q x) as [(_ & new & -> & _) Hpend]. split; [by apply prefix_app_r|].
  rewrite Hpend; [done|]. intros ->. done.
Qed.

(** A request that is due is acted on, unless it is a restart that is only flagged. *)
Lemma flush_due due (p : Policy M) s r :
  pol_pending p !! s = Some r → due r = true → Classify (pr_action r) s true ≠ ActionPendingRestart →
  ∃ l1 c l2, pol_calls (flush due p) = pol_calls p ++ l1 ++ c :: l2 ∧ call_service c = Some s.
Proof.
  intros Hr Hd Hc. unfold flush.
  assert (s ∈ sorted_keys (pol_pending p)) as (n1 & n2 & E)%list_elem_of_split
    by (apply elem_of_sorted_keys; eauto).
  pose proof (NoDup_sorted_keys (pol_pending p)) as Hnd. rewrite E in Hnd |- *.
  apply NoDup_app in Hnd as (_ & Hn1 & Hn2). apply NoDup_cons in Hn2 as [Hn2 _].
  assert (s ∉ n1) as Hs1. { intros Hin. apply (Hn1 s Hin). by left. }
  rewrite foldl_app. cbn [foldl]. destruct (flush_fold_frame due n1 p s Hs1) as [[l1 C1] Hq].
  set (q := foldl (flush_one due) p n1) in *. clearbody q.
  destruct (flush_fold_frame due n2 (flush_one due q s) s Hn2) as [[l2 C2] _]. rewrite C2.
  unfold flush_one. rewrite Hq, Hr, Hd. cbn [negb].
  destruct (dispatch_calls s (pr_action r) (pr_reasons r) (pr_kinds r) q) as [(c & C & Hcs)|?]; [|done].
  exists l1, c, l2. split; [|done].
  destruct (dispatch _ _ _ _ q) as [[] q']; cbn [pol_calls set_pending snd] in *; rewrite C, C1, <- !app_assoc; done.
Qed.
End debounce.

(** While debouncing, a cycle acts on no service it plans to restart: it merges the
    reasons into the pending request and restarts its quiet window; a pending
    service that was not asked for and is not quiet long enough is left alone;
    one that is quiet long enough is acted on (or flagged, when heavy on systemd). *)
Theorem Apply_debounce {M} `{Manager M} restarts s now (p : Policy M) :
  Enabled s = true → 0 < Debounce s →
  ∃ new, pol_calls (Apply restarts s now p).2 = pol_calls p ++ new ∧
    (∀ e, e ∈ restarts →
       (∀ c, c ∈ new → call_service c ≠ Some (r_Service e)) ∧
       ∃ r, pol_pending (Apply restarts s now p).2 !! r_Service e = Some r ∧ pr_lastRequest r = now ∧
         ∀ x, x ∈ Strings (r_Reasons e) → x ∈ pr_reasons r) ∧
    (∀ svc r, svc ∉ r_Service <$> restarts → pol_pending p !! svc = Some r →
       if Debounce s <=? now - pr_lastRequest r
       then Classify (pr_action r) svc true ≠ ActionPendingRestart →
            ∃ c, c ∈ new ∧ call_service c = Some svc
       else (∀ c, c ∈ new → call_service c ≠ Some svc) ∧
            pol_pending (Apply restarts s now p).2 !! svc = Some r).
Proof.
  intros He Hd. unfold Apply. rewrite He. cbn [negb]. destruct (Z.leb_spec (Debounce s) 0); [lia|]. cbn [snd].
  set (due := λ r, Debounce s <=? now - pr_lastRequest r). set (q := record restarts now p).
  destruct (flush_follows due q) as [(_ & new & C & A) Hkeep].
  destruct (record_frame restarts now p) as (_ & Cq & _). fold q in Cq. rewrite Cq in C.
  unfold process. destruct (mgr_ProcessRestarts _) as [err m]. cbn [pol_calls pol_pending called].
  exists (new ++ [CallProcess]). split; [by rewrite C, app_assoc|].
  assert (∀ svc r, pol_pending q !! svc = Some r → due r = false →
    ∀ c, c ∈ new ++ [CallProcess] → call_service c ≠ Some svc) as Hquiet.
  { intros svc r Hr Hdue c [Hc|Hl%list_elem_of_singleton]%elem_of_app Hs; [|by subst c].
    destruct (A c Hc) as [_ (svc' & r' & Hs' & Hr' & Hdue')]. rewrite Hs in Hs'. injection Hs' as <-.
    rewrite Hr in Hr'. injection Hr' as <-. by rewrite Hdue in Hdue'. }
  split.
  - intros e Hin. destruct (record_lookup restarts now p (r_Service e)) as (_ & Hin' & _). fold q in Hin'.
    destruct Hin' as (r & Hr & Hnow); [apply list_elem_of_fmap; eauto|].
    assert (due r = false) as Hdue by (unfold due; rewrite Hnow; apply Z.leb_gt; lia).
    split; [by eapply Hquiet|]. exists r. split_and!; [by apply Hkeep|done|]. by eapply record_reasons.
  - intros svc r Hn Hr. destruct (record_lookup restarts now p svc) as (Hsame & _). fold q in Hsame.
    rewrite <- Hsame in Hr by done. change (Debounce s <=? now - pr_lastRequest r) with (due r).
    destruct (due r) eqn:Hdue; [|split; [by eapply Hquiet|by apply Hkeep]].
    intros Hc. destruct (flush_due due q svc r Hr Hdue Hc) as (l1 & c & l2 & C' & Hs).
    rewrite C, Cq in C'. apply app_inv_head in C'. exists c. rewrite C'. set_solver.
Qed.

Lemma Apply_debounce_witness :
  ∃ new, pol_calls (@Apply _ failing [restart_of "mta"] {| Enabled := true; Debounce := 5 |} 7
                     (NewPolicy true fresh_shared)).2 = new ∧
    ∀ c, c ∈ new → call_service c ≠ Some "mta".
Proof.
  destruct (@Apply_debounce _ failing [restart_of "mta"] {| Enabled := true; Debounce := 5 |} 7
    (NewPolicy true fresh_shared) eq_refl eq_refl) as (new & C & Hin & _).
  exists new. split; [exact C|]. exact (proj1 (Hin (restart_of "mta") ltac:(by left))).
Defined.

(** ** Legacy hosts *)
Section legacy.
Context {M : Type} `{Manager M}.
Hypothesis add_accepts : ∀ s rs (m : M), (mgr_AddRestartWithReasons s rs m).1 = None.

(** On a legacy host an entry is one call on the manager, which accepts it. *)
Lemma legacy_dispatch s a rs ks (p : Policy M) : pol_withSystemd p = false →
  (dispatch s a rs ks p).1 = false ∧ pol_withSystemd (dispatch s a rs ks p).2 = false ∧
  pol_mgr (dispatch s a rs ks p).2 = (mgr_AddRestartWithReasons s rs (pol_mgr p)).2.
Proof using add_accepts.
  intros Hw. unfold dispatch, SystemdMode. rewrite Hw. simpl. unfold queueLegacy.
  specialize (add_accepts s rs (pol_mgr p)). destruct (mgr_AddRestartWithReasons s rs (pol_mgr p)) as [err m].
  simpl in add_accepts. by subst err.
Qed.

(** What queueing keeps, the queue and the flush keep. *)
Section keep.
Variable J : M → Prop.
Hypothesis J_add : ∀ s rs m, J m → J (mgr_AddRestartWithReasons s rs m).2.

Definition legacy_ok (p : Policy M) : Prop := pol_withSystemd p = false ∧ J (pol_mgr p).

Lemma legacy_flush due p : legacy_ok p → legacy_ok (flush due p).
Proof using add_accepts J_add.
  intros Hp. unfold flush. apply (foldl_inv legacy_ok); [done|]. intros q x _ [Hw Hj]. unfold flush_one.
  destruct (pol_pending q !! x) as [r|]; [|done]. destruct (due r); [|done]. cbn [negb].
  destruct (legacy_dispatch x (pr_action r) (pr_reasons r) (pr_kinds r) q Hw) as (Hr & Hw' & Hm).
  destruct (dispatch _ _ _ _ q) as [retry q']. simpl in *. subst retry.
  split; [done|]. cbn. rewrite Hm. by apply J_add.
Qed.

Lemma legacy_queue restarts p : legacy_ok p →
  (queue restarts p).1 = [] ∧ legacy_ok (queue restarts p).2.
Proof using add_accepts J_add.
  intros Hp. unfold queue. apply (foldl_inv (λ st : list Restart * Policy M, st.1 = [] ∧ legacy_ok st.2)); [done|].
  intros [carry q] e _ [Hc [Hw Hj]]. simpl in *. subst carry.
  destruct (legacy_dispatch (r_Service e) (r_Action e) (Strings (r_Reasons e)) (reasonKinds (r_Reasons e)) q Hw)
    as (Hr & Hw' & Hm).
  destruct (dispatch _ _ _ _ q) as [retry q']. simpl in *. subst retry.
  split; [done|]. split; [done|]. rewrite Hm. by apply J_add.
Qed.
End keep.

Lemma legacy_queue_pending restarts p e : pol_withSystemd p = false → e ∈ restarts →
  pending (pol_mgr (queue restarts p).2) (ToLower (r_Service e)).
Proof using add_accepts.
  intros Hw (l1 & l2 & ->)%list_elem_of_split. unfold queue. rewrite foldl_app. cbn [foldl].
  destruct (legacy_queue (λ _, True) (λ _ _ _ _, I) l1 p (conj Hw I)) as [_ [Hw1 _]].
  unfold queue in Hw1. destruct (foldl queue_step ([], p) l1) as [c q]. simpl in Hw1. unfold queue_step at 2.
  destruct (legacy_dispatch (r_Service e) (r_Action e) (Strings (r_Reasons e)) (reasonKinds (r_Reasons e)) q Hw1)
    as (_ & Hw2 & Hm).
  assert (pending (mgr_AddRestartWithReasons (r_Service e) (Strings (r_Reasons e)) (pol_mgr q)).2
    (ToLower (r_Service e))) as Hpend by (by apply pending_add).
  destruct (dispatch _ _ _ _ q) as [retry q']. simpl in *. rewrite <- Hm in Hpend.
  apply (foldl_inv (λ st : list Restart * Policy M, pol_withSystemd st.2 = false ∧
    pending (pol_mgr st.2) (ToLower (r_Service e)))); [done|].
  intros [c2 q2] e2 _ [Hw3 Hp3]. simpl in *.
  destruct (legacy_dispatch (r_Service e2) (r_Action e2) (Strings (r_Reasons e2)) (reasonKinds (r_Reasons e2)) q2 Hw3)
    as (_ & Hw4 & Hm4).
  destruct (dispatch _ _ _ _ q2) as [r2 q3]. simpl in *. split; [done|]. rewrite Hm4. by apply pending_add_other.
Qed.
End legacy.

(** On a legacy host, without debouncing, every restart of the plan reaches the
    service manager and is accounted for by the run that follows: nothing is
    carried, and each service was restarted successfully, is still queued, or
    failed [MaxFailedRestarts] times. *)
Theorem Apply_legacy {W} (ctl : Backend W) BeforeRestart restarts s now (p : Policy (Shared W)) :
  pol_withSystemd p = false → Enabled s = true → Debounce s ≤ 0 →
  DisableRestarts (sh_sm (pol_mgr p)) = false →
  let '(carry, p') := @Apply _ (Shared_Manager ctl BeforeRestart) restarts s now p in
  carry = [] ∧ ∃ log, sh_log (pol_mgr p') = sh_log (pol_mgr p) ++ log ∧
    ∀ e, e ∈ restarts → let svc := ToLower (r_Service e) in
      succeeded svc log ∨ is_Some (RestartQueue (sh_sm (pol_mgr p')) !! svc) ∨
      MaxFailedRestarts (sh_sm (pol_mgr p)) ≤ failures svc log.
Proof.
  intros Hw He Hd Hdis. set (MI := Shared_Manager ctl BeforeRestart).
  unfold Apply. rewrite He. cbn [negb]. destruct (Z.leb_spec (Debounce s) 0); [|lia].
  assert (∀ s rs (m : Shared W), (mgr_AddRestartWithReasons s rs m).1 = None) as Hadd by done.
  pose (J (m : Shared W) := sh_log m = sh_log (pol_mgr p) ∧ same_settings (sh_sm (pol_mgr p)) (sh_sm m)).
  assert (∀ s rs m, J m → J (mgr_AddRestartWithReasons s rs m).2) as HJ by (intros ? ? ? [? ?]; by split).
  assert (legacy_ok J (flush (λ _, true) p)) as Hf by (by apply legacy_flush).
  destruct (legacy_queue Hadd J HJ restarts _ Hf) as [Hc [_ [Hlog Hset]]].
  pose proof (λ e, legacy_queue_pending Hadd restarts _ e (proj1 Hf)) as Hpend.
  destruct (queue restarts (flush (λ _, true) p)) as [carry q]. simpl in Hc, Hlog, Hset, Hpend. subst carry.
  split; [done|]. unfold process. cbn [mgr_ProcessRestarts MI Shared_Manager].
  unfold shared_process. destruct (shared_total ctl BeforeRestart (pol_mgr q)) as [[err st] E]. rewrite E.
  cbn [pol_mgr called sh_log sh_sm]. exists (run_log st). split; [by rewrite Hlog|]. intros e Hin.
  destruct Hset as (Hmax & _ & _ & Hdr). rewrite Hdis in Hdr.
  destruct (ProcessRestarts_accounted _ _ _ _ _ _ _ _ Hdr E) as [_ Hkept Hcount].
  destruct (Hkept _ (Hpend e Hin)) as [?|[?|(n & Hn & Hm)]]; [by auto..|].
  right. right. apply Hcount in Hn. rewrite Hmax in Hm. lia.
Qed.

Lemma Apply_legacy_witness :
  ∃ p', @Apply _ (Shared_Manager (steady None) None) [restart_of "mta"] on_cycle 0 (NewPolicy false fresh_shared) = ([], p') ∧
    ∃ log, sh_log (pol_mgr p') = [] ++ log ∧ ∀ e, e ∈ [restart_of "mta"] →
      succeeded (ToLower (r_Service e)) log ∨
      is_Some (RestartQueue (sh_sm (pol_mgr p')) !! ToLower (r_Service e)) ∨
      3 ≤ failures (ToLower (r_Service e)) log.
Proof.
  pose proof (Apply_legacy (steady None) None [restart_of "mta"] on_cycle 0 (NewPolicy false fresh_shared)
    eq_refl eq_refl ltac:(reflexivity) eq_refl) as HA.
  destruct (@Apply _ (Shared_Manager (steady None) None) _ _ _ _) as [carry p'].
  destruct HA as [-> HA]. exists p'. split; [reflexivity|exact HA].
Defined.
