(* ===== verification/State.v ===== *)
(** * State: internal/state

    The runtime state shared by the main loop, the listener and the watchdog.
    Every accessor runs under the state's lock, so each is one atomic step; what
    can interleave are whole operations. *)
From S2P Require Import Prelude Config Snapshot.

Record State := {
  st_snap : option Snapshot;
  MtaConfig_ : MtaConfig;
  ForcedConfig : gmap string string;
  RequestedConfig : gmap string string;
  FileCache : gmap string string;
  FileMD5Cache : gmap string string;
  WatchdogProcess : gmap string bool;
  FirstRun_ : bool }.

(** The published snapshot, never nil. *)
Definition State_Snapshot (s : State) : Snapshot :=
  default (New {| Local_ := ∅; Global_ := ∅; Server_ := ∅; Misc_ := ∅; Services_ := ∅ |}) (st_snap s).

Definition NewState : State :=
  {| st_snap := Some (New {| Local_ := ∅; Global_ := ∅; Server_ := ∅; Misc_ := ∅; Services_ := ∅ |});
     MtaConfig_ := {| mta_Sections := ∅ |}; ForcedConfig := ∅; RequestedConfig := ∅; FileCache := ∅;
     FileMD5Cache := ∅; WatchdogProcess := ∅; FirstRun_ := true |}.

Definition set_snap (o : option Snapshot) (s : State) : State :=
  {| st_snap := o; MtaConfig_ := MtaConfig_ s; ForcedConfig := ForcedConfig s;
     RequestedConfig := RequestedConfig s; FileCache := FileCache s; FileMD5Cache := FileMD5Cache s;
     WatchdogProcess := WatchdogProcess s; FirstRun_ := FirstRun_ s |}.

Definition set_forced (f : gmap string string → gmap string string) (s : State) : State :=
  {| st_snap := st_snap s; MtaConfig_ := MtaConfig_ s; ForcedConfig := f (ForcedConfig s);
     RequestedConfig := RequestedConfig s; FileCache := FileCache s; FileMD5Cache := FileMD5Cache s;
     WatchdogProcess := WatchdogProcess s; FirstRun_ := FirstRun_ s |}.

Definition set_requested (f : gmap string string → gmap string string) (s : State) : State :=
  {| st_snap := st_snap s; MtaConfig_ := MtaConfig_ s; ForcedConfig := ForcedConfig s;
     RequestedConfig := f (RequestedConfig s); FileCache := FileCache s; FileMD5Cache := FileMD5Cache s;
     WatchdogProcess := WatchdogProcess s; FirstRun_ := FirstRun_ s |}.

Definition set_file_cache (f : gmap string string → gmap string string) (s : State) : State :=
  {| st_snap := st_snap s; MtaConfig_ := MtaConfig_ s; ForcedConfig := ForcedConfig s;
     RequestedConfig := RequestedConfig s; FileCache := f (FileCache s); FileMD5Cache := FileMD5Cache s;
     WatchdogProcess := WatchdogProcess s; FirstRun_ := FirstRun_ s |}.

Definition set_md5 (f : gmap string string → gmap string string) (s : State) : State :=
  {| st_snap := st_snap s; MtaConfig_ := MtaConfig_ s; ForcedConfig := ForcedConfig s;
     RequestedConfig := RequestedConfig s; FileCache := FileCache s; FileMD5Cache := f (FileMD5Cache s);
     WatchdogProcess := WatchdogProcess s; FirstRun_ := FirstRun_ s |}.

Definition set_watchdog (f : gmap string bool → gmap string bool) (s : State) : State :=
  {| st_snap := st_snap s; MtaConfig_ := MtaConfig_ s; ForcedConfig := ForcedConfig s;
     RequestedConfig := RequestedConfig s; FileCache := FileCache s; FileMD5Cache := FileMD5Cache s;
     WatchdogProcess := f (WatchdogProcess s); FirstRun_ := FirstRun_ s |}.

(** ** The snapshot *)
Definition Publish (snap : Snapshot) (s : State) : State := set_snap (Some snap) s.

(** [UpdateSnapshot]: the compare-and-swap loop, as its successful turn. *)
Definition UpdateSnapshot (fn : Snapshot → Snapshot) (s : State) : State :=
  set_snap (Some (fn (State_Snapshot s))) s.

Definition SetMtaConfig (mtac : MtaConfig) (s : State) : State :=
  {| st_snap := st_snap s; MtaConfig_ := mtac; ForcedConfig := ForcedConfig s;
     RequestedConfig := RequestedConfig s; FileCache := FileCache s; FileMD5Cache := FileMD5Cache s;
     WatchdogProcess := WatchdogProcess s; FirstRun_ := FirstRun_ s |}.

Definition SetFirstRun (v : bool) (s : State) : State :=
  {| st_snap := st_snap s; MtaConfig_ := MtaConfig_ s; ForcedConfig := ForcedConfig s;
     RequestedConfig := RequestedConfig s; FileCache := FileCache s; FileMD5Cache := FileMD5Cache s;
     WatchdogProcess := WatchdogProcess s; FirstRun_ := v |}.

(** ** Requested and forced sections *)
Definition AddRequestedConfigs (sections : list string) (s : State) : State :=
  set_requested (λ m, foldl (λ m section, <[section := section]> m) m sections) s.

Definition SetRequestedConfig (section : string) (s : State) : State := AddRequestedConfigs [section] s.

Definition TakeRequestedConfigs (s : State) : list string * State :=
  (sorted_keys (RequestedConfig s), set_requested (λ _, ∅) s).

Definition ResetRequestedConfig (s : State) : State := set_requested (λ _, ∅) s.

Definition ForcedSections (s : State) : list string := sorted_keys (ForcedConfig s).

Definition SetForcedConfig (section : string) (s : State) : State := set_forced (insert section "1") s.

Definition ResetForcedConfig (s : State) : State := set_forced (λ _, ∅) s.

(** ** Files (state_files.go) *)
Definition MAPPEDFILES : gmap string string := {["zimbraSSLDHParam" := "conf/dhparam.pem"]}.

Definition GetFileMD5 (s : State) (filepath : string) : string := default "" (FileMD5Cache s !! filepath).
Definition SetFileMD5 (filepath md5hash : string) (s : State) : State := set_md5 (insert filepath md5hash) s.

(** [md5 path] is [ComputeFileMD5]: the hash of the file, or [None] when it cannot be read. *)
Definition FileHasChanged (md5 : string → option string) (s : State) (filepath : string) : bool :=
  match md5 filepath with
  | None => true
  | Some current =>
      String.eqb (GetFileMD5 s filepath) "" || negb (String.eqb (GetFileMD5 s filepath) current)
  end.

Definition UpdateFileMD5 (md5 : string → option string) (filepath : string) (s : State) : option State :=
  (λ h, SetFileMD5 filepath h s) <$> md5 filepath.

Definition LookupFile (s : State) (key : string) : option string := FileCache s !! key.
Definition StoreFile (key value : string) (s : State) : State := set_file_cache (insert key value) s.
Definition ClearFileCache (s : State) : State := set_file_cache (λ _, ∅) s.

(** ** Watchdog flags (state_watchdog.go) *)
Definition GetWatchdog (s : State) (service : string) : option bool := WatchdogProcess s !! service.
Definition SetWatchdog (service : string) (status : bool) (s : State) : State :=
  set_watchdog (insert service status) s.
Definition DelWatchdog (service : string) (s : State) : State := set_watchdog (delete service) s.

(** ** Facts *)
Lemma AddRequestedConfigs_is_Some sections s x :
  is_Some (RequestedConfig (AddRequestedConfigs sections s) !! x) ↔
  is_Some (RequestedConfig s !! x) ∨ x ∈ sections.
Proof.
  cbn. generalize (RequestedConfig s) as m. induction sections as [|y l IH]; intros m; simpl.
  - split; [by left|]. intros [?|?%not_elem_of_nil]; done.
  - rewrite IH, lookup_insert_is_Some', elem_of_cons. naive_solver.
Qed.

Lemma elem_of_TakeRequestedConfigs s x :
  x ∈ (TakeRequestedConfigs s).1 ↔ is_Some (RequestedConfig s !! x).
Proof. apply elem_of_sorted_keys. Qed.

(** A file is unchanged right after its hash was recorded, unless the hash is empty. *)
Lemma UpdateFileMD5_unchanged md5 filepath s s' h :
  md5 filepath = Some h → h ≠ "" → UpdateFileMD5 md5 filepath s = Some s' → FileHasChanged md5 s' filepath = false.
Proof.
  intros Hm Hh. unfold UpdateFileMD5, FileHasChanged. rewrite Hm. intros [= <-].
  unfold GetFileMD5. cbn. rewrite lookup_insert_eq. cbn. apply String.eqb_neq in Hh as ->.
  by rewrite String.eqb_refl.
Qed.
