(* ===== verification/Base64.v ===== *)
(** * Base64: encoding/base64.StdEncoding, as the mapped files use it

    [EncodeToString] and [DecodeString] of the standard alphabet with padding.
    Decoding skips line breaks and, like Go's non-strict decoder, does not look
    at the trailing bits of a padded group. *)
From S2P Require Import Prelude.

(** Six bits, most significant first. *)
Record sextet := Six { b5 : bool; b4 : bool; b3 : bool; b2 : bool; b1 : bool; b0 : bool }.

Definition bit (b : bool) (n : N) : N := if b then n else 0%N.

Definition value (s : sextet) : N :=
  bit (b5 s) 32 + bit (b4 s) 16 + bit (b3 s) 8 + bit (b2 s) 4 + bit (b1 s) 2 + bit (b0 s) 1.

Definition encode_char (s : sextet) : ascii :=
  let n := value s in
  if (n <? 26)%N then ascii_of_N (n + 65)
  else if (n <? 52)%N then ascii_of_N (n - 26 + 97)
  else if (n <? 62)%N then ascii_of_N (n - 52 + 48)
  else if (n =? 62)%N then "+"%char else "/"%char.

Definition sextet_of (n : N) : sextet :=
  Six (N.testbit n 5) (N.testbit n 4) (N.testbit n 3) (N.testbit n 2) (N.testbit n 1) (N.testbit n 0).

Definition decode_char (c : ascii) : option sextet :=
  if in_range 65 90 c then Some (sextet_of (byte c - 65))
  else if in_range 97 122 c then Some (sextet_of (byte c - 97 + 26))
  else if in_range 48 57 c then Some (sextet_of (byte c - 48 + 52))
  else if Ascii.eqb c "+" then Some (sextet_of 62)
  else if Ascii.eqb c "/" then Some (sextet_of 63)
  else None.

Lemma decode_encode_char s : decode_char (encode_char s) = Some s.
Proof. by destruct s as [[] [] [] [] [] []]. Qed.

Lemma encode_char_plain s :
  encode_char s ≠ "="%char ∧ encode_char s ≠ "010"%char ∧ encode_char s ≠ "013"%char.
Proof. by destruct s as [[] [] [] [] [] []]. Qed.

(** Three bytes are four sextets; an [ascii] lists its bits from the lowest. *)
Definition first6 (a : ascii) : sextet :=
  let '(Ascii a0 a1 a2 a3 a4 a5 a6 a7) := a in Six a7 a6 a5 a4 a3 a2.
Definition mid6 (a b : ascii) : sextet :=
  let '(Ascii a0 a1 _ _ _ _ _ _) := a in let '(Ascii _ _ _ _ b4 b5 b6 b7) := b in Six a1 a0 b7 b6 b5 b4.
Definition mid6' (b c : ascii) : sextet :=
  let '(Ascii b0 b1 b2 b3 _ _ _ _) := b in let '(Ascii _ _ _ _ _ _ c6 c7) := c in Six b3 b2 b1 b0 c7 c6.
Definition last6 (c : ascii) : sextet :=
  let '(Ascii c0 c1 c2 c3 c4 c5 _ _) := c in Six c5 c4 c3 c2 c1 c0.

Definition byte1 (s t : sextet) : ascii := Ascii (b4 t) (b5 t) (b0 s) (b1 s) (b2 s) (b3 s) (b4 s) (b5 s).
Definition byte2 (t u : sextet) : ascii := Ascii (b2 u) (b3 u) (b4 u) (b5 u) (b0 t) (b1 t) (b2 t) (b3 t).
Definition byte3 (u v : sextet) : ascii := Ascii (b0 v) (b1 v) (b2 v) (b3 v) (b4 v) (b5 v) (b0 u) (b1 u).

Fixpoint EncodeToString (s : string) : string :=
  match s with
  | EmptyString => EmptyString
  | String a EmptyString =>
      String (encode_char (first6 a)) (String (encode_char (mid6 a "000")) "==")
  | String a (String b EmptyString) =>
      String (encode_char (first6 a)) (String (encode_char (mid6 a b))
        (String (encode_char (mid6' b "000")) "="))
  | String a (String b (String c s)) =>
      String (encode_char (first6 a)) (String (encode_char (mid6 a b))
        (String (encode_char (mid6' b c)) (String (encode_char (last6 c)) (EncodeToString s))))
  end.

(** Decoding ignores carriage returns and newlines. *)
Fixpoint strip_breaks (s : string) : string :=
  match s with
  | EmptyString => EmptyString
  | String c s =>
      if Ascii.eqb c "010" || Ascii.eqb c "013" then strip_breaks s else String c (strip_breaks s)
  end.

Fixpoint decode_groups (s : string) : option string :=
  match s with
  | EmptyString => Some EmptyString
  | String c1 (String c2 (String c3 (String c4 rest))) =>
      x1 ← decode_char c1; x2 ← decode_char c2;
      if Ascii.eqb c3 "=" then
        if Ascii.eqb c4 "=" && String.eqb rest "" then Some (String (byte1 x1 x2) EmptyString) else None
      else
        x3 ← decode_char c3;
        if Ascii.eqb c4 "=" then
          if String.eqb rest "" then Some (String (byte1 x1 x2) (String (byte2 x2 x3) EmptyString)) else None
        else
          x4 ← decode_char c4; out ← decode_groups rest;
          Some (String (byte1 x1 x2) (String (byte2 x2 x3) (String (byte3 x3 x4) out)))
  | _ => None
  end.

Definition DecodeString (s : string) : option string := decode_groups (strip_breaks s).

(** ** Round trip *)
Lemma string_ind3 (P : string → Prop) :
  P EmptyString → (∀ a, P (String a EmptyString)) → (∀ a b, P (String a (String b EmptyString))) →
  (∀ a b c s, P s → P (String a (String b (String c s)))) → ∀ s, P s.
Proof.
  intros H0 H1 H2 H3. fix IH 1.
  intros [|a [|b [|c s]]]; [exact H0|apply H1|apply H2|apply H3, IH].
Qed.

Lemma strip_char x r : strip_breaks (String (encode_char x) r) = String (encode_char x) (strip_breaks r).
Proof.
  cbn [strip_breaks]. destruct (encode_char_plain x) as (_ & H10 & H13).
  apply Ascii.eqb_neq in H10 as ->. by apply Ascii.eqb_neq in H13 as ->.
Qed.

Lemma strip_encode s : strip_breaks (EncodeToString s) = EncodeToString s.
Proof.
  induction s as [|a|a b|a b c s IH] using string_ind3; cbn [EncodeToString];
    rewrite ?strip_char, ?IH; done.
Qed.

Lemma encode_char_eqb x : Ascii.eqb (encode_char x) "=" = false.
Proof. apply Ascii.eqb_neq, encode_char_plain. Qed.

Lemma bytes_of_sextets a b c :
  byte1 (first6 a) (mid6 a b) = a ∧ byte2 (mid6 a b) (mid6' b c) = b ∧ byte3 (mid6' b c) (last6 c) = c.
Proof. by destruct a, b, c. Qed.

Lemma DecodeString_EncodeToString s : DecodeString (EncodeToString s) = Some s.
Proof.
  unfold DecodeString. rewrite strip_encode.
  induction s as [|a|a b|a b c s IH] using string_ind3; cbn [EncodeToString decode_groups]; [done|..];
    rewrite ?decode_encode_char; cbn [mbind option_bind Ascii.eqb Bool.eqb andb String.eqb];
    rewrite ?encode_char_eqb, ?decode_encode_char; cbn [mbind option_bind].
  - by destruct (bytes_of_sextets a "000" "000") as (-> & _ & _).
  - by destruct (bytes_of_sextets a b "000") as (-> & -> & _).
  - rewrite IH. cbn. by destruct (bytes_of_sextets a b c) as (-> & -> & ->).
Qed.
