(* ===== verification/Observe.v ===== *)
(** * Observe: configmgr lookups (manager.go, manager_plan.go)

    The typed lookups of the config manager and [Observe], which completes a
    snapshot with the value of every lookup the parsed zmconfigd.cf depends on; and
    what a cycle observes. *)
From S2P Require Import Prelude Config Snapshot State Base64.

(** ** Errors of a lookup

    A miss matches [errLookupNotFound], a missing file [fs.ErrNotExist]; every
    other error is a lookup that could not be performed. *)
Inductive LookupError := LookupMiss | LookupNotExist | LookupFailed (msg : string).

Definition lookupIsMissing (err : LookupError) : bool :=
  match err with LookupMiss | LookupNotExist => true | LookupFailed _ => false end.

(** ** The host, as the lookups read it

    [Transform] is the line transformer the manager is wired with; errors keep
    what they wrap. *)
Record Env := {
  ReadFile : string → LookupError + string;
  Stat : string → option LookupError;
  Transform : string → LookupError + string }.

Section lookup.
Variables (mainConfig : Config) (env : Env).

(** The lines of a FILE lookup: transformed, trimmed, empty ones dropped; the
    first transform error ends the lookup. *)
Fixpoint transform_lines (lines : list string) : LookupError + list string :=
  match lines with
  | [] => inr []
  | line :: lines =>
      match Transform env line with
      | inl err => inl err
      | inr transformed =>
          match transform_lines lines with
          | inl err => inl err
          | inr rest => inr (if String.eqb (TrimSpace transformed) "" then rest else TrimSpace transformed :: rest)
          end
      end
  end.

(** What the file of a FILE key says now. *)
Definition file_value (key : string) : LookupError + string :=
  match ReadFile env (TemplatePath mainConfig ("conf/" +:+ key)) with
  | inl err => inl err
  | inr content =>
      match transform_lines (SplitByte newline content) with
      | inl err => inl err
      | inr lines => inr (Join lines ", ")
      end
  end.

Definition lookupFileKey (key : string) (st : State) : (LookupError + string) * State :=
  match LookupFile st key with
  | Some val => (inr val, st)
  | None =>
      match file_value key with
      | inl err => (inl err, st)
      | inr value => (inr value, StoreFile key value st)
      end
  end.

Definition lookupMappedFileKey (key : string) : LookupError + string :=
  match MAPPEDFILES !! key with
  | None => inl LookupMiss
  | Some mappedPath =>
      let fullPath := BaseDir mainConfig +:+ "/" +:+ mappedPath in
      match Stat env fullPath with
      | None => inr fullPath
      | Some LookupNotExist => inr ""
      | Some _ => inl (LookupFailed ("error stating file " +:+ fullPath))
      end
  end.

Definition found (o : option string) : LookupError + string :=
  match o with Some v => inr v | None => inl LookupMiss end.

Definition LookUpConfig (cfgType key : string) (st : State) : (LookupError + string) * State :=
  let snap := Some (State_Snapshot st) in
  if String.eqb cfgType TypeVar then (found (Var snap key), st)
  else if String.eqb cfgType TypeLocal then (found (Local snap key), st)
  else if String.eqb cfgType TypeFile then lookupFileKey key st
  else if String.eqb cfgType TypeMapFile || String.eqb cfgType TypeMapLocal then (lookupMappedFileKey key, st)
  else if String.eqb cfgType TypeService then (found (Value snap TypeService key), st)
  else (inl (LookupFailed ("unknown config type " +:+ cfgType)), st).

(** ** Mapped files *)
Definition mappedFileBase64 (snap : option Snapshot) (key : string) : string :=
  let val := default "" (Var snap key) in
  if String.eqb val "" then ""
  else match DecodeString val with Some _ => val | None => EncodeToString val end.

Definition mapfilePath (snap : option Snapshot) (key : string) : string :=
  match MAPPEDFILES !! key with
  | None => ""
  | Some relPath =>
      if String.eqb (mappedFileBase64 snap key) "" then ""
      else BaseDir mainConfig +:+ "/" +:+ relPath
  end.

(** ** Observing *)
Local Abbreviation Obs := (gmap (string * string) string).

Definition observeOne (base : Snapshot) (lookupType key : string) (acc : Obs * State) : Obs * State :=
  let '(obs, st) := acc in
  match obs !! (lookupType, key) with
  | Some _ => acc
  | None =>
      if String.eqb lookupType TypeMapFile
      then (<[(lookupType, key) := mapfilePath (Some (State_Snapshot st)) key]> obs, st)
      else
        let '(r, st) := LookUpConfig lookupType key st in
        match r with
        | inr value => (<[(lookupType, key) := value]> obs, st)
        | inl err =>
            if lookupIsMissing err then (<[(lookupType, key) := ""]> obs, st)
            else (<[(lookupType, key) := default "" (Observed (Some base) lookupType key)]> obs, st)
        end
  end.

(** The lookups of a section: its required variables, then its conditions.  Go
    ranges over the required variables in map order; [Observe_spec] shows that
    the order does not matter. *)
Definition section_lookups (section : MtaConfigSection) : list (string * string) :=
  ((λ kv, (kv.2, TrimPrefix kv.1 "!")) <$> sorted_items (sec_RequiredVars section)) ++
  ((λ c, (cond_Type c, TrimPrefix (cond_Key c) "!")) <$> sec_Conditionals section).

Definition observeSection (base : Snapshot) (acc : Obs * State) (section : MtaConfigSection) : Obs * State :=
  foldl (λ acc id, observeOne base id.1 id.2 acc) acc (section_lookups section).

Definition Observe (base : Snapshot) (conf : MtaConfig) (st : State) : Snapshot * State :=
  let '(obs, st) := foldl (observeSection base) (∅, st) (sorted_items (mta_Sections conf)).*2 in
  (WithObserved (Some base) obs, st).

(** ** What is observed

    [observed_value] is what one lookup contributes, from the state the cycle
    started with: independent of the other lookups and of their order. *)
Definition observed_value (base : Snapshot) (st : State) (lookupType key : string) : string :=
  if String.eqb lookupType TypeMapFile then mapfilePath (Some (State_Snapshot st)) key
  else match (LookUpConfig lookupType key st).1 with
       | inr value => value
       | inl err => if lookupIsMissing err then "" else default "" (Observed (Some base) lookupType key)
       end.

Definition needed (conf : MtaConfig) (id : string * string) : Prop :=
  ∃ name section, mta_Sections conf !! name = Some section ∧ id ∈ section_lookups section.

(** A state the lookups of a cycle can lead to: FILE values read since are cached. *)
Record cached_from (st0 st : State) : Prop := {
  cf_snap : st_snap st = st_snap st0;
  cf_rest : ForcedConfig st = ForcedConfig st0 ∧ RequestedConfig st = RequestedConfig st0 ∧
            MtaConfig_ st = MtaConfig_ st0 ∧ FirstRun_ st = FirstRun_ st0;
  cf_cache k : FileCache st !! k = FileCache st0 !! k ∨
               (FileCache st0 !! k = None ∧ ∃ v, FileCache st !! k = Some v ∧ file_value k = inr v) }.

Lemma lookupFileKey_cached st0 st key : cached_from st0 st →
  (lookupFileKey key st).1 = (lookupFileKey key st0).1 ∧ cached_from st0 (lookupFileKey key st).2.
Proof.
  intros [Hs Hr Hc]. unfold lookupFileKey, LookupFile.
  destruct (Hc key) as [E|(E0 & v & E & Hv)].
  - rewrite E. destruct (FileCache st0 !! key) as [v|] eqn:E0; [split; [done|by split]|].
    destruct (file_value key) as [err|v] eqn:Ev; (split; [done|]); [by split|].
    split; [done|done|]. intros k. cbn [FileCache StoreFile set_file_cache snd].
    destruct (decide (k = key)) as [->|Hne].
    + right. split; [done|]. exists v. split; [apply lookup_insert_eq|done].
    + by rewrite lookup_insert_ne.
  - rewrite E, E0, Hv. split; [done|by split].
Qed.

Lemma LookUpConfig_cached st0 st t k : cached_from st0 st →
  (LookUpConfig t k st).1 = (LookUpConfig t k st0).1 ∧ cached_from st0 (LookUpConfig t k st).2.
Proof.
  intros H. pose proof H as [Hs _ _]. unfold LookUpConfig, State_Snapshot. rewrite Hs.
  repeat (case_match; [first [by apply lookupFileKey_cached|by split]|]). by split.
Qed.

(** The observations so far: the values of exactly the lookups [done]. *)
Definition obs_of (base : Snapshot) (st0 : State) (looked : list (string * string)) (obs : Obs) : Prop :=
  ∀ id, obs !! id = if decide (id ∈ looked) then Some (observed_value base st0 id.1 id.2) else None.

Lemma observeOne_spec base st0 looked t k obs st :
  obs_of base st0 looked obs → cached_from st0 st →
  obs_of base st0 (looked ++ [(t, k)]) (observeOne base t k (obs, st)).1 ∧
  cached_from st0 (observeOne base t k (obs, st)).2.
Proof.
  intros Ho Hst. assert (∀ v, v = observed_value base st0 t k →
    obs_of base st0 (looked ++ [(t, k)]) (<[(t, k) := v]> obs)) as Hins.
  { intros v -> id. destruct (decide (id = (t, k))) as [->|Hne].
    - rewrite lookup_insert_eq, decide_True by set_solver. done.
    - rewrite lookup_insert_ne, Ho by done. case_decide; [rewrite decide_True by set_solver|
        rewrite decide_False by set_solver]; done. }
  destruct (LookUpConfig_cached st0 st t k Hst) as [Hv Hst'].
  unfold observeOne. destruct (obs !! (t, k)) as [v|] eqn:E.
  - split; [|done]. intros id. cbn [fst]. rewrite Ho. rewrite Ho in E.
    destruct (decide ((t, k) ∈ looked)) as [Hd|]; [|done].
    case_decide; [rewrite decide_True by set_solver|rewrite decide_False by set_solver]; done.
  - unfold observed_value in Hins. destruct (String.eqb t TypeMapFile) eqn:Et.
    + split; [|done]. cbn [fst]. apply Hins. unfold State_Snapshot. by destruct Hst as [-> _ _].
    + destruct (LookUpConfig t k st) as [r st']. cbn [fst snd] in *. rewrite <- Hv in Hins.
      destruct r as [err|v]; [destruct (lookupIsMissing err)|]; (split; [by apply Hins|done]).
Qed.

Lemma observe_fold base st0 ids looked obs st :
  obs_of base st0 looked obs → cached_from st0 st →
  let r := foldl (λ acc id, observeOne base id.1 id.2 acc) (obs, st) ids in
  obs_of base st0 (looked ++ ids) r.1 ∧ cached_from st0 r.2.
Proof.
  cbn zeta. revert looked obs st. induction ids as [|[t k] ids IH]; intros looked obs st Ho Hst; cbn [foldl].
  { by rewrite app_nil_r. }
  destruct (observeOne_spec base st0 looked t k obs st Ho Hst) as [Ho' Hst'].
  cbn [fst snd]. destruct (observeOne base t k (obs, st)) as [obs' st'].
  rewrite (cons_middle (t, k)), app_assoc. by apply IH.
Qed.

Lemma observe_sections base st0 sections looked obs st :
  obs_of base st0 looked obs → cached_from st0 st →
  let r := foldl (observeSection base) (obs, st) sections in
  obs_of base st0 (looked ++ mjoin (section_lookups <$> sections)) r.1 ∧ cached_from st0 r.2.
Proof.
  cbn zeta. revert looked obs st. induction sections as [|s l IH]; intros looked obs st Ho Hst; cbn [foldl].
  { change (mjoin (section_lookups <$> [])) with (@nil (string * string)). by rewrite app_nil_r. }
  destruct (observe_fold base st0 (section_lookups s) looked obs st Ho Hst) as [Ho' Hst'].
  unfold observeSection at 2 4. destruct (foldl _ (obs, st) (section_lookups s)) as [obs' st'].
  change (mjoin (section_lookups <$> s :: l)) with (section_lookups s ++ mjoin (section_lookups <$> l)).
  rewrite app_assoc. by apply IH.
Qed.

Lemma Observe_result base conf st :
  (∀ id, needed conf id →
     Observed (Some (Observe base conf st).1) id.1 id.2 = Some (observed_value base st id.1 id.2)) ∧
  (∀ id, ¬ needed conf id → Observed (Some (Observe base conf st).1) id.1 id.2 = None) ∧
  cached_from st (Observe base conf st).2.
Proof.
  set (ids := mjoin (section_lookups <$> (sorted_items (mta_Sections conf)).*2)).
  assert (∀ id, id ∈ ids ↔ needed conf id) as Hids.
  { intros id. unfold ids, needed. rewrite list_elem_of_join. setoid_rewrite list_elem_of_fmap.
    setoid_rewrite list_elem_of_fmap. split.
    - intros (l & Hid & s & -> & [name s'] & -> & Hs%elem_of_sorted_items). eauto.
    - intros (name & s & Hs & Hid). exists (section_lookups s). split; [done|]. exists s. split; [done|].
      exists (name, s). by rewrite elem_of_sorted_items. }
  destruct (observe_sections base st (sorted_items (mta_Sections conf)).*2 [] ∅ st) as [Ho Hst].
  { intros id. rewrite decide_False by (by intros ?%not_elem_of_nil). apply lookup_empty. }
  { split; [done|done|by left]. }
  unfold Observe. destruct (foldl (observeSection base) (∅, st) _) as [obs st']. cbn [fst snd app] in *.
  fold ids in Ho. split_and!; [| |done]; intros [t k] Hid; cbn; rewrite Ho.
  - by rewrite decide_True by (by apply Hids).
  - by rewrite decide_False by (by rewrite Hids).
Qed.
End lookup.

(** ** What a cycle observes *)

(** [Observe] records exactly the lookups of the configuration (the required
    variables and the conditions of every section), each with a value that does
    not depend on the order of the lookups: a variable, local or service value
    comes from the published snapshot ("" when it is undefined), and a FILE that
    cannot be read or transformed keeps the value observed by the previous cycle,
    so that a transient error is not a change. The other layers are kept. *)
Theorem Observe_spec cfg env base conf st :
  let '(cur, _) := Observe cfg env base conf st in
  let snap := Some (State_Snapshot st) in
  (∀ t k, ¬ needed conf (t, k) → Observed (Some cur) t k = None) ∧
  (∀ k, needed conf (TypeVar, k) → Observed (Some cur) TypeVar k = Some (default "" (Var snap k))) ∧
  (∀ k, needed conf (TypeLocal, k) → Observed (Some cur) TypeLocal k = Some (default "" (Local snap k))) ∧
  (∀ k, needed conf (TypeService, k) →
     Observed (Some cur) TypeService k = Some (if ServiceEnabled snap k then "TRUE" else "FALSE")) ∧
  (∀ k, needed conf (TypeMapFile, k) → Observed (Some cur) TypeMapFile k = Some (mapfilePath cfg snap k)) ∧
  (∀ k v, needed conf (TypeFile, k) → LookupFile st k = None → file_value cfg env k = inr v →
     Observed (Some cur) TypeFile k = Some v) ∧
  (∀ k msg, needed conf (TypeFile, k) → LookupFile st k = None → file_value cfg env k = inl (LookupFailed msg) →
     Observed (Some cur) TypeFile k = Some (default "" (Observed (Some base) TypeFile k))) ∧
  (∀ k, Var (Some cur) k = Var (Some base) k ∧ Local (Some cur) k = Local (Some base) k ∧
        ServiceEnabled (Some cur) k = ServiceEnabled (Some base) k).
Proof.
  destruct (Observe_result cfg env base conf st) as (Hin & Hout & _).
  assert (∀ k, Var (Some (Observe cfg env base conf st).1) k = Var (Some base) k ∧
    Local (Some (Observe cfg env base conf st).1) k = Local (Some base) k ∧
    ServiceEnabled (Some (Observe cfg env base conf st).1) k = ServiceEnabled (Some base) k) as Hkeep.
  { intros k. unfold Observe. by destruct (foldl _ _ _). }
  destruct (Observe cfg env base conf st) as [cur st']. cbn [fst] in *. cbn zeta.
  assert (∀ t k, needed conf (t, k) → Observed (Some cur) t k = Some (observed_value cfg env base st t k)) as Hin'
    by (intros t k Hn; apply (Hin (t, k) Hn)).
  split_and!; [..|done].
  - intros t k Hn. apply (Hout (t, k) Hn).
  - intros k Hn. rewrite (Hin' _ _ Hn). cbn. by destruct (Var _ k).
  - intros k Hn. rewrite (Hin' _ _ Hn). cbn. by destruct (snap_local _ !! k).
  - intros k Hn. by rewrite (Hin' _ _ Hn).
  - intros k Hn. by rewrite (Hin' _ _ Hn).
  - intros k v Hn Hc Hv. rewrite (Hin' _ _ Hn). unfold observed_value. cbn. unfold lookupFileKey. by rewrite Hc, Hv.
  - intros k msg Hn Hc Hv. rewrite (Hin' _ _ Hn). unfold observed_value. cbn. unfold lookupFileKey. by rewrite Hc, Hv.
Qed.

(** The content of a mapped file survives its encoding: a value that is not base64
    itself (a PEM) decodes back to the very bytes configured, one that already is
    base64 is passed on as it is, and the file has no path exactly when the key is
    not a mapped file or nothing is configured for it. *)
Theorem mappedFile_roundtrip cfg snap key val :
  Var snap key = Some val → val ≠ "" →
  (DecodeString val = None → DecodeString (mappedFileBase64 snap key) = Some val) ∧
  (∀ raw, DecodeString val = Some raw → mappedFileBase64 snap key = val) ∧
  (mapfilePath cfg snap key = "" ↔ MAPPEDFILES !! key = None).
Proof.
  intros Hv Hne. unfold mapfilePath, mappedFileBase64. rewrite Hv. cbn [default from_option id].
  apply String.eqb_neq in Hne as Hb. rewrite Hb. split_and!.
  - intros ->. apply DecodeString_EncodeToString.
  - by intros raw ->.
  - destruct (MAPPEDFILES !! key) as [rel|]; [|done].
    assert (match DecodeString val with Some _ => val | None => EncodeToString val end ≠ "") as Hn.
    { destruct (DecodeString val); [done|]. by destruct val as [|a [|b [|c s]]]. }
    apply String.eqb_neq in Hn as ->. split; [|done].
    intros E. apply (f_equal String.length) in E. rewrite !length_string_app in E. simpl in E. lia.
Qed.

Lemma mappedFile_roundtrip_witness :
  DecodeString (mappedFileBase64 (Some (WithGlobal None {["zimbraSSLDHParam" := "-----BEGIN"]})) "zimbraSSLDHParam") =
    Some "-----BEGIN".
Proof.
  apply (mappedFile_roundtrip (NewConfigWithHostname "/opt/zextras" "h")
    (Some (WithGlobal None {["zimbraSSLDHParam" := "-----BEGIN"]})) "zimbraSSLDHParam" "-----BEGIN");
    [reflexivity|discriminate|reflexivity].
Defined.
