(* ===== verification/Actions.v ===== *)
(** * Actions: configmgr/manager_actions_mta.go, manager_actions_rewrite.go,
    manager_plan.go (Execute)

    The execution of a plan: mapped files, proxygen, template rewrites, postconf,
    postconfd and LDAP writes, and what is left to be retried.

    The steps of [Execute] run concurrently and each owns one field of the carry;
    they are run here one after the other against a world [W] whose answers are
    arbitrary, so every outcome the concurrent steps can see is an outcome here.

    Every entry of the plan is carried out or carried to the next cycle, and
    without a shutdown an execution without errors carries only the restarts. *)
From S2P Require Import Prelude Config Snapshot Plan State Base64 Observe.

Definition error := string.

(** ** What a step calls *)
Record Executor (W : Type) := {
  cancelled : W → bool * W;
  processRewrite_ : string → RewriteEntry → W → option error * W;
  ExecutePostconfBatch : list (string * string) → W → option error * W;
  ExecutePostconf : string → string → W → option error * W;
  ExecutePostconfdBatch : list string → W → option error * W;
  ExecuteLdapWrite : string → string → W → option error * W;
  ExecuteMapfile : string → bool → string → W → option error * W;
  RunProxygenWithConfigs : W → option error * W;
  ResolveValue : string → string → Snapshot → W → (error + string) * W;
  lookupFileValue : string → W → (error + string) * W }.

Arguments cancelled {W}. Arguments processRewrite_ {W}. Arguments ExecutePostconfBatch {W}.
Arguments ExecutePostconf {W}. Arguments ExecutePostconfdBatch {W}. Arguments ExecuteLdapWrite {W}.
Arguments ExecuteMapfile {W}. Arguments RunProxygenWithConfigs {W}. Arguments ResolveValue {W}.
Arguments lookupFileValue {W}.

(** An operation that was carried out successfully. *)
Inductive Op :=
  | OpMapfile (key : string) (isLocal : bool) (base64 : string)
  | OpProxygen
  | OpRewrite (source : string) (entry : RewriteEntry)
  | OpPostconf (key value : string)
  | OpPostconfd (key : string)
  | OpLdap (key value : string).

(** ** Value specifications *)
Definition parseValueSpec (valueSpec : string) : string * string :=
  match CutByte ":" valueSpec with
  | Some (prefix, after) =>
      if bool_decide (prefix ∈ [TypeVar; TypeLocal; TypeMapLocal]) then (prefix, after)
      else ("LITERAL", valueSpec)
  | None =>
      if HasPrefix valueSpec "FILE " then (TypeFile, TrimPrefix valueSpec "FILE ")
      else ("LITERAL", valueSpec)
  end.

Definition normalizePostconfBool (valueSpec resolved : string) : string :=
  if String.eqb (parseValueSpec valueSpec).1 "LITERAL" then resolved
  else if String.eqb (ToUpper resolved) "TRUE" then "yes"
  else if String.eqb (ToUpper resolved) "FALSE" then "no"
  else resolved.

Section actions.
Context {W : Type} (ex : Executor W).
(** The published snapshot of the cycle. *)
Variable snap : Snapshot.

(** The world, the errors and the operations that succeeded. *)
Record Exec := { xw : W; xerrs : list error; xops : list Op }.

Definition with_xw (w : W) (x : Exec) : Exec := {| xw := w; xerrs := xerrs x; xops := xops x |}.
Definition fail (e : error) (w : W) (x : Exec) : Exec :=
  {| xw := w; xerrs := xerrs x ++ [e]; xops := xops x |}.
Definition did (ops : list Op) (w : W) (x : Exec) : Exec :=
  {| xw := w; xerrs := xerrs x; xops := xops x ++ ops |}.

Definition is_cancelled (x : Exec) : bool * Exec :=
  let '(b, w) := cancelled ex (xw x) in (b, with_xw w x).

Definition resolveValueSpec (key valueSpec : string) (w : W) : (error + string) * W :=
  let '(valueType, valueKey) := parseValueSpec valueSpec in
  if String.eqb valueType "LITERAL" then (inr valueKey, w)
  else if String.eqb valueType TypeFile then lookupFileValue ex valueKey w
  else match ResolveValue ex valueType valueKey snap w with
       | (inl err, w) => (inl ("failed to resolve value for key " +:+ key +:+ ": " +:+ err), w)
       | (inr v, w) => (inr v, w)
       end.

(** ** Mapped files *)
Definition syncMapfile (m : Mapfile) (w : W) : option error * W :=
  ExecuteMapfile ex (mf_Key m) (mf_Local m)
    (if mf_Local m then "" else mappedFileBase64 (Some snap) (mf_Key m)) w.

Definition map_op (m : Mapfile) : Op :=
  OpMapfile (mf_Key m) (mf_Local m) (if mf_Local m then "" else mappedFileBase64 (Some snap) (mf_Key m)).

Fixpoint doMapfile (entries : list Mapfile) (x : Exec) : Exec :=
  match entries with
  | [] => x
  | m :: entries =>
      let '(c, x) := is_cancelled x in
      if c : bool then x
      else match syncMapfile m (xw x) with
           | (Some err, w) => doMapfile entries (fail err w x)
           | (None, w) => doMapfile entries (did [map_op m] w x)
           end
  end.

(** Failures are only logged. *)
Fixpoint healMapfiles (entries : list Mapfile) (x : Exec) : Exec :=
  match entries with
  | [] => x
  | m :: entries =>
      match syncMapfile m (xw x) with
      | (Some _, w) => healMapfiles entries (with_xw w x)
      | (None, w) => healMapfiles entries (did [map_op m] w x)
      end
  end.

(** ** Proxygen *)
Definition runProxygen (req : option Proxygen) (x : Exec) : option Proxygen * Exec :=
  match req with
  | None => (None, x)
  | Some p =>
      match RunProxygenWithConfigs ex (xw x) with
      | (Some err, w) => (Some p, fail ("proxygen failed: " +:+ err) w x)
      | (None, w) => (None, did [OpProxygen] w x)
      end
  end.

(** ** Rewrites *)
Definition rewrite_entry (e : Rewrite) : RewriteEntry := {| re_Value := rw_Target e; re_Mode := rw_Mode e |}.

(** The workers; the result is the sources that were completed. *)
Fixpoint rewrite_workers (entries : list Rewrite) (completed : gset string) (x : Exec) : gset string * Exec :=
  match entries with
  | [] => (completed, x)
  | e :: entries =>
      let '(c, x) := is_cancelled x in
      if c : bool then (completed, x)
      else match processRewrite_ ex (rw_Source e) (rewrite_entry e) (xw x) with
           | (Some err, w) => rewrite_workers entries completed (fail err w x)
           | (None, w) =>
               rewrite_workers entries ({[rw_Source e]} ∪ completed)
                 (did [OpRewrite (rw_Source e) (rewrite_entry e)] w x)
           end
  end.

Definition doRewrites (entries : list Rewrite) (x : Exec) : list Rewrite * Exec :=
  let '(completed, x) := rewrite_workers entries ∅ x in
  (filter (λ e, rw_Source e ∉ completed) entries, x).

(** ** Postconf *)

(** Resolving the values: the operations and the keys to retry, or [None] when a
    shutdown arrived before anything was applied. *)
Fixpoint resolve_postconf (entries : list Postconf) (ops : list (string * string)) (retry : gset string)
    (x : Exec) : option (list (string * string) * gset string) * Exec :=
  match entries with
  | [] => (Some (ops, retry), x)
  | e :: entries =>
      let '(c, x) := is_cancelled x in
      if c : bool then (None, x)
      else match resolveValueSpec (pc_Key e) (pc_Value e) (xw x) with
           | (inl err, w) => resolve_postconf entries ops ({[pc_Key e]} ∪ retry) (fail err w x)
           | (inr v, w) =>
               resolve_postconf entries (ops ++ [(pc_Key e, normalizePostconfBool (pc_Value e) v)]) retry
                 (with_xw w x)
           end
  end.

Fixpoint postconf_each (ops : list (string * string)) (retry : gset string) (x : Exec) : gset string * Exec :=
  match ops with
  | [] => (retry, x)
  | (k, v) :: ops =>
      match ExecutePostconf ex k v (xw x) with
      | (Some err, w) => postconf_each ops ({[k]} ∪ retry) (fail err w x)
      | (None, w) => postconf_each ops retry (did [OpPostconf k v] w x)
      end
  end.

(** One call for all; when it fails, one per key.  The batch's own error is only logged. *)
Definition executePostconfOps (ops : list (string * string)) (retry : gset string) (x : Exec) : gset string * Exec :=
  if is_nil ops then (retry, x)
  else match ExecutePostconfBatch ex ops (xw x) with
       | (None, w) => (retry, did ((λ kv, OpPostconf kv.1 kv.2) <$> ops) w x)
       | (Some _, w) => postconf_each ops retry (with_xw w x)
       end.

Definition doPostconf (entries : list Postconf) (x : Exec) : list Postconf * Exec :=
  match resolve_postconf entries [] ∅ x with
  | (None, x) => (entries, x)
  | (Some (ops, retry), x) =>
      let '(retry, x) := executePostconfOps ops retry x in
      (filter (λ e, pc_Key e ∈ retry) entries, x)
  end.

(** ** Postconfd: one batch *)
Fixpoint collect_postconfd (entries : list Postconfd) (x : Exec) : bool * Exec :=
  match entries with
  | [] => (false, x)
  | _ :: entries =>
      let '(c, x) := is_cancelled x in
      if c : bool then (true, x) else collect_postconfd entries x
  end.

Definition doPostconfd (entries : list Postconfd) (x : Exec) : list Postconfd * Exec :=
  if is_nil entries then ([], x)
  else
    let '(c, x) := collect_postconfd entries x in
    if c : bool then (entries, x)
    else match ExecutePostconfdBatch ex (pd_Key <$> entries) (xw x) with
         | (Some err, w) => (entries, fail err w x)
         | (None, w) => ([], did ((λ e, OpPostconfd (pd_Key e)) <$> entries) w x)
         end.

(** ** LDAP writes *)
Fixpoint doLdap (entries pending : list Ldap) (x : Exec) : list Ldap * Exec :=
  match entries with
  | [] => (pending, x)
  | e :: rest =>
      let '(c, x) := is_cancelled x in
      if c : bool then (pending ++ entries, x)
      else match resolveValueSpec (ld_Key e) (ld_Value e) (xw x) with
           | (inl err, w) => doLdap rest (pending ++ [e]) (fail err w x)
           | (inr v, w) =>
               match ExecuteLdapWrite ex (ld_Key e) v w with
               | (Some err, w) => doLdap rest (pending ++ [e]) (fail err w x)
               | (None, w) => doLdap rest pending (did [OpLdap (ld_Key e) v] w x)
               end
           end
  end.

(** ** Execute: the carry, and the errors and operations *)
Definition Execute (pl : Plan) (x : Exec) : Carry * Exec :=
  let x := healMapfiles (p_Heal pl) x in
  let x := doMapfile (p_Mapfiles pl) x in
  let '(proxygen, x) := runProxygen (p_Proxygen pl) x in
  let '(rewrites, x) := doRewrites (p_Rewrites pl) x in
  let '(postconf, x) := doPostconf (p_Postconf pl) x in
  let '(postconfd, x) := doPostconfd (p_Postconfd pl) x in
  let '(ldap, x) := doLdap (p_Ldap pl) [] x in
  ({| c_Rewrites := rewrites; c_Postconf := postconf; c_Postconfd := postconfd; c_Ldap := ldap;
      c_Proxygen := proxygen; c_Restarts := p_Restarts pl |}, x).
End actions.

Arguments Exec : clear implicits.

(** ** The execution of a plan loses nothing *)

Section facts.
Context {W : Type} (ex : Executor W) (snap : Snapshot).
Local Abbreviation Exec := (Exec W).

(** Errors and operations only accumulate. *)
Definition grows (x x' : Exec) : Prop := xops x `prefix_of` xops x' ∧ xerrs x `prefix_of` xerrs x'.

#[export] Instance grows_preorder : PreOrder grows.
Proof. split; [by split|]. intros x y z [] []. split; by etrans. Qed.

Lemma grows_with w x : grows x (with_xw w x).
Proof. by split. Qed.
Lemma grows_fail e w x : grows x (fail e w x).
Proof. split; [done|]. by apply prefix_app_r. Qed.
Lemma grows_did ops w x : grows x (did ops w x).
Proof. split; [|done]. by apply prefix_app_r. Qed.
Lemma grows_cancelled x : grows x (is_cancelled ex x).2.
Proof. unfold is_cancelled. by destruct (cancelled ex (xw x)). Qed.

Lemma grows_op x x' o : grows x x' → o ∈ xops x → o ∈ xops x'.
Proof. intros [[l ->] _] H. rewrite elem_of_app. by left. Qed.

(** A failed attempt is an error that a later state still has. *)
Lemma grows_failed e w x x' : grows (fail e w x) x' → xerrs x' = xerrs x → False.
Proof.
  intros [_ [l E]] H. cbn in E. rewrite H, <- app_assoc in E.
  apply (f_equal length) in E. rewrite length_app in E. simpl in E. lia.
Qed.

Lemma grows_same x y z : grows x y → grows y z → xerrs z = xerrs x → xerrs y = xerrs x ∧ xerrs z = xerrs y.
Proof.
  intros [_ [l1 E1]] [_ [l2 E2]] H. rewrite E1 in E2. rewrite H, <- app_assoc in E2.
  apply (f_equal length) in E2 as Hl. rewrite !length_app in Hl.
  destruct l1; [|simpl in Hl; lia]. destruct l2; [|simpl in Hl; lia].
  rewrite app_nil_r in *. by rewrite H, E1.
Qed.

(** A step on [entries]: what it leaves pending is part of them, what it does not
    was [applied], and without a shutdown a step without errors leaves nothing. *)
Definition step_ok {E} (entries pending : list E) (applied : E → list Op → Prop) (x x' : Exec) : Prop :=
  grows x x' ∧ (∀ e, e ∈ pending → e ∈ entries) ∧
  (∀ e, e ∈ entries → e ∈ pending ∨ applied e (xops x')) ∧
  ((∀ w, (cancelled ex w).1 = false) → xerrs x' = xerrs x → pending = []).

Lemma doMapfile_grows entries x : grows x (doMapfile ex snap entries x).
Proof.
  revert x. induction entries as [|m l IH]; intros x; simpl; [done|].
  pose proof (grows_cancelled x) as Hc. destruct (is_cancelled ex x) as [[] x1]; [done|].
  etrans; [exact Hc|]. destruct (syncMapfile ex snap m (xw x1)) as [[e|] w];
    (etrans; [|apply IH]); [apply grows_fail|apply grows_did].
Qed.

Lemma healMapfiles_runs entries x : grows x (healMapfiles ex snap entries x).
Proof.
  revert x. induction entries as [|m l IH]; intros x; simpl; [done|].
  destruct (syncMapfile ex snap m (xw x)) as [[e|] w]; (etrans; [|apply IH]);
    [apply grows_with|apply grows_did].
Qed.

(** ** Proxygen *)
Lemma runProxygen_ok req x :
  grows x (runProxygen ex req x).2 ∧
  (∀ p, (runProxygen ex req x).1 = Some p → req = Some p) ∧
  (req ≠ None → (runProxygen ex req x).1 = req ∨ OpProxygen ∈ xops (runProxygen ex req x).2) ∧
  (xerrs (runProxygen ex req x).2 = xerrs x → (runProxygen ex req x).1 = None).
Proof.
  unfold runProxygen. destruct req as [p|]; [|by split_and!].
  destruct (RunProxygenWithConfigs ex (xw x)) as [[e|] w]; simpl.
  - split_and!; [apply grows_fail|done|by left|]. intros H. exfalso.
    eapply (grows_failed _ w x); [reflexivity|exact H].
  - split_and!; [apply grows_did|done| |done]. intros _. right. set_solver.
Qed.

(** ** Rewrites *)
Lemma rewrite_workers_ok entries completed x :
  let r := rewrite_workers ex entries completed x in
  grows x r.2 ∧ completed ⊆ r.1 ∧
  (∀ s, s ∈ r.1 → s ∈ completed ∨ ∃ e, e ∈ entries ∧ rw_Source e = s ∧ OpRewrite s (rewrite_entry e) ∈ xops r.2) ∧
  ((∀ w, (cancelled ex w).1 = false) → xerrs r.2 = xerrs x → ∀ e, e ∈ entries → rw_Source e ∈ r.1).
Proof.
  cbn zeta. revert completed x. induction entries as [|e l IH]; intros completed x; cbn [rewrite_workers].
  { split_and!; [done|done|by left|]. by intros ? ? ? ?%not_elem_of_nil. }
  unfold is_cancelled. destruct (cancelled ex (xw x)) as [c w] eqn:Ec. destruct c; cbn [fst snd].
  { split_and!; [apply grows_with|done|by left|]. intros Hn. specialize (Hn (xw x)). by rewrite Ec in Hn. }
  cbn [xw with_xw]. destruct (processRewrite_ ex (rw_Source e) (rewrite_entry e) w) as [[err|] w'].
  - destruct (IH completed (fail err w' (with_xw w x))) as (Hg & Hsub & Hdone & Herr).
    split_and!; [etrans; [apply (grows_fail err w' (with_xw w x))|exact Hg]|done| |].
    + intros s Hs. destruct (Hdone s Hs) as [?|(e' & ? & ? & ?)]; [by left|]. right. exists e'. set_solver.
    + intros _ H. exfalso. eapply (grows_failed err w' (with_xw w x)); [exact Hg|exact H].
  - destruct (IH ({[rw_Source e]} ∪ completed) (did [OpRewrite (rw_Source e) (rewrite_entry e)] w' (with_xw w x)))
      as (Hg & Hsub & Hdone & Herr).
    split_and!; [etrans; [eapply (grows_did _ w' (with_xw w x))|exact Hg]|set_solver| |].
    + intros s Hs. destruct (Hdone s Hs) as [[->%elem_of_singleton|?]%elem_of_union|(e' & ? & ? & ?)].
      * right. exists e. split_and!; [by left|done|]. eapply grows_op; [exact Hg|]. cbn. set_solver.
      * by left.
      * right. exists e'. set_solver.
    + intros Hn H e' [->|He']%elem_of_cons; [set_solver|]. by apply (Herr Hn).
Qed.

Lemma filter_nil_iff {A} (P : A → Prop) `{∀ x, Decision (P x)} l : (∀ x, x ∈ l → ¬ P x) → filter P l = [].
Proof.
  induction l as [|x l IH]; intros Hn; [done|]. rewrite filter_cons_False by (apply Hn; by left).
  apply IH. intros y Hy. apply Hn. by right.
Qed.

Definition rewrite_applied (e : Rewrite) (ops : list Op) : Prop :=
  ∃ e', rw_Source e' = rw_Source e ∧ OpRewrite (rw_Source e) (rewrite_entry e') ∈ ops.

Lemma doRewrites_ok entries x :
  step_ok entries (doRewrites ex entries x).1 rewrite_applied x (doRewrites ex entries x).2.
Proof.
  unfold doRewrites. destruct (rewrite_workers_ok entries ∅ x) as (Hg & _ & Hdone & Herr).
  destruct (rewrite_workers ex entries ∅ x) as [completed x']. simpl in *. split_and!; [done| | |].
  - by intros e [_ ?]%list_elem_of_filter.
  - intros e He. rewrite list_elem_of_filter. destruct (decide (rw_Source e ∈ completed)) as [Hc|]; [|by left].
    right. destruct (Hdone _ Hc) as [?%elem_of_empty|(e' & ? & Hs & ?)]; [done|]. by exists e'.
  - intros Hn H. apply filter_nil_iff. intros e He Hni. by apply Hni, (Herr Hn H).
Qed.

(** ** Postconfd *)
Lemma collect_postconfd_ok entries x :
  grows x (collect_postconfd ex entries x).2 ∧ xerrs (collect_postconfd ex entries x).2 = xerrs x ∧
  ((∀ w, (cancelled ex w).1 = false) → (collect_postconfd ex entries x).1 = false).
Proof.
  revert x. induction entries as [|e l IH]; intros x; simpl; [done|].
  unfold is_cancelled. destruct (cancelled ex (xw x)) as [[] w] eqn:Ec.
  - split_and!; [apply grows_with|done|]. intros Hn. specialize (Hn (xw x)). by rewrite Ec in Hn.
  - destruct (IH (with_xw w x)) as (Hg & He & Hn). split_and!; [|done|done].
    etrans; [apply (grows_with w)|exact Hg].
Qed.

Lemma doPostconfd_ok entries x :
  step_ok entries (doPostconfd ex entries x).1 (λ e ops, OpPostconfd (pd_Key e) ∈ ops) x (doPostconfd ex entries x).2.
Proof.
  unfold doPostconfd. destruct (is_nil entries) eqn:En.
  { destruct entries; [|done]. split_and!; [done|set_solver..|done]. }
  destruct (collect_postconfd_ok entries x) as (Hg & He & Hn).
  destruct (collect_postconfd ex entries x) as [[] x1]; simpl in *.
  { split_and!; [done|done|by left|]. intros Hc. by apply Hn in Hc. }
  destruct (ExecutePostconfdBatch ex _ (xw x1)) as [[err|] w]; simpl.
  - split_and!; [etrans; [exact Hg|apply grows_fail]|done|by left|]. intros _ H. exfalso.
    eapply (grows_failed err w x1); [reflexivity|]. rewrite He. exact H.
  - split_and!; [etrans; [exact Hg|apply grows_did]|set_solver| |done].
    intros e Hin. right. cbn [xops did]. rewrite elem_of_app, list_elem_of_fmap. right. eauto.
Qed.

(** ** LDAP writes *)
Definition ldap_applied (e : Ldap) (ops : list Op) : Prop := ∃ v, OpLdap (ld_Key e) v ∈ ops.

Lemma doLdap_ok entries pending x :
  let r := doLdap ex snap entries pending x in
  grows x r.2 ∧ (∀ e, e ∈ pending → e ∈ r.1) ∧ (∀ e, e ∈ r.1 → e ∈ pending ∨ e ∈ entries) ∧
  (∀ e, e ∈ entries → e ∈ r.1 ∨ ldap_applied e (xops r.2)) ∧
  ((∀ w, (cancelled ex w).1 = false) → xerrs r.2 = xerrs x → r.1 = pending).
Proof.
  cbn zeta. revert pending x. induction entries as [|e l IH]; intros pending x; cbn [doLdap].
  { split_and!; [done|done|by left| |done]. by intros ? ?%not_elem_of_nil. }
  unfold is_cancelled. destruct (cancelled ex (xw x)) as [[] w] eqn:Ec; cbn [fst snd].
  { split_and!; [apply grows_with|set_solver|set_solver|set_solver|].
    intros Hn. specialize (Hn (xw x)). by rewrite Ec in Hn. }
  assert (∀ err w', let r := doLdap ex snap l (pending ++ [e]) (fail err w' (with_xw w x)) in
    grows x r.2 ∧ (∀ e, e ∈ pending → e ∈ r.1) ∧ (∀ e0, e0 ∈ r.1 → e0 ∈ pending ∨ e0 ∈ e :: l) ∧
    (∀ e0, e0 ∈ e :: l → e0 ∈ r.1 ∨ ldap_applied e0 (xops r.2)) ∧
    ((∀ w, (cancelled ex w).1 = false) → xerrs r.2 = xerrs x → r.1 = pending)) as Hfail.
  { intros err w'. destruct (IH (pending ++ [e]) (fail err w' (with_xw w x))) as (Hg & Hk & Hsub & Hdone & _).
    cbn zeta. split_and!; [etrans; [apply (grows_fail err w' (with_xw w x))|exact Hg]|set_solver| |set_solver|].
    - intros e0 H0. destruct (Hsub e0 H0); set_solver.
    - intros _ H. exfalso. eapply (grows_failed err w' (with_xw w x)); [exact Hg|exact H]. }
  cbn [xw with_xw]. destruct (resolveValueSpec ex snap (ld_Key e) (ld_Value e) w) as [[err|v] w1]; [apply Hfail|].
  destruct (ExecuteLdapWrite ex (ld_Key e) v w1) as [[err|] w2]; [apply Hfail|].
  destruct (IH pending (did [OpLdap (ld_Key e) v] w2 (with_xw w x))) as (Hg & Hk & Hsub & Hdone & Herr).
  split_and!; [etrans; [eapply (grows_did _ w2 (with_xw w x))|exact Hg]|done| | |].
  - intros e0 H0. destruct (Hsub e0 H0); set_solver.
  - intros e0 [->|H0]%elem_of_cons; [|by apply Hdone]. right. exists v. eapply grows_op; [exact Hg|]. cbn. set_solver.
  - intros Hn H. by apply Herr.
Qed.

(** ** Postconf *)
Definition postconf_applied (k : string) (ops : list Op) : Prop := ∃ v, OpPostconf k v ∈ ops.

Lemma resolve_postconf_ok entries ops retry x :
  let r := resolve_postconf ex snap entries ops retry x in
  grows x r.2 ∧
  match r.1 with
  | None => ¬ ∀ w, (cancelled ex w).1 = false
  | Some (ops', retry') =>
      retry ⊆ retry' ∧ (∀ kv, kv ∈ ops → kv ∈ ops') ∧
      (∀ k, k ∈ ops'.*1 → k ∈ ops.*1 ∨ k ∈ pc_Key <$> entries) ∧
      (∀ e, e ∈ entries → pc_Key e ∈ retry' ∨ pc_Key e ∈ ops'.*1) ∧
      (xerrs r.2 = xerrs x → retry' = retry)
  end.
Proof.
  cbn zeta. revert ops retry x. induction entries as [|e l IH]; intros ops retry x; cbn [resolve_postconf].
  { split; [done|]. split_and!; [done|done|by left| |done]. by intros ? ?%not_elem_of_nil. }
  unfold is_cancelled. destruct (cancelled ex (xw x)) as [[] w] eqn:Ec; cbn [fst snd].
  { split; [apply grows_with|]. intros Hn. specialize (Hn (xw x)). by rewrite Ec in Hn. }
  cbn [xw with_xw]. destruct (resolveValueSpec ex snap (pc_Key e) (pc_Value e) w) as [[err|v] w1].
  - destruct (IH ops ({[pc_Key e]} ∪ retry) (fail err w1 (with_xw w x))) as [Hg Hr].
    split; [etrans; [apply (grows_fail err w1 (with_xw w x))|exact Hg]|].
    destruct (resolve_postconf ex snap l ops _ _) as [[[ops' retry']|] x']; [|done]. simpl in *.
    destruct Hr as (Hre & Hops & Hfrom & Hall & _). split_and!; [set_solver|done|set_solver| |].
    + intros e' [->|He']%elem_of_cons; [set_solver|by apply Hall].
    + intros H. exfalso. eapply (grows_failed err w1 (with_xw w x)); [exact Hg|exact H].
  - set (op := (pc_Key e, normalizePostconfBool (pc_Value e) v)).
    destruct (IH (ops ++ [op]) retry (with_xw w1 (with_xw w x))) as [Hg Hr].
    split; [etrans; [apply (grows_with w1)|exact Hg]|].
    destruct (resolve_postconf ex snap l (ops ++ [op]) _ _) as [[[ops' retry']|] x']; [|done]. simpl in *.
    destruct Hr as (Hre & Hops & Hfrom & Hall & Herr). split_and!; [done|set_solver| | |exact Herr].
    + intros k Hk. destruct (Hfrom k Hk) as [Hin|?]; [|set_solver].
      rewrite fmap_app in Hin. set_solver.
    + intros e' [->|He']%elem_of_cons; [|by apply Hall]. right. apply list_elem_of_fmap. exists op.
      split; [done|]. apply Hops. set_solver.
Qed.

Lemma postconf_each_ok ops retry x :
  let r := postconf_each ex ops retry x in
  grows x r.2 ∧ retry ⊆ r.1 ∧ (∀ k, k ∈ r.1 → k ∈ retry ∨ k ∈ ops.*1) ∧
  (∀ k, k ∈ ops.*1 → k ∈ r.1 ∨ postconf_applied k (xops r.2)) ∧
  (xerrs r.2 = xerrs x → r.1 = retry).
Proof.
  cbn zeta. revert retry x. induction ops as [|[k v] l IH]; intros retry x; cbn [postconf_each].
  { split_and!; [done|done|by left| |done]. by intros ? ?%not_elem_of_nil. }
  destruct (ExecutePostconf ex k v (xw x)) as [[err|] w].
  - destruct (IH ({[k]} ∪ retry) (fail err w x)) as (Hg & Hre & Hfrom & Hall & _).
    split_and!; [etrans; [apply (grows_fail err w x)|exact Hg]|set_solver| | |].
    + intros k' Hk'. destruct (Hfrom k' Hk'); set_solver.
    + intros k' [->|Hk']%elem_of_cons; [left; cbn; set_solver|by apply Hall].
    + intros H. exfalso. eapply (grows_failed err w x); [exact Hg|exact H].
  - destruct (IH retry (did [OpPostconf k v] w x)) as (Hg & Hre & Hfrom & Hall & Herr).
    split_and!; [etrans; [eapply (grows_did _ w x)|exact Hg]|done| | |exact Herr].
    + intros k' Hk'. destruct (Hfrom k' Hk'); set_solver.
    + intros k' [->|Hk']%elem_of_cons; [|by apply Hall]. right. exists v. eapply grows_op; [exact Hg|].
      cbn. set_solver.
Qed.

Lemma executePostconfOps_ok ops retry x :
  let r := executePostconfOps ex ops retry x in
  grows x r.2 ∧ retry ⊆ r.1 ∧
  (∀ k, k ∈ ops.*1 → k ∈ r.1 ∨ postconf_applied k (xops r.2)) ∧ (xerrs r.2 = xerrs x → r.1 = retry).
Proof.
  cbn zeta. unfold executePostconfOps. destruct (is_nil ops) eqn:En.
  { destruct ops; [|done]. split_and!; [done|done|by intros ? ?%not_elem_of_nil|done]. }
  destruct (ExecutePostconfBatch ex ops (xw x)) as [[err|] w].
  - destruct (postconf_each_ok ops retry (with_xw w x)) as (Hg & Hre & _ & Hall & Herr). split_and!; [|done..].
    etrans; [apply (grows_with w)|exact Hg].
  - split_and!; [apply grows_did|done| |done]. intros k ([k' v] & -> & Hin)%list_elem_of_fmap. right. exists v.
    cbn [snd xops did]. rewrite elem_of_app, list_elem_of_fmap. right. exists (k', v). done.
Qed.

Lemma doPostconf_ok entries x :
  step_ok entries (doPostconf ex snap entries x).1 (λ e, postconf_applied (pc_Key e)) x (doPostconf ex snap entries x).2.
Proof.
  unfold doPostconf. destruct (resolve_postconf_ok entries [] ∅ x) as [Hg Hr].
  destruct (resolve_postconf ex snap entries [] ∅ x) as [[[ops retry]|] x1]; simpl in *.
  - destruct Hr as (_ & _ & Hfrom & Hall & Herr).
    destruct (executePostconfOps_ok ops retry x1) as (Hg' & Hre & Hops & Herr').
    destruct (executePostconfOps ex ops retry x1) as [retry' x2]. simpl in *. split_and!; [by etrans| | |].
    + by intros e [_ ?]%list_elem_of_filter.
    + intros e He. rewrite list_elem_of_filter. destruct (Hall e He) as [Hk|Hk]; [left; split; [by apply Hre|done]|].
      destruct (Hops _ Hk); [by left|by right].
    + intros _ H. destruct (grows_same x x1 x2 Hg Hg' H) as [H1 H2]. rewrite (Herr' H2), (Herr H1).
      apply filter_nil_iff. set_solver.
  - split_and!; [done|done|by left|done].
Qed.
End facts.

Lemma Execute_facts {W} (ex : Executor W) snap pl x :
  let '(c, x') := Execute ex snap pl x in
  c_Restarts c = p_Restarts pl ∧
  (∀ e, e ∈ p_Rewrites pl → e ∈ c_Rewrites c ∨ rewrite_applied e (xops x')) ∧
  (∀ e, e ∈ p_Postconf pl → e ∈ c_Postconf c ∨ postconf_applied (pc_Key e) (xops x')) ∧
  (∀ e, e ∈ p_Postconfd pl → e ∈ c_Postconfd c ∨ OpPostconfd (pd_Key e) ∈ xops x') ∧
  (∀ e, e ∈ p_Ldap pl → e ∈ c_Ldap c ∨ ldap_applied e (xops x')) ∧
  (p_Proxygen pl ≠ None → c_Proxygen c = p_Proxygen pl ∨ OpProxygen ∈ xops x') ∧
  (c_Rewrites c ⊆ p_Rewrites pl ∧ c_Postconf c ⊆ p_Postconf pl ∧ c_Postconfd c ⊆ p_Postconfd pl ∧
   c_Ldap c ⊆ p_Ldap pl ∧ ∀ p, c_Proxygen c = Some p → p_Proxygen pl = Some p) ∧
  ((∀ w, (cancelled ex w).1 = false) → xerrs x' = xerrs x →
   c_Rewrites c = [] ∧ c_Postconf c = [] ∧ c_Postconfd c = [] ∧ c_Ldap c = [] ∧ c_Proxygen c = None).
Proof.
  unfold Execute. set (x1 := doMapfile ex snap _ (healMapfiles ex snap _ x)).
  assert (grows x x1) as G1. { etrans; [apply healMapfiles_runs|apply doMapfile_grows]. }
  destruct (runProxygen_ok ex (p_Proxygen pl) x1) as (G2 & Sp & Ap & Ep).
  destruct (runProxygen ex (p_Proxygen pl) x1) as [proxygen x2]. simpl in G2, Sp, Ap, Ep.
  destruct (doRewrites_ok ex (p_Rewrites pl) x2) as (G3 & Sr & Ar & Er).
  destruct (doRewrites ex (p_Rewrites pl) x2) as [rewrites x3]. simpl in G3, Sr, Ar, Er.
  destruct (doPostconf_ok ex snap (p_Postconf pl) x3) as (G4 & Sc & Ac & Ec).
  destruct (doPostconf ex snap (p_Postconf pl) x3) as [postconf x4]. simpl in G4, Sc, Ac, Ec.
  destruct (doPostconfd_ok ex (p_Postconfd pl) x4) as (G5 & Sd & Ad & Ed).
  destruct (doPostconfd ex (p_Postconfd pl) x4) as [postconfd x5]. simpl in G5, Sd, Ad, Ed.
  destruct (doLdap_ok ex snap (p_Ldap pl) [] x5) as (G6 & _ & Sl & Al & El).
  destruct (doLdap ex snap (p_Ldap pl) [] x5) as [ldap x6]. simpl in G6, Sl, Al, El.
  pose proof (transitivity G5 G6) as T4. pose proof (transitivity G4 T4) as T3.
  pose proof (transitivity G3 T3) as T2. pose proof (transitivity G2 T2) as T1.
  cbn [c_Restarts c_Rewrites c_Postconf c_Postconfd c_Ldap c_Proxygen]. split_and!; [done| | |..| | | |].
  - intros e He. destruct (Ar e He) as [?|(e' & ? & ?)]; [by left|]. right. exists e'. eauto using grows_op.
  - intros e He. destruct (Ac e He) as [?|(v & ?)]; [by left|]. right. exists v. eauto using grows_op.
  - intros e He. destruct (Ad e He); eauto using grows_op.
  - intros e He. destruct (Al e He); eauto.
  - intros Hne. destruct (Ap Hne); eauto using grows_op.
  - exact Sr.
  - exact Sc.
  - exact Sd.
  - intros e He. destruct (Sl e He) as [?%not_elem_of_nil|?]; done.
  - exact Sp.
  - intros Hn H.
    destruct (grows_same x x1 x6 G1 T1 H) as [_ H1], (grows_same x1 x2 x6 G2 T2 H1) as [E2 H2].
    destruct (grows_same x2 x3 x6 G3 T3 H2) as [E3 H3], (grows_same x3 x4 x6 G4 T4 H3) as [E4 H4].
    destruct (grows_same x4 x5 x6 G5 G6 H4) as [E5 H5]. split_and!; eauto.
Qed.

(** An execution accounts for every entry of the plan. Each rewrite, postconf,
    postconfd, LDAP and proxygen entry was carried out successfully or is
    carried to the next cycle, nothing else is carried, and the restarts are
    carried whole until the restart policy consumes them. Without a shutdown, an
    execution that reports no error carries nothing but the restarts. *)
Theorem Execute_accounts {W} (ex : Executor W) snap pl x :
  let '(c, x') := Execute ex snap pl x in
  c_Restarts c = p_Restarts pl ∧
  (∀ e, e ∈ p_Rewrites pl → e ∈ c_Rewrites c ∨ rewrite_applied e (xops x')) ∧
  (∀ e, e ∈ p_Postconf pl → e ∈ c_Postconf c ∨ postconf_applied (pc_Key e) (xops x')) ∧
  (∀ e, e ∈ p_Postconfd pl → e ∈ c_Postconfd c ∨ OpPostconfd (pd_Key e) ∈ xops x') ∧
  (∀ e, e ∈ p_Ldap pl → e ∈ c_Ldap c ∨ ldap_applied e (xops x')) ∧
  (p_Proxygen pl ≠ None → c_Proxygen c = p_Proxygen pl ∨ OpProxygen ∈ xops x') ∧
  (c_Rewrites c ⊆ p_Rewrites pl ∧ c_Postconf c ⊆ p_Postconf pl ∧ c_Postconfd c ⊆ p_Postconfd pl ∧
   c_Ldap c ⊆ p_Ldap pl ∧ ∀ p, c_Proxygen c = Some p → p_Proxygen pl = Some p) ∧
  ((∀ w, (cancelled ex w).1 = false) → xerrs x' = xerrs x →
   c_Rewrites c = [] ∧ c_Postconf c = [] ∧ c_Postconfd c = [] ∧ c_Ldap c = [] ∧ c_Proxygen c = None).
Proof. apply Execute_facts. Qed.
