(* ===== verification/ConfigMgr.v ===== *)
(** * ConfigMgr: the config manager (configmgr/manager_plan.go)

    The state the main loop keeps between cycles and the three operations of a
    cycle: [Plan_] (observe, publish, take the requests, compute, hold or release
    deferred restarts), [Execute_] and [ApplyRestarts]. *)
From S2P Require Import Prelude Config Snapshot Redact Plan Compute Services Restart State Observe Actions.

#[local] Open Scope Z_scope.

Section configmgr.
Context {M : Type} `{Manager M}.

Record ConfigManager := {
  cm_mainConfig : Config;
  cm_State : State;
  cm_prev : option Snapshot;
  cm_tracked : gmap string string;
  cm_carry : Carry;
  cm_deferred : list Restart;
  cm_policy : Policy M }.

Definition NewConfigManager (cfg : Config) (st : State) (policy : Policy M) : ConfigManager :=
  {| cm_mainConfig := cfg; cm_State := st; cm_prev := None; cm_tracked := ∅; cm_carry := empty_carry;
     cm_deferred := []; cm_policy := policy |}.

Definition set_State (st : State) (cm : ConfigManager) : ConfigManager :=
  {| cm_mainConfig := cm_mainConfig cm; cm_State := st; cm_prev := cm_prev cm;
     cm_tracked := cm_tracked cm; cm_carry := cm_carry cm; cm_deferred := cm_deferred cm;
     cm_policy := cm_policy cm |}.

Definition set_baseline (prev : option Snapshot) (tracked : gmap string string) (cm : ConfigManager) : ConfigManager :=
  {| cm_mainConfig := cm_mainConfig cm; cm_State := cm_State cm; cm_prev := prev;
     cm_tracked := tracked; cm_carry := cm_carry cm; cm_deferred := cm_deferred cm;
     cm_policy := cm_policy cm |}.

Definition set_carry (c : Carry) (cm : ConfigManager) : ConfigManager :=
  {| cm_mainConfig := cm_mainConfig cm; cm_State := cm_State cm; cm_prev := cm_prev cm;
     cm_tracked := cm_tracked cm; cm_carry := c; cm_deferred := cm_deferred cm;
     cm_policy := cm_policy cm |}.

Definition set_deferred_restarts (d : list Restart) (cm : ConfigManager) : ConfigManager :=
  {| cm_mainConfig := cm_mainConfig cm; cm_State := cm_State cm; cm_prev := cm_prev cm;
     cm_tracked := cm_tracked cm; cm_carry := cm_carry cm; cm_deferred := d;
     cm_policy := cm_policy cm |}.

Definition set_policy (p : Policy M) (cm : ConfigManager) : ConfigManager :=
  {| cm_mainConfig := cm_mainConfig cm; cm_State := cm_State cm; cm_prev := cm_prev cm;
     cm_tracked := cm_tracked cm; cm_carry := cm_carry cm; cm_deferred := cm_deferred cm;
     cm_policy := p |}.

Definition set_Restarts (rs : list Restart) (p : Plan) : Plan :=
  {| p_FirstRun := p_FirstRun p; p_Sections := p_Sections p; p_Heal := p_Heal p;
     p_Mapfiles := p_Mapfiles p; p_Rewrites := p_Rewrites p; p_Postconf := p_Postconf p;
     p_Postconfd := p_Postconfd p; p_Ldap := p_Ldap p; p_Proxygen := p_Proxygen p;
     p_Restarts := rs; p_DeferredRestarts := p_DeferredRestarts p; p_Tracked := p_Tracked p;
     p_Enabled := p_Enabled p |}.

Definition systemdMode (cm : ConfigManager) : bool := SystemdMode (cm_policy cm).

(** ** Deferred restarts *)
Definition holdDeferred (pl : Plan) (release : bool) (cm : ConfigManager) : Plan * ConfigManager :=
  let systemd := systemdMode cm in
  let cm := if is_nil (p_DeferredRestarts pl) then cm
            else set_deferred_restarts (MergeRestarts (cm_deferred cm) (p_DeferredRestarts pl) systemd) cm in
  if negb release || is_nil (cm_deferred cm) then (pl, cm)
  else (set_Restarts (MergeRestarts (cm_deferred cm) (p_Restarts pl) systemd) pl, set_deferred_restarts [] cm).

(** The sections whose restarts were deferred, for the warning: the services and
    that section's variable changes. *)
Definition deferral_of (section : string) (r : Restart) : list Reason :=
  filter (λ n, Kind n = ReasonVarChanged ∧ rn_Section n = section) (r_Reasons r).

Definition deferredBySection (pl : Plan) : gmap string (list string * list Reason) :=
  foldl (λ by_, λ r, foldl (λ by_, λ section,
      let '(svcs, reasons) := default ([], []) (by_ !! section) in
      <[section := (svcs ++ [r_Service r], append_uniques reasons (deferral_of section r))]> by_)
    by_ (r_Sections r)) ∅ (p_DeferredRestarts pl).

(** ** Planning *)
Definition plan_input (cm : ConfigManager) (cur : Snapshot) (conf : MtaConfig) (requested : list string) : Input :=
  {| Prev := cm_prev cm; Cur := Some cur; Conf := Some conf; Forced := ForcedSections (cm_State cm);
     Requested := requested; FirstRun := FirstRun_ (cm_State cm); Tracked := cm_tracked cm;
     In_Carry := cm_carry cm; Scope := Sections (cm_mainConfig cm); AssumeChanged := false;
     In_Host := None; Systemd := systemdMode cm |}.

Definition Plan_ (env : Env) (cm : ConfigManager) : (ComputeError + Plan) * ConfigManager :=
  let conf := MtaConfig_ (cm_State cm) in
  let '(cur, st) := Observe (cm_mainConfig cm) env (State_Snapshot (cm_State cm)) conf (cm_State cm) in
  let st := Publish cur st in
  let '(requested, st) := TakeRequestedConfigs st in
  let cm := set_State st cm in
  match Compute (plan_input cm cur conf requested) with
  | inl err => (inl err, set_State (AddRequestedConfigs requested st) cm)
  | inr pl =>
      let cm := set_baseline (Some cur) (p_Tracked pl) cm in
      let '(pl, cm) := holdDeferred pl
        (negb (FirstRun_ st) && is_nil requested && is_nil (ForcedSections st)) cm in
      (inr pl, cm)
  end.

(** ** Executing *)
Definition Execute_ {W} (ex : Executor W) (pl : Plan) (x : Exec W) (cm : ConfigManager) :
  Exec W * ConfigManager :=
  let '(carry, x) := Execute ex (State_Snapshot (cm_State cm)) pl x in (x, set_carry carry cm).

(** A [time.Duration] is a 64-bit count of nanoseconds: the product wraps. *)
Definition debounceOf (cfg : Config) : Z := wrap64 (RestartDebounce cfg * 1000000000).

Definition set_carry_restarts (rs : list Restart) (c : Carry) : Carry :=
  {| c_Rewrites := c_Rewrites c; c_Postconf := c_Postconf c; c_Postconfd := c_Postconfd c;
     c_Ldap := c_Ldap c; c_Proxygen := c_Proxygen c; c_Restarts := rs |}.

Definition ApplyRestarts (pl : Plan) (now : Z) (cm : ConfigManager) : ConfigManager :=
  let '(rs, policy) := Apply (p_Restarts pl)
    {| Enabled := RestartConfig (cm_mainConfig cm); Debounce := debounceOf (cm_mainConfig cm) |}
    now (cm_policy cm) in
  set_policy policy (set_carry (set_carry_restarts rs (cm_carry cm)) cm).
End configmgr.

Arguments ConfigManager : clear implicits.
