(* ===== verification/ConfigMgrProps.v ===== *)
(** * ConfigMgrProps: what one cycle leaves to the next

    A plan that fails consumes nothing; a restart deferred by a REWRITE is held
    until a cycle that is not one; an action that did not complete is planned
    again. *)
From S2P Require Import Prelude Config Snapshot Plan PlanProps Compute ComputeProps Services ServicesProps Restart State Observe Actions ConfigMgr Fixtures.

Section facts.
Context {M : Type} `{Manager M}.
Implicit Types cm : ConfigManager M.

(** A cycle that is a REWRITE (or the first one) does not release deferred restarts. *)
Definition is_rewrite (st : State) : bool :=
  FirstRun_ st || negb (is_nil (sorted_keys (RequestedConfig st))) || negb (is_nil (ForcedSections st)).

(** The snapshot and the state [Plan_] computes from, and its input. *)
Definition planned_cur (env : Env) (cm : ConfigManager M) : Snapshot :=
  (Observe (cm_mainConfig cm) env (State_Snapshot (cm_State cm)) (MtaConfig_ (cm_State cm)) (cm_State cm)).1.

Definition planned_input (env : Env) (cm : ConfigManager M) : Input :=
  {| Prev := cm_prev cm; Cur := Some (planned_cur env cm); Conf := Some (MtaConfig_ (cm_State cm));
     Forced := ForcedSections (cm_State cm); Requested := sorted_keys (RequestedConfig (cm_State cm));
     FirstRun := FirstRun_ (cm_State cm); Tracked := cm_tracked cm; In_Carry := cm_carry cm;
     Scope := Sections (cm_mainConfig cm); AssumeChanged := false; In_Host := None;
     Systemd := systemdMode cm |}.

(** What [Plan_] does to the manager, on both outcomes. *)
Lemma Plan_cases env cm :
  match Compute (planned_input env cm) with
  | inl err => ∃ st, Plan_ env cm = (inl err, set_State st cm) ∧ State_Snapshot st = planned_cur env cm ∧
      ∀ s, is_Some (RequestedConfig st !! s) ↔ is_Some (RequestedConfig (cm_State cm) !! s)
  | inr p0 => ∃ st, RequestedConfig st = ∅ ∧ State_Snapshot st = planned_cur env cm ∧
      Plan_ env cm =
        (let '(pl, cm') := holdDeferred p0 (negb (is_rewrite (cm_State cm)))
           (set_baseline (Some (planned_cur env cm)) (p_Tracked p0) (set_State st cm)) in (inr pl, cm'))
  end.
Proof.
  unfold Plan_, planned_input, planned_cur.
  destruct (Observe_result (cm_mainConfig cm) env (State_Snapshot (cm_State cm)) (MtaConfig_ (cm_State cm)) (cm_State cm))
    as (_ & _ & [_ (Hf & Hr & _ & Hfr) _]).
  destruct (Observe _ _ _ _ _) as [cur st]. cbn [fst snd] in *. cbn zeta.
  unfold TakeRequestedConfigs. cbn [fst snd].
  replace (plan_input _ cur (MtaConfig_ (cm_State cm)) (sorted_keys (RequestedConfig (Publish cur st)))) with
    {| Prev := cm_prev cm; Cur := Some cur; Conf := Some (MtaConfig_ (cm_State cm));
       Forced := ForcedSections (cm_State cm); Requested := sorted_keys (RequestedConfig (cm_State cm));
       FirstRun := FirstRun_ (cm_State cm); Tracked := cm_tracked cm; In_Carry := cm_carry cm;
       Scope := Sections (cm_mainConfig cm); AssumeChanged := false; In_Host := None;
       Systemd := systemdMode cm |}.
  2:{ unfold plan_input, ForcedSections. cbn. by rewrite Hf, Hr, Hfr. }
  destruct (Compute _) as [err|p0].
  - eexists. split; [reflexivity|]. split; [done|]. intros s.
    rewrite AddRequestedConfigs_is_Some, elem_of_sorted_keys. cbn. rewrite Hr, lookup_empty.
    split; [by intros [[]|]|by right].
  - exists (set_requested (λ _, ∅) (Publish cur st)). split_and!; [done|done|].
    unfold is_rewrite, ForcedSections. cbn. rewrite Hf, Hr, Hfr. by rewrite !negb_orb, !negb_involutive.
Qed.

(** ** Deferred restarts across cycles *)
Definition held (svc : string) (rs : list Reason) (l : list Restart) : Prop :=
  ∃ r, r ∈ l ∧ r_Service r = svc ∧ ∀ n, n ∈ rs → n ∈ r_Reasons r.

Lemma MergeRestarts_held stale fresh sd svc rs :
  held svc rs stale ∨ held svc rs fresh → held svc rs (MergeRestarts stale fresh sd).
Proof.
  intros Hh. assert (∃ e, e ∈ stale ++ fresh ∧ r_Service e = svc ∧ ∀ n, n ∈ rs → n ∈ r_Reasons e)
    as (e & He & Hs & Hn) by (setoid_rewrite elem_of_app; unfold held in Hh; naive_solver).
  destruct (merge_all_from stale fresh) as (_ & Hsvc & Hst).
  assert (svc ∈ r_Service <$> merge_all stale fresh) as (r & -> & Hr)%list_elem_of_fmap.
  { apply Hsvc, list_elem_of_fmap. eauto. }
  exists (set_Action (Classify (r_Action r) (r_Service r) sd) r). split_and!; [|done|].
  - unfold MergeRestarts. apply list_elem_of_fmap. exists r. split; [done|]. by apply elem_of_sort_by_key.
  - intros n Hin. destruct (Hst r Hr) as (_ & _ & Hreasons). cbn. apply Hreasons. exists e.
    unfold of_service. rewrite list_elem_of_filter. auto.
Qed.

Lemma holdDeferred_held pl release cm svc rs :
  held svc rs (cm_deferred cm) ∨ held svc rs (p_DeferredRestarts pl) →
  let '(pl', cm') := holdDeferred pl release cm in
  if release then held svc rs (p_Restarts pl') ∧ cm_deferred cm' = []
  else held svc rs (cm_deferred cm').
Proof.
  intros Hh. unfold holdDeferred.
  set (cm1 := if is_nil (p_DeferredRestarts pl) then cm else _).
  assert (held svc rs (cm_deferred cm1)) as H1.
  { unfold cm1. destruct (p_DeferredRestarts pl) as [|r l] eqn:E; cbn [is_nil].
    - destruct Hh as [?|(r & Hr & _)]; [done|]. by apply not_elem_of_nil in Hr.
    - by apply MergeRestarts_held. }
  clearbody cm1. destruct (is_nil (cm_deferred cm1)) eqn:En.
  { destruct H1 as (r & Hr & _). destruct (cm_deferred cm1); [by apply not_elem_of_nil in Hr|done]. }
  destruct release; cbn [negb orb]; [|done]. split; [|done]. apply MergeRestarts_held. by left.
Qed.

(** A sequence of plans; each cycle brings its own state (the loads and requests
    in between) and environment, and the execution and the restart policy in
    between do not touch the held restarts. *)
Definition plan_cycle (c : Env * State) (cm : ConfigManager M) : ConfigManager M :=
  (Plan_ c.1 (set_State c.2 cm)).2.

Lemma plan_cycle_held c cm svc rs :
  is_rewrite c.2 = true → held svc rs (cm_deferred cm) → held svc rs (cm_deferred (plan_cycle c cm)).
Proof.
  intros Hr Hh. unfold plan_cycle. pose proof (Plan_cases c.1 (set_State c.2 cm)) as Hp.
  destruct (Compute _) as [err|p0]; destruct Hp as (st & Hp).
  - destruct Hp as (-> & _). done.
  - destruct Hp as (_ & _ & ->). cbn [cm_State set_State]. rewrite Hr. cbn [negb].
    pose proof (holdDeferred_held p0 false (set_baseline (Some (planned_cur c.1 (set_State c.2 cm)))
      (p_Tracked p0) (set_State st (set_State c.2 cm))) svc rs (or_introl Hh)) as Hd.
    by destruct (holdDeferred _ _ _).
Qed.
End facts.

(** C39: a plan that fails (every service looks disabled) consumes nothing: the baseline,
    the tracking map, the carry, the held restarts and the policy are those of
    before, and the requested sections are requested still. *)
Theorem Plan_error_keeps {M} `{Manager M} env (cm cm' : ConfigManager M) err :
  Plan_ env cm = (inl err, cm') →
  cm_prev cm' = cm_prev cm ∧ cm_tracked cm' = cm_tracked cm ∧ cm_carry cm' = cm_carry cm ∧
  cm_deferred cm' = cm_deferred cm ∧ cm_policy cm' = cm_policy cm ∧
  ∀ s, is_Some (RequestedConfig (cm_State cm') !! s) ↔ is_Some (RequestedConfig (cm_State cm) !! s).
Proof.
  intros E. pose proof (Plan_cases env cm) as Hp. destruct (Compute _) as [err'|p0]; destruct Hp as (st & Hp).
  - destruct Hp as (Hp & _ & Hreq). rewrite E in Hp. by simplify_eq.
  - destruct Hp as (_ & _ & Hp). rewrite E in Hp. by destruct (holdDeferred _ _ _).
Qed.


(** ** Concrete managers *)
Definition no_files : Env :=
  {| ReadFile _ := inl LookupNotExist; Stat _ := Some LookupNotExist; Transform s := inr s |}.

Definition test_config : Config := NewConfigWithHostname "/opt/zextras" "host".

(** A state past its first run with the given snapshot and requests. *)
Definition state_of (snap : Snapshot) (requested : list string) : State :=
  AddRequestedConfigs requested
    (SetFirstRun false (SetMtaConfig mtaConf (Publish snap NewState))).

Definition legacy_manager := Shared_Manager (steady None) None.

(** A manager in the middle of its life: baseline [base], everything tracked. *)
Definition manager_of (snap : Snapshot) (deferred : list Restart) (carry : Carry) : ConfigManager (Shared unit) :=
  set_deferred_restarts deferred (set_carry carry (set_baseline (Some base) allTracked
    (NewConfigManager test_config (state_of snap [])
       (NewPolicy false {| sh_sm := NewServiceManager; sh_w := tt; sh_log := [] |})))).

Definition mta_restart : Restart :=
  {| r_Service := "mta"; r_Action := ActionRestart; r_Sections := ["mta"];
     r_Reasons := [section_reason ReasonDeferred "mta"] |}.

Definition is_ok {A B} (r : A + B) : bool := match r with inr _ => true | inl _ => false end.

Lemma Plan_error_keeps_witness :
  ∃ err cm', @Plan_ _ legacy_manager no_files (set_State (state_of (snap [] []) ["mta"]) (manager_of base [] empty_carry)) =
    (inl err, cm') ∧ is_Some (RequestedConfig (cm_State cm') !! "mta").
Proof.
  set (cm := set_State (state_of (snap [] []) ["mta"]) (manager_of base [] empty_carry)).
  assert (is_ok (@Plan_ _ legacy_manager no_files cm).1 = false) as Hr by (vm_compute; reflexivity).
  destruct (@Plan_ _ legacy_manager no_files cm) as [[err|pl] cm'] eqn:E; [|discriminate Hr].
  exists err, cm'. split; [reflexivity|].
  destruct (@Plan_error_keeps _ legacy_manager no_files cm cm' err E) as (_ & _ & _ & _ & _ & Hreq).
  apply Hreq. by exists "mta".
Defined.


(** ** Retries across cycles *)
Section retries.
Context {M : Type} `{Manager M}.

Lemma ApplyRestarts_carry (pl : Plan) now (cm : ConfigManager M) :
  c_Rewrites (cm_carry (ApplyRestarts pl now cm)) = c_Rewrites (cm_carry cm) ∧
  c_Postconf (cm_carry (ApplyRestarts pl now cm)) = c_Postconf (cm_carry cm) ∧
  c_Postconfd (cm_carry (ApplyRestarts pl now cm)) = c_Postconfd (cm_carry cm) ∧
  c_Ldap (cm_carry (ApplyRestarts pl now cm)) = c_Ldap (cm_carry cm) ∧
  (RestartConfig (cm_mainConfig cm) = false → c_Restarts (cm_carry (ApplyRestarts pl now cm)) = p_Restarts pl).
Proof.
  unfold ApplyRestarts. destruct (Apply _ _ _ _) as [rs p] eqn:E. split_and!; [done..|].
  intros Hd. unfold Apply in E. cbn [Enabled] in E. rewrite Hd in E. injection E as -> _. done.
Qed.

(** The plan of [Plan_] has the actions of the computed one, and its restarts. *)
Lemma Plan_has env (cm cm' : ConfigManager M) pl :
  Plan_ env cm = (inr pl, cm') →
  ∃ p0, Compute (planned_input env cm) = inr p0 ∧ p_Rewrites pl = p_Rewrites p0 ∧ p_Postconf pl = p_Postconf p0 ∧
    p_Postconfd pl = p_Postconfd p0 ∧ p_Ldap pl = p_Ldap p0 ∧
    ∀ svc rs, held svc rs (p_Restarts p0) → held svc rs (p_Restarts pl).
Proof.
  intros E. pose proof (Plan_cases env cm) as Hp. destruct (Compute _) as [err|p0]; destruct Hp as (st & Hp).
  { destruct Hp as (Hp & _). by rewrite E in Hp. }
  destruct Hp as (_ & _ & Hp). rewrite E in Hp. exists p0. split; [done|].
  unfold holdDeferred in Hp. destruct (negb _ || _); injection Hp as -> _; split_and!; try done.
  intros svc rs Hh. apply MergeRestarts_held. by right.
Qed.

Lemma retried_held (l : list Restart) r : retried l r → held (r_Service r) [retry] l.
Proof.
  intros (e & He & Hk & Hr). exists e. split_and!; [done|done|]. intros n ->%list_elem_of_singleton. done.
Qed.
End retries.


(** An executor on which every operation fails. *)
Definition failing_executor : Executor unit :=
  {| cancelled w := (false, w); processRewrite_ _ _ w := (Some "io error", w);
     ExecutePostconfBatch _ w := (Some "io error", w); ExecutePostconf _ _ w := (Some "io error", w);
     ExecutePostconfdBatch _ w := (Some "io error", w); ExecuteLdapWrite _ _ w := (Some "io error", w);
     ExecuteMapfile _ _ _ w := (Some "io error", w); RunProxygenWithConfigs w := (Some "io error", w);
     ResolveValue _ _ _ w := (inr "v", w); lookupFileValue _ w := (inr "v", w) |}.

Definition changed_plan : Plan := default (finish (cycle base base [] empty_carry) (newBuilder (cycle base base [] empty_carry)))
  (plan_of (cycle base mta_changed [] empty_carry)).

