(* ===== verification/Network.v ===== *)
(** * Network: internal/network/server.go

    The control protocol: reading one request from a connection, dispatching it
    and answering.  The sockets, the slots and the timers stay outside: a
    connection is the chunk its single read delivered, and the wait of a REWRITE
    is how it ended. *)
From S2P Require Import Prelude.

#[local] Open Scope nat_scope.

Definition errUnknownCommand := "ERROR UNKNOWN COMMAND".
Definition respSuccessActive := "SUCCESS ACTIVE".
Definition respRewritesComplete := "SUCCESS REWRITES COMPLETE".
Definition errRewriteTimeout := "ERROR REWRITE TIMEOUT".
Definition errShuttingDown := "ERROR SHUTTING DOWN".
Definition errNoServicesListed := "ERROR NO SERVICES LISTED".
Definition errInternal := "ERROR INTERNAL ERROR".

Definition maxRequestLineBytes : nat := Z.to_nat 4096.
Definition maxRequestArgs : nat := 256.

(** ** Reading a request: [chunk] is what the read returned, at most
    [maxRequestLineBytes] bytes. *)
Definition readRequest (chunk : string) : option string :=
  if String.eqb chunk "" then None
  else match CutByte newline chunk with
       | Some (line, _) => Some line
       | None => if String.length chunk =? maxRequestLineBytes then None else Some chunk
       end.

(** What a connection does with its request. *)
Inductive Dispatch := Drop | Reply (response : string) | Handle (command : string) (args : list string).

Definition dispatchConnection (chunk : string) : Dispatch :=
  match readRequest chunk with
  | None => Drop
  | Some request =>
      match Fields (TrimSpace request) with
      | [] => Reply errUnknownCommand
      | command :: args => if maxRequestArgs <? length args then Drop else Handle command args
      end
  end.

(** ** The request handler *)

(** [KnownSections] is nil in tests only; [hasTrigger] is [ActionTrigger != nil]. *)
Record Handler := { hasTrigger : bool; KnownSections : option (list string) }.

Definition filterKnown (h : Handler) (sections : list string) : list string :=
  match KnownSections h with
  | None => sections
  | Some known => filter (λ s, s ∈ known) sections
  end.

(** How the select of [rewrite] ended. *)
Inductive WaitEnd := WaitDone | WaitTimeout | WaitShutdown.

Definition wait_response (e : WaitEnd) : string :=
  match e with
  | WaitDone => respRewritesComplete | WaitTimeout => errRewriteTimeout | WaitShutdown => errShuttingDown
  end.

(** The sections handed to [TriggerRewrite], if any, and the response. *)
Definition rewrite_ (h : Handler) (sections : list string) (e : WaitEnd) : option (list string) * string :=
  if negb (hasTrigger h) then (None, errInternal)
  else
    let sections := filterKnown h sections in
    match sections with
    | [] => (None, respRewritesComplete)
    | _ => (Some sections, wait_response e)
    end.

Definition HandleRequest (h : Handler) (command : string) (args : list string) (e : WaitEnd) :
  option (list string) * string :=
  if String.eqb command "STATUS" then (None, respSuccessActive)
  else if String.eqb command "REWRITE" then
    match args with [] => (None, errNoServicesListed) | _ => rewrite_ h args e end
  else (None, errUnknownCommand).

(** [handleConnection]: what is queued and what is written back, with its newline. *)
Definition handleConnection (h : Handler) (chunk : string) (e : WaitEnd) : option (list string) * option string :=
  match dispatchConnection chunk with
  | Drop => (None, None)
  | Reply r => (None, Some (r +:+ String newline ""))
  | Handle command args =>
      let '(q, r) := HandleRequest h command args e in (q, Some (r +:+ String newline ""))
  end.

(** ** Fields and trimming *)
Lemma fields_trim_left s : Fields (trim_left s) = Fields s.
Proof.
  unfold Fields. induction s as [|c s IH]; [done|]. cbn [trim_left fields_go].
  destruct (IsSpace c) eqn:E; [exact IH|]. cbn [fields_go]. by rewrite E.
Qed.

Lemma fields_trim_right s cur : fields_go cur (trim_right s) = fields_go cur s.
Proof.
  revert cur. induction s as [|c s IH]; intros cur; [done|]. cbn [trim_right fields_go].
  destruct (trim_right s) as [|d t] eqn:E.
  - destruct (IsSpace c) eqn:Ec.
    + cbn [fields_go]. by rewrite <- IH.
    + cbn [fields_go]. by rewrite Ec, <- IH.
  - cbn [fields_go]. cbn [fields_go] in IH. destruct (IsSpace c); rewrite <- IH; done.
Qed.

Lemma Fields_TrimSpace s : Fields (TrimSpace s) = Fields s.
Proof. unfold TrimSpace, Fields. rewrite fields_trim_right. apply fields_trim_left. Qed.

(** A token: not empty, without white space. *)
Fixpoint no_space (s : string) : bool :=
  match s with EmptyString => true | String c s => negb (IsSpace c) && no_space s end.

Definition token (s : string) : Prop := s ≠ "" ∧ no_space s = true.

Lemma fields_token t cur rest : no_space t = true →
  fields_go cur (t +:+ rest) = fields_go (rev (list_ascii_of_string t) ++ cur) rest.
Proof.
  revert cur. induction t as [|c t IH]; intros cur Ht; [done|]. cbn [no_space] in Ht.
  apply andb_true_iff in Ht as [Hc Ht]. apply negb_true_iff in Hc.
  change (String c t +:+ rest) with (String c (t +:+ rest)).
  cbn [fields_go list_ascii_of_string rev]. rewrite Hc, IH by done.
  by rewrite <- app_assoc.
Qed.

Lemma flush_token t rest : token t →
  match rev (list_ascii_of_string t) ++ [] with
  | [] => rest | _ => string_of_list_ascii (rev (rev (list_ascii_of_string t) ++ [])) :: rest
  end = t :: rest.
Proof.
  intros [Hne _]. rewrite app_nil_r. destruct (rev (list_ascii_of_string t)) eqn:E.
  - apply (f_equal (@rev ascii)) in E. rewrite rev_involutive in E. by destruct t.
  - rewrite <- E, rev_involutive, string_of_list_ascii_of_string. done.
Qed.

Lemma Fields_Join toks : Forall token toks → Fields (Join toks " ") = toks.
Proof.
  unfold Fields. induction 1 as [|t toks Ht Hall IH]; [done|]. destruct toks as [|t' toks].
  - cbn [Join]. rewrite <- (string_app_nil_r t) at 1.
    rewrite fields_token by apply Ht. cbn [fields_go]. by apply flush_token.
  - change (Join (t :: t' :: toks) " ") with (t +:+ " " +:+ Join (t' :: toks) " ").
    rewrite fields_token by apply Ht. change (" " +:+ Join (t' :: toks) " ") with (String " " (Join (t' :: toks) " ")).
    cbn [fields_go]. change (IsSpace " ") with true. cbn iota. rewrite IH. by apply flush_token.
Qed.

(** ** Lines *)
Fixpoint no_newline (s : string) : bool :=
  match s with EmptyString => true | String c s => negb (Ascii.eqb c newline) && no_newline s end.

Lemma CutByte_line s rest : no_newline s = true → CutByte newline (s +:+ String newline rest) = Some (s, rest).
Proof.
  induction s as [|c s IH]; intros Hs; [done|]. cbn [no_newline] in Hs.
  apply andb_true_iff in Hs as [Hc%negb_true_iff Hs]. change (String c s +:+ String newline rest) with (String c (s +:+ String newline rest)). cbn [CutByte].
  by rewrite Hc, IH.
Qed.

Lemma CutByte_none s : no_newline s = true → CutByte newline s = None.
Proof.
  induction s as [|c s IH]; intros Hs; [done|]. cbn [no_newline] in Hs.
  apply andb_true_iff in Hs as [Hc%negb_true_iff Hs]. cbn [CutByte]. by rewrite Hc, IH.
Qed.

Lemma no_newline_app s t : no_newline (s +:+ t) = no_newline s && no_newline t.
Proof. induction s as [|c s IH]; [done|]. change (String c s +:+ t) with (String c (s +:+ t)). cbn [no_newline]. by rewrite IH, andb_assoc. Qed.

Lemma token_no_newline t : no_space t = true → no_newline t = true.
Proof.
  induction t as [|c t IH]; intros Ht; [done|]. cbn [no_space no_newline] in *.
  apply andb_true_iff in Ht as [Hc Ht]. rewrite IH by done. rewrite andb_true_r.
  destruct (Ascii.eqb_spec c newline) as [->|]; done.
Qed.

Lemma Join_no_newline toks : Forall token toks → no_newline (Join toks " ") = true.
Proof.
  induction 1 as [|t toks [_ Ht] Hall IH]; [done|]. destruct toks as [|t' toks].
  - by apply token_no_newline.
  - change (Join (t :: t' :: toks) " ") with (t +:+ " " +:+ Join (t' :: toks) " ").
    rewrite !no_newline_app, IH, token_no_newline by done. done.
Qed.

Lemma Join_not_empty t toks : token t → Join (t :: toks) " " ≠ "".
Proof. intros [Hne _] E. apply Hne. destruct t; [done|]. by destruct toks. Qed.

(** The protocol round trip: a request written as its words joined by blanks is
    dispatched as exactly that command and those arguments, when it ends in a
    newline (whatever follows it) and also, for the legacy client, when it does
    not, provided it does not fill the read buffer; the argument bound is 256. *)
Theorem request_roundtrip command args rest :
  token command → Forall token args →
  let request := Join (command :: args) " " in
  dispatchConnection (request +:+ String newline rest) =
    (if maxRequestArgs <? length args then Drop else Handle command args) ∧
  (String.length request ≠ 4096 → dispatchConnection request =
    if maxRequestArgs <? length args then Drop else Handle command args).
Proof.
  intros Hc Ha. cbn zeta. set (request := Join (command :: args) " ").
  assert (Forall token (command :: args)) as Hall by (by constructor).
  assert (Fields (TrimSpace request) = command :: args) as Hf by (rewrite Fields_TrimSpace; by apply Fields_Join).
  assert (no_newline request = true) as Hn by (by apply Join_no_newline).
  assert (request ≠ "") as Hne by (by apply Join_not_empty).
  unfold dispatchConnection, readRequest. split.
  - rewrite CutByte_line by done. destruct (String.eqb_spec (request +:+ String newline rest) "") as [E|_].
    { exfalso. by destruct request. }
    by rewrite Hf.
  - intros Hlen. apply String.eqb_neq in Hne as ->. rewrite CutByte_none by done.
    destruct (Nat.eqb_spec (String.length request) maxRequestLineBytes) as [E|_]; [done|]. by rewrite Hf.
Qed.

Lemma request_roundtrip_witness :
  dispatchConnection ("REWRITE proxy mta" +:+ String newline "ignored") = Handle "REWRITE" ["proxy"; "mta"].
Proof.
  exact (proj1 (request_roundtrip "REWRITE" ["proxy"; "mta"] "ignored" ltac:(by split)
    ltac:(by repeat constructor))).
Defined.

(** What a request queues and answers: only a REWRITE queues anything, and only
    sections of the configuration that it named; it answers "SUCCESS REWRITES
    COMPLETE" exactly when the loop released it or nothing it named is known, and
    the errors of an empty REWRITE, a timeout and a shutdown are told apart. *)
Theorem HandleRequest_spec h command args e :
  let '(q, r) := HandleRequest h command args e in
  (∀ sections, q = Some sections → command = "REWRITE" ∧ sections ≠ [] ∧ hasTrigger h = true ∧
     ∀ s, s ∈ sections ↔ s ∈ args ∧ (∀ known, KnownSections h = Some known → s ∈ known)) ∧
  (r = respRewritesComplete ↔ command = "REWRITE" ∧ args ≠ [] ∧ hasTrigger h = true ∧ (q = None ∨ e = WaitDone)) ∧
  (r = respSuccessActive ↔ command = "STATUS") ∧
  (r = errRewriteTimeout ↔ is_Some q ∧ e = WaitTimeout) ∧
  (r = errNoServicesListed ↔ command = "REWRITE" ∧ args = []).
Proof.
  unfold HandleRequest. destruct (String.eqb_spec command "STATUS") as [->|Hs].
  { split_and!; try done; split; try done; naive_solver. }
  destruct (String.eqb_spec command "REWRITE") as [->|Hr].
  2:{ split_and!; try done; split; try done; naive_solver. }
  destruct args as [|a args]; [split_and!; try done; split; try done; naive_solver|].
  unfold rewrite_. destruct (hasTrigger h); cbn [negb].
  2:{ split_and!; try done; split; try done; naive_solver. }
  assert (∀ s, s ∈ filterKnown h (a :: args) ↔ s ∈ a :: args ∧ ∀ known, KnownSections h = Some known → s ∈ known) as Hk.
  { intros s. unfold filterKnown. destruct (KnownSections h); [rewrite list_elem_of_filter|]; naive_solver. }
  destruct (filterKnown h (a :: args)) as [|x l].
  - split_and!; try done; split; try done; naive_solver.
  - split_and!; [intros ? [= <-]; done|..]; destruct e; cbn; split; try done; naive_solver.
Qed.
