(* ===== verification/Trigger.v ===== *)
(** * Trigger: the REWRITE clients of the main loop (cmd/configd/mainloop.go)

    [MainLoopActionTrigger] and the interleaving of the connection goroutines
    with the main loop.  Each critical section of the code (the trigger's lock,
    the state's lock) is one step; a client and the loop run in any order.  A client
    is released only after a plan that took its sections was executed; no client and
    no requested section is lost. *)
From S2P Require Import Prelude Config Snapshot Plan State.

#[local] Open Scope nat_scope.

(** ** The trigger *)
Record Trigger := {
  EventCounter : nat;
  waiting : list nat;
  inflight : list nat;
  restarting : option (gset string) }.

Definition forget (w : nat) (t : Trigger) : Trigger :=
  {| EventCounter := EventCounter t; waiting := filter (λ o, o ≠ w) (waiting t);
     inflight := filter (λ o, o ≠ w) (inflight t); restarting := restarting t |}.

Definition claimWaiters (t : Trigger) : Trigger :=
  {| EventCounter := EventCounter t; waiting := []; inflight := inflight t ++ waiting t;
     restarting := restarting t |}.

(** The clients whose channel is closed are returned. *)
Definition completeWaiters (t : Trigger) : list nat * Trigger :=
  (inflight t, {| EventCounter := EventCounter t; waiting := waiting t; inflight := [];
                  restarting := restarting t |}).

Definition requeueWaiters (t : Trigger) : Trigger :=
  {| EventCounter := EventCounter t; waiting := inflight t ++ waiting t; inflight := [];
     restarting := restarting t |}.

Definition set_restarting (r : option (gset string)) (t : Trigger) : Trigger :=
  {| EventCounter := EventCounter t; waiting := waiting t; inflight := inflight t; restarting := r |}.

Definition beginRestarts (sections : list string) (t : Trigger) : Trigger :=
  set_restarting (Some (list_to_set sections)) t.

Definition endRestarts (t : Trigger) : Trigger := set_restarting None t.

Definition rewrittenByRestartingCycle (configs : list string) (t : Trigger) : bool :=
  match restarting t with
  | None => false
  | Some set =>
      bool_decide (set ≠ ∅) && negb (is_nil configs) && forallb (λ cfg, bool_decide (cfg ∈ set)) configs
  end.

(** The part of [TriggerRewrite] under the trigger's lock. *)
Definition register (w : nat) (t : Trigger) : Trigger :=
  {| EventCounter := EventCounter t; waiting := waiting t ++ [w]; inflight := inflight t;
     restarting := restarting t |}.

Definition count_event (t : Trigger) : Trigger :=
  {| EventCounter := S (EventCounter t); waiting := waiting t; inflight := inflight t;
     restarting := restarting t |}.

(** ** Clients and the loop

    A client runs [TriggerRewrite] and then waits: the check of the restarting
    cycle, the queueing of its sections, the registration.  [cl_stamp] is the
    number of plans that had taken the requests when it arrived. *)
Inductive ClientPc := CNew | CChecked | CAdded | CWaiting | CReleased | CAnswered | CGone.

#[export] Instance ClientPc_eq_dec : EqDecision ClientPc.
Proof. solve_decision. Defined.

Record Client := { cl_sections : list string; cl_stamp : nat; cl_pc : ClientPc }.

Definition at_pc (pc : ClientPc) (c : Client) : Client :=
  {| cl_sections := cl_sections c; cl_stamp := cl_stamp c; cl_pc := pc |}.

(** The loop: [runConfigPhases] from [claimWaiters] on, then the restart phase.
    [k] numbers the takes, [T] is what was taken, [P] the sections of the plan. *)
Inductive LoopPc :=
  | LIdle
  | LClaimed
  | LTaken (k : nat) (T : list string)
  | LPlanned (k : nat) (T P : list string)
  | LFailed
  | LExecuted (P : list string)
  | LCompleted (P : list string)
  | LRestarts.

Record Sys := {
  sy_trigger : Trigger;
  sy_state : State;
  sy_clients : gmap nat Client;
  sy_loop : LoopPc;
  sy_takes : nat;
  (** takes that were executed, and the sections of the executed plans *)
  sy_executed : list (nat * list string);
  sy_written : list (nat * list string) }.

Definition upd (t : Trigger) (st : State) (cl : gmap nat Client) (l : LoopPc) (s : Sys) : Sys :=
  {| sy_trigger := t; sy_state := st; sy_clients := cl; sy_loop := l; sy_takes := sy_takes s;
     sy_executed := sy_executed s; sy_written := sy_written s |}.

(** Closing the channels of the released clients. *)
Definition release (ids : list nat) (cl : gmap nat Client) : gmap nat Client :=
  map_imap (λ id c, Some (if decide (id ∈ ids) then at_pc CReleased c else c)) cl.

Inductive step : Sys → Sys → Prop :=
  (* a client *)
  | step_arrive s id secs : sy_clients s !! id = None →
      step s (upd (sy_trigger s) (sy_state s)
        (<[id := {| cl_sections := secs; cl_stamp := sy_takes s; cl_pc := CNew |}]> (sy_clients s)) (sy_loop s) s)
  | step_answered s id c : sy_clients s !! id = Some c → cl_pc c = CNew →
      rewrittenByRestartingCycle (cl_sections c) (sy_trigger s) = true →
      step s (upd (sy_trigger s) (sy_state s) (<[id := at_pc CAnswered c]> (sy_clients s)) (sy_loop s) s)
  | step_checked s id c : sy_clients s !! id = Some c → cl_pc c = CNew →
      rewrittenByRestartingCycle (cl_sections c) (sy_trigger s) = false →
      step s (upd (sy_trigger s) (sy_state s) (<[id := at_pc CChecked c]> (sy_clients s)) (sy_loop s) s)
  | step_add s id c : sy_clients s !! id = Some c → cl_pc c = CChecked →
      step s (upd (count_event (sy_trigger s)) (AddRequestedConfigs (cl_sections c) (sy_state s))
        (<[id := at_pc CAdded c]> (sy_clients s)) (sy_loop s) s)
  | step_register s id c : sy_clients s !! id = Some c → cl_pc c = CAdded →
      step s (upd (register id (sy_trigger s)) (sy_state s) (<[id := at_pc CWaiting c]> (sy_clients s)) (sy_loop s) s)
  | step_give_up s id c : sy_clients s !! id = Some c → cl_pc c = CWaiting →
      step s (upd (forget id (sy_trigger s)) (sy_state s) (<[id := at_pc CGone c]> (sy_clients s)) (sy_loop s) s)
  (* the loop *)
  | step_claim s : sy_loop s = LIdle →
      step s (upd (claimWaiters (sy_trigger s)) (sy_state s) (sy_clients s) LClaimed s)
  | step_take s T st : sy_loop s = LClaimed → TakeRequestedConfigs (sy_state s) = (T, st) →
      step s {| sy_trigger := sy_trigger s; sy_state := st; sy_clients := sy_clients s;
                sy_loop := LTaken (sy_takes s) T; sy_takes := S (sy_takes s);
                sy_executed := sy_executed s; sy_written := sy_written s |}
  | step_plan_ok s k T P : sy_loop s = LTaken k T →
      step s (upd (sy_trigger s) (sy_state s) (sy_clients s) (LPlanned k T P) s)
  | step_plan_error s k T : sy_loop s = LTaken k T →
      step s (upd (sy_trigger s) (AddRequestedConfigs T (sy_state s)) (sy_clients s) LFailed s)
  | step_requeue s : sy_loop s = LFailed →
      step s (upd (requeueWaiters (sy_trigger s)) (sy_state s) (sy_clients s) LIdle s)
  | step_execute s k T P : sy_loop s = LPlanned k T P →
      step s {| sy_trigger := sy_trigger s; sy_state := sy_state s; sy_clients := sy_clients s;
                sy_loop := LExecuted P; sy_takes := sy_takes s;
                sy_executed := sy_executed s ++ [(k, T)]; sy_written := sy_written s ++ [(k, P)] |}
  | step_complete s P ids t : sy_loop s = LExecuted P → completeWaiters (sy_trigger s) = (ids, t) →
      step s (upd t (sy_state s) (release ids (sy_clients s)) (LCompleted P) s)
  | step_rewrite_failed s P : sy_loop s = LCompleted P →
      step s (upd (sy_trigger s) (sy_state s) (sy_clients s) LIdle s)
  | step_begin_restarts s P : sy_loop s = LCompleted P →
      step s (upd (beginRestarts P (sy_trigger s)) (sy_state s) (sy_clients s) LRestarts s)
  | step_end_restarts s : sy_loop s = LRestarts →
      step s (upd (endRestarts (sy_trigger s)) (sy_state s) (sy_clients s) LIdle s).

Definition initial (st : State) : Sys :=
  {| sy_trigger := {| EventCounter := 0; waiting := []; inflight := []; restarting := None |};
     sy_state := st; sy_clients := ∅; sy_loop := LIdle; sy_takes := 0; sy_executed := []; sy_written := [] |}.

Definition reachable (s : Sys) : Prop := ∃ st, rtc step (initial st) s.

(** ** Clients under every interleaving *)

#[local] Open Scope nat_scope.

(** ** Where a requested section can be *)
Definition in_progress (l : LoopPc) : option (nat * list string) :=
  match l with LTaken k T | LPlanned k T _ => Some (k, T) | _ => None end.

(** Taken by plan number [n] or a later one, and executed. *)
Definition executed_since (s : Sys) (n : nat) (x : string) : Prop :=
  ∃ k T, (k, T) ∈ sy_executed s ∧ n ≤ k ∧ x ∈ T.

Definition covered (s : Sys) (c : Client) (x : string) : Prop :=
  is_Some (RequestedConfig (sy_state s) !! x) ∨
  (∃ k T, in_progress (sy_loop s) = Some (k, T) ∧ cl_stamp c ≤ k ∧ x ∈ T) ∨
  executed_since s (cl_stamp c) x.

(** The same for a client the current cycle has claimed: what it asked for is not
    merely requested once the cycle has taken the requests. *)
Definition claimed (s : Sys) (c : Client) (x : string) : Prop :=
  match sy_loop s with
  | LTaken k T | LPlanned k T _ => (cl_stamp c ≤ k ∧ x ∈ T) ∨ executed_since s (cl_stamp c) x
  | LExecuted _ => executed_since s (cl_stamp c) x
  | LClaimed | LFailed => True
  | LIdle | LCompleted _ | LRestarts => False
  end.

Definition client_ok (s : Sys) (id : nat) (c : Client) : Prop :=
  cl_stamp c ≤ sy_takes s ∧
  match cl_pc c with
  | CNew | CChecked | CGone => True
  | CAdded => ∀ x, x ∈ cl_sections c → covered s c x
  | CWaiting =>
      (∀ x, x ∈ cl_sections c → covered s c x) ∧
      (id ∈ waiting (sy_trigger s) ∨ id ∈ inflight (sy_trigger s)) ∧
      (id ∈ inflight (sy_trigger s) → ∀ x, x ∈ cl_sections c → claimed s c x)
  | CReleased => ∀ x, x ∈ cl_sections c → executed_since s (cl_stamp c) x
  | CAnswered => ∀ x, x ∈ cl_sections c → ∃ k P, (k, P) ∈ sy_written s ∧ x ∈ P
  end.

Definition lists_ok (s : Sys) : Prop :=
  NoDup (waiting (sy_trigger s) ++ inflight (sy_trigger s)) ∧
  ∀ id, id ∈ waiting (sy_trigger s) ++ inflight (sy_trigger s) →
    ∃ c, sy_clients s !! id = Some c ∧ cl_pc c = CWaiting.

Definition loop_ok (s : Sys) : Prop :=
  match sy_loop s with
  | LIdle => inflight (sy_trigger s) = []
  | LExecuted P => ∃ k, (k, P) ∈ sy_written s
  | LCompleted P => inflight (sy_trigger s) = [] ∧ ∃ k, (k, P) ∈ sy_written s
  | LRestarts => inflight (sy_trigger s) = []
  | LTaken k _ | LPlanned k _ _ => k < sy_takes s
  | LClaimed | LFailed => True
  end ∧
  ∀ set, restarting (sy_trigger s) = Some set → ∃ k P, (k, P) ∈ sy_written s ∧ set = list_to_set P.

Definition inv (s : Sys) : Prop := map_Forall (client_ok s) (sy_clients s) ∧ lists_ok s ∧ loop_ok s.

(** ** Frames *)
Record keeps (s s' : Sys) : Prop := {
  k_takes : sy_takes s ≤ sy_takes s';
  k_executed : sy_executed s ⊆ sy_executed s';
  k_written : sy_written s ⊆ sy_written s' }.

Lemma executed_since_keeps s s' n x : keeps s s' → executed_since s n x → executed_since s' n x.
Proof. intros [_ He _] (k & T & Hin & Hk & Hx). exists k, T. auto. Qed.

Lemma client_ok_keeps s s' id c :
  keeps s s' →
  (∀ x, x ∈ cl_sections c → covered s c x → covered s' c x) →
  (id ∈ waiting (sy_trigger s) ∨ id ∈ inflight (sy_trigger s) →
   id ∈ waiting (sy_trigger s') ∨ id ∈ inflight (sy_trigger s')) →
  (cl_pc c = CWaiting → id ∈ inflight (sy_trigger s') →
   (∀ x, x ∈ cl_sections c → covered s c x) →
   (id ∈ inflight (sy_trigger s) → ∀ x, x ∈ cl_sections c → claimed s c x) →
   ∀ x, x ∈ cl_sections c → claimed s' c x) →
  client_ok s id c → client_ok s' id c.
Proof.
  intros Hk Hcov Hlist Hcl [Hst Hpc]. pose proof Hk as [Ht _ Hw]. split; [lia|].
  destruct (cl_pc c) eqn:Ep; try done.
  - auto.
  - destruct Hpc as (H1 & H2 & H3). split_and!; [auto|auto|]. intros Hin. by apply Hcl.
  - intros x Hx. by eapply executed_since_keeps, Hpc.
  - intros x Hx. destruct (Hpc x Hx) as (k & P & Hin & HP). exists k, P. auto.
Qed.

(** A client step changes one client; the others see at most more requests and
    the lists changed at that client. *)
Lemma others_keep s t st cl id id' c :
  id' ≠ id →
  (∀ x, is_Some (RequestedConfig (sy_state s) !! x) → is_Some (RequestedConfig st !! x)) →
  (∀ j, j ≠ id → (j ∈ waiting t ↔ j ∈ waiting (sy_trigger s)) ∧ (j ∈ inflight t ↔ j ∈ inflight (sy_trigger s))) →
  client_ok s id' c → client_ok (upd t st cl (sy_loop s) s) id' c.
Proof.
  intros Hne Hreq Hlists. destruct (Hlists id' Hne) as [Hw Hi]. apply client_ok_keeps.
  - by split.
  - intros x _ [Hr|[Hp|He]]; [left; by apply Hreq|right; by left|right; by right].
  - cbn [sy_trigger upd]. by rewrite Hw, Hi.
  - cbn [sy_trigger upd]. rewrite Hi. intros _ Hin _ Hcl x Hx. by apply Hcl.
Qed.

Lemma inv_update s t st id c' :
  inv s →
  (∀ x, is_Some (RequestedConfig (sy_state s) !! x) → is_Some (RequestedConfig st !! x)) →
  (∀ j, j ≠ id → (j ∈ waiting t ↔ j ∈ waiting (sy_trigger s)) ∧ (j ∈ inflight t ↔ j ∈ inflight (sy_trigger s))) →
  restarting t = restarting (sy_trigger s) →
  (inflight (sy_trigger s) = [] → inflight t = []) →
  (id ∈ waiting t ++ inflight t → cl_pc c' = CWaiting) → NoDup (waiting t ++ inflight t) →
  client_ok (upd t st (<[id := c']> (sy_clients s)) (sy_loop s) s) id c' →
  inv (upd t st (<[id := c']> (sy_clients s)) (sy_loop s) s).
Proof.
  intros (Hcl & [_ Hli] & Hlo & Hres) Hreq Hlists Hr Hinf Hown Hnd Hok. split_and!.
  - cbn [sy_clients upd]. apply map_Forall_lookup. intros id' c0 [[<- <-]|[Hne H0]]%lookup_insert_Some; [done|].
    apply (others_keep s _ _ _ id); [done..|]. by apply Hcl.
  - split; [done|]. intros j Hj. cbn [sy_trigger sy_clients upd] in *. destruct (decide (j = id)) as [->|Hne].
    + exists c'. rewrite lookup_insert_eq. auto.
    + rewrite lookup_insert_ne by done. apply Hli. destruct (Hlists j Hne) as [Hw Hi].
      rewrite elem_of_app in Hj |- *. by rewrite <- Hw, <- Hi.
  - unfold loop_ok. cbn [sy_loop upd sy_trigger sy_takes sy_written]. split.
    + destruct (sy_loop s); naive_solver.
    + rewrite Hr. exact Hres.
Qed.

(** ** The steps of a client *)
Lemma inv_client s t st id c' :
  inv s →
  (∀ x, is_Some (RequestedConfig (sy_state s) !! x) → is_Some (RequestedConfig st !! x)) →
  waiting t = waiting (sy_trigger s) → inflight t = inflight (sy_trigger s) →
  restarting t = restarting (sy_trigger s) →
  id ∉ waiting (sy_trigger s) ++ inflight (sy_trigger s) →
  client_ok (upd t st (<[id := c']> (sy_clients s)) (sy_loop s) s) id c' →
  inv (upd t st (<[id := c']> (sy_clients s)) (sy_loop s) s).
Proof.
  intros Hinv Hreq Hw Hi Hr Hni Hok. apply inv_update; try done.
  - intros j _. by rewrite Hw, Hi.
  - by rewrite Hi.
  - by rewrite Hw, Hi.
  - rewrite Hw, Hi. apply Hinv.
Qed.

(** A client that is not waiting is in neither list. *)
Lemma not_listed s id : inv s →
  (∀ c, sy_clients s !! id = Some c → cl_pc c ≠ CWaiting) → id ∉ waiting (sy_trigger s) ++ inflight (sy_trigger s).
Proof. intros (_ & [_ Hli] & _) Hc Hin. destruct (Hli id Hin) as (c & E & Hp). by apply (Hc c). Qed.

Lemma not_listed_pc s id c : inv s → sy_clients s !! id = Some c → cl_pc c ≠ CWaiting →
  id ∉ waiting (sy_trigger s) ++ inflight (sy_trigger s).
Proof. intros Hinv E Hp. apply not_listed; [done|]. congruence. Qed.

Lemma stamp_ok s id c : inv s → sy_clients s !! id = Some c → cl_stamp c ≤ sy_takes s.
Proof. intros (Hcl & _) E. by destruct (Hcl id c E). Qed.

Lemma rewritten_written s configs : inv s → rewrittenByRestartingCycle configs (sy_trigger s) = true →
  ∀ x, x ∈ configs → ∃ k P, (k, P) ∈ sy_written s ∧ x ∈ P.
Proof.
  intros (_ & _ & _ & Hres). unfold rewrittenByRestartingCycle.
  destruct (restarting (sy_trigger s)) as [set|] eqn:E; [|done].
  intros [_ Hall]%andb_true_iff x Hx. destruct (Hres set eq_refl) as (k & P & Hin & ->).
  exists k, P. split; [done|]. rewrite forallb_forall in Hall. apply list_elem_of_In in Hx.
  specialize (Hall x Hx). by apply bool_decide_eq_true, elem_of_list_to_set in Hall.
Qed.

Lemma inv_arrive s id secs : inv s → sy_clients s !! id = None →
  inv (upd (sy_trigger s) (sy_state s)
    (<[id := {| cl_sections := secs; cl_stamp := sy_takes s; cl_pc := CNew |}]> (sy_clients s)) (sy_loop s) s).
Proof.
  intros Hinv E. apply inv_client; try done.
  apply not_listed; [done|]. congruence.
Qed.

Lemma inv_step_new s id c pc : inv s → sy_clients s !! id = Some c → cl_pc c = CNew →
  pc = CChecked ∨ (pc = CAnswered ∧ rewrittenByRestartingCycle (cl_sections c) (sy_trigger s) = true) →
  inv (upd (sy_trigger s) (sy_state s) (<[id := at_pc pc c]> (sy_clients s)) (sy_loop s) s).
Proof.
  intros Hinv E Hp Hpc. apply inv_client; try done; [eapply not_listed_pc; [done..|congruence]|].
  split; [exact (stamp_ok s id c Hinv E)|]. destruct Hpc as [->|[-> Hre]]; [done|]. exact (rewritten_written s (cl_sections c) Hinv Hre).
Qed.

Lemma inv_add s id c : inv s → sy_clients s !! id = Some c → cl_pc c = CChecked →
  inv (upd (count_event (sy_trigger s)) (AddRequestedConfigs (cl_sections c) (sy_state s))
    (<[id := at_pc CAdded c]> (sy_clients s)) (sy_loop s) s).
Proof.
  intros Hinv E Hp. apply inv_client; try done.
  - intros x Hx. apply AddRequestedConfigs_is_Some. by left.
  - eapply not_listed_pc; [done..|congruence].
  - split; [exact (stamp_ok s id c Hinv E)|]. intros x Hx. left. apply AddRequestedConfigs_is_Some. by right.
Qed.

Lemma inv_register s id c : inv s → sy_clients s !! id = Some c → cl_pc c = CAdded →
  inv (upd (register id (sy_trigger s)) (sy_state s) (<[id := at_pc CWaiting c]> (sy_clients s)) (sy_loop s) s).
Proof.
  intros Hinv E Hp. assert (id ∉ waiting (sy_trigger s) ++ inflight (sy_trigger s)) as Hni
    by (eapply not_listed_pc; [done..|congruence]).
  apply inv_update; try done.
  - intros j Hj. cbn. rewrite elem_of_app, list_elem_of_singleton. naive_solver.
  - cbn. rewrite <- app_assoc, (Permutation_app_comm [id]), app_assoc. apply NoDup_app. split_and!; [apply Hinv| |].
    + intros x Hx ->%list_elem_of_singleton. done.
    + apply NoDup_singleton.
  - split; [exact (stamp_ok s id c Hinv E)|]. cbn [cl_pc at_pc]. split_and!.
    + destruct Hinv as (Hcl & _). destruct (Hcl id c E) as [_ Hok]. rewrite Hp in Hok.
      intros x Hx. destruct (Hok x Hx) as [?|[?|?]]; [by left|right; by left|right; by right].
    + left. cbn. set_solver.
    + intros Hin. exfalso. apply Hni, elem_of_app. by right.
Qed.

Lemma inv_give_up s id c : inv s → sy_clients s !! id = Some c → cl_pc c = CWaiting →
  inv (upd (forget id (sy_trigger s)) (sy_state s) (<[id := at_pc CGone c]> (sy_clients s)) (sy_loop s) s).
Proof.
  intros Hinv E Hp. apply inv_update; try done.
  - intros j Hj. cbn. rewrite !list_elem_of_filter. naive_solver.
  - intros Hi. cbn. by rewrite Hi.
  - cbn. rewrite elem_of_app, !list_elem_of_filter. naive_solver.
  - cbn. rewrite <- filter_app. apply NoDup_filter, Hinv.
  - split; [exact (stamp_ok s id c Hinv E)|done].
Qed.

(** ** The steps of the loop: every client keeps what it has *)
Lemma inv_loop s s' : inv s → sy_clients s' = sy_clients s → keeps s s' →
  waiting (sy_trigger s') ++ inflight (sy_trigger s') ≡ₚ waiting (sy_trigger s) ++ inflight (sy_trigger s) →
  (∀ id c x, sy_clients s !! id = Some c → x ∈ cl_sections c → covered s c x → covered s' c x) →
  (∀ id c, sy_clients s !! id = Some c → cl_pc c = CWaiting → id ∈ inflight (sy_trigger s') →
     (∀ x, x ∈ cl_sections c → covered s c x) →
     (id ∈ inflight (sy_trigger s) → ∀ x, x ∈ cl_sections c → claimed s c x) →
     ∀ x, x ∈ cl_sections c → claimed s' c x) →
  loop_ok s' → inv s'.
Proof.
  intros (Hcl & [Hnd Hli] & _) Ec Hk Hperm Hcov Hclm Hlo.
  assert (∀ id, id ∈ waiting (sy_trigger s') ++ inflight (sy_trigger s') ↔
                id ∈ waiting (sy_trigger s) ++ inflight (sy_trigger s)) as Hids by (intros id; by rewrite Hperm).
  split_and!; [| |done].
  - rewrite Ec. intros id c E. apply (client_ok_keeps s); [done| | | |by apply Hcl].
    + intros x. exact (Hcov id c x E).
    + specialize (Hids id). rewrite !elem_of_app in Hids. tauto.
    + exact (Hclm id c E).
  - split; [by rewrite Hperm|]. intros id Hid. rewrite Ec. by apply Hli, Hids.
Qed.

Lemma keeps_upd s t st cl l : keeps s (upd t st cl l s).
Proof. by split. Qed.

(** Changing only the program counter between two points of the cycle that have
    the same requests in progress. *)
Lemma covered_upd s t cl l c x : in_progress l = in_progress (sy_loop s) →
  covered s c x → covered (upd t (sy_state s) cl l s) c x.
Proof. intros Hl [?|[?|?]]; [by left|right; left; cbn; by rewrite Hl|right; by right]. Qed.

Lemma inv_claim s : inv s → sy_loop s = LIdle →
  inv (upd (claimWaiters (sy_trigger s)) (sy_state s) (sy_clients s) LClaimed s).
Proof.
  intros Hinv El. apply (inv_loop s); try done.
  - cbn. apply Permutation_app_comm.
  - intros id c x _ _. apply covered_upd. by rewrite El.
  - destruct Hinv as (_ & _ & Hlo). unfold loop_ok in *. naive_solver.
Qed.

Lemma inv_take s T st : inv s → sy_loop s = LClaimed → TakeRequestedConfigs (sy_state s) = (T, st) →
  inv {| sy_trigger := sy_trigger s; sy_state := st; sy_clients := sy_clients s;
         sy_loop := LTaken (sy_takes s) T; sy_takes := S (sy_takes s);
         sy_executed := sy_executed s; sy_written := sy_written s |}.
Proof.
  intros Hinv El [= <- <-]. set (s' := {| sy_trigger := sy_trigger s |}).
  assert (∀ id c x, sy_clients s !! id = Some c → covered s c x → claimed s' c x) as Hcov.
  { intros id c x E [Hr|[(k & T & Hip & _)|He]]; cbn.
    - left. split; [by eapply stamp_ok|]. by apply elem_of_sorted_keys.
    - by rewrite El in Hip.
    - by right. }
  apply (inv_loop s); try done.
  - split; cbn; [lia|done|done].
  - intros id c x E Hx Hc. destruct (Hcov id c x E Hc) as [[Hk HT]|He]; [|right; by right].
    right. left. by eexists _, _.
  - intros id c E _ _ Hc _ x Hx. apply (Hcov id); auto.
  - destruct Hinv as (_ & _ & Hlo). unfold loop_ok in *. cbn. split; [lia|]. naive_solver.
Qed.

Lemma inv_plan_ok s k T P : inv s → sy_loop s = LTaken k T →
  inv (upd (sy_trigger s) (sy_state s) (sy_clients s) (LPlanned k T P) s).
Proof.
  intros Hinv El. apply (inv_loop s); try done.
  - intros id c x _ _. apply covered_upd. by rewrite El.
  - intros id c E Hp Hin _ Hc x Hx. specialize (Hc Hin x Hx). unfold claimed in *. by rewrite El in Hc.
  - destruct Hinv as (_ & _ & Hlo). unfold loop_ok in *. rewrite El in Hlo. done.
Qed.

Lemma inv_plan_error s k T : inv s → sy_loop s = LTaken k T →
  inv (upd (sy_trigger s) (AddRequestedConfigs T (sy_state s)) (sy_clients s) LFailed s).
Proof.
  intros Hinv El. apply (inv_loop s); try done.
  - intros id c x _ _ [Hr|[(k' & T' & Hip & Hk & HT)|He]].
    + left. apply AddRequestedConfigs_is_Some. by left.
    + left. apply AddRequestedConfigs_is_Some. right. rewrite El in Hip. by injection Hip as <- <-.
    + right. by right.
  - destruct Hinv as (_ & _ & Hlo). unfold loop_ok in *. naive_solver.
Qed.

Lemma inv_requeue s : inv s → sy_loop s = LFailed →
  inv (upd (requeueWaiters (sy_trigger s)) (sy_state s) (sy_clients s) LIdle s).
Proof.
  intros Hinv El. apply (inv_loop s); try done.
  - cbn. rewrite app_nil_r. apply Permutation_app_comm.
  - intros id c x _ _. apply covered_upd. by rewrite El.
  - intros id c _ _ Hin. by apply not_elem_of_nil in Hin.
  - destruct Hinv as (_ & _ & Hlo). unfold loop_ok in *. naive_solver.
Qed.

Lemma inv_execute s k T P : inv s → sy_loop s = LPlanned k T P →
  inv {| sy_trigger := sy_trigger s; sy_state := sy_state s; sy_clients := sy_clients s;
         sy_loop := LExecuted P; sy_takes := sy_takes s;
         sy_executed := sy_executed s ++ [(k, T)]; sy_written := sy_written s ++ [(k, P)] |}.
Proof.
  intros Hinv El. set (s' := {| sy_trigger := sy_trigger s |}).
  assert (keeps s s') as Hk by (split; cbn; [lia|set_solver|set_solver]).
  assert (∀ c x, cl_stamp c ≤ k → x ∈ T → executed_since s' (cl_stamp c) x) as Hnew.
  { intros c x Hle Hx. exists k, T. cbn. set_solver. }
  apply (inv_loop s); try done.
  - intros id c x _ _ [Hr|[(k' & T' & Hip & Hle & HT)|He]]; [by left|..]; right; right.
    + rewrite El in Hip. injection Hip as <- <-. auto.
    + by eapply executed_since_keeps.
  - intros id c E Hp Hin _ Hc x Hx. specialize (Hc Hin x Hx). unfold claimed in *. rewrite El in Hc.
    destruct Hc as [[Hle HT]|He]; [by apply Hnew|by eapply executed_since_keeps].
  - destruct Hinv as (_ & _ & _ & Hres). split; cbn; [exists k; set_solver|].
    intros set Hset. destruct (Hres set Hset) as (k' & P' & Hin & ->). exists k', P'. set_solver.
Qed.

Lemma release_lookup ids cl id c : release ids cl !! id = Some c →
  ∃ c0, cl !! id = Some c0 ∧ c = if decide (id ∈ ids) then at_pc CReleased c0 else c0.
Proof.
  unfold release. rewrite map_lookup_imap. destruct (cl !! id) as [c0|]; [|done]. cbn.
  intros [= <-]. eauto.
Qed.

Lemma inv_complete s P ids t : inv s → sy_loop s = LExecuted P → completeWaiters (sy_trigger s) = (ids, t) →
  inv (upd t (sy_state s) (release ids (sy_clients s)) (LCompleted P) s).
Proof.
  intros (Hcl & [Hnd Hli] & Hlo & Hres) El [= <- <-]. split_and!.
  - intros id c (c0 & E & ->)%release_lookup. destruct (Hcl id c0 E) as [Hst Hpc]. case_decide as Hin.
    + destruct (Hli id) as (c1 & E1 & Hp); [apply elem_of_app; by right|]. rewrite E in E1. injection E1 as <-.
      rewrite Hp in Hpc. destruct Hpc as (_ & _ & Hc). split; [done|]. intros x Hx.
      specialize (Hc Hin x Hx). unfold claimed in Hc. by rewrite El in Hc.
    + apply (client_ok_keeps s); [apply keeps_upd| | | |by split].
      * intros x _. apply covered_upd. by rewrite El.
      * cbn. naive_solver.
      * intros _ Hin'. by apply not_elem_of_nil in Hin'.
  - apply NoDup_app in Hnd as (Hnw & Hdis & _). split; cbn; [by rewrite app_nil_r|]. rewrite app_nil_r. intros id Hw.
    destruct (Hli id) as (c & E & Hp); [apply elem_of_app; by left|].
    unfold release. rewrite map_lookup_imap, E. cbn. rewrite decide_False by (by apply Hdis). eauto.
  - unfold loop_ok in *. rewrite El in Hlo. done.
Qed.

Lemma inv_restarts s t l : inv s → waiting t = waiting (sy_trigger s) → inflight t = inflight (sy_trigger s) →
  inflight (sy_trigger s) = [] → in_progress (sy_loop s) = None → l = LIdle ∨ l = LRestarts →
  (∀ set, restarting t = Some set → ∃ k P, (k, P) ∈ sy_written s ∧ set = list_to_set P) →
  inv (upd t (sy_state s) (sy_clients s) l s).
Proof.
  intros Hinv Hw Hi Hnil Hip Hl Hr. apply (inv_loop s); try done.
  - cbn. by rewrite Hw, Hi.
  - intros id c x _ _. apply covered_upd. rewrite Hip. by destruct Hl as [-> | ->].
  - intros id c _ _ Hin. cbn in Hin. rewrite Hi, Hnil in Hin. by apply not_elem_of_nil in Hin.
  - split; [|done]. cbn. rewrite Hi. by destruct Hl as [-> | ->].
Qed.

#[local] Hint Resolve inv_arrive inv_step_new inv_add inv_register inv_give_up inv_claim inv_take inv_plan_ok
  inv_plan_error inv_requeue inv_execute inv_complete : configd.

Lemma inv_step s s' : inv s → step s s' → inv s'.
Proof.
  intros Hinv Hs. pose proof Hinv as (_ & _ & Hlo & Hres). destruct Hs; eauto with configd; rewrite H in Hlo.
  - destruct Hlo as [Hi _]. apply inv_restarts; auto; by rewrite H.
  - destruct Hlo as [Hi [k Hk]]. apply inv_restarts; auto; [by rewrite H|]. intros set [= <-]. eauto.
  - apply inv_restarts; auto; [by rewrite H|done].
Qed.

Lemma inv_initial st : inv (initial st).
Proof. split_and!; [apply map_Forall_empty| |]; (split; [first [constructor|done]|]); by try intros ? ?%not_elem_of_nil. Qed.

Lemma inv_reachable s : reachable s → inv s.
Proof.
  intros [st Hr]. remember (initial st) as s0 eqn:E.
  assert (inv s0) as Hi by (subst; apply inv_initial). clear E.
  induction Hr as [|s1 s2 s3 H12 _ IH]; [done|]. apply IH. by eapply inv_step.
Qed.

(** C30: under every interleaving of clients and main loop, a REWRITE client gets its
    "complete" only once every section it named was taken by a plan that took
    the requests after the client arrived and was executed; a client answered
    during the restart phase named only sections of a plan that was executed. *)
Theorem rewrite_released_after_execution s id c :
  reachable s → sy_clients s !! id = Some c →
  (cl_pc c = CReleased → ∀ x, x ∈ cl_sections c →
     ∃ k T, (k, T) ∈ sy_executed s ∧ cl_stamp c ≤ k ∧ x ∈ T) ∧
  (cl_pc c = CAnswered → ∀ x, x ∈ cl_sections c → ∃ k P, (k, P) ∈ sy_written s ∧ x ∈ P).
Proof.
  intros (Hcl & _)%inv_reachable E. destruct (Hcl id c E) as [_ Hpc].
  split; intros Hp; rewrite Hp in Hpc; exact Hpc.
Qed.

(** C31: no client and no request is lost: a client that waits is registered exactly
    once, each section it named is still requested, in the plan in progress, or
    executed since it arrived, and between cycles every waiting client is queued
    for the next one. *)
Theorem rewrite_not_lost s id c :
  reachable s → sy_clients s !! id = Some c → cl_pc c = CWaiting →
  NoDup (waiting (sy_trigger s) ++ inflight (sy_trigger s)) ∧
  (id ∈ waiting (sy_trigger s) ∨ id ∈ inflight (sy_trigger s)) ∧
  (sy_loop s = LIdle → id ∈ waiting (sy_trigger s)) ∧
  ∀ x, x ∈ cl_sections c →
    is_Some (RequestedConfig (sy_state s) !! x) ∨
    (∃ k T, in_progress (sy_loop s) = Some (k, T) ∧ cl_stamp c ≤ k ∧ x ∈ T) ∨
    ∃ k T, (k, T) ∈ sy_executed s ∧ cl_stamp c ≤ k ∧ x ∈ T.
Proof.
  intros (Hcl & [Hnd _] & Hlo & _)%inv_reachable E Hp. destruct (Hcl id c E) as [_ Hpc]. rewrite Hp in Hpc.
  destruct Hpc as (Hcov & Hin & _). split_and!; [done|done| |exact Hcov].
  intros El. rewrite El in Hlo. destruct Hin as [?|Hin]; [done|]. rewrite Hlo in Hin.
  by apply not_elem_of_nil in Hin.
Qed.

(** ** A concrete run: one client, one cycle *)
Definition mta_client (pc : ClientPc) : Client := {| cl_sections := ["mta"]; cl_stamp := 0; cl_pc := pc |}.

Definition mta_state : State := AddRequestedConfigs ["mta"] NewState.

Definition queue_of (w i : list nat) : Trigger :=
  {| EventCounter := 1; waiting := w; inflight := i; restarting := None |}.

(** After the client registered. *)
Definition registered : Sys :=
  {| sy_trigger := queue_of [7] []; sy_state := mta_state; sy_clients := {[7 := mta_client CWaiting]};
     sy_loop := LIdle; sy_takes := 0; sy_executed := []; sy_written := [] |}.

Lemma registered_reachable : reachable registered.
Proof.
  exists NewState.
  eapply rtc_l; [apply (step_arrive _ 7 ["mta"]); reflexivity|].
  eapply rtc_l; [apply (step_checked _ 7 (mta_client CNew)); reflexivity|].
  eapply rtc_l; [apply (step_add _ 7 (mta_client CChecked)); reflexivity|].
  eapply rtc_l; [apply (step_register _ 7 (mta_client CAdded)); reflexivity|].
  apply rtc_refl.
Qed.

(** After the cycle that took its request was executed. *)
Definition released : Sys :=
  {| sy_trigger := queue_of [] []; sy_state := set_requested (λ _, ∅) mta_state;
     sy_clients := release [7] {[7 := mta_client CWaiting]}; sy_loop := LCompleted ["mta"]; sy_takes := 1;
     sy_executed := [(0, ["mta"])]; sy_written := [(0, ["mta"])] |}.

Lemma released_reachable : reachable released.
Proof.
  destruct registered_reachable as [st Hr]. exists st. etrans; [exact Hr|].
  eapply rtc_l; [by apply step_claim|].
  eapply rtc_l; [by apply (step_take _ ["mta"] (set_requested (λ _, ∅) mta_state))|].
  eapply rtc_l; [by apply (step_plan_ok _ 0 ["mta"] ["mta"])|].
  eapply rtc_l; [by apply (step_execute _ 0 ["mta"] ["mta"])|].
  eapply rtc_l; [by apply (step_complete _ ["mta"] [7] (queue_of [] []))|].
  apply rtc_refl.
Qed.

Lemma rewrite_released_after_execution_witness :
  ∃ k T, (k, T) ∈ sy_executed released ∧ cl_stamp (mta_client CReleased) ≤ k ∧ "mta" ∈ T.
Proof.
  apply (proj1 (rewrite_released_after_execution released 7 (mta_client CReleased) released_reachable eq_refl) eq_refl).
  by left.
Defined.

Lemma rewrite_not_lost_witness :
  sy_loop registered = LIdle ∧ 7 ∈ waiting (sy_trigger registered).
Proof.
  destruct (rewrite_not_lost registered 7 (mta_client CWaiting) registered_reachable eq_refl eq_refl)
    as (_ & _ & Hidle & _).
  split; [reflexivity|]. by apply Hidle.
Defined.
