(* ===== verification/Watchdog.v ===== *)
(** * Watchdog: internal/watchdog/watchdog.go and its wiring (cmd/configd/bootstrap.go)

    The health checks of one tick: probe the monitored services, restart the
    tracked ones that are down, watch again those seen running.

    The watchdog shares the service manager and the state with the main loop.
    Its tracking flags live in the state and the service manager clears them
    ([BeforeRestart]) on every restart it attempts, so the state is part of the
    world the manager acts on. *)
From S2P Require Import Prelude Config Snapshot Plan Services ServicesProps State.

(** ** The world of the service manager: the state and the host *)
Record World (W : Type) := { ww_state : State; ww_host : W }.
Arguments ww_state {W}. Arguments ww_host {W}.

Inductive WdEvent :=
  | WdStatusChange (service : string) (from to : string)
  | WdRestart (service : string) (ok : bool).

Section watchdog.
Context {W : Type} (host : Backend W).

Definition in_world {A} (ww : World W) (r : A * W) : A * World W :=
  (r.1, {| ww_state := ww_state ww; ww_host := r.2 |}).

(** The host answers; it does not touch the state. *)
Definition ctl : Backend (World W) :=
  {| ServiceStart s ww := in_world ww (ServiceStart host s (ww_host ww));
     ServiceStop s ww := in_world ww (ServiceStop host s (ww_host ww));
     ServiceRestart s ww := in_world ww (ServiceRestart host s (ww_host ww));
     ServiceStatus s ww := in_world ww (ServiceStatus host s (ww_host ww));
     LookupService := LookupService host;
     asHost := (λ h, {| IsSystemdMode_ ww := IsSystemdMode_ h (ww_host ww);
                        ServiceTryReloadOrRestart s ww :=
                          in_world ww (ServiceTryReloadOrRestart h s (ww_host ww)) |}) <$> asHost host;
     ctx_Err ww := in_world ww (ctx_Err host (ww_host ww)) |}.

Definition map_state (f : State → State) (ww : World W) : World W :=
  {| ww_state := f (ww_state ww); ww_host := ww_host ww |}.

(** ** State *)
Record Watchdog := {
  wd_enabled : bool;
  serviceEnabled : gmap string bool;
  prevServices : gmap string string;
  wd_sm : ServiceManager;
  wd_world : World W;
  wd_log : list WdEvent }.

Definition set_world (ww : World W) (w : Watchdog) : Watchdog :=
  {| wd_enabled := wd_enabled w; serviceEnabled := serviceEnabled w; prevServices := prevServices w;
     wd_sm := wd_sm w; wd_world := ww; wd_log := wd_log w |}.

Definition set_manager (sm : ServiceManager) (w : Watchdog) : Watchdog :=
  {| wd_enabled := wd_enabled w; serviceEnabled := serviceEnabled w; prevServices := prevServices w;
     wd_sm := sm; wd_world := wd_world w; wd_log := wd_log w |}.

Definition set_enabled (b : bool) (w : Watchdog) : Watchdog :=
  {| wd_enabled := b; serviceEnabled := serviceEnabled w; prevServices := prevServices w;
     wd_sm := wd_sm w; wd_world := wd_world w; wd_log := wd_log w |}.

Definition emit (e : WdEvent) (w : Watchdog) : Watchdog :=
  {| wd_enabled := wd_enabled w; serviceEnabled := serviceEnabled w; prevServices := prevServices w;
     wd_sm := wd_sm w; wd_world := wd_world w; wd_log := wd_log w ++ [e] |}.

Definition wd_state (w : Watchdog) : State := ww_state (wd_world w).

Definition NewWatchdog (sm : ServiceManager) (ww : World W) : Watchdog :=
  {| wd_enabled := false; serviceEnabled := ∅; prevServices := ∅; wd_sm := sm; wd_world := ww; wd_log := [] |}.

(** Whether a monitoring loop is launched, and the new state. *)
Definition Start (w : Watchdog) : bool * Watchdog :=
  if IsSystemdMode ctl (wd_world w) then (false, w)
  else if wd_enabled w then (false, w)
  else (true, set_enabled true w).

Definition Stop (w : Watchdog) : Watchdog :=
  if IsSystemdMode ctl (wd_world w) then w
  else if negb (wd_enabled w) then w
  else set_enabled false w.

Definition IsServiceEnabled (w : Watchdog) (service : string) : bool :=
  default false (serviceEnabled w !! service).

Definition AddService (service : string) (w : Watchdog) : Watchdog :=
  set_world (map_state (SetWatchdog service true) (wd_world w)) w.

Definition RemoveService (service : string) (w : Watchdog) : Watchdog :=
  set_world (map_state (DelWatchdog service) (wd_world w)) w.

Definition IsServiceTracked (w : Watchdog) (service : string) : bool :=
  default false (GetWatchdog (wd_state w) service).

Definition UpdateServiceList (enabledServices : list string) (w : Watchdog) : Watchdog :=
  {| wd_enabled := wd_enabled w;
     serviceEnabled := foldl (λ m service, <[service := true]> m) ∅ enabledServices;
     prevServices := prevServices w; wd_sm := wd_sm w; wd_world := wd_world w; wd_log := wd_log w |}.

(** ** The wiring: [bootstrapWatchdog] *)
Definition BeforeRestart_ : option (string → World W → World W) :=
  Some (λ service ww, map_state (DelWatchdog service) ww).

Definition configLookup_ (w : Watchdog) (key : string) : string :=
  default "" (Local (Some (State_Snapshot (wd_state w))) key).

(** ** One tick *)
Definition getTrackedServices (w : Watchdog) : list string :=
  filter (λ service, IsServiceTracked w service = true) (sorted_keys (serviceEnabled w)).

Definition isEnabledOnNode (w : Watchdog) (service : string) : bool :=
  ServiceEnabled (Some (State_Snapshot (wd_state w))) service.

Definition wd_IsRunning (service : string) (w : Watchdog) : (error + bool) * Watchdog :=
  let '(r, ww) := IsRunning ctl service (wd_world w) in (r, set_world ww w).

Definition note_status (service curStatus : string) (w : Watchdog) : Watchdog :=
  let w' := {| wd_enabled := wd_enabled w; serviceEnabled := serviceEnabled w;
               prevServices := <[service := curStatus]> (prevServices w); wd_sm := wd_sm w;
               wd_world := wd_world w; wd_log := wd_log w |} in
  match prevServices w !! service with
  | Some prev => if String.eqb prev curStatus then w' else emit (WdStatusChange service prev curStatus) w'
  | None => w'
  end.

Definition observe_one (st : gmap string bool * Watchdog) (service : string) : gmap string bool * Watchdog :=
  let '(observed, w) := st in
  if negb (isEnabledOnNode w service) then (observed, w)
  else match wd_IsRunning service w with
       | (inl _, w) => (observed, w)
       | (inr running, w) =>
           (<[service := running]> observed,
            note_status service (if running : bool then "running" else "stopped") w)
       end.

Definition logServiceStatusChanges (w : Watchdog) : gmap string bool * Watchdog :=
  foldl observe_one (∅, w) (sorted_keys (serviceEnabled w)).

(** [None] only when the fuel of the restart rounds ran out. *)
Definition restartDownService (fuel : nat) (service : string) (w : Watchdog) : option Watchdog :=
  let w := RemoveService service w in
  match AddRestart service (wd_sm w) with
  | (Some _, sm) => Some (AddService service (emit (WdRestart service false) (set_manager sm w)))
  | (None, sm) =>
      '(err, st) ← ProcessRestarts ctl BeforeRestart_ fuel (Some (configLookup_ w)) sm (wd_world w);
      let w := set_world (run_w st) (set_manager (run_sm st) w) in
      match err with
      | Some _ =>
          let '(cancelled, ww) := ctx_Err ctl (wd_world w) in
          let w := set_world ww w in
          Some (if cancelled : bool then w else AddService service (emit (WdRestart service false) w))
      | None => Some (AddService service (emit (WdRestart service true) w))
      end
  end.

Definition checkOneService (fuel : nat) (observed : gmap string bool) (service : string) (w : Watchdog) :
  option Watchdog :=
  if negb (IsServiceEnabled w service) then Some w
  else if negb (IsServiceTracked w service) then Some w
  else
    let '(r, w) := match observed !! service with
                   | Some running => (inr running, w)
                   | None => wd_IsRunning service w
                   end in
    match r with
    | inl _ => Some w
    | inr true => Some w
    | inr false =>
        if negb (IsServiceTracked w service) then Some w else restartDownService fuel service w
    end.

Fixpoint check_loop (fuel : nat) (observed : gmap string bool) (services : list string) (w : Watchdog) :
  option Watchdog :=
  match services with
  | [] => Some w
  | service :: services => w ← checkOneService fuel observed service w; check_loop fuel observed services w
  end.

Definition rearm_one (observed : gmap string bool) (w : Watchdog) (service : string) : Watchdog :=
  if default false (observed !! service) && negb (IsServiceTracked w service)
  then AddService service w else w.

Definition rearmRunningServices (observed : gmap string bool) (w : Watchdog) : Watchdog :=
  foldl (rearm_one observed) w (sorted_keys observed).

Definition checkServices (fuel : nat) (w : Watchdog) : option Watchdog :=
  if negb (wd_enabled w) then Some w
  else
    let '(observed, w) := logServiceStatusChanges w in
    w ← check_loop fuel observed (getTrackedServices w) w;
    Some (rearmRunningServices observed w).

(** ** [updateWatchdogServices] (cmd/configd/mainloop.go), on the first run *)
Definition updateWatchdogServices (tracked : gmap string string) (WdList_ : list string) (w : Watchdog) : Watchdog :=
  let watchdogServices := if is_nil WdList_ then ["antivirus"] else WdList_ in
  foldl (λ w service, if bool_decide (service ∈ watchdogServices) then AddService service w else w)
    (UpdateServiceList watchdogServices w) (map_to_list tracked).*1.
End watchdog.

Arguments Watchdog : clear implicits.

(** ** What a tick restarts and what it keeps watching *)

#[local] Open Scope nat_scope.

(** ** A property of the world that every call keeps is kept by a run *)
Section world.
Context {W : Type} (ctl : Backend W) (BeforeRestart : option (string → W → W)) (Q : W → Prop).
Hypothesis Q_ctx : ∀ w, Q w → Q (ctx_Err ctl w).2.
Hypothesis Q_restart : ∀ s w, Q w → Q (ServiceRestart ctl s w).2.
Hypothesis Q_before : ∀ f s w, BeforeRestart = Some f → Q w → Q (f s w).

Lemma attempt_world cfg svc st : Q (run_w st) → Q (run_w (attemptServiceRestart ctl BeforeRestart cfg svc st).2).
Proof using Q_ctx Q_restart Q_before.
  intros Hq. unfold attemptServiceRestart, ControlProcess.
  repeat (rewrite decide_False by done). rewrite decide_True by done.
  assert (Q (match BeforeRestart with Some f => f svc (run_w st) | None => run_w st end)) as Hb
    by (destruct BeforeRestart eqn:E; auto).
  generalize dependent (match BeforeRestart with Some f => f svc (run_w st) | None => run_w st end). intros w0 Hw0.
  pose proof (Q_restart (ToLower svc) w0 Hw0) as Hr.
  destruct (ServiceRestart ctl (ToLower svc) w0) as [[err|] w1]; [|done].
  pose proof (Q_ctx w1 Hr) as Hc. destruct (ctx_Err ctl w1) as [[] w2]; [done|]. by case_match.
Qed.

Lemma round_world cfg services processed made st :
  Q (run_w st) → Q (run_w (round_loop ctl BeforeRestart cfg services processed made st).2).
Proof using Q_ctx Q_restart Q_before.
  revert processed made st. induction services as [|svc l IH]; intros pr made st Hq; cbn [round_loop]; [done|].
  pose proof (Q_ctx (run_w st) Hq) as Hc. destruct (ctx_Err ctl (run_w st)) as [[] w]; [done|].
  case_match; [by apply IH|]. pose proof (attempt_world cfg svc (with_world w st) Hc) as Ha.
  destruct (attemptServiceRestart _ _ _ _ _) as [[] st1]; by apply IH.
Qed.

Lemma restart_loop_world fuel cfg st e st' :
  Q (run_w st) → restart_loop ctl BeforeRestart fuel cfg st = Some (e, st') → Q (run_w st').
Proof using Q_ctx Q_restart Q_before.
  revert st. induction fuel as [|fuel IH]; intros st Hq; cbn [restart_loop]; case_decide; try (by intros [= <- <-] || done).
  pose proof (round_world cfg (getSortedServices (run_sm st)) ∅ false st Hq) as Hr.
  unfold processRestartRound. destruct (round_loop _ _ _ _ _ _ _) as [made st1].
  pose proof (Q_ctx (run_w st1) Hr) as Hc. destruct (ctx_Err ctl (run_w st1)) as [[] w]; [by intros [= <- <-]|].
  destruct made; [|by intros [= <- <-]]. by apply IH.
Qed.

Lemma ProcessRestarts_world fuel cfg sm w err st :
  Q w → ProcessRestarts ctl BeforeRestart fuel cfg sm w = Some (err, st) → Q (run_w st) ∧ same_settings sm (run_sm st).
Proof using Q_ctx Q_restart Q_before.
  intros Hq. unfold ProcessRestarts. destruct (DisableRestarts sm) eqn:Ed.
  { intros [= <- <-]. by split. }
  destruct (restart_loop _ _ _ _ _) as [[e st1]|] eqn:El; [|done]. intros E.
  assert (st = st1) as -> by (by destruct e; injection E).
  split; [by eapply restart_loop_world in El|].
  eapply (restart_loop_inv ctl BeforeRestart cfg (λ st, same_settings sm (run_sm st))) in El; [done|done| |done].
  intros; by eapply attempted_settings.
Qed.
End world.

Section facts.
Context {W : Type} (host : Backend W).
Implicit Types w : Watchdog W.
Local Abbreviation tracked := IsServiceTracked.

(** ** Frames: what the parts of a tick leave alone *)
Record same_watch w w' : Prop := {
  sw_enabled : wd_enabled w' = wd_enabled w;
  sw_services : serviceEnabled w' = serviceEnabled w;
  sw_settings : same_settings (wd_sm w) (wd_sm w') }.

#[export] Instance same_watch_preorder : PreOrder same_watch.
Proof.
  split; [by intros w; split|]. intros a b c [? ? (?&?&?&?)] [? ? (?&?&?&?)].
  split; [congruence|congruence|]. unfold same_settings. split_and!; congruence.
Qed.

(** The services a log restarted. *)
Definition restart_of (e : WdEvent) : option string := match e with WdRestart s _ => Some s | _ => None end.

Definition restarted (log : list WdEvent) : list string := omap restart_of log.

Lemma tracked_AddService s t w : tracked (AddService s w) t = bool_decide (t = s) || tracked w t.
Proof.
  unfold IsServiceTracked, GetWatchdog, wd_state. cbn. case_bool_decide as Hb; [subst; by rewrite lookup_insert_eq|].
  by rewrite lookup_insert_ne.
Qed.

Lemma tracked_RemoveService s t w : tracked (RemoveService s w) t = true → t ≠ s ∧ tracked w t = true.
Proof.
  unfold IsServiceTracked, GetWatchdog, wd_state. cbn. destruct (decide (t = s)) as [->|Hne].
  - by rewrite lookup_delete_eq.
  - by rewrite lookup_delete_ne.
Qed.

(** ** The probes *)
Record probed w (observed : gmap string bool) w' : Prop := {
  pr_watch : same_watch w w';
  pr_state : wd_state w' = wd_state w;
  pr_log : ∃ new, wd_log w' = wd_log w ++ new ∧ restarted new = [];
  pr_seen : ∀ s b, observed !! s = Some b → ∃ h, (ServiceStatus host (ToLower s) h).1 = inr b }.

Lemma IsRunning_probe s w r w' : wd_IsRunning host s w = (r, w') →
  same_watch w w' ∧ wd_state w' = wd_state w ∧ wd_log w' = wd_log w ∧
  r = (ServiceStatus host (ToLower s) (ww_host (wd_world w))).1.
Proof. intros [= <- <-]. split_and!; by try split. Qed.

Lemma note_status_facts s c w :
  same_watch w (note_status s c w) ∧ wd_state (note_status s c w) = wd_state w ∧
  ∃ new, wd_log (note_status s c w) = wd_log w ++ new ∧ restarted new = [].
Proof.
  unfold note_status. destruct (prevServices w !! s) as [prev|]; [destruct (String.eqb prev c)|]; split_and!;
    try (by split); [exists []|exists [WdStatusChange s prev c]|exists []]; by rewrite ?app_nil_r.
Qed.

Lemma logServiceStatusChanges_probed w :
  probed w (logServiceStatusChanges host w).1 (logServiceStatusChanges host w).2.
Proof.
  unfold logServiceStatusChanges.
  apply (foldl_inv (λ st, probed w st.1 st.2)).
  { split; [done|done|exists []; by rewrite app_nil_r|by intros ? ? ?]. }
  intros [observed w1] s _ [Hw Hs (new & Hl & Hr) Hseen]. cbn [fst snd] in *. unfold observe_one.
  destruct (isEnabledOnNode w1 s); cbn [negb]; [|split; eauto].
  destruct (wd_IsRunning host s w1) as [r w2] eqn:E. apply IsRunning_probe in E as (Hw2 & Hs2 & Hl2 & ->).
  destruct (ServiceStatus host (ToLower s) (ww_host (wd_world w1))) as [[err|b] h] eqn:Est; cbn [fst snd].
  - split; [by etrans|congruence|exists new; by rewrite Hl2|done].
  - destruct (note_status_facts s (if b then "running" else "stopped") w2) as (Hw3 & Hs3 & new' & Hl3 & Hr3). split.
    + etrans; [done|]. by etrans.
    + congruence.
    + exists (new ++ new'). split; [by rewrite Hl3, Hl2, Hl, app_assoc|].
      unfold restarted in *. by rewrite omap_app, Hr, Hr3.
    + intros t b' [[<- <-]|[_ ?]]%lookup_insert_Some; [|by apply Hseen]. eexists. by rewrite Est.
Qed.

(** ** One check *)
Record checked (s : string) w (new : list WdEvent) w' : Prop := {
  ck_watch : same_watch w w';
  ck_log : wd_log w' = wd_log w ++ new;
  ck_only : ∀ t, t ∈ restarted new → t = s;
  ck_others : ∀ t, t ≠ s → tracked w' t = true → tracked w t = true }.

Definition never_cancelled : Prop := ∀ h, (ctx_Err host h).1 = false.

(** A run of the manager only ever untracks services. *)
Definition untracks (ww0 ww : World W) : Prop :=
  ∀ t, default false (GetWatchdog (ww_state ww) t) = true → default false (GetWatchdog (ww_state ww0) t) = true.

Lemma ProcessRestarts_untracks fuel cfg sm ww err st :
  ProcessRestarts (ctl host) BeforeRestart_ fuel cfg sm ww = Some (err, st) →
  untracks ww (run_w st) ∧ same_settings sm (run_sm st).
Proof.
  apply (ProcessRestarts_world (ctl host) BeforeRestart_ (untracks ww)); [by intros ? ?..| |by intros t].
  intros f s w0 [= <-] Hu t. unfold GetWatchdog. cbn. destruct (decide (t = s)) as [->|Hne].
  - by rewrite lookup_delete_eq.
  - rewrite lookup_delete_ne by done. apply Hu.
Qed.

Lemma after_run s w w2 :
  untracks (wd_world (RemoveService s w)) (wd_world w2) → same_watch w w2 → wd_log w2 = wd_log w →
  checked s w [] w2 ∧ ∀ b, checked s w [WdRestart s b] (AddService s (emit (WdRestart s b) w2)).
Proof.
  intros Hu Hsw Hl.
  assert (∀ t, t ≠ s → tracked w2 t = true → tracked w t = true) as Ht.
  { intros t Hne Ht%Hu. by destruct (tracked_RemoveService s t w Ht). }
  split; [|intros b]; split.
  - done.
  - by rewrite app_nil_r.
  - set_solver.
  - done.
  - etrans; [exact Hsw|]. by split.
  - cbn. by rewrite Hl.
  - set_solver.
  - intros t Hne. rewrite tracked_AddService, bool_decide_eq_false_2 by done. exact (Ht t Hne).
Qed.

Lemma restartDownService_checked fuel s w w' : restartDownService host fuel s w = Some w' →
  ∃ new, checked s w new w' ∧ (never_cancelled → tracked w' s = true ∧ restarted new = [s]).
Proof.
  unfold restartDownService. cbn [AddRestart AddRestartWithReasons].
  destruct (ProcessRestarts _ _ _ _ _ _) as [[err st]|] eqn:E; [|done]. cbn [mbind option_bind].
  apply ProcessRestarts_untracks in E as [Hu Hset].
  assert (∀ h, let w2 := set_world {| ww_state := ww_state (run_w st); ww_host := h |}
    (set_manager (run_sm st) (RemoveService s w)) in
    checked s w [] w2 ∧ ∀ b, checked s w [WdRestart s b] (AddService s (emit (WdRestart s b) w2))) as Hrun
    by (intros h; by apply after_run).
  assert (∀ b w2, tracked (AddService s (emit (WdRestart s b) w2)) s = true ∧ restarted [WdRestart s b] = [s]) as Hs
    by (intros b w2; by rewrite tracked_AddService, bool_decide_eq_true_2).
  destruct err as [err|].
  - destruct (ctx_Err (ctl host) _) as [c ww] eqn:Ec. injection Ec as Ec <-. destruct (Hrun (ctx_Err host (ww_host (run_w st))).2) as [H0 H1].
    destruct c; intros [= <-]; [exists []|exists [WdRestart s false]]; (split; [done|]); intros Hnc; [|done].
    by rewrite Hnc in Ec.
  - intros [= <-]. exists [WdRestart s true]. split; [|done]. destruct (Hrun (ww_host (run_w st))) as [_ H1].
    specialize (H1 true). by destruct (run_w st).
Qed.

Definition down (s : string) : Prop := ∀ h, (ServiceStatus host (ToLower s) h).1 = inr false.

Definition seen_by_host (observed : gmap string bool) : Prop :=
  ∀ s b, observed !! s = Some b → ∃ h, (ServiceStatus host (ToLower s) h).1 = inr b.

Lemma checked_nil s w w' : same_watch w w' → wd_state w' = wd_state w → wd_log w' = wd_log w → checked s w [] w'.
Proof.
  intros Hw Hs Hl. split; [done|by rewrite app_nil_r|set_solver|].
  intros t _. unfold IsServiceTracked. by rewrite Hs.
Qed.

Lemma checkOneService_checked fuel observed s w w' :
  seen_by_host observed → checkOneService host fuel observed s w = Some w' →
  ∃ new, checked s w new w' ∧
    (s ∈ restarted new → IsServiceEnabled w s = true ∧ ∃ h, (ServiceStatus host (ToLower s) h).1 = inr false) ∧
    (tracked w s = false → restarted new = [] ∧ tracked w' s = false) ∧
    (never_cancelled → tracked w s = true → tracked w' s = true ∧
       (IsServiceEnabled w s = true → down s → restarted new = [s])).
Proof.
  intros Hseen. unfold checkOneService. destruct (IsServiceEnabled w s) eqn:Een; cbn [negb].
  2:{ intros [= <-]. exists []. split; [by apply checked_nil|]. split; [by intros ?%not_elem_of_nil|done]. }
  destruct (tracked w s) eqn:Et; cbn [negb].
  2:{ intros [= <-]. exists []. split; [by apply checked_nil|]. split; [by intros ?%not_elem_of_nil|done]. }
  assert (∃ r w1, match observed !! s with Some running => (inr running, w) | None => wd_IsRunning host s w end = (r, w1) ∧
    same_watch w w1 ∧ wd_state w1 = wd_state w ∧ wd_log w1 = wd_log w ∧ ∃ h, r = (ServiceStatus host (ToLower s) h).1)
    as (r & w1 & -> & Hsw & Hst & Hl & h & Hr).
  { destruct (observed !! s) as [b|] eqn:Eo.
    - destruct (Hseen s b Eo) as [h Hh]. eexists _, _. split; [done|]. split_and!; [done..|]. by exists h.
    - destruct (wd_IsRunning host s w) as [r w1] eqn:E. apply IsRunning_probe in E as (? & ? & ? & ->). eauto 10. }
  assert (tracked w1 s = true) as Et1 by (unfold IsServiceTracked; rewrite Hst; exact Et).
  destruct r as [err|[]].
  1,2: intros [= <-]; exists []; split; [by apply checked_nil|]; split_and!; [by intros ?%not_elem_of_nil|done|];
    intros _ _; split; [done|]; intros _ Hd; by rewrite Hd in Hr.
  rewrite Et1. cbn [negb]. intros (new & [Hw' Hl' Honly Hoth] & Hnc)%restartDownService_checked. exists new. split_and!.
  - split; [by etrans|by rewrite Hl', Hl|done|]. intros t Hne Ht. specialize (Hoth t Hne Ht).
    unfold IsServiceTracked in *. by rewrite Hst in Hoth.
  - eauto.
  - done.
  - intros H _. by destruct (Hnc H).
Qed.

(** ** The loop of a tick *)
Record loop_checked (l : list string) w (new : list WdEvent) w' : Prop := {
  lc_watch : same_watch w w';
  lc_log : wd_log w' = wd_log w ++ new;
  lc_restarted : ∀ t, t ∈ restarted new → t ∈ l ∧ IsServiceEnabled w t = true ∧
    ∃ h, (ServiceStatus host (ToLower t) h).1 = inr false;
  lc_untracked : ∀ t, tracked w t = false → tracked w' t = false ∧ t ∉ restarted new }.

Lemma loop_checked_cons s l w new1 w1 new2 w2 :
  checked s w new1 w1 →
  (s ∈ restarted new1 → IsServiceEnabled w s = true ∧ ∃ h, (ServiceStatus host (ToLower s) h).1 = inr false) →
  (tracked w s = false → restarted new1 = [] ∧ tracked w1 s = false) →
  loop_checked l w1 new2 w2 → loop_checked (s :: l) w (new1 ++ new2) w2.
Proof.
  intros [Hw1 Hl1 Ho1 Hot1] Hr1 Hu1 [Hw2 Hl2 Hr2 Hu2].
  assert (restarted (new1 ++ new2) = restarted new1 ++ restarted new2) as Happ by apply omap_app.
  split.
  - by etrans.
  - by rewrite Hl2, Hl1, app_assoc.
  - intros t. rewrite Happ, elem_of_app. intros [Ht|Ht].
    + assert (t = s) as -> by auto. split; [by left|]. auto.
    + destruct (Hr2 t Ht) as (? & He & ?). split; [by right|]. unfold IsServiceEnabled in *.
      by rewrite (sw_services _ _ Hw1) in He.
  - intros t Ht. assert (tracked w1 t = false ∧ t ∉ restarted new1) as [Ht1 Hn1].
    { destruct (decide (t = s)) as [->|Hne].
      - destruct (Hu1 Ht) as [-> ?]. split; [done|by apply not_elem_of_nil].
      - split; [|by intros ?%Ho1]. destruct (tracked w1 t) eqn:E; [|done]. by rewrite (Hot1 t Hne E) in Ht. }
    destruct (Hu2 t Ht1). split; [done|]. rewrite Happ, elem_of_app. tauto.
Qed.

Lemma check_loop_checked fuel observed l w w' :
  seen_by_host observed → check_loop host fuel observed l w = Some w' → ∃ new, loop_checked l w new w'.
Proof.
  intros Hseen. revert w. induction l as [|s l IH]; intros w; cbn [check_loop].
  - intros [= <-]. exists []. split; [done|by rewrite app_nil_r|by intros ? ?%not_elem_of_nil|].
    intros t Ht. split; [done|by apply not_elem_of_nil].
  - destruct (checkOneService host fuel observed s w) as [w1|] eqn:E; [|done]. cbn [mbind option_bind].
    intros (new2 & Hl)%IH. apply checkOneService_checked in E as (new1 & Hc & Hr & Hu & _); [|done].
    exists (new1 ++ new2). by eapply loop_checked_cons.
Qed.

Lemma rearm_facts observed w :
  same_watch w (rearmRunningServices observed w) ∧ wd_log (rearmRunningServices observed w) = wd_log w ∧
  (∀ t, tracked w t = true → tracked (rearmRunningServices observed w) t = true) ∧
  (∀ t, tracked (rearmRunningServices observed w) t = true → tracked w t = true ∨ observed !! t = Some true).
Proof.
  unfold rearmRunningServices.
  apply (foldl_inv (λ w1, same_watch w w1 ∧ wd_log w1 = wd_log w ∧
    (∀ t, tracked w t = true → tracked w1 t = true) ∧
    (∀ t, tracked w1 t = true → tracked w t = true ∨ observed !! t = Some true))); [split_and!; by auto|].
  intros w1 s _ (Hw & Hl & Hmono & Hnew). unfold rearm_one.
  destruct (observed !! s) as [[]|] eqn:E; cbn; [|by split_and!..].
  destruct (tracked w1 s); cbn; [by split_and!|]. split_and!.
  - etrans; [exact Hw|]. by split.
  - done.
  - intros t Ht. rewrite tracked_AddService, Hmono by done. by rewrite orb_true_r.
  - intros t. rewrite tracked_AddService. case_bool_decide as Hb; [subst; by right|]. apply Hnew.
Qed.

(** ** A tick *)
Lemma elem_of_getTrackedServices w s :
  s ∈ getTrackedServices w ↔ tracked w s = true ∧ is_Some (serviceEnabled w !! s).
Proof. unfold getTrackedServices. by rewrite list_elem_of_filter, elem_of_sorted_keys. Qed.

Lemma checkServices_facts fuel w w' : checkServices host fuel w = Some w' →
  ∃ new, same_watch w w' ∧ wd_log w' = wd_log w ++ new ∧
    (∀ t, t ∈ restarted new → IsServiceEnabled w t = true ∧ tracked w t = true ∧
       ∃ h, (ServiceStatus host (ToLower t) h).1 = inr false) ∧
    (∀ t, tracked w t = false → down t → tracked w' t = false ∧ t ∉ restarted new).
Proof.
  unfold checkServices. destruct (wd_enabled w); cbn [negb].
  2:{ intros [= <-]. exists []. split_and!; [done|by rewrite app_nil_r|by intros ? ?%not_elem_of_nil|].
      intros t Ht _. split; [done|by apply not_elem_of_nil]. }
  pose proof (logServiceStatusChanges_probed w) as Hp.
  destruct (logServiceStatusChanges host w) as [observed w1]. destruct Hp as [Hw1 Hs1 (new1 & Hl1 & Hr1) Hseen].
  cbn [fst snd] in *. destruct (check_loop _ _ _ _ _) as [w2|] eqn:E; [|done]. cbn [mbind option_bind]. intros [= <-].
  apply check_loop_checked in E as (new2 & [Hw2 Hl2 Hr2 Hu2]); [|done].
  destruct (rearm_facts observed w2) as (Hw3 & Hl3 & _ & Hnew3).
  assert (∀ t, tracked w1 t = tracked w t) as Ht1 by (intros t; unfold IsServiceTracked; by rewrite Hs1).
  assert (restarted (new1 ++ new2) = restarted new2) as Happ by (unfold restarted in *; by rewrite omap_app, Hr1).
  exists (new1 ++ new2). split_and!.
  - etrans; [exact Hw1|]. by etrans.
  - by rewrite Hl3, Hl2, Hl1, app_assoc.
  - intros t. rewrite Happ. intros Ht. destruct (Hr2 t Ht) as (Hin & He & Hd).
    apply elem_of_getTrackedServices in Hin as [Htr _]. rewrite Ht1 in Htr. split_and!; [|done|done].
    unfold IsServiceEnabled in *. by rewrite (sw_services _ _ Hw1) in He.
  - intros t Ht Hd. rewrite Happ. rewrite <- Ht1 in Ht. destruct (Hu2 t Ht) as [Ht2 ?]. split; [|done].
    destruct (tracked (rearmRunningServices observed w2) t) eqn:E3; [|done].
    apply Hnew3 in E3 as [E3|E3]; [by rewrite E3 in Ht2|].
    destruct (Hseen t true E3) as [h Hh]. by rewrite (Hd h) in Hh.
Qed.

Fixpoint ticks (fuel n : nat) w : option (Watchdog W) :=
  match n with O => Some w | S n => w ← checkServices host fuel w; ticks fuel n w end.

Lemma ticks_abandoned fuel n w w' t : tracked w t = false → down t → ticks fuel n w = Some w' →
  tracked w' t = false ∧ ∃ new, wd_log w' = wd_log w ++ new ∧ t ∉ restarted new.
Proof.
  intros Ht Hd. revert w Ht. induction n as [|n IH]; intros w Ht; cbn [ticks].
  - intros [= <-]. split; [done|]. exists []. rewrite app_nil_r. split; [done|by apply not_elem_of_nil].
  - destruct (checkServices host fuel w) as [w1|] eqn:E; [|done]. cbn [mbind option_bind]. intros Hn.
    apply checkServices_facts in E as (new1 & _ & Hl1 & _ & Hu). destruct (Hu t Ht Hd) as [Ht1 Hn1].
    destruct (IH w1 Ht1 Hn) as (Ht' & new2 & Hl2 & Hn2). split; [done|]. exists (new1 ++ new2).
    split; [by rewrite Hl2, Hl1, app_assoc|]. unfold restarted in *. rewrite omap_app, elem_of_app. tauto.
Qed.
End facts.

(** A watchdog tick restarts, on its own initiative, only services that are monitored,
    that it was watching when the tick began, and that the host reported down. *)
Theorem watchdog_restarts_down {W} (host : Backend W) fuel w w' :
  checkServices host fuel w = Some w' →
  ∃ new, wd_log w' = wd_log w ++ new ∧
    ∀ s ok, WdRestart s ok ∈ new →
      IsServiceEnabled w s = true ∧ IsServiceTracked w s = true ∧
      ∃ h, (ServiceStatus host (ToLower s) h).1 = inr false.
Proof.
  intros (new & _ & Hl & Hr & _)%checkServices_facts. exists new. split; [done|].
  intros s ok Hin. apply Hr. apply list_elem_of_omap. by exists (WdRestart s ok).
Qed.

(** ** A concrete host: every service is down and every restart answers as told *)
Definition down_host (restart : option error) : Backend unit :=
  {| ServiceStart _ w := (None, w); ServiceStop _ w := (None, w); ServiceRestart _ w := (restart, w);
     ServiceStatus _ w := (inr false, w); LookupService _ := true; asHost := None;
     ctx_Err w := (false, w) |}.

(** A running watchdog that monitors and watches [services]. *)
Definition watching (services : list string) : Watchdog unit :=
  foldr AddService
    (UpdateServiceList services (set_enabled true (NewWatchdog NewServiceManager {| ww_state := NewState; ww_host := tt |})))
    services.

Lemma watchdog_restarts_down_witness :
  ∃ w', checkServices (down_host None) 5 (watching ["antivirus"]) = Some w' ∧
    IsServiceTracked (watching ["antivirus"]) "antivirus" = true ∧
    WdRestart "antivirus" true ∈ wd_log w'.
Proof.
  assert (wd_log <$> checkServices (down_host None) 5 (watching ["antivirus"]) = Some [WdRestart "antivirus" true]) as Hl
    by (vm_compute; reflexivity).
  destruct (checkServices (down_host None) 5 (watching ["antivirus"])) as [w'|] eqn:E; [|discriminate Hl].
  injection Hl as Hl. exists w'. split; [reflexivity|].
  destruct (watchdog_restarts_down (down_host None) 5 (watching ["antivirus"]) w' E) as (new & Hn & Hd).
  assert (new = wd_log w') as -> by (rewrite Hn; reflexivity).
  split; [|rewrite Hl; by left]. destruct (Hd "antivirus" true) as (_ & Ht & _); [rewrite Hl; by left|done].
Defined.

(** ** The watchdog of one service *)
Section single.
Context {W : Type} (host : Backend W) (s : string).
Hypothesis is_down : down host s.
Hypothesis not_cancelled : never_cancelled host.

Record watched (w : Watchdog W) : Prop := {
  wt_enabled : wd_enabled w = true;
  wt_services : serviceEnabled w = {[s := true]};
  wt_tracked : IsServiceTracked w s = true;
  wt_ranked : ∃ rank, ranked rank (Dependencies (wd_sm w)) }.

Lemma restartDownService_total w : (∃ rank, ranked rank (Dependencies (wd_sm w))) →
  ∃ N w', ∀ fuel, N ≤ fuel → restartDownService host fuel s w = Some w'.
Proof.
  intros Hr. unfold restartDownService. cbn [AddRestart AddRestartWithReasons].
  set (w1 := RemoveService s w).
  destruct (ProcessRestarts_total (ctl host) BeforeRestart_ (Some (configLookup_ w1)) (addRestartLocked s [] (wd_sm w1))
    (wd_world w1)) as (N & [err st] & HN); [right; exact Hr|].
  exists N. destruct err as [err|]; eexists; intros fuel Hle; (rewrite (HN fuel Hle); cbn [mbind option_bind]);
    reflexivity.
Qed.

Lemma sorted_keys_singleton : sorted_keys ({[s := true]} : gmap string bool) = [s].
Proof. unfold sorted_keys, sorted_items. rewrite map_to_list_singleton. reflexivity. Qed.

(** The probe of a tracked service that is down leads to its restart. *)
Lemma checkOneService_down observed w : seen_by_host host observed → watched w →
  ∃ N w', ∀ fuel, N ≤ fuel → checkOneService host fuel observed s w = Some w'.
Proof using is_down.
  intros Hseen [_ Hs Ht Hr]. unfold checkOneService, IsServiceEnabled.
  rewrite Hs, lookup_singleton_eq, Ht. cbn [default from_option negb id].
  assert (∃ w1, match observed !! s with Some running => (inr running, w) | None => wd_IsRunning host s w end = (inr false, w1) ∧
    wd_sm w1 = wd_sm w ∧ wd_state w1 = wd_state w) as (w1 & -> & Hsm & Hst).
  { destruct (observed !! s) as [b|] eqn:Eo.
    - destruct (Hseen s b Eo) as [h Hh]. rewrite is_down in Hh. injection Hh as <-. eauto.
    - destruct (wd_IsRunning host s w) as [r w1] eqn:E. exists w1. injection E as <- <-. by rewrite is_down. }
  unfold IsServiceTracked in *. rewrite Hst, Ht. cbn [negb]. apply restartDownService_total. by rewrite Hsm.
Qed.

(** One tick: its fuel, and what it does. *)
Lemma watched_tick w : watched w → ∃ N w',
  (∀ fuel, N ≤ fuel → checkServices host fuel w = Some w') ∧ watched w' ∧
  ∃ new, wd_log w' = wd_log w ++ new ∧ restarted new = [s].
Proof using is_down not_cancelled.
  intros [He Hs Ht Hr]. unfold checkServices. rewrite He. cbn [negb].
  pose proof (logServiceStatusChanges_probed host w) as Hp.
  destruct (logServiceStatusChanges host w) as [observed w1]. destruct Hp as [Hw1 Hs1 (new1 & Hl1 & Hr1) Hseen].
  cbn [fst snd] in *. destruct Hw1 as [He1 Hv1 (_ & _ & Hd1 & _)].
  assert (watched w1) as Hwt1 by (split; [congruence|congruence| |by rewrite Hd1]; unfold IsServiceTracked in *; by rewrite Hs1).
  assert (getTrackedServices w1 = [s]) as ->.
  { unfold getTrackedServices. rewrite (wt_services _ Hwt1), sorted_keys_singleton, filter_cons_True; [done|]. apply Hwt1. }
  destruct (checkOneService_down observed w1 Hseen Hwt1) as (N & w2 & HN).
  destruct (checkOneService_checked host N observed s w1 w2 Hseen (HN N (le_n N)))
    as (new2 & [[He2 Hv2 (_ & _ & Hd2 & _)] Hl2 _ _] & _ & _ & Hlive).
  destruct (Hlive not_cancelled) as [Ht2 Hre2]; [apply Hwt1|].
  destruct (rearm_facts observed w2) as ([He3 Hv3 (_ & _ & Hd3 & _)] & Hl3 & Hmono & _).
  exists N, (rearmRunningServices observed w2). split_and!.
  - intros fuel Hle. cbn [check_loop]. by rewrite (HN fuel Hle).
  - split; [congruence|congruence|by apply Hmono|by rewrite Hd3, Hd2, Hd1].
  - exists (new1 ++ new2). split; [by rewrite Hl3, Hl2, Hl1, app_assoc|].
    unfold restarted in *. rewrite omap_app, Hr1. apply Hre2; [|done].
    unfold IsServiceEnabled. by rewrite (wt_services _ Hwt1), lookup_singleton_eq.
Qed.

Lemma watched_ticks n w : watched w → ∃ N w',
  (∀ fuel, N ≤ fuel → ticks host fuel n w = Some w') ∧ IsServiceTracked w' s = true ∧
  ∃ new, wd_log w' = wd_log w ++ new ∧ restarted new = replicate n s.
Proof using is_down not_cancelled.
  revert w. induction n as [|n IH]; intros w Hw.
  - exists 0, w. split_and!; [done|apply Hw|]. exists []. by rewrite app_nil_r.
  - destruct (watched_tick w Hw) as (N1 & w1 & HN1 & Hw1 & new1 & Hl1 & Hr1).
    destruct (IH w1 Hw1) as (N2 & w2 & HN2 & Ht2 & new2 & Hl2 & Hr2).
    exists (N1 + N2), w2. split_and!; [|done|].
    + intros fuel Hle. cbn [ticks]. rewrite (HN1 fuel) by lia. apply HN2. lia.
    + exists (new1 ++ new2). split; [by rewrite Hl2, Hl1, app_assoc|].
      unfold restarted in *. by rewrite omap_app, Hr1, Hr2.
Qed.
End single.

(** A watchdog of one service (the default) never gives up on it: as long as the
    service is down, every tick attempts a restart, once, and the service is
    watched afterwards whether the attempt succeeded or not.  The ticks return
    with enough fuel when DEPENDS has no cycle. *)
Theorem watchdog_retries {W} (host : Backend W) s w n :
  wd_enabled w = true → serviceEnabled w = {[s := true]} → IsServiceTracked w s = true →
  (∃ rank, ranked rank (Dependencies (wd_sm w))) →
  (∀ h, (ServiceStatus host (ToLower s) h).1 = inr false) → (∀ h, (ctx_Err host h).1 = false) →
  ∃ N w', (∀ fuel, N ≤ fuel → ticks host fuel n w = Some w') ∧ IsServiceTracked w' s = true ∧
    ∃ new, wd_log w' = wd_log w ++ new ∧ restarted new = replicate n s.
Proof. intros He Hs Ht Hr Hd Hc. by apply watched_ticks. Qed.

Lemma watchdog_retries_witness :
  ∃ N w', (∀ fuel, N ≤ fuel → ticks (down_host (Some "exit 1")) fuel 3 (watching ["antivirus"]) = Some w') ∧
    ∃ new, wd_log w' = wd_log (watching ["antivirus"]) ++ new ∧ restarted new = ["antivirus"; "antivirus"; "antivirus"].
Proof.
  destruct (watchdog_retries (down_host (Some "exit 1")) "antivirus" (watching ["antivirus"]) 3)
    as (N & w' & HN & _ & Hl); try reflexivity; [|by eauto].
  exists (λ _, 0). intros svc l d Hl. vm_compute in Hl. discriminate Hl.
Defined.

(** With two services the watchdog can stop watching one that is down.  Antispam
    and antivirus are monitored, watched, and down, and their restarts fail: the
    attempt for antivirus also runs the restart of antispam that is still queued,
    which untracks antispam after its own attempt was over.  From then on no tick
    restarts or watches antispam while it stays down. *)
Theorem watchdog_abandons :
  IsServiceTracked (watching ["antispam"; "antivirus"]) "antispam" = true ∧
  ∃ w1, checkServices (down_host (Some "exit 1")) 5 (watching ["antispam"; "antivirus"]) = Some w1 ∧
    wd_log w1 = [WdRestart "antispam" false; WdRestart "antivirus" false] ∧
    IsServiceTracked w1 "antispam" = false ∧
    ∀ n w2, ticks (down_host (Some "exit 1")) 5 n w1 = Some w2 →
      IsServiceTracked w2 "antispam" = false ∧
      ∃ new, wd_log w2 = wd_log w1 ++ new ∧ "antispam" ∉ restarted new.
Proof.
  split; [reflexivity|].
  assert ((λ w, (wd_log w, IsServiceTracked w "antispam")) <$>
    checkServices (down_host (Some "exit 1")) 5 (watching ["antispam"; "antivirus"]) =
    Some ([WdRestart "antispam" false; WdRestart "antivirus" false], false)) as He by (vm_compute; reflexivity).
  destruct (checkServices _ _ _) as [w1|]; [|discriminate He]. injection He as Hl Ht.
  exists w1. split_and!; [done|done|done|]. intros n w2. by apply ticks_abandoned.
Qed.

(** The restart cascade of the watchdog reaches no dependent but amavis: whether a
    dependent is enabled is looked up as a SERVICE_ key of the local
    configuration, and where that has none, only amavis is ever queued. *)
Theorem watchdog_cascade_amavis {W} (w : Watchdog W) section s :
  (∀ svc, Local (Some (State_Snapshot (wd_state w))) ("SERVICE_" +:+ svc) = None) →
  is_Some (RestartQueue (addDependencyRestarts section (configLookup_ w) (wd_sm w)) !! s) ↔
  is_Some (RestartQueue (wd_sm w) !! s) ∨
  (s = "amavis" ∧ "amavis" ∈ (ToLower <$> default [] (Dependencies (wd_sm w) !! section))).
Proof.
  intros Hnone. unfold addDependencyRestarts. generalize (reason_string (service_reason ReasonDependency section)).
  intros reason. generalize (default [] (Dependencies (wd_sm w) !! section)) as deps. intros deps.
  generalize (wd_sm w) as sm. induction deps as [|d deps IH]; intros sm; cbn [foldl fmap list_fmap].
  { split; [by left|]. intros [?|[_ ?%not_elem_of_nil]]; done. }
  rewrite IH, elem_of_cons. unfold queueDependencyRestart, configLookup_. rewrite Hnone. cbn [default from_option id].
  replace (IsTruthy "" || String.eqb "" "enabled") with false by reflexivity.
  destruct (String.eqb_spec (ToLower d) "amavis") as [->|Hne].
  - cbn. rewrite lookup_insert_is_Some'. naive_solver.
  - naive_solver.
Qed.

(** The documented chain: antivirus is depended on by amavis and mta. *)
Definition cascading : Watchdog unit :=
  set_manager (SetDependencies {["antivirus" := ["amavis"; "mta"]]} NewServiceManager) (watching []).

Lemma watchdog_cascade_amavis_witness :
  is_Some (RestartQueue (addDependencyRestarts "antivirus" (configLookup_ cascading) (wd_sm cascading)) !! "amavis") ∧
  (is_Some (RestartQueue (addDependencyRestarts "antivirus" (configLookup_ cascading) (wd_sm cascading)) !! "mta") → False).
Proof.
  assert (∀ svc, Local (Some (State_Snapshot (wd_state cascading))) ("SERVICE_" +:+ svc) = None) as Hn
    by (intros svc; apply lookup_empty).
  split.
  - apply (watchdog_cascade_amavis cascading "antivirus" "amavis" Hn). right. split; [reflexivity|by left].
  - intros [[v Hv]|[Hm _]]%(watchdog_cascade_amavis cascading "antivirus" "mta" Hn); discriminate.
Defined.
