(* ===== verification/MainLoop.v ===== *)
(** * MainLoop: the daemon loop (cmd/configd/mainloop.go)

    One iteration of the loop, from the reload signal to the sleep, with the
    phases of a cycle run on the config manager, the trigger and the watchdog.
    What the loop observes of the outside (its context, its reload channel, the
    loaders, the files, the clock, the hook validation) is a [Turn]; what it
    tells systemd and when it sleeps is a list of events. *)
From S2P Require Import Prelude Config Snapshot Plan Compute Services Restart State Observe Actions ConfigMgr Trigger Watchdog.

#[local] Open Scope Z_scope.

(** ** Events and states of the loop *)
Inductive phaseResult := phasesCompleted | phasesPlanFailed | phasesRewriteFailed.

Inductive iterOutcome := iterContinue | iterExit.

Inductive LoopEvent :=
  | EvReady (first : bool)
  | EvStatus (loop : Z)
  | EvLoad (ok : bool)
  | EvPhases (result : phaseResult)
  | EvRestarts
  | EvListener
  | EvSleep (seconds : Z)
  | EvPanic.

Record loopIterState := {
  lastEventCount : nat;
  loopCount : Z;
  reloadSignaled : bool;
  server : bool;
  ready : bool;
  hooksChecked : bool;
  exitCode : Z }.

Definition newIterState : loopIterState :=
  {| lastEventCount := 0; loopCount := 0; reloadSignaled := false; server := false; ready := false;
     hooksChecked := false; exitCode := 0 |}.

Definition set_reload (b : bool) (st : loopIterState) : loopIterState :=
  {| lastEventCount := lastEventCount st; loopCount := loopCount st; reloadSignaled := b; server := server st;
     ready := ready st; hooksChecked := hooksChecked st; exitCode := exitCode st |}.
Definition set_lastEventCount (n : nat) (st : loopIterState) : loopIterState :=
  {| lastEventCount := n; loopCount := loopCount st; reloadSignaled := reloadSignaled st; server := server st;
     ready := ready st; hooksChecked := hooksChecked st; exitCode := exitCode st |}.
Definition set_server (b : bool) (st : loopIterState) : loopIterState :=
  {| lastEventCount := lastEventCount st; loopCount := loopCount st; reloadSignaled := reloadSignaled st; server := b;
     ready := ready st; hooksChecked := hooksChecked st; exitCode := exitCode st |}.
Definition set_ready (b : bool) (st : loopIterState) : loopIterState :=
  {| lastEventCount := lastEventCount st; loopCount := loopCount st; reloadSignaled := reloadSignaled st;
     server := server st; ready := b; hooksChecked := hooksChecked st; exitCode := exitCode st |}.
Definition set_hooksChecked (b : bool) (st : loopIterState) : loopIterState :=
  {| lastEventCount := lastEventCount st; loopCount := loopCount st; reloadSignaled := reloadSignaled st;
     server := server st; ready := ready st; hooksChecked := b; exitCode := exitCode st |}.
Definition set_exitCode (n : Z) (st : loopIterState) : loopIterState :=
  {| lastEventCount := lastEventCount st; loopCount := loopCount st; reloadSignaled := reloadSignaled st;
     server := server st; ready := ready st; hooksChecked := hooksChecked st; exitCode := n |}.
Definition count_loop (st : loopIterState) : loopIterState :=
  {| lastEventCount := lastEventCount st; loopCount := loopCount st + 1; reloadSignaled := reloadSignaled st;
     server := server st; ready := ready st; hooksChecked := hooksChecked st; exitCode := exitCode st |}.

(** [sectionDependencies]. *)
Definition sectionDependencies (sections : gmap string MtaConfigSection) : gmap string (list string) :=
  omap (λ section, if is_nil (sorted_keys (sec_Depends section)) then None
                   else Some (sorted_keys (sec_Depends section))) sections.

(** ** What an iteration observes *)
Inductive LoadResult := LoadPanic (st : State) | LoadFailed (st : State) | Loaded (st : State).

Record Turn := {
  tn_clients : Trigger → Trigger; (* what the REWRITE clients did since the last turn *)
  tn_requests : list string;      (* and the sections they queued *)
  tn_cancelled : bool;          (* the context is done when the turn begins *)
  tn_signal : bool;             (* a reload signal is waiting when it begins *)
  tn_load : State → LoadResult; (* LoadAllConfigs and ParseMtaConfig *)
  tn_hooks : bool;              (* the hooks cover the configuration *)
  tn_env : Env;
  tn_now : Z;
  tn_done : bool;               (* the context is done after the phases *)
  tn_wake : bool }.             (* the sleep ends before its time *)

Section daemon.
Context {M : Type} `{Manager M} {W HW : Type} (ex : Executor W).

Record Daemon := {
  d_once : bool;
  d_forced : Z;
  d_validate : bool;
  d_cm : ConfigManager M;
  d_trigger : Trigger;
  d_wd : Watchdog HW;
  d_w : W;
  d_st : loopIterState;
  d_log : list LoopEvent }.

Definition set_cm (cm : ConfigManager M) (d : Daemon) : Daemon :=
  {| d_once := d_once d; d_forced := d_forced d; d_validate := d_validate d; d_cm := cm; d_trigger := d_trigger d;
     d_wd := d_wd d; d_w := d_w d; d_st := d_st d; d_log := d_log d |}.
Definition set_trigger (t : Trigger) (d : Daemon) : Daemon :=
  {| d_once := d_once d; d_forced := d_forced d; d_validate := d_validate d; d_cm := d_cm d; d_trigger := t;
     d_wd := d_wd d; d_w := d_w d; d_st := d_st d; d_log := d_log d |}.
Definition set_wd (wd : Watchdog HW) (d : Daemon) : Daemon :=
  {| d_once := d_once d; d_forced := d_forced d; d_validate := d_validate d; d_cm := d_cm d; d_trigger := d_trigger d;
     d_wd := wd; d_w := d_w d; d_st := d_st d; d_log := d_log d |}.
Definition set_w (w : W) (d : Daemon) : Daemon :=
  {| d_once := d_once d; d_forced := d_forced d; d_validate := d_validate d; d_cm := d_cm d; d_trigger := d_trigger d;
     d_wd := d_wd d; d_w := w; d_st := d_st d; d_log := d_log d |}.
Definition on_st (f : loopIterState → loopIterState) (d : Daemon) : Daemon :=
  {| d_once := d_once d; d_forced := d_forced d; d_validate := d_validate d; d_cm := d_cm d; d_trigger := d_trigger d;
     d_wd := d_wd d; d_w := d_w d; d_st := f (d_st d); d_log := d_log d |}.
Definition say (e : LoopEvent) (d : Daemon) : Daemon :=
  {| d_once := d_once d; d_forced := d_forced d; d_validate := d_validate d; d_cm := d_cm d; d_trigger := d_trigger d;
     d_wd := d_wd d; d_w := d_w d; d_st := d_st d; d_log := d_log d ++ [e] |}.

Definition d_cfg (d : Daemon) : Config := cm_mainConfig (d_cm d).
Definition appState (d : Daemon) : State := cm_State (d_cm d).
Definition set_appState (s : State) (d : Daemon) : Daemon := set_cm (set_State s (d_cm d)) d.

(** ** Readiness *)
Definition signalReady (d : Daemon) : Daemon :=
  if negb (ready (d_st d)) && server (d_st d) then say (EvReady true) (on_st (set_ready true) d)
  else if ready (d_st d) && reloadSignaled (d_st d) then say (EvReady false) d
  else d.

(** [SleepWithContext] and what the loop does with its answer. *)
Definition sleep (seconds : Z) (wake : bool) (d : Daemon) : Daemon :=
  let d := say (EvSleep seconds) d in if wake then on_st (set_reload true) d else d.

Definition backOff (tn : Turn) (d : Daemon) : Daemon := sleep 60 (tn_wake tn) (signalReady d).

Definition consumeReloadSignal (tn : Turn) (d : Daemon) : iterOutcome * Daemon :=
  if tn_cancelled tn then (iterExit, d)
  else (iterContinue, if tn_signal tn then on_st (set_reload true) d else d).

Definition isIdlePoll (d : Daemon) : bool :=
  SkipIdlePolls (d_cfg d) && negb (FirstRun_ (appState d)) && negb (reloadSignaled (d_st d)) &&
  (EventCounter (d_trigger d) =? lastEventCount (d_st d))%nat.

Definition handleIdleSleep (tn : Turn) (d : Daemon) : Daemon := sleep (Interval (d_cfg d)) (tn_wake tn) d.

Definition checkHooks (tn : Turn) (d : Daemon) : bool * Daemon :=
  if hooksChecked (d_st d) || negb (d_validate d) then (true, d)
  else if tn_hooks tn then (true, on_st (set_hooksChecked true) d)
  else (false, on_st (set_exitCode 1) d).

Definition maybeStartListener (d : Daemon) : Daemon :=
  if negb (FirstRun_ (appState d)) || negb (d_forced d =? 0) || server (d_st d) || d_once d then d
  else say EvListener (on_st (set_server true) d).

(** ** The phases *)
Definition buildServiceDependencies (d : Daemon) : Daemon :=
  let deps := sectionDependencies (mta_Sections (MtaConfig_ (appState d))) in
  let p := cm_policy (d_cm d) in
  set_cm (set_policy (set_mgr (mgr_SetDependencies deps (pol_mgr p)) p) (d_cm d)) d.

(** The watchdog works on the shared state. *)
Definition watchdogServices (pl : Plan) (d : Daemon) : Daemon :=
  if negb (FirstRun_ (appState d)) then d
  else
    let wd := set_world {| ww_state := appState d; ww_host := ww_host (wd_world (d_wd d)) |} (d_wd d) in
    let wd := updateWatchdogServices (p_Tracked pl) (WdList (d_cfg d)) wd in
    set_appState (wd_state wd) (set_wd wd d).

Definition runConfigPhases (tn : Turn) (d : Daemon) : option Plan * phaseResult * Daemon :=
  let d := buildServiceDependencies d in
  let d := set_trigger (claimWaiters (d_trigger d)) d in
  match Plan_ (tn_env tn) (d_cm d) with
  | (inl _, cm) =>
      let d := set_trigger (requeueWaiters (d_trigger d)) (set_cm cm d) in
      (None, phasesPlanFailed, say (EvPhases phasesPlanFailed) d)
  | (inr pl, cm) =>
      let d := watchdogServices pl (set_cm cm d) in
      let '(x, cm) := Execute_ ex pl {| xw := d_w d; xerrs := []; xops := [] |} (d_cm d) in
      let d := set_w (xw x) (set_cm cm d) in
      let result := if is_nil (xerrs x) then phasesCompleted else phasesRewriteFailed in
      let d := set_trigger (completeWaiters (d_trigger d)).2 d in
      (Some pl, result, say (EvPhases result) d)
  end.

Definition runRestartsPhase (tn : Turn) (pl : Plan) (d : Daemon) : Daemon :=
  let d := set_trigger (beginRestarts (s_Name <$> p_Sections pl) (d_trigger d)) d in
  let d := say EvRestarts (set_cm (ApplyRestarts pl (tn_now tn) (d_cm d)) d) in
  set_trigger (endRestarts (d_trigger d)) d.

Definition finalizeIteration (tn : Turn) (d : Daemon) : iterOutcome * Daemon :=
  let d := set_appState (SetFirstRun false (appState d)) d in
  let d := signalReady d in
  let d := on_st (λ st, count_loop (set_reload false st)) d in
  let d := say (EvStatus (loopCount (d_st d))) d in
  if d_once d then (iterExit, d)
  else (iterContinue, sleep (Interval (d_cfg d)) (tn_wake tn) d).

Definition runCycle (tn : Turn) (d : Daemon) : iterOutcome * Daemon :=
  let '(pl, result, d) := runConfigPhases tn d in
  match result, pl with
  | phasesCompleted, Some pl =>
      if tn_done tn then (iterExit, d)
      else finalizeIteration tn (maybeStartListener (runRestartsPhase tn pl d))
  | phasesRewriteFailed, _ => if d_once d then (iterExit, d) else (iterContinue, backOff tn d)
  | _, _ => (iterContinue, backOff tn d)
  end.

(** ** An iteration; [None] is a panic *)
Definition runLoopIteration (tn : Turn) (d : Daemon) : option iterOutcome * Daemon :=
  let '(o, d) := consumeReloadSignal tn d in
  match o with
  | iterExit => (Some iterExit, d)
  | iterContinue =>
      if isIdlePoll d then (Some iterContinue, handleIdleSleep tn d)
      else
        let d := on_st (set_lastEventCount (EventCounter (d_trigger d))) d in
        match tn_load tn (appState d) with
        | LoadPanic s => (None, say EvPanic (set_appState s d))
        | LoadFailed s => (Some iterContinue, backOff tn (say (EvLoad false) (set_appState s d)))
        | Loaded s =>
            let '(ok, d) := checkHooks tn (say (EvLoad true) (set_appState s d)) in
            if negb ok then (Some iterExit, d)
            else let '(o, d) := runCycle tn d in (Some o, d)
        end
  end.

(** After a panic the answer of the sleep is dropped. *)
Definition runLoopIterationSafe (tn : Turn) (d : Daemon) : iterOutcome * Daemon :=
  match runLoopIteration tn d with
  | (Some o, d) => (o, d)
  | (None, d) => (iterContinue, say (EvSleep (Interval (d_cfg d))) d)
  end.

(** The clients between two turns (their steps are those of [Trigger.step]). *)
Definition clients (tn : Turn) (d : Daemon) : Daemon :=
  set_trigger (tn_clients tn (d_trigger d)) (set_appState (AddRequestedConfigs (tn_requests tn) (appState d)) d).

(** [runDaemonLoop] over the given turns.  [Some code] is the exit status. *)
Fixpoint runDaemonLoop (turns : list Turn) (d : Daemon) : option Z * Daemon :=
  match turns with
  | [] => (None, d)
  | tn :: turns =>
      match runLoopIterationSafe tn (clients tn d) with
      | (iterExit, d) => (Some (exitCode (d_st d)), d)
      | (iterContinue, d) => runDaemonLoop turns d
      end
  end.
End daemon.

Arguments Daemon : clear implicits.
