(* ===== verification/MainLoopProps.v ===== *)
(** * MainLoopProps: the readiness protocol of the daemon

    What systemd is told, in every run of the loop: READY=1 only once the
    configuration was written, the restarts applied and the listener started,
    and again for every reload that was handled. *)
From S2P Require Import Prelude Config Snapshot Plan Compute Services ServicesProps Restart State Observe Actions ConfigMgr ConfigMgrProps Trigger Watchdog MainLoop Fixtures.

(** ** Logs *)
Definition allowed (before : list LoopEvent) (e : LoopEvent) : Prop :=
  match e with
  | EvReady first => EvListener ∈ before ∧ (first = true ↔ (∀ f, EvReady f ∉ before))
  | EvListener => (EvListener ∉ before) ∧ ∃ l, before = l ++ [EvPhases phasesCompleted; EvRestarts]
  | _ => True
  end.

Definition log_ok (log : list LoopEvent) : Prop := ∀ l1 e l2, log = l1 ++ e :: l2 → allowed l1 e.

Lemma log_ok_snoc log e : log_ok log → allowed log e → log_ok (log ++ [e]).
Proof.
  intros Hlog He l1 e' l2 E. destruct l2 as [|x l2' _] using rev_ind.
  - apply app_inj_tail in E as [-> ->]. done.
  - rewrite app_comm_cons, app_assoc in E. apply app_inj_tail in E as [-> _]. by eapply Hlog.
Qed.

(** The events that say nothing of readiness. *)
Definition neutral (e : LoopEvent) : bool := match e with EvReady _ | EvListener => false | _ => true end.

Section facts.
Context {M : Type} `{Manager M} {W HW : Type} (ex : Executor W).
Implicit Types d : Daemon M W HW.

Record d_ok d : Prop := {
  ok_server : server (d_st d) = true ↔ EvListener ∈ d_log d;
  ok_ready : ready (d_st d) = true ↔ ∃ f, EvReady f ∈ d_log d;
  ok_log : log_ok (d_log d) }.

(** A step that changes neither flag and adds neutral events. *)
Definition quiet d d' (new : list LoopEvent) : Prop :=
  server (d_st d') = server (d_st d) ∧ ready (d_st d') = ready (d_st d) ∧
  d_log d' = d_log d ++ new ∧ forallb neutral new = true.

Lemma quiet_nil d d' : server (d_st d') = server (d_st d) → ready (d_st d') = ready (d_st d) →
  d_log d' = d_log d → quiet d d' [].
Proof. intros Hs Hr Hl. unfold quiet. by rewrite Hs, Hr, Hl, app_nil_r. Qed.

Lemma neutral_not e new : neutral e = false → forallb neutral new = true → e ∉ new.
Proof. intros He Hn Hin. rewrite forallb_forall in Hn. apply list_elem_of_In, Hn in Hin. congruence. Qed.

Lemma quiet_trans d d1 d2 new1 new2 : quiet d d1 new1 → quiet d1 d2 new2 → quiet d d2 (new1 ++ new2).
Proof.
  intros (Hs & Hr & Hl & Hn) (Hs' & Hr' & Hl' & Hn'). unfold quiet.
  rewrite Hs', Hr', Hl', Hl, <- app_assoc, forallb_app, Hn, Hn'. auto.
Qed.

Lemma quiet_ok d d' new : quiet d d' new → d_ok d → d_ok d'.
Proof.
  intros (Hs & Hr & Hl & Hn) [Os Or Ol]. split.
  - rewrite Hs, Hl, Os, elem_of_app. pose proof (neutral_not EvListener new eq_refl Hn). tauto.
  - rewrite Hr, Hl, Or. split; intros [f Hf]; exists f; rewrite elem_of_app in *; [by left|].
    destruct Hf as [?|Hf]; [done|]. by apply (neutral_not (EvReady f)) in Hf.
  - rewrite Hl. clear Hs Hr Hl Os Or. induction new as [|e new IH] using rev_ind; [by rewrite app_nil_r|].
    rewrite forallb_app, andb_true_iff in Hn. destruct Hn as [Hn He]. rewrite app_assoc.
    apply log_ok_snoc; [by apply IH|]. by destruct e.
Qed.

Lemma signalReady_ok d : d_ok d → d_ok (signalReady d).
Proof.
  intros Hd. unfold signalReady. destruct (negb (ready (d_st d)) && server (d_st d)) eqn:E1.
  - apply andb_true_iff in E1 as [Er%negb_true_iff Es]. destruct Hd as [Os Or Ol]. split; cbn.
    + rewrite Os, elem_of_app, list_elem_of_singleton. naive_solver.
    + split; [|done]. intros _. exists true. set_solver.
    + apply log_ok_snoc; [done|]. split; [by apply Os|]. split; [|done]. intros _ f Hf.
      rewrite (proj2 Or) in Er; [done|by exists f].
  - destruct (ready (d_st d) && reloadSignaled (d_st d)) eqn:E2; [|done].
    apply andb_true_iff in E2 as [Er _]. destruct Hd as [Os Or Ol]. destruct (proj1 Or Er) as [f0 Hf0].
    split; cbn.
    + rewrite Os, elem_of_app, list_elem_of_singleton. naive_solver.
    + rewrite Er. split; [|done]. intros _. exists f0. set_solver.
    + apply log_ok_snoc; [done|]. split; [|split; [done|naive_solver]].
      apply list_elem_of_split in Hf0 as (l1 & l2 & El). destruct (Ol l1 (EvReady f0) l2 El) as [Hin _].
      rewrite El. set_solver.
Qed.

Lemma maybeStartListener_ok d l : d_log d = l ++ [EvPhases phasesCompleted; EvRestarts] →
  d_ok d → d_ok (maybeStartListener d).
Proof.
  intros El Hd. unfold maybeStartListener. destruct (server (d_st d)) eqn:Es;
    [by rewrite !orb_true_r|]. case_match; [done|]. destruct Hd as [Os Or Ol]. split; cbn.
  - split; [|done]. intros _. set_solver.
  - rewrite Or. split; intros [f Hf]; exists f; [set_solver|].
    apply elem_of_app in Hf as [?|Hf%list_elem_of_singleton]; [done|discriminate].
  - apply log_ok_snoc; [done|]. split; [|by exists l]. intros Hin%Os. congruence.
Qed.

(** ** The parts of an iteration *)
Lemma sleep_quiet n wake d : quiet d (sleep n wake d) [EvSleep n].
Proof. unfold sleep. by destruct wake. Qed.

Lemma backOff_ok tn d : d_ok d → d_ok (backOff tn d).
Proof. intros Hd. eapply quiet_ok; [apply sleep_quiet|]. by apply signalReady_ok. Qed.

Lemma checkHooks_quiet tn d : quiet d (checkHooks tn d).2 [].
Proof. unfold checkHooks. repeat case_match; by apply quiet_nil. Qed.

Lemma watchdogServices_quiet pl d : quiet d (watchdogServices pl d) [].
Proof. unfold watchdogServices. case_match; by apply quiet_nil. Qed.

Lemma runConfigPhases_quiet tn d :
  let '(_, result, d') := runConfigPhases ex tn d in quiet d d' [EvPhases result].
Proof.
  unfold runConfigPhases. destruct (Plan_ _ _) as [[err|pl] cm]; [done|].
  destruct (Execute_ _ _ _ _) as [x cm1].
  set (d1 := set_cm cm _). destruct (watchdogServices_quiet pl d1) as (Hs & Hr & Hl & _).
  rewrite app_nil_r in Hl. split_and!; cbn [d_st d_log set_trigger set_w set_cm say]; [by rewrite Hs|by rewrite Hr|by rewrite Hl|done].
Qed.

Lemma finalizeIteration_ok tn d : d_ok d → d_ok (finalizeIteration tn d).2.
Proof.
  intros Hd. unfold finalizeIteration. set (d1 := signalReady (set_appState _ d)).
  assert (d_ok d1) as Hd1 by (apply signalReady_ok; (eapply (quiet_ok d); [by apply quiet_nil|done])).
  clearbody d1. set (d2 := say _ _). assert (d_ok d2) as Hd2
    by (eapply (quiet_ok d1 d2 [EvStatus _]); [by split_and!|done]).
  clearbody d2. destruct (d_once d2); [done|]. eapply quiet_ok; [apply sleep_quiet|done].
Qed.

Lemma runCycle_ok tn d : d_ok d → d_ok (runCycle ex tn d).2.
Proof.
  intros Hd. unfold runCycle. pose proof (runConfigPhases_quiet tn d) as Hq.
  destruct (runConfigPhases ex tn d) as [[pl result] d1]. pose proof (quiet_ok _ _ _ Hq Hd) as Hd1.
  destruct result, pl as [pl|]; try (by apply backOff_ok); [|by case_match; [|apply backOff_ok]..].
  destruct (tn_done tn); [done|]. apply finalizeIteration_ok.
  destruct Hq as (_ & _ & El & _). apply (maybeStartListener_ok _ (d_log d)).
  - cbn. by rewrite El, <- app_assoc.
  - eapply (quiet_ok d1 _ [EvRestarts]); [by split_and!|done].
Qed.

Lemma runLoopIteration_ok tn d : d_ok d → d_ok (runLoopIteration ex tn d).2.
Proof.
  intros Hd. unfold runLoopIteration. destruct (consumeReloadSignal tn d) as [o d1] eqn:E.
  assert (d_ok d1) as Hd1.
  { unfold consumeReloadSignal in E. destruct (tn_cancelled tn), (tn_signal tn); injection E as <- <-; try done;
      (eapply (quiet_ok d); [by apply quiet_nil|done]). }
  destruct o; [|done]. destruct (isIdlePoll d1); [eapply quiet_ok; [apply sleep_quiet|done]|].
  destruct (tn_load tn _) as [s|s|s].
  - eapply (quiet_ok d1 _ [EvPanic]); [by split_and!|done].
  - apply backOff_ok. eapply (quiet_ok d1 _ [EvLoad false]); [by split_and!|done].
  - set (d2 := say (EvLoad true) _). assert (d_ok d2) as Hd2
      by (eapply (quiet_ok d1 d2 [EvLoad true]); [by split_and!|done]).
    pose proof (quiet_ok _ _ _ (checkHooks_quiet tn d2) Hd2) as Hd3.
    destruct (checkHooks tn d2) as [[] d3]; [|done]. cbn [negb]. pose proof (runCycle_ok tn d3 Hd3) as Hd4.
    by destruct (runCycle ex tn d3).
Qed.

Lemma runLoopIterationSafe_ok tn d : d_ok d → d_ok (runLoopIterationSafe ex tn d).2.
Proof.
  intros Hd. unfold runLoopIterationSafe. pose proof (runLoopIteration_ok tn d Hd) as Hd'.
  destruct (runLoopIteration ex tn d) as [[o|] d']; [done|].
  eapply (quiet_ok d' _ [EvSleep _]); [by split_and!|done].
Qed.

Lemma runDaemonLoop_ok turns d : d_ok d → d_ok (runDaemonLoop ex turns d).2.
Proof.
  revert d. induction turns as [|tn turns IH]; intros d Hd; cbn [runDaemonLoop]; [done|].
  assert (d_ok (clients tn d)) as Hc by (eapply (quiet_ok d); [by apply quiet_nil|done]).
  pose proof (runLoopIterationSafe_ok tn (clients tn d) Hc) as Hd'.
  destruct (runLoopIterationSafe ex tn (clients tn d)) as [[] d']; [by apply IH|done].
Qed.
End facts.

(** In every run of the daemon READY=1 is sent only after the listener was started,
    the listener is started once, right after a cycle whose rewrites all
    succeeded had its restarts applied, and exactly the first READY=1 is the one
    that makes the unit active. *)
Theorem ready_protocol {M W HW} `{Manager M} (ex : Executor W) turns (d : Daemon M W HW) :
  d_st d = newIterState → d_log d = [] →
  ∀ before e after, d_log (runDaemonLoop ex turns d).2 = before ++ e :: after →
    match e with
    | EvReady first => EvListener ∈ before ∧ (first = true ↔ (∀ f, EvReady f ∉ before))
    | EvListener => (EvListener ∉ before) ∧ ∃ l, before = l ++ [EvPhases phasesCompleted; EvRestarts]
    | _ => True
    end.
Proof.
  intros Hst Hl. assert (d_ok d) as Hd.
  { split; rewrite ?Hst, ?Hl.
    - split; [done|by intros ?%not_elem_of_nil].
    - split; [done|by intros [f ?%not_elem_of_nil]].
    - intros [] e l2; discriminate. }
  intros before e after E. exact (ok_log _ (runDaemonLoop_ok ex turns d Hd) before e after E).
Qed.

(** ** Reloads *)
Section reloads.
Context {M : Type} `{Manager M} {W HW : Type} (ex : Executor W).
Implicit Types d : Daemon M W HW.

(** What a step of a ready daemon that handles a reload keeps. *)
Record handling d d' (new : list LoopEvent) : Prop := {
  hd_ready : ready (d_st d') = true;
  hd_reload : reloadSignaled (d_st d') = true;
  hd_log : d_log d' = d_log d ++ new }.

Lemma signalReady_handling d0 d new : handling d0 d new → handling d0 (signalReady d) (new ++ [EvReady false]).
Proof.
  intros [Hr Hs Hl]. unfold signalReady. rewrite Hr, Hs. cbn.
  split; [done|done|]. cbn. by rewrite Hl, app_assoc.
Qed.

Lemma sleep_handling n wake d0 d new : handling d0 d new → handling d0 (sleep n wake d) (new ++ [EvSleep n]).
Proof. intros [Hr Hs Hl]. unfold sleep. destruct wake; split; try done; cbn; by rewrite Hl, app_assoc. Qed.

Lemma backOff_handling tn d0 d new : handling d0 d new →
  handling d0 (backOff tn d) (new ++ [EvReady false; EvSleep 60]).
Proof.
  intros Hh. apply signalReady_handling, (sleep_handling 60 (tn_wake tn)) in Hh. by rewrite <- app_assoc in Hh.
Qed.

(** The acknowledgement, and what clears the flag. *)
Definition acknowledged d d' : Prop :=
  ∃ new, d_log d' = d_log d ++ new ∧ EvReady false ∈ new ∧
    (reloadSignaled (d_st d') = true ∨ EvPhases phasesCompleted ∈ new).

Lemma handling_backOff tn d0 d new : handling d0 d new → acknowledged d0 (backOff tn d).
Proof.
  intros [_ Hs Hl]%(backOff_handling tn). eexists. split; [exact Hl|]. split; [set_solver|by left].
Qed.

Lemma finalize_handling tn d0 d new : EvPhases phasesCompleted ∈ new → handling d0 d new →
  acknowledged d0 (finalizeIteration tn d).2.
Proof.
  intros Hin Hh. unfold finalizeIteration. set (d1 := set_appState _ d).
  assert (handling d0 d1 new) as Hh1 by (by destruct Hh).
  apply signalReady_handling in Hh1 as [_ _ Hl]. set (d2 := say _ _).
  assert (d_log d2 = d_log d0 ++ (new ++ [EvReady false]) ++ [EvStatus (loopCount (d_st (on_st
    (λ st, count_loop (set_reload false st)) (signalReady d1))))]) as Hl2
    by (unfold d2; cbn [say d_log on_st]; rewrite Hl, <- app_assoc; reflexivity).
  destruct (d_once d2).
  - eexists. split; [exact Hl2|]. set_solver.
  - destruct (sleep_quiet (Interval (d_cfg d2)) (tn_wake tn) d2) as (_ & _ & Hl3 & _).
    eexists. split; [cbn [snd]; rewrite Hl3, Hl2, <- app_assoc; reflexivity|]. set_solver.
Qed.

Lemma runConfigPhases_st tn d : let '(_, result, d') := runConfigPhases ex tn d in d_st d' = d_st d.
Proof.
  unfold runConfigPhases. destruct (Plan_ _ _) as [[err|pl] cm]; [done|].
  destruct (Execute_ _ _ _ _) as [x cm1]. cbn. unfold watchdogServices. by case_match.
Qed.

Lemma runCycle_handling tn d0 d new : handling d0 d new →
  (runCycle ex tn d).1 = iterContinue → acknowledged d0 (runCycle ex tn d).2.
Proof.
  intros Hh. unfold runCycle. pose proof (runConfigPhases_quiet ex tn d) as Hq.
  pose proof (runConfigPhases_st tn d) as Hst. destruct (runConfigPhases ex tn d) as [[pl result] d1].
  destruct Hq as (_ & _ & Hl & _).
  assert (handling d0 d1 (new ++ [EvPhases result])) as Hh1.
  { destruct Hh as [Hr Hs Hl0]. split; [by rewrite Hst|by rewrite Hst|]. by rewrite Hl, Hl0, app_assoc. }
  destruct result, pl as [pl|]; intros Ho; try exact (handling_backOff tn d0 d1 _ Hh1);
    [|(destruct (d_once d1); [discriminate Ho|exact (handling_backOff tn d0 d1 _ Hh1)])..].
  destruct (tn_done tn); [done|]. set (d2 := runRestartsPhase tn pl d1).
  assert (handling d0 d2 ((new ++ [EvPhases phasesCompleted]) ++ [EvRestarts])) as Hh2.
  { destruct Hh1 as [Hr Hs Hl1]. split; [done|done|]. rewrite app_assoc, <- Hl1. reflexivity. }
  assert (∃ l, handling d0 (maybeStartListener d2) (((new ++ [EvPhases phasesCompleted]) ++ [EvRestarts]) ++ l)) as [l Hh3].
  { unfold maybeStartListener. case_match; [exists []; by rewrite app_nil_r|]. exists [EvListener].
    destruct Hh2 as [Hr Hs Hl2]. split; [done|done|]. rewrite app_assoc, <- Hl2. reflexivity. }
  eapply finalize_handling; [|exact Hh3]. set_solver.
Qed.

Lemma iteration_handling tn d : ready (d_st d) = true → reloadSignaled (d_st d) = true ∨ tn_signal tn = true →
  (runLoopIteration ex tn d).1 = Some iterContinue → acknowledged d (runLoopIteration ex tn d).2.
Proof.
  intros Hr Hs. unfold runLoopIteration, consumeReloadSignal. destruct (tn_cancelled tn); [done|].
  set (d1 := if tn_signal tn then _ else d). assert (handling d d1 []) as Hh.
  { unfold d1. destruct (tn_signal tn); split; cbn; rewrite ?app_nil_r; naive_solver. }
  clearbody d1. assert (isIdlePoll d1 = false) as ->.
  { unfold isIdlePoll. rewrite (hd_reload _ _ _ Hh). cbn. by rewrite andb_false_r. }
  destruct Hh as [Hr1 Hs1 Hl1]. rewrite app_nil_r in Hl1. destruct (tn_load tn _) as [s|s|s]; [done|..].
  - intros _. eapply (handling_backOff tn d _ [EvLoad false]). split; [done|done|]. cbn. by rewrite Hl1.
  - set (d2 := say (EvLoad true) _).
    assert (handling d (checkHooks tn d2).2 [EvLoad true]) as Hh2.
    { unfold checkHooks. repeat case_match; (split; [done|done|]); cbn; by rewrite Hl1. }
    destruct (checkHooks tn d2) as [[] d3]; [|done]. cbn [negb]. pose proof (runCycle_handling tn d d3 _ Hh2) as Hc.
    destruct (runCycle ex tn d3) as [o d4]. cbn [fst snd] in *. intros [= ->]. auto.
Qed.
End reloads.

(** A reload that reaches a ready daemon is acknowledged: an iteration that handles
    one and goes on (load, plan or rewrite failed, or the cycle completed) tells
    systemd READY=1; and the request is forgotten only by a completed cycle, so
    after a failed one the next iteration is never skipped as idle. *)
Theorem reload_acknowledged {M W HW} `{Manager M} (ex : Executor W) tn (d d' : Daemon M W HW) :
  ready (d_st d) = true → reloadSignaled (d_st d) = true ∨ tn_signal tn = true →
  runLoopIteration ex tn d = (Some iterContinue, d') →
  ∃ new, d_log d' = d_log d ++ new ∧ EvReady false ∈ new ∧
    (EvPhases phasesCompleted ∈ new ∨ (reloadSignaled (d_st d') = true ∧ isIdlePoll d' = false)).
Proof.
  intros Hr Hs E. destruct (iteration_handling ex tn d Hr Hs) as (new & Hl & Hin & Hcl); [by rewrite E|].
  rewrite E in Hl, Hcl. exists new. split_and!; [done|done|]. destruct Hcl as [Hre|?]; [|by left].
  right. split; [done|]. unfold isIdlePoll. cbn [snd] in Hre. rewrite Hre. cbn. by rewrite andb_false_r.
Qed.

(** A reload signal that ends the sleep after a panic is lost: whether the sleep was
    interrupted leaves no trace in the loop's state. *)
Lemma panic_drops_reload {M W HW} `{Manager M} (ex : Executor W) tn (d d' : Daemon M W HW) :
  runLoopIteration ex tn d = (None, d') →
  reloadSignaled (d_st (runLoopIterationSafe ex tn d).2) = reloadSignaled (d_st d) || tn_signal tn.
Proof.
  intros E. unfold runLoopIterationSafe. rewrite E. cbn. unfold runLoopIteration, consumeReloadSignal in E.
  destruct (tn_cancelled tn); [done|]. set (d1 := if tn_signal tn then _ else d) in E.
  assert (reloadSignaled (d_st d1) = reloadSignaled (d_st d) || tn_signal tn) as <-
    by (unfold d1; destruct (tn_signal tn); cbn; by rewrite ?orb_true_r, ?orb_false_r).
  clearbody d1. destruct (isIdlePoll d1); [done|]. destruct (tn_load tn _) as [s|s|s]; [by injection E as <-|done|].
  destruct (checkHooks _ _) as [[] d2]; [|done]. cbn [negb] in E. by destruct (runCycle ex tn d2).
Qed.

(** ** A concrete daemon *)
Definition working_executor : Executor unit :=
  {| cancelled w := (false, w); processRewrite_ _ _ w := (None, w); ExecutePostconfBatch _ w := (None, w);
     ExecutePostconf _ _ w := (None, w); ExecutePostconfdBatch _ w := (None, w); ExecuteLdapWrite _ _ w := (None, w);
     ExecuteMapfile _ _ _ w := (None, w); RunProxygenWithConfigs w := (None, w);
     ResolveValue _ _ _ w := (inr "v", w); lookupFileValue _ w := (inr "v", w) |}.

Definition fresh_daemon (firstRun : bool) (st : loopIterState) : Daemon (Shared unit) unit unit :=
  {| d_once := false; d_forced := 0; d_validate := false;
     d_cm := set_State (SetFirstRun firstRun (state_of base [])) (manager_of base [] empty_carry);
     d_trigger := {| EventCounter := 0; waiting := []; inflight := []; restarting := None |};
     d_wd := NewWatchdog NewServiceManager {| ww_state := NewState; ww_host := tt |};
     d_w := tt; d_st := st; d_log := [] |}.

Definition turn (signal : bool) (load : State → LoadResult) : Turn :=
  {| tn_clients t := t; tn_requests := []; tn_cancelled := false; tn_signal := signal; tn_load := load;
     tn_hooks := true; tn_env := no_files; tn_now := 0; tn_done := false; tn_wake := false |}.

Lemma ready_protocol_witness :
  ∃ before, d_log (@runDaemonLoop _ legacy_manager _ _ working_executor [turn false Loaded]
      (fresh_daemon true newIterState)).2 = before ++ EvReady true :: [EvStatus 1; EvSleep 300] ∧
    EvListener ∈ before.
Proof.
  assert (d_log (@runDaemonLoop _ legacy_manager _ _ working_executor [turn false Loaded]
      (fresh_daemon true newIterState)).2 =
    [EvLoad true; EvPhases phasesCompleted; EvRestarts; EvListener] ++ EvReady true :: [EvStatus 1; EvSleep 300]) as Hl
    by (vm_compute; reflexivity).
  eexists. split; [exact Hl|].
  apply (@ready_protocol _ _ _ legacy_manager working_executor [turn false Loaded] (fresh_daemon true newIterState)
    eq_refl eq_refl _ _ _ Hl).
Defined.

Lemma reload_acknowledged_witness :
  ∃ d', @runLoopIteration _ legacy_manager _ _ working_executor (turn true LoadFailed)
      (fresh_daemon false (set_ready true (set_server true newIterState))) = (Some iterContinue, d') ∧
    ∃ new, d_log d' = new ∧ EvReady false ∈ new.
Proof.
  set (d := fresh_daemon false (set_ready true (set_server true newIterState))).
  assert ((@runLoopIteration _ legacy_manager _ _ working_executor (turn true LoadFailed) d).1 = Some iterContinue) as Ho
    by (vm_compute; reflexivity).
  destruct (@runLoopIteration _ legacy_manager _ _ working_executor (turn true LoadFailed) d) as [o d'] eqn:E.
  cbn [fst] in Ho. subst o. exists d'. split; [reflexivity|].
  destruct (@reload_acknowledged _ _ _ legacy_manager working_executor (turn true LoadFailed) d d' eq_refl (or_intror eq_refl) E)
    as (new & Hl & Hin & _).
  exists new. split; [exact Hl|exact Hin].
Defined.
