(* ===== verification/Lexer.v ===== *)
(** * Lexer: internal/parser/lexer.go and interfaces.go

    The tokens of [zmconfigd.cf] and the lexer that produces them.  The text is
    ASCII, one byte per rune, and [unicode.IsLetter], [IsDigit] and [IsSpace]
    are their ASCII restrictions.  The reader is the text that is left, with the
    error it ends in when reading fails; the lexer's current rune is the head of
    that text and [eof] is its being empty.  Positions are Go [int]s, which a
    text held in memory cannot overflow.

    [Lexer] is the interface the parser is written against, with what the parser
    relies on as its laws; [lexer] implements it. *)
From S2P Require Import Prelude.
From stdpp Require Import pretty.

(** ** Tokens (interfaces.go) *)
Inductive TokenType :=
  | TokenEOF | TokenError | TokenSection | TokenRewrite | TokenVar | TokenLocal
  | TokenService | TokenPostconf | TokenPostconfd | TokenRestart | TokenDepends
  | TokenMapfile | TokenMaplocal | TokenMode | TokenFile | TokenIf | TokenFi
  | TokenProxygen | TokenIdentifier | TokenString | TokenNewline.

#[export] Instance TokenType_eq_dec : EqDecision TokenType.
Proof. solve_decision. Defined.

Record Token := { Type_ : TokenType; Literal : string; Line : Z; Column : Z }.

(** [tokenNames], as [TokenType.String] reads it. *)
Definition TokenType_String (t : TokenType) : string :=
  match t with
  | TokenEOF => "EOF" | TokenError => "ERROR" | TokenSection => "SECTION"
  | TokenRewrite => "REWRITE" | TokenVar => "VAR" | TokenLocal => "LOCAL"
  | TokenService => "SERVICE" | TokenPostconf => "POSTCONF" | TokenPostconfd => "POSTCONFD"
  | TokenRestart => "RESTART" | TokenDepends => "DEPENDS" | TokenMapfile => "MAPFILE"
  | TokenMaplocal => "MAPLOCAL" | TokenMode => "MODE" | TokenFile => "FILE"
  | TokenIf => "IF" | TokenFi => "FI" | TokenProxygen => "PROXYGEN"
  | TokenIdentifier => "IDENTIFIER" | TokenString => "STRING" | TokenNewline => "NEWLINE"
  end.

(** ** Characters *)
Definition IsLetter (c : ascii) : bool := in_range 65 90 c || in_range 97 122 c.
Definition IsDigit (c : ascii) : bool := in_range 48 57 c.

Definition isIdentifierStart (ch : ascii) : bool := IsLetter ch || Ascii.eqb ch "_".

Definition isIdentifierChar (ch : ascii) : bool :=
  IsLetter ch || IsDigit ch || Ascii.eqb ch "_" || Ascii.eqb ch "-" || Ascii.eqb ch ",".

Definition quote : ascii := ascii_of_nat 34.

(** What Go's [%q] prints for an ASCII rune. *)
Definition hex_digit (n : N) : ascii :=
  if (n <? 10)%N then ascii_of_N (48 + n) else ascii_of_N (87 + n).

Definition quote_rune (c : ascii) : string :=
  "'" +:+
  match byte c with
  | 7 => "\a" | 8 => "\b" | 9 => "\t" | 10 => "\n" | 11 => "\v" | 12 => "\f" | 13 => "\r"
  | 39 => "\'" | 92 => "\\"
  | n => if in_range 32 126 c then String c ""
         else "\x" +:+ String (hex_digit (n / 16)) (String (hex_digit (n mod 16)) "")
  end%N +:+ "'".

(** The keywords, looked up in upper case; LDAP is not one of them. *)
Definition keywords : list (string * TokenType) :=
  [("SECTION", TokenSection); ("REWRITE", TokenRewrite); ("VAR", TokenVar);
   ("LOCAL", TokenLocal); ("SERVICE", TokenService); ("POSTCONF", TokenPostconf);
   ("POSTCONFD", TokenPostconfd); ("RESTART", TokenRestart); ("DEPENDS", TokenDepends);
   ("MAPFILE", TokenMapfile); ("MAPLOCAL", TokenMaplocal); ("MODE", TokenMode);
   ("FILE", TokenFile); ("IF", TokenIf); ("FI", TokenFi); ("PROXYGEN", TokenProxygen)].

Fixpoint assoc {V} (k : string) (l : list (string * V)) : option V :=
  match l with
  | [] => None
  | (k', v) :: l => if String.eqb k k' then Some v else assoc k l
  end.

Definition lookupKeyword (ident : string) : TokenType :=
  default TokenIdentifier (assoc (ToUpper ident) keywords).

(** ** Errors *)
Inductive LexError :=
  | ReadError (msg : string) (line col : Z)
  | UnexpectedChar (c : ascii) (line col : Z).

Definition LexError_Error (e : LexError) : string :=
  match e with
  | ReadError msg line col =>
      "read error at line " +:+ pretty line +:+ ", column " +:+ pretty col +:+ ": " +:+ msg
  | UnexpectedChar c line col =>
      "unexpected character: " +:+ quote_rune c +:+ " at line " +:+ pretty line +:+
      ", column " +:+ pretty col
  end.

(** ** The interface the parser uses

    [NextToken] returns the token, the error and the lexer after it.  The laws:
    a token that is neither the end nor an error was paid for with input, and
    an identifier token is an identifier. *)
Definition at_end (t : TokenType) : bool :=
  match t with TokenEOF | TokenError => true | _ => false end.

Definition ident_body (s : string) : bool :=
  forallb isIdentifierChar (list_ascii_of_string s).

(** A name an identifier token can carry: an optional [!], identifier
    characters, not empty, not a keyword. *)
Definition is_ident (s : string) : bool :=
  negb (String.eqb s "") &&
  ident_body (TrimPrefix s "!") &&
  bool_decide (lookupKeyword s = TokenIdentifier).

(** What the literal of a token has to be for its type. *)
Definition token_ok (t : Token) : Prop :=
  match Type_ t with
  | TokenIdentifier => is_ident (Literal t) = true
  | TokenEOF | TokenError | TokenString | TokenNewline => True
  | ty => lookupKeyword (Literal t) = ty
  end.

Class Lexer (L : Type) := { NextToken : L → Token * option LexError * L }.

Class LexerLaws (L : Type) `{Lexer L} := {
  lex_ok : L → Prop;
  lex_measure : L → nat;
  NextToken_law l t e l' :
    lex_ok l → NextToken l = (t, e, l') →
    lex_ok l' ∧ (lex_measure l' ≤ lex_measure l)%nat ∧
    (e = None → at_end (Type_ t) = false → (lex_measure l' < lex_measure l)%nat) ∧
    (e = None → token_ok t)
}.

(** ** The lexer *)
Record lexer := {
  l_input : string;             (** the current rune and what follows it *)
  l_fail : option string;       (** the error reading ends in, none at a plain EOF *)
  l_line : Z;
  l_column : Z;
  l_peeked : option Token
}.

Definition l_eof (l : lexer) : bool := String.eqb (l_input l) "".

(** The position after [s] has become the unread text: its head was just read. *)
Definition arrive (s : string) (l : lexer) : lexer :=
  {| l_input := s; l_fail := l_fail l;
     l_line := match s with
               | String c _ => if Ascii.eqb c newline then (l_line l + 1)%Z else l_line l
               | EmptyString => l_line l
               end;
     l_column := match s with
                 | String c _ => if Ascii.eqb c newline then 0%Z else (l_column l + 1)%Z
                 | EmptyString => l_column l
                 end;
     l_peeked := l_peeked l |}.

Definition NewLexer (s : string) (fail : option string) : lexer :=
  arrive s {| l_input := ""; l_fail := fail; l_line := 1; l_column := 0; l_peeked := None |}.

Definition readChar (l : lexer) : lexer :=
  match l_input l with
  | EmptyString => l
  | String _ s => arrive s l
  end.

(** The loops [for p(l.current) { sb.WriteRune(l.current); l.readChar() }]: the
    runes read and the lexer after them.  [s] is the unread text. *)
Fixpoint read_while_go (p : ascii → bool) (s : string) (l : lexer) : string * lexer :=
  match s with
  | String c s' =>
      if p c then let '(r, l') := read_while_go p s' (arrive s' l) in (String c r, l')
      else ("", l)
  | EmptyString => ("", l)
  end.

Definition read_while (p : ascii → bool) (l : lexer) : string * lexer :=
  read_while_go p (l_input l) l.

Definition is_blank (c : ascii) : bool := Ascii.eqb c space || Ascii.eqb c tab.

Definition skipWhitespace (l : lexer) : lexer := (read_while is_blank l).2.

Definition skipComment (l : lexer) : lexer :=
  (read_while (λ c, negb (Ascii.eqb c newline)) l).2.

Definition readIdentifier (l : lexer) : string * lexer := read_while isIdentifierChar l.

Definition readString (l : lexer) : string * lexer :=
  match l_input l with
  | String c _ =>
      if Ascii.eqb c quote then
        let '(s, l1) :=
          read_while (λ c, negb (Ascii.eqb c quote) && negb (Ascii.eqb c newline)) (readChar l) in
        match l_input l1 with
        | String c' _ => (s, if Ascii.eqb c' quote then readChar l1 else l1)
        | EmptyString => (s, l1)
        end
      else read_while (λ c, negb (IsSpace c)) l
  | EmptyString => ("", l)
  end.

(** [NextToken] without a stored token, [next] being the recursive call. *)
Definition scan (next : lexer → Token * option LexError * lexer) (l0 : lexer) :
    Token * option LexError * lexer :=
  let l := skipWhitespace l0 in
  let line := l_line l in
  let col := l_column l in
  let tok t s := {| Type_ := t; Literal := s; Line := line; Column := col |} in
  match l_input l with
  | EmptyString =>
      match l_fail l with
      | Some msg => (tok TokenError msg, Some (ReadError msg line col), l)
      | None => (tok TokenEOF "", None, l)
      end
  | String c _ =>
      if Ascii.eqb c newline then (tok TokenNewline (String newline ""), None, readChar l)
      else if Ascii.eqb c "#" then next (skipComment l)
      else if isIdentifierStart c || Ascii.eqb c "!" then
        let negated := Ascii.eqb c "!" in
        let '(ident, l2) := readIdentifier (if negated then readChar l else l) in
        let ident := if negated then "!" +:+ ident else ident in
        (tok (lookupKeyword ident) ident, None, l2)
      else if Ascii.eqb c "/" || Ascii.eqb c quote || IsDigit c || Ascii.eqb c "." then
        let '(s, l2) := readString l in (tok TokenString s, None, l2)
      else (tok TokenError ("unexpected character: " +:+ quote_rune c),
            Some (UnexpectedChar c line col), readChar l)
  end.

(** After a comment comes the end of the line or of the text, so the recursion
    of [NextToken] is one deep ([nextToken_eq] below). *)
Definition nextToken (l : lexer) : Token * option LexError * lexer :=
  match l_peeked l with
  | Some tok =>
      (tok, None, {| l_input := l_input l; l_fail := l_fail l; l_line := l_line l;
                     l_column := l_column l; l_peeked := None |})
  | None => scan (scan (λ l, ({| Type_ := TokenEOF; Literal := ""; Line := 0; Column := 0 |}, None, l))) l
  end.

#[export] Instance lexer_Lexer : Lexer lexer := {| NextToken := nextToken |}.

Definition Peek (l : lexer) : (Token + LexError) * lexer :=
  match l_peeked l with
  | Some tok => (inl tok, l)
  | None =>
      match nextToken l with
      | (_, Some e, l') => (inr e, l')
      | (tok, None, l') =>
          (inl tok, {| l_input := l_input l'; l_fail := l_fail l'; l_line := l_line l';
                       l_column := l_column l'; l_peeked := Some tok |})
      end
  end.

Definition HasMore (l : lexer) : bool :=
  match l_peeked l with
  | Some tok => negb (bool_decide (Type_ tok = TokenEOF))
  | None => negb (l_eof l)
  end.

(** ** Lemmas on the reading loops *)
Definition head_is (p : ascii → bool) (s : string) : bool :=
  match s with String c _ => p c | EmptyString => false end.

Definition all_chars (p : ascii → bool) (s : string) : bool := forallb p (list_ascii_of_string s).

(** The two lexers differ in their position and in the text left only. *)
Definition same_source (l l' : lexer) : Prop :=
  l_fail l' = l_fail l ∧ l_peeked l' = l_peeked l.

#[export] Instance same_source_refl : Reflexive same_source.
Proof. by intros l. Qed.
#[export] Instance same_source_trans : Transitive same_source.
Proof. intros a b c [H1 H2] [H3 H4]. split; congruence. Qed.

Lemma arrive_input s l : l_input (arrive s l) = s.
Proof. done. Qed.
Lemma arrive_source s l : same_source l (arrive s l).
Proof. done. Qed.
#[export] Hint Resolve arrive_source : configd.

Lemma read_while_go_spec p s l r l' :
  l_input l = s → read_while_go p s l = (r, l') →
  s = r +:+ l_input l' ∧ all_chars p r = true ∧ head_is p (l_input l') = false ∧ same_source l l'.
Proof.
  revert l r l'. induction s as [|c s IH]; intros l r l' Hl; cbn [read_while_go].
  { intros [= <- <-]. rewrite Hl. done. }
  destruct (p c) eqn:Hp.
  - destruct (read_while_go p s (arrive s l)) as [r1 l1] eqn:E. intros [= <- <-].
    destruct (IH _ _ _ (arrive_input s l) E) as (H1 & H2 & H3 & H4).
    split_and!; [by rewrite string_app_cons; f_equal| |done|].
    + cbn. by rewrite Hp.
    + etrans; [apply (arrive_source s)|exact H4].
  - intros [= <- <-]. rewrite Hl. split_and!; cbn; done.
Qed.

Lemma read_while_spec p l r l' :
  read_while p l = (r, l') →
  l_input l = r +:+ l_input l' ∧ all_chars p r = true ∧ head_is p (l_input l') = false ∧
  same_source l l'.
Proof. by apply read_while_go_spec. Qed.

(** Reading stops where it has to: after the longest run. *)
Lemma read_while_exact p l r rest :
  l_input l = r +:+ rest → all_chars p r = true → head_is p rest = false →
  ∃ l', read_while p l = (r, l') ∧ l_input l' = rest ∧ same_source l l'.
Proof.
  intros Hl Hr Hrest. destruct (read_while p l) as [r1 l1] eqn:E.
  destruct (read_while_spec _ _ _ _ E) as (H1 & H2 & H3 & H4). rewrite Hl in H1.
  assert (Heq : r1 = r ∧ l_input l1 = rest); [|destruct Heq; subst; eauto].
  clear E Hl H4. revert r Hr H1. revert H2.
  induction r1 as [|c r1 IH]; intros H2 [|c' r] Hr H1; cbn in *.
  - done.
  - rewrite string_app_cons, string_app_nil_l in H1. rewrite <- H1 in H3. cbn in H3.
    apply andb_true_iff in Hr as [Hr _]. congruence.
  - rewrite string_app_cons, string_app_nil_l in H1. rewrite H1 in Hrest. cbn in Hrest.
    apply andb_true_iff in H2 as [H2 _]. congruence.
  - rewrite !string_app_cons in H1.
    injection H1 as -> H1. apply andb_true_iff in Hr as [_ Hr]. apply andb_true_iff in H2 as [_ H2].
    destruct (IH H2 r Hr H1) as [-> ->]. done.
Qed.

Lemma readChar_cons c s l :
  l_input l = String c s → l_input (readChar l) = s ∧ same_source l (readChar l).
Proof. intros H. unfold readChar. rewrite H. auto with configd. Qed.

Lemma length_split r rest s :
  s = r +:+ rest → String.length s = (String.length r + String.length rest)%nat.
Proof. intros ->. apply length_string_app. Qed.

Lemma readString_spec l s l' c rest :
  l_input l = String c rest → IsSpace c = false → readString l = (s, l') →
  (String.length (l_input l') < String.length (l_input l))%nat ∧ same_source l l'.
Proof.
  intros Hl Hc. unfold readString. rewrite Hl. destruct (Ascii.eqb c quote) eqn:Hq.
  - destruct (readChar_cons _ _ _ Hl) as [Hi Hs].
    destruct (read_while _ (readChar l)) as [s1 l1] eqn:E.
    apply read_while_spec in E as (H1 & _ & _ & H4). apply length_split in H1. rewrite Hi in H1.
    assert (Hs1 : same_source l l1) by (etrans; eassumption).
    destruct (l_input l1) as [|c' s'] eqn:E1; cbn in H1.
    + intros [= <- <-]. rewrite E1. cbn. split; [lia|done].
    + destruct (Ascii.eqb c' quote); intros [= <- <-].
      * destruct (readChar_cons _ _ _ E1) as [-> H6]. cbn. split; [lia|]. by etrans.
      * rewrite E1. cbn. split; [lia|done].
  - intros E. apply read_while_spec in E as (H1 & _ & H3 & H4).
    split; [|done]. rewrite <- Hl. rewrite (length_split _ _ _ H1). destruct s as [|c1 s1]; [|cbn; lia].
    rewrite string_app_nil_l in H1. rewrite <- H1, Hl in H3. cbn in H3.
    by rewrite Hc in H3.
Qed.

Lemma skipWhitespace_spec l :
  (String.length (l_input (skipWhitespace l)) ≤ String.length (l_input l))%nat ∧
  head_is is_blank (l_input (skipWhitespace l)) = false ∧ same_source l (skipWhitespace l).
Proof.
  unfold skipWhitespace. destruct (read_while is_blank l) as [r l'] eqn:E. cbn.
  apply read_while_spec in E as (H1 & _ & H3 & H4). apply length_split in H1. split_and!; [lia|done..].
Qed.

Lemma skipWhitespace_stay l : head_is is_blank (l_input l) = false → skipWhitespace l = l.
Proof.
  unfold skipWhitespace, read_while. destruct (l_input l) as [|c s]; [done|]. cbn. by intros ->.
Qed.

Lemma skipComment_spec l :
  (String.length (l_input (skipComment l)) ≤ String.length (l_input l))%nat ∧
  (l_input (skipComment l) = "" ∨ ∃ s, l_input (skipComment l) = String newline s) ∧
  same_source l (skipComment l).
Proof.
  unfold skipComment. destruct (read_while _ l) as [r l'] eqn:E. cbn.
  apply read_while_spec in E as (H1 & _ & H3 & H4). apply length_split in H1. split_and!; [lia| |done].
  destruct (l_input l') as [|c s]; [by left|right]. cbn in H3. apply negb_false_iff in H3.
  apply Ascii.eqb_eq in H3 as ->. eauto.
Qed.

(** At the end of a line or of the text the scan does not recurse. *)
Lemma scan_no_rec n1 n2 l :
  (l_input l = "" ∨ ∃ s, l_input l = String newline s) → scan n1 l = scan n2 l.
Proof.
  intros H. unfold scan. rewrite skipWhitespace_stay; [|by destruct H as [->|[s ->]]].
  by destruct H as [->|[s ->]].
Qed.

Lemma scan_ext n1 n2 l :
  (∀ l', l_input l' = "" ∨ (∃ s, l_input l' = String newline s) → same_source l l' → n1 l' = n2 l') →
  scan n1 l = scan n2 l.
Proof.
  intros H. unfold scan. destruct (l_input (skipWhitespace l)) as [|c s]; [done|].
  destruct (Ascii.eqb c newline); [done|]. destruct (Ascii.eqb c "#"); [|done].
  destruct (skipComment_spec (skipWhitespace l)) as (_ & H1 & H2). apply H; [done|].
  etrans; [apply skipWhitespace_spec|exact H2].
Qed.

(** The recursion equation of [NextToken]. *)
Lemma nextToken_eq l :
  nextToken l =
  match l_peeked l with
  | Some tok =>
      (tok, None, {| l_input := l_input l; l_fail := l_fail l; l_line := l_line l;
                     l_column := l_column l; l_peeked := None |})
  | None => scan nextToken l
  end.
Proof.
  unfold nextToken at 1. destruct (l_peeked l) eqn:Hp; [done|]. apply scan_ext.
  intros l' Hend [_ Hp']. unfold nextToken. rewrite Hp', Hp. by apply scan_no_rec.
Qed.

(** ** The laws of the interface *)
Lemma start_is_char c : isIdentifierStart c = true → isIdentifierChar c = true.
Proof.
  unfold isIdentifierStart, isIdentifierChar. intros [H|H]%orb_true_iff; by rewrite H, ?orb_true_r.
Qed.

Lemma start_not_space c : isIdentifierChar c = true → IsSpace c = false.
Proof. by destruct c as [[] [] [] [] [] [] [] []]. Qed.

Lemma start_not_bang c : isIdentifierStart c = true → Ascii.eqb c "!" = false.
Proof. by destruct c as [[] [] [] [] [] [] [] []]. Qed.

Lemma TrimPrefix_bang s : TrimPrefix ("!" +:+ s) "!" = s.
Proof. unfold TrimPrefix, CutPrefix, HasPrefix. by destruct s. Qed.

Lemma TrimPrefix_no_bang c s : Ascii.eqb c "!" = false → TrimPrefix (String c s) "!" = String c s.
Proof.
  intros H. unfold TrimPrefix, CutPrefix, HasPrefix. cbn [String.prefix].
  destruct (ascii_dec "!" c) as [<-|Hne]; [done|reflexivity].
Qed.

(** The identifier branch of [scan]: what it reads is a token of its type. *)
Lemma ident_token_ok c s r l l' line col :
  l_input l = String c s → isIdentifierStart c = true → readIdentifier l = (r, l') →
  token_ok {| Type_ := lookupKeyword r; Literal := r; Line := line; Column := col |} ∧
  (String.length (l_input l') < String.length (l_input l))%nat ∧ same_source l l'.
Proof.
  intros Hl Hc E. apply read_while_spec in E as (H1 & H2 & H3 & H4).
  assert (Hr : ∃ r', r = String c r').
  { rewrite Hl in H1. destruct r as [|c' r'].
    - rewrite string_app_nil_l in H1. rewrite <- H1 in H3. cbn in H3. by rewrite start_is_char in H3.
    - rewrite string_app_cons in H1. injection H1 as <- _. eauto. }
  destruct Hr as [r' ->]. split_and!; [|apply length_split in H1; cbn in *; lia|done].
  unfold token_ok; cbn [Type_ Literal].
  destruct (lookupKeyword (String c r')) eqn:E; try done.
  unfold is_ident. rewrite TrimPrefix_no_bang by (by apply start_not_bang). rewrite E. cbn.
  unfold all_chars in H2. cbn in H2. unfold ident_body. cbn. by rewrite H2.
Qed.

Lemma neg_token_ok r l l' line col :
  readIdentifier l = (r, l') →
  token_ok {| Type_ := lookupKeyword ("!" +:+ r); Literal := "!" +:+ r; Line := line; Column := col |} ∧
  (String.length (l_input l') ≤ String.length (l_input l))%nat ∧ same_source l l'.
Proof.
  intros E. apply read_while_spec in E as (H1 & H2 & H3 & H4).
  split_and!; [|apply length_split in H1; lia|done].
  unfold token_ok; cbn [Type_ Literal].
  destruct (lookupKeyword ("!" +:+ r)) eqn:E; try done.
  unfold is_ident. rewrite TrimPrefix_bang, E. unfold ident_body. unfold all_chars in H2. by rewrite H2.
Qed.

(** What a scan promises, whatever follows a comment. *)
Definition scan_post (l : lexer) (t : Token) (e : option LexError) (l' : lexer) : Prop :=
  (String.length (l_input l') ≤ String.length (l_input l))%nat ∧
  (e = None → at_end (Type_ t) = false →
   (String.length (l_input l') < String.length (l_input l))%nat) ∧
  same_source l l' ∧ (e = None → token_ok t).

Lemma scan_post_lt l t e l' :
  (String.length (l_input l') < String.length (l_input l))%nat → same_source l l' →
  (e = None → token_ok t) → scan_post l t e l'.
Proof. intros. split_and!; [lia|done..]. Qed.

Lemma scan_post_before l0 l t e l' :
  (String.length (l_input l) ≤ String.length (l_input l0))%nat → same_source l0 l →
  scan_post l t e l' → scan_post l0 t e l'.
Proof.
  intros H1 H2 (H3 & H4 & H5 & H6). split_and!; [lia| |by etrans|done].
  intros He Ht. specialize (H4 He Ht). lia.
Qed.

Lemma scan_spec next l t e l' :
  (∀ l t e l', next l = (t, e, l') → scan_post l t e l') →
  scan next l = (t, e, l') → scan_post l t e l'.
Proof.
  intros Hn E. destruct (skipWhitespace_spec l) as (Hw1 & Hw2 & Hw3).
  apply (scan_post_before _ (skipWhitespace l)); [done..|].
  unfold scan in E. revert E Hw2. clear Hw1 Hw3. generalize (skipWhitespace l). clear l. intros l E Hw.
  destruct (l_input l) as [|c s] eqn:Hl.
  { destruct (l_fail l); injection E as <- <- <-; by split_and!. }
  cbn in Hw. destruct (readChar_cons _ _ _ Hl) as [Hi Hsrc].
  assert (Hlen : (String.length (l_input (readChar l)) < String.length (l_input l))%nat)
    by (rewrite Hi, Hl; cbn; lia).
  destruct (Ascii.eqb c newline); [injection E as <- <- <-; by apply scan_post_lt|].
  destruct (Ascii.eqb c "#").
  { destruct (skipComment_spec l) as (H1 & H2 & H3).
    apply (scan_post_before _ (skipComment l)); auto. }
  destruct (isIdentifierStart c) eqn:Hst; cbn [orb] in E.
  { rewrite (start_not_bang _ Hst) in E. destruct (readIdentifier l) as [r l2] eqn:Er.
    injection E as <- <- <-. destruct (ident_token_ok _ _ _ _ _ (l_line l) (l_column l) Hl Hst Er) as (H1 & H2 & H3).
    by apply scan_post_lt. }
  destruct (Ascii.eqb c "!") eqn:Hb.
  { destruct (readIdentifier (readChar l)) as [r l2] eqn:Er. injection E as <- <- <-.
    destruct (neg_token_ok _ _ _ (l_line l) (l_column l) Er) as (H1 & H2 & H3).
    apply scan_post_lt; [lia|by etrans|done]. }
  destruct (_ || _) eqn:Hs in E.
  - destruct (readString l) as [r l2] eqn:Er. injection E as <- <- <-.
    edestruct readString_spec as [H1 H2]; [exact Hl| |exact Er|by apply scan_post_lt].
    revert Hs. by destruct c as [[] [] [] [] [] [] [] []].
  - injection E as <- <- <-. by apply scan_post_lt.
Qed.

Lemma nextToken_spec l t e l' :
  l_peeked l = None → nextToken l = (t, e, l') → scan_post l t e l'.
Proof.
  intros Hp. unfold nextToken. rewrite Hp. apply scan_spec. intros l1 t1 e1 l1'. apply scan_spec.
  intros l2 t2 e2 l2' [= <- <- <-]. by split_and!.
Qed.

Definition lexer_measure (l : lexer) : nat :=
  (String.length (l_input l) + match l_peeked l with Some _ => 1 | None => 0 end)%nat.

(** A stored token came from the text. *)
Definition lexer_ok (l : lexer) : Prop := ∀ t, l_peeked l = Some t → token_ok t.

Lemma nextToken_law l t e l' :
  lexer_ok l → nextToken l = (t, e, l') →
  lexer_ok l' ∧ (lexer_measure l' ≤ lexer_measure l)%nat ∧
  (e = None → at_end (Type_ t) = false → (lexer_measure l' < lexer_measure l)%nat) ∧
  (e = None → token_ok t).
Proof.
  intros Hok E. destruct (l_peeked l) as [tok|] eqn:Hp.
  - unfold nextToken in E. rewrite Hp in E. injection E as <- <- <-.
    unfold lexer_measure. rewrite Hp. cbn. split_and!; [done|lia|lia|auto].
  - destruct (nextToken_spec _ _ _ _ Hp E) as (H1 & H2 & [_ H3] & H4).
    unfold lexer_measure, lexer_ok. rewrite H3, Hp. split_and!; [done|lia| |done].
    intros He Ht. specialize (H2 He Ht). lia.
Qed.

#[export] Instance lexer_LexerLaws : LexerLaws lexer :=
  {| lex_ok := lexer_ok; lex_measure := lexer_measure; NextToken_law := nextToken_law |}.

Lemma NewLexer_ok s fail : lexer_ok (NewLexer s fail).
Proof. done. Qed.
#[export] Hint Resolve NewLexer_ok : configd.

(** Looking ahead does not change what is read next. *)
Lemma Peek_then_next l tok l' :
  Peek l = (inl tok, l') → (nextToken l').1 = (tok, None) ∧ (nextToken l).1 = (tok, None).
Proof.
  unfold Peek. destruct (l_peeked l) as [t|] eqn:Hp.
  - intros [= <- <-]. unfold nextToken. by rewrite Hp.
  - destruct (nextToken l) as [[t [e|]] l1] eqn:E; [done|]. intros [= <- <-]. done.
Qed.
