(* ===== verification/Parser.v ===== *)
(** * Parser: internal/parser/parser.go and conditionals.go

    The recursive-descent parser of [zmconfigd.cf], over any [Lexer].  A parse
    method is a computation in [M]: it threads the parser (lexer, current token,
    errors collected), may stop with an error, and every Go loop is [loop] with
    the fuel of the run, whose exhaustion is the result [None]; the theorems on
    [ParseString] show it never happens with the fuel chosen there.

    The section a method fills through its pointer is passed and returned; a
    method that fails never leaves its section reachable, so the fields it had
    already set are dropped with it. *)
From S2P Require Import Prelude Config Lexer.

(** ** Errors *)
Inductive ParseError :=
  | LexFailure (e : LexError)
  | EmptyConfigFile
  | ReadFileFailed (filepath msg : string)
  | ExpectedSection (line : Z) (got : TokenType)
  | ExpectedSectionName (line : Z)
  | ExpectedHeaderNewline (line : Z)
  | UnknownDirective (literal : string) (line : Z)
  | UnexpectedToken (got : TokenType) (line : Z)
  | ExpectedSourceFile (line : Z)
  | ExpectedDestinationFile (line : Z)
  | ExpectedMode (line : Z)
  | ExpectedVarName (line : Z)
  | ExpectedLocalName (line : Z)
  | ExpectedParameter (directive : string) (line : Z)
  | ExpectedKeyAfter (cfgType directive : string) (line : Z)
  | ExpectedLdapKey (line : Z)
  | UnterminatedIf (condType condKey : string) (line : Z)
  | ExpectedVarAfter (cfgType : string) (line : Z)
  | ExpectedCondType (line : Z) (got : TokenType)
  | ExpectedCondKey (line : Z).

(** ** The parser and its computations *)
Record parser (L : Type) := {
  p_lexer : L;
  p_current : Token;
  p_errors : list ParseError
}.
Arguments p_lexer {L}. Arguments p_current {L}. Arguments p_errors {L}.

Definition M (L A : Type) : Type := parser L → option ((A + ParseError) * parser L).

#[export] Instance M_ret L : MRet (M L) := λ A a p, Some (inl a, p).

#[export] Instance M_bind L : MBind (M L) := λ A B f m p,
  match m p with
  | None => None
  | Some (inr e, p') => Some (inr e, p')
  | Some (inl a, p') => f a p'
  end.

Definition throw {L A} (e : ParseError) : M L A := λ p, Some (inr e, p).

(** [p.current] *)
Definition current {L} : M L Token := λ p, Some (inl (p_current p), p).

(** A Go loop: [step] returns the loop variables after one more turn, or what
    the loop leaves. *)
Fixpoint loop {L A B} (fuel : nat) (step : A → M L (A + B)) (a : A) : M L B :=
  match fuel with
  | O => λ _, None
  | S n => r ← step a; match r with inl a' => loop n step a' | inr b => mret b end
  end.

Definition isAtEnd_ (t : Token) : bool := at_end (Type_ t).
Definition isAtNewline_ (t : Token) : bool := bool_decide (Type_ t = TokenNewline).
Definition isNextSection_ (t : Token) : bool := bool_decide (Type_ t = TokenSection).
Definition is_type (t : Token) (ty : TokenType) : bool := bool_decide (Type_ t = ty).

Definition cons_string (t : Token) : bool := HasPrefix (Literal t) "/".

(** ** The sections under construction *)
Definition new_section (name : string) : MtaConfigSection :=
  {| sec_Name := name; sec_Depends := ∅; sec_Rewrites := ∅; sec_Restarts := ∅;
     sec_RequiredVars := ∅; sec_Postconf := ∅; sec_Postconfd := ∅; sec_Ldap := ∅;
     sec_Proxygen := false; sec_Conditionals := [] |}.

Definition add_depend (d : string) (s : MtaConfigSection) : MtaConfigSection :=
  {| sec_Name := sec_Name s; sec_Depends := <[d := true]> (sec_Depends s);
     sec_Rewrites := sec_Rewrites s; sec_Restarts := sec_Restarts s;
     sec_RequiredVars := sec_RequiredVars s; sec_Postconf := sec_Postconf s;
     sec_Postconfd := sec_Postconfd s; sec_Ldap := sec_Ldap s;
     sec_Proxygen := sec_Proxygen s; sec_Conditionals := sec_Conditionals s |}.

Definition add_rewrite (src : string) (e : RewriteEntry) (s : MtaConfigSection) : MtaConfigSection :=
  {| sec_Name := sec_Name s; sec_Depends := sec_Depends s;
     sec_Rewrites := <[src := e]> (sec_Rewrites s); sec_Restarts := sec_Restarts s;
     sec_RequiredVars := sec_RequiredVars s; sec_Postconf := sec_Postconf s;
     sec_Postconfd := sec_Postconfd s; sec_Ldap := sec_Ldap s;
     sec_Proxygen := sec_Proxygen s; sec_Conditionals := sec_Conditionals s |}.

Definition add_restart (name : string) (s : MtaConfigSection) : MtaConfigSection :=
  {| sec_Name := sec_Name s; sec_Depends := sec_Depends s; sec_Rewrites := sec_Rewrites s;
     sec_Restarts := <[name := true]> (sec_Restarts s);
     sec_RequiredVars := sec_RequiredVars s; sec_Postconf := sec_Postconf s;
     sec_Postconfd := sec_Postconfd s; sec_Ldap := sec_Ldap s;
     sec_Proxygen := sec_Proxygen s; sec_Conditionals := sec_Conditionals s |}.

Definition set_required (f : gmap string string → gmap string string) (s : MtaConfigSection) :
    MtaConfigSection :=
  {| sec_Name := sec_Name s; sec_Depends := sec_Depends s; sec_Rewrites := sec_Rewrites s;
     sec_Restarts := sec_Restarts s; sec_RequiredVars := f (sec_RequiredVars s);
     sec_Postconf := sec_Postconf s; sec_Postconfd := sec_Postconfd s; sec_Ldap := sec_Ldap s;
     sec_Proxygen := sec_Proxygen s; sec_Conditionals := sec_Conditionals s |}.

Definition add_postconf (k v : string) (s : MtaConfigSection) : MtaConfigSection :=
  {| sec_Name := sec_Name s; sec_Depends := sec_Depends s; sec_Rewrites := sec_Rewrites s;
     sec_Restarts := sec_Restarts s; sec_RequiredVars := sec_RequiredVars s;
     sec_Postconf := <[k := v]> (sec_Postconf s); sec_Postconfd := sec_Postconfd s;
     sec_Ldap := sec_Ldap s; sec_Proxygen := sec_Proxygen s;
     sec_Conditionals := sec_Conditionals s |}.

Definition add_postconfd (k v : string) (s : MtaConfigSection) : MtaConfigSection :=
  {| sec_Name := sec_Name s; sec_Depends := sec_Depends s; sec_Rewrites := sec_Rewrites s;
     sec_Restarts := sec_Restarts s; sec_RequiredVars := sec_RequiredVars s;
     sec_Postconf := sec_Postconf s; sec_Postconfd := <[k := v]> (sec_Postconfd s);
     sec_Ldap := sec_Ldap s; sec_Proxygen := sec_Proxygen s;
     sec_Conditionals := sec_Conditionals s |}.

Definition set_ldap (f : gmap string string → gmap string string) (s : MtaConfigSection) :
    MtaConfigSection :=
  {| sec_Name := sec_Name s; sec_Depends := sec_Depends s; sec_Rewrites := sec_Rewrites s;
     sec_Restarts := sec_Restarts s; sec_RequiredVars := sec_RequiredVars s;
     sec_Postconf := sec_Postconf s; sec_Postconfd := sec_Postconfd s; sec_Ldap := f (sec_Ldap s);
     sec_Proxygen := sec_Proxygen s; sec_Conditionals := sec_Conditionals s |}.

Definition set_proxygen (s : MtaConfigSection) : MtaConfigSection :=
  {| sec_Name := sec_Name s; sec_Depends := sec_Depends s; sec_Rewrites := sec_Rewrites s;
     sec_Restarts := sec_Restarts s; sec_RequiredVars := sec_RequiredVars s;
     sec_Postconf := sec_Postconf s; sec_Postconfd := sec_Postconfd s; sec_Ldap := sec_Ldap s;
     sec_Proxygen := true; sec_Conditionals := sec_Conditionals s |}.

Definition add_conditional (c : Conditional) (s : MtaConfigSection) : MtaConfigSection :=
  {| sec_Name := sec_Name s; sec_Depends := sec_Depends s; sec_Rewrites := sec_Rewrites s;
     sec_Restarts := sec_Restarts s; sec_RequiredVars := sec_RequiredVars s;
     sec_Postconf := sec_Postconf s; sec_Postconfd := sec_Postconfd s; sec_Ldap := sec_Ldap s;
     sec_Proxygen := sec_Proxygen s; sec_Conditionals := sec_Conditionals s ++ [c] |}.

Definition set_cond (c : Conditional) (pc pd rv : gmap string string) : Conditional :=
  {| cond_Type := cond_Type c; cond_Key := cond_Key c; cond_Negated := cond_Negated c;
     cond_Postconf := pc; cond_Postconfd := pd; cond_RequiredVars := rv |}.

(** ** Lookups of POSTCONF values *)
Record Lookup_ := { lk_name : string; lk_typ : string }.

Definition no_lookup : Lookup_ := {| lk_name := ""; lk_typ := "" |}.

Definition register (l : Lookup_) (vars : gmap string string) : gmap string string :=
  if String.eqb (lk_name l) "" then vars else <[lk_name l := lk_typ l]> vars.

Definition formatLookup (cfgType name : string) (exact : bool) : string :=
  if exact && String.eqb cfgType "FILE" then "FILE " +:+ name else cfgType +:+ ":" +:+ name.

Definition isLdapLocalValue (value : string) : bool :=
  HasPrefix value "LOCAL:" || HasPrefix value "MAPLOCAL:".

(** [lookupType] on the current token. *)
Definition lookup_types (allowMapLocal : bool) : list string :=
  ["VAR"; "LOCAL"; "FILE"] ++ (if allowMapLocal then ["MAPLOCAL"] else []).

Definition lookupType (t : Token) (allowMapLocal : bool) : string * bool :=
  match Type_ t with
  | TokenVar => ("VAR", true)
  | TokenLocal => ("LOCAL", true)
  | TokenFile => ("FILE", true)
  | TokenMaplocal => ("MAPLOCAL", allowMapLocal)
  | TokenIdentifier | TokenString =>
      if existsb (HasPrefix (Literal t)) (lookup_types allowMapLocal) then (Literal t, true)
      else ("", false)
  | _ => ("", false)
  end.

Section parser.
Context {L : Type} `{Lexer L}.
Variable fuel : nat.

(** ** Moving through the tokens *)
Definition advance : M L unit := λ p,
  match NextToken (p_lexer p) with
  | (_, Some e, l) =>
      Some (inl tt,
            {| p_lexer := l;
               p_current := {| Type_ := TokenError; Literal := LexError_Error e; Line := 0; Column := 0 |};
               p_errors := p_errors p ++ [LexFailure e] |})
  | (tok, None, l) =>
      Some (inl tt, {| p_lexer := l; p_current := tok; p_errors := p_errors p |})
  end.

Definition skip_until (stop : Token → bool) : M L unit :=
  loop fuel (λ _ : unit,
    t ← current;
    if stop t || isAtEnd_ t then mret (inr tt) else _ ← advance; mret (inl tt)) tt.

Definition skipToNewline : M L unit := skip_until isAtNewline_.
Definition skipToNextSection : M L unit := skip_until isNextSection_.

(** The names up to the first token that is not an identifier. *)
Definition read_names {A} (add : string → A → A) (a : A) : M L A :=
  loop fuel (λ a,
    t ← current;
    if is_type t TokenIdentifier then _ ← advance; mret (inl (add (Literal t) a))
    else mret (inr a)) a.

Definition readPath : M L string :=
  t ← current;
  if isAtNewline_ t || isAtEnd_ t then mret "" else
  if is_type t TokenString && cons_string t then _ ← advance; mret (Literal t)
  else if is_type t TokenIdentifier then
    _ ← advance;
    t2 ← current;
    if negb (isAtNewline_ t2) && negb (isAtEnd_ t2) && is_type t2 TokenString && cons_string t2
    then _ ← advance; mret (Literal t +:+ Literal t2)
    else mret (Literal t)
  else if is_type t TokenString then _ ← advance; mret (Literal t)
  else mret "".

(** ** Values *)

(** One turn of [parseValue]: a keyword takes the identifier after it. *)
Definition value_key (prefix : string) (parts : list string) : M L (list string + list string) :=
  _ ← advance;
  t ← current;
  if is_type t TokenIdentifier then _ ← advance; mret (inl (parts ++ [prefix +:+ Literal t]))
  else mret (inl parts).

Definition parseValue_step (parts : list string) : M L (list string + list string) :=
  t ← current;
  if isAtNewline_ t || isAtEnd_ t then mret (inr parts) else
  match Type_ t with
  | TokenVar => value_key "VAR:" parts
  | TokenLocal => value_key "LOCAL:" parts
  | TokenFile => _ ← advance; path ← readPath; mret (inl (parts ++ ["FILE " +:+ path]))
  | TokenMaplocal => value_key "MAPLOCAL:" parts
  | TokenIdentifier | TokenString => _ ← advance; mret (inl (parts ++ [Literal t]))
  | _ => mret (inr parts)
  end.

Definition parseValue : M L string :=
  parts ← loop fuel parseValue_step []; mret (Join parts " ").

Definition parseLiteralValue (allowMapLocal : bool) : M L string :=
  t ← current;
  if negb (is_type t TokenMaplocal) || allowMapLocal then parseValue
  else
    _ ← advance;
    rest ← parseValue;
    mret (if String.eqb rest "" then Literal t else Literal t +:+ " " +:+ rest).

Definition readLookupKey (cfgType : string) (exact : bool) : M L string :=
  if exact && String.eqb cfgType "FILE" then readPath
  else
    t ← current;
    if negb (is_type t TokenIdentifier) && negb (is_type t TokenString) then mret ""
    else _ ← advance; mret (Literal t).

Definition parsePostconfLine (directive : string) (allowMapLocal : bool) :
    M L (string * string * Lookup_) :=
  _ ← advance;
  t ← current;
  if negb (is_type t TokenIdentifier) then throw (ExpectedParameter directive (Line t)) else
  let key := Literal t in
  _ ← advance;
  t ← current;
  if isAtNewline_ t || isAtEnd_ t then mret (key, "", no_lookup) else
  let '(cfgType, ok) := lookupType t allowMapLocal in
  if negb ok then value ← parseLiteralValue allowMapLocal; mret (key, value, no_lookup) else
  let line := Line t in
  let exact := negb (is_type t TokenIdentifier) && negb (is_type t TokenString) in
  _ ← advance;
  name ← readLookupKey cfgType exact;
  if String.eqb name "" then throw (ExpectedKeyAfter cfgType directive line)
  else mret (key, formatLookup cfgType name exact, {| lk_name := name; lk_typ := cfgType |}).

(** ** Directives *)
Definition parseRewrite (s : MtaConfigSection) : M L MtaConfigSection :=
  _ ← advance;
  source ← readPath;
  if String.eqb source "" then t ← current; throw (ExpectedSourceFile (Line t)) else
  dest ← readPath;
  if String.eqb dest "" then t ← current; throw (ExpectedDestinationFile (Line t)) else
  t ← current;
  mode ← (if is_type t TokenMode then
            _ ← advance;
            t ← current;
            if negb (is_type t TokenString) && negb (is_type t TokenIdentifier)
            then throw (ExpectedMode (Line t))
            else _ ← advance; mret (Literal t)
          else mret "");
  _ ← skipToNewline;
  mret (add_rewrite source {| re_Value := dest; re_Mode := mode |} s).

Definition parseRequiredVarDirective (s : MtaConfigSection) (configType : string)
    (err : Z → ParseError) : M L MtaConfigSection :=
  _ ← advance;
  t ← current;
  if negb (is_type t TokenIdentifier) then throw (err (Line t)) else
  _ ← advance;
  _ ← skipToNewline;
  mret (set_required <[Literal t := configType]> s).

Definition parseVar s := parseRequiredVarDirective s "VAR" ExpectedVarName.
Definition parseLocal s := parseRequiredVarDirective s "LOCAL" ExpectedLocalName.
Definition parseMapfile s := parseRequiredVarDirective s "MAPFILE" ExpectedVarName.
Definition parseMaplocal s := parseRequiredVarDirective s "MAPLOCAL" ExpectedVarName.

Definition parsePostconf (s : MtaConfigSection) : M L MtaConfigSection :=
  '(key, value, lk) ← parsePostconfLine "POSTCONF" true;
  _ ← skipToNewline;
  mret (set_required (register lk) (add_postconf key value s)).

Definition parsePostconfd (s : MtaConfigSection) : M L MtaConfigSection :=
  '(key, _, lk) ← parsePostconfLine "POSTCONFD" false;
  _ ← skipToNewline;
  mret (set_required (register lk) (add_postconfd key "" s)).

Definition parseRestart (s : MtaConfigSection) : M L MtaConfigSection :=
  _ ← advance;
  s ← read_names add_restart s;
  _ ← skipToNewline;
  mret s.

Definition parseLdapDirective : M L (string * string * bool) :=
  _ ← advance;
  t ← current;
  if negb (is_type t TokenIdentifier) then throw (ExpectedLdapKey (Line t)) else
  _ ← advance;
  value ← parseValue;
  _ ← skipToNewline;
  mret (Literal t, value, isLdapLocalValue value).

Definition parseLdap (s : MtaConfigSection) : M L MtaConfigSection :=
  r ← parseLdapDirective;
  let '(key, value, ok) := (r : string * string * bool) in
  mret (if ok then set_ldap <[key := value]> s else s).

Definition parseProxygen (s : MtaConfigSection) : M L MtaConfigSection :=
  _ ← advance;
  _ ← skipToNewline;
  mret (set_proxygen s).

(** ** Conditionals *)
Definition parseConditionalHeader : M L (string * string * bool) :=
  _ ← advance;
  t ← current;
  if negb (is_type t TokenService) && negb (is_type t TokenVar)
  then throw (ExpectedCondType (Line t) (Type_ t)) else
  let condType := ToUpper (Literal t) in
  _ ← advance;
  t ← current;
  if negb (is_type t TokenIdentifier) then throw (ExpectedCondKey (Line t)) else
  let negated := HasPrefix (Literal t) "!" in
  let condKey := if negated then drop_string 1 (Literal t) else Literal t in
  _ ← advance;
  mret (condType, condKey, negated).

Definition parseConditionalRequiredVar (c : Conditional) : M L Conditional :=
  t ← current;
  let cfgType := if is_type t TokenLocal then "LOCAL" else "VAR" in
  let line := Line t in
  _ ← advance;
  t ← current;
  if negb (is_type t TokenIdentifier) then throw (ExpectedVarAfter cfgType line)
  else mret (set_cond c (cond_Postconf c) (cond_Postconfd c)
               (<[Literal t := cfgType]> (cond_RequiredVars c))).

Definition parseConditionalLine (c : Conditional) : M L Conditional :=
  t ← current;
  match Type_ t with
  | TokenPostconf =>
      '(key, value, lk) ← parsePostconfLine "POSTCONF" false;
      _ ← skipToNewline;
      mret (set_cond c (<[key := value]> (cond_Postconf c)) (cond_Postconfd c)
              (register lk (cond_RequiredVars c)))
  | TokenPostconfd =>
      '(key, _, lk) ← parsePostconfLine "POSTCONFD" false;
      _ ← skipToNewline;
      mret (set_cond c (cond_Postconf c) (<[key := ""]> (cond_Postconfd c))
              (register lk (cond_RequiredVars c)))
  | TokenVar | TokenLocal => parseConditionalRequiredVar c
  | _ => _ ← skipToNewline; mret c
  end.

Definition parseConditionalBody_step (c : Conditional) : M L (Conditional + Conditional) :=
  t ← current;
  match Type_ t with
  | TokenNewline => _ ← advance; mret (inl c)
  | TokenFi => _ ← skipToNewline; mret (inr c)
  | TokenEOF | TokenError | TokenSection =>
      throw (UnterminatedIf (cond_Type c) (cond_Key c) (Line t))
  | _ => c' ← parseConditionalLine c; mret (inl c')
  end.

Definition parseConditionalBody (c : Conditional) : M L Conditional :=
  loop fuel parseConditionalBody_step c.

Definition parseConditional (s : MtaConfigSection) : M L MtaConfigSection :=
  '(condType, condKey, negated) ← parseConditionalHeader;
  _ ← skipToNewline;
  cond ← parseConditionalBody
    {| cond_Type := condType; cond_Key := condKey; cond_Negated := negated;
       cond_Postconf := ∅; cond_Postconfd := ∅; cond_RequiredVars := ∅ |};
  mret (add_conditional cond s).

(** ** Sections *)
Definition parseDirective (s : MtaConfigSection) : M L MtaConfigSection :=
  t ← current;
  match Type_ t with
  | TokenRewrite => parseRewrite s
  | TokenVar => parseVar s
  | TokenLocal => parseLocal s
  | TokenMapfile => parseMapfile s
  | TokenMaplocal => parseMaplocal s
  | TokenPostconf => parsePostconf s
  | TokenPostconfd => parsePostconfd s
  | TokenRestart => parseRestart s
  | TokenProxygen => parseProxygen s
  | TokenIf => parseConditional s
  | TokenFi => _ ← skipToNewline; mret s
  | TokenIdentifier =>
      if EqualFold (Literal t) "LDAP" then parseLdap s
      else throw (UnknownDirective (Literal t) (Line t))
  | ty => throw (UnexpectedToken ty (Line t))
  end.

Definition parseBody_step (s : MtaConfigSection) : M L (MtaConfigSection + MtaConfigSection) :=
  t ← current;
  if isAtEnd_ t || isNextSection_ t then mret (inr s) else
  if isAtNewline_ t then _ ← advance; mret (inl s)
  else s' ← parseDirective s; mret (inl s').

Definition parseBody (s : MtaConfigSection) : M L MtaConfigSection := loop fuel parseBody_step s.

Definition skipNewlines : M L unit :=
  loop fuel (λ _ : unit,
    t ← current;
    if isAtNewline_ t then _ ← advance; mret (inl tt) else mret (inr tt)) tt.

Definition add_section (c : MtaConfig) (name : string) (s : MtaConfigSection) : MtaConfig :=
  {| mta_Sections := <[name := s]> (mta_Sections c) |}.

Definition parseSection (c : MtaConfig) : M L MtaConfig :=
  _ ← skipNewlines;
  t ← current;
  if isAtEnd_ t then mret c else
  if negb (is_type t TokenSection) then throw (ExpectedSection (Line t) (Type_ t)) else
  _ ← advance;
  t ← current;
  if negb (is_type t TokenIdentifier) then throw (ExpectedSectionName (Line t)) else
  let sectionName := Literal t in
  _ ← advance;
  t ← current;
  section ← (if is_type t TokenDepends
             then _ ← advance; read_names add_depend (new_section sectionName)
             else mret (new_section sectionName));
  t ← current;
  if negb (is_type t TokenNewline) then throw (ExpectedHeaderNewline (Line t)) else
  _ ← advance;
  section ← parseBody section;
  mret (add_section c sectionName section).

(** [if err := m; err != nil { p.errors = append(p.errors, err); h() }] *)
Definition recover {A} (m : M L A) (h : M L A) : M L A := λ p,
  match m p with
  | Some (inr e, p') =>
      h {| p_lexer := p_lexer p'; p_current := p_current p'; p_errors := p_errors p' ++ [e] |}
  | r => r
  end.

Definition parseSections_step (c : MtaConfig) : M L (MtaConfig + MtaConfig) :=
  t ← current;
  if isAtEnd_ t then mret (inr c)
  else c' ← recover (parseSection c) (_ ← skipToNextSection; mret c); mret (inl c').

Definition parseSections (c : MtaConfig) : M L MtaConfig := loop fuel parseSections_step c.
End parser.

(** ** [NewParser], [ParseString] and [Parse] *)
Definition NewParser {L} `{Lexer L} (l : L) : parser L :=
  let p := {| p_lexer := l; p_current := {| Type_ := TokenEOF; Literal := ""; Line := 0; Column := 0 |};
              p_errors := [] |} in
  match advance p with Some (_, p') => p' | None => p end.

(** The configuration, if any, and the errors, if any, with the parser after the
    run.  A parser keeps its errors: a second run reports them again. *)
Definition parse_fuel (content : string) : nat := (String.length content + 2)%nat.

Definition ParseString (p : parser lexer) (content : string) :
    option ((option MtaConfig * list ParseError) * parser lexer) :=
  if String.eqb content "" then Some ((None, [EmptyConfigFile]), p) else
  let p0 := {| p_lexer := NewLexer content None; p_current := p_current p; p_errors := p_errors p |} in
  match (_ ← advance; parseSections (parse_fuel content) {| mta_Sections := ∅ |}) p0 with
  | Some (inl c, p') => Some ((Some c, p_errors p'), p')
  | Some (inr e, p') => Some ((None, [e]), p')
  | None => None
  end.

(** [data] is what [os.ReadFile] returns for the path. *)
Definition Parse (p : parser lexer) (filepath : string) (data : string + string) :
    option ((option MtaConfig * list ParseError) * parser lexer) :=
  match data with
  | inr msg => Some ((None, [ReadFileFailed filepath msg]), p)
  | inl content => ParseString p content
  end.

(** ** Evaluation *)
Definition cf_line (s : string) : string := s +:+ String newline "".

Definition sample_cf : string :=
  cf_line "# mta" +:+ cf_line "SECTION mta DEPENDS amavis opendkim" +:+
  cf_line "  REWRITE conf/amavisd.conf.in conf/amavisd.conf MODE 0644" +:+
  cf_line "  VAR zimbraMtaMyHostname" +:+
  cf_line "  POSTCONF myhostname VAR zimbraMtaMyHostname" +:+
  cf_line "  if SERVICE !antispam" +:+ cf_line "    POSTCONF content_filter" +:+ cf_line "  fi" +:+
  cf_line "  LDAP ldap_common_loglevel LOCAL ldap_common_loglevel" +:+
  cf_line "  RESTART mta" +:+ cf_line "SECTION proxy" +:+ cf_line "  PROXYGEN".
