(* ===== verification/ParserProps.v ===== *)
(** * ParserProps: the parser terminates and its result is well formed

    The proofs are against the laws of [Lexer], never against a lexer: every
    token that is not the end shrinks the input, so every loop of the parser
    stops, whatever the text. *)
From S2P Require Import Prelude Config Lexer Parser.

Section runs.
Context {L : Type} `{LexerLaws L}.
Implicit Types p : parser L.

(** The input a parser has left, the current token included. *)
Definition mu p : nat :=
  (lex_measure (p_lexer p) + if at_end (Type_ (p_current p)) then 0 else 1)%nat.

Definition pok p : Prop := lex_ok (p_lexer p) ∧ token_ok (p_current p).

(** [m] ends, from [p], with at most [n] of the input left, and with a result
    that satisfies [P] unless it is an error. *)
Definition runs {A} (m : M L A) p (n : nat) (P : A → parser L → Prop) : Prop :=
  match m p with
  | None => False
  | Some (r, p') =>
      pok p' ∧ (mu p' ≤ n)%nat ∧ match r with inl a => P a p' | inr _ => True end
  end.

Lemma runs_weaken {A} (m : M L A) p n n' (P Q : A → parser L → Prop) :
  (n ≤ n')%nat → (∀ a p', (mu p' ≤ n)%nat → P a p' → Q a p') → runs m p n P → runs m p n' Q.
Proof.
  intros Hn HPQ. unfold runs. destruct (m p) as [[[a|e] p']|]; [|intuition lia|done].
  intros (H1 & H2 & H3). split_and!; auto with lia.
Qed.

Lemma runs_ret {A} (a : A) p n (P : A → parser L → Prop) :
  pok p → (mu p ≤ n)%nat → P a p → runs (mret a) p n P.
Proof. by intros. Qed.

Lemma runs_throw {A} e p n (P : A → parser L → Prop) :
  pok p → (mu p ≤ n)%nat → runs (throw e) p n P.
Proof. by intros. Qed.

Lemma runs_current p n (P : Token → parser L → Prop) :
  pok p → (mu p ≤ n)%nat → P (p_current p) p → runs current p n P.
Proof. by intros. Qed.

Lemma runs_bind {A B} (m : M L A) (f : A → M L B) p n n1 (P : A → parser L → Prop) Q :
  runs m p n1 P → (n1 ≤ n)%nat →
  (∀ a p', pok p' → (mu p' ≤ n1)%nat → P a p' → runs (f a) p' n Q) →
  runs (m ≫= f) p n Q.
Proof.
  intros Hm Hn Hf. unfold runs in *. unfold mbind, M_bind.
  destruct (m p) as [[[a|e] p']|]; [|intuition lia|done].
  destruct Hm as (H1 & H2 & H3). by apply Hf.
Qed.

(** Reading the current token changes nothing. *)
Lemma runs_bind_current {B} (f : Token → M L B) p n Q :
  runs (f (p_current p)) p n Q → runs (current ≫= f) p n Q.
Proof. done. Qed.

Lemma runs_advance p n :
  pok p → at_end (Type_ (p_current p)) = false → (mu p ≤ S n)%nat → runs advance p n (λ _ _, True).
Proof.
  intros [Hl Ht] Hend Hn. unfold runs, advance, mu in *. rewrite Hend in Hn.
  destruct (NextToken (p_lexer p)) as [[t e] l'] eqn:E.
  destruct (NextToken_law _ _ _ _ Hl E) as (H1 & H2 & H3 & H4).
  destruct e as [e|]; cbn; (split; [split; [done|by try apply H4]|]); split; try done.
  - lia.
  - destruct (at_end (Type_ t)); [lia|]. specialize (H3 eq_refl eq_refl). lia.
Qed.

(** A loop each of whose turns uses up input. *)
Lemma runs_loop_inv {A B} fuel (step : A → M L (A + B)) (I : A → parser L → Prop) P a p :
  (∀ a p, pok p → I a p →
     runs (step a) p (mu p) (λ r p', match r with inl a' => I a' p' ∧ (mu p' < mu p)%nat | inr b => P b p' end)) →
  pok p → I a p → (mu p < fuel)%nat → runs (loop fuel step a) p (mu p) P.
Proof.
  intros Hstep. revert a p. induction fuel as [|fuel IH]; intros a p Hp Ha Hfuel; [lia|].
  cbn [loop]. eapply runs_bind; [by apply Hstep|lia|].
  intros [a'|b] p' Hp' Hmu; [intros [Ha' Hlt]|intros Hb].
  - eapply runs_weaken; [| |apply IH]; eauto with lia.
  - by apply runs_ret.
Qed.

Lemma runs_loop {A B} fuel (step : A → M L (A + B)) (I : A → Prop) P a p :
  (∀ a p, pok p → I a →
     runs (step a) p (mu p) (λ r p', match r with inl a' => I a' ∧ (mu p' < mu p)%nat | inr b => P b p' end)) →
  pok p → I a → (mu p < fuel)%nat → runs (loop fuel step a) p (mu p) P.
Proof. intros Hstep. apply (runs_loop_inv _ _ (λ a _, I a)). auto. Qed.
End runs.

#[export] Hint Resolve runs_ret runs_throw : configd.

(** Tokens of a known type are not the end. *)
Lemma is_type_not_end t ty : is_type t ty = true → at_end ty = false → at_end (Type_ t) = false.
Proof. unfold is_type. by intros ->%bool_decide_eq_true. Qed.

(** ** Moving through the tokens *)
Section moves.
Context {L : Type} `{LexerLaws L}.
Implicit Types p : parser L.
Variable fuel : nat.

Lemma runs_bind_advance {B} (f : unit → M L B) p n Q :
  pok p → at_end (Type_ (p_current p)) = false → (mu p ≤ S n)%nat →
  (∀ p', pok p' → (mu p' < mu p)%nat → runs (f tt) p' n Q) →
  runs (advance ≫= f) p n Q.
Proof.
  intros Hp He Hn Hf. destruct (mu p) as [|k] eqn:Ek.
  { unfold mu in Ek. rewrite He in Ek. lia. }
  eapply (runs_bind _ _ _ _ k); [apply runs_advance; [done|done|lia]|lia|].
  intros [] p' Hp' Hmu _. apply Hf; [done|lia].
Qed.

Lemma runs_skip_until stop p :
  pok p → (mu p < fuel)%nat →
  runs (skip_until fuel stop) p (mu p)
    (λ _ p', stop (p_current p) = false → at_end (Type_ (p_current p)) = false → (mu p' < mu p)%nat).
Proof.
  intros Hp Hf. unfold skip_until. destruct fuel as [|k]; [lia|].
  assert (Hstep : ∀ (u : unit) p, pok p → True → runs (t ← current;
    if stop t || isAtEnd_ t then mret (inr tt) else _ ← advance; mret (inl tt)) p (mu p)
    (λ (r : unit + unit) p', match r with inl _ => True ∧ (mu p' < mu p)%nat | inr _ => True end)).
  { intros [] q Hq _. apply runs_bind_current. unfold isAtEnd_.
    destruct (stop _ || at_end _) eqn:E; [by apply runs_ret|]. apply orb_false_iff in E as [_ E].
    apply runs_bind_advance; auto with lia. intros q' Hq' Hlt. apply runs_ret; auto with lia. }
  cbn [loop]. destruct (stop (p_current p) || at_end (Type_ (p_current p))) eqn:Hc.
  - unfold runs, mbind, M_bind, current, isAtEnd_. rewrite Hc. cbn. split_and!; try done.
    intros E1 E2. by rewrite E1, E2 in Hc.
  - assert (H2 : runs advance p (pred (mu p)) (λ _ _, True)).
    { apply orb_false_iff in Hc as [_ Hc]. apply runs_advance; [done|done|lia]. }
    assert (Hpos : (0 < mu p)%nat).
    { apply orb_false_iff in Hc as [_ Hc]. unfold mu. rewrite Hc. lia. }
    eapply (runs_bind _ _ _ _ (pred (mu p)) (λ r p', r = inl tt)); [|lia|].
    + apply runs_bind_current. unfold isAtEnd_. rewrite Hc. eapply runs_bind; [exact H2|lia|].
      intros. apply runs_ret; [done|lia|done].
    + intros r p' Hp' Hmu ->. apply (runs_weaken _ _ (mu p') _ (λ _ _, True)).
      * lia.
      * intros _ p'' Hle _ _ _. lia.
      * apply (runs_loop _ _ (λ _, True)); [exact Hstep|done|done|lia].
Qed.

Lemma skip_never_fails stop p e p' : skip_until fuel stop p = Some (inr e, p') → False.
Proof.
  unfold skip_until. revert p. induction fuel as [|k IH]; intros p; [done|]. cbn [loop].
  unfold mbind, M_bind, current, advance in *.
  destruct (stop (p_current p) || isAtEnd_ (p_current p)); [done|].
  destruct (NextToken (p_lexer p)) as [[t [e'|]] l']; apply IH.
Qed.

Lemma runs_bind_skip {B} stop (f : unit → M L B) p n Q :
  pok p → (mu p < fuel)%nat → (mu p ≤ n)%nat →
  (∀ p', pok p' → (mu p' ≤ mu p)%nat → runs (f tt) p' n Q) →
  runs (skip_until fuel stop ≫= f) p n Q.
Proof. intros Hp Hf Hn HQ. eapply runs_bind; [by apply runs_skip_until|done|]. intros [] p' ? ? _. auto. Qed.

(** Skipping from a token that is not to stop at moves forward. *)
Lemma runs_bind_skip_lt {B} stop (f : unit → M L B) p n Q :
  pok p → (mu p < fuel)%nat → stop (p_current p) = false → at_end (Type_ (p_current p)) = false →
  (mu p ≤ S n)%nat →
  (∀ p', pok p' → (mu p' < mu p)%nat → runs (f tt) p' n Q) →
  runs (skip_until fuel stop ≫= f) p n Q.
Proof.
  intros Hp Hf Hs He Hn HQ. pose proof (runs_skip_until stop p Hp Hf) as Hr.
  unfold runs in Hr |- *. unfold mbind, M_bind.
  destruct (skip_until fuel stop p) as [[[[]|e] p']|] eqn:E; [| |done].
  - destruct Hr as (H1 & H2 & H3). apply HQ; auto.
  - by apply skip_never_fails in E.
Qed.

Lemma runs_read_names {A} (add : string → A → A) (I : A → Prop) a p :
  (∀ x a, is_ident x = true → I a → I (add x a)) → pok p → I a → (mu p < fuel)%nat →
  runs (read_names fuel add a) p (mu p) (λ a' _, I a').
Proof.
  intros Hadd Hp Ha Hf. apply (runs_loop _ _ I); try done. clear p Hp Ha Hf. intros b p Hp Hb.
  apply runs_bind_current. destruct (is_type _ _) eqn:E; [|by apply runs_ret].
  apply runs_bind_advance; [done|by eapply is_type_not_end|lia|]. intros p' Hp' Hlt.
  apply runs_ret; [done|lia|]. split; [|done]. apply Hadd; [|done].
  destruct Hp as [_ Ht]. unfold token_ok in Ht. unfold is_type in E.
  by apply bool_decide_eq_true in E as E'; rewrite E' in Ht.
Qed.
End moves.

(** One step of a run: the goals left are about the results. *)
Ltac not_end :=
  unfold is_type, isAtEnd_, isAtNewline_, isNextSection_ in *;
  match goal with
  | |- at_end (Type_ ?t) = false => destruct (Type_ t) eqn:?; first [reflexivity|exfalso; congruence|exfalso; done]
  end.

Ltac run_step :=
  match goal with
  | |- runs (current ≫= _) _ _ _ => apply runs_bind_current; cbn beta
  | |- runs (advance ≫= _) _ _ _ =>
      apply runs_bind_advance; [assumption|not_end|lia|intros ?p ?Hp ?Hlt]
  | |- runs (skipToNewline _ ≫= _) _ _ _ =>
      apply runs_bind_skip; [assumption|lia|lia|intros ?p ?Hp ?Hlt]
  | |- runs (mret _) _ _ _ => apply runs_ret; [assumption|lia|]
  | |- runs (throw _) _ _ _ => apply runs_throw; [assumption|lia]
  | |- runs (if ?b then _ else _) _ _ _ => destruct b eqn:?
  end.
Ltac run := repeat run_step.

(** ** Values and lookups *)
Definition lookup_free (allow : bool) (v : string) : bool :=
  negb (existsb (HasPrefix v) (lookup_types allow)).

Definition is_lookup_type (allow : bool) (ty : string) : bool :=
  existsb (HasPrefix ty) (lookup_types allow).

Lemma prefix_word q w r :
  all_chars (λ c, negb (Ascii.eqb c space)) q = true →
  String.prefix q (w +:+ String space r) = String.prefix q w.
Proof.
  revert w. induction q as [|c q IH]; intros w; [by destruct w|]. unfold all_chars. cbn [list_ascii_of_string forallb].
  intros [Hc Hq]%andb_true_iff. destruct w as [|c' w].
  - rewrite string_app_nil_l. cbn [String.prefix]. destruct (ascii_dec c space) as [->|]; [|done].
    by rewrite Ascii.eqb_refl in Hc.
  - rewrite string_app_cons. cbn [String.prefix]. destruct (ascii_dec c c'); [by apply IH|done].
Qed.

Lemma lookup_free_words allow w r :
  lookup_free allow w = true → lookup_free allow (Join (w :: r) " ") = true.
Proof.
  intros Hw. destruct r as [|w2 r]; [done|]. unfold lookup_free in *.
  change (Join (w :: w2 :: r) " ") with (w +:+ String space (Join (w2 :: r) " ")).
  destruct allow; cbn [lookup_types existsb app] in *; unfold HasPrefix in *;
    by rewrite !prefix_word by done.
Qed.

Lemma maplocal_word_free w : lookupKeyword w = TokenMaplocal → lookup_free false w = true.
Proof.
  intros E. assert (Hu : ToUpper w = "MAPLOCAL").
  { unfold lookupKeyword in E. cbn [assoc keywords] in E.
    repeat match type of E with context [String.eqb ?a ?b] => destruct (String.eqb_spec a b); [by auto|] end.
    done. }
  destruct w as [|c w]; [done|]. unfold ToUpper in Hu. cbn in Hu. injection Hu as Hc _.
  by destruct c as [[] [] [] [] [] [] [] []].
Qed.

Section values.
Context {L : Type} `{LexerLaws L}.
Implicit Types p : parser L.
Variable fuel : nat.

Lemma current_ident p :
  pok p → is_type (p_current p) TokenIdentifier = true → is_ident (Literal (p_current p)) = true.
Proof. intros [_ Ht] E%bool_decide_eq_true. unfold token_ok in Ht. by rewrite E in Ht. Qed.

Lemma runs_readPath p : pok p → runs readPath p (mu p) (λ _ _, True).
Proof. intros Hp. unfold readPath. run; done. Qed.

Lemma runs_bind_readPath {B} (f : string → M L B) p n Q :
  pok p → (mu p ≤ n)%nat →
  (∀ s p', pok p' → (mu p' ≤ mu p)%nat → runs (f s) p' n Q) →
  runs (readPath ≫= f) p n Q.
Proof. intros Hp Hn Hf. eapply runs_bind; [by apply runs_readPath|done|]. auto. Qed.

(** The words a value is made of, when it does not start with a keyword. *)
Definition value_words (t0 : Token) (parts : list string) : Prop :=
  ∃ r, parts = Literal t0 :: r ∧ (Type_ t0 = TokenIdentifier ∨ Type_ t0 = TokenString).

Definition lookup_token (t : Token) : bool :=
  match Type_ t with TokenVar | TokenLocal | TokenFile | TokenMaplocal => true | _ => false end.

Lemma value_words_app t0 parts x : value_words t0 parts → value_words t0 (parts ++ [x]).
Proof. intros (r & -> & Ht). by exists (r ++ [x]). Qed.

Lemma runs_value_key prefix parts p t0 :
  pok p → at_end (Type_ (p_current p)) = false → value_words t0 parts ∨ lookup_token t0 = true →
  runs (value_key prefix parts) p (mu p) (λ r p', match r with
    | inl parts' => (value_words t0 parts' ∨ lookup_token t0 = true) ∧ (mu p' < mu p)%nat
    | inr _ => False end).
Proof.
  intros Hp He Hw. unfold value_key. run; split; try lia; [|done].
  destruct Hw; [left; by apply value_words_app|by right].
Qed.

(** What [parseValue] returns from the token [t0]: nothing, or the words that
    start with it; nothing is said when [t0] is a keyword of a lookup. *)
Lemma runs_parseValue p :
  pok p → (mu p < fuel)%nat →
  runs (parseValue fuel) p (mu p) (λ v _,
    v = "" ∨ (∃ parts, v = Join parts " " ∧ value_words (p_current p) parts) ∨
    lookup_token (p_current p) = true).
Proof.
  intros Hp Hf. set (t0 := p_current p). unfold parseValue.
  eapply (runs_bind _ _ _ _ (mu p) (λ parts _,
    parts = [] ∨ value_words t0 parts ∨ lookup_token t0 = true)); [|lia|].
  2:{ intros parts p' Hp' Hmu [->|Hw]; apply runs_ret; auto. destruct Hw; eauto. }
  apply (runs_loop_inv _ _ (λ parts q,
    (parts = [] ∧ p_current q = t0) ∨ value_words t0 parts ∨ lookup_token t0 = true));
    [|done|by left|done].
  intros parts q Hq HI. unfold parseValue_step. run.
  { destruct HI as [[? _]|?]; auto. }
  assert (HI' : lookup_token (p_current q) = true → value_words t0 parts ∨ lookup_token t0 = true).
  { destruct HI as [[_ <-]|?]; auto. }
  assert (Hk : ∀ prefix, lookup_token (p_current q) = true → runs (value_key prefix parts) q (mu q)
    (λ r p', match r with inl a' => ((a' = [] ∧ p_current p' = t0) ∨ value_words t0 a' ∨
       lookup_token t0 = true) ∧ (mu p' < mu q)%nat
     | inr b => b = [] ∨ value_words t0 b ∨ lookup_token t0 = true end)).
  { intros prefix Hl. eapply runs_weaken; [done| |apply runs_value_key with (t0 := t0); auto; not_end].
    intros [a|b] p' _ HP; [|done]. intuition. }
  unfold lookup_token in HI', Hk. destruct (Type_ (p_current q)) eqn:Ety; auto.
  all: try (run; destruct HI as [[-> _]|HI]; by auto).
  - run. apply runs_bind_readPath; [done|lia|]. intros s p1 Hp1 Hmu1. run. split; [|lia]. right.
    destruct HI' as [|]; auto using value_words_app.
  - run. split; [|lia]. right. destruct HI as [[-> Hc]|[HI|HI]]; auto using value_words_app.
    left. exists []. rewrite <- Hc. auto.
  - run. split; [|lia]. right. destruct HI as [[-> Hc]|[HI|HI]]; auto using value_words_app.
    left. exists []. rewrite <- Hc. auto.
Qed.

Lemma runs_parseLiteralValue allow p :
  pok p → (mu p < fuel)%nat → (lookupType (p_current p) allow).2 = false →
  runs (parseLiteralValue fuel allow) p (mu p) (λ v _, lookup_free allow v = true).
Proof.
  intros Hp Hf Hl. unfold parseLiteralValue. run.
  - eapply runs_weaken; [done| |by apply runs_parseValue]. intros v p' _ HP. cbn beta in HP.
    destruct HP as [->|[(parts & -> & r & -> & Ht)|Hk]]; [by destruct allow| |].
    + apply lookup_free_words. unfold lookupType in Hl. unfold lookup_free.
      destruct Ht as [Ht|Ht]; rewrite Ht in Hl; by destruct (existsb _ _).
    + unfold lookup_token in Hk. unfold lookupType in Hl. unfold is_type in *.
      destruct (Type_ (p_current p)); try done. cbn in Hl. by rewrite Hl in Heqb.
  - apply orb_false_iff in Heqb as [E ->]. apply negb_false_iff in E.
    pose proof E as E'. apply bool_decide_eq_true in E'.
    assert (Hfree : lookup_free false (Literal (p_current p)) = true).
    { apply maplocal_word_free. destruct Hp as [_ Ht]. unfold token_ok in Ht. by rewrite E' in Ht. }
    run. eapply runs_bind; [apply runs_parseValue; [done|lia]|lia|]. intros rest p1 Hp1 Hmu1 _.
    run. destruct (String.eqb rest ""); [done|].
    by apply (lookup_free_words false (Literal (p_current p)) [rest]).
Qed.

(** ** POSTCONF and POSTCONFD lines *)
Definition line_ok (allow : bool) (key value : string) (lk : Lookup_) : Prop :=
  is_ident key = true ∧
  ((lookup_free allow value = true ∧ lk = no_lookup) ∨
   ∃ ty name exact, value = formatLookup ty name exact ∧ lk = {| lk_name := name; lk_typ := ty |} ∧
     name ≠ "" ∧ is_lookup_type allow ty = true).

Lemma runs_readLookupKey cfgType exact p :
  pok p → runs (readLookupKey cfgType exact) p (mu p) (λ _ _, True).
Proof.
  intros Hp. unfold readLookupKey. destruct (_ && _); [by apply runs_readPath|]. run; done.
Qed.

Lemma lookupType_ok t allow ty :
  lookupType t allow = (ty, true) → is_lookup_type allow ty = true.
Proof.
  unfold lookupType, is_lookup_type. destruct (Type_ t); try done;
    try (intros [= <-]; by destruct allow); try (intros [= <- ->]; done);
    destruct (existsb _ _) eqn:E; intros [= <-]; done.
Qed.

Lemma runs_parsePostconfLine directive allow p :
  pok p → (mu p < fuel)%nat → at_end (Type_ (p_current p)) = false →
  runs (parsePostconfLine fuel directive allow) p (pred (mu p))
    (λ '(key, value, lk) _, line_ok allow key value lk).
Proof.
  intros Hp Hf He. assert (Hpos : (0 < mu p)%nat) by (unfold mu; rewrite He; lia).
  unfold parsePostconfLine. run.
  - apply negb_false_iff, current_ident in Heqb; [|done]. split; [done|]. left. by destruct allow.
  - apply negb_false_iff, current_ident in Heqb; [|done].
    destruct (lookupType _ allow) as [cfgType ok] eqn:El. destruct ok; cbn [negb].
    + run. eapply runs_bind; [by apply runs_readLookupKey|lia|]. intros name p3 Hp3 Hmu3 _. run.
      split; [done|]. right. apply lookupType_ok in El. eexists _, _, _. split_and!; try done.
      by apply String.eqb_neq.
    + eapply runs_bind; [apply runs_parseLiteralValue; [done|lia|by rewrite El]|lia|].
      intros v p3 Hp3 Hmu3 Hv. run. split; auto.
Qed.
End values.

(** ** Well-formed results

    [watched allow vars v]: a stored POSTCONF value that starts like a lookup is
    the lookup of a variable the section requires, so that a change of that
    variable is seen. *)
Definition watched (allow : bool) (vars : gmap string string) (v : string) : Prop :=
  lookup_free allow v = true ∨
  ∃ ty name exact, v = formatLookup ty name exact ∧ is_lookup_type allow ty = true ∧
    is_Some (vars !! name).

Definition var_type_ok (allow : bool) (k ty : string) : Prop :=
  k ≠ "" ∧ (is_lookup_type allow ty = true ∨ (allow = true ∧ ty = "MAPFILE")).

Record cond_wf (c : Conditional) : Prop := {
  cwf_type : cond_Type c = "SERVICE" ∨ cond_Type c = "VAR";
  cwf_postconf : map_Forall (λ k v, is_ident k = true ∧ watched false (cond_RequiredVars c) v) (cond_Postconf c);
  cwf_postconfd : map_Forall (λ k v, is_ident k = true ∧ v = "") (cond_Postconfd c);
  cwf_vars : map_Forall (var_type_ok false) (cond_RequiredVars c)
}.

Record section_wf (name : string) (s : MtaConfigSection) : Prop := {
  swf_name : sec_Name s = name ∧ is_ident name = true;
  swf_depends : map_Forall (λ k v, is_ident k = true ∧ v = true) (sec_Depends s);
  swf_rewrites : map_Forall (λ k e, k ≠ "" ∧ re_Value e ≠ "") (sec_Rewrites s);
  swf_restarts : map_Forall (λ k v, is_ident k = true ∧ v = true) (sec_Restarts s);
  swf_vars : map_Forall (var_type_ok true) (sec_RequiredVars s);
  swf_postconf : map_Forall (λ k v, is_ident k = true ∧ watched true (sec_RequiredVars s) v) (sec_Postconf s);
  swf_postconfd : map_Forall (λ k v, is_ident k = true ∧ v = "") (sec_Postconfd s);
  swf_ldap : map_Forall (λ k v, is_ident k = true ∧ isLdapLocalValue v = true) (sec_Ldap s);
  swf_conds : Forall cond_wf (sec_Conditionals s)
}.

Definition MtaConfig_wf (c : MtaConfig) : Prop :=
  map_Forall section_wf (mta_Sections c).

Lemma ident_nonempty s : is_ident s = true → s ≠ "".
Proof. by intros H ->. Qed.
#[export] Hint Resolve ident_nonempty : configd.
#[export] Hint Extern 5 (map_Forall _ ∅) => apply map_Forall_empty : configd.
#[export] Hint Extern 5 (map_Forall _ (<[_:=_]> _)) => apply map_Forall_insert_2 : configd.

Lemma watched_insert allow vars k ty v :
  watched allow vars v → watched allow (<[k := ty]> vars) v.
Proof.
  intros [H|(ty' & name & ex & -> & Hty & Hv)]; [by left|right].
  exists ty', name, ex. split_and!; [done..|]. rewrite lookup_insert_is_Some'. auto.
Qed.

Lemma watched_all_insert allow vars (x ty : string) (m : gmap string string) :
  map_Forall (λ k v, is_ident k = true ∧ watched allow vars v) m →
  map_Forall (λ k v, is_ident k = true ∧ watched allow (<[x := ty]> vars) v) m.
Proof. intros Hm. eapply map_Forall_impl; [done|]. intros k' v [? ?]. auto using watched_insert. Qed.
#[export] Hint Resolve watched_insert watched_all_insert : configd.

(** What a line registers keeps the variables well formed and covers its value. *)
Lemma line_register allow key value lk vars (m : gmap string string) :
  line_ok allow key value lk → map_Forall (var_type_ok allow) vars →
  map_Forall (λ k v, is_ident k = true ∧ watched allow vars v) m →
  map_Forall (var_type_ok allow) (register lk vars) ∧
  map_Forall (λ k v, is_ident k = true ∧ watched allow (register lk vars) v) (<[key := value]> m) ∧
  map_Forall (λ k v, is_ident k = true ∧ watched allow (register lk vars) v) m.
Proof.
  intros [Hk [[Hv ->]|(ty & name & ex & -> & -> & Hne & Hty)]] Hvars Hm.
  - unfold register. cbn. split_and!; [done| |done]. apply map_Forall_insert_2; [|done]. split; [done|by left].
  - unfold register. cbn. apply String.eqb_neq in Hne as Hne'. rewrite Hne'.
    split_and!; [| |by apply watched_all_insert].
    + apply map_Forall_insert_2; [|done]. unfold var_type_ok. auto.
    + apply map_Forall_insert_2; [|by apply watched_all_insert]. split; [done|right].
      exists ty, name, ex. by rewrite lookup_insert_eq.
Qed.

Lemma new_section_wf name : is_ident name = true → section_wf name (new_section name).
Proof. intros Hn. constructor; cbn; auto with configd. Qed.

Ltac wf_setter := intros [? ? ? ? ? ? ? ? ?]; intros; constructor; cbn; auto with configd.

Lemma add_depend_wf name d s : is_ident d = true → section_wf name s → section_wf name (add_depend d s).
Proof. intros Hd. wf_setter. Qed.
Lemma add_restart_wf name d s : is_ident d = true → section_wf name s → section_wf name (add_restart d s).
Proof. intros Hd. wf_setter. Qed.
Lemma add_rewrite_wf name src e s :
  src ≠ "" → re_Value e ≠ "" → section_wf name s → section_wf name (add_rewrite src e s).
Proof. intros H1 H2. wf_setter. Qed.
Lemma add_var_wf name k ty s : var_type_ok true k ty → section_wf name s → section_wf name (set_required <[k := ty]> s).
Proof. intros Hk. wf_setter. Qed.
Lemma add_ldap_wf name k v s :
  is_ident k = true → isLdapLocalValue v = true → section_wf name s → section_wf name (set_ldap <[k := v]> s).
Proof. intros H1 H2. wf_setter. Qed.
Lemma set_proxygen_wf name s : section_wf name s → section_wf name (set_proxygen s).
Proof. wf_setter. Qed.
Lemma add_conditional_wf name c s : cond_wf c → section_wf name s → section_wf name (add_conditional c s).
Proof. intros Hc [? ? ? ? ? ? ? ? ?]; constructor; cbn; auto. apply Forall_app; auto. Qed.
Lemma add_postconf_wf name key value lk s :
  line_ok true key value lk → section_wf name s →
  section_wf name (set_required (register lk) (add_postconf key value s)).
Proof.
  intros Hl [? ? ? ? Hv Hp ? ? ?]. destruct (line_register _ _ _ _ _ _ Hl Hv Hp) as (H1 & H2 & _).
  constructor; cbn; auto.
Qed.
Lemma line_ok_mono key value lk : line_ok false key value lk →
  ∃ value', line_ok true key value' lk.
Proof.
  intros [Hk [[Hv ->]|(ty & name & ex & -> & -> & Hne & Hty)]].
  - exists "". split; [done|]. by left.
  - exists (formatLookup ty name ex). split; [done|right]. exists ty, name, ex. split_and!; try done.
    unfold is_lookup_type, lookup_types in *. rewrite existsb_app. apply orb_true_iff. left.
    by rewrite app_nil_r in Hty.
Qed.
Lemma add_postconfd_wf name key value lk s :
  line_ok false key value lk → section_wf name s →
  section_wf name (set_required (register lk) (add_postconfd key "" s)).
Proof.
  intros Hl [? ? ? ? Hv Hp ? ? ?]. destruct (line_ok_mono _ _ _ Hl) as [value' Hl'].
  destruct (line_register _ _ _ _ _ _ Hl' Hv Hp) as (H1 & _ & H3), Hl as [Hk _].
  constructor; cbn; auto with configd.
Qed.
#[export] Hint Resolve new_section_wf add_depend_wf add_restart_wf add_rewrite_wf add_var_wf add_ldap_wf
  set_proxygen_wf add_conditional_wf add_postconf_wf add_postconfd_wf : configd.

(** ** The directives keep the section well formed *)
Section directives.
Context {L : Type} `{LexerLaws L}.
Implicit Types p : parser L.
Variable (fuel : nat) (name : string).

(** A method that fills the section [s]: it uses up its keyword. *)
Definition fills {A} (wf : A → Prop) (m : M L A) p : Prop := runs m p (pred (mu p)) (λ s' _, wf s').

Lemma mu_pos p : at_end (Type_ (p_current p)) = false → (0 < mu p)%nat.
Proof. intros He. unfold mu. rewrite He. lia. Qed.

Ltac start := intros Hp Hf He Hs; pose proof (mu_pos _ He); unfold fills.

Lemma parseRewrite_fills s p :
  pok p → (mu p < fuel)%nat → at_end (Type_ (p_current p)) = false → section_wf name s →
  fills (section_wf name) (parseRewrite fuel s) p.
Proof.
  start. unfold parseRewrite. run.
  apply runs_bind_readPath; [done|lia|]. intros src p1 Hp1 Hm1. run.
  apply runs_bind_readPath; [done|lia|]. intros dst p2 Hp2 Hm2. run.
  eapply (runs_bind _ _ _ _ (mu p2) (λ _ _, True)); [run; done|lia|]. intros mode p3 Hp3 Hm3 _. run.
  apply String.eqb_neq in Heqb, Heqb0. auto with configd.
Qed.

Lemma parseRequiredVar_fills s ty err p :
  pok p → (mu p < fuel)%nat → at_end (Type_ (p_current p)) = false → section_wf name s →
  var_type_ok true "x" ty →
  fills (section_wf name) (parseRequiredVarDirective fuel s ty err) p.
Proof.
  start. intros [_ Hty]. unfold parseRequiredVarDirective. run.
  apply negb_false_iff, current_ident in Heqb; [|done].
  apply add_var_wf; [|done]. split; [by apply ident_nonempty|done].
Qed.

Lemma parsePostconf_fills s p :
  pok p → (mu p < fuel)%nat → at_end (Type_ (p_current p)) = false → section_wf name s →
  fills (section_wf name) (parsePostconf fuel s) p.
Proof.
  start. unfold parsePostconf. eapply runs_bind; [by apply runs_parsePostconfLine|lia|].
  intros [[key value] lk] p1 Hp1 Hm1 Hl. run. by apply add_postconf_wf.
Qed.

Lemma parsePostconfd_fills s p :
  pok p → (mu p < fuel)%nat → at_end (Type_ (p_current p)) = false → section_wf name s →
  fills (section_wf name) (parsePostconfd fuel s) p.
Proof.
  start. unfold parsePostconfd. eapply runs_bind; [by apply runs_parsePostconfLine|lia|].
  intros [[key value] lk] p1 Hp1 Hm1 Hl. run. by eapply add_postconfd_wf.
Qed.

Lemma parseRestart_fills s p :
  pok p → (mu p < fuel)%nat → at_end (Type_ (p_current p)) = false → section_wf name s →
  fills (section_wf name) (parseRestart fuel s) p.
Proof.
  start. unfold parseRestart. run.
  eapply runs_bind; [apply runs_read_names with (I := section_wf name); auto with configd lia|lia|].
  intros s' p1 Hp1 Hm1 Hs'. run. done.
Qed.

Lemma parseLdap_fills s p :
  pok p → (mu p < fuel)%nat → at_end (Type_ (p_current p)) = false → section_wf name s →
  fills (section_wf name) (parseLdap fuel s) p.
Proof.
  start. unfold parseLdap.
  eapply (runs_bind _ _ _ _ (pred (mu p))
    (λ '(k, v, ok) _, is_ident k = true ∧ ok = isLdapLocalValue v)); [|lia|].
  - unfold parseLdapDirective. run.
    eapply runs_bind; [apply runs_parseValue; [done|lia]|lia|]. intros v p2 Hp2 Hm2 _. run.
    apply negb_false_iff, current_ident in Heqb; done.
  - intros [[k v] ok] p1 Hp1 Hm1 [Hk ->]. run. destruct (isLdapLocalValue v) eqn:E; auto with configd.
Qed.

Lemma parseProxygen_fills s p :
  pok p → (mu p < fuel)%nat → at_end (Type_ (p_current p)) = false → section_wf name s →
  fills (section_wf name) (parseProxygen fuel s) p.
Proof. start. unfold parseProxygen. run. auto with configd. Qed.

(** ** Conditionals *)
Lemma keyword_upper w ty k :
  lookupKeyword w = ty → ty ≠ TokenIdentifier → assoc k keywords = Some ty →
  (∀ k', assoc k' keywords = Some ty → k' = k) → ToUpper w = k.
Proof.
  unfold lookupKeyword. destruct (assoc (ToUpper w) keywords) eqn:E; cbn; [|congruence].
  intros -> _ _ Hk. auto.
Qed.

Lemma assoc_elem {V} k (l : list (string * V)) v : assoc k l = Some v → (k, v) ∈ l.
Proof.
  induction l as [|[k' v'] l IH]; [done|]. cbn. destruct (String.eqb_spec k k') as [->|].
  - intros [= ->]. left.
  - intros. right. auto.
Qed.

Lemma cond_type_upper t :
  token_ok t → Type_ t = TokenService ∨ Type_ t = TokenVar →
  ToUpper (Literal t) = "SERVICE" ∨ ToUpper (Literal t) = "VAR".
Proof.
  unfold token_ok. intros Ht [E|E]; rewrite E in Ht; [left|right]; eapply keyword_upper; try done;
    intros k' Hk%assoc_elem; unfold keywords in Hk; set_solver.
Qed.

Lemma parseConditionalLine_fills c p :
  pok p → (mu p < fuel)%nat → at_end (Type_ (p_current p)) = false → cond_wf c →
  isAtNewline_ (p_current p) = false →
  fills cond_wf (parseConditionalLine fuel c) p.
Proof.
  start. intros Hnl. destruct Hs as [Hty Hpc Hpd Hv]. unfold parseConditionalLine. run.
  assert (Hskip : runs (_ ← skipToNewline fuel; mret c) p (pred (mu p)) (λ s' _, cond_wf s')).
  { apply runs_bind_skip_lt; auto with lia. intros p1 Hp1 Hlt. run. by constructor. }
  assert (Hvar : runs (parseConditionalRequiredVar c) p (pred (mu p)) (λ s' _, cond_wf s')).
  { unfold parseConditionalRequiredVar. run.
    apply negb_false_iff, current_ident in Heqb; [|done]. constructor; cbn; auto with configd.
    apply map_Forall_insert_2; [|done]. split; [by apply ident_nonempty|left].
    by destruct (is_type (p_current p) TokenLocal). }
  destruct (Type_ (p_current p)) eqn:Ety; auto.
  - eapply runs_bind; [apply runs_parsePostconfLine; [done|done|by rewrite Ety]|lia|].
    intros [[key value] lk] p1 Hp1 Hm1 Hl. run.
    destruct (line_register _ _ _ _ _ _ Hl Hv Hpc) as (? & ? & ?). by constructor.
  - eapply runs_bind; [apply runs_parsePostconfLine; [done|done|by rewrite Ety]|lia|].
    intros [[key value] lk] p1 Hp1 Hm1 Hl. run.
    destruct (line_register _ _ _ _ _ _ Hl Hv Hpc) as (? & ? & ?), Hl as [Hk _].
    constructor; cbn; auto with configd.
Qed.

Lemma runs_parseConditionalBody c p :
  pok p → (mu p < fuel)%nat → cond_wf c →
  runs (parseConditionalBody fuel c) p (mu p) (λ c' _, cond_wf c').
Proof.
  intros Hp Hf Hc. unfold parseConditionalBody.
  assert (Hbody : ∀ n, (mu p ≤ n)%nat → (n < fuel)%nat → ∀ a q, pok q → (cond_wf a ∧ (mu q ≤ n)%nat) →
    isAtNewline_ (p_current q) = false → at_end (Type_ (p_current q)) = false →
    runs (c' ← parseConditionalLine fuel a; mret (inl c')) q (mu q)
      (λ (r : Conditional + Conditional) p', match r with
        | inl a' => (cond_wf a' ∧ (mu p' ≤ n)%nat) ∧ (mu p' < mu q)%nat | inr b => cond_wf b end)).
  { intros n _ Hn a q Hq [Ha Hmq] Hnl He. pose proof (mu_pos _ He).
    eapply runs_bind; [apply parseConditionalLine_fills; [done|lia|done..]|lia|].
    intros c' q' Hq' Hm' Hc'. run. split; [split; [done|lia]|lia]. }
  specialize (Hbody (mu p) (le_n _) Hf).
  apply (runs_loop_inv _ _ (λ a q, cond_wf a ∧ (mu q ≤ mu p)%nat)); [|done|done|done].
  intros a q Hq Ha. unfold parseConditionalBody_step. run. specialize (Hbody a q Hq Ha). unfold isAtNewline_ in Hbody.
  destruct Ha as [Ha Hmq].
  destruct (Type_ (p_current q)) eqn:Ety; try (by apply Hbody); try (by run).
  run. split; [split; [done|lia]|lia].
Qed.

Lemma parseConditional_fills s p :
  pok p → (mu p < fuel)%nat → at_end (Type_ (p_current p)) = false → section_wf name s →
  fills (section_wf name) (parseConditional fuel s) p.
Proof.
  start. unfold parseConditional.
  eapply (runs_bind _ _ _ _ (pred (mu p))
    (λ '(ty, k, neg) _, ty = "SERVICE" ∨ ty = "VAR")); [|lia|].
  - unfold parseConditionalHeader. run; apply cond_type_upper; try by destruct Hp0.
    all: apply andb_false_iff in Heqb as [E|E]; apply negb_false_iff, bool_decide_eq_true in E; auto.
  - intros [[ty k] neg] p1 Hp1 Hm1 Hty. run.
    eapply runs_bind; [apply runs_parseConditionalBody; [done|lia|]|lia|].
    + constructor; cbn; auto with configd.
    + intros c p3 Hp3 Hm3 Hc. run. auto with configd.
Qed.

(** A directive uses up input unless it fails. *)
Lemma runs_parseDirective s p :
  pok p → (mu p < fuel)%nat → at_end (Type_ (p_current p)) = false →
  isAtNewline_ (p_current p) = false → section_wf name s →
  runs (parseDirective fuel s) p (mu p) (λ s' p', section_wf name s' ∧ (mu p' < mu p)%nat).
Proof.
  intros Hp Hf He Hnl Hs. pose proof (mu_pos _ He).
  assert (Hw : ∀ m : M L MtaConfigSection, fills (section_wf name) m p →
    runs m p (mu p) (λ s' p', section_wf name s' ∧ (mu p' < mu p)%nat)).
  { intros m Hm. eapply runs_weaken; [| |exact Hm]; [lia|]. intros a p' Hm' Ha. cbn in *. split; [done|lia]. }
  assert (Hfi : fills (section_wf name) (_ ← skipToNewline fuel; mret s) p).
  { apply runs_bind_skip_lt; auto with lia. intros p1 Hp1 Hlt. run. done. }
  unfold parseDirective. run. destruct (Type_ (p_current p)) eqn:Ety; try done; try (by run).
  all: try (apply Hw, parseRequiredVar_fills; rewrite ?Ety; try done; by split; auto).
  all: try exact (Hw _ Hfi).
  all: try run.
  all: try (apply Hw; first [apply parseRewrite_fills|apply parsePostconf_fills
    |apply parsePostconfd_fills|apply parseRestart_fills|apply parseProxygen_fills
    |apply parseConditional_fills|apply parseLdap_fills]; by rewrite ?Ety).
Qed.

Lemma runs_parseBody s p :
  pok p → (mu p < fuel)%nat → section_wf name s →
  runs (parseBody fuel s) p (mu p) (λ s' _, section_wf name s').
Proof.
  intros Hp Hf Hs. unfold parseBody.
  apply (runs_loop_inv _ _ (λ a q, section_wf name a ∧ (mu q ≤ mu p)%nat)); [|done|done|done].
  intros a q Hq [Ha Hmq]. unfold parseBody_step. run; [done|split; [split; [done|lia]|lia]|].
  apply orb_false_iff in Heqb as [Hend _].
  eapply runs_bind; [apply runs_parseDirective; [done|lia|done..]|lia|].
  intros s' q' Hq' Hm' [Hs' Hlt]. run. split; [split; [done|lia]|lia].
Qed.

Lemma runs_skipNewlines p :
  pok p → (mu p < fuel)%nat →
  runs (skipNewlines fuel) p (mu p) (λ _ p', p' = p ∨ (mu p' < mu p)%nat).
Proof.
  intros Hp Hf. unfold skipNewlines.
  apply (runs_loop_inv _ _ (λ _ q, q = p ∨ (mu q < mu p)%nat)); [|done|by left|done].
  intros [] q Hq HI. run; [|done]. assert (mu q ≤ mu p)%nat by (destruct HI as [->|]; lia).
  split; [right; lia|lia].
Qed.

End directives.

Section sections.
Context {L : Type} `{LexerLaws L}.
Implicit Types p : parser L.
Variable fuel : nat.

(** A section either is read, or fails where the recovery can move on. *)
Lemma parseSection_progress c p :
  pok p → (mu p < fuel)%nat → at_end (Type_ (p_current p)) = false → MtaConfig_wf c →
  match parseSection fuel c p with
  | None => False
  | Some (r, p') => pok p' ∧
      match r with
      | inl c' => MtaConfig_wf c' ∧ (mu p' < mu p)%nat
      | inr _ => (mu p' < mu p)%nat ∨
          ((mu p' ≤ mu p)%nat ∧ isNextSection_ (p_current p') = false ∧
           at_end (Type_ (p_current p')) = false)
      end
  end.
Proof.
  intros Hp Hf He Hc. unfold parseSection. pose proof (runs_skipNewlines fuel p Hp Hf) as Hs.
  unfold runs in Hs. unfold mbind at 1, M_bind at 1.
  destruct (skipNewlines fuel p) as [[[[]|e] p1]|] eqn:E1; [| |done].
  2:{ exfalso. revert E1. clear. unfold skipNewlines. revert p.
      induction fuel as [|k IH]; intros p; [done|]. cbn [loop].
      unfold mbind, M_bind, current, advance in *. destruct (isAtNewline_ _); [|done].
      destruct (NextToken (p_lexer p)) as [[t [e'|]] l']; apply IH. }
  destruct Hs as (Hp1 & Hm1 & Hor). unfold mbind at 1, M_bind at 1, current at 1.
  destruct (isAtEnd_ (p_current p1)) eqn:Ee.
  { cbn. split_and!; [done..|]. destruct Hor as [->|]; [|done]. unfold isAtEnd_ in Ee. congruence. }
  destruct (is_type (p_current p1) TokenSection) eqn:Es; cbn [negb].
  2:{ cbn. split; [done|right]. split_and!; [done| |done]. exact Es. }
  match goal with |- match ?m p1 with _ => _ end =>
    assert (Hr : runs m p1 (pred (mu p1)) (λ c' _, MtaConfig_wf c')) end.
  { pose proof (mu_pos _ Ee). run. apply negb_false_iff, current_ident in Heqb; [|done].
    eapply (runs_bind _ _ _ _ (mu p2)
      (λ s _, section_wf (Literal (p_current p0)) s)); [|lia|].
    - run; [|auto with configd].
      eapply runs_weaken; [| |apply runs_read_names with (I := section_wf (Literal (p_current p0)))];
        auto with configd lia.
    - intros s p3 Hp3 Hm3 Hs. run.
      eapply runs_bind; [apply runs_parseBody; [done|lia|exact Hs]|lia|].
      intros s' p5 Hp5 Hm5 Hs'. run. by apply map_Forall_insert_2. }
  pose proof (mu_pos _ Ee). unfold runs in Hr. revert Hr.
  match goal with |- match ?x with _ => _ end → _ => destruct x as [[[c'|e] p']|] end; [| |done].
  - intros (? & ? & ?). split_and!; [done..|lia].
  - intros (? & ? & _). split; [done|left; lia].
Qed.
Lemma recover_progress c p :
  pok p → (mu p < fuel)%nat → at_end (Type_ (p_current p)) = false → MtaConfig_wf c →
  ∃ c' p', recover (parseSection fuel c) (_ ← skipToNextSection fuel; mret c) p = Some (inl c', p') ∧
    MtaConfig_wf c' ∧ pok p' ∧ (mu p' < mu p)%nat.
Proof.
  intros Hp Hf He Hc. pose proof (parseSection_progress c p Hp Hf He Hc) as Hs. unfold recover.
  destruct (parseSection fuel c p) as [[[c'|e] p1]|]; [| |done].
  { destruct Hs as (? & ? & ?). eauto 10. }
  destruct Hs as [Hp1 Hlt]. set (p2 := {| p_lexer := _; p_current := _; p_errors := _ |}).
  assert (Hmu : mu p2 = mu p1) by done. assert (Hp2 : pok p2) by done.
  assert (Hf2 : (mu p2 < fuel)%nat) by (rewrite Hmu; destruct Hlt as [?|[? _]]; lia).
  pose proof (runs_skip_until fuel isNextSection_ p2 Hp2 Hf2) as Hr.
  unfold runs in Hr. unfold skipToNextSection, mbind, M_bind.
  destruct (skip_until fuel isNextSection_ p2) as [[[[]|e2] p3]|] eqn:E; [| |done].
  - destruct Hr as (Hp3 & Hm3 & Hlt3). exists c, p3. split_and!; try done.
    destruct Hlt as [?|(Hle & Hns & Hne)]; [lia|]. specialize (Hlt3 Hns Hne). lia.
  - by apply skip_never_fails in E.
Qed.

Lemma parseSections_total n c p :
  pok p → (mu p < n)%nat → (mu p < fuel)%nat → MtaConfig_wf c →
  ∃ c' p', loop n (parseSections_step fuel) c p = Some (inl c', p') ∧ MtaConfig_wf c' ∧ isAtEnd_ (p_current p') = true.
Proof.
  revert c p. induction n as [|n IH]; intros c p Hp Hn Hf Hc; [lia|]. cbn [loop].
  unfold mbind, M_bind. destruct (isAtEnd_ (p_current p)) eqn:He.
  - exists c, p. unfold parseSections_step, mbind, M_bind, current. by rewrite He.
  - destruct (recover_progress c p Hp Hf He Hc) as (c' & p' & E & Hc' & Hp' & Hlt).
    assert (Es : parseSections_step fuel c p = Some (inl (inl c'), p')).
    { unfold parseSections_step. unfold mbind at 1, M_bind at 1, current. rewrite He.
      unfold mbind at 1, M_bind at 1. by rewrite E. }
    rewrite Es. apply IH; auto with lia.
Qed.
End sections.

(** Parsing ends and the result is well formed. *)
Lemma ParseString_total (p : parser lexer) (content : string) :
  ∃ r errs p', ParseString p content = Some ((r, errs), p') ∧
    (content = "" → r = None ∧ errs = [EmptyConfigFile]) ∧
    (content ≠ "" → ∃ c, r = Some c ∧ MtaConfig_wf c ∧ errs = p_errors p').
Proof.
  unfold ParseString. destruct (String.eqb_spec content "") as [->|Hne]; [by eexists _, _, _|].
  set (p0 := {| p_lexer := _; p_current := _; p_errors := _ |}).
  assert (Ha : ∃ p1, advance p0 = Some (inl tt, p1) ∧ pok p1 ∧ (mu p1 < parse_fuel content)%nat).
  { unfold advance. destruct (NextToken (p_lexer p0)) as [[t e] l'] eqn:E.
    destruct (nextToken_law _ _ _ _ (NewLexer_ok content None) E) as (H1 & H2 & _ & H4).
    assert (Hl : lexer_measure (NewLexer content None) = String.length content) by (cbn; apply Nat.add_0_r).
    unfold parse_fuel, mu. destruct e as [e|]; eexists; (split; [done|]); cbn [p_lexer p_current];
      (split; [split; auto; done|]); destruct (at_end _); cbn in *; lia. }
  destruct Ha as (p1 & Ea & Hp1 & Hm1).
  destruct (parseSections_total (parse_fuel content) (parse_fuel content) {| mta_Sections := ∅ |} p1)
    as (c & p' & E & Hc & _); [done..| |].
  { apply map_Forall_empty. }
  change (parseSections (parse_fuel content) {| mta_Sections := ∅ |} p1 = Some (inl c, p')) in E.
  unfold mbind, M_bind. rewrite Ea, E. eexists _, _, _. split; [done|]. split; [done|]. eauto.
Qed.

(** C40: parsing any text ends, with the fuel the model gives it, and whatever the text the configuration
    is well formed, also when errors are reported beside it: every section is filed under its own name,
    names and keys are identifiers, a rewrite has a source and a destination, POSTCONFD values are empty,
    only LOCAL and MAPLOCAL lookups are kept for LDAP, conditionals test SERVICE or VAR, and every POSTCONF
    value that starts like a lookup is the lookup of a variable its section (or conditional) requires.  An
    empty text is an error without a configuration. *)
Theorem ParseString_wf (p : parser lexer) (content : string) :
  ∃ r errs p', ParseString p content = Some ((r, errs), p') ∧
    (content = "" → r = None ∧ errs = [EmptyConfigFile]) ∧
    (content ≠ "" → ∃ c, r = Some c ∧ MtaConfig_wf c ∧ errs = p_errors p').
Proof. apply ParseString_total. Qed.
