(* ===== verification/ParserSpec.v ===== *)
(** * ParserSpec: the language of zmconfigd.cf

    An abstract syntax of [zmconfigd.cf], its concrete text ([file_text]) and its
    meaning as an [MtaConfig] ([file_config]), and the theorem that the parser
    reads the text as the meaning.  The proof goes through tokens: [lexes] is
    what the lexer makes of a text, [consumes] what a parse method makes of
    tokens. *)
From S2P Require Import Prelude Config Lexer Parser.

Definition tok : Type := TokenType * string.

(** ** Syntax *)
Definition kw (t : TokenType) : tok := (t, TokenType_String t).
Definition idt (s : string) : tok := (TokenIdentifier, s).
Definition nl : tok := (TokenNewline, String newline "").

Inductive path :=
  | PAbs (s : string)             (** [/etc/x], one token *)
  | PName (s : string)            (** [data], an identifier *)
  | PRel (dir rest : string).     (** [conf] and [/x], two tokens without a blank *)

Definition path_string (p : path) : string :=
  match p with PAbs s | PName s => s | PRel d r => d +:+ r end.

Definition path_toks (p : path) : list tok :=
  match p with PAbs s => [(TokenString, s)] | PName s => [idt s] | PRel d r => [idt d; (TokenString, r)] end.

Inductive kind := KVar | KLocal | KMaplocal.

Definition kind_token (k : kind) : TokenType :=
  match k with KVar => TokenVar | KLocal => TokenLocal | KMaplocal => TokenMaplocal end.
Definition kind_name (k : kind) : string := TokenType_String (kind_token k).

Inductive value :=
  | VNone
  | VLookup (k : kind) (name : string)
  | VFile (p : path)
  | VWords (ws : list tok).

Inductive line :=
  | LBlank
  | LPostconf (key : string) (v : value)
  | LPostconfd (key : string) (v : value)
  | LRequire (k : kind) (name : string)
  | LOther (d : directive)
with directive :=
  | DRewrite (src dst : path) (mode : option string)
  | DMapfile (name : string)
  | DRestart (names : list string)
  | DLdap (key : string) (k : kind) (name : string)
  | DProxygen
  | DIf (service negated : bool) (key : string) (body : list line).

Record section := {
  s_name : string;
  s_depends : list string;
  s_lines : list line
}.

(** ** Tokens of a line, in pieces separated by blanks *)
Definition value_pieces (v : value) : list (list tok) :=
  match v with
  | VNone => []
  | VLookup k name => [[kw (kind_token k)]; [idt name]]
  | VFile p => [[kw TokenFile]; path_toks p]
  | VWords ws => (λ w, [w]) <$> ws
  end.

Definition cond_key (negated : bool) (key : string) : string :=
  if negated then "!" +:+ key else key.

(** The lines of a line: an if has several. *)
Fixpoint line_pieces (l : line) : list (list (list tok)) :=
  match l with
  | LBlank => [[]]
  | LPostconf key v => [[kw TokenPostconf] :: [idt key] :: value_pieces v]
  | LPostconfd key v => [[kw TokenPostconfd] :: [idt key] :: value_pieces v]
  | LRequire k name => [[[kw (kind_token k)]; [idt name]]]
  | LOther d => directive_pieces d
  end
with directive_pieces (d : directive) : list (list (list tok)) :=
  match d with
  | DRewrite src dst mode =>
      [[kw TokenRewrite] :: path_toks src :: path_toks dst ::
       match mode with Some m => [[kw TokenMode]; [(TokenString, m)]] | None => [] end]
  | DMapfile name => [[[kw TokenMapfile]; [idt name]]]
  | DRestart names => [[kw TokenRestart] :: ((λ n, [idt n]) <$> names)]
  | DLdap key k name => [[[idt "LDAP"]; [idt key]; [kw (kind_token k)]; [idt name]]]
  | DProxygen => [[[kw TokenProxygen]]]
  | DIf service negated key body =>
      [[kw TokenIf]; [kw (if service then TokenService else TokenVar)]; [idt (cond_key negated key)]]
      :: concat (line_pieces <$> body) ++ [[[kw TokenFi]]]
  end.

Definition section_pieces (s : section) : list (list (list tok)) :=
  ([kw TokenSection] :: [idt (s_name s)] ::
   match s_depends s with [] => [] | ds => [kw TokenDepends] :: ((λ d, [idt d]) <$> ds) end)
  :: concat (line_pieces <$> s_lines s).

Definition file_pieces (f : list section) : list (list (list tok)) := concat (section_pieces <$> f).

(** The tokens of the lines, and their text: pieces with a blank between them. *)
Definition lines_toks (ls : list (list (list tok))) : list tok :=
  concat ((λ l, concat l ++ [nl]) <$> ls).

Definition piece_text (p : list tok) : string := foldr (λ t s, t.2 +:+ s) "" p.

Definition line_text (l : list (list tok)) : string := Join (piece_text <$> l) " " +:+ String newline "".

Definition lines_text (ls : list (list (list tok))) : string := foldr (λ l s, line_text l +:+ s) "" ls.

Definition file_text (f : list section) : string := lines_text (file_pieces f).

(** ** Meaning *)
Definition value_string (v : value) : string :=
  match v with
  | VNone => ""
  | VLookup k name => kind_name k +:+ ":" +:+ name
  | VFile p => "FILE " +:+ path_string p
  | VWords ws => Join ws.*2 " "
  end.

Definition value_lookup (v : value) : Lookup_ :=
  match v with
  | VLookup k name => {| lk_name := name; lk_typ := kind_name k |}
  | VFile p => {| lk_name := path_string p; lk_typ := "FILE" |}
  | _ => no_lookup
  end.

(** A line of an if block: only these three mean something there. *)
Definition cond_line (c : Conditional) (l : line) : Conditional :=
  match l with
  | LPostconf key v =>
      set_cond c (<[key := value_string v]> (cond_Postconf c)) (cond_Postconfd c)
        (register (value_lookup v) (cond_RequiredVars c))
  | LPostconfd key v =>
      set_cond c (cond_Postconf c) (<[key := ""]> (cond_Postconfd c))
        (register (value_lookup v) (cond_RequiredVars c))
  | LRequire k name =>
      set_cond c (cond_Postconf c) (cond_Postconfd c) (<[name := kind_name k]> (cond_RequiredVars c))
  | LBlank | LOther _ => c
  end.

Definition directive_section (s : MtaConfigSection) (d : directive) : MtaConfigSection :=
  match d with
  | DRewrite src dst mode =>
      add_rewrite (path_string src) {| re_Value := path_string dst; re_Mode := default "" mode |} s
  | DMapfile name => set_required <[name := "MAPFILE"]> s
  | DRestart names => foldl (λ s n, add_restart n s) s names
  | DLdap key k name =>
      match k with
      | KVar => s
      | _ => set_ldap <[key := kind_name k +:+ ":" +:+ name]> s
      end
  | DProxygen => set_proxygen s
  | DIf service negated key body =>
      add_conditional
        (foldl cond_line
           {| cond_Type := if service then "SERVICE" else "VAR"; cond_Key := key; cond_Negated := negated;
              cond_Postconf := ∅; cond_Postconfd := ∅; cond_RequiredVars := ∅ |} body) s
  end.

Definition line_section (s : MtaConfigSection) (l : line) : MtaConfigSection :=
  match l with
  | LBlank => s
  | LPostconf key v => set_required (register (value_lookup v)) (add_postconf key (value_string v) s)
  | LPostconfd key v => set_required (register (value_lookup v)) (add_postconfd key "" s)
  | LRequire k name => set_required <[name := kind_name k]> s
  | LOther d => directive_section s d
  end.

Definition section_config (c : MtaConfig) (s : section) : MtaConfig :=
  add_section c (s_name s)
    (foldl line_section (foldl (λ s d, add_depend d s) (new_section (s_name s)) (s_depends s)) (s_lines s)).

Definition file_config (f : list section) : MtaConfig := foldl section_config {| mta_Sections := ∅ |} f.

(** ** What can be written *)
Definition name_ok (s : string) : bool :=
  head_is isIdentifierStart s && all_chars isIdentifierChar s &&
  bool_decide (lookupKeyword s = TokenIdentifier).

Definition string_start (c : ascii) : bool := Ascii.eqb c "/" || IsDigit c || Ascii.eqb c ".".

Definition text_ok (s : string) : bool :=
  head_is string_start s && all_chars (λ c, negb (IsSpace c)) s.

Definition path_ok (p : path) : bool :=
  match p with
  | PAbs s => text_ok s && HasPrefix s "/"
  | PName s => name_ok s
  | PRel d r => name_ok d && text_ok r && HasPrefix r "/"
  end.

Definition word_ok (w : tok) : bool :=
  match w.1 with TokenIdentifier => name_ok w.2 | TokenString => text_ok w.2 | _ => false end.

Definition words_free (allow : bool) (ws : list tok) : bool :=
  match ws with
  | [] => false
  | w :: _ => negb (existsb (HasPrefix w.2) (lookup_types allow))
  end.

Definition value_ok (allow : bool) (v : value) : bool :=
  match v with
  | VNone => true
  | VLookup k name => name_ok name && match k with KMaplocal => allow | _ => true end
  | VFile p => path_ok p
  | VWords ws => forallb word_ok ws && words_free allow ws
  end.

(** Source [data] and destination [/x] would be read as the one path [data/x]. *)
Definition paths_apart (src dst : path) : bool :=
  match src, dst with PName _, PAbs _ => false | _, _ => true end.

(** In an if block the lines that mean nothing there are not written. *)
Definition cond_line_ok (l : line) : bool :=
  match l with
  | LBlank => true
  | LPostconf key v | LPostconfd key v => name_ok key && value_ok false v
  | LRequire k name => name_ok name && match k with KMaplocal => false | _ => true end
  | LOther _ => false
  end.

Definition directive_ok (d : directive) : bool :=
  match d with
  | DRewrite src dst mode =>
      path_ok src && path_ok dst && paths_apart src dst && from_option text_ok true mode
  | DMapfile name => name_ok name
  | DRestart names => forallb name_ok names
  | DLdap key k name => name_ok key && name_ok name
  | DProxygen => true
  | DIf service negated key body => name_ok key && forallb cond_line_ok body
  end.

Definition line_ok (l : line) : bool :=
  match l with
  | LBlank => true
  | LPostconf key v => name_ok key && value_ok true v
  | LPostconfd key v => name_ok key && value_ok false v
  | LRequire k name => name_ok name
  | LOther d => directive_ok d
  end.

Definition section_ok (s : section) : bool :=
  name_ok (s_name s) && forallb name_ok (s_depends s) && forallb line_ok (s_lines s).

Definition file_ok (f : list section) : bool := forallb section_ok f.

(** ** What the lexer makes of a text *)

(** [s] starts with the token [t] and goes on with [rest]. *)
Definition lexes1 (s : string) (t : tok) (rest : string) : Prop :=
  ∀ l, l_input l = s → l_peeked l = None →
  ∃ line col l', nextToken l =
      ({| Type_ := t.1; Literal := t.2; Line := line; Column := col |}, None, l') ∧
    l_input l' = rest ∧ same_source l l'.

Inductive lexes : string → list tok → string → Prop :=
  | lexes_nil s : lexes s [] s
  | lexes_cons s t s1 ts s2 : lexes1 s t s1 → lexes s1 ts s2 → lexes s (t :: ts) s2.

Lemma lexes_app s ts1 s1 ts2 s2 : lexes s ts1 s1 → lexes s1 ts2 s2 → lexes s (ts1 ++ ts2) s2.
Proof. induction 1; cbn; eauto using lexes. Qed.

Lemma lexes_one s t rest : lexes1 s t rest → lexes s [t] rest.
Proof. eauto using lexes. Qed.

(** A blank before a token is skipped. *)
Lemma lexes1_blank s t rest : lexes1 s t rest → lexes1 (String space s) t rest.
Proof.
  intros Hs l Hl Hp. destruct (Hs (arrive s l)) as (line & col & l' & E & Hr & Hsrc); [done..|].
  exists line, col, l'. split_and!; [|done|exact Hsrc].
  rewrite <- E. unfold nextToken. cbn [l_peeked arrive]. rewrite Hp.
  assert (Hw : skipWhitespace l = skipWhitespace (arrive s l)).
  { unfold skipWhitespace, read_while. rewrite Hl. cbn. by destruct (read_while_go _ _ _). }
  unfold scan. by rewrite Hw.
Qed.

Lemma lexes_blank s t ts rest : lexes s (t :: ts) rest → lexes (String space s) (t :: ts) rest.
Proof. inversion 1; subst. econstructor; eauto using lexes1_blank. Qed.

(** [scan] at a character that is not blank. *)
Lemma nextToken_at l c s :
  l_input l = String c s → l_peeked l = None → is_blank c = false →
  nextToken l = scan nextToken l ∧ skipWhitespace l = l.
Proof.
  intros Hl Hp Hc. rewrite nextToken_eq, Hp. split; [done|].
  apply skipWhitespace_stay. by rewrite Hl.
Qed.

Lemma lexes1_newline rest : lexes1 (String newline rest) nl rest.
Proof.
  intros l Hl Hp. destruct (nextToken_at _ _ _ Hl Hp eq_refl) as [-> Hw].
  unfold scan. rewrite Hw, Hl. cbn. eexists _, _, _. split; [done|].
  by destruct (readChar_cons _ _ _ Hl).
Qed.

Lemma ident_class c : isIdentifierStart c = true →
  is_blank c = false ∧ Ascii.eqb c newline = false ∧ Ascii.eqb c "#" = false ∧ Ascii.eqb c "!" = false.
Proof. by destruct c as [[] [] [] [] [] [] [] []]. Qed.

Lemma string_class c : string_start c = true →
  is_blank c = false ∧ Ascii.eqb c newline = false ∧ Ascii.eqb c "#" = false ∧
  isIdentifierStart c = false ∧ Ascii.eqb c "!" = false ∧ Ascii.eqb c quote = false ∧
  (Ascii.eqb c "/" || Ascii.eqb c quote || IsDigit c || Ascii.eqb c ".") = true.
Proof. by destruct c as [[] [] [] [] [] [] [] []]. Qed.

(** Identifiers and keywords. *)
Lemma lexes1_word w rest :
  head_is isIdentifierStart w = true → all_chars isIdentifierChar w = true →
  head_is isIdentifierChar rest = false →
  lexes1 (w +:+ rest) (lookupKeyword w, w) rest.
Proof.
  intros Hh Hw Hr l Hl Hp. destruct w as [|c w]; [done|]. rewrite string_app_cons in Hl. cbn in Hh.
  destruct (ident_class c Hh) as (Hb & Hn & Hc & Hx).
  destruct (nextToken_at _ _ _ Hl Hp Hb) as [-> Hs].
  destruct (read_while_exact isIdentifierChar l (String c w) rest) as (l' & E & Hi & Hsrc); [done..|].
  unfold scan. rewrite Hs, Hl, Hn, Hc, Hh, Hx. cbn [orb]. unfold readIdentifier. rewrite E. eauto 10.
Qed.

Lemma lexes1_negated w rest :
  all_chars isIdentifierChar w = true → head_is isIdentifierChar rest = false →
  lexes1 ("!" +:+ w +:+ rest) (lookupKeyword ("!" +:+ w), "!" +:+ w) rest.
Proof.
  intros Hw Hr l Hl Hp. rewrite string_app_cons, string_app_nil_l in Hl.
  destruct (nextToken_at _ _ _ Hl Hp eq_refl) as [-> Hs].
  destruct (readChar_cons _ _ _ Hl) as [Hi1 Hsrc1].
  destruct (read_while_exact isIdentifierChar (readChar l) w rest) as (l' & E & Hi & Hsrc); [done..|].
  unfold scan. rewrite Hs, Hl. cbn. unfold readIdentifier. rewrite E. eexists _, _, _.
  split_and!; [done|done|by etrans].
Qed.

(** Paths and numbers. *)
Lemma lexes1_text w rest :
  text_ok w = true → head_is (λ c, negb (IsSpace c)) rest = false →
  lexes1 (w +:+ rest) (TokenString, w) rest.
Proof.
  intros [Hh Hw]%andb_true_iff Hr l Hl Hp. destruct w as [|c w]; [done|].
  rewrite string_app_cons in Hl. cbn in Hh.
  destruct (string_class c Hh) as (Hb & Hn & Hc & Hi & Hx & Hq & Hs').
  destruct (nextToken_at _ _ _ Hl Hp Hb) as [-> Hs].
  destruct (read_while_exact (λ c, negb (IsSpace c)) l (String c w) rest) as (l' & E & Hi' & Hsrc); [done..|].
  unfold scan. rewrite Hs, Hl, Hn, Hc, Hi, Hx, Hs'. cbn [orb]. unfold readString. rewrite Hl, Hq, E. eauto 10.
Qed.

(** ** Pieces, lines and files *)
Definition tok_ok (t : tok) : bool :=
  match t.1 with
  | TokenString => text_ok t.2
  | ty => bool_decide (lookupKeyword t.2 = ty) &&
      ((head_is isIdentifierStart t.2 && all_chars isIdentifierChar t.2) ||
       (HasPrefix t.2 "!" && all_chars isIdentifierChar (drop_string 1 t.2)))
  end.

Definition piece_ok (p : list tok) : bool :=
  match p with
  | [t] => tok_ok t
  | [t1; t2] => name_ok t1.2 && bool_decide (t1.1 = TokenIdentifier) && bool_decide (t2.1 = TokenString) &&
      text_ok t2.2 && HasPrefix t2.2 "/"
  | _ => false
  end.

Definition is_sep (c : ascii) : bool := Ascii.eqb c space || Ascii.eqb c newline.

Lemma sep_stops rest : head_is is_sep rest = true →
  head_is isIdentifierChar rest = false ∧ head_is (λ c, negb (IsSpace c)) rest = false.
Proof. destruct rest as [|c rest]; [done|]. cbn. by destruct c as [[] [] [] [] [] [] [] []]. Qed.

Lemma lexes1_tok t rest :
  tok_ok t = true → head_is is_sep rest = true → lexes1 (t.2 +:+ rest) t rest.
Proof.
  destruct t as [ty w]. intros Ht Hr. destruct (sep_stops _ Hr) as [H1 H2]. cbn [snd].
  destruct (decide (ty = TokenString)) as [->|Hne]; [by apply lexes1_text|].
  assert (Hk : lookupKeyword w = ty ∧ ((head_is isIdentifierStart w && all_chars isIdentifierChar w) ||
       (HasPrefix w "!" && all_chars isIdentifierChar (drop_string 1 w)) = true)).
  { unfold tok_ok in Ht. cbn in Ht. destruct ty; first [congruence
      |apply andb_true_iff in Ht as [?%bool_decide_eq_true ?]; by split]. }
  destruct Hk as [<- [[Ha Hb]%andb_true_iff|[Ha Hb]%andb_true_iff]%orb_true_iff];
    [by apply lexes1_word|].
  destruct w as [|c w]; [done|]. unfold HasPrefix in Ha. cbn [String.prefix] in Ha.
  destruct (ascii_dec "!" c) as [<-|]; [|done].
  change (String "!" w) with ("!" +:+ w). rewrite string_app_assoc. apply lexes1_negated; [|done].
  cbn in Hb. by destruct w.
Qed.

Lemma name_ok_spec s : name_ok s = true →
  head_is isIdentifierStart s = true ∧ all_chars isIdentifierChar s = true ∧ lookupKeyword s = TokenIdentifier.
Proof. unfold name_ok. by intros [[? ?]%andb_true_iff ?%bool_decide_eq_true]%andb_true_iff. Qed.

Lemma name_tok_ok s : name_ok s = true → tok_ok (idt s) = true.
Proof.
  intros (H1 & H2 & H3)%name_ok_spec. unfold tok_ok, idt. cbn [fst snd].
  by rewrite H1, H2, H3.
Qed.

Lemma lexes_piece p rest :
  piece_ok p = true → head_is is_sep rest = true → lexes (piece_text p +:+ rest) p rest.
Proof.
  intros Hp Hr. destruct p as [|t1 [|t2 [|]]]; try done.
  - unfold piece_text. cbn [foldr]. rewrite string_app_nil_r. by apply lexes_one, lexes1_tok.
  - unfold piece_text. cbn [foldr]. rewrite string_app_nil_r, string_app_assoc.
    destruct t1 as [ty1 w1], t2 as [ty2 w2]. cbn [piece_ok fst snd] in *.
    apply andb_true_iff in Hp as [[[[Hn ->%bool_decide_eq_true]%andb_true_iff
      ->%bool_decide_eq_true]%andb_true_iff Ht]%andb_true_iff Hs].
    destruct (name_ok_spec _ Hn) as (H1 & H2 & H3).
    econstructor; [|apply lexes_one, lexes1_text; [done|by apply sep_stops]].
    rewrite <- H3. apply lexes1_word; [done|done|]. destruct w2 as [|c w2]; [done|].
    unfold HasPrefix in Hs. cbn [String.prefix] in Hs. by destruct (ascii_dec "/" c) as [<-|].
Qed.

Lemma lexes_line l rest :
  forallb piece_ok l = true → lexes (line_text l +:+ rest) (concat l ++ [nl]) rest.
Proof.
  unfold line_text. intros Hl. rewrite string_app_assoc, string_app_cons, string_app_nil_l.
  induction l as [|p [|p2 l] IH]; cbn [forallb] in Hl.
  - apply lexes_one, lexes1_newline.
  - rewrite andb_true_r in Hl. cbn [fmap list_fmap Join concat]. rewrite app_nil_r.
    eapply lexes_app; [by apply lexes_piece|]. apply lexes_one, lexes1_newline.
  - apply andb_true_iff in Hl as [Hp Hl]. specialize (IH Hl).
    change (Join (piece_text <$> p :: p2 :: l) " ")
      with (piece_text p +:+ " " +:+ Join (piece_text <$> p2 :: l) " ").
    rewrite !string_app_assoc. cbn [concat]. rewrite <- app_assoc.
    eapply lexes_app; [by apply lexes_piece|].
    change (" " +:+ ?s) with (String space s).
    destruct p2 as [|t2 p2]; [by rewrite andb_false_l in Hl|]. by apply lexes_blank.
Qed.

Lemma lexes_lines ls rest :
  forallb (forallb piece_ok) ls = true → lexes (lines_text ls +:+ rest) (lines_toks ls) rest.
Proof.
  unfold lines_text, lines_toks. induction ls as [|l ls IH]; cbn; [constructor|].
  intros [Hl Hls]%andb_true_iff. rewrite string_app_assoc.
  eapply lexes_app; [by apply lexes_line|by apply IH].
Qed.

(** ** What the parser makes of tokens *)
Definition tok_is (t : Token) (ts : list tok) : Prop :=
  match ts with
  | [] => Type_ t = TokenEOF
  | x :: _ => Type_ t = x.1 ∧ Literal t = x.2
  end.

Section consumes.
Context {L : Type} `{Lexer L}.
Implicit Types p : parser L.

Fixpoint lex_reads (l : L) (ts : list tok) : Prop :=
  ∃ t l', NextToken l = (t, None, l') ∧ tok_is t ts ∧
    match ts with [] => True | _ :: ts' => lex_reads l' ts' end.

(** The tokens [p] has before it: its current one and those of its lexer. *)
Definition reads p (ts : list tok) : Prop :=
  tok_is (p_current p) ts ∧ match ts with [] => True | _ :: ts' => lex_reads (p_lexer p) ts' end.

(** [m] reads the tokens [ts] down to [rest], returns [a] and reports nothing. *)
Definition consumes {A} (m : M L A) (ts : list tok) (a : A) (rest : list tok) : Prop :=
  ∀ p, reads p ts → ∃ p', m p = Some (inl a, p') ∧ reads p' rest ∧ p_errors p' = p_errors p.

Lemma consumes_ret {A} (a : A) ts : consumes (mret a) ts a ts.
Proof. intros p Hp. eauto. Qed.

Lemma consumes_bind {A B} (m : M L A) (f : A → M L B) ts a ts1 b ts2 :
  consumes m ts a ts1 → consumes (f a) ts1 b ts2 → consumes (m ≫= f) ts b ts2.
Proof.
  intros Hm Hf p Hp. destruct (Hm p Hp) as (p1 & E1 & Hp1 & He1).
  destruct (Hf p1 Hp1) as (p2 & E2 & Hp2 & He2).
  exists p2. unfold mbind, M_bind. rewrite E1. split_and!; [done|done|congruence].
Qed.

Lemma consumes_current {B} (f : Token → M L B) ts b rest :
  (∀ t, tok_is t ts → consumes (f t) ts b rest) → consumes (current ≫= f) ts b rest.
Proof. intros Hf p Hp. apply Hf; [apply Hp|done]. Qed.

Lemma consumes_advance x ts : consumes advance (x :: ts) tt ts.
Proof.
  intros p [Hc Hl]. cbn in Hl.
  assert (Hl' : ∃ t l', NextToken (p_lexer p) = (t, None, l') ∧ tok_is t ts ∧
    match ts with [] => True | _ :: ts' => lex_reads l' ts' end) by (destruct ts; exact Hl).
  destruct Hl' as (t & l' & E & Ht & Hts). unfold advance. rewrite E.
  eexists. split; [done|]. split; [|done]. split; [done|exact Hts].
Qed.

Lemma consumes_bind_advance {B} (f : unit → M L B) x ts b rest :
  consumes (f tt) ts b rest → consumes (advance ≫= f) (x :: ts) b rest.
Proof. intros Hf. eapply consumes_bind; [apply consumes_advance|exact Hf]. Qed.

Lemma consumes_loop {A B} n (step : A → M L (A + B)) a ts a' ts1 b ts2 :
  consumes (step a) ts (inl a') ts1 → consumes (loop n step a') ts1 b ts2 →
  consumes (loop (S n) step a) ts b ts2.
Proof. intros Hs Hl. cbn [loop]. eapply consumes_bind; [exact Hs|exact Hl]. Qed.

Lemma consumes_loop_end {A B} n (step : A → M L (A + B)) a ts b rest :
  consumes (step a) ts (inr b) rest → consumes (loop (S n) step a) ts b rest.
Proof. intros Hs. cbn [loop]. eapply consumes_bind; [exact Hs|apply consumes_ret]. Qed.
End consumes.

(** Decides the tests between two given token types. *)
Ltac decide_types :=
  repeat match goal with
  | |- context [bool_decide (@eq TokenType ?a ?b)] =>
      let r := eval vm_compute in (bool_decide (@eq TokenType a b)) in
      match r with true => idtac | false => idtac end;
      change (bool_decide (@eq TokenType a b)) with r
  end.

(** Runs a method over the tokens in front of it, deciding every test on the
    current token from its type. *)
Ltac eat_step :=
  match goal with
  | |- consumes (current ≫= _) _ _ _ =>
      let t := fresh "t" in let Hty := fresh "Hty" in let Hlit := fresh "Hlit" in
      apply consumes_current; intros t; cbn [tok_is]; cbn [fst snd kw idt nl];
      first [intros [Hty Hlit]|intros Hty];
      unfold isAtEnd_, isAtNewline_, isNextSection_, is_type;
      rewrite ?Hty, ?Hlit; cbn [at_end]; decide_types; cbn [orb andb negb]; cbv match
  | |- consumes (advance ≫= _) (_ :: _) _ _ => apply consumes_bind_advance; cbn beta
  | |- consumes (mret _) _ _ _ => apply consumes_ret
  end.
Ltac eat := repeat eat_step.

(** ** Reading names, paths and values *)
Definition plain (x : tok) : Prop := at_end x.1 = false ∧ x.1 ≠ TokenNewline.

Section methods.
Context {L : Type} `{Lexer L}.
Variable fuel : nat.

Lemma consumes_skip ts rest :
  Forall plain ts → (length ts < fuel)%nat →
  consumes (L := L) (skipToNewline fuel) (ts ++ nl :: rest) tt (nl :: rest).
Proof.
  unfold skipToNewline, skip_until. intros Hts. generalize fuel. induction Hts as [|x ts [He Hn] Hts IH]; intros n Hf.
  - destruct n; [cbn in Hf; lia|]. apply consumes_loop_end. cbn [app]. eat.
  - destruct n; [cbn in Hf; lia|]. cbn [app]. eapply consumes_loop; [|apply IH; cbn in Hf; lia].
    apply consumes_current. intros t [Hty Hlit]. unfold isAtNewline_, isAtEnd_.
    rewrite Hty, He, bool_decide_eq_false_2 by done. cbn. eat.
Qed.

Lemma consumes_bind_skip {B} (f : unit → M L B) rest b ts2 :
  (0 < fuel)%nat → consumes (f tt) (nl :: rest) b ts2 →
  consumes (skipToNewline fuel ≫= f) (nl :: rest) b ts2.
Proof.
  intros Hf Hb. eapply consumes_bind; [|exact Hb]. by apply (consumes_skip []).
Qed.

Lemma consumes_names {A} (add : string → A → A) names a x rest :
  x.1 ≠ TokenIdentifier → (length names < fuel)%nat →
  consumes (L := L) (read_names fuel add a) ((idt <$> names) ++ x :: rest)
    (foldl (λ a n, add n a) a names) (x :: rest).
Proof.
  intros Hx. unfold read_names. generalize fuel. revert a. induction names as [|n names IH]; intros a k Hf.
  - destruct k; [cbn in Hf; lia|]. apply consumes_loop_end. cbn [fmap list_fmap app].
    apply consumes_current. intros t [Hty _]. unfold is_type. rewrite Hty, bool_decide_eq_false_2 by done. eat.
  - destruct k; [cbn in Hf; lia|]. cbn [fmap list_fmap app foldl].
    eapply consumes_loop; [|apply IH; cbn in Hf; lia]. eat.
Qed.

(** What may follow a path so that it is not read on. *)
Definition path_stop (p : path) (x : tok) : Prop :=
  match p with PName _ => ¬ (x.1 = TokenString ∧ HasPrefix x.2 "/" = true) | _ => True end.

Lemma consumes_readPath p x rest :
  path_ok p = true → path_stop p x →
  consumes (L := L) readPath (path_toks p ++ x :: rest) (path_string p) (x :: rest).
Proof.
  intros Hp Hx. unfold readPath. destruct p as [s|s|d r]; cbn [path_toks path_string app].
  - apply andb_true_iff in Hp as [_ Hp]. eat. unfold cons_string. rewrite Hlit, Hp. cbn. eat.
  - eat. assert (bool_decide (x.1 = TokenString) && cons_string t0 = false) as Hf.
    { unfold cons_string. rewrite Hlit0. cbn in Hx. destruct (HasPrefix x.2 "/"); [|by rewrite andb_false_r].
      rewrite andb_true_r. apply bool_decide_eq_false. tauto. }
    rewrite <- andb_assoc, Hf, andb_false_r. eat.
  - apply andb_true_iff in Hp as [_ Hp]. eat.
    unfold cons_string. rewrite Hlit0, Hp. cbn. eat.
Qed.
Lemma word_cases w : word_ok w = true →
  (w.1 = TokenIdentifier ∨ w.1 = TokenString) ∧ w.2 ≠ "".
Proof.
  destruct w as [ty s]. unfold word_ok. cbn. destruct ty; try done; (split; [by auto|by intros ->]).
Qed.

Lemma consumes_value_loop ws parts rest n :
  Forall (λ w, word_ok w = true) ws → (length ws < n)%nat →
  consumes (L := L) (loop n parseValue_step parts) (ws ++ nl :: rest) (parts ++ ws.*2) (nl :: rest).
Proof.
  intros Hws. revert parts n. induction Hws as [|w ws Hw Hws IH]; intros parts n Hn.
  - destruct n; [cbn in Hn; lia|]. apply consumes_loop_end. unfold parseValue_step. cbn [app fmap list_fmap].
    rewrite app_nil_r. eat.
  - destruct n; [cbn in Hn; lia|]. cbn [app fmap list_fmap].
    replace (parts ++ w.2 :: ws.*2) with ((parts ++ [w.2]) ++ ws.*2) by (by rewrite <- app_assoc).
    eapply consumes_loop; [|apply IH; cbn in Hn; lia]. unfold parseValue_step.
    destruct w as [ty s]. destruct (word_cases _ Hw) as [[Ht|Ht] _]; cbn in Ht; subst ty; eat.
Qed.

Lemma consumes_words ws rest :
  Forall (λ w, word_ok w = true) ws → (length ws < fuel)%nat →
  consumes (L := L) (parseValue fuel) (ws ++ nl :: rest) (Join ws.*2 " ") (nl :: rest).
Proof.
  intros Hws Hf. unfold parseValue. eapply consumes_bind; [by apply (consumes_value_loop ws [])|].
  apply consumes_ret.
Qed.

Lemma consumes_lookup_value k name rest :
  (1 < fuel)%nat →
  consumes (L := L) (parseValue fuel) (kw (kind_token k) :: idt name :: nl :: rest)
    (kind_name k +:+ ":" +:+ name) (nl :: rest).
Proof.
  intros Hf. unfold parseValue. destruct fuel as [|[|n]]; [lia..|].
  apply (consumes_bind _ _ _ [kind_name k +:+ ":" +:+ name] (nl :: rest)); [|apply consumes_ret].
  apply (consumes_loop _ _ _ _ [kind_name k +:+ ":" +:+ name] (nl :: rest)).
  - unfold parseValue_step. destruct k; cbn [kind_token]; eat; unfold value_key; eat.
  - apply consumes_loop_end. unfold parseValue_step. eat.
Qed.

Lemma path_string_nonempty p : path_ok p = true → String.eqb (path_string p) "" = false.
Proof.
  destruct p as [s|s|d r]; cbn.
  - destruct s; [done|reflexivity].
  - destruct s; [done|reflexivity].
  - destruct d; [done|reflexivity].
Qed.

Lemma name_nonempty s : name_ok s = true → String.eqb s "" = false.
Proof. by destruct s. Qed.

Lemma consumes_lookup_key cfgType exact name ts :
  String.eqb cfgType "FILE" = false →
  consumes (L := L) (readLookupKey cfgType exact) (idt name :: ts) name ts.
Proof. intros Hc. unfold readLookupKey. rewrite Hc, andb_false_r. eat. Qed.

Lemma consumes_postconf_line directive allow x key v rest :
  value_ok allow v = true → (length (concat (value_pieces v)) < fuel)%nat → (1 < fuel)%nat →
  consumes (L := L) (parsePostconfLine fuel directive allow)
    (x :: idt key :: concat (value_pieces v) ++ nl :: rest)
    (key, value_string v, value_lookup v) (nl :: rest).
Proof.
  intros Hv Hf Hf1. unfold parsePostconfLine.
  destruct v as [|k name|p|ws]; cbn [value_pieces concat app value_string value_lookup].
  - eat.
  - apply andb_true_iff in Hv as [Hn Hk].
    unfold lookupType. destruct k; cbn [kind_token]; eat; rewrite ?Hk; cbn [negb]; eat.
    all: eapply consumes_bind; [by apply consumes_lookup_key|].
    all: rewrite (name_nonempty _ Hn); apply consumes_ret.
  - unfold lookupType. eat. eapply consumes_bind.
    + unfold readLookupKey. cbn. rewrite app_nil_r. apply consumes_readPath; [done|]. by destruct p; cbn; [|intros []|].
    + rewrite (path_string_nonempty _ Hv). apply consumes_ret.
  - apply andb_true_iff in Hv as [Hws'%forallb_Forall Hfree].
    assert (Hcat : concat ((λ w : tok, [w]) <$> ws) = ws).
    { clear. induction ws as [|w ws IH]; cbn; [done|by f_equal]. }
    cbn in Hf. rewrite Hcat in *. destruct ws as [|[ty w] ws]; [done|]. cbn [words_free snd] in Hfree.
    apply negb_true_iff in Hfree. destruct (word_cases _ (Forall_inv Hws')) as [[Ht|Ht] _]; cbn in Ht; subst ty.
    all: cbn [app]; unfold lookupType, parseLiteralValue; eat; rewrite Hfree; cbn [negb]; eat.
    all: eapply consumes_bind; [|apply consumes_ret].
    all: eat; apply (consumes_words (_ :: ws)); done.
Qed.
End methods.

(** ** Lines *)
Lemma lines_toks_app a b : lines_toks (a ++ b) = lines_toks a ++ lines_toks b.
Proof. unfold lines_toks. by rewrite fmap_app, concat_app. Qed.

Lemma lines_toks_one l : lines_toks [l] = concat l ++ [nl].
Proof. unfold lines_toks. cbn. by rewrite app_nil_r. Qed.

Lemma lines_toks_cons l ls : lines_toks (l :: ls) = concat l ++ nl :: lines_toks ls.
Proof. unfold lines_toks. cbn. by rewrite <- app_assoc. Qed.

Lemma concat_ids (names : list string) : concat ((λ n, [idt n]) <$> names) = idt <$> names.
Proof. induction names as [|n names IH]; cbn; [done|by f_equal]. Qed.

Section lines.
Context {L : Type} `{Lexer L}.
Variable fuel : nat.

Ltac skip := apply consumes_bind_skip; [lia|cbn beta].

(** One line of an if block: its turns of the loop of the body. *)
Lemma consumes_cond_line c l rest n b rest' :
  cond_line_ok l = true → l ≠ LBlank → (length (lines_toks (line_pieces l)) < fuel)%nat →
  (∀ m, (n ≤ m)%nat → consumes (L := L) (loop m (parseConditionalBody_step fuel) (cond_line c l)) rest b rest') →
  consumes (L := L) (loop (3 + n) (parseConditionalBody_step fuel) c) (lines_toks (line_pieces l) ++ rest) b rest'.
Proof.
  intros Hok Hnb Hf Hrest.
  destruct l as [|key v|key v|kd name|d]; try done; cbn [line_pieces cond_line] in *;
    rewrite lines_toks_one in *; cbn [concat] in *; rewrite ?length_app in Hf; cbn in Hf;
    apply andb_true_iff in Hok as [Hk Hv]; rewrite <- ?app_assoc; cbn [app Nat.add].
  - eapply consumes_loop with (ts1 := nl :: rest);
      [|eapply consumes_loop with (ts1 := rest); [|apply Hrest; lia]; unfold parseConditionalBody_step; eat].
    unfold parseConditionalBody_step, parseConditionalLine. eat. eapply consumes_bind; [eat|apply consumes_ret].
    eapply consumes_bind; [apply consumes_postconf_line; [done|lia|lia]|]. cbn beta iota. skip. apply consumes_ret.
  - eapply consumes_loop with (ts1 := nl :: rest);
      [|eapply consumes_loop with (ts1 := rest); [|apply Hrest; lia]; unfold parseConditionalBody_step; eat].
    unfold parseConditionalBody_step, parseConditionalLine. eat. eapply consumes_bind; [eat|apply consumes_ret].
    eapply consumes_bind; [apply consumes_postconf_line; [done|lia|lia]|]. cbn beta iota. skip. apply consumes_ret.
  - eapply consumes_loop with (a' := cond_line c (LRequire kd name)) (ts1 := idt name :: nl :: rest);
      [|eapply consumes_loop with (ts1 := nl :: rest);
        [|eapply consumes_loop with (ts1 := rest); [|apply Hrest; lia]; unfold parseConditionalBody_step; eat]].
    + unfold parseConditionalBody_step, parseConditionalLine.
      destruct kd; try done; cbn [kind_token]; eat; (eapply consumes_bind; [eat|apply consumes_ret]);
        unfold parseConditionalRequiredVar; eat.
    + unfold parseConditionalBody_step, parseConditionalLine. eat. eapply consumes_bind; [eat|apply consumes_ret].
      eapply consumes_bind; [apply (consumes_skip fuel [idt name]); [|cbn; lia]|].
      * constructor; [by split|constructor].
      * destruct kd; try done; apply consumes_ret.
Qed.
Definition body_toks (body : list line) : list tok := lines_toks (concat (line_pieces <$> body)).

Lemma body_toks_cons l body : body_toks (l :: body) = lines_toks (line_pieces l) ++ body_toks body.
Proof. unfold body_toks. by rewrite <- lines_toks_app. Qed.

Lemma line_toks_long l : l ≠ LBlank → cond_line_ok l = true → (3 ≤ length (lines_toks (line_pieces l)))%nat.
Proof.
  destruct l; try done; intros _ _; cbn [line_pieces]; rewrite lines_toks_one, length_app; cbn;
    rewrite ?length_app; lia.
Qed.

Lemma consumes_cond_loop body c rest n :
  forallb cond_line_ok body = true → (length (body_toks body) < n)%nat → (length (body_toks body) + 1 < fuel)%nat →
  consumes (L := L) (loop n (parseConditionalBody_step fuel) c) (body_toks body ++ kw TokenFi :: nl :: rest)
    (foldl cond_line c body) (nl :: rest).
Proof.
  revert c n. induction body as [|l body IH]; intros c n; cbn [forallb].
  - intros _ Hn Hf. destruct n; [cbn in Hn; lia|]. apply consumes_loop_end.
    unfold parseConditionalBody_step. cbn [app foldl]. change (body_toks []) with (@nil tok). cbn [app]. eat.
    eapply consumes_bind; [apply (consumes_skip fuel [kw TokenFi]); [|cbn in *; lia]|apply consumes_ret].
    by repeat constructor.
  - intros [Hl Hb]%andb_true_iff Hn Hf. rewrite body_toks_cons, length_app in *. rewrite <- app_assoc.
    cbn [foldl]. assert (Hcase : l = LBlank ∨ l ≠ LBlank) by (destruct l; [by left|by right..]).
    destruct Hcase as [->|Hnb].
    + cbn in Hn, Hf. destruct n; [lia|]. cbn [line_pieces]. rewrite lines_toks_one. cbn [concat app].
      eapply consumes_loop with (ts1 := body_toks body ++ kw TokenFi :: nl :: rest); [|apply IH; [done|lia..]].
      unfold parseConditionalBody_step. eat.
    + pose proof (line_toks_long l Hnb Hl). destruct n as [|[|[|n]]]; [lia..|].
      apply consumes_cond_line; [done|done|lia|]. intros m Hm. apply IH; [done|lia..].
Qed.

Lemma consumes_conditional s (service negated : bool) key body rest :
  name_ok key = true → forallb cond_line_ok body = true → (length (body_toks body) + 1 < fuel)%nat →
  consumes (L := L) (parseConditional fuel s)
    (kw TokenIf :: kw (if service then TokenService else TokenVar) :: idt (cond_key negated key) ::
     nl :: body_toks body ++ kw TokenFi :: nl :: rest)
    (directive_section s (DIf service negated key body)) (nl :: rest).
Proof.
  intros Hk Hb Hf. unfold parseConditional, parseConditionalHeader.
  apply (consumes_bind _ _ _ (if service then "SERVICE" else "VAR", key, negated)
    (nl :: body_toks body ++ kw TokenFi :: nl :: rest)).
  - assert (Hneg : HasPrefix (cond_key negated key) "!" = negated ∧
      (if negated then drop_string 1 (cond_key negated key) else cond_key negated key) = key).
    { apply name_ok_spec in Hk as (Hk & _). destruct negated; cbn [cond_key]; [by destruct key|].
      split; [|done]. destruct key as [|c0 key]; [done|]. cbn in Hk. unfold HasPrefix. cbn [String.prefix].
      apply start_not_bang in Hk. destruct (ascii_dec "!" c0) as [<-|]; done. }
    destruct Hneg as [H1 H2]. destruct service; eat; rewrite H1, H2; apply consumes_ret.
  - skip. unfold parseConditionalBody. eapply consumes_bind; [|apply consumes_ret].
    destruct fuel as [|n] eqn:Efuel; [lia|].
    eapply consumes_loop with (ts1 := body_toks body ++ kw TokenFi :: nl :: rest).
    + unfold parseConditionalBody_step. eat.
    + rewrite <- Efuel in *. apply consumes_cond_loop; [done|lia..].
Qed.

(** ** Directives and section bodies *)
Lemma consumes_required s ty err x name rest :
  (0 < fuel)%nat →
  consumes (L := L) (parseRequiredVarDirective fuel s ty err) (x :: idt name :: nl :: rest)
    (set_required <[name := ty]> s) (nl :: rest).
Proof. intros Hf. unfold parseRequiredVarDirective. eat. skip. apply consumes_ret. Qed.

Lemma consumes_rewrite s src dst mode rest :
  directive_ok (DRewrite src dst mode) = true → (0 < fuel)%nat →
  consumes (L := L) (parseRewrite fuel s) (lines_toks (directive_pieces (DRewrite src dst mode)) ++ rest)
    (directive_section s (DRewrite src dst mode)) (nl :: rest).
Proof.
  intros Hok Hf. cbn [directive_pieces directive_section directive_ok] in *.
  apply andb_true_iff in Hok as [[[Hs Hd]%andb_true_iff Ha]%andb_true_iff Hm].
  rewrite lines_toks_one. cbn [concat]. rewrite <- !app_assoc. cbn [app]. unfold parseRewrite. eat.
  assert (Hdst : ∃ x ts, path_toks dst = x :: ts ∧ path_stop src x).
  { destruct dst; eexists _, _; (split; [done|]); destruct src; cbn; try done; by intros []. }
  destruct Hdst as (x & ts & Ex & Hstop). eapply consumes_bind.
  { rewrite Ex. cbn [app]. apply consumes_readPath; [done|exact Hstop]. }
  cbn beta. rewrite (path_string_nonempty _ Hs).
  change (x :: ts ++ ?r) with ((x :: ts) ++ r). rewrite <- Ex.
  destruct mode as [m|]; cbn [concat app default from_option] in *.
  - eapply consumes_bind; [apply consumes_readPath; [done|]; by destruct dst; cbn; [|intros []|]|].
    cbn beta. rewrite (path_string_nonempty _ Hd). eat. eapply consumes_bind; [eat|]. skip. apply consumes_ret.
  - eapply consumes_bind; [apply consumes_readPath; [done|]; by destruct dst; cbn; [|intros []|]|].
    cbn beta. rewrite (path_string_nonempty _ Hd). eat. eapply consumes_bind; [eat|]. skip. apply consumes_ret.
Qed.
Lemma consumes_directive s l rest :
  line_ok l = true → l ≠ LBlank → (length (lines_toks (line_pieces l)) < fuel)%nat →
  consumes (L := L) (parseDirective fuel s) (lines_toks (line_pieces l) ++ rest)
    (line_section s l) (nl :: rest).
Proof.
  intros Hok Hnb Hf. destruct l as [|key v|key v|kd name|d]; try done.
  1-2: cbn [line_pieces line_section line_ok] in *; apply andb_true_iff in Hok as [Hk Hv];
    rewrite lines_toks_one, length_app in *; cbn in Hf; cbn [concat app]; rewrite <- app_assoc; cbn [app];
    unfold parseDirective; eat; first [unfold parsePostconf|unfold parsePostconfd];
    (eapply consumes_bind; [apply consumes_postconf_line; [done|lia|lia]|]); cbn beta iota; skip;
    apply consumes_ret.
  - cbn [line_pieces line_section] in *. rewrite lines_toks_one in *. cbn [concat app] in *. cbn in Hf.
    unfold parseDirective. destruct kd; cbn [kind_token]; eat; apply consumes_required; lia.
  - cbn [line_pieces line_section line_ok] in *. destruct d as [src dst mode|name|names|key kd name| |sv neg key body].
    + assert (Hstart : ∃ ts, lines_toks (directive_pieces (DRewrite src dst mode)) = kw TokenRewrite :: ts)
        by (cbn [directive_pieces]; rewrite lines_toks_one; cbn [concat app]; eauto).
      destruct Hstart as [ts Hstart]. unfold parseDirective. rewrite Hstart. cbn [app]. eat.
      change (kw TokenRewrite :: ts ++ rest) with ((kw TokenRewrite :: ts) ++ rest). rewrite <- Hstart.
      apply consumes_rewrite; [done|lia].
    + cbn [directive_pieces directive_section] in *. rewrite lines_toks_one in *. cbn [concat app] in *.
      unfold parseDirective. eat. apply consumes_required. cbn in Hf. lia.
    + cbn [directive_pieces directive_section] in *. rewrite lines_toks_one in *. cbn [concat app] in *.
      rewrite concat_ids in *. rewrite <- app_assoc. cbn [app length] in *.
      rewrite length_app, length_fmap in Hf. cbn in Hf. unfold parseDirective. eat. unfold parseRestart. eat.
      eapply consumes_bind; [apply consumes_names; [done|lia]|]. skip. apply consumes_ret.
    + cbn [directive_pieces directive_section] in *. rewrite lines_toks_one in *. cbn [concat app] in *.
      cbn in Hf. unfold parseDirective. eat. change (EqualFold "LDAP" "LDAP") with true. cbv match.
      unfold parseLdap. eapply (consumes_bind _ _ _ (key, kind_name kd +:+ ":" +:+ name, _)).
      * unfold parseLdapDirective. eat. eapply consumes_bind; [apply consumes_lookup_value; lia|]. skip.
        apply consumes_ret.
      * cbn beta iota. destruct kd, name; apply consumes_ret.
    + cbn [directive_pieces directive_section] in *. rewrite lines_toks_one in *. cbn [concat app] in *.
      cbn in Hf. unfold parseDirective. eat. unfold parseProxygen. eat. skip. apply consumes_ret.
    + apply andb_true_iff in Hok as [Hk Hb]. cbn [directive_pieces] in *.
      rewrite lines_toks_cons, lines_toks_app, lines_toks_one in *. cbn [concat app] in *.
      change (lines_toks (concat (line_pieces <$> body))) with (body_toks body) in *.
      cbn [length] in Hf. rewrite length_app in Hf. cbn in Hf. rewrite <- app_assoc. cbn [app].
      unfold parseDirective. eat. apply consumes_conditional; [done|done|lia].
Qed.

(** What may follow a section: the end or another section. *)
Definition section_follows (ts : list tok) : Prop := match ts with [] => True | x :: _ => x.1 = TokenSection end.

Lemma consumes_body_end s n rest :
  section_follows rest → consumes (L := L) (loop (S n) (parseBody_step fuel) s) rest s rest.
Proof.
  intros Hr. apply consumes_loop_end. unfold parseBody_step. destruct rest as [|x rest]; [eat|].
  destruct x as [ty w]. cbn in Hr. subst ty. eat.
Qed.

Lemma consumes_body lines s n rest :
  forallb line_ok lines = true → section_follows rest →
  (length (body_toks lines) < n)%nat → (length (body_toks lines) < fuel)%nat →
  consumes (L := L) (loop n (parseBody_step fuel) s) (body_toks lines ++ rest) (foldl line_section s lines) rest.
Proof.
  intros Hok Hr. revert s n Hok. induction lines as [|l lines IH]; intros s n; cbn [forallb].
  - intros _ Hn Hf. destruct n; [cbn in Hn; lia|]. by apply consumes_body_end.
  - intros [Hl Hb]%andb_true_iff Hn Hf. rewrite body_toks_cons, length_app in *. rewrite <- app_assoc. cbn [foldl].
    assert (Hcase : l = LBlank ∨ l ≠ LBlank) by (destruct l; [by left|by right..]).
    destruct Hcase as [->|Hnb].
    + cbn in Hn, Hf. destruct n; [lia|]. cbn [line_pieces]. rewrite lines_toks_one. cbn [concat app].
      eapply consumes_loop with (ts1 := body_toks lines ++ rest); [|apply IH; [done|lia..]].
      unfold parseBody_step. eat.
    + assert (Hlen : (2 ≤ length (lines_toks (line_pieces l)))%nat).
      { destruct l as [|? ?|? ?|? ?|d]; try done; [..|destruct d]; cbn [line_pieces directive_pieces];
          rewrite ?lines_toks_cons, ?length_app; cbn; rewrite ?length_app; cbn; lia. }
      destruct n as [|[|n]]; [lia..|].
      eapply consumes_loop with (ts1 := nl :: body_toks lines ++ rest);
        [|eapply consumes_loop with (ts1 := body_toks lines ++ rest);
          [unfold parseBody_step; eat|apply IH; [done|lia..]]].
      unfold parseBody_step.
      assert (Hstart : ∃ x ts, lines_toks (line_pieces l) = x :: ts ∧
        at_end x.1 = false ∧ x.1 ≠ TokenSection ∧ x.1 ≠ TokenNewline).
      { destruct l as [|? ?|? ?|k ?|d]; try done; [..|destruct d]; cbn [line_pieces directive_pieces];
          rewrite ?lines_toks_cons, ?lines_toks_one; cbn [concat app]; eexists _, _; (split; [done|]);
          try destruct k; by split_and!. }
      destruct Hstart as (x & ts & Ex & He & Hs & Hnl).
      apply consumes_current. intros t Ht. rewrite Ex in Ht. cbn in Ht. destruct Ht as [Hty _].
      unfold isAtEnd_, isNextSection_, isAtNewline_. rewrite Hty, He.
      rewrite !bool_decide_eq_false_2 by done. cbn [orb].
      eapply consumes_bind; [apply consumes_directive; [done|done|lia]|apply consumes_ret].
Qed.
End lines.

(** ** Files *)
Section files.
Context {L : Type} `{Lexer L}.
Variable fuel : nat.

Lemma consumes_section c s rest :
  section_ok s = true → section_follows rest → (length (lines_toks (section_pieces s)) < fuel)%nat →
  consumes (L := L) (parseSection fuel c) (lines_toks (section_pieces s) ++ rest) (section_config c s) rest.
Proof.
  intros [[Hn Hd]%andb_true_iff Hl]%andb_true_iff Hr Hf. unfold section_pieces in *. rewrite lines_toks_cons in *.
  change (lines_toks (concat (line_pieces <$> s_lines s))) with (body_toks (s_lines s)) in *.
  assert (Hhead : ∀ X : list tok,
    concat ([kw TokenSection] :: [idt (s_name s)] :: match s_depends s with
      [] => [] | ds => [kw TokenDepends] :: ((λ d, [idt d]) <$> ds) end) ++ X =
    kw TokenSection :: idt (s_name s) ::
      match s_depends s with [] => X | ds => kw TokenDepends :: (idt <$> ds) ++ X end).
  { intros X. cbn [concat app]. destruct (s_depends s) as [|d ds] eqn:Ed; [done|].
    cbn [concat app]. by rewrite concat_ids. }
  rewrite <- app_assoc, Hhead. rewrite Hhead in Hf. cbn [app].
  assert (Hfuel : (length (body_toks (s_lines s)) + 1 < fuel ∧ length (s_depends s) < fuel)%nat).
  { destruct (s_depends s) as [|d ds]; cbn in Hf |- *; rewrite ?length_app in Hf; cbn in Hf;
      rewrite ?length_fmap in Hf; lia. }
  destruct Hfuel as [Hfuel Hfd]. unfold parseSection. unfold skipNewlines. destruct fuel as [|n] eqn:Efuel; [lia|].
  eapply consumes_bind; [apply consumes_loop_end; eat|]. rewrite <- Efuel in *. eat.
  apply (consumes_bind _ _ _ (foldl (λ s d, add_depend d s) (new_section (s_name s)) (s_depends s))
    (nl :: body_toks (s_lines s) ++ rest)).
  - destruct (s_depends s) as [|d ds] eqn:Ed.
    + destruct Hty1 as [Ht1 _]. cbn in Ht1. rewrite Ht1. apply consumes_ret.
    + destruct Hty1 as [Ht1 _]. cbn in Ht1. rewrite Ht1. decide_types. cbv match. eat. 
      apply (consumes_names fuel add_depend (d :: ds) (new_section (s_name s)) nl); [done|exact Hfd].
  - eat. unfold parseBody. eapply consumes_bind; [by apply consumes_body; [..|lia|lia]|]. apply consumes_ret.
Qed.

Lemma consumes_recover {A} (m h : M L A) ts a rest : consumes m ts a rest → consumes (recover m h) ts a rest.
Proof. intros Hm p Hp. destruct (Hm p Hp) as (p' & E & H1 & H2). exists p'. unfold recover. by rewrite E. Qed.

Lemma file_toks_cons s f : lines_toks (file_pieces (s :: f)) = lines_toks (section_pieces s) ++ lines_toks (file_pieces f).
Proof. unfold file_pieces. by rewrite <- lines_toks_app. Qed.

Lemma section_toks s : ∃ ts, lines_toks (section_pieces s) = kw TokenSection :: ts.
Proof. unfold section_pieces. rewrite lines_toks_cons. cbn [concat app]. eauto. Qed.

Lemma consumes_sections f c n :
  file_ok f = true → (length (lines_toks (file_pieces f)) < n)%nat → (length (lines_toks (file_pieces f)) < fuel)%nat →
  consumes (L := L) (loop n (parseSections_step fuel) c) (lines_toks (file_pieces f)) (foldl section_config c f) [].
Proof.
  revert c n. induction f as [|s f IH]; intros c n.
  - intros _ Hn _. destruct n; [cbn in Hn; lia|]. apply consumes_loop_end. unfold parseSections_step. eat.
  - intros [Hs Hok]%andb_true_iff. rewrite file_toks_cons, length_app. intros Hn Hf.
    destruct (section_toks s) as [ts Ets].
    assert (Hlen : (1 ≤ length (lines_toks (section_pieces s)))%nat) by (rewrite Ets; cbn; lia).
    destruct n; [lia|]. cbn [foldl].
    eapply consumes_loop with (ts1 := lines_toks (file_pieces f)); [|apply IH; [done|lia..]].
    unfold parseSections_step. apply consumes_current. intros t Ht. rewrite Ets in Ht. destruct Ht as [Hty _].
    cbn in Hty. unfold isAtEnd_. rewrite Hty. cbn [at_end].
    eapply consumes_bind; [|apply consumes_ret]. apply consumes_recover, consumes_section; [done| |lia].
    destruct f as [|s2 f]; [done|]. rewrite file_toks_cons. by destruct (section_toks s2) as [ts2 ->].
Qed.
End files.

(** ** Pieces of a valid file *)
Lemma path_piece_ok p : path_ok p = true → piece_ok (path_toks p) = true.
Proof.
  destruct p as [s|s|d r]; cbn [path_ok path_toks piece_ok].
  - by intros [? _]%andb_true_iff.
  - apply name_tok_ok.
  - intros [[H1 H2]%andb_true_iff H3]%andb_true_iff. cbn [idt fst snd]. by rewrite H1, H2, H3.
Qed.

Lemma forallb_fmap_ok {A B} (f : A → B) (p : B → bool) l :
  forallb p (f <$> l) = forallb (λ x, p (f x)) l.
Proof. induction l as [|x l IH]; cbn; [done|by rewrite IH]. Qed.

Lemma forallb_mono {A} (p q : A → bool) l :
  (∀ x, p x = true → q x = true) → forallb p l = true → forallb q l = true.
Proof. rewrite !forallb_Forall. intros Hpq Hl. by apply (Forall_impl _ _ _ Hl). Qed.

Lemma names_pieces_ok names : forallb name_ok names = true → forallb piece_ok ((λ n, [idt n]) <$> names) = true.
Proof. rewrite forallb_fmap_ok. apply forallb_mono. apply name_tok_ok. Qed.


Lemma value_pieces_ok allow v : value_ok allow v = true → forallb piece_ok (value_pieces v) = true.
Proof.
  destruct v as [|k name|p|ws]; cbn [value_ok value_pieces].
  - done.
  - intros [Hn _]%andb_true_iff. cbn [forallb piece_ok]. rewrite (name_tok_ok _ Hn). by destruct k.
  - intros Hp. cbn [forallb]. by rewrite (path_piece_ok _ Hp).
  - intros [Hw _]%andb_true_iff. rewrite forallb_fmap_ok. eapply forallb_mono, Hw. intros [ty s] Hs.
    unfold word_ok in Hs. cbn in Hs. destruct ty; try done; by apply name_tok_ok.
Qed.

Lemma cond_line_pieces_ok l : cond_line_ok l = true → forallb (forallb piece_ok) (line_pieces l) = true.
Proof.
  destruct l as [|key v|key v|k name|d]; cbn [cond_line_ok line_pieces]; try done.
  - intros [Hk Hv]%andb_true_iff. cbn [forallb piece_ok]. by rewrite (name_tok_ok _ Hk), (value_pieces_ok _ _ Hv).
  - intros [Hk Hv]%andb_true_iff. cbn [forallb piece_ok]. by rewrite (name_tok_ok _ Hk), (value_pieces_ok _ _ Hv).
  - intros [Hk _]%andb_true_iff. cbn [forallb piece_ok]. rewrite (name_tok_ok _ Hk). by destruct k.
Qed.

Lemma forallb_concat {A} (p : A → bool) ls : forallb p (concat ls) = forallb (forallb p) ls.
Proof. induction ls as [|l ls IH]; cbn; [done|]. by rewrite forallb_app, IH. Qed.

Lemma body_pieces_ok body : forallb cond_line_ok body = true →
  forallb (forallb piece_ok) (concat (line_pieces <$> body)) = true.
Proof. rewrite forallb_concat, forallb_fmap_ok. apply forallb_mono, cond_line_pieces_ok. Qed.

Lemma cond_key_ok neg key : name_ok key = true → tok_ok (idt (cond_key neg key)) = true.
Proof.
  intros Hk. destruct neg; [|by apply name_tok_ok]. apply name_ok_spec in Hk as (H1 & H2 & H3).
  destruct key as [|c key]; [done|]. unfold tok_ok, idt, cond_key. cbn [fst snd].
  change ("!" +:+ String c key) with (String "!" (String c key)).
  change (drop_string 1 (String "!" (String c key))) with (String c key). rewrite H2.
  by rewrite bool_decide_eq_true_2.
Qed.

Lemma line_pieces_ok l : line_ok l = true → forallb (forallb piece_ok) (line_pieces l) = true.
Proof.
  destruct l as [|key v|key v|k name|d]; cbn [line_ok line_pieces]; try done.
  1-2: intros [Hk Hv]%andb_true_iff; cbn [forallb piece_ok];
    by rewrite (name_tok_ok _ Hk), (value_pieces_ok _ _ Hv).
  - intros Hk. cbn [forallb piece_ok]. rewrite (name_tok_ok _ Hk). by destruct k.
  - destruct d as [src dst mode|name|names|key kd name| |sv neg key body]; cbn [directive_ok directive_pieces].
    + intros [[[Hs Hd]%andb_true_iff _]%andb_true_iff Hm]%andb_true_iff. cbn [forallb].
      rewrite (path_piece_ok _ Hs), (path_piece_ok _ Hd). destruct mode as [m|]; [|done].
      cbn [from_option] in Hm. cbn [forallb piece_ok]. unfold tok_ok at 3. cbn [fst snd]. by rewrite Hm.
    + intros Hn. cbn [forallb piece_ok]. by rewrite (name_tok_ok _ Hn).
    + intros Hn. cbn [forallb]. by rewrite (names_pieces_ok _ Hn).
    + intros [Hk Hn]%andb_true_iff. cbn [forallb piece_ok]. rewrite (name_tok_ok _ Hk), (name_tok_ok _ Hn).
      by destruct kd.
    + done.
    + intros [Hk Hb]%andb_true_iff. cbn [forallb]. rewrite forallb_app, (body_pieces_ok _ Hb).
      cbn [forallb piece_ok]. rewrite (cond_key_ok neg _ Hk). by destruct sv.
Qed.

Lemma file_pieces_ok f : file_ok f = true → forallb (forallb piece_ok) (file_pieces f) = true.
Proof.
  unfold file_ok, file_pieces. rewrite forallb_concat, forallb_fmap_ok. apply forallb_mono.
  intros s [[Hn Hd]%andb_true_iff Hl]%andb_true_iff. unfold section_pieces. cbn [forallb piece_ok].
  rewrite (name_tok_ok _ Hn). rewrite forallb_concat, forallb_fmap_ok.
  rewrite (forallb_mono _ _ _ line_pieces_ok Hl).
  destruct (s_depends s) as [|d ds]; [done|]. cbn [forallb]. by rewrite (names_pieces_ok _ Hd).
Qed.

(** ** From the text to the tokens the parser sees *)
Lemma lexes_reads s ts l :
  lexes s ts "" → l_input l = s → l_peeked l = None → l_fail l = None → lex_reads l ts.
Proof.
  intros Hs. remember "" as e eqn:He. revert l. induction Hs as [s|s t s1 ts s2 H1 Hs IH]; intros l Hl Hp Hf.
  - subst s. cbn. rewrite nextToken_eq, Hp. unfold scan.
    rewrite skipWhitespace_stay by (by rewrite Hl). rewrite Hl, Hf. eauto 10.
  - destruct (H1 l Hl Hp) as (line & col & l' & E & Hi & [Hsf Hsp]). cbn [lex_reads].
    eexists _, l'. split; [exact E|]. split; [done|]. apply IH; [done|done|congruence|congruence].
Qed.

Lemma lexes_length s ts rest :
  lexes s ts rest → Forall (λ t : tok, at_end t.1 = false) ts →
  (length ts + String.length rest ≤ String.length s)%nat.
Proof.
  induction 1 as [s|s t s1 ts s2 H1 Hs IH]; intros Hts; [done|]. inversion Hts as [|? ? Ht Hts']; subst.
  set (l := {| l_input := s; l_fail := None; l_line := 0; l_column := 0; l_peeked := None |}).
  destruct (H1 l) as (line & col & l' & E & Hi & _); [done..|].
  destruct (nextToken_spec l _ _ _ eq_refl E) as (_ & Hlt & _). specialize (Hlt eq_refl Ht).
  rewrite Hi in Hlt. cbn in Hlt |- *. specialize (IH Hts'). lia.
Qed.

Lemma lookupKeyword_not_end w : at_end (lookupKeyword w) = false.
Proof.
  unfold lookupKeyword. cbn [assoc keywords].
  repeat match goal with |- context [String.eqb ?a ?b] => destruct (String.eqb a b); [done|] end. done.
Qed.

Lemma pieces_not_end ls :
  forallb (forallb piece_ok) ls = true → Forall (λ t : tok, at_end t.1 = false) (lines_toks ls).
Proof.
  intros Hls%forallb_Forall. unfold lines_toks. apply Forall_concat, Forall_fmap.
  eapply Forall_impl; [exact Hls|]. intros l Hl%forallb_Forall. apply Forall_app. split; [|by repeat constructor].
  apply Forall_concat. eapply Forall_impl; [exact Hl|]. intros p Hp.
  assert (Htok : ∀ t, tok_ok t = true → at_end t.1 = false).
  { intros [ty w] Ht. unfold tok_ok in Ht. cbn [fst snd] in Ht |- *. pose proof (lookupKeyword_not_end w) as Hk.
    destruct ty; try done; apply andb_true_iff in Ht as [Ht%bool_decide_eq_true _]; by rewrite Ht in Hk. }
  destruct p as [|t1 [|t2 [|]]]; try done; cbn [piece_ok] in Hp.
  - constructor; [auto|constructor].
  - destruct t1, t2. cbn in Hp. apply andb_true_iff in Hp as [[[[_ ->%bool_decide_eq_true]%andb_true_iff
      ->%bool_decide_eq_true]%andb_true_iff _]%andb_true_iff _]. by repeat constructor.
Qed.

(** C4: the parser reads a written configuration file as what it means.  For every file of the language
    (sections with DEPENDS, rewrites with modes, VAR/LOCAL/MAPFILE/MAPLOCAL, POSTCONF and POSTCONFD with
    lookups or literal words, RESTART, LDAP, PROXYGEN and if/fi blocks, blank lines, in any order and with
    repetitions), parsing its text gives exactly the configuration it denotes, the last of two sections of
    one name counting, and adds no error. *)
Theorem ParseString_file_text (p : parser lexer) (f : list section) :
  f ≠ [] → file_ok f = true →
  ∃ p', ParseString p (file_text f) = Some ((Some (file_config f), p_errors p), p').
Proof.
  intros Hne Hok. pose proof (file_pieces_ok _ Hok) as Hpieces.
  pose proof (lexes_lines (file_pieces f) "" Hpieces) as Hlex. rewrite string_app_nil_r in Hlex.
  change (lines_text (file_pieces f)) with (file_text f) in Hlex.
  pose proof (lexes_length _ _ _ Hlex (pieces_not_end _ Hpieces)) as Hlen. cbn in Hlen.
  assert (Hnonempty : (1 ≤ length (lines_toks (file_pieces f)))%nat).
  { destruct f as [|s f]; [done|]. rewrite file_toks_cons. destruct (section_toks s) as [ts ->]. cbn. lia. }
  unfold ParseString. destruct (String.eqb_spec (file_text f) "") as [E|_]; [rewrite E in Hlen; cbn in Hlen; lia|].
  set (p0 := {| p_lexer := NewLexer _ _; p_current := _; p_errors := _ |}).
  assert (Hall : lex_reads (p_lexer p0) (lines_toks (file_pieces f))) by (eapply lexes_reads; [exact Hlex|done..]).
  assert (Ha : ∃ p1, advance p0 = Some (inl tt, p1) ∧ reads p1 (lines_toks (file_pieces f)) ∧
    p_errors p1 = p_errors p).
  { destruct (consumes_advance (TokenEOF, "") (lines_toks (file_pieces f))
      {| p_lexer := p_lexer p0; p_current := {| Type_ := TokenEOF; Literal := ""; Line := 0; Column := 0 |};
         p_errors := p_errors p |}) as (p1 & E & Hr & He); [by split|].
    exists p1. split; [|done]. exact E. }
  destruct Ha as (p1 & Ea & Hr1 & He1).
  assert (Hfuel : (length (lines_toks (file_pieces f)) < parse_fuel (file_text f))%nat) by (unfold parse_fuel; lia).
  destruct (consumes_sections (parse_fuel (file_text f)) f {| mta_Sections := ∅ |} _ Hok Hfuel Hfuel p1 Hr1)
    as (p2 & E2 & _ & He2).
  exists p2. unfold mbind, M_bind. rewrite Ea. unfold parseSections. rewrite E2. by rewrite He2, He1.
Qed.

(** A file with every kind of line. *)
Definition sample_file : list section :=
  [{| s_name := "mta"; s_depends := ["amavis"; "opendkim"];
      s_lines :=
        [LOther (DRewrite (PRel "conf" "/amavisd.conf.in") (PRel "conf" "/amavisd.conf") (Some "0644"));
         LRequire KVar "zimbraMtaMyHostname"; LBlank;
         LPostconf "myhostname" (VLookup KVar "zimbraMtaMyHostname");
         LPostconf "smtpd_banner" (VWords [(TokenIdentifier, "ESMTP"); (TokenString, "25")]);
         LPostconfd "virtual_alias_maps" (VFile (PAbs "/opt/zextras/conf/x"));
         LOther (DIf true true "antispam"
           [LPostconf "content_filter" VNone; LRequire KLocal "av_notify"; LBlank; LPostconfd "x" VNone]);
         LOther (DLdap "ldap_common_loglevel" KLocal "ldap_common_loglevel");
         LOther (DMapfile "zimbraSSLDHParam"); LOther (DRestart ["mta"; "opendkim"])] |};
   {| s_name := "proxy"; s_depends := []; s_lines := [LOther DProxygen] |}].

Lemma ParseString_file_text_witness :
  ∃ p', ParseString (NewParser (NewLexer "" None)) (file_text sample_file) =
    Some ((Some (file_config sample_file), []), p').
Proof.
  exact (ParseString_file_text (NewParser (NewLexer "" None)) sample_file ltac:(discriminate)
    ltac:(vm_compute; reflexivity)).
Defined.
