(* ===== verification/MtaLoad.v ===== *)
(** * MtaLoad: internal/configmgr/mtaconfig_parser.go and conditional.go

    Loading zmconfigd.cf into the state: parse, drop the sections whose service
    is not enabled on the node, resolve the LDAP entries, and let the if blocks
    that hold add their variables to those of their section.  The loops range
    over maps; here they run in key order, and [ParseMtaConfig_result] shows that
    no section sees what the loop did to another. *)
From S2P Require Import Prelude Config Snapshot Plan Compute State Base64 Observe Lexer Parser ParserProps Fixtures.

Section load.
Variables (mainConfig : Config) (env : Env).

(** [CheckConditional] never returns an error: a failed lookup is false. *)
Definition CheckConditional (cfgType key : string) (st : State) : bool * State :=
  let '(key, negate) := CutPrefix key "!" in
  match LookUpConfig mainConfig env cfgType key st with
  | (inl _, st) => (negate, st)
  | (inr value, st) =>
      let rvalue := IsTrueValue value in
      (if negate then negb rvalue else rvalue, st)
  end.

(** [maps.Copy dst src] *)
Definition maps_Copy (dst src : gmap string string) : gmap string string := src ∪ dst.

Fixpoint registerConditionalRequiredVars (vars : gmap string string) (conditionals : list Conditional)
    (st : State) : gmap string string * State :=
  match conditionals with
  | [] => (vars, st)
  | cond :: rest =>
      let '(holds, st) := CheckConditional (cond_Type cond) (cond_Key cond) st in
      let vars := if Bool.eqb holds (cond_Negated cond) then vars
                  else maps_Copy vars (cond_RequiredVars cond) in
      registerConditionalRequiredVars vars rest st
  end.

Definition resolveOneLDAP (acc : gmap string string * State) (entry : string * string) :
    gmap string string * State :=
  let '(ldap, st) := acc in
  let '(ldapKey, lookupSpec) := entry in
  match CutByte ":" lookupSpec with
  | None => (ldap, st)
  | Some (cfgType, key) =>
      match LookUpConfig mainConfig env cfgType key st with
      | (inr val, st) => (<[ldapKey := val]> ldap, st)
      | (inl _, st) => (<[ldapKey := ""]> ldap, st)
      end
  end.

Definition resolveSectionLDAP (section : MtaConfigSection) (st : State) : MtaConfigSection * State :=
  let '(ldap, st) := foldl resolveOneLDAP (sec_Ldap section, st) (sorted_items (sec_Ldap section)) in
  (Parser.set_ldap (λ _, ldap) section, st).

(** One turn of the loop over the parsed sections. *)
Definition loadSection (snap : Snapshot) (acc : gmap string MtaConfigSection * State)
    (entry : string * MtaConfigSection) : gmap string MtaConfigSection * State :=
  let '(sections, st) := acc in
  let '(sectionName, section) := entry in
  if negb (SectionEnabled sectionName (ServiceEnabled (Some snap)))
  then (delete sectionName sections, st)
  else
    let '(section, st) := resolveSectionLDAP section st in
    let '(vars, st) := registerConditionalRequiredVars (sec_RequiredVars section) (sec_Conditionals section) st in
    (<[sectionName := set_required (λ _, vars) section]> sections, st).

(** [data] is the file as [os.ReadFile] returns it; the error is the parser's. *)
Definition ParseMtaConfig (configFile : string) (data : string + string) (st : State) :
    option (list ParseError * State) :=
  match Parse (NewParser (NewLexer "" None)) configFile data with
  | None => None
  | Some ((Some mtaConfig, []), _) =>
      let '(sections, st') :=
        foldl (loadSection (State_Snapshot st)) (mta_Sections mtaConfig, st)
          (sorted_items (mta_Sections mtaConfig)) in
      Some ([], SetMtaConfig {| mta_Sections := sections |} st')
  | Some ((_, errs), _) => Some (errs, st)
  end.

(** ** What loading does to one section *)
Definition cond_holds (st : State) (c : Conditional) : bool :=
  xorb (CheckConditional (cond_Type c) (cond_Key c) st).1 (cond_Negated c).

Definition loaded_vars (st : State) (vars : gmap string string) (conds : list Conditional) : gmap string string :=
  foldl (λ vars c, if cond_holds st c then maps_Copy vars (cond_RequiredVars c) else vars) vars conds.

Definition ldap_value (st : State) (spec : string) : string :=
  match CutByte ":" spec with
  | None => spec
  | Some (ty, key) => match (LookUpConfig mainConfig env ty key st).1 with inr v => v | inl _ => "" end
  end.

Definition loaded_section (st : State) (s : MtaConfigSection) : MtaConfigSection :=
  set_required (λ vars, loaded_vars st vars (sec_Conditionals s))
    (Parser.set_ldap (λ ldap, ldap_value st <$> ldap) s).

Lemma CheckConditional_cached st0 st ty key :
  cached_from mainConfig env st0 st →
  (CheckConditional ty key st).1 = (CheckConditional ty key st0).1 ∧
  cached_from mainConfig env st0 (CheckConditional ty key st).2.
Proof.
  intros H. unfold CheckConditional. destruct (CutPrefix key "!") as [k neg].
  destruct (LookUpConfig_cached mainConfig env st0 st ty k H) as [H1 H2].
  destruct (LookUpConfig mainConfig env ty k st) as [[e|v] st1],
    (LookUpConfig mainConfig env ty k st0) as [[e0|v0] st2]; cbn in *; by simplify_eq.
Qed.

Lemma registerConditional_loaded st0 st conds vars :
  cached_from mainConfig env st0 st →
  (registerConditionalRequiredVars vars conds st).1 = loaded_vars st0 vars conds ∧
  cached_from mainConfig env st0 (registerConditionalRequiredVars vars conds st).2.
Proof.
  unfold loaded_vars. revert vars st. induction conds as [|c conds IH]; intros vars st H; [done|]. cbn [registerConditionalRequiredVars foldl].
  destruct (CheckConditional_cached st0 st (cond_Type c) (cond_Key c) H) as [H1 H2].
  change (cond_holds st0 c) with (xorb (CheckConditional (cond_Type c) (cond_Key c) st0).1 (cond_Negated c)).
  rewrite <- H1.
  destruct (CheckConditional (cond_Type c) (cond_Key c) st) as [holds st1]. cbn in *.
  assert (xorb holds (cond_Negated c) = negb (Bool.eqb holds (cond_Negated c))) as ->
    by (by destruct holds, (cond_Negated c)).
  destruct (Bool.eqb holds (cond_Negated c)); cbn; by apply IH.
Qed.

Lemma resolveLDAP_fold st0 st l ldap :
  cached_from mainConfig env st0 st → NoDup l.*1 → (∀ k v, (k, v) ∈ l → ldap !! k = Some v) →
  (∀ k, (foldl resolveOneLDAP (ldap, st) l).1 !! k =
     (if decide (k ∈ l.*1) then ldap_value st0 <$> ldap !! k else ldap !! k)) ∧
  cached_from mainConfig env st0 (foldl resolveOneLDAP (ldap, st) l).2.
Proof.
  revert ldap st. induction l as [|[k v] l IH]; intros ldap st Hst Hnd Hl.
  { cbn. split; [|done]. intros k. by rewrite decide_False by set_solver. }
  cbn [fmap list_fmap fst] in Hnd. apply NoDup_cons in Hnd as [Hk Hnd]. cbn [foldl].
  assert (Hone : ∃ st1, resolveOneLDAP (ldap, st) (k, v) = (<[k := ldap_value st0 v]> ldap, st1) ∧
    cached_from mainConfig env st0 st1).
  { unfold resolveOneLDAP, ldap_value. destruct (CutByte ":" v) as [[ty key]|].
    - destruct (LookUpConfig_cached mainConfig env st0 st ty key Hst) as [H1 H2]. rewrite <- H1.
      destruct (LookUpConfig mainConfig env ty key st) as [[e|w] st1]; eauto.
    - exists st. split; [|done]. rewrite insert_id; [done|]. apply Hl. left. }
  destruct Hone as (st1 & -> & Hst1).
  destruct (IH (<[k := ldap_value st0 v]> ldap) st1 Hst1 Hnd) as [H1 H2].
  { intros k' v' Hin. rewrite lookup_insert_ne; [apply Hl; by right|].
    intros <-. apply Hk. apply list_elem_of_fmap. by exists (k, v'). }
  split; [|done]. intros k'. rewrite H1. cbn [fmap list_fmap fst].
  destruct (decide (k' = k)) as [->|Hne].
  - rewrite decide_False, decide_True, lookup_insert_eq by set_solver. by rewrite (Hl k v ltac:(left)).
  - rewrite lookup_insert_ne by done. destruct (decide (k' ∈ l.*1)).
    + by rewrite decide_True by set_solver.
    + by rewrite decide_False by set_solver.
Qed.

Lemma resolveSectionLDAP_loaded st0 st s :
  cached_from mainConfig env st0 st →
  (resolveSectionLDAP s st).1 = Parser.set_ldap (λ ldap, ldap_value st0 <$> ldap) s ∧
  cached_from mainConfig env st0 (resolveSectionLDAP s st).2.
Proof.
  intros Hst. unfold resolveSectionLDAP.
  destruct (resolveLDAP_fold st0 st (sorted_items (sec_Ldap s)) (sec_Ldap s) Hst) as [H1 H2].
  - apply NoDup_sorted_keys.
  - intros k v. apply elem_of_sorted_items.
  - destruct (foldl resolveOneLDAP _ _) as [ldap st1]. cbn in *. split; [|done].
    unfold Parser.set_ldap. f_equal. apply map_eq. intros k. rewrite H1, lookup_fmap.
    destruct (decide _) as [|Hn]; [done|]. destruct (sec_Ldap s !! k) eqn:E; [|done]. exfalso. apply Hn.
    apply (elem_of_sorted_keys (sec_Ldap s)). eauto.
Qed.
Lemma loadSection_step snap st0 st sections name s :
  cached_from mainConfig env st0 st →
  ∃ st1, loadSection snap (sections, st) (name, s) =
    (if SectionEnabled name (ServiceEnabled (Some snap))
     then <[name := loaded_section st0 s]> sections else delete name sections, st1) ∧
    cached_from mainConfig env st0 st1.
Proof.
  intros Hst. unfold loadSection. destruct (SectionEnabled name _); cbn [negb]; [|eauto].
  destruct (resolveSectionLDAP_loaded st0 st s Hst) as [H1 H2].
  destruct (resolveSectionLDAP s st) as [s1 st1]. cbn in H1, H2. subst s1.
  destruct (registerConditional_loaded st0 st1 (sec_Conditionals s) (sec_RequiredVars s) H2) as [H3 H4].
  cbn [Parser.set_ldap sec_RequiredVars sec_Conditionals].
  destruct (registerConditionalRequiredVars (sec_RequiredVars s) (sec_Conditionals s) st1) as [vars st2].
  cbn in H3, H4. exists st2. split; [|done]. by rewrite H3.
Qed.

Lemma loadSections_fold snap st0 st (l : list (string * MtaConfigSection)) (sections : gmap string MtaConfigSection) :
  cached_from mainConfig env st0 st → NoDup l.*1 → (∀ k v, (k, v) ∈ l → sections !! k = Some v) →
  (∀ name, (foldl (loadSection snap) (sections, st) l).1 !! name =
     (if decide (name ∈ l.*1)
      then s ← sections !! name;
           if SectionEnabled name (ServiceEnabled (Some snap)) then Some (loaded_section st0 s) else None
      else sections !! name)) ∧
  cached_from mainConfig env st0 (foldl (loadSection snap) (sections, st) l).2.
Proof.
  revert sections st. induction l as [|[k s] l IH]; intros sections st Hst Hnd Hl.
  { cbn. split; [|done]. intros k. by rewrite decide_False by set_solver. }
  cbn [fmap list_fmap fst] in Hnd. apply NoDup_cons in Hnd as [Hk Hnd]. cbn [foldl].
  destruct (loadSection_step snap st0 st sections k s Hst) as (st1 & -> & Hst1).
  set (sections1 := if SectionEnabled k (ServiceEnabled (Some snap)) then _ else _).
  assert (Hne : ∀ k', k' ≠ k → sections1 !! k' = sections !! k').
  { intros k' Hn. unfold sections1. destruct (SectionEnabled k _); [by rewrite lookup_insert_ne|by rewrite lookup_delete_ne]. }
  destruct (IH sections1 st1 Hst1 Hnd) as [H1 H2].
  { intros k' v' Hin. rewrite Hne; [apply Hl; by right|]. intros ->. apply Hk, list_elem_of_fmap. by exists (k, v'). }
  split; [|done]. intros k'. rewrite H1. cbn [fmap list_fmap fst].
  destruct (decide (k' = k)) as [->|Hnk].
  - rewrite decide_False, decide_True by set_solver. rewrite (Hl k s ltac:(left)). cbn. unfold sections1.
    destruct (SectionEnabled k _); [by rewrite lookup_insert_eq|by rewrite lookup_delete_eq].
  - rewrite Hne by done. destruct (decide (k' ∈ l.*1)).
    + by rewrite decide_True by set_solver.
    + by rewrite decide_False by set_solver.
Qed.

Lemma cached_from_refl st : cached_from mainConfig env st st.
Proof. split; auto. Qed.

(** The sections after a load. *)
Definition load_sections (st : State) (parsed : MtaConfig) : gmap string MtaConfigSection :=
  map_imap (λ name s, if SectionEnabled name (ServiceEnabled (Some (State_Snapshot st)))
                      then Some (loaded_section st s) else None) (mta_Sections parsed).

(** Loading ends; it either reports the parser's errors and changes nothing, or
    replaces the configuration by the loaded sections. *)
Lemma ParseMtaConfig_result file content st :
  ∃ errs st', ParseMtaConfig file (inl content) st = Some (errs, st') ∧
    ((errs ≠ [] ∧ st' = st) ∨
     (errs = [] ∧ st_snap st' = st_snap st ∧ ∃ parsed, MtaConfig_wf parsed ∧
        (∃ p', ParseString (NewParser (NewLexer "" None)) content = Some ((Some parsed, []), p')) ∧
        mta_Sections (MtaConfig_ st') = load_sections st parsed)).
Proof.
  destruct (ParseString_total (NewParser (NewLexer "" None)) content) as (r & errs & p' & E & H1 & H2).
  unfold ParseMtaConfig, Parse. rewrite E.
  destruct (decide (content = "")) as [Hc|Hc].
  { destruct (H1 Hc) as [-> ->]. eexists _, _. split; [done|]. by left. }
  destruct (H2 Hc) as (c & -> & Hwf & Herrs).
  destruct errs as [|e errs]; [|eexists _, _; split; [done|]; by left].
  destruct (loadSections_fold (State_Snapshot st) st st (sorted_items (mta_Sections c)) (mta_Sections c))
    as [H3 [H4 _ _]]; [apply cached_from_refl|apply NoDup_sorted_keys|by intros k v; apply elem_of_sorted_items|].
  destruct (foldl _ _ _) as [sections st1]. cbn in H3, H4.
  eexists _, _. split; [done|]. right. split_and!; [done|exact H4|]. exists c. split_and!; [done|eauto|].
  cbn. apply map_eq. intros name. rewrite H3. unfold load_sections. rewrite map_lookup_imap.
  destruct (decide _) as [|Hn]; [done|]. destruct (mta_Sections c !! name) eqn:En; [|done].
  exfalso. apply Hn, (elem_of_sorted_keys (mta_Sections c)). eauto.
Qed.

(** ** The if blocks of a plan *)

(** Loading and planning agree on which if blocks hold. *)
Lemma cond_holds_agree i cur st c :
  cond_wf c → Cur i = Some cur →
  (∀ k, Var (Some cur) k = Var (Some (State_Snapshot st)) k ∧
        ServiceEnabled (Some cur) k = ServiceEnabled (Some (State_Snapshot st)) k) →
  conditionHolds i c = cond_holds st c.
Proof.
  intros Hc Hcur Hk. unfold conditionHolds, cond_holds, CheckConditional. rewrite Hcur.
  destruct (CutPrefix (cond_Key c) "!") as [k neg]. destruct (Hk k) as [Hv Hs].
  destruct (cwf_type c Hc) as [->| ->]; unfold LookUpConfig, Value.
  - destruct (ServiceEnabled (Some cur) k) eqn:E; cbn -[State_Snapshot ServiceEnabled IsTrueValue];
      rewrite <- Hs; by destruct neg, (cond_Negated c).
  - destruct (Var (Some cur) k) as [v|] eqn:E; cbn -[State_Snapshot Var IsTrueValue]; rewrite <- Hv.
    + cbn [found fst]. by destruct (IsTrueValue v), neg, (cond_Negated c).
    + by destruct neg, (cond_Negated c).
Qed.

Lemma dom_loaded_vars st vars conds k :
  k ∈ dom (loaded_vars st vars conds) ↔
  k ∈ dom vars ∨ ∃ c, c ∈ conds ∧ cond_holds st c = true ∧ k ∈ dom (cond_RequiredVars c).
Proof.
  unfold loaded_vars. revert vars. induction conds as [|c conds IH]; intros vars; cbn [foldl].
  - split; [by left|]. intros [?|(c & Hc%elem_of_nil & _)]; done.
  - rewrite IH. setoid_rewrite elem_of_cons.
    assert (k ∈ dom (if cond_holds st c then maps_Copy vars (cond_RequiredVars c) else vars) ↔
      k ∈ dom vars ∨ (cond_holds st c = true ∧ k ∈ dom (cond_RequiredVars c))) as ->.
    { destruct (cond_holds st c); [|naive_solver]. unfold maps_Copy. rewrite dom_union, elem_of_union. naive_solver. }
    naive_solver.
Qed.

(** A value is literal, or looks up a variable of [vars]. *)
Definition covered (vars : gmap string string) (v : string) : Prop :=
  lookup_free false v = true ∨ ∃ ty name exact, v = formatLookup ty name exact ∧ name ∈ dom vars.

Lemma watched_covered allow vars vars' v :
  watched allow vars v → dom vars ⊆ dom vars' → covered vars' v.
Proof.
  intros [Hf|(ty & name & ex & -> & _ & Hv%elem_of_dom)] Hd; [left|right; eexists _, _, _; split; [done|set_solver]].
  unfold lookup_free in *. destruct allow; [|done]. apply negb_true_iff in Hf. apply negb_true_iff.
  unfold lookup_types in *. rewrite existsb_app in Hf. apply orb_false_iff in Hf as [Hf _].
  by rewrite app_nil_r.
Qed.

(** After zmconfigd.cf is loaded, what the plan of a cycle applies is watched, and nothing else.  For
    every section and any plan computed from the snapshot the load saw: a POSTCONF value of the section, or
    of one of its if blocks that the plan finds true, is literal or looks up a variable the section
    requires; and every variable the section requires is one its text declares outside if blocks or inside a
    block the plan finds true (a variable only a false block uses never marks the section changed).  The
    evaluation of the blocks at load time and in the plan is the same function of the snapshot. *)
Theorem loaded_sections_watched file content st st' i cur name s :
  ParseMtaConfig file (inl content) st = Some ([], st') →
  Cur i = Some cur →
  (∀ k, Var (Some cur) k = Var (Some (State_Snapshot st')) k ∧
        ServiceEnabled (Some cur) k = ServiceEnabled (Some (State_Snapshot st')) k) →
  mta_Sections (MtaConfig_ st') !! name = Some s →
  (∀ k v, sec_Postconf s !! k = Some v → covered (sec_RequiredVars s) v) ∧
  (∀ c k v, c ∈ sec_Conditionals s → conditionHolds i c = true →
     cond_Postconf c !! k = Some v → covered (sec_RequiredVars s) v) ∧
  ∃ p' parsed s0, ParseString (NewParser (NewLexer "" None)) content = Some ((Some parsed, []), p') ∧
    mta_Sections parsed !! name = Some s0 ∧
    ∀ k, k ∈ dom (sec_RequiredVars s) ↔
      k ∈ dom (sec_RequiredVars s0) ∨
      ∃ c, c ∈ sec_Conditionals s ∧ conditionHolds i c = true ∧ k ∈ dom (cond_RequiredVars c).
Proof.
  intros Hload Hcur Hlayers Hs.
  destruct (ParseMtaConfig_result file content st) as (errs & st1 & E & Hcase).
  rewrite E in Hload. injection Hload as -> ->.
  destruct Hcase as [[[] _]|(_ & Hsnap & parsed & Hwf & (p' & Hp) & Hsec)]; [done|].
  rewrite Hsec in Hs. unfold load_sections in Hs. rewrite map_lookup_imap in Hs.
  destruct (mta_Sections parsed !! name) as [s0|] eqn:E0; [|done]. cbn in Hs.
  destruct (SectionEnabled name _); [|done]. injection Hs as <-.
  destruct (Hwf name s0 E0) as [_ _ _ _ _ Hpc _ _ Hconds].
  assert (Hagree : ∀ c, c ∈ sec_Conditionals s0 → conditionHolds i c = cond_holds st c).
  { intros c Hc. apply (cond_holds_agree i cur); [by eapply Forall_forall|done|].
    unfold State_Snapshot in *. by rewrite <- Hsnap. }
  assert (Hdom : ∀ k, k ∈ dom (loaded_vars st (sec_RequiredVars s0) (sec_Conditionals s0)) ↔
    k ∈ dom (sec_RequiredVars s0) ∨
    ∃ c, c ∈ sec_Conditionals s0 ∧ conditionHolds i c = true ∧ k ∈ dom (cond_RequiredVars c)).
  { intros k. rewrite dom_loaded_vars. split; (intros [?|(c & Hc & Hh & Hk)]; [by left|right]);
      exists c; (split_and!; [done| |done]); rewrite (Hagree c Hc) in *; done. }
  cbn [loaded_section set_required Parser.set_ldap sec_RequiredVars sec_Postconf sec_Conditionals].
  split_and!.
  - intros k v Hv. destruct (Hpc k v Hv) as [_ Hw]. apply (watched_covered _ _ _ _ Hw).
    intros k' Hk'. apply Hdom. by left.
  - intros c k v Hc Hh Hv. pose proof (proj1 (Forall_forall _ _) Hconds c Hc) as Hcw.
    destruct (cwf_postconf c Hcw k v Hv) as [_ Hw].
    apply (watched_covered _ _ _ _ Hw). intros k' Hk'. apply Hdom. right. eauto.
  - exists p', parsed, s0. split_and!; done.
Qed.
End load.

(** ** Evaluation *)
Definition sample_env : Env :=
  {| ReadFile := λ _, inl LookupNotExist; Stat := λ _, None; Transform := λ l, inr l |}.

Definition sample_state : State :=
  Publish (snap ["mta"; "opendkim"] [("zimbraMtaMyHostname", "mail.example.com")]) NewState.

Definition sample_load : option (list ParseError * State) :=
  ParseMtaConfig (NewConfigWithHostname "/opt/zextras" "mail") sample_env "zmconfigd.cf" (inl sample_cf) sample_state.

Definition sample_loaded : State := match sample_load with Some (_, st) => st | None => sample_state end.

Definition sample_section : MtaConfigSection :=
  default (new_section "") (mta_Sections (MtaConfig_ sample_loaded) !! "mta").

(** Proxy is not enabled on the node: its section is gone. *)
Example sample_sections : sorted_keys (mta_Sections (MtaConfig_ sample_loaded)) = ["mta"].
Proof. vm_compute. reflexivity. Qed.

Lemma loaded_sections_watched_witness :
  covered (sec_RequiredVars sample_section) "VAR:zimbraMtaMyHostname".
Proof.
  assert (Hload : ParseMtaConfig (NewConfigWithHostname "/opt/zextras" "mail") sample_env "zmconfigd.cf"
    (inl sample_cf) sample_state = Some ([], sample_loaded)) by (vm_compute; reflexivity).
  assert (Hs : mta_Sections (MtaConfig_ sample_loaded) !! "mta" = Some sample_section) by (vm_compute; reflexivity).
  assert (Hp : sec_Postconf sample_section !! "myhostname" = Some "VAR:zimbraMtaMyHostname") by (vm_compute; reflexivity).
  set (cur := State_Snapshot sample_loaded).
  exact (proj1 (loaded_sections_watched _ _ _ _ _ _
    (cycle cur cur [] empty_carry)
    cur "mta" sample_section Hload eq_refl (λ k, conj eq_refl eq_refl) Hs) "myhostname" _ Hp).
Defined.
