(* ===== verification/Ldap.v ===== *)
(** * Ldap: internal/ldap, the client of the directory

    The connection pool with its failover and retries (client.go, urls.go, tls.go,
    params.go), the queries (client.go, client_helpers.go, attrs.go), value-level
    modifications (modify.go) and the writes to the configuration backend (ldap.go).

    What the go-ldap library and the network answer is an [Oracle]: it answers each
    request from the requests and answers so far, so a server may fail, close
    connections or change at any moment.  Connections are numbers.  Times are
    nanoseconds.  One operation runs at a time here; how operations share the pool
    is the subject of [LdapProps]. *)
From S2P Require Import Prelude Config.
Open Scope Z_scope.

(** ** Errors

    [LdapError] is the library's error with its result code and text; the other
    constructors are the wrappers of the package. *)
Inductive LdapErr :=
  | LdapError (code : Z) (text : string)
  | PlainError (text : string)
  | Wrap (text : string) (e : LdapErr)
  | Unhealthy (e : LdapErr)
  | urlDialError (url : string) (e : LdapErr)
  | AggregateDialError (errors : list LdapErr).

Definition last_with {A B} (f : A → option B) : list A → option B :=
  fix go l := match l with [] => None | [x] => f x | _ :: l => go l end.

(** [errors.As(err, &ldapErr)]: the first library error of the chain; an aggregate
    unwraps to its last error. *)
Fixpoint as_ldap (e : LdapErr) : option Z :=
  match e with
  | LdapError code _ => Some code
  | PlainError _ => None
  | Wrap _ e | Unhealthy e | urlDialError _ e => as_ldap e
  | AggregateDialError es => last_with as_ldap es
  end.

Fixpoint err_text (e : LdapErr) : string :=
  match e with
  | LdapError _ text | PlainError text => text
  | Wrap text e => text +:+ ": " +:+ err_text e
  | Unhealthy e => "ldap: unhealthy connection: " +:+ err_text e
  | urlDialError url e => "dial " +:+ url +:+ ": " +:+ err_text e
  | AggregateDialError [] => "ldap dial: no URLs attempted"
  | AggregateDialError es => "ldap dial: all URLs failed: " +:+ GoStrings.Join (err_text <$> es) "; "
  end.

(** Result codes of RFC 4511 and of the library. *)
Definition LDAPResultNoSuchAttribute : Z := 16.
Definition LDAPResultAttributeOrValueExists : Z := 20.
Definition LDAPResultNoSuchObject : Z := 32.
Definition LDAPResultInvalidDNSyntax : Z := 34.
Definition LDAPResultInvalidCredentials : Z := 49.
Definition LDAPResultInsufficientAccessRights : Z := 50.
Definition LDAPResultUnavailable : Z := 52.
Definition LDAPResultObjectClassViolation : Z := 65.
Definition LDAPResultServerDown : Z := 81.
Definition LDAPResultTimeout : Z := 85.
Definition LDAPResultConnectError : Z := 91.

Definition isConnectionError (err : LdapErr) : bool :=
  match as_ldap err with
  | Some code => bool_decide (code ∈ [LDAPResultServerDown; LDAPResultTimeout; LDAPResultUnavailable; LDAPResultConnectError])
  | None =>
      let s := err_text err in
      GoStrings.Contains s "connection" || GoStrings.Contains s "broken pipe"
      || GoStrings.Contains s "EOF" || GoStrings.Contains s "reset by peer"
  end.

Definition isLDAPErrorRetryable (err : LdapErr) : bool :=
  match as_ldap err with
  | Some code =>
      negb (bool_decide (code ∈ [LDAPResultNoSuchObject; LDAPResultInvalidDNSyntax; LDAPResultInvalidCredentials;
                                 LDAPResultInsufficientAccessRights; LDAPResultObjectClassViolation;
                                 LDAPResultAttributeOrValueExists; LDAPResultNoSuchAttribute]))
  | None => true
  end.

Definition isAlreadyConverged (err : option LdapErr) : bool :=
  match err ≫= as_ldap with
  | Some code => bool_decide (code ∈ [LDAPResultAttributeOrValueExists; LDAPResultNoSuchAttribute])
  | None => false
  end.

(** ** URLs

    [urlParts] is the part of [url.Parse] the package uses: the scheme and the host
    without port or brackets.  URLs are free of percent escapes. *)
Definition ParseURLs (raw : string) : list string := GoStrings.Fields raw.

Definition is_letter (c : ascii) : bool := GoStrings.in_range 65 90 c || GoStrings.in_range 97 122 c.
Definition is_digit (c : ascii) : bool := GoStrings.in_range 48 57 c.

(** [getScheme]: the scheme and the rest; an error for a URL that begins with a
    colon. *)
Fixpoint scheme_go (first : bool) (acc : string) (s : string) : option (string * string) :=
  match s with
  | EmptyString => None
  | String c r =>
      if is_letter c || (negb first && (is_digit c || bool_decide (c ∈ ["+"; "-"; "."]%char)))
      then scheme_go false (acc +:+ String c "") r
      else if (negb first && Ascii.eqb c ":")%bool then Some (acc, r) else None
  end.

Definition getScheme (s : string) : option (string * string) :=
  match s with
  | String ":" _ => None
  | _ => Some (default ("", s) (scheme_go true "" s))
  end.

Definition cut_at (c : ascii) (s : string) : string :=
  match GoStrings.CutByte c s with Some (a, _) => a | None => s end.

Fixpoint last_cut (c : ascii) (s : string) : option (string * string) :=
  match s with
  | EmptyString => None
  | String d r =>
      match last_cut c r with
      | Some (a, b) => Some (String d a, b)
      | None => if Ascii.eqb d c then Some ("", r) else None
      end
  end.

Definition host_char (c : ascii) : bool :=
  is_letter c || is_digit c || (128 <=? GoStrings.byte c)%N
  || bool_decide (c ∈ (list_ascii_of_string "-_.~!$&'()*+,;=:[]<>" ++ [ascii_of_N 34])).

Definition parseHost (host : string) : option string :=
  let name :=
    match host with
    | String "[" r =>
        '(inner, port) ← last_cut "]" r;
        match port with
        | "" => Some inner
        | String ":" p => if GoStrings.chars is_digit p then Some inner else None
        | _ => None
        end
    | _ =>
        match last_cut ":" host with
        | Some (h, p) => if GoStrings.chars is_digit p then Some h else None
        | None => Some host
        end
    end in
  if GoStrings.chars host_char host then name else None.

Definition userinfo_char (c : ascii) : bool :=
  is_letter c || is_digit c || bool_decide (c ∈ list_ascii_of_string "-._:~!$&'()*+,;=%@").

Definition urlParts (rawURL : string) : option (string * string) :=
  if negb (GoStrings.chars (λ c, (32 <=? GoStrings.byte c)%N && negb (GoStrings.byte c =? 127)%N) rawURL) then None else
  '(scheme, rest) ← getScheme (cut_at "#" rawURL);
  match cut_at "?" rest with
  | String "/" (String "/" authority) =>
      let authority := cut_at "/" authority in
      host ← match last_cut "@" authority with
             | Some (user, h) => if GoStrings.chars userinfo_char user then Some h else None
             | None => Some authority
             end;
      hostname ← parseHost host; Some (GoStrings.ToLower scheme, hostname)
  | _ => Some (GoStrings.ToLower scheme, "")
  end.

Definition urlHostname (rawURL : string) : string := default "" (snd <$> urlParts rawURL).
Definition urlScheme (rawURL : string) : string := default "" (fst <$> urlParts rawURL).

Example urlParts_ldap : urlParts "LDAP://srv1.example.com:389/x" = Some ("ldap", "srv1.example.com").
Proof. reflexivity. Qed.
Example urlParts_ldapi : urlParts "ldapi:///run/carbonio/run/ldapi" = Some ("ldapi", "").
Proof. reflexivity. Qed.

(** ** Transport security (tls.go) and parameters (params.go) *)

(** A TLS configuration of version 1.2 or later; [tc_RootCAs] is [None] for the system
    roots alone and otherwise what the Carbonio CA files add to them. *)
Record TLSConfig := { tc_ServerName : string; tc_InsecureSkipVerify : bool; tc_RootCAs : option (list string) }.

Record TLSSetup := { ts_StartTLS : bool; ts_Config : TLSConfig }.

Definition lc_value (lc : gmap string string) (key : string) : string := default "" (lc !! key).

Definition lcBool (lc : gmap string string) (key : string) (def : bool) : bool :=
  let v := GoStrings.TrimSpace (lc_value lc key) in
  if String.eqb v "" then def else GoStrings.EqualFold v "true".

Definition caFiles : list string := ["conf/ca/ca.pem"; "ssl/carbonio/commercial/commercial_ca.crt"].

(** [readFile] is the file system; a file without a certificate adds nothing to the
    pool, which is the library's business. *)
Definition caPool (lc : gmap string string) (readFile : string → option string) : list string :=
  let home := GoStrings.TrimSpace (lc_value lc "zimbra_home") in
  let home := if String.eqb home "" then "/opt/zextras" else home in
  omap (λ rel, readFile (home +:+ "/" +:+ rel)) caFiles.

Definition VerifiedTLSConfig (lc : gmap string string) (readFile : string → option string) : TLSConfig :=
  {| tc_ServerName := ""; tc_InsecureSkipVerify := false; tc_RootCAs := Some (caPool lc readFile) |}.

Definition ResolveTLS (lc : gmap string string) (readFile : string → option string) : TLSSetup :=
  {| ts_StartTLS := String.eqb (GoStrings.TrimSpace (lc_value lc "ldap_starttls_supported")) "1"
                    && lcBool lc "ldap_starttls_required" true
                    && String.eqb (GoStrings.TrimSpace (lc_value lc "zimbra_require_interprocess_security")) "1";
     ts_Config := if lcBool lc "ssl_allow_untrusted_certs" true
                  then {| tc_ServerName := ""; tc_InsecureSkipVerify := true; tc_RootCAs := None |}
                  else VerifiedTLSConfig lc readFile |}.

Record ClientConfig := {
  cc_URL : string; cc_URLs : list string; cc_BindDN : string; cc_Password : string; cc_BaseDN : string;
  cc_PoolSize : Z; cc_MaxRetries : Z; cc_RetryDelay : Z; cc_MaxRetryDelay : Z;
  cc_DialTimeout : Z; cc_BindTimeout : Z; cc_OpTimeout : Z;
  cc_TLSConfig : option TLSConfig; cc_StartTLS : bool; cc_AttrsDir : string }.

Inductive Purpose := PurposeRead | PurposeWrite | PurposeDiscovery.

Inductive ParamsError := ErrNoURL | ErrNoBindDN | ErrNoPassword.

Definition defaultBaseDN : string := "cn=zimbra".
Definition readPoolSize : Z := 5.

Definition ParamsFrom (lc : gmap string string) (purpose : Purpose) (readFile : string → option string) :
    ClientConfig + ParamsError :=
  let tlsSetup := ResolveTLS lc readFile in
  let dir := lc_value lc "zmconfigd_template_dir" in
  let master := ParseURLs (lc_value lc "ldap_master_url") in
  let urls := match purpose with
              | PurposeRead => ParseURLs (lc_value lc "ldap_url")
              | PurposeWrite => match master with [] => ParseURLs (lc_value lc "ldap_url") | _ => master end
              | PurposeDiscovery => master
              end in
  let cfg := {| cc_URL := ""; cc_URLs := urls; cc_BindDN := lc_value lc "zimbra_ldap_userdn";
                cc_Password := lc_value lc "zimbra_ldap_password";
                cc_BaseDN := match purpose with PurposeRead => defaultBaseDN | _ => "" end;
                cc_PoolSize := match purpose with PurposeRead => readPoolSize | _ => 0 end;
                cc_MaxRetries := 0; cc_RetryDelay := 0; cc_MaxRetryDelay := 0;
                cc_DialTimeout := 0; cc_BindTimeout := 0; cc_OpTimeout := 0;
                cc_TLSConfig := Some (ts_Config tlsSetup); cc_StartTLS := ts_StartTLS tlsSetup;
                cc_AttrsDir := if String.eqb dir "" then "" else dir +:+ "/conf/attrs" |} in
  match urls, purpose with
  | [], _ => inr ErrNoURL
  | _, PurposeRead =>
      if String.eqb (cc_BindDN cfg) "" then inr ErrNoBindDN
      else if String.eqb (cc_Password cfg) "" then inr ErrNoPassword
      else inl cfg
  | _, _ => inl cfg
  end.

(** ** The client *)
Definition millisecond : Z := 1000000.
Definition second : Z := 1000000000.

Record Client := {
  c_urls : list string; c_bindDN : string; c_password : string; c_baseDN : string; c_startTLS : bool;
  c_poolSize : Z; c_maxRetries : Z; c_retryDelay : Z; c_maxRetryDelay : Z;
  c_dialTimeout : Z; c_bindTimeout : Z; c_opTimeout : Z;
  c_tlsConfig : option TLSConfig; c_attrsDir : string }.

Definition or_if_zero (v d : Z) : Z := if v =? 0 then d else v.
Definition or_if_not_positive (v d : Z) : Z := if v <=? 0 then d else v.

Definition NewClient (config : ClientConfig) : Client + LdapErr :=
  let urls := match cc_URLs config with [] => ParseURLs (cc_URL config) | us => us end in
  match urls with
  | [] => inr (PlainError "ldap client: no URL configured")
  | _ => inl {| c_urls := urls; c_bindDN := cc_BindDN config; c_password := cc_Password config;
                c_baseDN := if String.eqb (cc_BaseDN config) "" then defaultBaseDN else cc_BaseDN config;
                c_startTLS := cc_StartTLS config;
                c_poolSize := or_if_not_positive (cc_PoolSize config) 5;
                c_maxRetries := or_if_not_positive (cc_MaxRetries config) 3;
                c_retryDelay := or_if_zero (cc_RetryDelay config) (100 * millisecond);
                c_maxRetryDelay := or_if_zero (cc_MaxRetryDelay config) (5 * second);
                c_dialTimeout := or_if_zero (cc_DialTimeout config) (10 * second);
                c_bindTimeout := or_if_zero (cc_BindTimeout config) (10 * second);
                c_opTimeout := or_if_zero (cc_OpTimeout config) (30 * second);
                c_tlsConfig := cc_TLSConfig config; c_attrsDir := cc_AttrsDir config |}
  end.

Definition tlsConfigFor (c : Client) (rawURL : string) : TLSConfig :=
  let cfg := default {| tc_ServerName := ""; tc_InsecureSkipVerify := false; tc_RootCAs := None |} (c_tlsConfig c) in
  if String.eqb (tc_ServerName cfg) ""
  then {| tc_ServerName := urlHostname rawURL; tc_InsecureSkipVerify := tc_InsecureSkipVerify cfg; tc_RootCAs := tc_RootCAs cfg |}
  else cfg.

(** ** The pool *)
Abbreviation Conn := nat.

Fixpoint pop_go (closing : Conn → bool) (rpool : list Conn) : option Conn * list Conn :=
  match rpool with
  | [] => (None, [])
  | c :: r => if closing c then pop_go closing r else (Some c, reverse r)
  end.

(** [popIdle]: the last connection that is not closing; those met on the way are
    dropped. *)
Definition popIdle (closing : Conn → bool) (pool : list Conn) : option Conn * list Conn :=
  pop_go closing (reverse pool).

(** The part of [returnConnection] that runs under the lock: the pool, and whether the
    connection is closed instead. *)
Definition give_back (closed : bool) (poolSize : Z) (c : Conn) (pool : list Conn) : list Conn * bool :=
  if closed || (poolSize <=? Z.of_nat (length pool)) then (pool, true) else (pool ++ [c], false).

(** ** Requests and answers *)
Inductive modifyKind := modifyDelete | modifyAdd | modifyReplace.

Record modifyOp := { mo_kind : modifyKind; mo_attr : string; mo_values : list string }.

Inductive Scope := ScopeBaseObject | ScopeSingleLevel | ScopeWholeSubtree.

Record SearchRequest := { sr_BaseDN : string; sr_Scope : Scope; sr_Filter : string; sr_Attributes : list string }.

Record Entry := { e_DN : string; e_Attributes : list (string * list string) }.

(** The answer to a modification: what the client sees, and whether the server carried
    it out, which a client that sees an error cannot know. *)
Record ModifyAnswer := { ma_err : option LdapErr; ma_applied : bool }.

Inductive Event :=
  | EvCtx (err : option string)
  | EvDial (url : string) (tls : TLSConfig) (res : Conn + LdapErr)
  | EvRace (aborted : bool)
  | EvStartTLS (c : Conn) (tls : TLSConfig) (err : option LdapErr)
  | EvBind (c : Conn) (dn password : string) (err : option LdapErr)
  | EvWatchdog (c : Conn) (budget : Z) (fired : bool)
  | EvClose (c : Conn)
  | EvWait (delay : Z) (elapsed : bool)
  | EvSetTimeout (c : Conn) (timeout : Z)
  | EvSearch (c : Conn) (req : SearchRequest) (res : list Entry + LdapErr)
  | EvModify (c : Conn) (dn : string) (ops : list modifyOp) (ans : ModifyAnswer).

(** The newest event first. *)
Abbreviation Log := (list Event).

Record Oracle := {
  o_ctxErr : Log → option string;
  o_dial : Log → string → TLSConfig → Conn + LdapErr;
  o_aborted : Log → bool;
  o_StartTLS : Log → Conn → option LdapErr;
  o_Bind : Log → Conn → option LdapErr;
  o_fired : Log → bool;
  o_wait : Log → Z → bool;
  o_IsClosing : Log → Conn → bool;
  o_Search : Log → Conn → SearchRequest → list Entry + LdapErr;
  o_Modify : Log → Conn → string → list modifyOp → ModifyAnswer }.

Record LState := { ls_log : Log; ls_pool : list Conn; ls_closed : bool }.

Definition LM (A : Type) : Type := LState → A * LState.
#[export] Instance LM_ret : MRet LM := λ A a s, (a, s).
#[export] Instance LM_bind : MBind LM := λ A B f m s, let '(a, s) := m s in f a s.

Definition push (e : Event) (s : LState) : LState :=
  {| ls_log := e :: ls_log s; ls_pool := ls_pool s; ls_closed := ls_closed s |}.
Definition set_pool (p : list Conn) (s : LState) : LState :=
  {| ls_log := ls_log s; ls_pool := p; ls_closed := ls_closed s |}.

(** A request: the answer follows from the log and joins it. *)
Definition ask {A} (answer : Log → A) (ev : A → Event) : LM A := λ s,
  let a := answer (ls_log s) in (a, push (ev a) s).
Definition tell (e : Event) : LM unit := λ s, (tt, push e s).

Section Client_ops.
Context (o : Oracle) (c : Client).

Definition close_conn (conn : Conn) : LM unit := tell (EvClose conn).

(** [dialCtx]: a dial the context overtakes goes on in the background, and a connection
    that arrives late is closed. *)
Definition dialCtx (rawURL : string) (tls : TLSConfig) : LM (Conn + LdapErr) :=
  aborted ← ask (o_aborted o) EvRace;
  r ← ask (λ l, o_dial o l rawURL tls) (EvDial rawURL tls);
  if (aborted : bool) then
    match r with inl conn => close_conn conn | inr _ => mret tt end;;
    mret (inr (PlainError "dial aborted: context done"))
  else mret r.

Definition upgradeAndBind (conn : Conn) (rawURL : string) (tls : TLSConfig) : LM (option LdapErr) :=
  err ← (if c_startTLS c && String.eqb (urlScheme rawURL) "ldap"
         then ask (λ l, o_StartTLS o l conn) (EvStartTLS conn tls)
         else mret None);
  match err with
  | Some e => mret (Some (Wrap "StartTLS" e))
  | None => err ← ask (λ l, o_Bind o l conn) (EvBind conn (c_bindDN c) (c_password c));
            mret (Wrap "bind" <$> err)
  end.

Definition dialAndBind (rawURL : string) : LM (Conn + LdapErr) :=
  let tls := tlsConfigFor c rawURL in
  r ← dialCtx rawURL tls;
  match r with
  | inr e => mret (inr (Wrap "dial" e))
  | inl conn =>
      let budget := if c_bindTimeout c <=? 0 then 10 * second else c_bindTimeout c in
      err ← upgradeAndBind conn rawURL tls;
      fired ← ask (o_fired o) (EvWatchdog conn budget);
      if (fired : bool) then
        close_conn conn;;
        mret (inr (Wrap "ldap connect aborted: StartTLS/bind did not finish" (default (PlainError "context deadline exceeded") err)))
      else match err with
           | Some e => close_conn conn;; mret (inr e)
           | None => mret (inl conn)
           end
  end.

Fixpoint connect_go (urls : list string) (errors : list LdapErr) : LM (Conn + LdapErr) :=
  match urls with
  | [] => mret (inr (Wrap "failed to connect to LDAP server" (AggregateDialError errors)))
  | url :: urls =>
      done ← ask (o_ctxErr o) EvCtx;
      match done with
      | Some e => mret (inr (Wrap "ldap connect aborted" (PlainError e)))
      | None => r ← dialAndBind url;
                match r with
                | inl conn => mret (inl conn)
                | inr e => connect_go urls (errors ++ [urlDialError url e])
                end
      end
  end.

Definition connect : LM (Conn + LdapErr) := connect_go (c_urls c) [].

Definition getConnection : LM (Conn + LdapErr) := λ s,
  match popIdle (o_IsClosing o (ls_log s)) (ls_pool s) with
  | (Some conn, pool) => (inl conn, set_pool pool s)
  | (None, pool) => connect (set_pool pool s)
  end.

Definition returnConnection (conn : Conn) : LM unit := λ s,
  if o_IsClosing o (ls_log s) conn then (tt, s) else
  let '(pool, drop) := give_back (ls_closed s) (c_poolSize c) conn (ls_pool s) in
  (if (drop : bool) then close_conn conn else mret tt) (set_pool pool s).

Definition close_open (conn : Conn) : LM unit := λ s,
  if o_IsClosing o (ls_log s) conn then (tt, s) else close_conn conn s.

Fixpoint close_all (conns : list Conn) : LM unit :=
  match conns with [] => mret tt | conn :: conns => close_open conn;; close_all conns end.

Definition Close : LM unit := λ s,
  let s := {| ls_log := ls_log s; ls_pool := ls_pool s; ls_closed := true |} in
  let '(_, s) := close_all (ls_pool s) s in
  (tt, set_pool [] s).

Definition handleOperationError (conn : Conn) (err : LdapErr) : LM LdapErr :=
  if isConnectionError err then close_conn conn;; mret (Unhealthy err)
  else returnConnection conn;; mret err.

Definition nextRetryDelay (delay : Z) : Z :=
  let delay := wrap64 (delay * 2) in
  if c_maxRetryDelay c <? delay then c_maxRetryDelay c else delay.

(** [n] attempts are left; the wait goes before every attempt but the first. *)
Fixpoint retry_go {A} (operation : Conn → LM (A + LdapErr)) (n : nat) (first : bool) (delay : Z)
    (lastErr : LdapErr) : LM (A + LdapErr) :=
  match n with
  | O => mret (inr (Wrap "operation failed after retries" lastErr))
  | S n =>
      go ← (if first then mret true else ask (λ l, o_wait o l delay) (EvWait delay));
      if negb go then mret (inr (Wrap "operation aborted after retries: client closed or context done" lastErr)) else
      let delay := if first then delay else nextRetryDelay delay in
      r ← getConnection;
      match r with
      | inr e => retry_go operation n false delay e
      | inl conn =>
          tell (EvSetTimeout conn (c_opTimeout c));;
          r ← operation conn;
          match r with
          | inl a => returnConnection conn;; mret (inl a)
          | inr e =>
              lastErr ← handleOperationError conn e;
              if negb (isLDAPErrorRetryable lastErr) then mret (inr lastErr)
              else retry_go operation n false delay lastErr
          end
      end
  end.

(** One attempt and [maxRetries] more. *)
Definition executeWithRetry {A} (operation : Conn → LM (A + LdapErr)) : LM (A + LdapErr) :=
  retry_go operation (Z.to_nat (c_maxRetries c + 1)) true (c_retryDelay c) (PlainError "%!w(<nil>)").

End Client_ops.

(** [dialFirstReachable] (urls.go) over a dialer: the first URL that answers. *)
Fixpoint dial_first (ctxErr : nat → option string) (dial : string → Conn + LdapErr) (i : nat) (urls : list string)
    (errors : list LdapErr) : (Conn * string) + LdapErr :=
  match urls with
  | [] => inr (AggregateDialError errors)
  | u :: urls =>
      match ctxErr i with
      | Some e => inr (AggregateDialError (errors ++ [PlainError e]))
      | None => match dial u with
                | inl conn => inl (conn, u)
                | inr e => dial_first ctxErr dial (S i) urls (errors ++ [urlDialError u e])
                end
      end
  end.

Definition dialFirstReachable (ctxErr : nat → option string) (dial : string → Conn + LdapErr) (urls : list string) :
    (Conn * string) + LdapErr :=
  match urls with
  | [] => inr (AggregateDialError [PlainError "no LDAP URLs configured"])
  | _ => dial_first ctxErr dial 0 urls []
  end.

(** ** Entries *)
Definition GetAttributeValues (e : Entry) (attribute : string) : list string :=
  default [] (snd <$> find (λ a, String.eqb a.1 attribute) (e_Attributes e)).

Definition GetAttributeValue (e : Entry) (attribute : string) : string :=
  default "" (head (GetAttributeValues e attribute)).

Definition lf : string := String GoStrings.newline "".

(** Attribute names are interned, which does not change them. *)
Definition add_attr (result : gmap string string) (a : string * list string) : gmap string string :=
  match a.2 with
  | [] => result
  | [v] => <[a.1 := v]> result
  | vs => <[a.1 := GoStrings.Join vs lf]> result
  end.

Definition entryToMap (e : Entry) : gmap string string := foldl add_attr ∅ (e_Attributes e).

(** ** The attribute schema (attrs.go)

    A schema file is the tokens the XML decoder yields, and the error it ends in when
    it is malformed. *)
Inductive XMLToken := StartElement (name : string) (attr : list (string * string)) | OtherToken.

Record SchemaFile := { sf_tokens : list XMLToken; sf_malformed : bool; sf_size : Z; sf_mtime : Z }.

Definition flagServerInherited : string := "serverInherited".

(** The last of several attributes of one name counts. *)
Definition xml_attr (attr : list (string * string)) (name : string) : string :=
  foldl (λ v a, if String.eqb a.1 name then a.2 else v) "" attr.

Definition serverInheritedName (tok : XMLToken) : option string :=
  match tok with
  | StartElement "attr" attr =>
      let name := xml_attr attr "name" in
      if String.eqb name "" || negb (bool_decide (flagServerInherited ∈ GoStrings.SplitByte "," (xml_attr attr "flags")))
      then None else Some name
  | _ => None
  end.

Definition ParseServerInheritedAttrs (f : SchemaFile) : option (list string) :=
  if sf_malformed f then None else Some (append_uniques [] (omap serverInheritedName (sf_tokens f))).

Record attrsFileEntry := { af_size : Z; af_mtime : Z; af_names : list string }.
Abbreviation attrsFileCache := (gmap string attrsFileEntry).

(** What is read of the schema directory: [None] is an error. *)
Record SchemaDir := {
  sd_Glob : option (list string);
  sd_Stat : string → option (Z * Z);
  sd_Open : string → option SchemaFile }.

Definition attrs_load (cache : attrsFileCache) (fs : SchemaDir) (path : string) : option (list string) * attrsFileCache :=
  match sd_Stat fs path with
  | None => (None, cache)
  | Some (size, mtime) =>
      let fresh :=
        match sd_Open fs path ≫= ParseServerInheritedAttrs with
        | None => (None, cache)
        | Some names => (Some names, <[path := {| af_size := size; af_mtime := mtime; af_names := names |}]> cache)
        end in
      match cache !! path with
      | Some e => if (af_size e =? size) && (af_mtime e =? mtime) then (Some (af_names e), cache) else fresh
      | None => fresh
      end
  end.

Fixpoint attrs_load_all (cache : attrsFileCache) (fs : SchemaDir) (paths : list string) : option (list string) * attrsFileCache :=
  match paths with
  | [] => (Some [], cache)
  | p :: paths =>
      match attrs_load cache fs p with
      | (None, cache) => (None, cache)
      | (Some names, cache) =>
          let '(rest, cache) := attrs_load_all cache fs paths in ((λ r, names ++ r) <$> rest, cache)
      end
  end.

Definition serverInheritedAttrs (cache : attrsFileCache) (fs : SchemaDir) : option (list string) * attrsFileCache :=
  match sd_Glob fs with
  | None | Some [] => (None, cache)
  | Some paths => attrs_load_all cache fs (merge_sort String.le paths)
  end.

(** [applyServerInherited]: [have] is what the server set before the loop.  The names of
    an entry's attributes differ also when case is ignored, so there is at most one name
    to find. *)
Definition fold_key (m : gmap string string) (lower : string) : option string :=
  snd <$> find (λ kv, String.eqb (GoStrings.ToLower kv.1) lower) (map_to_list m).

Definition applyServerInherited (server global : gmap string string) (inherited : list string) : gmap string string :=
  let have lower := existsb (λ kv, String.eqb (GoStrings.ToLower kv.1) lower) (map_to_list server) in
  foldl (λ m name, let lower := GoStrings.ToLower name in
                   if have lower then m else
                   match fold_key global lower with Some v => <[name := v]> m | None => m end) server inherited.

(** ** Domains and servers (client_helpers.go) *)
Record Domain := {
  DomainName : string; VirtualHostname : string; VirtualIPAddress : string; ClientCertMode : string;
  ClientCertCA : string; SSLCertificate : string; SSLPrivateKey : string }.

Record Server := { ServerID : string; ServiceHostname : string; Attributes : gmap string string }.

Definition attr_of (a : gmap string string) (k : string) : string := default "" (a !! k).

Definition splitMultiValue (v : string) : list string :=
  filter (λ part, part ≠ "") (GoStrings.SplitByte GoStrings.newline v).

Definition pickVirtualIP (vips : list string) (n i : nat) : string :=
  match vips with
  | [] => ""
  | v :: _ => if (length vips =? n)%nat then default "" (vips !! i) else v
  end.

Definition domain_of (name : string) (a : gmap string string) (vips : list string) (n i : nat) (vhn : string) : Domain :=
  {| DomainName := name; VirtualHostname := vhn; VirtualIPAddress := pickVirtualIP vips n i;
     ClientCertMode := attr_of a "zimbraReverseProxyClientCertMode";
     ClientCertCA := attr_of a "zimbraReverseProxyClientCertCA";
     SSLCertificate := attr_of a "zimbraSSLCertificate"; SSLPrivateKey := attr_of a "zimbraSSLPrivateKey" |}.

Definition domains_of (name : string) (a : gmap string string) : list Domain :=
  let vhns := splitMultiValue (attr_of a "zimbraVirtualHostname") in
  let vips := splitMultiValue (attr_of a "zimbraVirtualIPAddress") in
  if String.eqb (attr_of a "zimbraSSLCertificate") "" && String.eqb (attr_of a "zimbraSSLPrivateKey") ""
     && String.eqb (attr_of a "zimbraReverseProxyClientCertMode") ""
     && String.eqb (attr_of a "zimbraReverseProxyClientCertCA") ""
  then [] else imap (domain_of name a vips (length vhns)) vhns.

Definition domains_sorted (all : gmap string (gmap string string)) : list Domain :=
  sorted_items all ≫= λ kv, domains_of kv.1 kv.2.

Definition serverHasService (serviceEnabled serviceName : string) : bool :=
  existsb (λ v, String.eqb (GoStrings.TrimSpace v) serviceName) (GoStrings.SplitByte GoStrings.newline serviceEnabled).

(** The servers in the order in which Go ranges over the map. *)
Definition servers_with (serviceName : string) (all : list (gmap string string)) : list Server :=
  omap (λ a, let id := attr_of a "zimbraId" in
             let host := attr_of a "zimbraServiceHostname" in
             if String.eqb id "" || String.eqb host "" then None
             else if serverHasService (attr_of a "zimbraServiceEnabled") serviceName
             then Some {| ServerID := id; ServiceHostname := host; Attributes := a |} else None) all.

(** ** Queries

    [EscapeDN] and [EscapeFilter] are the library's. *)
Section Queries.
Context (o : Oracle) (c : Client) (EscapeDN EscapeFilter : string → string).

Definition wrap_err {A} (text : string) (r : A + LdapErr) : A + LdapErr :=
  match r with inl a => inl a | inr e => inr (Wrap text e) end.

Definition Search (baseDN filter : string) (attributes : list string) (scope : Scope) : LM (list Entry + LdapErr) :=
  let req := {| sr_BaseDN := baseDN; sr_Scope := scope; sr_Filter := filter; sr_Attributes := attributes |} in
  executeWithRetry o c (λ conn, ask (λ l, o_Search o l conn req) (EvSearch conn req)).

(** A search that must find an entry; [text] and [missing] are the two errors. *)
Definition search_one (baseDN filter : string) (attributes : list string) (scope : Scope) (text : option string)
    (missing : string) : LM (Entry + LdapErr) :=
  r ← Search baseDN filter attributes scope;
  mret match r with
       | inr e => inr (match text with Some t => Wrap t e | None => e end)
       | inl [] => inr (PlainError missing)
       | inl (e :: _) => inl e
       end.

Definition map_inl {A B} (f : A → B) (r : A + LdapErr) : B + LdapErr :=
  match r with inl a => inl (f a) | inr e => inr e end.

Definition ldapFilterAllObjects : string := "(objectClass=*)".

Definition GetEntry (dn : string) (attributes : list string) : LM (Entry + LdapErr) :=
  search_one dn ldapFilterAllObjects attributes ScopeBaseObject None ("entry not found: " +:+ dn).

(** The first attribute of that name: its first value, and whether it is there. *)
Definition ReadAttribute (dn attribute : string) : LM ((string * bool) + LdapErr) :=
  r ← GetEntry dn [attribute];
  mret (map_inl (λ e, match find (λ a, String.eqb a.1 attribute) (e_Attributes e) with
                      | Some a => (default "" (head a.2), true)
                      | None => ("", false)
                      end) r).

Definition ProbeDN (dn : string) : LM bool :=
  r ← Search dn ldapFilterAllObjects ["1.1"] ScopeBaseObject;
  mret (match r with inl _ => true | inr _ => false end).

Definition getEntityConfig (dn filter : string) (scope : Scope) (entityType entityName : string) :
    LM (gmap string string + LdapErr) :=
  r ← search_one dn filter ["*"] scope (Some ("failed to get " +:+ entityType +:+ " config for " +:+ entityName))
        (entityType +:+ " not found: " +:+ entityName);
  mret (map_inl entryToMap r).

Definition getEntityNames (dn filter : string) (scope : Scope) (attributeName entityType : string) :
    LM (list string + LdapErr) :=
  r ← Search dn filter [attributeName] scope;
  mret (map_inl (λ es, base.filter (λ name, name ≠ "") ((λ e, GetAttributeValue e attributeName) <$> es))
          (wrap_err ("failed to get all " +:+ entityType) r)).

Definition getEntitiesWithAttributes (dn filter : string) (scope : Scope) (keyAttribute entityType : string) :
    LM (gmap string (gmap string string) + LdapErr) :=
  r ← Search dn filter ["*"] scope;
  mret (map_inl (foldl (λ m e, let k := GetAttributeValue e keyAttribute in
                               if String.eqb k "" then m else <[k := entryToMap e]> m) ∅)
          (wrap_err ("failed to get all " +:+ entityType +:+ " with attributes") r)).

Definition GetGlobalConfig : LM (gmap string string + LdapErr) :=
  r ← search_one ("cn=config," +:+ c_baseDN c) ldapFilterAllObjects ["*"] ScopeBaseObject
        (Some "failed to get global config") "global config not found";
  mret (map_inl entryToMap r).

Definition server_dn (hostname : string) : string :=
  "cn=" +:+ EscapeDN hostname +:+ ",cn=servers," +:+ c_baseDN c.

(** The schema cache is the client's; it is passed and returned. *)
Definition GetServerConfig (hostname : string) (fs : SchemaDir) (cache : attrsFileCache) :
    LM ((gmap string string + LdapErr) * attrsFileCache) :=
  r ← getEntityConfig (server_dn hostname) ldapFilterAllObjects ScopeBaseObject "server" hostname;
  match r with
  | inr e => mret (inr e, cache)
  | inl server =>
      match serverInheritedAttrs cache fs with
      | (None, cache) => mret (inr (PlainError ("server " +:+ hostname +:+ " inherited attributes")), cache)
      | (Some inherited, cache) =>
          global ← GetGlobalConfig;
          mret (map_inl (λ global, applyServerInherited server global inherited) global, cache)
      end
  end.

Definition servers_dn : string := "cn=servers," +:+ c_baseDN c.

Definition GetAllServers : LM (list string + LdapErr) :=
  getEntityNames servers_dn "(objectClass=zimbraServer)" ScopeSingleLevel "cn" "servers".

Definition GetAllServersWithAttributes : LM (gmap string (gmap string string) + LdapErr) :=
  getEntitiesWithAttributes servers_dn "(objectClass=zimbraServer)" ScopeSingleLevel "cn" "servers".

Definition GetAllDomains : LM (list string + LdapErr) :=
  getEntityNames "" "(objectClass=zimbraDomain)" ScopeWholeSubtree "zimbraDomainName" "domains".

Definition domain_filter (domain : string) : string :=
  "(&(objectClass=zimbraDomain)(zimbraDomainName=" +:+ EscapeFilter domain +:+ "))".

Definition GetDomain (domain : string) : LM (gmap string string + LdapErr) :=
  getEntityConfig "" (domain_filter domain) ScopeWholeSubtree "domain" domain.

Definition GetAllDomainsWithAttributes : LM (gmap string (gmap string string) + LdapErr) :=
  getEntitiesWithAttributes "" "(objectClass=zimbraDomain)" ScopeWholeSubtree "zimbraDomainName" "domains".

Definition GetEnabledServices (hostname : string) : LM (list string + LdapErr) :=
  r ← search_one (server_dn hostname) ldapFilterAllObjects ["zimbraServiceEnabled"] ScopeBaseObject
        (Some ("failed to get enabled services for " +:+ hostname)) ("server not found: " +:+ hostname);
  mret (map_inl (λ e, GetAttributeValues e "zimbraServiceEnabled") r).

Definition QueryDomains : LM (list Domain + LdapErr) :=
  r ← GetAllDomainsWithAttributes;
  mret (map_inl domains_sorted (wrap_err "failed to get domains with attributes" r)).

(** [order] is how Go ranges over the servers. *)
Definition QueryServers (order : gmap string (gmap string string) → list (gmap string string)) (serviceName : string) :
    LM (list Server + LdapErr) :=
  r ← GetAllServersWithAttributes;
  mret (map_inl (λ all, servers_with serviceName (order all)) (wrap_err "failed to query servers" r)).

(** ** Modifications (modify.go) *)
Definition modify (dn : string) (ops : list modifyOp) : LM (option LdapErr) :=
  r ← executeWithRetry o c (λ conn,
        a ← ask (λ l, o_Modify o l conn dn ops) (EvModify conn dn ops);
        mret match ma_err a with None => inl tt | Some e => inr e end);
  mret match r with inl _ => None | inr e => Some e end.

Definition op_of (kind : modifyKind) (kv : string * list string) : modifyOp :=
  {| mo_kind := kind; mo_attr := kv.1; mo_values := kv.2 |}.

Definition modifyOps (add del replace : gmap string (list string)) : list modifyOp :=
  (op_of modifyDelete <$> sorted_items del) ++ (op_of modifyAdd <$> sorted_items add)
  ++ (op_of modifyReplace <$> sorted_items replace).

Definition singleValueOps (ops : list modifyOp) : list modifyOp :=
  ops ≫= λ op, match mo_kind op, mo_values op with
               | modifyReplace, _ | _, [] | _, [_] => [op]
               | kind, vs => (λ v, {| mo_kind := kind; mo_attr := mo_attr op; mo_values := [v] |}) <$> vs
               end.

Fixpoint modify_each (dn : string) (ops : list modifyOp) : LM (option LdapErr) :=
  match ops with
  | [] => mret None
  | op :: ops =>
      err ← modify dn [op];
      match err with
      | Some e => if isAlreadyConverged err then modify_each dn ops else mret (Some e)
      | None => modify_each dn ops
      end
  end.

Definition ModifyValues (dn : string) (add del replace : gmap string (list string)) : LM (option LdapErr) :=
  let ops := modifyOps add del replace in
  match ops with
  | [] => mret None
  | _ => err ← modify dn ops;
         if negb (isAlreadyConverged err) then mret err else modify_each dn (singleValueOps ops)
  end.

Definition replace_op (attribute value : string) : modifyOp :=
  {| mo_kind := modifyReplace; mo_attr := attribute; mo_values := [value] |}.

(** [Client.ModifyAttribute] and [SetDomainSSLCertKey]. *)
Definition Client_ModifyAttribute (dn attribute value : string) : LM (option LdapErr) :=
  modify dn [replace_op attribute value].

Definition SetDomainSSLCertKey (domainName certificate privateKey : string) : LM (option LdapErr) :=
  r ← search_one "" (domain_filter domainName) ["zimbraDomainName"] ScopeWholeSubtree
        (Some ("failed to look up domain " +:+ domainName)) ("no such domain: " +:+ domainName);
  match r with
  | inr e => mret (Some e)
  | inl e => modify (e_DN e) [replace_op "zimbraSSLCertificate" certificate; replace_op "zimbraSSLPrivateKey" privateKey]
  end.

End Queries.

(** ** The configuration backend (ldap.go)

    [Ldap]: the settings it reads, its verdict on the node being a master, and its
    client for cn=config when there is one. *)
Record LdapKeyMapEntry := { km_Attr : string; km_DN : string; km_RequiresMaster : bool; km_prefix : string }.

Definition ldapCnConfig : string := "cn=config".
Definition ldapDB3MdbCnConfig : string := "olcDatabase={3}mdb,cn=config".
Definition ldapDB2MdbCnConfig : string := "olcDatabase={2}mdb,cn=config".
Definition ldapOverlaySyncprovDB3DN : string := "olcOverlay={0}syncprov,olcDatabase={3}mdb,cn=config".
Definition attrOlcSpSessionlog : string := "olcSpSessionlog".
Definition ldapAccesslogSuffix : string := "cn=accesslog".

Definition km (attr dn : string) (master : bool) (prefix : string) : LdapKeyMapEntry :=
  {| km_Attr := attr; km_DN := dn; km_RequiresMaster := master; km_prefix := prefix |}.

(** The transform formats of the table are a prefix and the value. *)
Definition keymap : gmap string LdapKeyMapEntry := list_to_map [
  ("ldap_common_loglevel", km "olcLogLevel" ldapCnConfig false "");
  ("ldap_common_threads", km "olcThreads" ldapCnConfig false "");
  ("ldap_common_toolthreads", km "olcToolThreads" ldapCnConfig false "");
  ("ldap_common_require_tls", km "olcSecurity" ldapCnConfig false "ssf=");
  ("ldap_common_writetimeout", km "olcWriteTimeout" ldapCnConfig false "");
  ("ldap_common_tlsdhparamfile", km "olcTLSDHParamFile" ldapCnConfig false "");
  ("ldap_common_tlsprotocolmin", km "olcTLSProtocolMin" ldapCnConfig false "");
  ("ldap_common_tlsciphersuite", km "olcTLSCipherSuite" ldapCnConfig false "");
  ("ldap_db_maxsize", km "olcDbMaxsize" ldapDB3MdbCnConfig false "");
  ("ldap_db_envflags", km "olcDbEnvFlags" ldapDB3MdbCnConfig false "");
  ("ldap_db_rtxnsize", km "olcDbRtxnSize" ldapDB3MdbCnConfig false "");
  ("ldap_accesslog_maxsize", km "olcDbMaxsize" ldapDB2MdbCnConfig true "");
  ("ldap_accesslog_envflags", km "olcDbEnvFlags" ldapDB2MdbCnConfig true "");
  ("ldap_overlay_syncprov_checkpoint", km "olcSpCheckpoint" ldapOverlaySyncprovDB3DN true "");
  ("ldap_overlay_syncprov_sessionlog", km "olcSpSessionlog" ldapOverlaySyncprovDB3DN true "");
  ("ldap_overlay_accesslog_logpurge",
   km "olcAccessLogPurge" "olcOverlay={1}accesslog,olcDatabase={3}mdb,cn=config" true "")].

Record Ldap := { l_LdapIsMaster : bool; l_IsMaster : bool; l_ConfigClient : option Client; l_pendingChanges : gmap string string }.

Definition NewLdap (ldapIsMaster : bool) : Ldap :=
  {| l_LdapIsMaster := ldapIsMaster; l_IsMaster := false; l_ConfigClient := None; l_pendingChanges := ∅ |}.

Definition SetConfigClient (client : option Client) (l : Ldap) : Ldap :=
  {| l_LdapIsMaster := l_LdapIsMaster l; l_IsMaster := l_IsMaster l; l_ConfigClient := client;
     l_pendingChanges := l_pendingChanges l |}.

Definition set_IsMaster (b : bool) (l : Ldap) : Ldap :=
  {| l_LdapIsMaster := l_LdapIsMaster l; l_IsMaster := b; l_ConfigClient := l_ConfigClient l;
     l_pendingChanges := l_pendingChanges l |}.

Definition set_pendingChanges (m : gmap string string) (l : Ldap) : Ldap :=
  {| l_LdapIsMaster := l_LdapIsMaster l; l_IsMaster := l_IsMaster l; l_ConfigClient := l_ConfigClient l;
     l_pendingChanges := m |}.

Definition AddChange (key value : string) (l : Ldap) : Ldap := set_pendingChanges (<[key := value]> (l_pendingChanges l)) l.
Definition GetPendingChanges (l : Ldap) : gmap string string := l_pendingChanges l.
Definition ClearPending (l : Ldap) : Ldap := set_pendingChanges ∅ l.

Inductive WriteError :=
  | InvalidConfig (op key : string)
  | NotMaster (key : string)
  | NoConfigClient (op key : string)
  | WriteFailed (e : LdapErr).

Definition lookupKey (isMaster : bool) (key : string) : LdapKeyMapEntry + WriteError :=
  match keymap !! key with
  | None => inr (InvalidConfig "lookup" key)
  | Some entry =>
      let dn := if GoStrings.HasPrefix key "ldap_db_" && negb isMaster then ldapDB2MdbCnConfig else km_DN entry in
      if km_RequiresMaster entry && negb isMaster then inr (NotMaster key)
      else inl {| km_Attr := km_Attr entry; km_DN := dn; km_RequiresMaster := km_RequiresMaster entry; km_prefix := km_prefix entry |}
  end.

Section Config_backend.
Context (o : Oracle).

Definition refreshMasterStatus (l : Ldap) : LM Ldap :=
  if negb (l_LdapIsMaster l) then mret l else
  match l_ConfigClient l with
  | None => mret (set_IsMaster true l)
  | Some c => b ← ProbeDN o c ldapAccesslogSuffix; mret (set_IsMaster b l)
  end.

Definition applyConfigModify (c : Client) (dn attr val : string) : LM (option LdapErr) :=
  r ← ReadAttribute o c dn attr;
  match r with
  | inr _ => if String.eqb attr attrOlcSpSessionlog then mret None else Client_ModifyAttribute o c dn attr val
  | inl (origValue, present) =>
      if String.eqb origValue val then mret None
      else if String.eqb attr attrOlcSpSessionlog && negb present then mret None
      else Client_ModifyAttribute o c dn attr val
  end.

Definition write_err (r : option LdapErr) : option WriteError := WriteFailed <$> r.

(** [Ldap.ModifyAttribute]. *)
Definition ModifyAttribute (key value : string) (l : Ldap) : LM (option WriteError * Ldap) :=
  l ← refreshMasterStatus l;
  match lookupKey (l_IsMaster l) key with
  | inr e => mret (Some e, l)
  | inl entry =>
      match l_ConfigClient l with
      | None => mret (Some (NoConfigClient "modify" key), l)
      | Some c => r ← applyConfigModify c (km_DN entry) (km_Attr entry) (km_prefix entry +:+ value);
                  mret (write_err r, l)
      end
  end.

(** The groups of a batch: the changes in the order in which Go ranges over them, each
    put under its DN; the first key that cannot be written ends it. *)
Fixpoint group_changes (isMaster : bool) (changes : list (string * string))
    (groups : gmap string (gmap string string)) : gmap string (gmap string string) + WriteError :=
  match changes with
  | [] => inl groups
  | (key, value) :: changes =>
      match lookupKey isMaster key with
      | inr e => inr e
      | inl entry =>
          group_changes isMaster changes
            (<[km_DN entry := <[km_Attr entry := km_prefix entry +:+ value]> (default ∅ (groups !! km_DN entry))]> groups)
      end
  end.

Fixpoint executeBatchModifyInternal (c : Client) (dn : string) (attrs : list (string * string)) : LM (option LdapErr) :=
  match attrs with
  | [] => mret None
  | (attr, val) :: attrs =>
      err ← applyConfigModify c dn attr val;
      match err with
      | Some e => mret (Some (Wrap ("modify " +:+ attr +:+ " on " +:+ dn) e))
      | None => executeBatchModifyInternal c dn attrs
      end
  end.

(** The groups in the order in which Go ranges over them, each with its attributes. *)
Fixpoint modify_groups (c : Client) (groups : list (string * list (string * string))) : LM (option WriteError) :=
  match groups with
  | [] => mret None
  | (dn, attrs) :: groups =>
      err ← executeBatchModifyInternal c dn attrs;
      match err with
      | Some e => mret (Some (WriteFailed e))
      | None => modify_groups c groups
      end
  end.

(** [order] and [order'] are the orders of Go's loops over the changes and the groups. *)
Definition ModifyAttributeBatch (order : list (string * string))
    (order' : gmap string (gmap string string) → list (string * list (string * string))) (l : Ldap) :
    LM (option WriteError * Ldap) :=
  match order with
  | [] => mret (None, l)
  | _ =>
      l ← refreshMasterStatus l;
      match l_ConfigClient l with
      | None => mret (Some (NoConfigClient "batch modify" ""), l)
      | Some c =>
          match group_changes (l_IsMaster l) order ∅ with
          | inr e => mret (Some e, l)
          | inl groups => r ← modify_groups c (order' groups); mret (r, l)
          end
      end
  end.

End Config_backend.
