(* ===== verification/LdapProps.v ===== *)
(** * LdapProps: the pool, the retries and the modifications of the directory client

    - [pool_no_leak]: the operations that share a pool, and [Close], in any
      interleaving: no connection is used twice or lost.
    - [no_clear_text_password]: a client that wants StartTLS never binds without it.
    - [executeWithRetry_bounded]: an operation makes a bounded number of attempts.
    - [ModifyValues_converges]: a modification that succeeds has left the entry in the
      requested state, whatever was lost or repeated on the way. *)
From S2P Require Import Prelude Config Ldap.
Open Scope Z_scope.

(** ** The pool under every interleaving

    [sp_open] are the connections that are up, [sp_held] those in the hands of an
    operation, by goroutine.  A connection of which neither the client nor its peer has
    closed an end is up; [IsClosing] is that it is not.  A step is a critical section, or
    an access to a connection, of the code. *)
Record Shared := {
  sp_pool : list Conn; sp_held : gmap nat Conn; sp_open : gset Conn; sp_seen : gset Conn;
  sp_closed : bool; sp_drained : bool }.

Definition closing (s : Shared) (c : Conn) : bool := bool_decide (c ∉ sp_open s).

Definition shared_init : Shared :=
  {| sp_pool := []; sp_held := ∅; sp_open := ∅; sp_seen := ∅; sp_closed := false; sp_drained := false |}.

(** Goroutine [g] drops its connection; [close] says whether it closes it. *)
Definition drop_held (g : nat) (close : bool) (c : Conn) (s : Shared) : Shared :=
  {| sp_pool := sp_pool s; sp_held := delete g (sp_held s);
     sp_open := if close then sp_open s ∖ {[c]} else sp_open s;
     sp_seen := sp_seen s; sp_closed := sp_closed s; sp_drained := sp_drained s |}.

Inductive pool_step (poolSize : Z) : Shared → Shared → Prop :=
  (* dialAndBind: a connection is set up *)
  | step_dial g c s :
      sp_held s !! g = None → c ∉ sp_seen s →
      pool_step poolSize s
        {| sp_pool := sp_pool s; sp_held := <[g := c]> (sp_held s); sp_open := {[c]} ∪ sp_open s;
           sp_seen := {[c]} ∪ sp_seen s; sp_closed := sp_closed s; sp_drained := sp_drained s |}
  (* getConnection: popIdle *)
  | step_pop g c pool s :
      sp_held s !! g = None → popIdle (closing s) (sp_pool s) = (Some c, pool) →
      pool_step poolSize s
        {| sp_pool := pool; sp_held := <[g := c]> (sp_held s); sp_open := sp_open s; sp_seen := sp_seen s;
           sp_closed := sp_closed s; sp_drained := sp_drained s |}
  | step_pop_none pool s :
      popIdle (closing s) (sp_pool s) = (None, pool) →
      pool_step poolSize s
        {| sp_pool := pool; sp_held := sp_held s; sp_open := sp_open s; sp_seen := sp_seen s;
           sp_closed := sp_closed s; sp_drained := sp_drained s |}
  (* dialAndBind that fails, handleOperationError: the connection is closed *)
  | step_discard g c s :
      sp_held s !! g = Some c → pool_step poolSize s (drop_held g true c s)
  (* returnConnection of a closing connection *)
  | step_return_closing g c s :
      sp_held s !! g = Some c → closing s c → pool_step poolSize s (drop_held g false c s)
  (* returnConnection, under the lock; the connection may have gone since the check *)
  | step_return g c pool drop s :
      sp_held s !! g = Some c → give_back (sp_closed s) poolSize c (sp_pool s) = (pool, drop) →
      pool_step poolSize s
        {| sp_pool := pool; sp_held := delete g (sp_held s); sp_open := if (drop : bool) then sp_open s ∖ {[c]} else sp_open s;
           sp_seen := sp_seen s; sp_closed := sp_closed s; sp_drained := sp_drained s |}
  (* the peer closes a connection *)
  | step_die c s :
      pool_step poolSize s
        {| sp_pool := sp_pool s; sp_held := sp_held s; sp_open := sp_open s ∖ {[c]}; sp_seen := sp_seen s;
           sp_closed := sp_closed s; sp_drained := sp_drained s |}
  (* Close: the channel, then the pool under the lock *)
  | step_close s :
      pool_step poolSize s
        {| sp_pool := sp_pool s; sp_held := sp_held s; sp_open := sp_open s; sp_seen := sp_seen s;
           sp_closed := true; sp_drained := sp_drained s |}
  | step_drain s :
      sp_closed s →
      pool_step poolSize s
        {| sp_pool := []; sp_held := sp_held s; sp_open := sp_open s ∖ list_to_set (sp_pool s); sp_seen := sp_seen s;
           sp_closed := true; sp_drained := true |}.

Record pool_ok (poolSize : Z) (s : Shared) : Prop := {
  ok_nodup : NoDup (sp_pool s);
  ok_size : Z.of_nat (length (sp_pool s)) ≤ poolSize;
  ok_apart : ∀ g c, sp_held s !! g = Some c → c ∉ sp_pool s;
  ok_inj : ∀ g g' c, sp_held s !! g = Some c → sp_held s !! g' = Some c → g = g';
  ok_owned : ∀ c, c ∈ sp_open s → c ∈ sp_pool s ∨ ∃ g, sp_held s !! g = Some c;
  ok_seen : ∀ c, (c ∈ sp_pool s ∨ ∃ g, sp_held s !! g = Some c) → c ∈ sp_seen s;
  ok_drained : sp_drained s → sp_closed s ∧ sp_pool s = [] }.

Lemma pop_go_spec f l r p :
  pop_go f l = (r, p) → ∃ dropped, Forall (λ c, f c = true) dropped ∧
    match r with Some c => l = dropped ++ c :: reverse p ∧ f c = false | None => l = dropped ∧ p = [] end.
Proof.
  revert p; induction l as [|c l IH]; intros p; simpl.
  { intros [= <- <-]. exists []. done. }
  destruct (f c) eqn:E.
  - intros (d & Hd & H)%IH. exists (c :: d). split; [by constructor|]. destruct r; naive_solver.
  - intros [= <- <-]. exists []. rewrite reverse_involutive. done.
Qed.

(** What [popIdle] takes and what it drops: the connections left and the one taken are
    those of the pool, less some that are closing. *)
Lemma popIdle_spec f pool r p :
  popIdle f pool = (r, p) → ∃ dropped, Forall (λ c, f c = true) dropped ∧
    match r with Some c => pool = p ++ c :: dropped ∧ f c = false | None => pool = dropped ∧ p = [] end.
Proof.
  intros (d & Hd & H)%pop_go_spec. exists (reverse d). split; [by apply Forall_reverse|].
  destruct r.
  - destruct H as [H ?]. split; [|done]. apply (f_equal reverse) in H.
    rewrite reverse_involutive, reverse_app, reverse_cons, reverse_involutive in H. by rewrite H, <- app_assoc.
  - destruct H as [H ->]. split; [|done]. apply (f_equal reverse) in H. by rewrite reverse_involutive in H.
Qed.

Lemma give_back_spec closed size c pool p drop :
  give_back closed size c pool = (p, drop) →
  (drop = true ∧ p = pool) ∨ (drop = false ∧ closed = false ∧ p = pool ++ [c] ∧ Z.of_nat (length p) ≤ size).
Proof.
  unfold give_back. destruct closed; simpl; [intros [= <- <-]; auto|].
  destruct (Z.leb_spec size (Z.of_nat (length pool))); intros [= <- <-]; [auto|].
  right. rewrite length_app. simpl. split_and!; try done. lia.
Qed.

(** Look-ups in an updated [sp_held]. *)
Ltac held :=
  repeat match goal with
         | H : <[_ := _]> _ !! _ = Some _ |- _ => apply lookup_insert_Some in H as [[? ?]|[? ?]]; subst
         | H : delete _ _ !! _ = Some _ |- _ => apply lookup_delete_Some in H as [? ?]
         end.

Lemma pool_ok_dial size g c s :
  pool_ok size s → sp_held s !! g = None → c ∉ sp_seen s →
  pool_ok size {| sp_pool := sp_pool s; sp_held := <[g := c]> (sp_held s); sp_open := {[c]} ∪ sp_open s;
                  sp_seen := {[c]} ∪ sp_seen s; sp_closed := sp_closed s; sp_drained := sp_drained s |}.
Proof.
  intros [N L A I O S D] Hg Hc. split; simpl; try done.
  - intros g' c' ?; held; [|by eauto]. intros Hin. apply Hc, S. by left.
  - intros g1 g2 c' ? ?; held; try done; [| |by eauto].
    + exfalso. apply Hc, S. eauto.
    + exfalso. apply Hc, S. eauto.
  - intros c' [->%elem_of_singleton|Hin]%elem_of_union.
    + right. exists g. apply lookup_insert_eq.
    + destruct (O _ Hin) as [|[g' Hg']]; [by left|]. right. exists g'.
      rewrite lookup_insert_ne; [done|]. intros ->. by rewrite Hg in Hg'.
  - intros c' [Hin|[g' Hg']]; [set_solver|]. held; [set_solver|].
    apply elem_of_union_r, S. eauto.
Qed.

(** Goroutine [g] lets go of a connection that is no longer open. *)
Lemma pool_ok_drop size g c s opened :
  pool_ok size s → sp_held s !! g = Some c → opened ⊆ sp_open s → c ∉ opened →
  pool_ok size {| sp_pool := sp_pool s; sp_held := delete g (sp_held s); sp_open := opened;
                  sp_seen := sp_seen s; sp_closed := sp_closed s; sp_drained := sp_drained s |}.
Proof.
  intros [N L A I O S D] Hg Hsub Hc. split; simpl; try done.
  - intros; held; eauto.
  - intros; held; eauto.
  - intros c' Hin. destruct (O c') as [|[g' Hg']]; [by apply Hsub|by left|].
    right. exists g'. apply lookup_delete_Some. split; [|done]. intros ->. naive_solver.
  - intros c' [|[g' Hg']]; [by apply S; left|]. held. apply S. eauto.
Qed.

Lemma pool_ok_pop size s p r :
  pool_ok size s → popIdle (closing s) (sp_pool s) = (r, p) →
  (∀ c, c ∈ p → c ∈ sp_pool s) ∧ NoDup p ∧ Z.of_nat (length p) ≤ size ∧
  (∀ c, r = Some c → c ∈ sp_pool s ∧ c ∉ p) ∧
  (∀ c, c ∈ sp_pool s → c ∈ sp_open s → c ∈ p ∨ r = Some c).
Proof.
  intros [N L _ _ _ _ _] (d & Hd & H)%popIdle_spec. destruct r as [c|].
  - destruct H as [Hp _]. rewrite Hp in *. rewrite length_app in L. apply NoDup_app in N as (N1 & N2 & N3).
    split_and!; [set_solver|done|lia| |].
    + intros ? [= <-]. split; [set_solver|]. intros Hin. apply (N2 c); [done|set_solver].
    + intros c' [?|[->|Hin]%elem_of_cons]%elem_of_app Ho; [by left|by right|].
      rewrite Forall_forall in Hd. specialize (Hd _ Hin). unfold closing in Hd. by apply bool_decide_eq_true in Hd.
  - destruct H as [Hp ->]. simpl. split_and!; [set_solver|constructor|lia|done|].
    intros c' Hin Ho. rewrite Hp, Forall_forall in *. specialize (Hd _ Hin).
    unfold closing in Hd. by apply bool_decide_eq_true in Hd.
Qed.

Lemma pool_ok_take size s p r held :
  pool_ok size s → popIdle (closing s) (sp_pool s) = (r, p) →
  match r with Some c => ∃ g, sp_held s !! g = None ∧ held = <[g := c]> (sp_held s) | None => held = sp_held s end →
  pool_ok size {| sp_pool := p; sp_held := held; sp_open := sp_open s; sp_seen := sp_seen s;
                  sp_closed := sp_closed s; sp_drained := sp_drained s |}.
Proof.
  intros Hok Hp. destruct (pool_ok_pop _ _ _ _ Hok Hp) as (Hsub & Hnd & Hlen & Hr & Hopen).
  destruct Hok as [N L A I O S D]. intros Hheld.
  assert (Hd : sp_drained s → sp_closed s ∧ p = []).
  { intros [? E]%D. split; [done|]. destruct p as [|c]; [done|]. specialize (Hsub c). rewrite E in Hsub. set_solver. }
  destruct r as [c|]; [destruct Hheld as (g & Hg & ->); destruct (Hr c eq_refl) as [Hin Hni]|subst held];
    split; simpl; try done.
  - intros g' c' ?; held; [done|]. intros ?%Hsub. by eapply A.
  - intros g1 g2 c' ? ?; held; try done; [| |by eauto]; exfalso; by eapply A.
  - intros c' Ho. destruct (O _ Ho) as [Hin'|[g' Hg']].
    + destruct (Hopen _ Hin' Ho) as [|E]; [by left|injection E as ->]. right. exists g. apply lookup_insert_eq.
    + right. exists g'. rewrite lookup_insert_ne; [done|]. intros ->. by rewrite Hg in Hg'.
  - intros c' [?%Hsub|[g' Hg']]; [by apply S; left|]. held; apply S; eauto.
  - intros g c ? ?%Hsub. by eapply A.
  - intros c' Ho. destruct (O _ Ho) as [Hin'|?]; [|by right]. destruct (Hopen _ Hin' Ho); [by left|done].
  - intros c' [?%Hsub|?]; apply S; eauto.
Qed.

Lemma pool_ok_return size g c s p drop :
  pool_ok size s → sp_held s !! g = Some c → give_back (sp_closed s) size c (sp_pool s) = (p, drop) →
  pool_ok size {| sp_pool := p; sp_held := delete g (sp_held s);
                  sp_open := if (drop : bool) then sp_open s ∖ {[c]} else sp_open s;
                  sp_seen := sp_seen s; sp_closed := sp_closed s; sp_drained := sp_drained s |}.
Proof.
  intros Hok Hg [[-> ->]|(-> & Hc & -> & Hlen)]%give_back_spec.
  { apply (pool_ok_drop _ _ c); [done|done|set_solver|set_solver]. }
  destruct Hok as [N L A I O S D]. split; simpl; try done.
  - apply NoDup_app. split_and!; [done| |apply NoDup_singleton]. intros c' Hin ->%list_elem_of_singleton. by eapply A.
  - intros g' c' ?; held. intros [?| ->%list_elem_of_singleton]%elem_of_app; [by eapply A|]. naive_solver.
  - intros; held; eauto.
  - intros c' [|[g' Hg']]%O; [set_solver|]. destruct (decide (g' = g)) as [->|].
    + left. rewrite Hg in Hg'. injection Hg' as ->. set_solver.
    + right. exists g'. by apply lookup_delete_Some.
  - intros c' [[| ->%list_elem_of_singleton]%elem_of_app|[g' Hg']]; [by apply S; left|apply S; eauto|].
    held. apply S. eauto.
  - intros [? ?]%D. by rewrite Hc in *.
Qed.

Lemma pool_ok_step size s s' : pool_ok size s → 0 ≤ size → pool_step size s s' → pool_ok size s'.
Proof.
  intros Hok Hsz. destruct 1.
  - by apply pool_ok_dial.
  - eapply pool_ok_take; [done..|]. simpl. eauto.
  - by eapply pool_ok_take.
  - apply (pool_ok_drop _ g c); [done|done|set_solver|set_solver].
  - apply (pool_ok_drop _ g c); [done|done|done|]. unfold closing in *. by case_bool_decide.
  - by eapply pool_ok_return.
  - destruct Hok as [N L A I O S D]. split; simpl; try done. intros c' ?. apply O. set_solver.
  - destruct Hok as [N L A I O S D]. split; simpl; try done. naive_solver.
  - destruct Hok as [N L A I O S D]. split; simpl; try done.
    + by apply NoDup_nil.
    + intros ? ? ?. apply not_elem_of_nil.
    + intros c' [Hin Hni]%elem_of_difference. destruct (O _ Hin) as [?|?]; [|by right].
      exfalso. apply Hni. by apply elem_of_list_to_set.
    + intros c' [?%elem_of_nil|?]; [done|]. apply S. by right.
Qed.

Lemma pool_ok_reach size s : 0 ≤ size → rtc (pool_step size) shared_init s → pool_ok size s.
Proof.
  intros Hsz H. assert (Hinit : pool_ok size shared_init).
  { split; simpl; try done; [by apply NoDup_nil|intros c [?%elem_of_nil|[? ?]]; done]. }
  revert Hinit. generalize dependent shared_init. induction 1; eauto using pool_ok_step.
Qed.

Lemma NewClient_poolSize cfg cl : NewClient cfg = inl cl → 0 < c_poolSize cl.
Proof.
  unfold NewClient. destruct (match cc_URLs cfg with [] => _ | _ => _ end); [done|].
  intros [= <-]. simpl. unfold or_if_not_positive. destruct (Z.leb_spec (cc_PoolSize cfg) 0); lia.
Qed.

(** C16: whatever the operations that share a client's pool, the peers that close
    connections and [Close] do, in any interleaving: every connection that is up is in the
    pool or in the hands of an operation, never both, never of two operations; the pool
    stays within its size; and once [Close] is through and no operation is under way, no
    connection is left up. *)
Theorem pool_no_leak cfg cl s :
  NewClient cfg = inl cl → rtc (pool_step (c_poolSize cl)) shared_init s →
  (∀ c, c ∈ sp_open s → c ∈ sp_pool s ∨ (∃ g, sp_held s !! g = Some c)) ∧
  (∀ g c, sp_held s !! g = Some c → (c ∉ sp_pool s) ∧ (∀ g', sp_held s !! g' = Some c → g' = g)) ∧
  NoDup (sp_pool s) ∧ Z.of_nat (length (sp_pool s)) ≤ c_poolSize cl ∧
  (sp_drained s → sp_held s = ∅ → sp_open s = ∅).
Proof.
  intros Hcl Hs. pose proof (NewClient_poolSize _ _ Hcl).
  destruct (pool_ok_reach (c_poolSize cl) s) as [N L A I O S D]; [lia|done|].
  split_and!; [done|naive_solver|done|done|]. intros [_ Hp]%D Hh. apply set_eq. intros c. split; [|set_solver].
  intros [Hin|[g Hg]]%O; [rewrite Hp in Hin; set_solver|]. by rewrite Hh in Hg.
Qed.

Definition test_config : ClientConfig :=
  {| cc_URL := "ldap://a.example.com ldap://b.example.com"; cc_URLs := []; cc_BindDN := "uid=zimbra"; cc_Password := "pw";
     cc_BaseDN := ""; cc_PoolSize := 1; cc_MaxRetries := 0; cc_RetryDelay := 0; cc_MaxRetryDelay := 0;
     cc_DialTimeout := 0; cc_BindTimeout := 0; cc_OpTimeout := 0; cc_TLSConfig := None; cc_StartTLS := true;
     cc_AttrsDir := "" |}.

Definition test_client : Client :=
  {| c_urls := ["ldap://a.example.com"; "ldap://b.example.com"]; c_bindDN := "uid=zimbra"; c_password := "pw";
     c_baseDN := "cn=zimbra"; c_startTLS := true; c_poolSize := 1; c_maxRetries := 3; c_retryDelay := 100000000;
     c_maxRetryDelay := 5000000000; c_dialTimeout := 10000000000; c_bindTimeout := 10000000000;
     c_opTimeout := 30000000000; c_tlsConfig := None; c_attrsDir := "" |}.

(** Two operations dial; one returns its connection, the client is closed, the other
    returns its own: both connections are closed. *)
Definition test_shared : Shared :=
  {| sp_pool := []; sp_held := delete 2%nat (<[2%nat := 8%nat]> (delete 1%nat (<[1%nat := 7%nat]> ∅)));
     sp_open := ({[8%nat]} ∪ ({[7%nat]} ∪ ∅)) ∖ list_to_set [7%nat] ∖ {[8%nat]};
     sp_seen := {[8%nat]} ∪ ({[7%nat]} ∪ ∅); sp_closed := true; sp_drained := true |}.

Lemma pool_no_leak_witness :
  NewClient test_config = inl test_client ∧ rtc (pool_step 1) shared_init test_shared ∧ sp_open test_shared = ∅.
Proof.
  assert (H0 : NewClient test_config = inl test_client) by reflexivity.
  assert (H : rtc (pool_step 1) shared_init test_shared).
  { eapply rtc_l; [by apply (step_dial 1 1 7); [|set_solver]|].
    eapply rtc_l; [by eapply (step_return 1 1 7)|].
    eapply rtc_l; [by apply (step_dial 1 2 8); [|set_solver]|].
    eapply rtc_l; [apply step_close|].
    eapply rtc_l; [by apply step_drain|].
    eapply rtc_l; [|apply rtc_refl].
    apply (step_return 1 2 8 [] true); reflexivity. }
  split; [done|]. split; [done|].
  apply (pool_no_leak test_config test_client test_shared H0 H); reflexivity.
Defined.

(** ** What an operation adds to the log

    [grows F m]: every event [e] that [m] adds to a log [l] satisfies [F l e]. *)
Inductive grown (F : Log → Event → Prop) (l : Log) : Log → Prop :=
  | grown_refl : grown F l l
  | grown_add l' e : grown F l l' → F l' e → grown F l (e :: l').

Definition grows {A} (F : Log → Event → Prop) (m : LM A) : Prop :=
  ∀ s, grown F (ls_log s) (ls_log (m s).2).

Section Grows.
Context (F : Log → Event → Prop).

Lemma grown_trans l1 l2 l3 : grown F l1 l2 → grown F l2 l3 → grown F l1 l3.
Proof. intros H. induction 1; [done|by constructor]. Qed.

Lemma grows_ret {A} (a : A) : grows F (mret a).
Proof. intros s. constructor. Qed.

Lemma grows_bind {A B} (m : LM A) (f : A → LM B) : grows F m → (∀ a, grows F (f a)) → grows F (m ≫= f).
Proof.
  intros Hm Hf s. unfold mbind, LM_bind. specialize (Hm s). destruct (m s) as [a s1].
  eapply grown_trans; [exact Hm|apply Hf].
Qed.

Lemma grows_ask {A} (ans : Log → A) ev : (∀ l a, F l (ev a)) → grows F (ask ans ev).
Proof. intros H s. unfold ask, push. simpl. apply grown_add; [constructor|apply H]. Qed.

Lemma grows_tell e : (∀ l, F l e) → grows F (tell e).
Proof. intros H s. apply grown_add; [constructor|apply H]. Qed.

Lemma grows_set_pool {A} (m : LM A) p s : grows F m → grown F (ls_log s) (ls_log (m (set_pool p s)).2).
Proof. intros H. apply (H (set_pool p s)). Qed.
End Grows.

Create HintDb grows.
#[export] Hint Resolve grows_ret grows_ask grows_tell : grows.

(** Follow the structure of an operation. *)
Ltac grow :=
  repeat first
    [ progress intros
    | solve [eauto with grows]
    | apply grows_bind
    | match goal with
      | |- grows _ (match ?x with _ => _ end) => destruct x
      | |- grows _ (if ?x then _ else _) => destruct x
      end ].

(** What the pool, the retries and the requests add, when dialling and binding add what
    [F] permits. *)
Section Retry_grows.
Context (F : Log → Event → Prop) (o : Oracle) (c : Client).
Hypothesis F_ctx : ∀ l e, F l (EvCtx e).
Hypothesis F_close : ∀ l x, F l (EvClose x).
Hypothesis F_wait : ∀ l d b, F l (EvWait d b).
Hypothesis F_timeout : ∀ l x t, F l (EvSetTimeout x t).
Hypothesis F_dial : ∀ url, grows F (dialAndBind o c url).

Lemma grows_connect : grows F (connect o c).
Proof.
  unfold connect. generalize (@nil LdapErr). induction (c_urls c) as [|u us IH]; intros es; simpl; grow.
Qed.

Lemma grows_getConnection : grows F (getConnection o c).
Proof.
  intros s. unfold getConnection. destruct (popIdle _ _) as [[conn|] p]; [constructor|].
  apply grows_set_pool, grows_connect.
Qed.

Lemma grows_returnConnection conn : grows F (returnConnection o c conn).
Proof.
  intros s. unfold returnConnection. destruct (o_IsClosing _ _ _); [constructor|].
  destruct (give_back _ _ _ _) as [p d]. apply grows_set_pool. unfold close_conn. grow.
Qed.

Lemma grows_handleOperationError conn e : grows F (handleOperationError o c conn e).
Proof. unfold handleOperationError, close_conn. grow. apply grows_returnConnection. Qed.

Lemma grows_retry_go {A} (op : Conn → LM (A + LdapErr)) n first d e :
  (∀ conn, grows F (op conn)) → grows F (retry_go o c op n first d e).
Proof.
  intros Hop. revert first d e. induction n as [|n IH]; intros first d e; simpl; [grow|].
  grow; try apply IH; auto using grows_getConnection, grows_returnConnection, grows_handleOperationError.
Qed.

Lemma grows_executeWithRetry {A} (op : Conn → LM (A + LdapErr)) :
  (∀ conn, grows F (op conn)) → grows F (executeWithRetry o c op).
Proof. apply grows_retry_go. Qed.
End Retry_grows.

(** ** StartTLS comes before the password *)

(** The log when a bind is sent: the connection was just dialled, and upgraded when the
    client wants StartTLS and the URL is a plain one. *)
Definition bind_safe (c : Client) (l : Log) (e : Event) : Prop :=
  match e with
  | EvBind conn _ _ _ =>
      ∃ url tls rest,
        l = EvStartTLS conn tls None :: EvDial url tls (inl conn) :: rest ∨
        (l = EvDial url tls (inl conn) :: rest ∧ ¬ (c_startTLS c = true ∧ urlScheme url = "ldap"))
  | _ => True
  end.

Ltac bind_log :=
  repeat (apply grown_add; [|first [done | solve [simpl; eauto 6] | simpl; do 3 eexists; right; split; [done|]; intros [? ?]; congruence]]);
  apply grown_refl.

Lemma dialAndBind_safe o c url : grows (bind_safe c) (dialAndBind o c url).
Proof.
  intros s. unfold dialAndBind, dialCtx, upgradeAndBind, close_conn, ask, tell, mbind, LM_bind, mret, LM_ret.
  destruct (o_aborted _ _); simpl.
  { destruct (o_dial _ _ _ _); simpl; bind_log. }
  destruct (o_dial _ _ _ _) as [conn|e] eqn:Ed; simpl; [|bind_log].
  destruct (c_startTLS c) eqn:Et; simpl; [destruct (String.eqb_spec (urlScheme url) "ldap"); simpl|].
  - destruct (o_StartTLS _ _ _) as [e'|] eqn:Es; simpl; [|destruct (o_Bind _ _ _)];
      destruct (o_fired _ _); simpl; bind_log.
  - destruct (o_Bind _ _ _); destruct (o_fired _ _); simpl; bind_log.
  - destruct (o_Bind _ _ _); destruct (o_fired _ _); simpl; bind_log.
Qed.

Lemma grown_bind_safe c l l' :
  grown (bind_safe c) l l' → ∀ post conn dn pw err pre, l' = post ++ EvBind conn dn pw err :: pre →
  (length pre < length l)%nat ∨ bind_safe c pre (EvBind conn dn pw err).
Proof.
  induction 1 as [|l' e Hg IH He]; intros post conn dn pw err pre E.
  - left. rewrite E, length_app. simpl. lia.
  - destruct post as [|e' post]; simpl in E.
    + injection E as -> ->. by right.
    + injection E as -> ->. by eapply IH.
Qed.

Lemma executeWithRetry_safe {A} o c (op : Conn → LM (A + LdapErr)) :
  (∀ conn, grows (bind_safe c) (op conn)) → grows (bind_safe c) (executeWithRetry o c op).
Proof. apply grows_executeWithRetry; try done. intros. apply dialAndBind_safe. Qed.

Lemma Search_safe o c dn flt attrs scope : grows (bind_safe c) (Search o c dn flt attrs scope).
Proof. apply executeWithRetry_safe. intros conn. by apply grows_ask. Qed.

Lemma modify_safe o c dn ops : grows (bind_safe c) (modify o c dn ops).
Proof.
  apply grows_bind; [|intros [?|?]; apply grows_ret]. apply executeWithRetry_safe. intros conn.
  apply grows_bind; [by apply grows_ask|intros; apply grows_ret].
Qed.

Lemma modify_each_safe o c dn ops : grows (bind_safe c) (modify_each o c dn ops).
Proof.
  induction ops as [|op ops IH]; [apply grows_ret|]. apply grows_bind; [apply modify_safe|].
  intros [e|]; [|done]. destruct (isAlreadyConverged _); [done|apply grows_ret].
Qed.

Lemma ModifyValues_safe o c dn add del replace : grows (bind_safe c) (ModifyValues o c dn add del replace).
Proof.
  unfold ModifyValues. destruct (modifyOps _ _ _); [apply grows_ret|].
  apply grows_bind; [apply modify_safe|]. intros err. destruct (negb _); [apply grows_ret|apply modify_each_safe].
Qed.

(** C19: a search or a modification of a client that wants StartTLS never sends its
    password over a connection to an [ldap://] URL that was not upgraded: whatever the
    servers answer and however often the client reconnects, a bind goes to the connection
    just dialled, and StartTLS succeeded on it in between. *)
Theorem no_clear_text_password o c dn flt attrs scope add del replace s conn bdn pw err post pre :
  c_startTLS c = true →
  ls_log (Search o c dn flt attrs scope s).2 = post ++ EvBind conn bdn pw err :: pre ∨
  ls_log (ModifyValues o c dn add del replace s).2 = post ++ EvBind conn bdn pw err :: pre →
  (length (ls_log s) ≤ length pre)%nat →
  ∃ url tls rest,
    pre = EvStartTLS conn tls None :: EvDial url tls (inl conn) :: rest ∨
    (pre = EvDial url tls (inl conn) :: rest ∧ urlScheme url ≠ "ldap").
Proof.
  intros Ht Hlog Hlen.
  assert (Hb : (length pre < length (ls_log s))%nat ∨ bind_safe c pre (EvBind conn bdn pw err)).
  { destruct Hlog as [Hlog|Hlog].
    - by apply (grown_bind_safe _ _ _ (Search_safe o c dn flt attrs scope s) post).
    - by apply (grown_bind_safe _ _ _ (ModifyValues_safe o c dn add del replace s) post). }
  destruct Hb as [?|(url & tls & rest & [H|[H Hn]])]; [lia|by exists url, tls, rest; left|].
  exists url, tls, rest. right. split; [done|]. intros ?. by apply Hn.
Qed.

(** A server that answers everything. *)
Definition test_oracle : Oracle :=
  {| o_ctxErr := λ _, None; o_dial := λ l _ _, inl (length l); o_aborted := λ _, false; o_StartTLS := λ _ _, None;
     o_Bind := λ _ _, None; o_fired := λ _, false; o_wait := λ _ _, true; o_IsClosing := λ _ _, false;
     o_Search := λ _ _ _, inl []; o_Modify := λ _ _ _ _, {| ma_err := None; ma_applied := true |} |}.

Definition test_state : LState := {| ls_log := []; ls_pool := []; ls_closed := false |}.

Lemma no_clear_text_password_witness :
  ∃ url tls rest,
    ([EvStartTLS 2%nat (tlsConfigFor test_client "ldap://a.example.com") None;
      EvDial "ldap://a.example.com" (tlsConfigFor test_client "ldap://a.example.com") (inl 2%nat);
      EvRace false; EvCtx None] : Log) = EvStartTLS 2%nat tls None :: EvDial url tls (inl 2%nat) :: rest ∨
    (([EvStartTLS 2%nat (tlsConfigFor test_client "ldap://a.example.com") None;
      EvDial "ldap://a.example.com" (tlsConfigFor test_client "ldap://a.example.com") (inl 2%nat);
      EvRace false; EvCtx None] : Log) = EvDial url tls (inl 2%nat) :: rest ∧ urlScheme url ≠ "ldap").
Proof.
  apply (no_clear_text_password test_oracle test_client "cn=config" "(objectClass=*)" ["*"] ScopeBaseObject ∅ ∅ ∅ test_state
           2%nat "uid=zimbra" "pw" None
           [EvSearch 2%nat {| sr_BaseDN := "cn=config"; sr_Scope := ScopeBaseObject; sr_Filter := "(objectClass=*)"; sr_Attributes := ["*"] |} (inl []);
            EvSetTimeout 2%nat 30000000000; EvWatchdog 2%nat 10000000000 false]).
  - reflexivity.
  - left. vm_compute. reflexivity.
  - simpl. lia.
Defined.

(** ** Attempts are bounded *)
Definition count (f : Event → bool) (l : Log) : nat := length (base.filter (λ e, f e = true) l).

Definition is_dial (e : Event) : bool := match e with EvDial _ _ _ => true | _ => false end.
Definition is_request (e : Event) : bool := match e with EvSearch _ _ _ | EvModify _ _ _ _ => true | _ => false end.
Definition is_wait (e : Event) : bool := match e with EvWait _ _ => true | _ => false end.

(** [m] adds at most [n] events that [f] counts. *)
Definition bounded {A} (f : Event → bool) (n : nat) (m : LM A) : Prop :=
  ∀ s, (count f (ls_log (m s).2) ≤ count f (ls_log s) + n)%nat.

Lemma count_cons f e l : count f (e :: l) = ((if f e then 1 else 0) + count f l)%nat.
Proof. unfold count. rewrite filter_cons. by destruct (f e); case_decide. Qed.

Section Bounded.
Context (f : Event → bool).

Lemma bounded_ret {A} n (a : A) : bounded f n (mret a).
Proof. intros s. simpl. lia. Qed.

Lemma bounded_bind {A B} n1 n2 n (m : LM A) (k : A → LM B) :
  bounded f n1 m → (∀ a, bounded f n2 (k a)) → (n1 + n2 ≤ n)%nat → bounded f n (m ≫= k).
Proof.
  intros Hm Hk Hn s. unfold mbind, LM_bind. specialize (Hm s). destruct (m s) as [a s1]. specialize (Hk a s1). simpl in *. lia.
Qed.

Lemma bounded_mono {A} n n' (m : LM A) : bounded f n m → (n ≤ n')%nat → bounded f n' m.
Proof. intros H Hn s. specialize (H s). lia. Qed.

Lemma bounded_ask {A} n (ans : Log → A) ev : (∀ a, (if f (ev a) then 1 else 0) ≤ n)%nat → bounded f n (ask ans ev).
Proof. intros H s. simpl. rewrite count_cons. specialize (H (ans (ls_log s))). lia. Qed.

Lemma bounded_tell n e : ((if f e then 1 else 0) ≤ n)%nat → bounded f n (tell e).
Proof. intros H s. simpl. rewrite count_cons. lia. Qed.
End Bounded.

(** The bounds of the parts: [kd], [kr] and [kw] dials, requests and waits are counted. *)
Section Bounds.
Context (f : Event → bool) (o : Oracle) (c : Client).
Context (kd kw kr : nat).
Hypothesis f_dial : ∀ u t r, ((if f (EvDial u t r) then 1 else 0) ≤ kd)%nat.
Hypothesis f_wait : ∀ d b, ((if f (EvWait d b) then 1 else 0) ≤ kw)%nat.
Hypothesis f_other : ∀ e, is_dial e = false → is_request e = false → is_wait e = false → f e = false.

Lemma bounded_other {A} n (ans : Log → A) ev :
  (∀ a, is_dial (ev a) = false ∧ is_request (ev a) = false ∧ is_wait (ev a) = false) → bounded f n (ask ans ev).
Proof. intros H. apply bounded_ask. intros a. destruct (H a) as (? & ? & ?). rewrite f_other; [lia|done..]. Qed.

Lemma bounded_close n conn : bounded f n (close_conn conn).
Proof. apply bounded_tell. rewrite f_other; [lia|done..]. Qed.

Lemma bounded_dialAndBind url : bounded f kd (dialAndBind o c url).
Proof.
  unfold dialAndBind. apply (bounded_bind _ kd 0); [| |lia].
  - unfold dialCtx. apply (bounded_bind _ 0 kd); [by apply bounded_other| |lia]. intros ab.
    apply (bounded_bind _ kd 0); [by apply bounded_ask| |lia]. intros r. destruct ab; [|apply bounded_ret].
    apply (bounded_bind _ 0 0); [destruct r; [apply bounded_close|apply bounded_ret]|intros; apply bounded_ret|lia].
  - intros [conn|e]; [|apply bounded_ret].
    apply (bounded_bind _ 0 0); [| |lia].
    + unfold upgradeAndBind. apply (bounded_bind _ 0 0); [|intros [e|]; [apply bounded_ret|]|lia].
      * destruct (_ && _); [by apply bounded_other|apply bounded_ret].
      * apply (bounded_bind _ 0 0); [by apply bounded_other|intros; apply bounded_ret|lia].
    + intros err. apply (bounded_bind _ 0 0); [by apply bounded_other| |lia]. intros fired.
      destruct fired; [|destruct err; [|apply bounded_ret]];
        (apply (bounded_bind _ 0 0); [apply bounded_close|intros; apply bounded_ret|lia]).
Qed.

Lemma bounded_connect_go urls es : bounded f (length urls * kd) (connect_go o c urls es).
Proof.
  revert es. induction urls as [|u us IH]; intros es; simpl; [apply bounded_ret|].
  apply (bounded_bind _ 0 (kd + length us * kd)); [by apply bounded_other| |lia]. intros [e|]; [apply bounded_ret|].
  apply (bounded_bind _ kd (length us * kd)); [apply bounded_dialAndBind| |lia]. intros [?|?]; [apply bounded_ret|apply IH].
Qed.

Lemma bounded_getConnection : bounded f (length (c_urls c) * kd) (getConnection o c).
Proof.
  intros s. unfold getConnection. destruct (popIdle _ _) as [[conn|] p]; [simpl; lia|].
  apply (bounded_connect_go (c_urls c) [] (set_pool p s)).
Qed.

Lemma bounded_returnConnection n conn : bounded f n (returnConnection o c conn).
Proof.
  intros s. unfold returnConnection. destruct (o_IsClosing _ _ _); [simpl; lia|].
  destruct (give_back _ _ _ _) as [p [|]]; [apply (bounded_close n conn (set_pool p s))|simpl; lia].
Qed.

Lemma bounded_handleOperationError n conn e : bounded f n (handleOperationError o c conn e).
Proof.
  unfold handleOperationError. destruct (isConnectionError e);
    (apply (bounded_bind _ 0 0); [|intros; apply bounded_ret|lia]); [apply bounded_close|apply bounded_returnConnection].
Qed.

Lemma bounded_retry_go {A} (op : Conn → LM (A + LdapErr)) n (first : bool) d e :
  (∀ conn, bounded f kr (op conn)) →
  bounded f (n * (length (c_urls c) * kd + kr) + (if first then pred n else n) * kw) (retry_go o c op n first d e).
Proof.
  intros Hop. revert first d e. induction n as [|n IH]; intros first d e; [apply bounded_ret|]. cbn [retry_go].
  set (K := (length (c_urls c) * kd)%nat) in *.
  apply (bounded_bind _ (if first then 0 else kw) (S n * (K + kr) + n * kw)); [| |destruct first; simpl; lia].
  { destruct first; [apply bounded_ret|by apply bounded_ask]. }
  intros go. destruct (negb go); [apply bounded_ret|].
  apply (bounded_bind _ K (kr + n * (K + kr) + n * kw)); [apply bounded_getConnection| |simpl; lia].
  intros [conn|e']; [|eapply bounded_mono; [apply IH|simpl; lia]].
  apply (bounded_bind _ 0 (kr + n * (K + kr) + n * kw)); [apply bounded_tell; rewrite f_other; [lia|done..]| |lia]. intros _.
  apply (bounded_bind _ kr (n * (K + kr) + n * kw)); [apply Hop| |lia]. intros [a|e'].
  - apply (bounded_bind _ 0 0); [apply bounded_returnConnection|intros; apply bounded_ret|lia].
  - apply (bounded_bind _ 0 (n * (K + kr) + n * kw)); [apply bounded_handleOperationError| |lia].
    intros e2. destruct (negb _); [apply bounded_ret|apply IH].
Qed.
End Bounds.

(** The three bounds of an operation that makes one request on its connection. *)
Lemma executeWithRetry_bounds {A} o c (op : Conn → LM (A + LdapErr)) :
  (∀ conn f, (∀ e, is_request e = true → f e = false) → bounded f 0 (op conn)) →
  (∀ conn, bounded is_request 1 (op conn)) →
  let n := Z.to_nat (c_maxRetries c + 1) in
  bounded is_dial (n * length (c_urls c)) (executeWithRetry o c op) ∧
  bounded is_request n (executeWithRetry o c op) ∧
  bounded is_wait (pred n) (executeWithRetry o c op).
Proof.
  intros Hother Hreq n. unfold executeWithRetry. fold n. split_and!.
  - eapply bounded_mono; [apply (bounded_retry_go is_dial o c 1 0 0); [by intros..| |]|simpl; lia].
    + by intros [].
    + intros conn. apply Hother. by intros [].
  - eapply bounded_mono; [apply (bounded_retry_go is_request o c 0 0 1); [by intros..| |done]|simpl; lia].
    by intros [].
  - eapply bounded_mono; [apply (bounded_retry_go is_wait o c 0 1 0); [by intros..| |]|simpl; lia].
    + by intros [].
    + intros conn. apply Hother. by intros [].
Qed.

(** The operations of [Search] and [modify]. *)
Definition search_op o dn flt attrs scope (conn : Conn) : LM (list Entry + LdapErr) :=
  let req := {| sr_BaseDN := dn; sr_Scope := scope; sr_Filter := flt; sr_Attributes := attrs |} in
  ask (λ l, o_Search o l conn req) (EvSearch conn req).

Definition modify_op o dn ops (conn : Conn) : LM (unit + LdapErr) :=
  a ← ask (λ l, o_Modify o l conn dn ops) (EvModify conn dn ops);
  mret match ma_err a with None => inl tt | Some e => inr e end.

Lemma modify_unfold o c dn ops s :
  modify o c dn ops s = let '(r, s') := executeWithRetry o c (modify_op o dn ops) s in
                        (match r with inl _ => None | inr e => Some e end, s').
Proof. reflexivity. Qed.

Lemma modify_log o c dn ops s : (modify o c dn ops s).2 = (executeWithRetry o c (modify_op o dn ops) s).2.
Proof. rewrite modify_unfold. by destruct (executeWithRetry _ _ _ _). Qed.

(** A search makes at most one more request than the client's retries, dials each of
    its URLs at most once per attempt, and waits at most once per retry; so does a
    modification. *)
Theorem executeWithRetry_bounded o c dn flt attrs scope ops s :
  let n := Z.to_nat (c_maxRetries c + 1) in
  ∀ s', s' = (Search o c dn flt attrs scope s).2 ∨ s' = (modify o c dn ops s).2 →
  (count is_request (ls_log s') ≤ count is_request (ls_log s) + n)%nat ∧
  (count is_dial (ls_log s') ≤ count is_dial (ls_log s) + n * length (c_urls c))%nat ∧
  (count is_wait (ls_log s') ≤ count is_wait (ls_log s) + pred n)%nat.
Proof.
  intros n s' [-> | ->].
  - destruct (executeWithRetry_bounds o c (search_op o dn flt attrs scope)) as (Hd & Hr & Hw);
      [intros conn f Hf; apply bounded_ask; intros a; by rewrite Hf|intros conn; by apply bounded_ask|].
    split_and!; [apply Hr|apply Hd|apply Hw].
  - destruct (executeWithRetry_bounds o c (modify_op o dn ops)) as (Hd & Hr & Hw).
    + intros conn f Hf. apply (bounded_bind _ 0 0); [apply bounded_ask; intros a; by rewrite Hf|intros; apply bounded_ret|lia].
    + intros conn. apply (bounded_bind _ 1 0); [by apply bounded_ask|intros; apply bounded_ret|lia].
    + rewrite modify_log. split_and!; [apply Hr|apply Hd|apply Hw].
Qed.

(** ** What a modification leaves

    An entry as sets of values, an attribute without values being absent.  [apply_op] is
    the effect of a modification that is carried out (RFC 4511, section 4.6). *)
Abbreviation Values := (string → gset string).

Definition op_effect (op : modifyOp) (vs : gset string) : gset string :=
  match mo_kind op, mo_values op with
  | modifyDelete, [] => ∅
  | modifyDelete, l => vs ∖ list_to_set l
  | modifyAdd, l => vs ∪ list_to_set l
  | modifyReplace, l => list_to_set l
  end.

Definition apply_op (e : Values) (op : modifyOp) : Values :=
  λ a, if decide (a = mo_attr op) then op_effect op (e a) else e a.

Definition apply_ops (ops : list modifyOp) (e : Values) : Values := foldl apply_op e ops.

(** The directory refuses to delete what is not there and to add what is. *)
Definition op_conflict (e : Values) (op : modifyOp) : Prop :=
  match mo_kind op, mo_values op with
  | modifyDelete, [] => e (mo_attr op) = ∅
  | modifyDelete, l => ∃ v, v ∈ l ∧ v ∉ e (mo_attr op)
  | modifyAdd, l => (∃ v, v ∈ l ∧ v ∈ e (mo_attr op)) ∨ ¬ NoDup l
  | modifyReplace, _ => False
  end.

Fixpoint conflict (e : Values) (ops : list modifyOp) : Prop :=
  match ops with
  | [] => False
  | op :: ops => op_conflict e op ∨ conflict (apply_op e op) ops
  end.

(** The entry [dn] after the events of a log, when it was [e0] before. *)
Fixpoint entry_after (dn : string) (e0 : Values) (l : Log) : Values :=
  match l with
  | [] => e0
  | EvModify _ dn' ops a :: l =>
      if String.eqb dn' dn && ma_applied a then apply_ops ops (entry_after dn e0 l) else entry_after dn e0 l
  | _ :: l => entry_after dn e0 l
  end.

Definition converged_code (e : LdapErr) : bool := isAlreadyConverged (Some e).

(** What RFC 4511 promises of the server: a success means that the request was carried
    out; noSuchAttribute and attributeOrValueExists mean that it was not and that it
    contradicts the entry, and they are not results of connecting, StartTLS or bind.
    Any other error may hide that the request was carried out. *)
Record rfc4511 (o : Oracle) (dn : string) (e0 : Values) : Prop := {
  rfc_success : ∀ l conn ops, ma_err (o_Modify o l conn dn ops) = None → ma_applied (o_Modify o l conn dn ops) = true;
  rfc_conflict : ∀ l conn ops e, ma_err (o_Modify o l conn dn ops) = Some e → converged_code e = true →
    ma_applied (o_Modify o l conn dn ops) = false ∧ conflict (entry_after dn e0 l) ops;
  rfc_dial : ∀ l u t e, o_dial o l u t = inr e → converged_code e = false;
  rfc_StartTLS : ∀ l conn e, o_StartTLS o l conn = Some e → converged_code e = false;
  rfc_Bind : ∀ l conn e, o_Bind o l conn = Some e → converged_code e = false }.

(** Entries are compared attribute by attribute. *)
Definition same (e e' : Values) : Prop := ∀ a, e a = e' a.

#[export] Instance same_equiv : Equivalence same.
Proof.
  split; [by intros e a|by intros e e' H a; symmetry|].
  intros e1 e2 e3 H1 H2 a. by transitivity (e2 a).
Qed.

#[export] Instance apply_op_proper : Proper (same ==> eq ==> same) apply_op.
Proof. intros e e' H op ? <- a. unfold apply_op. by rewrite H. Qed.

#[export] Instance apply_ops_proper ops : Proper (same ==> same) (apply_ops ops).
Proof. induction ops as [|op ops IH]; intros e e' H; simpl; [done|]. apply IH. by apply apply_op_proper. Qed.

(** On each attribute, operations keep some of the values and add some. *)
Lemma apply_ops_shape ops a :
  ∃ keep new : string → Prop, ∀ (e : Values) v, v ∈ apply_ops ops e a ↔ (v ∈ e a ∧ keep v) ∨ new v.
Proof.
  induction ops as [|op ops (keep & new & IH)] using rev_ind.
  { exists (λ _, True), (λ _, False). intros. simpl. tauto. }
  assert (Hop : ∃ k n : string → Prop, ∀ (e : Values) v, v ∈ apply_op e op a ↔ (v ∈ e a ∧ k v) ∨ n v).
  { unfold apply_op. destruct (decide (a = mo_attr op)); [|exists (λ _, True), (λ _, False); tauto].
    unfold op_effect. destruct (mo_kind op).
    - destruct (mo_values op) as [|v l]; [exists (λ _, False), (λ _, False)|exists (λ x, x ∉ v :: l), (λ _, False)]; set_solver.
    - exists (λ _, True), (λ x, x ∈ mo_values op). set_solver.
    - exists (λ _, False), (λ x, x ∈ mo_values op). set_solver. }
  destruct Hop as (k & n & Hop). exists (λ v, keep v ∧ k v), (λ v, (new v ∧ k v) ∨ n v). intros e v.
  unfold apply_ops in *. rewrite foldl_app. simpl. rewrite Hop, IH. tauto.
Qed.

Lemma apply_ops_idem ops e : same (apply_ops ops (apply_ops ops e)) (apply_ops ops e).
Proof.
  intros a. destruct (apply_ops_shape ops a) as (k & n & H). apply set_eq. intros v. rewrite !H. tauto.
Qed.

(** Splitting an operation by its values changes nothing. *)
Lemma split_values kind a l (e : Values) :
  kind ≠ modifyReplace → l ≠ [] →
  same (apply_ops ((λ v, {| mo_kind := kind; mo_attr := a; mo_values := [v] |}) <$> l) e)
       (apply_op e {| mo_kind := kind; mo_attr := a; mo_values := l |}).
Proof.
  intros Hk Hl. destruct l as [|v l]; [done|clear Hl]. revert v e.
  induction l as [|w l IH]; intros v e; [done|]. rewrite fmap_cons. unfold apply_ops in *. cbn [foldl].
  etransitivity; [apply IH|]. intros b. unfold apply_op. simpl. destruct (decide (b = a)) as [->|]; [|done].
  destruct (decide (a = a)); [|done]. unfold op_effect. simpl. destruct kind; [set_solver|set_solver|done].
Qed.

Lemma singleValueOps_same ops e : same (apply_ops (singleValueOps ops) e) (apply_ops ops e).
Proof.
  revert e. induction ops as [|op ops IH]; intros e; [done|]. unfold apply_ops, singleValueOps in *.
  rewrite bind_cons, foldl_app. cbn [foldl]. etransitivity; [apply IH|]. apply (apply_ops_proper ops).
  destruct op as [kind a vs]; simpl.
  destruct kind, vs as [|v [|w l]]; try done.
  - by apply (split_values modifyDelete a (v :: w :: l) e).
  - by apply (split_values modifyAdd a (v :: w :: l) e).
Qed.

(** An operation on at most one value that contradicts the entry has nothing to do. *)
Definition single (op : modifyOp) : Prop := mo_kind op = modifyReplace ∨ (length (mo_values op) ≤ 1)%nat.

Lemma singleValueOps_single ops : Forall single (singleValueOps ops).
Proof.
  apply Forall_forall. intros op (op' & Hin & _)%list_elem_of_bind. destruct op' as [kind a vs]. simpl in Hin.
  destruct kind, vs as [|v [|w l]]; simpl in Hin;
    try (apply list_elem_of_singleton in Hin as ->; unfold single; simpl; auto with lia);
    apply elem_of_cons in Hin as [->|[->|(x & -> & _)%list_elem_of_fmap]%elem_of_cons]; right; simpl; lia.
Qed.

Lemma single_conflict e op : single op → conflict e [op] → same (apply_op e op) e.
Proof.
  destruct op as [kind a vs]. intros Hs [Hc|[]] b. unfold apply_op. simpl. destruct (decide (b = a)) as [->|]; [|done].
  unfold op_conflict, op_effect in *. unfold single in Hs. simpl in *. destruct kind; [| |done].
  - destruct Hs as [?|Hs]; [done|]. destruct vs as [|v [|w l]]; simpl in Hs; [by rewrite Hc| |lia]. set_solver.
  - destruct Hs as [?|Hs]; [done|]. destruct vs as [|v [|w l]]; simpl in Hs; [set_solver| |lia].
    destruct Hc as [?|Hc]; [set_solver|]. exfalso. apply Hc. apply NoDup_singleton.
Qed.

(** ** Only modifications change the entry *)
Definition not_modify (_ : Log) (e : Event) : Prop := match e with EvModify _ _ _ _ => False | _ => True end.

#[export] Hint Extern 1 (not_modify _ _) => exact I : grows.

Lemma grown_entry dn e0 l l' : grown not_modify l l' → entry_after dn e0 l' = entry_after dn e0 l.
Proof. induction 1 as [|l' e _ IH He]; [done|]. by destruct e. Qed.

Lemma grows_dialAndBind o c url : grows not_modify (dialAndBind o c url).
Proof.
  assert (Ht : ∀ conn, grows not_modify (close_conn conn)) by (intros; by apply grows_tell).
  unfold dialAndBind, dialCtx, upgradeAndBind. grow.
Qed.

Section Converges.
Context (o : Oracle) (c : Client) (dn : string) (e0 : Values).
Hypothesis rfc : rfc4511 o dn e0.

Abbreviation entry_of s := (entry_after dn e0 (ls_log s)).

Lemma getConnection_entry s : entry_of (getConnection o c s).2 = entry_of s.
Proof. apply grown_entry, grows_getConnection; try done. intros. apply grows_dialAndBind. Qed.

Lemma returnConnection_entry conn s : entry_of (returnConnection o c conn s).2 = entry_of s.
Proof. by apply grown_entry, grows_returnConnection. Qed.

Lemma handleOperationError_entry conn e s : entry_of (handleOperationError o c conn e s).2 = entry_of s.
Proof. by apply grown_entry, grows_handleOperationError. Qed.

(** *** No connection error looks like a converged modification *)
Lemma converged_wrap t e : converged_code (Wrap t e) = converged_code e.
Proof. reflexivity. Qed.

Lemma converged_aggregate es :
  Forall (λ e, converged_code e = false) es → converged_code (AggregateDialError es) = false.
Proof.
  induction 1 as [|e es He Hes IH]; [done|]. destruct es as [|e' es]; [done|]. exact IH.
Qed.

Lemma dialCtx_error url tls s e : (dialCtx o url tls s).1 = inr e → converged_code e = false.
Proof.
  unfold dialCtx, ask, mbind, LM_bind. destruct (o_aborted _ _); simpl.
  - destruct (o_dial _ _ _ _); simpl; by intros [= <-].
  - destruct (o_dial _ _ _ _) eqn:E; simpl; intros [= <-]. by eapply rfc_dial.
Qed.

Lemma upgradeAndBind_error conn url tls s e : (upgradeAndBind o c conn url tls s).1 = Some e → converged_code e = false.
Proof.
  unfold upgradeAndBind, ask, mbind, LM_bind. destruct (_ && _); simpl.
  - destruct (o_StartTLS _ _ _) eqn:E; simpl; [intros [= <-]; rewrite converged_wrap; by eapply rfc_StartTLS|].
    destruct (o_Bind _ _ _) eqn:E'; simpl; [intros [= <-]; rewrite converged_wrap; by eapply rfc_Bind|done].
  - destruct (o_Bind _ _ _) eqn:E'; simpl; [intros [= <-]; rewrite converged_wrap; by eapply rfc_Bind|done].
Qed.

Lemma dialAndBind_error url s e : (dialAndBind o c url s).1 = inr e → converged_code e = false.
Proof.
  unfold dialAndBind, mbind, LM_bind. pose proof (dialCtx_error url (tlsConfigFor c url) s) as Hd.
  destruct (dialCtx _ _ _ _) as [[conn|e1] s1]; simpl in *; [|intros [= <-]; rewrite converged_wrap; by apply Hd].
  pose proof (upgradeAndBind_error conn url (tlsConfigFor c url) s1) as Hu.
  destruct (upgradeAndBind _ _ _ _ _ _) as [err s2]. simpl in *.
  destruct (o_fired _ _); simpl; [|destruct err; simpl; [intros [= <-]; by apply Hu|done]].
  intros [= <-]. rewrite converged_wrap. destruct err; simpl; [by apply Hu|done].
Qed.

Lemma connect_error urls es s e :
  Forall (λ e, converged_code e = false) es → (connect_go o c urls es s).1 = inr e → converged_code e = false.
Proof.
  revert es s. induction urls as [|u us IH]; intros es s Hes; simpl.
  { intros [= <-]. rewrite converged_wrap. by apply converged_aggregate. }
  unfold mbind, LM_bind, ask at 1. simpl. destruct (o_ctxErr _ _); simpl; [by intros [= <-]|].
  pose proof (dialAndBind_error u (push (EvCtx None) s)) as Hd.
  destruct (dialAndBind _ _ _ _) as [[conn|e1] s1]; simpl in *; [done|]. apply IH.
  apply Forall_app. split; [done|]. constructor; [exact (Hd e1 eq_refl)|done].
Qed.

Lemma getConnection_error s e : (getConnection o c s).1 = inr e → converged_code e = false.
Proof.
  unfold getConnection. destruct (popIdle _ _) as [[conn|] p]; [done|]. by apply connect_error.
Qed.

(** *** One modification *)

(** [e'] is the entry before or after [ops]. *)
Definition either (ops : list modifyOp) (e e' : Values) : Prop := same e' e ∨ same e' (apply_ops ops e).

Lemma either_apply ops e e' : either ops e e' → same (apply_ops ops e') (apply_ops ops e).
Proof.
  intros [H|H]; (etransitivity; [apply apply_ops_proper, H|]); [done|apply apply_ops_idem].
Qed.

(** What became of a modification: carried out, or refused because it contradicts the
    entry, or unknown. *)
Definition outcome {A} (ops : list modifyOp) (e : Values) (r : A + LdapErr) (s : LState) : Prop :=
  match r with
  | inl _ => same (entry_of s) (apply_ops ops e)
  | inr err => converged_code err = true → either ops e (entry_of s) ∧ conflict (entry_of s) ops
  end.

Lemma not_retryable err : converged_code err = true → isLDAPErrorRetryable err = false.
Proof.
  unfold converged_code, isAlreadyConverged, isLDAPErrorRetryable. simpl. destruct (as_ldap err) as [code|]; [|done].
  intros H%bool_decide_eq_true. apply negb_false_iff, bool_decide_eq_true. set_solver.
Qed.

Lemma handleOperationError_converged conn e s :
  converged_code (handleOperationError o c conn e s).1 = converged_code e.
Proof.
  unfold handleOperationError, mbind, LM_bind. destruct (isConnectionError e); simpl; [done|].
  by destruct (returnConnection _ _ _ _).
Qed.

(** The request itself. *)
Lemma modify_op_entry ops conn s e :
  either ops e (entry_of s) →
  let '(r, s') := modify_op o dn ops conn s in outcome ops e r s' ∧ either ops e (entry_of s').
Proof.
  intros He. unfold modify_op, ask, mbind, LM_bind, mret, LM_ret. simpl.
  set (a := o_Modify o (ls_log s) conn dn ops). rewrite String.eqb_refl. simpl.
  assert (Happ : same (apply_ops ops (entry_of s)) (apply_ops ops e)) by by apply either_apply.
  destruct (ma_err a) as [err|] eqn:Ea; unfold outcome; simpl; rewrite String.eqb_refl; simpl.
  - split.
    + intros Hc. destruct (rfc_conflict _ _ _ rfc (ls_log s) conn ops err Ea Hc) as [Hna Hconf]. fold a in Hna.
      by rewrite Hna.
    + destruct (ma_applied a); [by right|done].
  - rewrite (rfc_success _ _ _ rfc (ls_log s) conn ops Ea : ma_applied a = true). split; [done|by right].
Qed.

Lemma retry_outcome ops n first d lastErr s e :
  either ops e (entry_of s) → converged_code lastErr = false →
  let '(r, s') := retry_go o c (modify_op o dn ops) n first d lastErr s in outcome ops e r s'.
Proof.
  revert first d lastErr s. induction n as [|n IH]; intros first d lastErr s He Hl; simpl.
  { rewrite converged_wrap. by rewrite Hl. }
  unfold mbind at 1, LM_bind at 1. destruct ((if first then (mret true : LM bool) else ask (λ l, o_wait o l d) (EvWait d)) s) as [go s1] eqn:Ego.
  assert (He1 : entry_of s1 = entry_of s) by (destruct first; by injection Ego as <- <-).
  destruct (negb go); [simpl; rewrite converged_wrap; by rewrite Hl|].
  unfold mbind at 1, LM_bind at 1. pose proof (getConnection_error s1) as Hce. pose proof (getConnection_entry s1) as Hge.
  destruct (getConnection o c s1) as [[conn|e2] s2]; simpl in Hce, Hge; rewrite He1 in Hge.
  2: { apply IH; [by rewrite Hge|by apply Hce]. }
  unfold mbind at 1, LM_bind at 1, tell. cbn [fst snd].
  unfold mbind at 1, LM_bind at 1.
  pose proof (modify_op_entry ops conn (push (EvSetTimeout conn (c_opTimeout c)) s2) e) as Hop.
  destruct (modify_op o dn ops conn _) as [r s3]. simpl in Hop. rewrite Hge in Hop. destruct (Hop He) as [Hout Heither].
  destruct r as [[]|err].
  - unfold mbind, LM_bind. pose proof (returnConnection_entry conn s3) as Hr.
    destruct (returnConnection _ _ _ _) as [[] s4]. simpl in *. by rewrite Hr.
  - unfold mbind, LM_bind. pose proof (handleOperationError_entry conn err s3) as Hh.
    pose proof (handleOperationError_converged conn err s3) as Hhc.
    destruct (handleOperationError _ _ _ _ _) as [err' s4]. simpl in *. destruct (isLDAPErrorRetryable err') eqn:Er; simpl.
    + apply IH; [by rewrite Hh|]. destruct (converged_code err') eqn:Ec; [|done].
      by rewrite (not_retryable err' Ec) in Er.
    + rewrite Hhc, Hh. done.
Qed.

Lemma modify_outcome ops s :
  let '(err, s') := modify o c dn ops s in
  match err with
  | None => same (entry_of s') (apply_ops ops (entry_of s))
  | Some e => converged_code e = true → either ops (entry_of s) (entry_of s') ∧ conflict (entry_of s') ops
  end.
Proof.
  rewrite modify_unfold. unfold executeWithRetry.
  pose proof (retry_outcome ops (Z.to_nat (c_maxRetries c + 1)) true (c_retryDelay c) (PlainError "%!w(<nil>)") s
                (entry_of s)) as H.
  destruct (retry_go _ _ _ _ _ _ _ _) as [[[]|e] s']; simpl in H; apply H; try done; by left.
Qed.

Lemma modify_each_entry ops s :
  Forall single ops →
  let '(err, s') := modify_each o c dn ops s in
  err = None → same (entry_of s') (apply_ops ops (entry_of s)).
Proof.
  intros Hs. revert s. induction Hs as [|op ops Hop Hs IH]; intros s; simpl; [done|].
  unfold mbind, LM_bind. pose proof (modify_outcome [op] s) as Hm. destruct (modify o c dn [op] s) as [err s1].
  assert (Hstep : same (entry_of s1) (apply_op (entry_of s) op) →
    let '(err, s') := modify_each o c dn ops s1 in err = None → same (entry_of s') (apply_ops (op :: ops) (entry_of s))).
  { intros H. specialize (IH s1). destruct (modify_each _ _ _ _ _) as [err' s'].
    intros ->. etransitivity; [by apply IH|]. by apply (apply_ops_proper ops). }
  destruct err as [e|]; [|by apply Hstep].
  destruct (isAlreadyConverged (Some e)) eqn:Ec; [|done]. apply Hstep.
  destruct (Hm Ec) as [Hei Hconf]. pose proof (single_conflict _ _ Hop Hconf) as Hid. destruct Hei as [H|H]; [|exact H].
  etransitivity; [symmetry; exact Hid|]. by apply apply_op_proper.
Qed.

Lemma ModifyValues_entry add del replace s :
  let '(err, s') := ModifyValues o c dn add del replace s in
  err = None → same (entry_of s') (apply_ops (modifyOps add del replace) (entry_of s)).
Proof.
  unfold ModifyValues. set (ops := modifyOps add del replace). clearbody ops.
  destruct ops as [|op ops]; [done|]. set (all := op :: ops). unfold mbind, LM_bind.
  pose proof (modify_outcome all s) as Hm. destruct (modify o c dn all s) as [err s1].
  destruct err as [e|]; [|exact (λ _, Hm)]. destruct (isAlreadyConverged (Some e)) eqn:Ec; [|by simpl]. cbn [negb].
  destruct (Hm Ec) as [Hei _]. pose proof (modify_each_entry (singleValueOps all) s1 (singleValueOps_single all)) as He.
  destruct (modify_each _ _ _ _ _) as [err' s']. intros ->.
  etransitivity; [by apply He|]. etransitivity; [apply singleValueOps_same|]. by apply either_apply.
Qed.

End Converges.

(** ** The state a modification asks for *)

(** The values of [a]: those of [replace] when it names [a], else those that were there
    and [del] does not name, and those of [add]. *)
Definition requested (add del replace : gmap string (list string)) (e : Values) (a v : string) : Prop :=
  match replace !! a with
  | Some vs => v ∈ vs
  | None => v ∈ default [] (add !! a) ∨
            (v ∈ e a ∧ match del !! a with Some [] => False | Some vs => v ∉ vs | None => True end)
  end.

Lemma apply_group kind (m : gmap string (list string)) (e : Values) a :
  apply_ops (op_of kind <$> sorted_items m) e a =
  match m !! a with Some vs => op_effect {| mo_kind := kind; mo_attr := a; mo_values := vs |} (e a) | None => e a end.
Proof.
  assert (Hg : ∀ (l : list (string * list string)) (e : Values), NoDup l.*1 →
    apply_ops (op_of kind <$> l) e a =
    match (list_to_map l : gmap string (list string)) !! a with
    | Some vs => op_effect {| mo_kind := kind; mo_attr := a; mo_values := vs |} (e a) | None => e a end).
  { induction l as [|[k vs] l IH]; intros e' Hnd; simpl; [by rewrite lookup_empty|].
    apply NoDup_cons in Hnd as [Hk Hnd]. unfold apply_ops in *. cbn [foldl fmap list_fmap]. rewrite IH; [|done].
    unfold apply_op at 1. simpl. destruct (decide (a = k)) as [->|Hne].
    - rewrite lookup_insert_eq, (not_elem_of_list_to_map_1 l k); [|done].
      unfold apply_op. simpl. by destruct (decide (k = k)).
    - rewrite lookup_insert_ne; [|done]. unfold apply_op. simpl. by destruct (decide (a = k)). }
  rewrite Hg; [|apply NoDup_sorted_keys]. replace (list_to_map (sorted_items m)) with m; [done|].
  symmetry. rewrite (list_to_map_proper (M := gmap string) _ (map_to_list m)); [by rewrite list_to_map_to_list| |apply sort_by_key_perm].
  apply NoDup_sorted_keys.
Qed.

Lemma apply_modifyOps add del replace e a v :
  v ∈ apply_ops (modifyOps add del replace) e a ↔ requested add del replace e a v.
Proof.
  unfold modifyOps, apply_ops. rewrite !foldl_app. fold (apply_ops (op_of modifyDelete <$> sorted_items del) e).
  set (e1 := apply_ops (op_of modifyDelete <$> sorted_items del) e).
  fold (apply_ops (op_of modifyAdd <$> sorted_items add) e1). set (e2 := apply_ops _ e1).
  fold (apply_ops (op_of modifyReplace <$> sorted_items replace) e2). rewrite apply_group. unfold requested.
  destruct (replace !! a); [unfold op_effect; simpl; set_solver|]. unfold e2. rewrite apply_group. unfold e1.
  rewrite apply_group. destruct (add !! a) as [l|], (del !! a) as [[|w l']|]; unfold op_effect; simpl; set_solver.
Qed.

(** C14: when [ModifyValues] reports success, the entry has exactly the values it was asked
    for, whatever happened on the way: answers that were lost after the server had carried
    out the request, reconnections, values that were already there or already gone.  And
    asking again asks for nothing new. *)
Theorem ModifyValues_converges o c dn e0 add del replace s s' :
  rfc4511 o dn e0 → ModifyValues o c dn add del replace s = (None, s') →
  (∀ a v, v ∈ entry_after dn e0 (ls_log s') a ↔ requested add del replace (entry_after dn e0 (ls_log s)) a v) ∧
  (∀ a v, requested add del replace (entry_after dn e0 (ls_log s')) a v ↔ v ∈ entry_after dn e0 (ls_log s') a).
Proof.
  intros Hrfc Hm. pose proof (ModifyValues_entry o c dn e0 Hrfc add del replace s) as H. rewrite Hm in H.
  specialize (H eq_refl). split; intros a v.
  - by rewrite (H a), apply_modifyOps.
  - rewrite <- apply_modifyOps. rewrite (apply_ops_proper _ _ _ H a), (apply_ops_idem _ _ a), (H a). done.
Qed.

(** A server that follows the RFC; its first answer is lost. *)
Definition op_conflictb (e : Values) (op : modifyOp) : bool :=
  match mo_kind op, mo_values op with
  | modifyDelete, [] => bool_decide (e (mo_attr op) = ∅)
  | modifyDelete, l => existsb (λ v, bool_decide (v ∉ e (mo_attr op))) l
  | modifyAdd, l => existsb (λ v, bool_decide (v ∈ e (mo_attr op))) l || negb (bool_decide (NoDup l))
  | modifyReplace, _ => false
  end.

Fixpoint conflictb (e : Values) (ops : list modifyOp) : bool :=
  match ops with [] => false | op :: ops => op_conflictb e op || conflictb (apply_op e op) ops end.

Lemma conflictb_conflict e ops : conflictb e ops = true → conflict e ops.
Proof.
  revert e. induction ops as [|[k a vs] ops IH]; intros e; simpl; [done|]. intros [H|H]%orb_prop; [left|by right; apply IH].
  unfold op_conflictb, op_conflict in *. simpl in *.
  assert (Hex : ∀ (P : string → Prop) `{∀ v, Decision (P v)} l, existsb (λ v, bool_decide (P v)) l = true → ∃ v, v ∈ l ∧ P v).
  { intros P ? l (v & Hin & Hv)%existsb_exists. exists v. split; [by apply list_elem_of_In|by apply bool_decide_eq_true in Hv]. }
  destruct k; [| |done].
  - destruct vs as [|v vs]; [by apply bool_decide_eq_true in H|exact (Hex (λ v, v ∉ e a) _ (v :: vs) H)].
  - apply orb_prop in H as [H|H]; [left; exact (Hex _ _ _ H)|right]. by apply negb_true_iff, bool_decide_eq_false in H.
Qed.

Definition test_dn : string := "cn=mail,cn=servers,cn=zimbra".
Definition test_entry : Values := λ a, if String.eqb a "zimbraServiceEnabled" then {["mta"; "proxy"]} else ∅.

Definition rfc_server : Oracle :=
  {| o_ctxErr := λ _, None; o_dial := λ l _ _, inl (length l); o_aborted := λ _, false; o_StartTLS := λ _ _, None;
     o_Bind := λ _ _, None; o_fired := λ _, false; o_wait := λ _ _, true; o_IsClosing := λ _ _, false;
     o_Search := λ _ _ _, inl [];
     o_Modify := λ l _ dn ops,
       if conflictb (entry_after dn test_entry l) ops
       then {| ma_err := Some (LdapError 20 "attribute or value exists"); ma_applied := false |}
       else if (count is_request l =? 0)%nat then {| ma_err := Some (LdapError 85 "timeout"); ma_applied := true |}
       else {| ma_err := None; ma_applied := true |} |}.

Lemma rfc_server_ok dn : rfc4511 rfc_server dn test_entry.
Proof.
  split; simpl; try done.
  - intros l _ ops. destruct (conflictb _ _); [done|]. by destruct (_ =? _)%nat.
  - intros l _ ops e. destruct (conflictb _ _) eqn:E; simpl; [intros _ _; split; [done|by apply conflictb_conflict]|].
    destruct (_ =? _)%nat; simpl; [|done]. intros [= <-] Hc. by exfalso.
Qed.

Definition test_add : gmap string (list string) := {["zimbraServiceEnabled" := ["imap"]]}.
Definition test_del : gmap string (list string) := {["zimbraServiceEnabled" := ["proxy"]]}.
Definition test_run : option LdapErr * LState := ModifyValues rfc_server test_client test_dn test_add test_del ∅ test_state.

(** The first request is carried out but its answer is lost; the second contradicts the
    entry, and the operations are then sent one by one. *)
Lemma ModifyValues_converges_witness :
  let e := entry_after test_dn test_entry (ls_log test_run.2) in
  "imap" ∈ e "zimbraServiceEnabled" ∧ ¬ "proxy" ∈ e "zimbraServiceEnabled" ∧
  (count is_request (ls_log test_run.2) = 4)%nat.
Proof.
  assert (H1 : test_run.1 = None) by (vm_compute; reflexivity).
  assert (Hrun : ModifyValues rfc_server test_client test_dn test_add test_del ∅ test_state = (None, test_run.2)).
  { rewrite <- H1. exact (surjective_pairing test_run). }
  destruct (ModifyValues_converges rfc_server test_client test_dn test_entry test_add test_del ∅ test_state
              test_run.2 (rfc_server_ok test_dn) Hrun) as [H _].
  split_and!.
  - apply H. left. by apply list_elem_of_singleton.
  - intros [Hin|[_ Hin]]%H.
    + apply list_elem_of_singleton in Hin. discriminate.
    + apply (Hin : "proxy" ∉ ["proxy"]). by apply list_elem_of_singleton.
  - vm_compute. reflexivity.
Defined.

(** ** The configuration backend *)

(** Two keys that can be written on a node never name the same attribute of the same
    entry, so that the groups of a batch lose no change. *)
Lemma lookupKey_injective master k k' en en' :
  lookupKey master k = inl en → lookupKey master k' = inl en' →
  km_DN en = km_DN en' → km_Attr en = km_Attr en' → k = k'.
Proof.
  assert (Hall : ∀ master, forallb (λ kv, forallb (λ kv',
      match lookupKey master kv.1, lookupKey master kv'.1 with
      | inl en, inl en' => negb (String.eqb (km_DN en) (km_DN en') && String.eqb (km_Attr en) (km_Attr en'))
                           || String.eqb kv.1 kv'.1
      | _, _ => true
      end) (map_to_list keymap)) (map_to_list keymap) = true) by (intros []; vm_compute; reflexivity).
  intros Hk Hk' Hdn Hat.
  assert (Hin : ∀ k en, lookupKey master k = inl en → ∃ v, (k, v) ∈ map_to_list keymap).
  { intros k0 en0 H0. unfold lookupKey in H0. destruct (keymap !! k0) as [v|] eqn:E; [|done].
    exists v. by apply elem_of_map_to_list. }
  destruct (Hin _ _ Hk) as [v Hv], (Hin _ _ Hk') as [v' Hv'].
  specialize (Hall master). rewrite forallb_forall in Hall. apply list_elem_of_In in Hv, Hv'.
  specialize (Hall _ Hv). rewrite forallb_forall in Hall. specialize (Hall _ Hv'). cbn [fst] in Hall.
  rewrite Hk, Hk', Hdn, Hat, !String.eqb_refl in Hall. cbn [negb andb orb] in Hall. by apply String.eqb_eq.
Qed.

(** A batch with a key that cannot be written, on a node that needs no probe, sends
    nothing: the keys are checked before the first request. *)
Lemma ModifyAttributeBatch_checked o order order' l c s e :
  l_LdapIsMaster l = false → l_ConfigClient l = Some c → order ≠ [] →
  group_changes (l_IsMaster l) order ∅ = inr e →
  ModifyAttributeBatch o order order' l s = ((Some e, l), s).
Proof.
  intros Hm Hc Hne Hg. unfold ModifyAttributeBatch. destruct order; [done|].
  unfold refreshMasterStatus, mbind, LM_bind. rewrite Hm. cbn [negb mret LM_ret]. unfold mret, LM_ret. by rewrite Hc, Hg.
Qed.

(** ** Inherited attributes *)

(** A server keeps what it sets itself; an inherited attribute it does not set, in any
    case, has the global value. *)
Lemma applyServerInherited_spec server global inherited name :
  (∀ v, server !! name = Some v → applyServerInherited server global inherited !! name = Some v) ∧
  (name ∈ inherited → (∀ k v, server !! k = Some v → GoStrings.ToLower k ≠ GoStrings.ToLower name) →
   applyServerInherited server global inherited !! name = fold_key global (GoStrings.ToLower name)).
Proof.
  unfold applyServerInherited. set (have := λ lower : string, existsb (λ kv, String.eqb (GoStrings.ToLower kv.1) lower) (map_to_list server)).
  assert (Hhave : ∀ k v, server !! k = Some v → have (GoStrings.ToLower k) = true).
  { intros k v H%elem_of_map_to_list. apply existsb_exists. exists (k, v).
    split; [by apply list_elem_of_In|apply String.eqb_refl]. }
  assert (Hno : (∀ k v, server !! k = Some v → GoStrings.ToLower k ≠ GoStrings.ToLower name) →
                have (GoStrings.ToLower name) = false).
  { intros H. apply not_true_is_false. intros ([k v] & Hin & He)%existsb_exists.
    apply list_elem_of_In, elem_of_map_to_list in Hin. apply String.eqb_eq in He. by eapply H. }
  set (F := λ (m : gmap string string) n, if have (GoStrings.ToLower n) then m else
              match fold_key global (GoStrings.ToLower n) with Some v => <[n := v]> m | None => m end).
  change (foldl _ server inherited) with (foldl F server inherited). split.
  - intros v Hv. revert Hv. assert (H : ∀ l m, m !! name = Some v → have (GoStrings.ToLower name) = true →
                               foldl F m l !! name = Some v).
    { induction l as [|n l IH]; intros m Hm Hh; [done|]. apply IH; [|done]. unfold F.
      destruct (have (GoStrings.ToLower n)) eqn:E; [done|]. destruct (fold_key _ _); [|done].
      rewrite lookup_insert_ne; [done|]. intros ->. congruence. }
    intros Hv. apply H; [done|]. by eapply Hhave.
  - intros Hin Hs. pose proof (Hno Hs) as Hf.
    assert (Hn : server !! name = None).
    { destruct (server !! name) eqn:E; [|done]. by apply Hs in E. }
    assert (H : ∀ l m, m !! name = fold_key global (GoStrings.ToLower name) ∨ (m !! name = None ∧ name ∈ l) →
                       foldl F m l !! name = fold_key global (GoStrings.ToLower name)).
    { induction l as [|n l IH]; intros m Hm; [destruct Hm as [?|[_ ?%elem_of_nil]]; done|]. simpl. apply IH. unfold F.
      destruct (decide (n = name)) as [->|Hne].
      - rewrite Hf. left. destruct (fold_key _ _) eqn:E; [by rewrite lookup_insert_eq|]. naive_solver.
      - assert (Hm' : m !! name = fold_key global (GoStrings.ToLower name) ∨ (m !! name = None ∧ name ∈ l)).
        { destruct Hm as [?|[? [?|?]%elem_of_cons]]; [by left|by subst|by right]. }
        destruct (have (GoStrings.ToLower n)); [done|]. destruct (fold_key global (GoStrings.ToLower n)); [|done].
        by rewrite lookup_insert_ne. }
    apply H. by right.
Qed.

(** ** Rejected credentials

    A bind that is refused for its credentials is not retried when an operation reports
    it, but the connection attempt that reports it is: four rounds over both URLs. *)
Definition refusing_server : Oracle :=
  {| o_ctxErr := λ _, None; o_dial := λ l _ _, inl (length l); o_aborted := λ _, false; o_StartTLS := λ _ _, None;
     o_Bind := λ _ _, Some (LdapError LDAPResultInvalidCredentials "invalid credentials"); o_fired := λ _, false;
     o_wait := λ _ _, true; o_IsClosing := λ _ _, false; o_Search := λ _ _ _, inl [];
     o_Modify := λ _ _ _ _, {| ma_err := None; ma_applied := true |} |}.

Example rejected_credentials_retried :
  isLDAPErrorRetryable (LdapError LDAPResultInvalidCredentials "invalid credentials") = false ∧
  count is_dial (ls_log (Search refusing_server test_client "" "(objectClass=*)" ["*"] ScopeBaseObject test_state).2) = 8%nat.
Proof. split; vm_compute; reflexivity. Qed.
