(* ===== verification/LdapWatch.v ===== *)
(** * LdapWatch: internal/ldapwatch

    The watcher that asks the main loop for a cycle when the directory changed:
    the fingerprint source (source.go), the poll machine (watcher.go) and the
    stream machine (stream.go).  Times are nanoseconds on the clock's monotonic
    axis and durations are 64-bit nanoseconds.  What the environment does, the
    readings of the source, the clock, the notifications and the end of a
    stream, is the argument of each step; callbacks and triggers are the events
    a step returns. *)
From S2P Require Import Prelude.
Open Scope Z_scope.

(** ** Fingerprints (source.go) *)
Abbreviation Fingerprint := (gmap string string).

(** An LDAP search result, as the go-ldap client returns it. *)
Record Attribute := { a_Name : string; a_Values : list string }.
Record Entry := { e_DN : string; e_Attributes : list Attribute }.

Definition sort_strings (l : list string) : list string := sort_by_key (λ s, s) l.

Definition nul : string := String (ascii_of_nat 0) "".

Definition attr_text (a : Attribute) : string :=
  ToLower (a_Name a) +:+ "=" +:+ Join (sort_strings (a_Values a)) ",".

Definition entry_line (e : Entry) : string :=
  ToLower (e_DN e) +:+ nul +:+ Join (sort_strings (attr_text <$> e_Attributes e)) nul.

(** The search scopes of the client. *)
Inductive Scope := ScopeBaseObject | ScopeSingleLevel | ScopeWholeSubtree.

Record query := { q_component : string; q_baseDN : string; q_filter : string; q_scope : Scope }.

(** [NewLDAPSource]: the three searches of a fingerprint. *)
Definition NewLDAPSource (baseDN : string) : list query :=
  [{| q_component := "global"; q_baseDN := "cn=config," +:+ baseDN;
      q_filter := "(objectClass=*)"; q_scope := ScopeBaseObject |};
   {| q_component := "servers"; q_baseDN := "cn=servers," +:+ baseDN;
      q_filter := "(objectClass=zimbraServer)"; q_scope := ScopeSingleLevel |};
   {| q_component := "domains"; q_baseDN := "";
      q_filter := "(objectClass=zimbraDomain)"; q_scope := ScopeWholeSubtree |}].

Section source.
(** SHA-256 in hexadecimal, and the search of the client: entries or an error. *)
Variable sha256_hex : string → string.
Variable Search : string → string → list string → Scope → list Entry + string.

Definition watchedAttrs : list string := ["entryCSN"; "modifyTimestamp"].

Definition digest (entries : list Entry) : string :=
  sha256_hex (Join (sort_strings (entry_line <$> entries)) (String newline "")).

(** [collect]; [cancelled] is [ctx.Err()] before each query. *)
Fixpoint collect (queries : list query) (cancelled : list bool) (fp : Fingerprint) : Fingerprint + string :=
  match queries with
  | [] => inl fp
  | q :: queries =>
      match cancelled with
      | true :: _ => inr "context canceled"
      | _ =>
          match Search (q_baseDN q) (q_filter q) watchedAttrs (q_scope q) with
          | inr err => inr ("fingerprint " +:+ q_component q +:+ ": " +:+ err)
          | inl res => collect queries (tail cancelled) (<[q_component q := digest res]> fp)
          end
      end
  end.

Definition Fingerprint_ (baseDN : string) (cancelled : list bool) : Fingerprint + string :=
  collect (NewLDAPSource baseDN) cancelled ∅.
End source.

(** ** The watcher (watcher.go) *)
Definition second : Z := 1000000000.
Definition defaultInterval : Z := 5 * second.
Definition defaultBackoffMin : Z := second.
Definition defaultBackoffMax : Z := 60 * second.
Definition maxWaitFactor : Z := 10.
Definition backoffFactor : Z := 2.
Definition defaultResyncInterval : Z := 300 * second.
Definition defaultProbeInterval : Z := 600 * second.

(** The timing of [Options]; the required callbacks are present. *)
Record Options := {
  o_Interval : Z; o_ResyncInterval : Z; o_ProbeInterval : Z; o_Debounce : Z; o_MaxWait : Z;
  o_BackoffMin : Z; o_BackoffMax : Z
}.

Inductive Mode := ModeNone | ModeSync | ModePoll.

#[export] Instance Mode_eq_dec : EqDecision Mode.
Proof. solve_decision. Defined.

Record Watcher := {
  interval : Z; resync : Z; probe : Z; debounce : Z; maxWait : Z; backoffMin : Z; backoffMax : Z
}.

Definition positiveOr (v fallback : Z) : Z := if 0 <? v then v else fallback.

Definition New (o : Options) : Watcher :=
  let d := Z.max (o_Debounce o) 0 in
  let bmin := positiveOr (o_BackoffMin o) defaultBackoffMin in
  {| interval := positiveOr (o_Interval o) defaultInterval;
     resync := positiveOr (o_ResyncInterval o) defaultResyncInterval;
     probe := positiveOr (o_ProbeInterval o) defaultProbeInterval;
     debounce := d;
     maxWait := positiveOr (o_MaxWait o) (wrap64 (maxWaitFactor * d));
     backoffMin := bmin;
     backoffMax := Z.max (positiveOr (o_BackoffMax o) defaultBackoffMax) bmin |}.

(** What the watcher reports. *)
Inductive Event :=
  | Trigger (changed : list string)
  | OnPollError
  | OnMode (m : Mode)
  | OnStreamLost.

(** [base] is [None] until the baseline is known; [changed] is the set the code
    keeps as a map to empty structs. *)
Record runState := {
  rs_base : option Fingerprint;
  rs_changed : gset string;
  rs_bursts : Z;
  rs_first : Z;
  rs_last : Z;
  rs_backoff : Z;
  rs_failing : bool
}.

Definition pending (s : runState) : bool := negb (bool_decide (rs_changed s = ∅)).

Definition newRunState (w : Watcher) : runState :=
  {| rs_base := None; rs_changed := ∅; rs_bursts := 0; rs_first := 0; rs_last := 0;
     rs_backoff := backoffMin w; rs_failing := false |}.

Definition set_base (fp : Fingerprint) (s : runState) : runState :=
  {| rs_base := Some fp; rs_changed := rs_changed s; rs_bursts := rs_bursts s; rs_first := rs_first s;
     rs_last := rs_last s; rs_backoff := rs_backoff s; rs_failing := rs_failing s |}.

(** [changedComponents]: the names of [cur] that are new or differ, those of
    [prev] that are gone, sorted. *)
Definition changedComponents (prev cur : Fingerprint) : list string :=
  sort_strings
    ((filter (λ kv, negb (bool_decide (prev !! kv.1 = Some kv.2))) (map_to_list cur)).*1 ++
     (filter (λ kv, bool_decide (cur !! kv.1 = None)) (map_to_list prev)).*1).

Definition observe (base : Fingerprint) (fp : Fingerprint) (now : Z) (s : runState) : runState :=
  let diff := changedComponents base fp in
  match diff with
  | [] => s
  | _ =>
      {| rs_base := Some fp;
         rs_changed := list_to_set diff ∪ rs_changed s;
         rs_bursts := rs_bursts s + 1;
         rs_first := if pending s then rs_first s else now;
         rs_last := now;
         rs_backoff := rs_backoff s; rs_failing := rs_failing s |}
  end.

Section watcher.
Variable w : Watcher.

Definition due (s : runState) (now : Z) : bool :=
  (debounce w =? 0) || (debounce w <=? now - rs_last s) || (maxWait w <=? now - rs_first s).

Definition fire (s : runState) : runState * list Event :=
  ({| rs_base := rs_base s; rs_changed := ∅; rs_bursts := 0; rs_first := rs_first s;
      rs_last := rs_last s; rs_backoff := rs_backoff s; rs_failing := rs_failing s |},
   [Trigger (sort_strings (elements (rs_changed s)))]).

(** [pollFailed]; [cancelled] is [ctx.Err() != nil]. *)
Definition pollFailed (cancelled : bool) (s : runState) : Z * runState * list Event :=
  if cancelled then (0, s, [])
  else
    (rs_backoff s,
     {| rs_base := rs_base s; rs_changed := rs_changed s; rs_bursts := rs_bursts s;
        rs_first := rs_first s; rs_last := rs_last s;
        rs_backoff := Z.min (wrap64 (rs_backoff s * backoffFactor)) (backoffMax w);
        rs_failing := true |},
     [OnPollError]).

Definition pollRecovered (s : runState) : runState :=
  {| rs_base := rs_base s; rs_changed := rs_changed s; rs_bursts := rs_bursts s;
     rs_first := rs_first s; rs_last := rs_last s; rs_backoff := backoffMin w; rs_failing := false |}.

(** One poll: what the source returns, whether the context is cancelled when it
    fails, and the clock after it. *)
Definition step (reading : option Fingerprint) (cancelled : bool) (now : Z) (s : runState) :
    Z * runState * list Event :=
  match reading with
  | None => pollFailed cancelled s
  | Some fp =>
      let s := pollRecovered s in
      let s := match rs_base s with
               | None => set_base fp s
               | Some base => observe base fp now s
               end in
      if negb (pending s) then (interval w, s, [])
      else if due s now then let '(s, evs) := fire s in (interval w, s, evs)
      else (Z.min (debounce w) (interval w), s, [])
  end.

(** One turn of the loop of [poll]: the context and the clock at the loop test,
    the poll, and whether the sleep was interrupted. *)
Record PollTurn := {
  pt_cancelled : bool; pt_check : Z;
  pt_reading : option Fingerprint; pt_cancelledRead : bool; pt_now : Z;
  pt_interrupted : bool
}.

(** [poll] on a given course of the environment: whether it has returned (it is
    still running when the turns run out), the state and the events. [until] is
    [None] for the zero time. *)
Fixpoint poll (until : option Z) (turns : list PollTurn) (s : runState) : bool * runState * list Event :=
  match turns with
  | [] => (false, s, [])
  | t :: turns =>
      if pt_cancelled t || match until with Some u => negb (pt_check t <? u) | None => false end
      then (true, s, [])
      else
        let '(wait, s, evs) := step (pt_reading t) (pt_cancelledRead t) (pt_now t) s in
        if pt_interrupted t then (true, s, evs)
        else let '(ret, s, evs') := poll until turns s in (ret, s, evs ++ evs')
  end.

(** ** The stream machine (stream.go) *)
Definition untilDue (first last now : Z) : Z :=
  let at_ := last + debounce w in
  let limit := first + maxWait w in
  let at_ := if limit <? at_ then limit else at_ in
  Z.max (at_ - now) 0.

(** [readFingerprint]: an error, or the state after the report. *)
Definition readFingerprint (reading : option Fingerprint) (cancelled : bool) (notifications : Z)
    (burstStart : Z) (now : Z) (s : runState) : (runState + runState) * list Event :=
  match reading with
  | None => (inr s, if cancelled then [] else [OnPollError])
  | Some fp =>
      match rs_base s with
      | None => (inl (set_base fp s), [])
      | Some base =>
          let s := observe base fp now s in
          if negb (pending s) then (inl s, [])
          else
            let s := if 0 <? notifications
                     then {| rs_base := rs_base s; rs_changed := rs_changed s; rs_bursts := notifications;
                             rs_first := burstStart; rs_last := rs_last s; rs_backoff := rs_backoff s;
                             rs_failing := rs_failing s |}
                     else s in
            let '(s, evs) := fire s in (inl s, evs)
      end
  end.

(** A live stream: the run's state, the notifications not read for yet, the
    wake-up queued in the channel of capacity one, and the burst's due timer. *)
Record StreamState := {
  ss_run : runState;
  ss_pending : Z;
  ss_wake : bool;
  ss_due : option Z;
  ss_first : option Z;
  ss_resync : Z
}.

(** What can happen to a live stream: a notification arrives ([changed]); the
    select takes the context, the end of the stream, the wake-up, the due timer
    or the resync timer, the timers with the reading they lead to. *)
Inductive StreamInput :=
  | Notified
  | Cancelled
  | Ended (unsupported : bool)
  | Woken (now : Z)
  | DueFired (reading : option Fingerprint) (cancelled : bool) (now : Z)
  | ResyncFired (reading : option Fingerprint) (cancelled : bool) (now : Z).

(** Why a stream ended; [ErrSyncUnsupported] is told apart. *)
Inductive StreamEnd := StreamCancelled | StreamUnsupported | StreamEnded | StreamReadFailed.

Definition int64_add (a b : Z) : Z := wrap64 (a + b).

(** One input to [serveStream]; an input the select cannot take (a wake-up that
    is not queued, a timer that has not fired) is [None]. *)
Definition serve_step (inp : StreamInput) (ss : StreamState) :
    option ((StreamState + StreamEnd * runState) * list Event) :=
  match inp with
  | Notified =>
      Some (inl {| ss_run := ss_run ss; ss_pending := int64_add (ss_pending ss) 1; ss_wake := true;
                   ss_due := ss_due ss; ss_first := ss_first ss; ss_resync := ss_resync ss |}, [])
  | Cancelled => Some (inr (StreamCancelled, ss_run ss), [])
  | Ended unsupported =>
      Some (inr (if unsupported then StreamUnsupported else StreamEnded, ss_run ss), [])
  | Woken now =>
      if ss_wake ss then
        let first := default now (ss_first ss) in
        Some (inl {| ss_run := ss_run ss; ss_pending := ss_pending ss; ss_wake := false;
                     ss_due := Some (now + untilDue first now now); ss_first := Some first;
                     ss_resync := ss_resync ss |}, [])
      else None
  | DueFired reading cancelled now =>
      match ss_due ss with
      | None => None
      | Some at_ =>
          if now <? at_ then None
          else
            let '(r, evs) := readFingerprint reading cancelled (ss_pending ss)
                               (default 0 (ss_first ss)) now (ss_run ss) in
            match r with
            | inr s => Some (inr (StreamReadFailed, s), evs)
            | inl s => Some (inl {| ss_run := s; ss_pending := 0; ss_wake := ss_wake ss; ss_due := None;
                                    ss_first := None; ss_resync := now + resync w |}, evs)
            end
      end
  | ResyncFired reading cancelled now =>
      if now <? ss_resync ss then None
      else
        let '(r, evs) := readFingerprint reading cancelled 0 0 now (ss_run ss) in
        match r with
        | inr s => Some (inr (StreamReadFailed, s), evs)
        | inl s => Some (inl {| ss_run := s; ss_pending := ss_pending ss; ss_wake := ss_wake ss;
                                ss_due := ss_due ss; ss_first := ss_first ss;
                                ss_resync := now + resync w |}, evs)
        end
  end.

(** The catch-up read a live stream starts with. *)
Definition serve_start (reading : option Fingerprint) (cancelled : bool) (now : Z) (early : Z) (s : runState) :
    (StreamState + StreamEnd * runState) * list Event :=
  let '(r, evs) := readFingerprint reading cancelled 0 0 now s in
  match r with
  | inr s => (inr (StreamReadFailed, s), evs)
  | inl s => (inl {| ss_run := s; ss_pending := early; ss_wake := 0 <? early; ss_due := None;
                     ss_first := None; ss_resync := now + resync w |}, evs)
  end.

(** The back-off of [stream] between two streams: what it waits and what it
    keeps, from how long the lost stream was live. *)
Record StreamBackoff := { sb_backoff : Z; sb_losses : Z }.

Definition stream_lost (lived : Z) (b : StreamBackoff) : Z * StreamBackoff * list Event :=
  let b := if backoffMax w <=? lived then {| sb_backoff := backoffMin w; sb_losses := 0 |} else b in
  (sb_backoff b,
   {| sb_backoff := Z.min (wrap64 (sb_backoff b * backoffFactor)) (backoffMax w);
      sb_losses := sb_losses b + 1 |},
   [OnStreamLost]).
(** [serveStream] over the inputs that arrive; [None] for an impossible one. *)
Fixpoint serve (inputs : list StreamInput) (ss : StreamState) :
    option ((StreamState + StreamEnd * runState) * list Event) :=
  match inputs with
  | [] => Some (inl ss, [])
  | inp :: inputs =>
      match serve_step inp ss with
      | None => None
      | Some (inr e, evs) => Some (inr e, evs)
      | Some (inl ss, evs) =>
          match serve inputs ss with
          | None => None
          | Some (r, evs') => Some (r, evs ++ evs')
          end
      end
  end.

(** One stream: either it ends before it is live, or it is live from [liveAt]
    (with [early] notifications already there when its loop starts), is served,
    and has ended at [endAt]. *)
Inductive StreamTurn :=
  | NeverLive (e : StreamEnd)
  | Live (liveAt : Z) (reading : option Fingerprint) (cancelled : bool) (now early : Z)
         (inputs : list StreamInput) (endAt : Z).

(** [streamOnce]: how long it was live and why it ended, or [None] in the place
    of both when it has not ended yet. *)
Definition streamOnce (t : StreamTurn) (s : runState) :
    option (option (Z * StreamEnd) * runState * list Event) :=
  match t with
  | NeverLive e => Some (Some (0, e), s, [])
  | Live liveAt reading cancelled now early inputs endAt =>
      let '(r, evs) := serve_start reading cancelled now early s in
      match r with
      | inr (e, s) => Some (Some (endAt - liveAt, e), s, OnMode ModeSync :: evs ++ [OnMode ModePoll])
      | inl ss =>
          match serve inputs ss with
          | None => None
          | Some (inr (e, s), evs') =>
              Some (Some (endAt - liveAt, e), s, OnMode ModeSync :: evs ++ evs' ++ [OnMode ModePoll])
          | Some (inl ss, evs') => Some (None, ss_run ss, OnMode ModeSync :: evs ++ evs')
          end
      end
  end.

(** One turn of [stream]: a stream, then the context, and whether the back-off
    sleep was interrupted. *)
Record Attempt := { at_turn : StreamTurn; at_cancelled : bool; at_interrupted : bool }.

Inductive StreamReturn := StillStreaming | ReturnedCancelled | ReturnedUnsupported.

Fixpoint stream (attempts : list Attempt) (b : StreamBackoff) (s : runState) :
    option (StreamReturn * runState * list Event) :=
  match attempts with
  | [] => Some (StillStreaming, s, [])
  | a :: attempts =>
      match streamOnce (at_turn a) s with
      | None => None
      | Some (None, s, evs) => Some (StillStreaming, s, evs)
      | Some (Some (lived, e), s, evs) =>
          if at_cancelled a then Some (ReturnedCancelled, s, evs)
          else match e with
          | StreamUnsupported => Some (ReturnedUnsupported, s, evs)
          | _ =>
              let '(wait, b, lost) := stream_lost lived b in
              if at_interrupted a then Some (ReturnedCancelled, s, evs ++ lost)
              else match stream attempts b s with
                   | None => None
                   | Some (r, s, evs') => Some (r, s, evs ++ lost ++ evs')
                   end
          end
      end
  end.

(** [Run] with a subscriber: streams, and polls of [probe] in between while the
    directory cannot stream; without one, polls.  A phase is what one turn of its
    loop meets. *)
Inductive Phase :=
  | PollPhase (turns : list PollTurn)
  | SyncPhase (attempts : list Attempt) (now : Z) (turns : list PollTurn).

Fixpoint run_phases (phases : list Phase) (s : runState) : option (runState * list Event) :=
  match phases with
  | [] => Some (s, [])
  | PollPhase turns :: phases =>
      let '(ret, s, evs) := poll None turns s in
      if ret then
        match run_phases phases s with None => None | Some (s, evs') => Some (s, evs ++ evs') end
      else Some (s, evs)
  | SyncPhase attempts now turns :: phases =>
      match stream attempts {| sb_backoff := backoffMin w; sb_losses := 0 |} s with
      | None => None
      | Some (ReturnedUnsupported, s, evs) =>
          let '(ret, s, evs') := poll (Some (now + probe w)) turns s in
          if ret then
            match run_phases phases s with
            | None => None
            | Some (s, evs'') => Some (s, evs ++ evs' ++ evs'')
            end
          else Some (s, evs ++ evs')
      | Some (_, s, evs) => Some (s, evs)
      end
  end.

Definition Run (phases : list Phase) : option (runState * list Event) :=
  match run_phases phases (newRunState w) with
  | None => None
  | Some (s, evs) => Some (s, OnMode ModePoll :: evs)
  end.
End watcher.

(** ** The content-sync subscriber (sync.go)

    The messages of the refreshAndPersist search as go-ldap delivers them; what
    matters of a control is whether it is a Sync Info and what it carries. *)
Record SyncInfo := {
  si_RefreshDelete : option bool;   (** [RefreshDone] of the choice, when it is there *)
  si_RefreshPresent : option bool;
  si_SyncIdSet : bool
}.

Inductive Control := ControlSyncInfo (i : SyncInfo) | ControlOther.

Record Message := { m_entry : bool; m_controls : list Control }.

Definition refreshDone (controls : list Control) : bool :=
  existsb (λ c, match c with
    | ControlSyncInfo i => default false (si_RefreshDelete i) || default false (si_RefreshPresent i)
    | ControlOther => false
    end) controls.

Definition deletesReported (controls : list Control) : bool :=
  existsb (λ c, match c with ControlSyncInfo i => si_SyncIdSet i | ControlOther => false end) controls.

(** The error the search ends in: one of the result codes by which a server
    rejects the control, or another. *)
Inductive SearchError := RejectedControl | OtherSearchError.

Inductive SubscribeEnd := SyncUnsupported | SearchFailed | ClosedByServer.

Definition streamEnd (err : option SearchError) (refreshed : bool) : SubscribeEnd :=
  match err, refreshed with
  | Some RejectedControl, false => SyncUnsupported
  | Some _, _ => SearchFailed
  | None, false => SyncUnsupported
  | None, true => ClosedByServer
  end.

Inductive SubscriberCall := CallLive | CallChanged.

(** The loop over the responses: the calls it makes and whether the refresh is over. *)
Fixpoint sync_calls (refreshed : bool) (msgs : list Message) : bool * list SubscriberCall :=
  match msgs with
  | [] => (refreshed, [])
  | m :: msgs =>
      if negb refreshed then
        if refreshDone (m_controls m)
        then let '(r, calls) := sync_calls true msgs in (r, CallLive :: calls)
        else sync_calls false msgs
      else if m_entry m || deletesReported (m_controls m)
      then let '(r, calls) := sync_calls true msgs in (r, CallChanged :: calls)
      else sync_calls true msgs
  end.

Definition streamChanges (msgs : list Message) (err : option SearchError) :
    SubscribeEnd * list SubscriberCall :=
  let '(refreshed, calls) := sync_calls false msgs in (streamEnd err refreshed, calls).

(** [probeContentSync], with the identifier of the sync request control: the supportedControl values of the first entry of the
    root DSE, if any, or the search's failure. *)
Definition probeContentSync (syncControlOID : string) (dse : option (list (list string))) : option SubscribeEnd :=
  match dse with
  | None => Some SearchFailed
  | Some entries =>
      match entries with
      | [] => Some SyncUnsupported
      | controls :: _ => if bool_decide (syncControlOID ∈ controls) then None else Some SyncUnsupported
      end
  end.
