(* ===== verification/LdapWatchProps.v ===== *)
(** * LdapWatchProps: no change of the directory is lost

    The watcher refines an abstract machine with two moves: take a reading, which
    adds the components that differ from the last one, and report what has been
    added.  Failures, back-off, debouncing, notifications, reconnections and the
    fallback to polling are invisible in it. *)
From S2P Require Import Prelude LdapWatch.
Open Scope Z_scope.

(** ** The abstract machine *)
Record astate := { a_base : option Fingerprint; a_changed : gset string }.

Inductive label := Read (fp : Fingerprint) | Report (components : list string).

(** The components in which two readings differ. *)
Definition differ (b1 b2 : Fingerprint) (c : string) : Prop := b1 !! c ≠ b2 !! c.

Definition diff_set (b1 b2 : Fingerprint) : gset string := list_to_set (changedComponents b1 b2).

Inductive astep : astate → label → astate → Prop :=
  | a_first fp :
      astep {| a_base := None; a_changed := ∅ |} (Read fp) {| a_base := Some fp; a_changed := ∅ |}
  | a_read b fp C :
      astep {| a_base := Some b; a_changed := C |} (Read fp)
            {| a_base := Some fp; a_changed := diff_set b fp ∪ C |}
  | a_report b C :
      C ≠ ∅ → astep {| a_base := b; a_changed := C |} (Report (sort_strings (elements C)))
                    {| a_base := b; a_changed := ∅ |}.

Inductive apath : astate → list label → astate → Prop :=
  | apath_nil a : apath a [] a
  | apath_cons a l a1 ls a2 : astep a l a1 → apath a1 ls a2 → apath a (l :: ls) a2.

Lemma apath_app a ls1 a1 ls2 a2 : apath a ls1 a1 → apath a1 ls2 a2 → apath a (ls1 ++ ls2) a2.
Proof. induction 1; cbn; eauto using apath. Qed.

Lemma apath_one a l a1 : astep a l a1 → apath a [l] a1.
Proof. eauto using apath. Qed.

Definition reads (ls : list label) : list Fingerprint :=
  omap (λ l, match l with Read fp => Some fp | Report _ => None end) ls.
Definition reports (ls : list label) : list (list string) :=
  omap (λ l, match l with Report c => Some c | Read _ => None end) ls.
Definition triggers (evs : list Event) : list (list string) :=
  omap (λ e, match e with Trigger c => Some c | _ => None end) evs.

(** ** Differences *)
Lemma elem_of_sort_strings x l : x ∈ sort_strings l ↔ x ∈ l.
Proof. apply elem_of_sort_by_key. Qed.

Lemma elem_of_changedComponents prev cur c : c ∈ changedComponents prev cur ↔ differ prev cur c.
Proof.
  unfold changedComponents, differ. rewrite elem_of_sort_strings, elem_of_app, !list_elem_of_fmap. split.
  - intros [([c' d] & -> & Hin)|([c' d] & -> & Hin)]; apply list_elem_of_filter in Hin as [Hf Hin%elem_of_map_to_list];
      cbn [fst snd] in *.
    + rewrite Hin. apply Is_true_true, negb_true_iff, bool_decide_eq_false in Hf. done.
    + apply Is_true_true, bool_decide_eq_true in Hf. rewrite Hf, Hin. done.
  - intros Hne. destruct (cur !! c) as [d|] eqn:Ec.
    + left. exists (c, d). split; [done|]. apply list_elem_of_filter. split; [|by apply elem_of_map_to_list].
      cbn. by apply Is_true_true, negb_true_iff, bool_decide_eq_false.
    + right. destruct (prev !! c) as [d|] eqn:Ep; [|done]. exists (c, d). split; [done|].
      apply list_elem_of_filter. split; [|by apply elem_of_map_to_list].
      cbn. by apply Is_true_true, bool_decide_eq_true.
Qed.

Lemma elem_of_diff_set b1 b2 c : c ∈ diff_set b1 b2 ↔ differ b1 b2 c.
Proof. unfold diff_set. by rewrite elem_of_list_to_set, elem_of_changedComponents. Qed.

(** No differing component: the readings are equal. *)
Lemma changedComponents_nil b1 b2 : changedComponents b1 b2 = [] → b1 = b2.
Proof.
  intros E. apply map_eq. intros c. destruct (decide (b1 !! c = b2 !! c)) as [|Hne]; [done|].
  apply elem_of_changedComponents in Hne. rewrite E in Hne. set_solver.
Qed.

(** ** Reports of a path *)
Lemma apath_complete a ls a' : apath a ls a' →
  (is_Some (a_base a) → is_Some (a_base a')) ∧
  ∀ c, (c ∈ a_changed a ∨ ∃ b b', a_base a = Some b ∧ a_base a' = Some b' ∧ differ b b' c) →
       (∃ r, r ∈ reports ls ∧ c ∈ r) ∨ c ∈ a_changed a'.
Proof.
  induction 1 as [a|a l a1 ls a2 Hs Hp [IHb IHc]].
  { split; [done|]. intros c [?|(b & b' & E1 & E2 & Hd)]; [by right|]. congruence. }
  inversion Hs; subst; cbn in *.
  - split; [by intros []|]. intros c [?|(b & b' & ? & _)]; [set_solver|done].
  - split; [eauto|]. intros c Hc. apply IHc. destruct Hc as [Hc|(b0 & b' & [= <-] & E2 & Hd)]; [left; set_solver|].
    destruct (decide (b !! c = fp !! c)) as [Heq|Hne].
    + right. exists fp, b'. split_and!; [done|done|]. unfold differ in *. congruence.
    + left. apply elem_of_union. left. by apply elem_of_diff_set.
  - split; [done|]. intros c [Hc|Hd].
    + left. exists (sort_strings (elements C)). split; [set_solver|]. apply elem_of_sort_strings. set_solver.
    + destruct (IHc c (or_intror Hd)) as [(r & Hr & Hc)|Hc]; [left|by right]. exists r. split; [set_solver|done].
Qed.

(** A component on which all readings agree is not reported. *)
Lemma apath_sound a ls a' c d : apath a ls a' →
  c ∉ a_changed a → (∀ b, a_base a = Some b → b !! c = d) → Forall (λ fp, fp !! c = d) (reads ls) →
  (c ∉ a_changed a') ∧ (∀ r, r ∈ reports ls → c ∉ r).
Proof.
  induction 1 as [a|a l a1 ls a2 Hs Hp IH]; intros Hc Hb Hr; [by split; [|set_solver]|].
  inversion Hs; subst; cbn in *.
  - inversion Hr; subst. apply IH; [done|by intros ? [= <-]|done].
  - inversion Hr as [|? ? Hfp Hr']; subst. specialize (Hb _ eq_refl). apply IH; [|by intros ? [= <-]|done].
    intros [Hd%elem_of_diff_set|?]%elem_of_union; [|done]. unfold differ in Hd. congruence.
  - destruct (IH ltac:(set_solver) Hb Hr) as [H1 H2]. split; [done|]. intros r [->|Hr']%elem_of_cons; [|auto].
    rewrite elem_of_sort_strings. set_solver.
Qed.

(** ** The watcher's moves *)
Definition abs (s : runState) : astate := {| a_base := rs_base s; a_changed := rs_changed s |}.

(** [s] leads to [s'] with the events [evs], by moves whose readings satisfy [P]. *)
Definition moves (P : Fingerprint → Prop) (s : runState) (evs : list Event) (s' : runState) : Prop :=
  ∃ ls, apath (abs s) ls (abs s') ∧ reports ls = triggers evs ∧ Forall P (reads ls).

(** Nothing is pending before the baseline is known. *)
Definition based (s : runState) : Prop := rs_base s = None → rs_changed s = ∅.

Lemma observe_read base fp now s :
  rs_base s = Some base →
  rs_base (observe base fp now s) = Some fp ∧
  rs_changed (observe base fp now s) = diff_set base fp ∪ rs_changed s.
Proof.
  intros Hb. unfold observe, diff_set. destruct (changedComponents base fp) as [|c l] eqn:E; [|done].
  apply changedComponents_nil in E as <-. cbn. split; [done|set_solver].
Qed.

Lemma pending_true s : pending s = true ↔ rs_changed s ≠ ∅.
Proof. unfold pending. rewrite negb_true_iff, bool_decide_eq_false. done. Qed.

Section moves.
Variable P : Fingerprint → Prop.

Lemma moves_trans s1 e1 s2 e2 s3 : moves P s1 e1 s2 → moves P s2 e2 s3 → moves P s1 (e1 ++ e2) s3.
Proof.
  intros (l1 & H1 & H2 & H3) (l2 & H4 & H5 & H6). exists (l1 ++ l2). split_and!.
  - by eapply apath_app.
  - unfold reports, triggers in *. by rewrite !omap_app, H2, H5.
  - unfold reads in *. rewrite omap_app. by apply Forall_app.
Qed.

Lemma moves_quiet s s' evs : abs s' = abs s → triggers evs = [] → moves P s evs s'.
Proof. intros E Ht. exists []. rewrite E, Ht. split_and!; constructor. Qed.

Lemma moves_read s fp s' :
  P fp → based s → rs_base s' = Some fp →
  rs_changed s' = match rs_base s with Some b => diff_set b fp ∪ rs_changed s | None => ∅ end →
  moves P s [] s'.
Proof.
  intros HP Hb E1 E2. exists [Read fp]. split_and!; [|done|by repeat constructor].
  apply apath_one. unfold abs. rewrite E1, E2. destruct (rs_base s) as [b|] eqn:E.
  - constructor.
  - rewrite Hb by done. constructor.
Qed.

Lemma moves_fire s : rs_changed s ≠ ∅ → moves P s (fire s).2 (fire s).1.
Proof.
  intros Hne. exists [Report (sort_strings (elements (rs_changed s)))].
  split_and!; [|done|constructor]. apply apath_one. unfold abs, fire. cbn. by constructor.
Qed.

Lemma moves_step w reading cancelled now s wait s' evs :
  based s → from_option P True reading → step w reading cancelled now s = (wait, s', evs) →
  moves P s evs s' ∧ based s'.
Proof.
  intros Hb HP. unfold step. destruct reading as [fp|].
  2:{ unfold pollFailed. destruct cancelled; intros [= <- <- <-]; (split; [by apply moves_quiet|done]). }
  cbn in HP. set (s1 := pollRecovered w s).
  set (s2 := match rs_base s1 with Some base => observe base fp now s1 | None => set_base fp s1 end).
  assert (Hmid : moves P s [] s2 ∧ rs_base s2 = Some fp).
  { subst s2. change (rs_base s1) with (rs_base s). destruct (rs_base s) as [b|] eqn:E.
    - destruct (observe_read b fp now s1) as [H1 H2]; [done|]. split; [|done].
      apply (moves_read _ fp); [done|done|done|]. by rewrite E.
    - split; [|done]. apply (moves_read _ fp); [done|done|done|]. rewrite E. cbn. by apply Hb. }
  destruct Hmid as [Hm Hbase]. destruct (pending s2) eqn:Ep; cbn [negb].
  - destruct (due w s2 now).
    + destruct (fire s2) as [s3 evs3] eqn:Ef. intros [= <- <- <-].
      assert (s3 = (fire s2).1 ∧ evs3 = (fire s2).2) as [-> ->] by (by rewrite Ef). split.
      * apply (moves_trans _ [] s2); [done|]. by apply moves_fire, pending_true.
      * intros E. cbn in E. congruence.
    + intros [= <- <- <-]. split; [done|]. intros E. congruence.
  - intros [= <- <- <-]. split; [done|]. intros E. congruence.
Qed.

Lemma moves_poll w until turns s ret s' evs :
  based s → Forall (λ t, from_option P True (pt_reading t)) turns →
  poll w until turns s = (ret, s', evs) → moves P s evs s' ∧ based s'.
Proof.
  intros Hb Ht. revert s evs Hb. induction Ht as [|t turns Hp Ht IH]; intros s evs Hb; cbn [poll].
  { intros [= <- <- <-]. split; [by apply moves_quiet|done]. }
  destruct (_ || _); [intros [= <- <- <-]; split; [by apply moves_quiet|done]|].
  destruct (step w (pt_reading t) (pt_cancelledRead t) (pt_now t) s) as [[wait s1] evs1] eqn:E.
  destruct (moves_step _ _ _ _ _ _ _ _ Hb Hp E) as [H1 H2].
  destruct (pt_interrupted t); [by intros [= <- <- <-]|].
  destruct (poll w until turns s1) as [[ret1 s2] evs2] eqn:E2. intros [= <- <- <-].
  destruct (IH s1 evs2 H2 E2) as [H3 H4]. split; [by eapply moves_trans|done].
Qed.

Lemma moves_readFingerprint reading cancelled n start now s r evs :
  based s → from_option P True reading →
  readFingerprint reading cancelled n start now s = (r, evs) →
  let s' := match r with inl s' | inr s' => s' end in moves P s evs s' ∧ based s'.
Proof.
  intros Hb HP. unfold readFingerprint. destruct reading as [fp|].
  2:{ intros [= <- <-]. cbn. split; [|done]. apply moves_quiet; [done|by destruct cancelled]. }
  cbn in HP. destruct (rs_base s) as [b|] eqn:E.
  2:{ intros [= <- <-]. cbn. split; [|done]. apply (moves_read _ fp); [done|done|done|]. rewrite E. cbn. by apply Hb. }
  destruct (observe_read b fp now s E) as [H1 H2].
  assert (Hm : moves P s [] (observe b fp now s)) by (apply (moves_read _ fp); [done..|by rewrite E]).
  destruct (pending (observe b fp now s)) eqn:Ep; cbn [negb].
  - set (s2 := if 0 <? n then _ else _). assert (Hs2 : abs s2 = abs (observe b fp now s)) by (by subst s2; destruct (0 <? n)).
    destruct (fire s2) as [s3 evs3] eqn:Ef. intros [= <- <-].
    assert (s3 = (fire s2).1 ∧ evs3 = (fire s2).2) as [-> ->] by (by rewrite Ef). cbn zeta.
    injection Hs2 as Hs2b Hs2c. split.
    + apply (moves_trans _ [] (observe b fp now s)); [done|]. apply (moves_trans _ [] s2).
      * apply moves_quiet; [|done]. unfold abs. congruence.
      * apply moves_fire. rewrite Hs2c. by apply pending_true.
    + intros E3. cbn in E3. congruence.
  - intros [= <- <-]. split; [done|]. intros E3. congruence.
Qed.

(** The readings of a stream's inputs, of a stream, of a phase. *)
Definition input_ok (i : StreamInput) : Prop :=
  match i with DueFired r _ _ | ResyncFired r _ _ => from_option P True r | _ => True end.

Definition turn_ok (t : StreamTurn) : Prop :=
  match t with
  | NeverLive _ => True
  | Live _ r _ _ _ inputs _ => from_option P True r ∧ Forall input_ok inputs
  end.

Definition phase_ok (ph : Phase) : Prop :=
  match ph with
  | PollPhase turns => Forall (λ t, from_option P True (pt_reading t)) turns
  | SyncPhase attempts _ turns =>
      Forall (λ a, turn_ok (at_turn a)) attempts ∧ Forall (λ t, from_option P True (pt_reading t)) turns
  end.

Definition stream_run (r : StreamState + StreamEnd * runState) : runState :=
  match r with inl ss => ss_run ss | inr (_, s) => s end.

Lemma moves_serve_step w inp ss r evs :
  based (ss_run ss) → input_ok inp → serve_step w inp ss = Some (r, evs) →
  moves P (ss_run ss) evs (stream_run r) ∧ based (stream_run r).
Proof.
  intros Hb Hi. destruct inp as [| |u|now|reading cancelled now|reading cancelled now]; cbn [serve_step].
  - intros [= <- <-]. split; [by apply moves_quiet|done].
  - intros [= <- <-]. split; [by apply moves_quiet|done].
  - intros [= <- <-]. split; [by apply moves_quiet|done].
  - destruct (ss_wake ss); [|done]. intros [= <- <-]. split; [by apply moves_quiet|done].
  - destruct (ss_due ss) as [at_|]; [|done]. destruct (now <? at_); [done|].
    destruct (readFingerprint _ _ _ _ _ _) as [r1 evs1] eqn:E.
    destruct (moves_readFingerprint _ _ _ _ _ _ _ _ Hb Hi E) as [H1 H2].
    destruct r1; intros [= <- <-]; by split.
  - destruct (now <? ss_resync ss); [done|].
    destruct (readFingerprint _ _ _ _ _ _) as [r1 evs1] eqn:E.
    destruct (moves_readFingerprint _ _ _ _ _ _ _ _ Hb Hi E) as [H1 H2].
    destruct r1; intros [= <- <-]; by split.
Qed.

Lemma moves_serve w inputs ss r evs :
  based (ss_run ss) → Forall input_ok inputs → serve w inputs ss = Some (r, evs) →
  moves P (ss_run ss) evs (stream_run r) ∧ based (stream_run r).
Proof.
  intros Hb Hi. revert ss evs Hb. induction Hi as [|inp inputs Hi His IH]; intros ss evs Hb; cbn [serve].
  { intros [= <- <-]. split; [by apply moves_quiet|done]. }
  destruct (serve_step w inp ss) as [[[ss1|e] evs1]|] eqn:E; [| |done].
  - destruct (moves_serve_step _ _ _ _ _ Hb Hi E) as [H1 H2].
    destruct (serve w inputs ss1) as [[r1 evs2]|] eqn:E2; [|done]. intros [= <- <-].
    destruct (IH ss1 evs2 H2 E2) as [H3 H4]. split; [by eapply moves_trans|done].
  - intros [= <- <-]. by apply (moves_serve_step _ _ _ _ _ Hb Hi E).
Qed.

(** Mode changes and lost streams are not reports. *)
Lemma moves_around s evs s' pre post :
  moves P s evs s' → triggers pre = [] → triggers post = [] → moves P s (pre ++ evs ++ post) s'.
Proof.
  intros (ls & H1 & H2 & H3) E1 E2. exists ls. split_and!; [done| |done].
  unfold triggers in *. by rewrite !omap_app, E1, E2, app_nil_r.
Qed.

Lemma moves_streamOnce w t s e s' evs :
  based s → turn_ok t → streamOnce w t s = Some (e, s', evs) → moves P s evs s' ∧ based s'.
Proof.
  intros Hb Ht. destruct t as [e0|liveAt reading cancelled now early inputs endAt]; cbn [streamOnce].
  { intros [= <- <- <-]. split; [by apply moves_quiet|done]. }
  destruct Ht as [Hr Hi]. unfold serve_start.
  destruct (readFingerprint reading cancelled 0 0 now s) as [r1 evs1] eqn:E.
  destruct (moves_readFingerprint _ _ _ _ _ _ _ _ Hb Hr E) as [H1 H2]. cbn zeta in H1, H2.
  destruct r1 as [s1|s1].
  2:{ intros [= <- <- <-]. split; [|done]. by apply (moves_around s evs1 s1 [OnMode ModeSync] [OnMode ModePoll]). }
  destruct (serve w inputs _) as [[[ss|[e1 s2]] evs2]|] eqn:E2; [| |done]; intros [= <- <- <-];
    destruct (moves_serve _ _ (Build_StreamState _ _ _ _ _ _) _ _ H2 Hi E2) as [H3 H4]; cbn in H3, H4; (split; [|done]).
  - pose proof (moves_around s (evs1 ++ evs2) (ss_run ss) [OnMode ModeSync] []) as H5.
    rewrite app_nil_r in H5. apply H5; [|done|done]. by eapply moves_trans.
  - rewrite (app_assoc evs1). apply (moves_around s (evs1 ++ evs2) s2 [OnMode ModeSync] [OnMode ModePoll]); [|done|done].
    by eapply moves_trans.
Qed.

Lemma moves_stream w attempts b s r s' evs :
  based s → Forall (λ a, turn_ok (at_turn a)) attempts →
  stream w attempts b s = Some (r, s', evs) → moves P s evs s' ∧ based s'.
Proof.
  intros Hb Ha. revert s b evs Hb. induction Ha as [|a attempts Ht Ha IH]; intros s b evs Hb; cbn [stream].
  { intros [= <- <- <-]. split; [by apply moves_quiet|done]. }
  destruct (streamOnce w (at_turn a) s) as [[[e s1] evs1]|] eqn:E; [|done].
  destruct (moves_streamOnce _ _ _ _ _ _ Hb Ht E) as [H1 H2].
  assert (Hlost : moves P s (evs1 ++ [OnStreamLost]) s1)
    by (by apply (moves_around s evs1 s1 [] [OnStreamLost])).
  destruct e as [[lived e]|]; [|by intros [= <- <- <-]].
  destruct (at_cancelled a); [by intros [= <- <- <-]|].
  destruct e; [|by intros [= <- <- <-]|..]; cbn [stream_lost].
  all: destruct (at_interrupted a); [by intros [= <- <- <-]|].
  all: destruct (stream w attempts _ s1) as [[[r1 s2] evs2]|] eqn:E2; [|done]; intros [= <- <- <-].
  all: destruct (IH s1 _ evs2 H2 E2) as [H3 H4]; split; [|done].
  all: change (evs1 ++ OnStreamLost :: evs2) with (evs1 ++ [OnStreamLost] ++ evs2); rewrite app_assoc;
    by eapply moves_trans.
Qed.

Lemma moves_phases w phases s s' evs :
  based s → Forall phase_ok phases → run_phases w phases s = Some (s', evs) → moves P s evs s' ∧ based s'.
Proof.
  intros Hb Hp. revert s evs Hb. induction Hp as [|ph phases Hph Hp IH]; intros s evs Hb; cbn [run_phases].
  { intros [= <- <-]. split; [by apply moves_quiet|done]. }
  destruct ph as [turns|attempts now turns].
  - destruct (poll w None turns s) as [[ret s1] evs1] eqn:E.
    destruct (moves_poll _ _ _ _ _ _ _ Hb Hph E) as [H1 H2]. destruct ret; [|by intros [= <- <-]].
    destruct (run_phases w phases s1) as [[s2 evs2]|] eqn:E2; [|done]. intros [= <- <-].
    destruct (IH s1 evs2 H2 E2) as [H3 H4]. split; [by eapply moves_trans|done].
  - destruct Hph as [Ha Ht]. destruct (stream w attempts _ s) as [[[r s1] evs1]|] eqn:E; [|done].
    destruct (moves_stream _ _ _ _ _ _ _ Hb Ha E) as [H1 H2]. destruct r; try (by intros [= <- <-]).
    destruct (poll w _ turns s1) as [[ret s2] evs2] eqn:E2.
    destruct (moves_poll _ _ _ _ _ _ _ H2 Ht E2) as [H3 H4].
    destruct ret; [|intros [= <- <-]; split; [by eapply moves_trans|done]].
    destruct (run_phases w phases s2) as [[s3 evs3]|] eqn:E3; [|done]. intros [= <- <-].
    destruct (IH s2 evs3 H4 E3) as [H5 H6]. split; [|done].
    eapply moves_trans; [done|]. by eapply moves_trans.
Qed.
End moves.

Lemma based_new w : based (newRunState w).
Proof. done. Qed.

Lemma elem_of_triggers r evs : r ∈ triggers evs ↔ Trigger r ∈ evs.
Proof.
  unfold triggers. rewrite list_elem_of_omap. split.
  - intros (e & He & E). destruct e; naive_solver.
  - intros He. by exists (Trigger r).
Qed.

(** ** The theorems *)

(** C8: the watcher refines the abstract machine.  Whatever mix of polls, streams, notifications, failures,
    reconnections and fallbacks it goes through, a run is a path of readings and reports from the state that
    knows nothing: its triggers are exactly the path's reports, in order, each naming in sorted order the
    components that differed between two consecutive readings since the previous report, and its readings are
    ones the source returned ([P] is any property those have). *)
Theorem Run_refines w phases s' evs P :
  Forall (phase_ok P) phases → Run w phases = Some (s', evs) →
  ∃ ls, apath {| a_base := None; a_changed := ∅ |} ls (abs s') ∧ reports ls = triggers evs ∧ Forall P (reads ls).
Proof.
  intros HP. unfold Run. destruct (run_phases w phases (newRunState w)) as [[s evs']|] eqn:E; [|done].
  intros [= <- <-]. destruct (moves_phases P _ _ _ _ _ (based_new w) HP E) as [Hm _]. exact Hm.
Qed.

(** C25: no change is lost and none is invented.  Between any two moments of a run at which the watcher knows
    a fingerprint, with failures, lost streams and fallbacks in between, every component that differs between
    the two fingerprints is named by a trigger in between or is pending at the second moment; and a component
    that is not pending and on which all readings in between agree with the first fingerprint is named by no
    trigger. *)
Theorem watcher_no_lost_change w before s1 e1 after s2 e2 b1 :
  run_phases w before (newRunState w) = Some (s1, e1) →
  run_phases w after s1 = Some (s2, e2) →
  rs_base s1 = Some b1 →
  (∃ b2, rs_base s2 = Some b2 ∧
     ∀ c, differ b1 b2 c → (∃ r, Trigger r ∈ e2 ∧ c ∈ r) ∨ c ∈ rs_changed s2) ∧
  (∀ c, (c ∉ rs_changed s1) → Forall (phase_ok (λ fp, fp !! c = b1 !! c)) after →
     ∀ r, Trigger r ∈ e2 → c ∉ r).
Proof.
  intros E1 E2 Hb1.
  assert (Hany : ∀ phs, Forall (phase_ok (λ _, True)) phs).
  { intros phs. apply Forall_true. intros [turns|attempts now turns]; cbn; [|split]; apply Forall_true.
    - intros t. by destruct (pt_reading t).
    - intros a. destruct (at_turn a) as [|? r ? ? ? inputs ?]; cbn; [done|]. split; [by destruct r|].
      apply Forall_true. intros []; cbn; try done; by destruct reading.
    - intros t. by destruct (pt_reading t). }
  destruct (moves_phases _ _ _ _ _ _ (based_new w) (Hany before) E1) as [_ Hbased]. split.
  - destruct (moves_phases _ _ _ _ _ _ Hbased (Hany after) E2) as [(ls & Hp & Hr & _) _].
    destruct (apath_complete _ _ _ Hp) as [Hsome Hc]. cbn in Hsome, Hc.
    destruct (Hsome ltac:(by rewrite Hb1)) as [b2 Hb2]. exists b2. split; [done|]. intros c Hd.
    destruct (Hc c) as [(r & Hin & Hcr)|?]; [right; eauto| |by right].
    left. exists r. split; [|done]. apply elem_of_triggers. by rewrite <- Hr.
  - intros c Hnc Hok r Htr.
    destruct (moves_phases _ _ _ _ _ _ Hbased Hok E2) as [(ls & Hp & Hr & Hreads) _].
    destruct (apath_sound _ _ _ c (b1 !! c) Hp) as [_ Hs]; [done|by cbn; rewrite Hb1; intros ? [= <-]|done|].
    apply Hs. rewrite Hr. by apply elem_of_triggers.
Qed.

(** How long a change can wait.  A poll that reads a fingerprint either reports everything that is pending
    with what it just found, or leaves nothing pending, or leaves a burst that is younger than MaxWait and
    whose last change is younger than the debounce window, and then the next poll follows within both the
    debounce window and the interval.  So the first poll at or after the earlier of the two limits reports. *)
Theorem step_latency w fp cancelled now s :
  0 <= debounce w →
  let '(wait, s', evs) := step w (Some fp) cancelled now s in
  rs_base s' = Some fp ∧
  ((evs = [] ∧ rs_changed s' = ∅ ∧ wait = interval w) ∨
   (∃ r, evs = [Trigger r] ∧ rs_changed s' = ∅ ∧ wait = interval w ∧
      ∀ c, c ∈ r ↔ c ∈ rs_changed s ∨ ∃ b, rs_base s = Some b ∧ differ b fp c) ∨
   (evs = [] ∧ rs_changed s' ≠ ∅ ∧ 0 < debounce w ∧
      now < rs_last s' + debounce w ∧ now < rs_first s' + maxWait w ∧
      wait = Z.min (debounce w) (interval w))).
Proof.
  intros Hd. unfold step. set (s1 := pollRecovered w s).
  set (s2 := match rs_base s1 with Some base => observe base fp now s1 | None => set_base fp s1 end).
  assert (H2 : rs_base s2 = Some fp ∧
    ∀ c, c ∈ rs_changed s2 ↔ c ∈ rs_changed s ∨ ∃ b, rs_base s = Some b ∧ differ b fp c).
  { subst s2. change (rs_base s1) with (rs_base s). destruct (rs_base s) as [b|] eqn:E.
    - destruct (observe_read b fp now s1) as [H1 H2]; [done|]. split; [done|]. intros c.
      rewrite H2, elem_of_union, elem_of_diff_set. change (rs_changed s1) with (rs_changed s). naive_solver.
    - split; [done|]. intros c. change (rs_changed (set_base fp s1)) with (rs_changed s). naive_solver. }
  destruct H2 as [Hbase Hch]. destruct (pending s2) eqn:Ep; cbn [negb].
  - apply pending_true in Ep. destruct (due w s2 now) eqn:Edue.
    + cbn. split; [done|]. right. left. eexists. split_and!; [done..|]. intros c.
      by rewrite elem_of_sort_strings, elem_of_elements.
    + split; [done|]. right. right. unfold due in Edue.
      apply orb_false_iff in Edue as [[E1%Z.eqb_neq E2%Z.leb_gt]%orb_false_iff E3%Z.leb_gt].
      split_and!; [done|done|lia..|done].
  - split; [done|]. left. split_and!; try done. unfold pending in Ep.
    by apply negb_false_iff, bool_decide_eq_true in Ep.
Qed.

(** ** Back-off *)
Fixpoint failures (w : Watcher) (n : nat) (now : Z) (s : runState) : list Z * runState :=
  match n with
  | O => ([], s)
  | S n => let '(wait, s, _) := step w None false now s in
           let '(waits, s) := failures w n now s in (wait :: waits, s)
  end.

Lemma backoff_next w k :
  0 < backoffMin w → backoffMin w <= backoffMax w → backoffMax w < 2 ^ 62 → 0 <= k →
  Z.min (wrap64 (Z.min (backoffMin w * 2 ^ k) (backoffMax w) * backoffFactor)) (backoffMax w) =
  Z.min (backoffMin w * 2 ^ (k + 1)) (backoffMax w).
Proof.
  intros H1 H2 H3 Hk. unfold backoffFactor. rewrite wrap64_id.
  - rewrite Z.pow_add_r, Z.pow_1_r, Z.mul_assoc by lia.
    generalize (backoffMin w * 2 ^ k). lia.
  - assert (0 < 2 ^ k) by (by apply Z.pow_pos_nonneg).
    assert (0 < backoffMin w * 2 ^ k) by nia. lia.
Qed.

Lemma failures_waits w n now s k :
  0 < backoffMin w → backoffMin w <= backoffMax w → backoffMax w < 2 ^ 62 → 0 <= k →
  rs_backoff s = Z.min (backoffMin w * 2 ^ k) (backoffMax w) →
  (failures w n now s).1 = (λ i, Z.min (backoffMin w * 2 ^ (k + Z.of_nat i)) (backoffMax w)) <$> seq 0 n.
Proof.
  intros H1 H2 H3. revert s k. induction n as [|n IH]; intros s k Hk Hs; [done|].
  cbn [failures step pollFailed]. set (s1 := Build_runState _ _ _ _ _ _ _).
  specialize (IH s1 (k + 1) ltac:(lia)). destruct (failures w n now s1) as [waits s2].
  cbn [fst] in *. cbn [seq fmap list_fmap]. f_equal.
  - rewrite Hs. by rewrite Z.add_0_r.
  - rewrite IH by (cbn; rewrite Hs; by apply backoff_next). rewrite <- fmap_S_seq, <- list_fmap_compose.
    apply list_fmap_ext. intros i x Hx. cbn. f_equal. f_equal. f_equal. lia.
Qed.

(** The back-off after failed polls.  A watcher made by [New] (limits below 2^62 ns, over a century)
    waits after the i-th failure in a row min(BackoffMin * 2^i, BackoffMax), counting from 0: never less than
    BackoffMin, never more than BackoffMax; and a successful poll starts the schedule again. *)
Theorem backoff_schedule o n now fp cancelled s :
  o_BackoffMin o < 2 ^ 62 → o_BackoffMax o < 2 ^ 62 →
  let w := New o in
  let schedule := (λ i, Z.min (backoffMin w * 2 ^ Z.of_nat i) (backoffMax w)) <$> seq 0 n in
  (failures w n now (newRunState w)).1 = schedule ∧
  (failures w n now (step w (Some fp) cancelled now s).1.2).1 = schedule ∧
  Forall (λ d, 0 < backoffMin w <= d ∧ d <= backoffMax w) schedule.
Proof.
  intros H1 H2. cbn zeta. set (w := New o).
  assert (Hmin : 0 < backoffMin w < 2 ^ 62).
  { subst w. cbn. unfold positiveOr, defaultBackoffMin, second. destruct (0 <? o_BackoffMin o) eqn:E; lia. }
  assert (Hmax : backoffMin w <= backoffMax w < 2 ^ 62).
  { subst w. cbn in *. unfold positiveOr, defaultBackoffMax, defaultBackoffMin, second in *.
    destruct (0 <? o_BackoffMax o) eqn:?, (0 <? o_BackoffMin o) eqn:?; lia. }
  assert (Hw : ∀ s, rs_backoff s = backoffMin w →
    (failures w n now s).1 = (λ i, Z.min (backoffMin w * 2 ^ Z.of_nat i) (backoffMax w)) <$> seq 0 n).
  { intros s0 Hs0. rewrite (failures_waits w n now s0 0); [done|lia..|rewrite Hs0, Z.pow_0_r; lia]. }
  split_and!.
  - by apply Hw.
  - apply Hw. unfold step. destruct (negb _); [|destruct (due _ _ _)]; cbn;
      (destruct (rs_base s) as [b|]; [unfold observe; destruct (changedComponents b fp)|]; done).
  - apply Forall_fmap, Forall_true. intros i. cbn [compose]. assert (0 < 2 ^ Z.of_nat i) by (apply Z.pow_pos_nonneg; lia).
    assert (backoffMin w <= backoffMin w * 2 ^ Z.of_nat i) by nia. lia.
Qed.

(** ** Notifications *)

(** A stream owes a read for the notifications it has not read for. *)
Definition owed (ss : StreamState) : Prop := 0 < ss_pending ss → ss_wake ss = true ∨ is_Some (ss_due ss).

Lemma serve_step_owed w inp ss ss' evs : owed ss → serve_step w inp ss = Some (inl ss', evs) → owed ss'.
Proof.
  unfold owed. intros Ho. destruct inp as [| |u|now|reading cancelled now|reading cancelled now]; cbn [serve_step].
  - intros [= <- <-]. cbn. by left.
  - done.
  - done.
  - destruct (ss_wake ss); [|done]. intros [= <- <-]. cbn. right. eauto.
  - destruct (ss_due ss) as [at_|]; [|done]. destruct (now <? at_); [done|].
    destruct (readFingerprint _ _ _ _ _ _) as [[s|s] evs1]; [|done]. intros [= <- <-]. cbn. lia.
  - destruct (now <? ss_resync ss); [done|].
    destruct (readFingerprint _ _ _ _ _ _) as [[s|s] evs1]; [|done]. intros [= <- <-]. done.
Qed.

Lemma serve_owed w inputs ss ss' evs : owed ss → serve w inputs ss = Some (inl ss', evs) → owed ss'.
Proof.
  revert ss evs. induction inputs as [|inp inputs IH]; intros ss evs Ho; cbn [serve]; [by intros [= <- <-]|].
  destruct (serve_step w inp ss) as [[[ss1|e] evs1]|] eqn:E; [|done|done].
  destruct (serve w inputs ss1) as [[r evs2]|] eqn:E2; [|done]. intros [= -> <-].
  by apply (IH ss1 evs2); [eapply serve_step_owed|].
Qed.

(** A notification is never forgotten.  In a live stream, whatever arrives and in whatever order, as long
    as there are notifications that no fingerprint was read for, a wake-up is queued or the due timer is
    armed; and a wake-up arms the timer for no later than the debounce window and than MaxWait after the
    burst's first notification (at once when that has passed). *)
Theorem notifications_kept w reading cancelled now early s ss0 evs0 inputs ss evs :
  serve_start w reading cancelled now early s = (inl ss0, evs0) →
  serve w inputs ss0 = Some (inl ss, evs) →
  owed ss ∧
  ∀ t ss' evs', serve_step w (Woken t) ss = Some (inl ss', evs') →
    ∃ due first, ss_due ss' = Some due ∧ ss_first ss' = Some first ∧
      first = default t (ss_first ss) ∧
      due = Z.max t (Z.min (t + debounce w) (first + maxWait w)).
Proof.
  intros E0 E. split.
  - eapply serve_owed; [|exact E]. unfold serve_start in E0.
    destruct (readFingerprint _ _ _ _ _ _) as [[s1|s1] evs1]; [|done]. injection E0 as <- <-.
    intros Hp. cbn in *. left. by apply Z.ltb_lt.
  - intros t ss' evs'. cbn [serve_step]. destruct (ss_wake ss); [|done]. intros [= <- <-]. cbn.
    eexists _, _. split_and!; [done..|]. unfold untilDue.
    destruct (default t (ss_first ss) + maxWait w <? t + debounce w) eqn:El; lia.
Qed.

(** ** Fingerprints do not depend on the order the directory answers in *)
Lemma sort_strings_perm l l' : l ≡ₚ l' → sort_strings l = sort_strings l'.
Proof.
  intros Hp. apply (StronglySorted_unique String.le).
  - apply (StronglySorted_merge_sort String.le).
  - apply (StronglySorted_merge_sort String.le).
  - unfold sort_strings. by rewrite !(sort_by_key_perm (λ s, s)).
Qed.

Lemma digest_order sha (es es' : list Entry) : es ≡ₚ es' → digest sha es = digest sha es'.
Proof. intros Hp. unfold digest. f_equal. f_equal. apply sort_strings_perm. by rewrite Hp. Qed.

(** ** Evaluation *)
Definition defaults : Options :=
  {| o_Interval := 0; o_ResyncInterval := 0; o_ProbeInterval := 0; o_Debounce := 2 * second; o_MaxWait := 0;
     o_BackoffMin := 0; o_BackoffMax := 0 |}.

Definition fp_of (g s : string) : Fingerprint := {["global" := g; "servers" := s]}.

Definition polled (reading : option Fingerprint) (now : Z) : PollTurn :=
  {| pt_cancelled := false; pt_check := now; pt_reading := reading; pt_cancelledRead := false; pt_now := now;
     pt_interrupted := false |}.

(** A change, a failure, and the quiet poll that reports it. *)
Definition sample_turns : list PollTurn :=
  [polled (Some (fp_of "a" "x")) 0; polled (Some (fp_of "b" "x")) (5 * second); polled None (7 * second);
   polled (Some (fp_of "b" "x")) (8 * second)].

Definition events_of (o : option (runState * list Event)) : list Event :=
  match o with Some (_, evs) => evs | None => [] end.
Definition state_of (o : option (runState * list Event)) : runState :=
  match o with Some (s, _) => s | None => newRunState (New defaults) end.

Example sample_events :
  events_of (Run (New defaults) [PollPhase sample_turns]) = [OnMode ModePoll; OnPollError; Trigger ["global"]].
Proof. vm_compute. reflexivity. Qed.

Lemma Run_refines_witness :
  let r := Run (New defaults) [PollPhase sample_turns] in
  ∃ ls, apath {| a_base := None; a_changed := ∅ |} ls (abs (state_of r)) ∧
    reports ls = triggers (events_of r) ∧ Forall (λ fp, fp !! "servers" = Some "x") (reads ls).
Proof.
  apply (Run_refines (New defaults) [PollPhase sample_turns] _ _ (λ fp, fp !! "servers" = Some "x")).
  - repeat constructor.
  - vm_compute. reflexivity.
Defined.

Lemma watcher_no_lost_change_witness :
  let s1 := state_of (run_phases (New defaults) [PollPhase (take 1 sample_turns)] (newRunState (New defaults))) in
  ∃ r, Trigger r ∈ events_of (run_phases (New defaults) [PollPhase (drop 1 sample_turns)] s1) ∧ "global" ∈ r.
Proof.
  cbn zeta.
  set (s1 := state_of (run_phases (New defaults) [PollPhase (take 1 sample_turns)] (newRunState (New defaults)))).
  set (r2 := run_phases (New defaults) [PollPhase (drop 1 sample_turns)] s1).
  assert (H1 : run_phases (New defaults) [PollPhase (take 1 sample_turns)] (newRunState (New defaults)) =
    Some (s1, [])) by (vm_compute; reflexivity).
  assert (H2 : r2 = Some (state_of r2, events_of r2)) by (vm_compute; reflexivity).
  assert (H3 : rs_base s1 = Some (fp_of "a" "x")) by (vm_compute; reflexivity).
  assert (H4 : rs_base (state_of r2) = Some (fp_of "b" "x")) by (vm_compute; reflexivity).
  assert (H5 : rs_changed (state_of r2) = ∅) by (vm_compute; reflexivity).
  destruct (watcher_no_lost_change _ _ _ _ _ _ _ _ H1 H2 H3) as [(b2 & Hb2 & Hc) _].
  rewrite H4 in Hb2. injection Hb2 as <-.
  assert (Hd : differ (fp_of "a" "x") (fp_of "b" "x") "global") by (intros Heq; discriminate Heq).
  destruct (Hc "global" Hd) as [Hr|Hin]; [exact Hr|]. exfalso. rewrite H5 in Hin. clear -Hin.
  exact (not_elem_of_empty (C := gset string) "global" Hin).
Defined.

Lemma step_latency_witness :
  0 <= debounce (New defaults) ∧
  rs_base (step (New defaults) (Some (fp_of "a" "x")) false 0 (newRunState (New defaults))).1.2 = Some (fp_of "a" "x").
Proof.
  split; [done|].
  assert (H : 0 <= debounce (New defaults)) by done.
  pose proof (step_latency (New defaults) (fp_of "a" "x") false 0 (newRunState (New defaults)) H) as Hs.
  destruct (step (New defaults) (Some (fp_of "a" "x")) false 0 (newRunState (New defaults))) as [[wait s'] evs].
  exact (proj1 Hs).
Defined.

Lemma backoff_schedule_witness :
  (failures (New defaults) 8 0 (newRunState (New defaults))).1 =
  (λ n, n * second) <$> [1; 2; 4; 8; 16; 32; 60; 60].
Proof.
  assert (H : o_BackoffMin defaults < 2 ^ 62) by (vm_compute; reflexivity).
  etrans; [exact (proj1 (backoff_schedule defaults 8 0 (fp_of "a" "x") false (newRunState (New defaults)) H H))|].
  vm_compute. reflexivity.
Defined.

Definition sample_stream : StreamState :=
  {| ss_run := set_base (fp_of "a" "x") (newRunState (New defaults)); ss_pending := 0; ss_wake := false;
     ss_due := None; ss_first := None; ss_resync := 300 * second |}.

Definition sample_served : StreamState :=
  match serve (New defaults) [Notified; Woken 0; Notified] sample_stream with
  | Some (inl ss, _) => ss | _ => sample_stream end.

Lemma notifications_kept_witness : ss_pending sample_served = 2 ∧ owed sample_served.
Proof.
  split; [vm_compute; reflexivity|].
  assert (E0 : serve_start (New defaults) (Some (fp_of "a" "x")) false 0 0 (newRunState (New defaults)) =
    (inl sample_stream, [])) by (vm_compute; reflexivity).
  assert (E1 : serve (New defaults) [Notified; Woken 0; Notified] sample_stream = Some (inl sample_served, []))
    by (vm_compute; reflexivity).
  exact (proj1 (notifications_kept _ _ _ _ _ _ _ _ _ _ _ E0 E1)).
Defined.

(** ** The subscriber *)

(** The stream is live once, before any change; without it there are no calls,
    and a stream that was live never counts as unsupported. *)
Lemma sync_calls_shape msgs :
  (∀ r calls, sync_calls true msgs = (r, calls) → r = true ∧ Forall (λ c, c = CallChanged) calls) ∧
  (∀ r calls, sync_calls false msgs = (r, calls) →
     (r = false ∧ calls = []) ∨
     (r = true ∧ ∃ cs, calls = CallLive :: cs ∧ Forall (λ c, c = CallChanged) cs)).
Proof.
  induction msgs as [|m msgs [IH1 IH2]]; (split; intros r calls; cbn [sync_calls negb]).
  - by intros [= <- <-].
  - intros [= <- <-]. by left.
  - destruct (m_entry m || _); [|apply IH1]. destruct (sync_calls true msgs) as [r1 cs].
    destruct (IH1 _ _ eq_refl) as [-> Hcs]. intros [= <- <-]. auto.
  - destruct (refreshDone _); [|apply IH2]. destruct (sync_calls true msgs) as [r1 cs].
    destruct (IH1 _ _ eq_refl) as [-> Hcs]. intros [= <- <-]. right. eauto.
Qed.

Lemma streamChanges_live msgs err e calls :
  streamChanges msgs err = (e, calls) → CallLive ∈ calls → e ≠ SyncUnsupported.
Proof.
  unfold streamChanges. destruct (sync_calls false msgs) as [r cs] eqn:E. intros [= <- <-].
  destruct (proj2 (sync_calls_shape msgs) r cs E) as [[-> ->]|[-> _]]; [set_solver|].
  by destruct err as [[]|].
Qed.
