(* ===== verification/Files.v ===== *)
(** * Files: how configuration files reach the disk

    internal/fileutil (atomic_write.go, copy.go) and the rewrite of one template
    in internal/configmgr/manager_actions_rewrite.go.  The file system maps paths
    to files; every primitive takes the next fault of the course of events and
    appends the file system it leaves to the history, so that a reader, or a
    crash, at any moment sees one of the states of the history. *)
From S2P Require Import Prelude Config.
Open Scope Z_scope.

Record File := { f_data : string; f_mode : Z; f_uid : Z; f_gid : Z }.

Abbreviation FileSystem := (gmap string File).

(** What a primitive meets.  [Fails exdev n]: the error, which is EXDEV or not,
    a write having written [n] bytes before it.  [Loses data]: a close that
    reports that what was written is not all on disk. *)
Inductive Fault := NoFault | Fails (exdev : bool) (n : nat) | Loses (data : string).

(** The history is kept newest first; the current state is its head. *)
Record World := { w_fs : FileSystem; w_faults : list Fault; w_history : list FileSystem }.

(** An error is the text the code wraps it in, innermost first. *)
Record IOError := { ie_exdev : bool; ie_context : list string }.

Definition wrap (msg : string) (e : IOError) : IOError :=
  {| ie_exdev := ie_exdev e; ie_context := ie_context e ++ [msg] |}.

Definition IO (A : Type) : Type := World → (A + IOError) * World.

#[export] Instance IO_ret : MRet IO := λ A a w, (inl a, w).
#[export] Instance IO_bind : MBind IO := λ A B f m w,
  match m w with (inl a, w') => f a w' | (inr e, w') => (inr e, w') end.

Definition fail {A} (e : IOError) : IO A := λ w, (inr e, w).
Definition failed (exdev : bool) (what : string) : IOError := {| ie_exdev := exdev; ie_context := [what] |}.

(** [m] with its error wrapped, after [cleanup], whose own errors are dropped. *)
Definition guarded {A} (m : IO A) (msg : string) (cleanup : IO unit) : IO A := λ w,
  match m w with
  | (inl a, w') => (inl a, w')
  | (inr e, w') => (inr (wrap msg e), (cleanup w').2)
  end.

Definition catch {A} (m : IO A) (h : IOError → IO A) : IO A := λ w,
  match m w with (inl a, w') => (inl a, w') | (inr e, w') => h e w' end.

Definition ignore_error (m : IO unit) : IO unit := λ w, (inl tt, (m w).2).

(** ** Primitives *)
Definition next_fault (w : World) : Fault := default NoFault (head (w_faults w)).

Definition commit (fs : FileSystem) (w : World) : World :=
  {| w_fs := fs; w_faults := tail (w_faults w); w_history := fs :: w_history w |}.

(** A primitive: [f] is what it does when it goes well, [g n] what a failure
    after [n] bytes leaves, [h data] what a loss leaves. *)
Definition primitive {A} (what : string) (f : FileSystem → (A * FileSystem) + IOError)
    (g : nat → FileSystem → FileSystem) (h : string → FileSystem → FileSystem) : IO A := λ w,
  match next_fault w with
  | NoFault =>
      match f (w_fs w) with
      | inl (a, fs) => (inl a, commit fs w)
      | inr e => (inr e, commit (w_fs w) w)
      end
  | Fails exdev n => (inr (failed exdev what), commit (g n (w_fs w)) w)
  | Loses data => (inr (failed false what), commit (h data (w_fs w)) w)
  end.

Definition same {A} (_ : A) (fs : FileSystem) : FileSystem := fs.

Definition set_data (d : string) (f : File) : File :=
  {| f_data := d; f_mode := f_mode f; f_uid := f_uid f; f_gid := f_gid f |}.
Definition set_mode (m : Z) (f : File) : File :=
  {| f_data := f_data f; f_mode := m; f_uid := f_uid f; f_gid := f_gid f |}.
Definition set_owner (uid gid : Z) (f : File) : File :=
  {| f_data := f_data f; f_mode := f_mode f;
     f_uid := if uid <? 0 then f_uid f else uid; f_gid := if gid <? 0 then f_gid f else gid |}.

(** The ids of the running process own the files it creates. *)
Section ids.
Variables (uid0 gid0 : Z).

(** [os.CreateTemp] and [O_EXCL]: a new, empty file. *)
Definition create (path : string) : IO unit :=
  primitive "create" (λ fs,
    match fs !! path with
    | Some _ => inr (failed false "exists")
    | None => inl (tt, <[path := {| f_data := ""; f_mode := 384; f_uid := uid0; f_gid := gid0 |}]> fs)
    end) same same.
End ids.

Definition update (path : string) (f : File → File) (fs : FileSystem) : FileSystem := alter f path fs.

(** [write] appends: the code writes to a file it has just created. *)
Definition write (path data : string) : IO unit :=
  primitive "write" (λ fs, inl (tt, update path (λ f, set_data (f_data f +:+ data) f) fs))
    (λ n, update path (λ f, set_data (f_data f +:+ take_string n data) f)) same.

Definition sync (path : string) : IO unit := primitive "sync" (λ fs, inl (tt, fs)) same same.

(** The permission bits; the code sets no others. *)
Definition perm_of (mode : Z) : Z := Z.land mode 511.

Definition chmod (path : string) (mode : Z) : IO unit :=
  primitive "chmod" (λ fs,
    match fs !! path with
    | None => inr (failed false "no such file")
    | Some _ => inl (tt, update path (set_mode (perm_of mode)) fs)
    end) same same.

Definition chown (path : string) (uid gid : Z) : IO unit :=
  primitive "chown" (λ fs, inl (tt, update path (set_owner uid gid) fs)) same same.

Definition close (path : string) : IO unit :=
  primitive "close" (λ fs, inl (tt, fs)) same (λ data, update path (set_data data)).

Definition rename (old new : string) : IO unit :=
  primitive "rename" (λ fs,
    match fs !! old with
    | None => inr (failed false "no such file")
    | Some f => inl (tt, <[new := f]> (delete old fs))
    end) same same.

Definition remove (path : string) : IO unit :=
  primitive "remove" (λ fs,
    match fs !! path with
    | None => inr (failed false "no such file")
    | Some _ => inl (tt, delete path fs)
    end) same same.

Definition read (path : string) : IO File :=
  primitive "read" (λ fs,
    match fs !! path with Some f => inl (f, fs) | None => inr (failed false "no such file") end) same same.

Definition stat_exists (path : string) : IO bool :=
  primitive "stat" (λ fs, inl (bool_decide (is_Some (fs !! path)), fs)) same same.

(** ** fileutil/atomic_write.go *)
Definition discard (tmpPath : string) : IO unit :=
  _ ← ignore_error (close tmpPath); ignore_error (remove tmpPath).

Definition syncDir (dir : string) : IO unit :=
  _ ← guarded (sync dir) "failed to open parent directory" (mret tt);
  _ ← guarded (sync dir) "failed to sync parent directory" (ignore_error (sync dir));
  guarded (sync dir) "failed to close parent directory" (mret tt).

Section commit.
Variables (uid0 gid0 : Z).

(** [tmpPath] is the name [os.CreateTemp] picks in the directory of [path]. *)
Definition AtomicWriteOwned (path data : string) (perm uid gid : Z) (tmpPath : string) : IO unit :=
  _ ← guarded (create uid0 gid0 tmpPath) "failed to create temp file" (mret tt);
  _ ← guarded (write tmpPath data) "failed to write temp file" (discard tmpPath);
  _ ← guarded (sync tmpPath) "failed to sync temp file" (discard tmpPath);
  _ ← guarded (chmod tmpPath perm) "failed to set permissions" (discard tmpPath);
  _ ← (if (0 <=? uid) || (0 <=? gid)
       then guarded (chown tmpPath uid gid) "failed to set owner" (discard tmpPath)
       else mret tt);
  _ ← guarded (close tmpPath) "failed to close temp file" (ignore_error (remove tmpPath));
  _ ← guarded (rename tmpPath path) "failed to rename temp file" (ignore_error (remove tmpPath));
  syncDir path.

Definition AtomicWrite (path data : string) (perm : Z) (tmpPath : string) : IO unit :=
  AtomicWriteOwned path data perm (-1) (-1) tmpPath.

(** ** fileutil/copy.go *)

(** [createExclusiveTemp]: [names] are the random names drawn; at most ten. *)
Fixpoint createExclusive (names : list string) : IO string :=
  match names with
  | [] => fail (failed false "no unused temp name")
  | name :: names => λ w,
      match w_fs w !! name, next_fault w with
      | Some _, NoFault => createExclusive names (commit (w_fs w) w)
      | _, _ => (_ ← create uid0 gid0 name; mret name) w
      end
  end.

Definition createExclusiveTemp (names : list string) : IO string := createExclusive (take 10 names).

(** The copy writes what it reads; the source stays open and is closed last. *)
Definition CopyFile (src dst : string) (names : list string) : IO unit :=
  source ← guarded (read src) "failed to open source" (mret tt);
  tmpPath ← guarded (createExclusiveTemp names) "failed to create destination" (mret tt);
  _ ← guarded (write tmpPath (f_data source)) "failed to copy content" (discard tmpPath);
  _ ← guarded (sync tmpPath) "failed to sync destination" (discard tmpPath);
  srcInfo ← guarded (read src) "failed to stat source" (discard tmpPath);
  _ ← guarded (chmod tmpPath (f_mode srcInfo)) "failed to set destination mode" (discard tmpPath);
  _ ← guarded (close tmpPath) "failed to close destination" (discard tmpPath);
  guarded (rename tmpPath dst) "failed to rename temp file to destination" (discard tmpPath).

(** ** The rewrite of one template *)

(** [bufio.Scanner]: the lines of the text, and whether it stopped at one that
    does not fit its buffer of 64 KiB. *)
Definition maxToken : nat := Pos.to_nat 65536.

Definition drop_cr (l : string) : string :=
  if HasSuffix l (String (ascii_of_nat 13) "") then take_string (String.length l - 1) l else l.

Fixpoint fits (limit : N) (l : string) : bool :=
  match l with
  | EmptyString => true
  | String _ l => if (limit =? 0)%N then false else fits (N.pred limit) l
  end.

Fixpoint scan_go (lines : list string) : list string * bool :=
  match lines with
  | [] => ([], false)
  | [l] => if String.eqb l "" then ([], false) else
           if fits 65535 l then ([drop_cr l], false) else ([], true)
  | l :: rest =>
      if fits 65535 l then let '(ls, tooLong) := scan_go rest in (drop_cr l :: ls, tooLong)
      else ([], true)
  end.

Definition Scan (text : string) : list string * bool := scan_go (SplitByte newline text).

Variable Transform : string → string + string.

Definition line_out (transformed : string) : string :=
  if HasSuffix transformed (String newline "") then transformed else transformed +:+ String newline "".

(** The loop of [rewriteTransform] over the scanned lines. *)
Fixpoint transform_all (tmp : string) (lines : list string) : IO unit :=
  match lines with
  | [] => mret tt
  | l :: rest =>
      match Transform l with
      | inr err => fail (failed false ("transform: " +:+ err))
      | inl transformed =>
          _ ← guarded (write tmp (line_out transformed)) "write to temp file" (mret tt);
          transform_all tmp rest
      end
  end.

Definition rewriteTransform (srcPath tmp : string) : IO unit :=
  src ← guarded (read srcPath) ("open source file " +:+ srcPath) (mret tt);
  let '(lines, tooLong) := Scan (f_data src) in
  _ ← transform_all tmp lines;
  if tooLong : bool then fail (failed false ("read source file " +:+ srcPath)) else mret tt.

(** [strconv.ParseInt s 8 32] *)
Definition octal_digit (c : ascii) : option Z :=
  if in_range 48 55 c then Some (Z.of_N (byte c) - 48) else None.

Fixpoint octal (acc : Z) (s : string) : option Z :=
  match s with
  | EmptyString => Some acc
  | String c s => match octal_digit c with Some d => octal (acc * 8 + d) s | None => None end
  end.

Definition ParseInt8_32 (s : string) : option Z :=
  let body (neg : bool) (t : string) :=
    match t with
    | EmptyString => None
    | _ => v ← octal 0 t;
           let v := if neg then - v else v in
           if (- 2 ^ 31 <=? v) && (v <? 2 ^ 31) then Some v else None
    end in
  match s with
  | String "+" t => body false t
  | String "-" t => body true t
  | _ => body false s
  end.

Definition rewriteFileMode (modeStr : string) : option Z :=
  if String.eqb modeStr "" then Some 288
  else v ← ParseInt8_32 modeStr; Some (v mod 2 ^ 32).

Definition rewriteAtomicCommit (tmp dest modeStr : string) (names : list string) : IO unit :=
  match rewriteFileMode modeStr with
  | None => fail (failed false ("invalid file mode " +:+ modeStr))
  | Some fileMode =>
      _ ← guarded (chmod tmp fileMode) "chmod temp file" (mret tt);
      catch (rename tmp dest) (λ e,
        if negb (ie_exdev e) then fail (wrap ("rename temp to dest " +:+ dest) e)
        else
          _ ← guarded (CopyFile tmp dest names) ("copy temp to dest " +:+ dest) (mret tt);
          _ ← guarded (chmod dest fileMode) "chmod dest file" (mret tt);
          ignore_error (remove tmp))
  end.

(** [cleanupRewriteFiles], as [processRewrite] defers it. *)
Definition cleanupRewriteFiles (tmp : string) : IO unit :=
  _ ← ignore_error (close tmp);
  there ← catch (stat_exists tmp) (λ _, mret false);
  if there : bool then ignore_error (remove tmp) else mret tt.

(** Run [m], then [d] whatever its result: a deferred call. *)
Definition deferring {A} (m : IO A) (d : IO unit) : IO A := λ w,
  let '(r, w) := m w in (r, (d w).2).

(** A failed close of the temporary file is logged only. *)
Definition processRewrite (cfg : Config) (filePath : string) (entry : RewriteEntry) (tmp : string)
    (names : list string) : IO unit :=
  let srcPath := TemplatePath cfg filePath in
  let destPath := BaseDir cfg +:+ "/" +:+ re_Value entry in
  _ ← guarded (create uid0 gid0 tmp) "create temp file" (mret tt);
  deferring
    (_ ← guarded (rewriteTransform srcPath tmp) ("transform source file " +:+ srcPath) (mret tt);
     _ ← ignore_error (close tmp);
     guarded (rewriteAtomicCommit tmp destPath (re_Mode entry) names) ("commit rewrite to " +:+ destPath) (mret tt))
    (cleanupRewriteFiles tmp).
End commit.
