(* ===== verification/FilesProps.v ===== *)
(** * FilesProps: files are replaced atomically

    A small program logic for [IO]: a triple says what a program does to the
    files it names, whatever faults it meets, and that every state of the history
    satisfies the invariant [Inv]: the destination is as before or complete, and
    nothing else but temporary files changes. *)
From S2P Require Import Prelude Config Files.
Open Scope Z_scope.

Definition fact : Type := string * option File.

Definition facts (k : list fact) (w : World) : Prop := Forall (λ qv, w_fs w !! qv.1 = qv.2) k.

(** No fault is left; at most one is left. *)
Definition calm (l : list Fault) : Prop := Forall (λ f, f = NoFault) l.
Fixpoint single (l : list Fault) : Prop :=
  match l with [] => True | NoFault :: l => single l | _ :: l => calm l end.

Lemma calm_single l : calm l → single l.
Proof. induction 1 as [|f l -> Hl IH]; done. Qed.

(** What a primitive does to the faults that are left. *)
Class Course (F : list Fault → Prop) : Prop := {
  course_calm l : calm l → F l;
  course_tail l : F l → F (tail l);
  course_fault w : next_fault w ≠ NoFault → F (w_faults w) → calm (tail (w_faults w))
}.

#[export] Instance single_Course : Course single.
Proof.
  split.
  - apply calm_single.
  - intros [|[] l]; cbn; auto using calm_single.
  - intros w. unfold next_fault. destruct (w_faults w) as [|[] l]; cbn; done.
Qed.

#[export] Instance calm_Course : Course calm.
Proof.
  split.
  - done.
  - intros [|f l]; [done|]. by inversion 1.
  - intros w. unfold next_fault. destruct (w_faults w) as [|f l]; [done|]. cbn. by inversion 2.
Qed.

Lemma next_fault_calm w : calm (w_faults w) → next_fault w = NoFault.
Proof. unfold next_fault. intros Hc. destruct (w_faults w) as [|f l]; [done|]. by inversion Hc. Qed.

Section logic.
Variables (fs0 : FileSystem) (dest : string) (new : option File) (temps : gset string).
Hypothesis dest_temps : dest ∉ temps.
(** Whether the run is one whose faults are followed, and one in which no close
    loses data. *)
Variables (one_fault no_loss : Prop).

Definition is_loss (f : Fault) : Prop := match f with Loses _ => True | _ => False end.

Definition Inv (fs : FileSystem) : Prop :=
  (fs !! dest = fs0 !! dest ∨ is_Some new ∧ fs !! dest = new) ∧
  ∀ p, p ≠ dest → p ∉ temps → fs !! p = fs0 !! p.

Definition good (w : World) : Prop :=
  (Inv (w_fs w) ∧ Forall Inv (w_history w)) ∧ (no_loss → Forall (λ f, ¬ is_loss f) (w_faults w)).

(** The files a program knows about, before a fault and after it. *)
Definition sta (F : list Fault → Prop) (k : list fact) (w : World) : Prop :=
  facts k w ∧ (one_fault → F (w_faults w)).
Abbreviation st := (sta single).
Abbreviation er := (sta calm).

Definition triple {A} (P : World → Prop) (m : IO A) (Q : A → World → Prop) (E : World → Prop) : Prop :=
  ∀ w, good w → P w → let '(r, w') := m w in
    good w' ∧ match r with inl a => Q a w' | inr _ => E w' end.

Lemma triple_weaken {A} P P' (m : IO A) Q Q' (E E' : World → Prop) :
  (∀ w, P' w → P w) → (∀ a w, Q a w → Q' a w) → (∀ w, E w → E' w) →
  triple P m Q E → triple P' m Q' E'.
Proof.
  intros HP HQ HE Hm w Hg Hp. specialize (Hm w Hg (HP w Hp)). destruct (m w) as [[a|e] w'];
    destruct Hm; auto.
Qed.

Lemma triple_conseq {A} P P' (m : IO A) Q Q' (E E' : World → Prop) :
  triple P m Q E → (∀ w, P' w → P w) → (∀ a w, Q a w → Q' a w) → (∀ w, E w → E' w) → triple P' m Q' E'.
Proof. intros. by eapply triple_weaken. Qed.

Lemma triple_pure {A} (φ : Prop) P (m : IO A) Q E : (φ → triple P m Q E) → triple (λ w, φ ∧ P w) m Q E.
Proof. intros H w Hg [Hφ Hp]. exact (H Hφ w Hg Hp). Qed.

Lemma triple_ret {A} (a : A) P E : triple P (mret a) (λ a' w, a' = a ∧ P w) E.
Proof. intros w Hg Hp. done. Qed.

Lemma triple_fail {A} e P (Q : A → World → Prop) : triple P (fail e) Q P.
Proof. intros w Hg Hp. done. Qed.

Lemma triple_bind {A B} P (m : IO A) (f : A → IO B) Q R E :
  triple P m Q E → (∀ a, triple (Q a) (f a) R E) → triple P (m ≫= f) R E.
Proof.
  intros Hm Hf w Hg Hp. specialize (Hm w Hg Hp). unfold mbind, IO_bind.
  destruct (m w) as [[a|e] w']; destruct Hm as [Hg' Hq]; [by apply Hf|done].
Qed.

(** Whatever a clean-up returns, what it leaves. *)
Definition leaves (P : World → Prop) (m : IO unit) (Q : World → Prop) : Prop := triple P m (λ _, Q) Q.

Lemma triple_guarded {A} P (m : IO A) msg cleanup Q E E' :
  triple P m Q E → leaves E cleanup E' → triple P (guarded m msg cleanup) Q E'.
Proof.
  intros Hm Hc w Hg Hp. specialize (Hm w Hg Hp). unfold guarded.
  destruct (m w) as [[a|e] w']; destruct Hm as [Hg' Hq]; [done|].
  specialize (Hc w' Hg' Hq). cbn. by destruct (cleanup w') as [[] ?].
Qed.

Lemma leaves_ret P : leaves P (mret tt) P.
Proof. intros w Hg Hp. done. Qed.

Lemma triple_guarded_then {A} P (m : IO A) msg cleanup Q E G (E' : World → Prop) :
  triple P m Q E → leaves E cleanup G → (∀ w, G w → E' w) → triple P (guarded m msg cleanup) Q E'.
Proof.
  intros Hm Hc HE. eapply triple_weaken; [exact (λ _ H, H)|exact (λ _ _ H, H)|exact HE|].
  by eapply triple_guarded.
Qed.

Lemma leaves_ignore P m Q : leaves P m Q → leaves P (ignore_error m) Q.
Proof.
  intros Hm w Hg Hp. specialize (Hm w Hg Hp). unfold ignore_error. cbn.
  by destruct (m w) as [[] ?].
Qed.

Lemma triple_ignore P m Q E : leaves P m Q → triple P (ignore_error m) (λ _, Q) E.
Proof.
  intros Hm w Hg Hp. specialize (Hm w Hg Hp). unfold ignore_error. cbn.
  by destruct (m w) as [[] ?].
Qed.

Lemma triple_catch {A} P (m : IO A) h Q E E' :
  triple P m Q E → (∀ e, triple E (h e) Q E') → triple P (catch m h) Q E'.
Proof.
  intros Hm Hh w Hg Hp. specialize (Hm w Hg Hp). unfold catch.
  destruct (m w) as [[a|e] w']; destruct Hm as [Hg' Hq]; [done|]. by apply Hh.
Qed.

(** ** Primitives *)
Definition off (p : string) (fs fs' : FileSystem) : Prop := ∀ q, q ≠ p → fs' !! q = fs !! q.

Lemma Inv_off p fs fs' : p ∈ temps → Inv fs → off p fs fs' → Inv fs'.
Proof.
  intros Hp [Hd Hf] Ho. assert (dest ≠ p) by set_solver. split.
  - rewrite Ho by done. done.
  - intros q Hq Hqt. rewrite Ho by set_solver. auto.
Qed.

Lemma good_commit fs w : good w → Inv fs → good (commit fs w).
Proof.
  intros [[H1 H2] Hl] Hi. split; [split; [done|by constructor]|]. intros H. specialize (Hl H). cbn.
  destruct (w_faults w); [done|]. by inversion Hl.
Qed.

Lemma facts_off p k fs fs' :
  Forall (λ qv, qv.1 ≠ p) k → off p fs fs' → Forall (λ qv, fs !! qv.1 = qv.2) k →
  Forall (λ qv, fs' !! qv.1 = qv.2) k.
Proof.
  intros Hk Ho Hf. apply Forall_forall. intros qv Hin.
  rewrite Ho by (by apply (proj1 (Forall_forall _ _) Hk)). by apply (proj1 (Forall_forall _ _) Hf).
Qed.

(** A primitive on the temporary file [p] that succeeds when no fault stops it. *)
Lemma triple_prim {A} F `{!Course F} what (f : FileSystem → (A * FileSystem) + IOError) g h p o k (a0 : A) o' :
  p ∈ temps → Forall (λ qv, qv.1 ≠ p) k →
  (∀ fs, fs !! p = o → ∃ fs', f fs = inl (a0, fs') ∧ off p fs fs' ∧ fs' !! p = o') →
  (∀ n fs, off p fs (g n fs)) → (∀ d fs, off p fs (h d fs)) →
  triple (sta F ((p, o) :: k)) (primitive what f g h)
    (λ a w, a = a0 ∧ sta F ((p, o') :: k) w)
    (λ w, ∃ fs, fs !! p = o ∧ ((∃ n, w_fs w = g n fs) ∨ (∃ d, w_fs w = h d fs)) ∧ er k w).
Proof.
  intros Hp Hk Hf Hg Hh w Hgood [Hfacts Hs]. pose proof Hgood as [[Hi _] _]. inversion Hfacts as [|? ? Ho Hfk]; subst. cbn in Ho.
  unfold primitive. destruct (next_fault w) as [|exdev n|d] eqn:En.
  - destruct (Hf (w_fs w) Ho) as (fs' & -> & Hoff & Ho'). split.
    + apply good_commit; [done|]. by eapply Inv_off.
    + split; [done|]. split.
      * constructor; [done|]. exact (facts_off p k _ _ Hk Hoff Hfk).
      * cbn. intros H1. by apply course_tail, Hs.
  - split; [apply good_commit; [done|]; by eapply Inv_off|].
    exists (w_fs w). split_and!; [done|left; eauto|]. split; [exact (facts_off p k _ _ Hk (Hg n _) Hfk)|].
    intros H1. cbn. apply (course_fault (F := F)); [by rewrite En|auto].
  - split; [apply good_commit; [done|]; by eapply Inv_off|].
    exists (w_fs w). split_and!; [done|right; eauto|]. split; [exact (facts_off p k _ _ Hk (Hh d _) Hfk)|].
    intros H1. cbn. apply (course_fault (F := F)); [by rewrite En|auto].
Qed.

(** One that leaves the files alone when it fails. *)
Lemma triple_prim_same {A} F `{!Course F} what (f : FileSystem → (A * FileSystem) + IOError) p o k (a0 : A) o' :
  p ∈ temps → Forall (λ qv, qv.1 ≠ p) k →
  (∀ fs, fs !! p = o → ∃ fs', f fs = inl (a0, fs') ∧ off p fs fs' ∧ fs' !! p = o') →
  triple (sta F ((p, o) :: k)) (primitive what f same same)
    (λ a w, a = a0 ∧ sta F ((p, o') :: k) w) (er ((p, o) :: k)).
Proof.
  intros Hp Hk Hf. eapply triple_weaken; [exact (λ _ H, H)|exact (λ _ _ H, H)| |by apply (triple_prim F what f same same p o k a0 o')].
  intros w (fs & Ho & [[n E]|[d E]] & [Hfk Hc]); (split; [|exact Hc]);
    (constructor; [cbn; rewrite E; exact Ho|exact Hfk]).
Qed.

Lemma off_refl p fs : off p fs fs.
Proof. done. Qed.
Lemma off_insert p f fs : off p fs (<[p := f]> fs).
Proof. intros q Hq. by rewrite lookup_insert_ne. Qed.
Lemma off_alter p f fs : off p fs (update p f fs).
Proof. intros q Hq. unfold update. by rewrite lookup_alter_ne. Qed.
Lemma off_delete p fs : off p fs (delete p fs).
Proof. intros q Hq. by rewrite lookup_delete_ne. Qed.
#[local] Hint Resolve off_refl off_insert off_alter off_delete : configd.

Section tmp.
Variables (uid0 gid0 : Z) (p : string) (k : list fact).
Context (F : list Fault → Prop) `{!Course F}.
Hypotheses (p_temps : p ∈ temps) (p_k : Forall (λ qv, qv.1 ≠ p) k).

Definition empty_file : File := {| f_data := ""; f_mode := 384; f_uid := uid0; f_gid := gid0 |}.

Lemma triple_create :
  triple (sta F ((p, None) :: k)) (create uid0 gid0 p) (λ _, sta F ((p, Some empty_file) :: k)) (er ((p, None) :: k)).
Proof.
  eapply triple_weaken; [exact (λ _ H, H)| |exact (λ _ H, H)|apply (triple_prim_same F _ _ p None k tt (Some empty_file))]; try done.
  - by intros a w [_ ?].
  - intros fs ->. eexists. split_and!; [done|auto with configd|apply lookup_insert_eq].
Qed.

Lemma triple_sync q o :
  triple (sta F ((p, o) :: k)) (sync q) (λ _, sta F ((p, o) :: k)) (er ((p, o) :: k)).
Proof.
  eapply triple_weaken; [exact (λ _ H, H)| |exact (λ _ H, H)|apply (triple_prim_same F _ _ p o k tt o)]; try done.
  - by intros a w [_ ?].
  - intros fs Ho. eexists. split_and!; [done|auto with configd|done].
Qed.

Lemma triple_chmod m f :
  triple (sta F ((p, Some f) :: k)) (chmod p m) (λ _, sta F ((p, Some (set_mode (perm_of m) f)) :: k))
    (er ((p, Some f) :: k)).
Proof.
  eapply triple_weaken; [exact (λ _ H, H)| |exact (λ _ H, H)|
    apply (triple_prim_same F _ _ p (Some f) k tt (Some (set_mode (perm_of m) f)))]; try done.
  - by intros a w [_ ?].
  - intros fs Ho. rewrite Ho. eexists. split_and!; [done|auto with configd|].
    unfold update. by rewrite lookup_alter_eq, Ho.
Qed.

Lemma triple_chown uid gid f :
  triple (sta F ((p, Some f) :: k)) (chown p uid gid) (λ _, sta F ((p, Some (set_owner uid gid f)) :: k))
    (er ((p, Some f) :: k)).
Proof.
  eapply triple_weaken; [exact (λ _ H, H)| |exact (λ _ H, H)|
    apply (triple_prim_same F _ _ p (Some f) k tt (Some (set_owner uid gid f)))]; try done.
  - by intros a w [_ ?].
  - intros fs Ho. eexists. split_and!; [done|auto with configd|].
    unfold update. by rewrite lookup_alter_eq, Ho.
Qed.

(** After a failed write or close the temporary file holds something. *)
Definition er_some (w : World) : Prop := ∃ f, er ((p, Some f) :: k) w.

Lemma triple_write data f :
  triple (sta F ((p, Some f) :: k)) (write p data)
    (λ _, sta F ((p, Some (set_data (f_data f +:+ data) f)) :: k)) er_some.
Proof.
  eapply triple_weaken; [exact (λ _ H, H)| | |
    apply (triple_prim F _ _ _ _ p (Some f) k tt (Some (set_data (f_data f +:+ data) f)))];
    try done; auto with configd.
  - by intros a w [_ ?].
  - intros w (fs & Ho & [[n E]|[d E]] & [Hfk Hc]); eexists; (split; [constructor; [|exact Hfk]|exact Hc]);
      cbn; rewrite E; unfold update, same; [by rewrite lookup_alter_eq, Ho|exact Ho].
  - intros fs Ho. eexists. split_and!; [done|auto with configd|].
    unfold update. by rewrite lookup_alter_eq, Ho.
Qed.

Lemma triple_close f :
  triple (sta F ((p, Some f) :: k)) (close p) (λ _, sta F ((p, Some f) :: k)) er_some.
Proof.
  eapply triple_weaken; [exact (λ _ H, H)| | |apply (triple_prim F _ _ _ _ p (Some f) k tt (Some f))];
    try done; auto with configd.
  - by intros a w [_ ?].
  - intros w (fs & Ho & [[n E]|[d E]] & [Hfk Hc]); eexists; (split; [constructor; [|exact Hfk]|exact Hc]);
      cbn; rewrite E; unfold update, same; [exact Ho|by rewrite lookup_alter_eq, Ho].
  - intros fs Ho. eexists. split_and!; [done|auto with configd|done].
Qed.

(** Without losses a failed close leaves the data. *)
Lemma triple_close_kept f :
  no_loss → triple (sta F ((p, Some f) :: k)) (close p) (λ _, sta F ((p, Some f) :: k)) (er ((p, Some f) :: k)).
Proof.
  intros Hnl w Hgood Hst. pose proof (triple_close f w Hgood Hst) as Hc.
  pose proof Hgood as [_ Hloss]. specialize (Hloss Hnl). destruct Hst as [Hfacts Hs].
  unfold close, primitive in *. destruct (next_fault w) as [|exdev n|data] eqn:En.
  - done.
  - destruct Hc as [Hg Hc]. split; [done|]. split; [exact Hfacts|]. destruct Hc as (f' & _ & Hc). exact Hc.
  - exfalso. unfold next_fault in En. destruct (w_faults w) as [|f0 l]; [done|]. cbn in En. subst f0.
    inversion Hloss; subst. done.
Qed.

(** ** Cleaning up *)

(** After the clean-up of a single fault the temporary file is gone. *)
Definition gone (w : World) : Prop := facts k w ∧ (one_fault → calm (w_faults w) ∧ w_fs w !! p = None).

Lemma leaves_remove : leaves er_some (ignore_error (remove p)) gone.
Proof.
  apply leaves_ignore. intros w Hgood (f & Hfacts & Hc). pose proof Hgood as [[Hi _] _]. inversion Hfacts as [|? ? Ho Hfk]; subst. cbn in Ho.
  unfold remove, primitive. rewrite Ho. destruct (next_fault w) as [|exdev n|d] eqn:En.
  - assert (Hg : good (commit (delete p (w_fs w)) w)).
    { apply good_commit; [done|]. eapply Inv_off; [done|done|]. auto with configd. }
    split; [done|]. split; [exact (facts_off p k _ _ p_k (off_delete p _) Hfk)|].
    intros H1. split; [by apply course_tail, Hc|]. cbn. apply lookup_delete_eq.
  - split; [by apply good_commit|]. split; [done|]. intros H1.
    by rewrite (next_fault_calm w (Hc H1)) in En.
  - split; [by apply good_commit|]. split; [done|]. intros H1.
    by rewrite (next_fault_calm w (Hc H1)) in En.
Qed.

Lemma triple_close_calm f : triple (er ((p, Some f) :: k)) (close p) (λ _, er ((p, Some f) :: k)) er_some.
Proof.
  eapply triple_weaken; [exact (λ _ H, H)| | |apply (triple_prim calm _ _ _ _ p (Some f) k tt (Some f))];
    try done; auto with configd.
  - by intros a w [_ ?].
  - intros w (fs & Ho & [[n E]|[d E]] & [Hfk Hc]); eexists; (split; [constructor; [|exact Hfk]|exact Hc]);
      cbn; rewrite E; unfold update, same; [exact Ho|by rewrite lookup_alter_eq, Ho].
  - intros fs Ho. eexists. split_and!; [done|auto with configd|done].
Qed.

Lemma leaves_discard : leaves er_some (discard p) gone.
Proof.
  unfold discard. apply (triple_bind _ _ _ (λ _, er_some)).
  - apply triple_ignore. intros w Hg (f & He). specialize (triple_close_calm f w Hg He) as Hc.
    destruct (close p w) as [[a|e] w']; destruct Hc as [Hg' Hc]; (split; [done|]); [by exists f|done].
  - intros _. apply leaves_remove.
Qed.

Lemma er_some_intro f w : er ((p, Some f) :: k) w → er_some w.
Proof. by exists f. Qed.

Lemma er_none_gone w : er ((p, None) :: k) w → gone w.
Proof. intros [Hf Hc]. inversion Hf; subst. split; [done|]. auto. Qed.

(** ** Publishing *)
Lemma triple_rename d f :
  new = Some f → Forall (λ qv, qv.1 ≠ dest) k →
  triple (sta F ((p, Some f) :: (dest, d) :: k)) (rename p dest)
    (λ _, sta F ((p, None) :: (dest, Some f) :: k)) (er ((p, Some f) :: (dest, d) :: k)).
Proof.
  intros Hn Hk w Hgood [Hfacts Hs]. pose proof Hgood as [[Hi _] _]. inversion Hfacts as [|? ? Ho Hf2]; subst. cbn in Ho.
  inversion Hf2 as [|? ? Hd Hfk]; subst. cbn in Hd. assert (dest ≠ p) as Hne by set_solver.
  unfold rename, primitive. rewrite Ho. destruct (next_fault w) as [|exdev n|data] eqn:En.
  - split.
    + apply good_commit; [done|]. destruct Hi as [_ Hfr]. split; [right; rewrite Hn; split; [done|apply lookup_insert_eq]|].
      intros q Hq Hqt. rewrite lookup_insert_ne, lookup_delete_ne by set_solver. auto.
    + split; [|intros H1; by apply course_tail, Hs].
      constructor; [cbn; rewrite lookup_insert_ne by done; apply lookup_delete_eq|].
      constructor; [apply lookup_insert_eq|].
      apply (facts_off dest k (delete p (w_fs w)) _ Hk (off_insert dest f _)).
      exact (facts_off p k _ _ p_k (off_delete p _) Hfk).
  - split; [by apply good_commit|]. split; [done|]. intros H1. cbn.
    apply (course_fault (F := F)); [by rewrite En|auto].
  - split; [by apply good_commit|]. split; [done|]. intros H1. cbn.
    apply (course_fault (F := F)); [by rewrite En|auto].
Qed.
End tmp.

(** The directory of a file is synchronised without touching any file. *)
Lemma triple_syncDir F `{!Course F} p dir o k :
  p ∈ temps → Forall (λ qv, qv.1 ≠ p) k →
  triple (sta F ((p, o) :: k)) (syncDir dir) (λ _, sta F ((p, o) :: k)) (er ((p, o) :: k)).
Proof.
  intros Hp Hk. unfold syncDir.
  apply (triple_bind _ _ _ (λ _, sta F ((p, o) :: k))).
  { eapply triple_guarded; [by apply triple_sync|apply leaves_ret]. }
  intros _. apply (triple_bind _ _ _ (λ _, sta F ((p, o) :: k))).
  { eapply triple_guarded; [by apply triple_sync|]. apply leaves_ignore.
    by apply (triple_sync p k calm). }
  intros _. eapply triple_guarded; [by apply triple_sync|apply leaves_ret].
Qed.

(** ** AtomicWriteOwned *)
Section atomic.
Variables (uid0 gid0 : Z) (p data : string) (perm uid gid : Z) (d : option File).
Hypotheses (p_temps : p ∈ temps).
Definition written : File := set_owner uid gid (set_mode (perm_of perm) (set_data data (empty_file uid0 gid0))).
Hypothesis new_is : new = Some written.

Lemma dest_not_p : Forall (λ qv : fact, qv.1 ≠ p) [(dest, d)].
Proof. repeat constructor. cbn. set_solver. Qed.

Lemma leaves_er_some_gone k f :
  Forall (λ qv : fact, qv.1 ≠ p) k → leaves (er ((p, Some f) :: k)) (discard p) (gone p k).
Proof.
  intros Hk. eapply triple_weaken; [|exact (λ _ _ H, H)|exact (λ _ H, H)|by apply leaves_discard].
  apply er_some_intro.
Qed.

Lemma leaves_er_some_removed k f :
  Forall (λ qv : fact, qv.1 ≠ p) k →
  leaves (er ((p, Some f) :: k)) (ignore_error (remove p)) (gone p k).
Proof.
  intros Hk. eapply triple_weaken; [|exact (λ _ _ H, H)|exact (λ _ H, H)|by apply leaves_remove].
  apply er_some_intro.
Qed.

(** No error leaves the temporary file behind, when it is the only fault. *)
Definition no_litter (w : World) : Prop := one_fault → w_fs w !! p = None.

Lemma gone_no_litter k w : gone p k w → no_litter w.
Proof. intros [_ H] H1. by apply H. Qed.

Lemma triple_AtomicWriteOwned :
  triple (st [(p, None); (dest, d)]) (AtomicWriteOwned uid0 gid0 dest data perm uid gid p)
    (λ _ w, w_fs w !! p = None ∧ w_fs w !! dest = Some written) no_litter.
Proof.
  pose proof dest_not_p as Hk. set (k := [(dest, d)]) in *.
  set (f0 := empty_file uid0 gid0). set (f1 := set_data data f0). set (f2 := set_mode (perm_of perm) f1).
  unfold AtomicWriteOwned.
  apply (triple_bind _ _ _ (λ _, st ((p, Some f0) :: k))).
  { eapply triple_guarded_then; [by apply (triple_create uid0 gid0 p k single)|apply leaves_ret|].
    intros w Hw. exact (gone_no_litter k w (er_none_gone p k w Hw)). }
  intros _. apply (triple_bind _ _ _ (λ _, st ((p, Some f1) :: k))).
  { eapply triple_guarded_then; [by apply (triple_write p k single)|by apply leaves_discard|apply gone_no_litter]. }
  intros _. apply (triple_bind _ _ _ (λ _, st ((p, Some f1) :: k))).
  { eapply triple_guarded_then; [by apply (triple_sync p k single)|by apply leaves_er_some_gone|apply gone_no_litter]. }
  intros _. apply (triple_bind _ _ _ (λ _, st ((p, Some f2) :: k))).
  { eapply triple_guarded_then; [by apply (triple_chmod p k single)|by apply leaves_er_some_gone|apply gone_no_litter]. }
  intros _. apply (triple_bind _ _ _ (λ _, st ((p, Some written) :: k))).
  { unfold written. destruct ((0 <=? uid) || (0 <=? gid)) eqn:Eo.
    - eapply triple_guarded_then; [by apply (triple_chown p k single)|by apply leaves_er_some_gone|apply gone_no_litter].
    - eapply triple_weaken; [exact (λ _ H, H)| |exact (λ _ H, H)|apply (triple_ret tt)].
      intros [] w [_ Hw]. apply orb_false_iff in Eo as [E1 E2].
      apply Z.leb_gt in E1, E2. apply Z.ltb_lt in E1, E2.
      unfold set_owner. rewrite E1, E2. exact Hw. }
  intros _. apply (triple_bind _ _ _ (λ _, st ((p, Some written) :: k))).
  { eapply triple_guarded_then; [by apply (triple_close p k single)|by apply leaves_remove|apply gone_no_litter]. }
  intros _. apply (triple_bind _ _ _ (λ _, st [(p, None); (dest, Some written)])).
  { eapply triple_guarded_then; [apply (triple_rename p [] single); done|by apply leaves_er_some_removed|apply gone_no_litter]. }
  intros _. eapply triple_weaken; [exact (λ _ H, H)| | |apply (triple_syncDir single p dest None [(dest, Some written)])].
  - intros _ w [Hf _]. by inversion_clear Hf as [|? ? H1 Hf2]; inversion_clear Hf2.
  - intros w Hw. exact (gone_no_litter _ w (er_none_gone p _ w Hw)).
  - done.
  - repeat constructor. cbn. set_solver.
Qed.
End atomic.
End logic.

(** The world a program starts in. *)
Definition start (fs : FileSystem) (faults : list Fault) : World :=
  {| w_fs := fs; w_faults := faults; w_history := [fs] |}.

Lemma good_start dest new temps no_loss fs faults :
  (no_loss → Forall (λ f, ¬ is_loss f) faults) → good fs dest new temps no_loss (start fs faults).
Proof.
  intros Hl. split; [|done]. assert (Inv fs dest new temps fs) as Hi by (split; [by left|done]).
  split; [done|]. by constructor.
Qed.

(** C26: Whatever primitives fail, and however: at every moment of
    [AtomicWriteOwned] the file at the path is the old one, with its old mode and
    owner, or the new one with all its data, its mode and its owner, and no other
    file but the temporary one differs; success means that the new file is there
    and the temporary one is not; and one failure, wherever it strikes, leaves no
    temporary file behind. *)
Theorem AtomicWriteOwned_atomic uid0 gid0 fs path data perm uid gid tmp faults :
  tmp ≠ path → fs !! tmp = None →
  let '(r, w) := AtomicWriteOwned uid0 gid0 path data perm uid gid tmp (start fs faults) in
  let new := {| f_data := data; f_mode := Z.land perm 511;
                f_uid := if uid <? 0 then uid0 else uid; f_gid := if gid <? 0 then gid0 else gid |} in
  Forall (λ fs', (fs' !! path = fs !! path ∨ fs' !! path = Some new) ∧
                 ∀ q, q ≠ path → q ≠ tmp → fs' !! q = fs !! q) (w_history w) ∧
  (r = inl tt → w_fs w !! path = Some new ∧ w_fs w !! tmp = None) ∧
  (single faults → w_fs w !! tmp = None).
Proof.
  intros Hne Hfresh. pose proof (triple_AtomicWriteOwned fs path (Some (written uid0 gid0 data perm uid gid)) {[tmp]}
    ltac:(set_solver) (single faults) False uid0 gid0 tmp data perm uid gid (fs !! path) ltac:(set_solver) eq_refl
    (start fs faults)) as H.
  destruct (AtomicWriteOwned _ _ _ _ _ _ _ _ _) as [r w].
  destruct H as [[[_ Hh] _] Hq].
  - apply good_start. done.
  - split; [|done]. repeat constructor; done.
  - cbn. split_and!.
    + eapply Forall_impl; [exact Hh|]. intros fs' [Hd Ho]. split; [|set_solver].
      destruct Hd as [?|[_ ?]]; [by left|by right].
    + intros ->. destruct Hq as [H1 H2]. done.
    + intros Hs. destruct r as [u|e]; [apply Hq|by apply Hq].
Qed.

(** The write that fails half way, and the one that goes well. *)
Lemma AtomicWriteOwned_atomic_witness :
  let fs := <["/etc/x" := {| f_data := "old"; f_mode := 416; f_uid := 0; f_gid := 0 |}]> ∅ : FileSystem in
  let run faults := AtomicWriteOwned 500 500 "/etc/x" "new" 420 (-1) 7 "/etc/.t" (start fs faults) in
  w_fs (run []).2 !! "/etc/x" = Some {| f_data := "new"; f_mode := 420; f_uid := 500; f_gid := 7 |} ∧
  w_fs (run [NoFault; Fails false 2]).2 !! "/etc/.t" = None ∧
  f_data <$> (w_history (run [NoFault; Fails false 2]).2 !! 2%nat) ≫= (λ fs, fs !! "/etc/.t") = Some "ne".
Proof.
  intros fs run. split_and!.
  - pose proof (AtomicWriteOwned_atomic 500 500 fs "/etc/x" "new" 420 (-1) 7 "/etc/.t" [] ltac:(discriminate) eq_refl) as H.
    fold (run []) in H. assert (Hr : (run []).1 = inl tt) by (vm_compute; reflexivity).
    destruct (run []) as [r w]. cbn in Hr. subst r. destruct H as (_ & H & _). exact (proj1 (H eq_refl)).
  - pose proof (AtomicWriteOwned_atomic 500 500 fs "/etc/x" "new" 420 (-1) 7 "/etc/.t" [NoFault; Fails false 2]
      ltac:(discriminate) eq_refl) as H. fold (run [NoFault; Fails false 2]) in H.
    destruct (run [NoFault; Fails false 2]) as [r w]. destruct H as (_ & _ & H). apply H. constructor.
  - vm_compute. reflexivity.
Defined.
