(* ===== verification/RewriteProps.v ===== *)
(** * RewriteProps: the rewrite of a template is atomic

    [processRewrite] through the program logic of FilesProps: what it publishes,
    when, and what it leaves behind, whatever fails on the way. *)
From S2P Require Import Prelude Config Files FilesProps.
Open Scope Z_scope.

(** What the template becomes: every line transformed, or nothing when a line
    cannot be transformed or is too long. *)
Section render.
Variable Transform : string → string + string.

Fixpoint render_lines (lines : list string) : option string :=
  match lines with
  | [] => Some ""
  | l :: rest =>
      match Transform l with
      | inl t => s ← render_lines rest; Some (line_out t +:+ s)
      | inr _ => None
      end
  end.

Definition render (text : string) : option string :=
  let '(lines, tooLong) := Scan text in
  if tooLong then None else render_lines lines.

(** The file a rewrite publishes. *)
Definition rewritten (uid0 gid0 : Z) (src : option File) (modeStr : string) : option File :=
  s ← src; text ← render (f_data s); mode ← rewriteFileMode modeStr;
  Some {| f_data := text; f_mode := perm_of mode; f_uid := uid0; f_gid := gid0 |}.
End render.

Lemma perm_of_idem m : perm_of (perm_of m) = perm_of m.
Proof. unfold perm_of. by rewrite <- Z.land_assoc. Qed.

Section logic.
Variables (fs0 : FileSystem) (dest : string) (new : option File) (temps : gset string).
Hypothesis dest_temps : dest ∉ temps.
Variables (one_fault no_loss : Prop).

Local Abbreviation triple := (triple fs0 dest new temps no_loss).
Local Abbreviation leaves := (leaves fs0 dest new temps no_loss).
Local Abbreviation good := (good fs0 dest new temps no_loss).
Local Abbreviation sta := (sta one_fault).
Local Abbreviation er := (sta calm).
Local Abbreviation gone := (gone one_fault).

(** ** Queries *)

(** A primitive that leaves the files alone. *)
Lemma triple_query {A} F `{!Course F} what (f : FileSystem → (A * FileSystem) + IOError) k (R : A → Prop) :
  (∀ w, good w → facts k w → ∃ a, f (w_fs w) = inl (a, w_fs w) ∧ R a) →
  triple (sta F k) (primitive what f same same) (λ a w, R a ∧ sta F k w) (er k).
Proof.
  intros Hf w Hgood [Hk Hs]. destruct (Hf w Hgood Hk) as (a & Ef & Ha). pose proof Hgood as [[Hi _] _].
  unfold primitive. destruct (next_fault w) eqn:En; [rewrite Ef|..];
    (split; [by apply good_commit|]); [split; [done|]|..]; (split; [done|]); intros H1; cbn.
  - by apply course_tail, Hs.
  - apply (course_fault (F := F)); [by rewrite En|auto].
  - apply (course_fault (F := F)); [by rewrite En|auto].
Qed.

Lemma triple_read F `{!Course F} q f k :
  (q, Some f) ∈ k → triple (sta F k) (read q) (λ f' w, f' = f ∧ sta F k w) (er k).
Proof.
  intros Hin. apply triple_query; [done|]. intros w _ Hk. exists f. split; [|done].
  assert (w_fs w !! q = Some f) as -> by exact (proj1 (Forall_forall _ _) Hk _ Hin). done.
Qed.

(** A file that is neither temporary nor published yet is as it was. *)
Lemma untouched w k q : good w → facts k w → (dest, fs0 !! dest) ∈ k → q ∉ temps → w_fs w !! q = fs0 !! q.
Proof.
  intros [[[_ Ho] _] _] Hk Hd Hq. destruct (decide (q = dest)) as [->|Hne]; [|by apply Ho].
  exact (proj1 (Forall_forall _ _) Hk _ Hd).
Qed.

Lemma sta_sub F k k' w : (∀ x, x ∈ k' → x ∈ k) → sta F k w → sta F k' w.
Proof.
  intros Hsub [Hk Hs]. split; [|done]. apply Forall_forall. intros x Hx.
  apply (proj1 (Forall_forall _ _) Hk), Hsub, Hx.
Qed.

(** ** The temporary file of the copy *)
Section copy.
Variables (uid0 gid0 : Z) (n : string) (taken : list string).
Hypothesis n_temps : n ∈ temps.
Hypothesis taken_old : Forall (λ q, (q ∉ temps) ∧ is_Some (fs0 !! q)) taken.

Lemma triple_createExclusive F `{!Course F} k rest :
  (dest, fs0 !! dest) ∈ k → Forall (λ qv, qv.1 ≠ n) k →
  triple (sta F ((n, None) :: k)) (createExclusive uid0 gid0 (taken ++ n :: rest))
    (λ p w, p = n ∧ sta F ((n, Some (empty_file uid0 gid0)) :: k) w) (er ((n, None) :: k)).
Proof.
  intros Hd Hk. induction taken_old as [|q l [Hq [f Hf]] Hl IH]; cbn [app createExclusive].
  - intros w Hgood Hst. assert (w_fs w !! n = None) as -> by (destruct Hst as [Hf _]; by inversion Hf).
    refine (triple_bind _ _ _ _ _ _ _ _ _ _ _ (triple_create _ _ _ _ _ _ _ uid0 gid0 n k F n_temps Hk) _ w Hgood Hst); [done|].
    intros [] w' Hg' Hst'. done.
  - intros w Hgood Hst. pose proof Hst as [Hfk Hs]. pose proof Hgood as [[Hi _] _].
    pose proof (untouched w _ q Hgood Hfk ltac:(by right) Hq) as Eq.
    rewrite Hf in Eq. rewrite Eq. destruct (next_fault w) eqn:En.
    + refine (IH Hl _ _ _); [by apply good_commit|]. split; [done|]. intros H1. by apply course_tail, Hs.
    + unfold create, primitive, mbind, IO_bind. rewrite En. split; [by apply good_commit|]. split; [done|].
      intros H1. cbn. apply (course_fault (F := F)); [by rewrite En|auto].
    + unfold create, primitive, mbind, IO_bind. rewrite En. split; [by apply good_commit|]. split; [done|].
      intros H1. cbn. apply (course_fault (F := F)); [by rewrite En|auto].
Qed.

Lemma triple_createExclusiveTemp F `{!Course F} k rest :
  (length taken < 10)%nat → (dest, fs0 !! dest) ∈ k → Forall (λ qv, qv.1 ≠ n) k →
  triple (sta F ((n, None) :: k)) (createExclusiveTemp uid0 gid0 (taken ++ n :: rest))
    (λ p w, p = n ∧ sta F ((n, Some (empty_file uid0 gid0)) :: k) w) (er ((n, None) :: k)).
Proof.
  intros Hlen Hd Hk. unfold createExclusiveTemp.
  replace (take 10 (taken ++ n :: rest)) with (taken ++ n :: take (9 - length taken) rest).
  - by apply triple_createExclusive.
  - rewrite take_app, (take_ge taken) by lia.
    by replace (10 - length taken)%nat with (S (9 - length taken)) by lia.
Qed.

Variables (p : string) (f : File).
Hypotheses (new_is : new = Some f) (n_p : n ≠ p) (dest_p : dest ≠ p).
Hypotheses (f_uid_is : f_uid f = uid0) (f_gid_is : f_gid f = gid0) (f_mode_is : perm_of (f_mode f) = f_mode f).
Hypothesis taken_short : (length taken < 10)%nat.
Let k : list fact := [(dest, fs0 !! dest); (p, Some f)].

Lemma n_k : Forall (λ qv : fact, qv.1 ≠ n) k.
Proof. repeat constructor; cbn; set_solver. Qed.

Lemma er_none_copy w : er ((n, None) :: k) w → gone n k w.
Proof. apply er_none_gone. Qed.

Lemma leaves_copy_discard g : leaves (er ((n, Some g) :: k)) (discard n) (gone n k).
Proof. apply leaves_er_some_gone; [done|done|exact n_k]. Qed.

(** The copy publishes a file equal to its source. *)
Lemma triple_CopyFile rest :
  triple (er ((n, None) :: k)) (CopyFile uid0 gid0 p dest (taken ++ n :: rest))
    (λ _, er [(n, None); (dest, Some f); (p, Some f)]) (gone n k).
Proof.
  pose proof n_k as Hk. set (f0 := empty_file uid0 gid0). set (f1 := set_data (f_data f) f0).
  assert (Hp : ∀ o, (p, Some f) ∈ (n, o) :: k) by (intros o; set_solver).
  unfold CopyFile.
  apply (triple_bind _ _ _ _ _ _ _ _ (λ a w, a = f ∧ er ((n, None) :: k) w)).
  { eapply triple_guarded_then; [apply (triple_read calm p f); apply Hp|apply leaves_ret|apply er_none_copy]. }
  intros source. apply triple_pure. intros ->.
  apply (triple_bind _ _ _ _ _ _ _ _ (λ t w, t = n ∧ er ((n, Some f0) :: k) w)).
  { eapply triple_guarded_then; [apply (triple_createExclusiveTemp calm k rest); [done|set_solver|done]|apply leaves_ret|apply er_none_copy]. }
  intros tmp. apply triple_pure. intros ->.
  apply (triple_bind _ _ _ _ _ _ _ _ (λ _, er ((n, Some f1) :: k))).
  { eapply triple_guarded; [by apply (triple_write _ _ _ _ dest_temps _ _ n k calm)|by apply leaves_discard]. }
  intros _. apply (triple_bind _ _ _ _ _ _ _ _ (λ _, er ((n, Some f1) :: k))).
  { eapply triple_guarded; [by apply (triple_sync _ _ _ _ dest_temps _ _ n k calm)|apply leaves_copy_discard]. }
  intros _. apply (triple_bind _ _ _ _ _ _ _ _ (λ a w, a = f ∧ er ((n, Some f1) :: k) w)).
  { eapply triple_guarded; [apply (triple_read calm p f); apply Hp|apply leaves_copy_discard]. }
  intros srcInfo. apply triple_pure. intros ->.
  assert (Ef : set_mode (perm_of (f_mode f)) f1 = f).
  { unfold f1, f0, set_mode, set_data, empty_file. cbn. rewrite f_mode_is, <- f_uid_is, <- f_gid_is. by destruct f. }
  apply (triple_bind _ _ _ _ _ _ _ _ (λ _, er ((n, Some f) :: k))).
  { eapply triple_guarded; [|apply leaves_copy_discard].
    pose proof (triple_chmod fs0 dest new temps dest_temps one_fault no_loss n k calm n_temps Hk (f_mode f) f1) as Hc.
    rewrite Ef in Hc. exact Hc. }
  intros _. apply (triple_bind _ _ _ _ _ _ _ _ (λ _, er ((n, Some f) :: k))).
  { eapply triple_guarded; [by apply (triple_close _ _ _ _ dest_temps _ _ n k calm)|by apply leaves_discard]. }
  intros _. eapply triple_guarded; [|apply leaves_copy_discard].
  apply (triple_rename fs0 dest new temps dest_temps one_fault no_loss n [(p, Some f)] calm); [done| |done|];
    repeat constructor; cbn; done.
Qed.
End copy.

(** ** The deferred clean-up *)
Section cleanup.
Variables (p : string) (R : World → Prop).
Hypothesis p_temps : p ∈ temps.
Hypothesis R_stable : ∀ w fs, off p (w_fs w) fs → R w → R (commit fs w).

Definition tidy (w : World) : Prop := R w ∧ (one_fault → w_fs w !! p = None ∨ calm (w_faults w)).
Definition tidied (w : World) : Prop := R w ∧ (one_fault → w_fs w !! p = None).

(** A step that touches [p] at most, and does not create it. *)
Lemma tidy_commit w fs :
  good w → tidy w → off p (w_fs w) fs → (w_fs w !! p = None → fs !! p = None) →
  good (commit fs w) ∧ tidy (commit fs w).
Proof.
  intros Hg [HR Ht] Ho Hp. pose proof Hg as [[Hi _] _]. split.
  - apply good_commit; [done|]. by eapply Inv_off.
  - split; [by apply R_stable|]. intros H1. destruct (Ht H1) as [H|H]; [left; auto|right].
    by apply (course_tail (F := calm)).
Qed.

Lemma leaves_close : leaves tidy (close p) tidy.
Proof.
  intros w Hg Ht. unfold close, primitive. destruct (next_fault w) as [| |d].
  - by apply tidy_commit.
  - by apply tidy_commit.
  - apply tidy_commit; [done|done|apply off_alter|].
    intros E. unfold update. by rewrite lookup_alter_eq, E.
Qed.

Lemma triple_stat_exists :
  triple tidy (catch (stat_exists p) (λ _, mret false))
    (λ b w, tidy w ∧ (b = false → one_fault → w_fs w !! p = None)) tidied.
Proof.
  intros w Hg Ht. unfold catch, stat_exists, primitive. destruct (next_fault w) as [| |d] eqn:En.
  - destruct (tidy_commit w (w_fs w) Hg Ht (off_refl _ _) (λ H, H)) as [Hg' Ht'].
    split; [done|]. split; [done|]. intros Hb _. apply bool_decide_eq_false in Hb. by apply eq_None_not_Some.
  - destruct (tidy_commit w (w_fs w) Hg Ht (off_refl _ _) (λ H, H)) as [Hg' Ht'].
    split; [done|]. split; [done|]. intros _ H1. destruct Ht as [_ [H|H]%(λ H, H H1)]; [done|].
    by rewrite (next_fault_calm w H) in En.
  - destruct (tidy_commit w (w_fs w) Hg Ht (off_refl _ _) (λ H, H)) as [Hg' Ht'].
    split; [done|]. split; [done|]. intros _ H1. destruct Ht as [_ [H|H]%(λ H, H H1)]; [done|].
    by rewrite (next_fault_calm w H) in En.
Qed.

Lemma leaves_remove_tidy : leaves tidy (remove p) tidied.
Proof.
  intros w Hg Ht. pose proof Ht as [HR Hp]. pose proof Hg as [[Hi _] _].
  assert (Hsame : next_fault w ≠ NoFault ∨ w_fs w !! p = None → good (commit (w_fs w) w) ∧ tidied (commit (w_fs w) w)).
  { intros Hcase. destruct (tidy_commit w (w_fs w) Hg Ht (off_refl _ _) (λ H, H)) as [Hg' [HR' _]].
    split; [done|]. split; [done|]. intros H1. destruct (Hp H1) as [H|H]; [done|].
    destruct Hcase as [Hc|Hc]; [by destruct (Hc (next_fault_calm w H))|done]. }
  unfold remove, primitive. destruct (next_fault w) eqn:En; [|by apply Hsame; left..].
  destruct (w_fs w !! p) as [f|] eqn:Ep; [|apply Hsame; by right].
  destruct (tidy_commit w (delete p (w_fs w)) Hg Ht (off_delete _ _) (λ _, lookup_delete_eq _ _)) as [Hg' [HR' _]].
  split; [done|]. split; [done|]. intros _. apply lookup_delete_eq.
Qed.

Lemma leaves_cleanup : leaves tidy (cleanupRewriteFiles p) tidied.
Proof.
  unfold cleanupRewriteFiles. apply (triple_bind _ _ _ _ _ _ _ _ (λ _, tidy)).
  { apply triple_ignore, leaves_close. }
  intros _. eapply triple_bind; [apply triple_stat_exists|]. intros [].
  - eapply triple_weaken; [by intros w [Hw _]|exact (λ _ _ H, H)|exact (λ _ H, H)|].
    apply leaves_ignore, leaves_remove_tidy.
  - intros w Hg [[HR _] Hb]. split; [done|]. split; [done|]. by apply Hb.
Qed.

End cleanup.

Definition stable (p : string) (R : World → Prop) : Prop :=
  ∀ w fs, off p (w_fs w) fs → R w → R (commit fs w).

(** A deferred clean-up tidies up after any result. *)
Lemma triple_deferring {A} p (R R' : World → Prop) P (m : IO A) :
  p ∈ temps → stable p R → stable p R' →
  triple P m (λ _, tidy p R) (tidy p R') →
  triple P (deferring m (cleanupRewriteFiles p)) (λ _, tidied p R) (tidied p R').
Proof.
  intros Ht HR HR' Hm w Hg Hp. specialize (Hm w Hg Hp). unfold deferring.
  destruct (m w) as [[a|e] w']; destruct Hm as [Hg' Hq].
  - pose proof (leaves_cleanup p R Ht HR w' Hg' Hq) as Hl. by destruct (cleanupRewriteFiles p w') as [[]].
  - pose proof (leaves_cleanup p R' Ht HR' w' Hg' Hq) as Hl. by destruct (cleanupRewriteFiles p w') as [[]].
Qed.

(** ** The rewrite *)
Section rewrite.
Variables (uid0 gid0 : Z) (p n src modeStr : string) (taken rest : list string).
Variable Transform : string → string + string.
Hypotheses (p_temps : p ∈ temps) (n_temps : n ∈ temps) (n_p : n ≠ p) (src_temps : src ∉ temps).
Hypothesis taken_old : Forall (λ q, (q ∉ temps) ∧ is_Some (fs0 !! q)) taken.
Hypothesis taken_short : (length taken < 10)%nat.
Hypothesis new_is : new = rewritten Transform uid0 gid0 (fs0 !! src) modeStr.
Hypothesis kept : no_loss.
Context (F : list Fault → Prop) `{!Course F}.
(** An error that is no fault is followed by no fault. *)
Hypothesis errors : new = None → ∀ l, F l → calm l.

Let k : list fact := [(dest, fs0 !! dest); (n, None)].
Local Abbreviation er_some := (er_some one_fault p k).
Let f0 : File := empty_file uid0 gid0.

Lemma p_k : Forall (λ qv : fact, qv.1 ≠ p) k.
Proof. repeat constructor; cbn; set_solver. Qed.

Lemma refused f w : new = None → sta F ((p, Some f) :: k) w → er_some w.
Proof. intros Hn [Hk Hs]. exists f. split; [done|]. intros H1. apply errors; auto. Qed.

Lemma triple_read_src f :
  triple (sta F ((p, Some f) :: k)) (read src) (λ s w, fs0 !! src = Some s ∧ sta F ((p, Some f) :: k) w) er_some.
Proof.
  destruct (fs0 !! src) as [s|] eqn:Es.
  - eapply triple_weaken; [exact (λ _ H, H)| | |
      apply (triple_query F "read" _ ((p, Some f) :: k) (λ s', s' = s))].
    + intros a w [-> ?]. done.
    + intros w. apply er_some_intro.
    + intros w Hg Hk. exists s. split; [|done].
      rewrite (untouched w _ src Hg Hk) by (done || set_solver). by rewrite Es.
  - assert (Hn : new = None) by by exact new_is.
    intros w Hg [Hk Hs]. unfold read, primitive. rewrite (untouched w _ src Hg Hk) by (done || set_solver).
    rewrite Es. pose proof Hg as [[Hi _] _].
    assert (good (commit (w_fs w) w) ∧ er_some (commit (w_fs w) w)).
    { split; [by apply good_commit|]. apply (refused f); [done|]. split; [done|]. intros H1. by apply course_tail, Hs. }
    by destruct (next_fault w).
Qed.

Lemma triple_transform_all lines f :
  triple (sta F ((p, Some f) :: k)) (transform_all Transform p lines)
    (λ _ w, ∃ text, render_lines Transform lines = Some text ∧
                    sta F ((p, Some (set_data (f_data f +:+ text) f)) :: k) w)
    (λ w, er_some w ∨ (render_lines Transform lines = None ∧ ∃ f', sta F ((p, Some f') :: k) w)).
Proof.
  revert f. induction lines as [|l lines IH]; intros f; cbn [transform_all render_lines].
  - intros w Hg Hw. split; [done|]. exists "". split; [done|]. rewrite string_app_nil_r. by destruct f.
  - destruct (Transform l) as [t|e]; [|intros w Hg Hw; split; [done|]; right; eauto].
    apply (triple_bind _ _ _ _ _ _ _ _ (λ _, sta F ((p, Some (set_data (f_data f +:+ line_out t) f)) :: k))).
    { eapply triple_guarded_then; [by apply (triple_write _ _ _ _ dest_temps _ _ p k F p_temps p_k)|apply leaves_ret|by left]. }
    intros _. eapply triple_weaken; [exact (λ _ H, H)| | |apply IH].
    + intros _ w (text & -> & Hw). exists (line_out t +:+ text). split; [done|].
      cbn in Hw. by rewrite string_app_assoc in Hw.
    + intros w [?|[-> ?]]; [by left|by right].
Qed.

(** The template rendered into the temporary file. *)
Definition rendered (w : World) : Prop :=
  ∃ s text, fs0 !! src = Some s ∧ render Transform (f_data s) = Some text ∧
    sta F ((p, Some (set_data text f0)) :: k) w.

Lemma new_unrendered s : fs0 !! src = Some s → render Transform (f_data s) = None → new = None.
Proof. intros Hs Hr. rewrite new_is, Hs. cbn. by rewrite Hr. Qed.

Lemma triple_rewriteTransform :
  triple (sta F ((p, Some f0) :: k)) (rewriteTransform Transform src p) (λ _, rendered) er_some.
Proof.
  unfold rewriteTransform. eapply triple_bind.
  { eapply triple_guarded; [apply triple_read_src|apply leaves_ret]. }
  intros s. apply triple_pure. intros Hs. unfold rendered, render in *.
  destruct (Scan (f_data s)) as [lines tooLong] eqn:Escan.
  eapply triple_bind.
  - eapply triple_weaken; [exact (λ _ H, H)|exact (λ _ _ H, H)| |apply triple_transform_all].
    intros w [?|[Hr [f' Hw]]]; [done|]. apply (refused f'); [|done]. apply (new_unrendered s Hs).
    unfold render. rewrite Escan. by destruct tooLong.
  - intros _ w Hg (text & Hr & Hw). destruct tooLong; (split; [done|]).
    + eapply refused; [|exact Hw]. apply (new_unrendered s Hs). unfold render. by rewrite Escan.
    + exists s, text. rewrite Escan. done.
Qed.

(** Closing the temporary file may fail, and keeps what was written. *)
Lemma triple_close_rendered E : triple rendered (ignore_error (close p)) (λ _, rendered) E.
Proof.
  apply triple_ignore. intros w Hg (s & text & Hs & Hr & Hw).
  pose proof (triple_close_kept fs0 dest new temps dest_temps one_fault no_loss p k F p_temps p_k
    (set_data text f0) kept w Hg Hw) as Hc.
  destruct (close p w) as [[u|e] w']; destruct Hc as [Hg' Hc]; (split; [done|]); exists s, text;
    (split_and!; [done|done|]); [done|].
  destruct Hc as [Hk Hcalm]. split; [done|]. intros H1. by apply course_calm, Hcalm.
Qed.

(** ** Committing *)

(** After the commit: the copy's temporary file is not left behind, and either
    the rewrite's own is gone or nothing stops its removal. *)
Definition clean (w : World) : Prop := one_fault → w_fs w !! n = None.
Definition published (w : World) : Prop := (is_Some new ∧ w_fs w !! dest = new) ∧ clean w.

Lemma er_some_tidy w : er_some w → tidy p clean w.
Proof.
  intros (f & Hk & Hc). split; [|auto]. intros _. inversion Hk as [|? ? _ Hk2]; subst.
  inversion Hk2 as [|? ? _ Hk3]; subst. by inversion Hk3.
Qed.

Lemma triple_chmod_dest f m k' :
  set_mode (perm_of m) f = f → (dest, Some f) ∈ k' →
  triple (er k') (chmod dest m) (λ _, er k') (er k').
Proof.
  intros Hm Hin. eapply triple_conseq;
    [apply (triple_query calm "chmod" _ k' (λ _, True))|exact (λ _ H, H)|by intros ? w [_ H]|exact (λ _ H, H)].
  intros w _ Hk. exists tt. split; [|done].
  assert (w_fs w !! dest = Some f) as E by exact (proj1 (Forall_forall _ _) Hk _ Hin).
  rewrite E. unfold update. rewrite alter_id; [done|]. intros x. rewrite E. by intros [= ->].
Qed.

(** The fallback of a rename across file systems. *)
Lemma triple_fallback f m :
  new = Some f → f_uid f = uid0 → f_gid f = gid0 → f_mode f = perm_of m →
  triple (er ((p, Some f) :: k))
    (_ ← guarded (CopyFile uid0 gid0 p dest (taken ++ n :: rest)) ("copy temp to dest " +:+ dest) (mret tt);
     _ ← guarded (chmod dest m) "chmod dest file" (mret tt);
     ignore_error (remove p))
    (λ _, tidy p published) (tidy p clean).
Proof.
  intros Hn Hu Hg Hm. assert (dest ≠ p) as Hdp by set_solver.
  assert (Hm' : set_mode (perm_of m) f = f) by (rewrite <- Hm; by destruct f).
  apply (triple_bind _ _ _ _ _ _ _ _ (λ _, er [(n, None); (dest, Some f); (p, Some f)])).
  { eapply triple_guarded_then; [|apply leaves_ret|].
    - eapply triple_weaken; [|exact (λ _ _ H, H)|exact (λ _ H, H)|
        apply (triple_CopyFile uid0 gid0 n taken n_temps taken_old p f Hn n_p Hdp Hu Hg)];
        [intros w; apply sta_sub; set_solver|by rewrite Hm, perm_of_idem|done].
    - intros w [_ H]. split; [intros H1; by apply H|]. intros H1. right. by apply H. }
  intros _. apply (triple_bind _ _ _ _ _ _ _ _ (λ _, er [(n, None); (dest, Some f); (p, Some f)])).
  { eapply triple_guarded_then; [apply (triple_chmod_dest f); [done|set_solver]|apply leaves_ret|].
    intros w [Hk Hc]. split; [intros _; by inversion Hk|]. auto. }
  intros _. eapply triple_conseq; [apply (leaves_remove fs0 dest new temps dest_temps
    one_fault no_loss p [(dest, Some f); (n, None)] p_temps)|..].
  - repeat constructor; cbn; set_solver.
  - intros w Hw. exists f. revert Hw. apply sta_sub. set_solver.
  - intros _ w [Hk Hp]. inversion Hk as [|? ? Hd Hk2]; subst. inversion Hk2 as [|? ? Hnn _]; subst. cbn in Hd, Hnn.
    split; [|intros H1; left; by apply Hp]. split; [|by intros _]. rewrite Hd, Hn. eauto.
  - intros w [Hk Hp]. inversion Hk as [|? ? _ Hk2]; subst. inversion Hk2 as [|? ? Hnn _]; subst.
    split; [by intros _|]. intros Hone. left. by apply Hp.
Qed.

Lemma triple_rendered {A} (m : IO A) Q E :
  (∀ s text, fs0 !! src = Some s → render Transform (f_data s) = Some text →
     triple (sta F ((p, Some (set_data text f0)) :: k)) m Q E) → triple rendered m Q E.
Proof. intros H w Hg (s & text & Hs & Hr & Hw). exact (H s text Hs Hr w Hg Hw). Qed.

Lemma triple_rewriteAtomicCommit :
  triple rendered (rewriteAtomicCommit uid0 gid0 p dest modeStr (taken ++ n :: rest))
    (λ _, tidy p published) (tidy p clean).
Proof.
  assert (dest ≠ p) as Hdp by set_solver. unfold rewriteAtomicCommit.
  apply triple_rendered. intros s text Hs Hr.
  destruct (rewriteFileMode modeStr) as [m|] eqn:Em.
  - set (f := set_mode (perm_of m) (set_data text f0)).
    assert (Hn : new = Some f) by (rewrite new_is, Hs; cbn; by rewrite Hr, Em).
    apply (triple_bind _ _ _ _ _ _ _ _ (λ _, sta F ((p, Some f) :: k))).
    { eapply triple_guarded_then; [by apply (triple_chmod _ _ _ _ dest_temps _ _ p k F p_temps p_k)|apply leaves_ret|].
      intros w Hw. by eapply er_some_tidy, er_some_intro. }
    intros _. eapply triple_catch.
    + eapply triple_conseq; [apply (triple_rename fs0 dest new temps dest_temps one_fault no_loss p [(n, None)] F p_temps
        ltac:(by repeat constructor) (fs0 !! dest) f Hn)|exact (λ _ H, H)| |exact (λ _ H, H)].
      { repeat constructor; cbn; set_solver. }
      intros _ w [Hk _]. inversion Hk as [|? ? Hp Hk2]; subst. inversion Hk2 as [|? ? Hd Hk3]; subst.
      inversion Hk3 as [|? ? Hnn _]; subst. cbn in Hp, Hd, Hnn.
      split; [|by left]. split; [|by intros _]. rewrite Hd, Hn. eauto.
    + intros e. destruct (ie_exdev e); cbn [negb].
      * by apply triple_fallback.
      * intros w Hg Hw. split; [done|]. by eapply er_some_tidy, er_some_intro.
  - intros w Hg Hw. split; [done|]. eapply er_some_tidy, refused; [|exact Hw].
    rewrite new_is, Hs. cbn. by rewrite Hr, Em.
Qed.

Lemma stable_clean : stable p clean.
Proof. intros w fs Ho Hc H1. cbn. rewrite Ho by done. by apply Hc. Qed.

Lemma stable_published : stable p published.
Proof.
  intros w fs Ho [[Hs Hd] Hc]. split; [|by apply stable_clean]. split; [done|]. cbn.
  rewrite Ho; [done|]. set_solver.
Qed.

Lemma triple_processRewrite cfg filePath entry :
  re_Mode entry = modeStr → dest = BaseDir cfg +:+ "/" +:+ re_Value entry →
  src = TemplatePath cfg filePath →
  triple (sta F ((p, None) :: k)) (processRewrite uid0 gid0 Transform cfg filePath entry p (taken ++ n :: rest))
    (λ _, tidied p published) (tidied p clean).
Proof.
  intros Hm Hd Hs. unfold processRewrite. rewrite <- Hd, <- Hs, Hm.
  apply (triple_bind _ _ _ _ _ _ _ _ (λ _, sta F ((p, Some f0) :: k))).
  { eapply triple_guarded_then; [by apply (triple_create _ _ _ _ dest_temps _ _ uid0 gid0 p k F p_temps p_k)|apply leaves_ret|].
    intros w [Hk _]. inversion Hk as [|? ? Hp Hk2]; subst. inversion Hk2 as [|? ? _ Hk3]; subst.
    inversion Hk3 as [|? ? Hnn _]; subst. split; by intros _. }
  intros _. apply triple_deferring; [done|apply stable_published|apply stable_clean|].
  apply (triple_bind _ _ _ _ _ _ _ _ (λ _, rendered)).
  { eapply triple_guarded_then; [apply triple_rewriteTransform|apply leaves_ret|apply er_some_tidy]. }
  intros _. apply (triple_bind _ _ _ _ _ _ _ _ (λ _, rendered)).
  { apply triple_close_rendered. }
  intros _. eapply triple_guarded; [apply triple_rewriteAtomicCommit|apply leaves_ret].
Qed.
End rewrite.
End logic.

(** ** Runs without faults *)
Definition calmly {A} (fs : FileSystem) (m : IO A) (a : A) (fs' : FileSystem) : Prop :=
  ∀ w, w_fs w = fs → calm (w_faults w) → ∃ w', m w = (inl a, w') ∧ w_fs w' = fs' ∧ calm (w_faults w').

Lemma calmly_primitive {A} what f g h fs (a : A) fs' :
  f fs = inl (a, fs') → calmly fs (primitive what f g h) a fs'.
Proof.
  intros Hf w <- Hc. unfold primitive. rewrite (next_fault_calm w Hc), Hf. eexists. split_and!; [done|done|].
  by apply (course_tail (F := calm)).
Qed.

Lemma calmly_bind {A B} fs (m : IO A) (f : A → IO B) a fs1 b fs2 :
  calmly fs m a fs1 → calmly fs1 (f a) b fs2 → calmly fs (m ≫= f) b fs2.
Proof.
  intros Hm Hf w Hw Hc. destruct (Hm w Hw Hc) as (w1 & E & Hw1 & Hc1). unfold mbind, IO_bind. rewrite E.
  by apply Hf.
Qed.

Lemma calmly_guarded {A} fs (m : IO A) msg c a fs' : calmly fs m a fs' → calmly fs (guarded m msg c) a fs'.
Proof. intros Hm w Hw Hc. destruct (Hm w Hw Hc) as (w1 & E & H1). unfold guarded. rewrite E. eauto. Qed.

Lemma calmly_catch {A} fs (m : IO A) h a fs' : calmly fs m a fs' → calmly fs (catch m h) a fs'.
Proof. intros Hm w Hw Hc. destruct (Hm w Hw Hc) as (w1 & E & H1). unfold catch. rewrite E. eauto. Qed.

Lemma calmly_ignore fs m fs' : calmly fs m tt fs' → calmly fs (ignore_error m) tt fs'.
Proof. intros Hm w Hw Hc. destruct (Hm w Hw Hc) as (w1 & E & H1). unfold ignore_error. rewrite E. eauto. Qed.

Lemma calmly_deferring {A} fs (m : IO A) d a fs1 fs2 :
  calmly fs m a fs1 → calmly fs1 d tt fs2 → calmly fs (deferring m d) a fs2.
Proof.
  intros Hm Hd w Hw Hc. destruct (Hm w Hw Hc) as (w1 & E & Hw1 & Hc1). unfold deferring. rewrite E.
  destruct (Hd w1 Hw1 Hc1) as (w2 & E2 & Hw2). rewrite E2. eauto.
Qed.

Lemma calmly_ret {A} fs (a : A) : calmly fs (mret a) a fs.
Proof. intros w Hw Hc. by exists w. Qed.

(** ** The guarantee of a rewrite *)
Section run.
Variables (uid0 gid0 : Z) (Transform : string → string + string) (tmp : string).

Lemma calmly_transform_all lines text fs f :
  render_lines Transform lines = Some text → fs !! tmp = Some f →
  calmly fs (transform_all Transform tmp lines) tt (<[tmp := set_data (f_data f +:+ text) f]> fs).
Proof.
  revert text fs f. induction lines as [|l lines IH]; cbn [render_lines transform_all]; intros text fs f Hr Hf.
  - simplify_eq. rewrite string_app_nil_r. replace (set_data (f_data f) f) with f by by destruct f.
    rewrite insert_id by done. apply calmly_ret.
  - destruct (Transform l) as [t|e]; [|done].
    destruct (render_lines Transform lines) as [s|]; cbn in Hr; simplify_eq.
    set (f1 := set_data (f_data f +:+ line_out t) f).
    eapply (calmly_bind _ _ _ tt (<[tmp := f1]> fs)).
    + apply calmly_guarded, calmly_primitive. do 2 f_equal. unfold update.
      apply map_eq. intros q. destruct (decide (q = tmp)) as [->|Hne].
      * by rewrite lookup_alter_eq, lookup_insert_eq, Hf.
      * by rewrite lookup_alter_ne, lookup_insert_ne.
    + specialize (IH s (<[tmp := f1]> fs) f1 eq_refl (lookup_insert_eq _ _ _)).
      rewrite insert_insert_eq in IH. cbn in IH. by rewrite string_app_assoc in IH.
Qed.

Lemma alter_insert_file q (g : File → File) f (fs : FileSystem) : update q g (<[q := f]> fs) = <[q := g f]> fs.
Proof.
  apply map_eq. intros r. unfold update. destruct (decide (r = q)) as [->|Hne].
  - by rewrite lookup_alter_eq, !lookup_insert_eq.
  - by rewrite lookup_alter_ne, !lookup_insert_ne.
Qed.

Lemma calmly_cleanup fs : fs !! tmp = None → calmly fs (cleanupRewriteFiles tmp) tt fs.
Proof.
  intros Hn. unfold cleanupRewriteFiles. eapply calmly_bind; [apply calmly_ignore, calmly_primitive; done|].
  eapply (calmly_bind _ _ _ false); [apply calmly_catch, calmly_primitive|apply calmly_ret]. by rewrite Hn.
Qed.

Definition targetPath (cfg : Config) (entry : RewriteEntry) : string := BaseDir cfg +:+ "/" +:+ re_Value entry.

Lemma calmly_processRewrite cfg filePath entry names fs f :
  fs !! tmp = None → TemplatePath cfg filePath ≠ tmp → targetPath cfg entry ≠ tmp →
  rewritten Transform uid0 gid0 (fs !! TemplatePath cfg filePath) (re_Mode entry) = Some f →
  calmly fs (processRewrite uid0 gid0 Transform cfg filePath entry tmp names) tt
    (<[targetPath cfg entry := f]> fs).
Proof.
  intros Hn Hs Hd Hf. unfold rewritten in Hf. destruct (fs !! TemplatePath cfg filePath) as [s|] eqn:Es; [|done].
  cbn in Hf. destruct (render Transform (f_data s)) as [text|] eqn:Er; [|done].
  destruct (rewriteFileMode (re_Mode entry)) as [m|] eqn:Em; [|done]. cbn in Hf.
  unfold render in Er. destruct (Scan (f_data s)) as [lines tooLong] eqn:Escan. destruct tooLong; [done|].
  set (f0 := empty_file uid0 gid0). set (f1 := set_data text f0).
  unfold processRewrite. fold (targetPath cfg entry).
  apply (calmly_bind _ _ _ tt (<[tmp := f0]> fs)).
  { apply calmly_guarded, calmly_primitive. by rewrite Hn. }
  eapply calmly_deferring; [|apply calmly_cleanup].
  - apply (calmly_bind _ _ _ tt (<[tmp := f1]> fs)).
    { apply calmly_guarded. eapply (calmly_bind _ _ _ s).
      - apply calmly_guarded, calmly_primitive. by rewrite lookup_insert_ne, Es.
      - rewrite Escan. eapply (calmly_bind _ _ _ tt); [|apply calmly_ret].
        pose proof (calmly_transform_all lines text (<[tmp := f0]> fs) f0 Er (lookup_insert_eq _ _ _)) as H.
        by rewrite insert_insert_eq in H. }
    apply (calmly_bind _ _ _ tt (<[tmp := f1]> fs)); [apply calmly_ignore, calmly_primitive; done|].
    apply calmly_guarded. unfold rewriteAtomicCommit. rewrite Em.
    apply (calmly_bind _ _ _ tt (<[tmp := f]> fs)).
    { apply calmly_guarded, calmly_primitive. rewrite lookup_insert_eq, alter_insert_file. by simplify_eq. }
    apply calmly_catch, (calmly_primitive _ _ _ _ _ tt (<[targetPath cfg entry := f]> fs)).
    rewrite lookup_insert_eq, delete_insert_id by done. done.
  - by rewrite lookup_insert_ne.
Qed.
End run.

(** What a rewrite does to the file system, whatever primitives fail. *)
Lemma processRewrite_spec uid0 gid0 Transform cfg filePath entry tmp n taken rest fs faults :
  tmp ≠ targetPath cfg entry → n ≠ targetPath cfg entry → n ≠ tmp →
  TemplatePath cfg filePath ≠ tmp → TemplatePath cfg filePath ≠ n →
  fs !! tmp = None → fs !! n = None →
  Forall (λ q, is_Some (fs !! q)) taken → (length taken < 10)%nat →
  Forall (λ f, ¬ is_loss f) faults →
  let '(r, w) := processRewrite uid0 gid0 Transform cfg filePath entry tmp (taken ++ n :: rest) (start fs faults) in
  let new := rewritten Transform uid0 gid0 (fs !! TemplatePath cfg filePath) (re_Mode entry) in
  Forall (λ fs', (fs' !! targetPath cfg entry = fs !! targetPath cfg entry ∨
                  is_Some new ∧ fs' !! targetPath cfg entry = new) ∧
                 ∀ q, q ≠ targetPath cfg entry → q ≠ tmp → q ≠ n → fs' !! q = fs !! q) (w_history w) ∧
  (r = inl tt → is_Some new ∧ w_fs w !! targetPath cfg entry = new) ∧
  (is_Some new ∧ single faults ∨ calm faults → w_fs w !! tmp = None ∧ w_fs w !! n = None) ∧
  (calm faults → r = inl tt ↔ is_Some new) ∧
  (∀ q, q ≠ targetPath cfg entry → q ≠ tmp → q ≠ n → w_fs w !! q = fs !! q).
Proof.
  intros Ht Hn Hnt Hst Hsn Hft Hfn Htaken Hlen Hloss.
  remember (targetPath cfg entry) as dest eqn:Edest. remember (TemplatePath cfg filePath) as src eqn:Esrc.
  remember (rewritten Transform uid0 gid0 (fs !! src) (re_Mode entry)) as new eqn:Enew.
  assert (Hcalm : calm faults → is_Some new →
    (processRewrite uid0 gid0 Transform cfg filePath entry tmp (taken ++ n :: rest) (start fs faults)).1 = inl tt).
  { intros Hc [f Hf]. destruct (calmly_processRewrite uid0 gid0 Transform tmp cfg filePath entry (taken ++ n :: rest) fs f)
      with (w := start fs faults) as (w' & -> & _); subst; auto. }
  assert (Htemps : (dest ∉ ({[tmp; n]} : gset string)) ∧ (src ∉ ({[tmp; n]} : gset string))) by set_solver.
  destruct Htemps as [Hdt Hst'].
  assert (Htaken' : Forall (λ q, (q ∉ ({[tmp; n]} : gset string)) ∧ is_Some (fs !! q)) taken).
  { eapply Forall_impl; [exact Htaken|]. intros q Hq. split; [|done]. intros Hin.
    assert (q = tmp ∨ q = n) as [->| ->] by set_solver; [rewrite Hft in Hq|rewrite Hfn in Hq]; by destruct Hq. }
  assert (Hrun : ∀ F (HF : Course F), (new = None → ∀ l, F l → calm l) →
    let '(r, w) := processRewrite uid0 gid0 Transform cfg filePath entry tmp (taken ++ n :: rest) (start fs faults) in
    good fs dest new {[tmp; n]} True w ∧
    match r with
    | inl _ => tidied (F faults) tmp (published dest new (F faults) n) w
    | inr _ => tidied (F faults) tmp (clean (F faults) n) w
    end).
  { intros F HF Herr.
    pose proof (triple_processRewrite fs dest new {[tmp; n]} Hdt (F faults) True uid0 gid0 tmp n src (re_Mode entry)
      taken rest Transform ltac:(set_solver) ltac:(set_solver) Hnt Hst' Htaken' Hlen Enew I F Herr
      cfg filePath entry eq_refl Edest Esrc (start fs faults)) as H.
    destruct (processRewrite _ _ _ _ _ _ _ _ _) as [r w]. apply H.
    - by apply good_start.
    - split; [|done]. repeat constructor; done. }
  pose proof (Hrun calm _ (λ _ _ H, H)) as Hc. pose proof (λ H, Hrun single _ H) as Hs. clear Hrun.
  destruct (processRewrite _ _ _ _ _ _ _ _ _) as [r w]. destruct Hc as [[[[Hfin Hfo] Hh] _] Hc]. split_and!.
  - eapply Forall_impl; [exact Hh|]. intros fs' [Hd Ho]. split; [done|]. set_solver.
  - intros ->. by destruct Hc as [[Hp _] _].
  - intros [[Hsome Hsg]|Hcm].
    + destruct Hs as [_ Hs]; [intros E; by destruct Hsome as [? Hx]; rewrite E in Hx|].
      destruct r as [u|e]; destruct Hs as [Hcl Htmp]; (split; [by apply Htmp|]); [by apply Hcl|by apply Hcl].
    + destruct r as [u|e]; destruct Hc as [Hcl Htmp]; (split; [by apply Htmp|]); [by apply Hcl|by apply Hcl].
  - intros Hcm. split; [|by apply Hcalm]. intros ->. by destruct Hc as [[[Hp _] _] _].
  - intros q H1 H2 H3. apply Hfo; [done|set_solver].
Qed.



(** The data a failed close loses is published all the same, and the rewrite
    reports success: the hypothesis on losses cannot be dropped. *)
Example processRewrite_lost_close :
  let cfg := NewConfigWithHostname "/b" "h" in
  let fs := <["/b/conf/x.in" := {| f_data := "line"; f_mode := 288; f_uid := 0; f_gid := 0 |}]> ∅ : FileSystem in
  let '(r, w) := processRewrite 500 500 inl cfg "conf/x.in" {| re_Value := "conf/x"; re_Mode := "" |} "/b/conf/.t" []
    (start fs (replicate 3 NoFault ++ [Loses ""])) in
  r = inl tt ∧ f_data <$> w_fs w !! "/b/conf/x" = Some "".
Proof. vm_compute. split; reflexivity. Qed.
