(* ===== verification/Text.v ===== *)
(** * Text: facts about trimming, splitting and joining lines

    Shared by the components that read and write text line by line. *)
From S2P Require Import Prelude.

(** ** Trimming *)
Lemma trim_right_app s t :
  trim_right (s +:+ t) = if String.eqb (trim_right t) "" then trim_right s else s +:+ trim_right t.
Proof.
  induction s as [|c s IH].
  - rewrite string_app_nil_l. destruct (String.eqb_spec (trim_right t) "") as [E|E]; [by rewrite E|by rewrite string_app_nil_l].
  - rewrite string_app_cons. cbn [trim_right]. rewrite IH. destruct (String.eqb_spec (trim_right t) "") as [E|E]; [done|].
    destruct (s +:+ trim_right t) as [|x r] eqn:Es; [|by rewrite string_app_cons, Es]. exfalso. apply E.
    destruct s; [by rewrite string_app_nil_l in Es|done].
Qed.

Lemma trim_right_cons c s :
  trim_right (String c s) = if String.eqb (trim_right s) "" && IsSpace c then "" else String c (trim_right s).
Proof. cbn [trim_right]. destruct (trim_right s); cbn; by destruct (IsSpace c). Qed.

Lemma trim_right_idem s : trim_right (trim_right s) = trim_right s.
Proof.
  induction s as [|c s IH]; [done|]. rewrite trim_right_cons. destruct (String.eqb (trim_right s) "" && IsSpace c) eqn:E; [done|].
  rewrite trim_right_cons, IH, E. done.
Qed.

Lemma trim_left_idem s : trim_left (trim_left s) = trim_left s.
Proof. induction s as [|c s IH]; [done|]. cbn [trim_left]. destruct (IsSpace c) eqn:E; [done|]. cbn [trim_left]. by rewrite E. Qed.

Lemma trim_left_blank s : trim_right s = "" → trim_left s = "".
Proof.
  induction s as [|c s IH]; [done|]. rewrite trim_right_cons. destruct (String.eqb_spec (trim_right s) "") as [E|]; [|done].
  cbn [andb trim_left]. destruct (IsSpace c); [auto|done].
Qed.

Lemma TrimSpace_left s : TrimSpace (trim_left s) = TrimSpace s.
Proof. unfold TrimSpace. by rewrite trim_left_idem. Qed.

Lemma TrimSpace_right s : TrimSpace (trim_right s) = TrimSpace s.
Proof.
  unfold TrimSpace. induction s as [|c s IH]; [done|]. rewrite trim_right_cons. cbn [trim_left].
  destruct (String.eqb_spec (trim_right s) "") as [E|E]; cbn [andb].
  - destruct (IsSpace c) eqn:Ec.
    + by rewrite (trim_left_blank s E).
    + cbn [trim_left]. rewrite Ec, !trim_right_cons, trim_right_idem. done.
  - destruct (IsSpace c) eqn:Ec; cbn [trim_left]; rewrite Ec; [done|]. by rewrite !trim_right_cons, trim_right_idem.
Qed.

Lemma TrimSpace_cons c s : IsSpace c = true → TrimSpace (String c s) = TrimSpace s.
Proof. intros H. unfold TrimSpace. cbn [trim_left]. by rewrite H. Qed.

Lemma TrimSpace_snoc s c : IsSpace c = true → TrimSpace (s +:+ String c "") = TrimSpace s.
Proof.
  intros H. rewrite <- TrimSpace_right, trim_right_app. cbn [trim_right]. rewrite H. cbn. apply TrimSpace_right.
Qed.

Lemma blank_TrimSpace s : trim_right s = "" → TrimSpace s = "".
Proof. intros H. unfold TrimSpace. by rewrite trim_left_blank. Qed.

(** ** Splitting into lines *)
Lemma SplitByte_app sep s rest :
  chars (λ c, negb (Ascii.eqb c sep)) s → SplitByte sep (s +:+ String sep rest) = s :: SplitByte sep rest.
Proof.
  induction s as [|c s IH]; intros H.
  - rewrite string_app_nil_l. cbn [SplitByte]. by rewrite Ascii.eqb_refl.
  - cbn [chars] in H. apply andb_True in H as [Hc H]. rewrite string_app_cons. cbn [SplitByte].
    destruct (Ascii.eqb c sep); [done|]. by rewrite IH.
Qed.

Lemma SplitByte_one sep s : SplitByte sep s = [""] → s = "".
Proof.
  destruct s as [|c s]; [done|]. cbn [SplitByte]. destruct (Ascii.eqb c sep).
  - destruct s as [|c' s]; [done|]. cbn [SplitByte]. destruct (Ascii.eqb c' sep); [done|]. by destruct (SplitByte sep s).
  - by destruct (SplitByte sep s).
Qed.

(** Trimming the end of a text trims its last line and drops blank ones after it. *)
Lemma SplitByte_trim_right sep s :
  IsSpace sep = true →
  ∃ pre last blanks, SplitByte sep s = pre ++ last :: blanks ∧ SplitByte sep (trim_right s) = pre ++ [trim_right last] ∧
    Forall (λ b, trim_right b = "") blanks.
Proof.
  intros Hsep. induction s as [|c s (pre & last & blanks & E1 & E2 & Hb)]; [by exists [], "", []|].
  rewrite trim_right_cons. destruct (String.eqb_spec (trim_right s) "") as [Et|Et].
  - rewrite Et in E2. destruct pre as [|x pre]; [|by destruct pre]. cbn in E2. injection E2 as El.
    cbn [SplitByte andb app] in *. rewrite E1. destruct (Ascii.eqb_spec c sep) as [->|Hne].
    + rewrite Hsep. exists [], "", (last :: blanks). split_and!; [done|done|]. constructor; [by symmetry|done].
    + exists [], (String c last), blanks. split_and!; [done| |done]. rewrite trim_right_cons, <- El. cbn [String.eqb andb app].
      destruct (IsSpace c); [done|]. rewrite Et. cbn [SplitByte]. by destruct (Ascii.eqb_spec c sep).
  - cbn [andb SplitByte]. rewrite E1, E2. destruct (Ascii.eqb_spec c sep) as [->|Hne].
    + by exists ("" :: pre), last, blanks.
    + destruct pre as [|x pre].
      * exists [], (String c last), blanks. split_and!; [done| |done]. cbn [app]. rewrite trim_right_cons.
        destruct (String.eqb_spec (trim_right last) "") as [El|El]; [|done]. exfalso. apply Et.
        apply (SplitByte_one sep). rewrite E2. cbn. by rewrite El.
      * by exists (String c x :: pre), last, blanks.
Qed.

Lemma CutByte_trim sep s a b :
  IsSpace sep = false → CutByte sep s = Some (a, b) → CutByte sep (TrimSpace s) = Some (trim_left a, trim_right b).
Proof.
  intros Hsep H. assert (Hl : CutByte sep (trim_left s) = Some (trim_left a, b)).
  { revert a H. induction s as [|c s IH]; intros a H; [done|]. cbn [CutByte trim_left] in *.
    destruct (Ascii.eqb_spec c sep) as [->|Hne].
    - injection H as <- <-. rewrite Hsep. cbn [CutByte]. by rewrite Ascii.eqb_refl.
    - destruct (CutByte sep s) as [[a' b']|] eqn:E; [|done]. cbn in H. injection H as <- <-. cbn [trim_left].
      destruct (IsSpace c); [by apply IH|]. cbn [CutByte]. destruct (Ascii.eqb_spec c sep); [done|]. by rewrite E. }
  unfold TrimSpace. revert Hl. generalize (trim_left s) (trim_left a). clear H s a. intros s.
  induction s as [|c s IH]; intros a H; [done|]. cbn [CutByte] in H. rewrite trim_right_cons.
  destruct (Ascii.eqb_spec c sep) as [->|Hne].
  - injection H as <- <-. rewrite Hsep, andb_false_r. cbn [CutByte]. by rewrite Ascii.eqb_refl.
  - destruct (CutByte sep s) as [[a' b']|]; [|done]. cbn in H. injection H as <- <-.
    specialize (IH a' eq_refl). destruct (String.eqb_spec (trim_right s) "") as [E|E]; [by rewrite E in IH|].
    cbn [andb CutByte]. destruct (Ascii.eqb_spec c sep); [done|]. by rewrite IH.
Qed.

(** ** Characters *)
Lemma chars_impl (P Q : ascii → bool) s : (∀ c, P c → Q c) → chars P s → chars Q s.
Proof. intros H. induction s as [|c s IH]; [done|]. cbn [chars]. rewrite !andb_True. naive_solver. Qed.

Lemma chars_trim_right P s : chars P s → chars P (trim_right s).
Proof.
  induction s as [|c s IH]; [done|]. rewrite trim_right_cons. cbn [chars]. intros [Hc Hs]%andb_True.
  destruct (_ && _); [done|]. cbn [chars]. apply andb_True. auto.
Qed.

Lemma chars_trim_left P s : chars P s → chars P (trim_left s).
Proof.
  induction s as [|c s IH]; [done|]. cbn [trim_left]. intros H. destruct (IsSpace c); [|done].
  cbn [chars] in H. apply andb_True in H as [_ H]. auto.
Qed.

Lemma chars_TrimSpace P s : chars P s → chars P (TrimSpace s).
Proof. intros H. by apply chars_trim_right, chars_trim_left. Qed.

Lemma chars_Join P l sep : Forall (λ s, Is_true (chars P s)) l → chars P sep → chars P (Join l sep).
Proof.
  intros H Hs. induction H as [|x l Hx Hl IH]; [done|]. destruct l as [|y l]; [done|].
  change (Join (x :: y :: l) sep) with (x +:+ sep +:+ Join (y :: l) sep). by rewrite !chars_app, !andb_True.
Qed.

Lemma SplitByte_chars sep s : Forall (λ l, Is_true (chars (λ c, negb (Ascii.eqb c sep)) l)) (SplitByte sep s).
Proof.
  induction s as [|c s IH]; [by repeat constructor|]. cbn [SplitByte]. destruct (Ascii.eqb c sep) eqn:E; [by constructor|].
  destruct (SplitByte sep s) as [|x l].
  - constructor; [|done]. cbn. by rewrite E.
  - apply Forall_cons in IH as [Hx Hl]. constructor; [|done]. cbn [chars]. rewrite E. done.
Qed.

Lemma Contains_byte c s : chars (λ x, negb (Ascii.eqb x c)) s → Contains s (String c "") = false.
Proof.
  induction s as [|x s IH]; intros H; [done|]. cbn [chars] in H. apply andb_True in H as [Hx H].
  cbn [Contains String.prefix]. rewrite IH by done. rewrite orb_false_r.
  destruct (ascii_dec c x) as [->|]; [by rewrite Ascii.eqb_refl in Hx|done].
Qed.

Lemma SplitByte_line sep s : chars (λ c, negb (Ascii.eqb c sep)) s → SplitByte sep s = [s].
Proof.
  induction s as [|c s IH]; intros H; [done|]. cbn [chars] in H. apply andb_True in H as [Hc H].
  cbn [SplitByte]. destruct (Ascii.eqb c sep); [done|]. by rewrite IH.
Qed.

Lemma SplitByte_Join sep l :
  l ≠ [] → Forall (λ s, Is_true (chars (λ c, negb (Ascii.eqb c sep)) s)) l → SplitByte sep (Join l (String sep "")) = l.
Proof.
  intros Hl H. induction H as [|x l Hx H IH]; [done|]. destruct l as [|y l]; [by apply SplitByte_line|].
  change (Join (x :: y :: l) (String sep "")) with (x +:+ String sep "" +:+ Join (y :: l) (String sep "")).
  rewrite string_app_cons, string_app_nil_l, SplitByte_app by done. f_equal. by apply IH.
Qed.

Lemma SplitByte_cons sep s : ∃ x l, SplitByte sep s = x :: l.
Proof.
  destruct s as [|c s]; [by eexists _, _|]. cbn. destruct (Ascii.eqb c sep); [by eexists _, _|].
  destruct (SplitByte sep s); by eexists _, _.
Qed.
