(* ===== verification/Transformer.v ===== *)
(** * Transformer: internal/transformer

    The rendering of one template line (transformer.go) and its directives
    (directives.go).  The lookup interface is a parameter; the text of the number
    that the range directive computes in floating point is another.  The regular
    expressions are written out as the scanners they are. *)
From stdpp Require Import pretty.
From S2P Require Import Prelude Config.
Open Scope Z_scope.

(** ** Scanning for markers *)

Definition percent : ascii := "%".
Definition at_sign : ascii := "@".

(** The text up to the first [d], and the rest from there. *)
Fixpoint span_not (d : ascii) (s : string) : string * string :=
  match s with
  | EmptyString => ("", "")
  | String c s' => if Ascii.eqb c d then ("", s) else let '(a, b) := span_not d s' in (String c a, b)
  end.

Definition double (d : ascii) : string := String d (String d "").

(** The content of the marker [s] begins with: two [d], something without [d], two [d]. *)
Definition mark_at (d : ascii) (s : string) : option string :=
  if HasPrefix s (double d) then
    let '(content, rest) := span_not d (drop_string 2 s) in
    if negb (String.eqb content "") && HasPrefix rest (double d) then Some content else None
  else None.

Inductive Piece := Lit (c : ascii) | Mark (content : string).

Definition mark_text (d : ascii) (content : string) : string := double d +:+ content +:+ double d.

(** The matches, leftmost first, of the markers whose content satisfies [ok]. *)
Fixpoint pieces_go (d : ascii) (ok : string → bool) (skip : nat) (s : string) : list Piece :=
  match s with
  | EmptyString => []
  | String c s' =>
      match skip with
      | S n => pieces_go d ok n s'
      | O =>
          match mark_at d s with
          | Some content =>
              if ok content then Mark content :: pieces_go d ok (String.length content + 3)%nat s'
              else Lit c :: pieces_go d ok 0%nat s'
          | None => Lit c :: pieces_go d ok 0%nat s'
          end
      end
  end.

Definition pieces (d : ascii) (ok : string → bool) (s : string) : list Piece := pieces_go d ok 0 s.

Inductive TransformError :=
  | NotMatchedOnce (sr : string) | NotSet (sr cmd key : string) | NotIntegers (sr : string)
  | MissingTypeKey (sr : string) | NotTypeKey (sr field : string) | MissingSeparator (sr : string)
  | MissingSearch (sr : string) | LocalNotSet (fn key : string) | EmptyValue (key : string).

Abbreviation Result := (string + TransformError)%type.

(** [replaceAll]: the first error stops the replacement. *)
Fixpoint replace_pieces (d : ascii) (fn : string → Result) (l : list Piece) : Result :=
  match l with
  | [] => inl ""
  | Lit c :: l => match replace_pieces d fn l with inl s => inl (String c s) | inr e => inr e end
  | Mark content :: l =>
      match fn (mark_text d content) with
      | inr e => inr e
      | inl t => match replace_pieces d fn l with inl s => inl (t +:+ s) | inr e => inr e end
      end
  end.

Definition replaceAll (d : ascii) (ok : string → bool) (src : string) (fn : string → Result) : Result :=
  replace_pieces d fn (pieces d ok src).

(** The contents of [localConfigRe] and [inlineDirectRe], [plainVarRe] and
    [configVarRe]. *)
Definition any_content (_ : string) : bool := true.
Definition plain_content (c : string) : bool := negb (Contains c ":").
Definition typed_content (c : string) : bool :=
  match CutByte ":" c with
  | Some (ty, key) => bool_decide (ty ∈ ["VAR"; "LOCAL"; "SERVICE"]) && negb (String.eqb key "")
  | None => false
  end.

(** ** Small functions of the standard library *)

(** [strings.Trim s d] for a one-byte cutset *)
Fixpoint trim_left_byte (d : ascii) (s : string) : string :=
  match s with
  | String c s' => if Ascii.eqb c d then trim_left_byte d s' else s
  | EmptyString => ""
  end.
Fixpoint trim_right_byte (d : ascii) (s : string) : string :=
  match s with
  | EmptyString => ""
  | String c s' =>
      match trim_right_byte d s' with
      | EmptyString => if Ascii.eqb c d then "" else String c ""
      | t => String c t
      end
  end.
Definition TrimByte (d : ascii) (s : string) : string := trim_right_byte d (trim_left_byte d s).

Fixpoint count_byte (d : ascii) (s : string) : nat :=
  match s with
  | EmptyString => 0
  | String c s => (if Ascii.eqb c d then 1 else 0) + count_byte d s
  end%nat.

(** [strings.SplitN s sep n], [n > 0] *)
Fixpoint SplitN (n : nat) (sep : ascii) (s : string) : list string :=
  match n with
  | S (S _ as n) => match CutByte sep s with Some (a, b) => a :: SplitN n sep b | None => [s] end
  | _ => [s]
  end.

(** [strings.TrimLeft s " \t"] *)
Fixpoint trim_indent (s : string) : string :=
  match s with
  | String c s' => if Ascii.eqb c space || Ascii.eqb c tab then trim_indent s' else s
  | EmptyString => ""
  end.

Definition TrimSuffix (s suf : string) : string :=
  if HasSuffix s suf then take_string (String.length s - String.length suf) s else s.

(** The position of the first [sub]: the text before it. *)
Fixpoint before_sub (sub s : string) : option string :=
  if HasPrefix s sub then Some "" else
  match s with EmptyString => None | String c s' => String c <$> before_sub sub s' end.

(** *** The directives' patterns *)

(** [\s] and [\w] *)
Definition re_space (c : ascii) : bool := in_range 9 10 c || in_range 12 13 c || (byte c =? 32)%N.
Definition re_word (c : ascii) : bool := in_range 48 57 c || in_range 65 90 c || in_range 97 122 c || (byte c =? 95)%N.

(** The longest prefix of characters of [P], and the rest. *)
Fixpoint span (P : ascii → bool) (s : string) : string * string :=
  match s with
  | EmptyString => ("", "")
  | String c s' => if P c then let '(a, b) := span P s' in (String c a, b) else ("", s)
  end.

Definition nonempty (x : string * string) : option (string * string) :=
  if String.eqb x.1 "" then None else Some x.

(** [([^:]+):(\S+)] at the beginning of [s] *)
Definition re_type_key (s : string) : option (list string * string) :=
  '(ty, rest) ← CutByte ":" s;
  if String.eqb ty "" then None else
  '(key, rest) ← nonempty (span (λ c, negb (re_space c)) rest);
  Some ([ty; key], rest).

(** [\s+(\S+)] after the groups so far *)
Definition re_field (x : list string * string) : option (list string * string) :=
  '(_, rest) ← nonempty (span re_space x.2);
  '(f, rest) ← nonempty (span (λ c, negb (re_space c)) rest);
  Some (x.1 ++ [f], rest).

(** [explodeRe]: any text, a space, a type, a colon and a word; the last space that
    lets the rest match. *)
Fixpoint re_explode (s : string) : option (list string * string) :=
  match s with
  | EmptyString => None
  | String c s' =>
      if Ascii.eqb c newline then None else
      match re_explode s' with
      | Some (base :: groups, rest) => Some (String c base :: groups, rest)
      | Some ([], _) => None
      | None =>
          if negb (Ascii.eqb c space) then None
          else ('(ty, rest) ← CutByte ":" s';
                if String.eqb ty "" then None
                else '(key, rest) ← nonempty (span re_word rest); Some ([""; ty; key], rest))
      end
  end.

(** The pattern of each directive after its name and a space. *)
Inductive Pattern := TypeKey (name : string) | Range | Freq | Explode.

Definition pattern_name (p : Pattern) : string :=
  match p with TypeKey name => name | Range => "range" | Freq => "freq" | Explode => "explode" end.

Definition match_pattern (p : Pattern) (s : string) : option (list string * string) :=
  let '(rest, found) := CutPrefix s (pattern_name p +:+ " ") in
  if negb found then None else
  match p with
  | TypeKey _ => re_type_key rest
  | Range => x ← re_type_key rest; y ← re_field x; re_field y
  | Freq => x ← re_type_key rest; re_field x
  | Explode => re_explode rest
  end.

(** [FindAllStringSubmatch]: the groups of every match; [skip] as in [pieces_go]. *)
Fixpoint find_all (p : Pattern) (skip : nat) (s : string) : list (list string) :=
  match s with
  | EmptyString => []
  | String _ s' =>
      match skip with
      | S n => find_all p n s'
      | O => match match_pattern p s with
             | Some (groups, rest) => groups :: find_all p (String.length s' - String.length rest)%nat s'
             | None => find_all p 0%nat s'
             end
      end
  end.

Definition findOne (p : Pattern) (sr : string) : list string + TransformError :=
  match find_all p 0 sr with [groups] => inl groups | _ => inr (NotMatchedOnce sr) end.

(** ** directives.go *)
Definition atoiPy (s : string) : option Z := Atoi (TrimSpace s).

Definition floorDiv (a b : Z) : Z :=
  let q := wrap64 (Z.quot a b) in
  if negb (Z.rem a b =? 0) && negb (Bool.eqb (a <? 0) (b <? 0)) then q - 1 else q.

Fixpoint filter_string (P : ascii → bool) (s : string) : string :=
  match s with EmptyString => "" | String c s => if P c then String c (filter_string P s) else filter_string P s end.

Definition is_digit (c : ascii) : bool := in_range 48 57 c.

Definition splitTypeKey (sr field : string) : (string * string) + TransformError :=
  match SplitByte ":" field with [ty; key] => inl (ty, key) | _ => inr (NotTypeKey sr field) end.

Section lookup.
(** [LookUpConfig]: [None] is an error of any kind. *)
Variable LookUpConfig : string → string → option string.
(** [pyStrFloat] of [val / 100.00 * span + lo] *)
Variable pyRange : Z → Z → Z → string.
Definition resolveCommentState (p : Pattern) (sr : string) (isComment : bool) : Result :=
  match findOne p sr with
  | inr e => inr e
  | inl groups =>
      let cmd := nth 0 groups "" in
      let parts := SplitN 3 "," (nth 1 groups "") in
      let key := nth 0 parts "" in
      let commentStr := nth 1 parts "#" in
      let negate := HasPrefix key "!" in
      let found := LookUpConfig cmd (TrimPrefix key "!") in
      let lookupVal := default "" found in
      let hit := match nth_error parts 2 with
                 | Some values =>
                     negb negate && match found with
                                    | None => true
                                    | Some v => existsb (String.eqb v) (SplitByte "," values)
                                    end
                 | None => if negate then IsFalseValue lookupVal else IsTrueValue lookupVal
                 end in
      inl (if Bool.eqb hit isComment then commentStr else "")
  end.

Definition handleCommentDirective (sr : string) : Result := resolveCommentState (TypeKey "comment") sr true.
Definition handleUncommentDirective (sr : string) : Result := resolveCommentState (TypeKey "uncomment") sr false.

Definition lookupTruth (cmd key : string) : bool :=
  let lookupVal := default "" (LookUpConfig cmd (TrimPrefix key "!")) in
  if HasPrefix key "!" then IsFalseValue lookupVal else IsTrueValue lookupVal.

Definition truth_directive (name yes no sr : string) : Result :=
  match findOne (TypeKey name) sr with
  | inr e => inr e
  | inl groups => inl (if lookupTruth (nth 0 groups "") (nth 1 groups "") then yes else no)
  end.

Definition handleBinaryDirective : string → Result := truth_directive "binary" "1" "0".
Definition handleTrueFalseDirective : string → Result := truth_directive "truefalse" "true" "false".

Definition lookupRequired (sr cmd key : string) : Result :=
  match LookUpConfig cmd key with Some v => inl v | None => inr (NotSet sr cmd key) end.

Definition handleRangeDirective (sr : string) : Result :=
  match findOne Range sr with
  | inr e => inr e
  | inl groups =>
      match lookupRequired sr (nth 0 groups "") (nth 1 groups "") with
      | inr e => inr e
      | inl v =>
          match atoiPy v, atoiPy (nth 2 groups ""), atoiPy (nth 3 groups "") with
          | Some val, Some lo, Some hi => inl (pyRange val (wrap64 (hi - lo)) lo)
          | _, _, _ => inr (NotIntegers sr)
          end
      end
  end.

Definition handleListDirective (sr : string) : Result :=
  let fields := SplitN 3 space sr in
  match nth_error fields 1 with
  | None => inr (MissingTypeKey sr)
  | Some field =>
      match splitTypeKey sr field with
      | inr e => inr e
      | inl (ty, key) =>
          let lookupVal := default "" (LookUpConfig ty key) in
          if String.eqb lookupVal "" then inl ""
          else match nth_error fields 2 with
               | None => inr (MissingSeparator sr)
               | Some sep => inl (Join (Fields lookupVal) sep)
               end
      end
  end.

Definition resolveSearchReplaceDirective (sr : string) (searchInNone : bool) (matches : string → string → bool) : Result :=
  let f := SplitN 3 "^" sr in
  let replacement := TrimSpace (nth 1 f "") in
  let altReplacement := TrimSpace (nth 2 f "") in
  let fields := SplitN 3 space (nth 0 f "") in
  match nth_error fields 1 with
  | None => inr (MissingTypeKey sr)
  | Some field =>
      match splitTypeKey sr field with
      | inr e => inr e
      | inl (ty, key) =>
          match (match LookUpConfig ty key with
                 | Some v => Some v
                 | None => if searchInNone then Some "None" else None
                 end) with
          | None => inl ""
          | Some lookupVal =>
              match nth_error fields 2 with
              | None => inr (MissingSearch sr)
              | Some searchString =>
                  inl (if matches lookupVal searchString
                       then if String.eqb replacement "" then searchString else replacement
                       else altReplacement)
              end
          end
      end
  end.

Definition handleContainsDirective (sr : string) : Result := resolveSearchReplaceDirective sr true Contains.
Definition handleExactDirective (sr : string) : Result :=
  resolveSearchReplaceDirective sr false (λ v s, existsb (String.eqb s) (Fields v)).

(** The number of the freq directive, from the value, its unit and the total. *)
Definition freq_value (per : string) (valNum total : Z) : Z :=
  let valNum := if String.eqb per "m" then floorDiv valNum 60
                else if String.eqb per "s" then floorDiv valNum 3600
                else if String.eqb per "d" then wrap64 (valNum * 24) else valNum in
  let val := if valNum =? 0 then total else floorDiv total valNum in
  if (val <? 1) && (1 <? total) then 1 else val.

Definition handleFreqDirective (sr : string) : Result :=
  match findOne Freq sr with
  | inr e => inr e
  | inl groups =>
      match lookupRequired sr (nth 0 groups "") (nth 1 groups "") with
      | inr e => inr e
      | inl v =>
          let per := filter_string (λ c, negb (is_digit c)) v in
          match Atoi (filter_string is_digit v), atoiPy (nth 2 groups "") with
          | Some valNum, Some total => inl (pretty (freq_value per valNum total))
          | _, _ => inr (NotIntegers sr)
          end
      end
  end.

Definition handleExplodeDirective (sr : string) : Result :=
  match findOne Explode sr with
  | inr e => inr e
  | inl groups =>
      let vals := default "" (LookUpConfig (nth 1 groups "") (nth 2 groups "")) in
      inl (Join (map (λ v, nth 0 groups "" +:+ " " +:+ v) (Fields vals)) (String newline ""))
  end.

Definition handleDefaultLookup (sr : string) : string :=
  match LookUpConfig "VAR" sr with
  | Some v => v
  | None => default "" (LookUpConfig "LOCAL" sr)
  end.

(** ** transformer.go *)
Definition xformConfig (m : string) : Result :=
  let sr := TrimByte percent m in
  if HasPrefix sr "comment" then handleCommentDirective sr
  else if HasPrefix sr "uncomment" then handleUncommentDirective sr
  else if HasPrefix sr "binary" then handleBinaryDirective sr
  else if HasPrefix sr "truefalse" then handleTrueFalseDirective sr
  else if HasPrefix sr "range" then handleRangeDirective sr
  else if HasPrefix sr "freq" then handleFreqDirective sr
  else if HasPrefix sr "list" then handleListDirective sr
  else if HasPrefix sr "contains" then handleContainsDirective sr
  else if HasPrefix sr "exact" then handleExactDirective sr
  else if HasPrefix sr "explode" then handleExplodeDirective sr
  else inl (handleDefaultLookup sr).

Definition xformConfigVariable (m : string) : string :=
  match SplitN 2 ":" (TrimByte percent m) with
  | [cfgType; key] =>
      if bool_decide (cfgType ∈ ["VAR"; "LOCAL"; "SERVICE"]) then default "" (LookUpConfig cfgType key) else ""
  | _ => ""
  end.

(** The hosts of the ldap URLs, [ldapURLRe]: the last colon of the word that a digit
    follows ends the host. *)
Fixpoint url_host (s : string) : option (string * string) :=
  match s with
  | EmptyString => None
  | String c s' =>
      if re_space c then None else
      match url_host s' with
      | Some (h, rest) => Some (String c h, rest)
      | None => if negb (Ascii.eqb c ":") then None
                else '(_, rest) ← nonempty (span is_digit s'); Some ("", rest)
      end
  end.

Definition ldap_url (s : string) : option (string * string) :=
  let '(rest, found) := CutPrefix s "ldap" in
  if negb found then None else
  let try (t : string) := let '(u, ok) := CutPrefix t "://" in if ok then url_host u else None in
  match (match rest with String c t => if Ascii.eqb c newline then None else try t | EmptyString => None end) with
  | Some x => Some x
  | None => try rest
  end.

Fixpoint ldap_hosts (skip : nat) (s : string) : list string :=
  match s with
  | EmptyString => []
  | String _ s' =>
      match skip with
      | S n => ldap_hosts n s'
      | O => match ldap_url s with
             | Some (host, rest) => host :: ldap_hosts (String.length s' - String.length rest)%nat s'
             | None => ldap_hosts 0%nat s'
             end
      end
  end.

Definition xformLocalConfig (m : string) : Result :=
  let text := TrimByte at_sign m in
  let '(funcName, lookupKey) := match CutByte space text with Some x => x | None => ("", text) end in
  match LookUpConfig "LOCAL" lookupKey with
  | None => if bool_decide (funcName ∈ ["SPLIT"; "PERDITION_LDAP_SPLIT"])
            then inr (LocalNotSet funcName lookupKey) else inl ""
  | Some val =>
      if String.eqb funcName "SPLIT" then inl (match CutByte space val with Some (before, _) => before | None => val end)
      else if String.eqb funcName "PERDITION_LDAP_SPLIT" then
        match Fields val with
        | [] => inr (EmptyValue lookupKey)
        | first :: _ => inl (first +:+ " " +:+ Join (ldap_hosts 0 val) " ")
        end
      else inl val
  end.

Definition keepOnOneLine (line m value : string) : string :=
  if String.eqb (TrimSpace line) m then value else ReplaceNewlines value.

Definition isPrefixDirective (c : string) : bool := HasPrefix c "comment " || HasPrefix c "uncomment ".

Definition knownDirectives : list string :=
  ["binary"; "truefalse"; "range"; "freq"; "list"; "contains"; "exact"; "explode"].

Definition isWrappingDirective (c : string) : bool :=
  existsb (λ d, HasPrefix c (d +:+ " "))
    ["contains"; "exact"; "list"; "binary"; "truefalse"; "range"; "freq"; "explode"].

Definition isKnownDirective (name : string) : bool := bool_decide (name ∈ knownDirectives).

Definition processPrefixDirective (line : string) : Result :=
  let trimmed := trim_indent line in
  let indent := take_string (String.length line - String.length trimmed) line in
  let '(rest, found) := CutPrefix trimmed "%%" in
  if negb found then inl line else
  match before_sub "%%" rest with
  | None => inl line
  | Some directiveContent =>
      let restOfLine := drop_string (String.length directiveContent + 2) rest in
      if negb (isPrefixDirective directiveContent) then inl line else
      match xformConfig ("%%" +:+ directiveContent +:+ "%%") with
      | inr e => inr e
      | inl r => inl (indent +:+ TrimSuffix r (String newline "") +:+ restOfLine)
      end
  end.

(** [None]: the line is no wrapping directive. *)
Definition processWrappingDirective (line : string) : option Result :=
  if negb (HasPrefix line "%%") || negb (HasSuffix line "%%") || (count_byte percent line <? 4)%nat then None
  else
    let innerContent := TrimPrefix (TrimSuffix line "%%") "%%" in
    if negb (isWrappingDirective innerContent) then None
    else
      let prepared : Result :=
        if HasPrefix innerContent "contains " || HasPrefix innerContent "exact " then
          match replaceAll percent typed_content innerContent (λ m, inl (ReplaceNewlines (xformConfigVariable m))) with
          | inr e => inr e
          | inl substituted =>
              match replaceAll percent plain_content substituted xformConfig with
              | inr e => inr e
              | inl substituted => inl ("%%" +:+ substituted +:+ "%%")
              end
          end
        else inl line in
      Some (match prepared with
            | inr e => inr e
            | inl line => match xformConfig line with inl v => inl (v +:+ String newline "") | inr e => inr e end
            end).

Definition inline_match (m : string) : Result :=
  match SplitN 2 space (TrimByte percent m) with
  | [name; _] => if isKnownDirective name then xformConfig m else inl m
  | _ => inl m
  end.

Definition processInlineDirectives (line : string) : Result :=
  if negb (Contains line "%%") || (count_byte percent line <? 4)%nat then inl line
  else replaceAll percent any_content line inline_match.

Definition then_ (r : Result) (f : string → Result) : Result := match r with inl s => f s | inr e => inr e end.

Definition Transform (line : string) : Result :=
  if (count_byte at_sign line <? 2)%nat && (count_byte percent line <? 2)%nat then inl line else
  then_ (replaceAll at_sign any_content line xformLocalConfig) (λ line,
  then_ (processPrefixDirective (trim_right line)) (λ line,
  match processWrappingDirective line with
  | Some r => r
  | None =>
      then_ (processInlineDirectives line) (λ line,
      then_ (replaceAll percent typed_content line (λ m, inl (keepOnOneLine line m (xformConfigVariable m)))) (λ line,
      then_ (replaceAll percent plain_content line
               (λ m, match xformConfig m with inl v => inl (keepOnOneLine line m v) | inr e => inr e end)) (λ line,
      inl (line +:+ String newline ""))))
  end)).
End lookup.
