(* ===== verification/TransformerProps.v ===== *)
(** * TransformerProps: what rendering a template line gives *)
From S2P Require Import Prelude Text Config Transformer.
Open Scope Z_scope.

(** ** Lines of the shipped templates' kinds, as the code renders them *)
Definition sample_lookup (ty key : string) : option string :=
  (list_to_map [("on", "TRUE"); ("off", "FALSE"); ("ext", "exe bat com"); ("level", "debug");
                ("min", "120m"); ("hours", "2h"); ("days", "1d"); ("mech", "LOGIN" +:+ String newline "PLAIN");
                ("urls", "ldap://a:389 ldaps://b.c:636")] : gmap string string) !! key.

Definition render_sample : string → Result := Transform sample_lookup (λ _ _ _, "").

Definition nl : string := String newline "".

Example Transform_samples :
  Forall (λ '(line, out), render_sample line = inl out)
    [("plain 50% line  ", "plain 50% line  ");
     ("%%comment VAR:on%%x = y", "#x = y" +:+ nl); ("%%uncomment VAR:on%%x = y", "x = y" +:+ nl);
     ("  %%uncomment VAR:off,;%%x = y ", "  ;x = y" +:+ nl);
     ("%%comment VAR:level,#,info,debug%%l", "#l" +:+ nl); ("%%comment VAR:level,#,info,warn%%l", "l" +:+ nl);
     ("%%comment VAR:gone,#,info%%l", "#l" +:+ nl); ("%%comment VAR:!gone%%l", "#l" +:+ nl);
     ("b = %%list VAR:ext |%%", "b = exe|bat|com" +:+ nl); ("e = %%binary SERVICE:off%%", "e = 0" +:+ nl);
     ("e = %%truefalse VAR:on%%", "e = true" +:+ nl);
     ("r = %%contains VAR:ext ex^FOUND^NO%%", "r = FOUND" +:+ nl); ("r = %%exact VAR:ext ex^FOUND^NO%%", "r = NO" +:+ nl);
     ("%%exact VAR:ext exe%%", "exe" +:+ nl);
     ("f = %%freq VAR:min 3600%%", "f = 1800" +:+ nl); ("f = %%freq VAR:hours 3600%%", "f = 1800" +:+ nl);
     ("f = %%freq VAR:days 24%%", "f = 1" +:+ nl);
     ("%%explode upstream VAR:ext%%", "upstream exe" +:+ nl +:+ "upstream bat" +:+ nl +:+ "upstream com" +:+ nl);
     ("%%VAR%%", nl); ("%%VAR:%%", "%%VAR:%%" +:+ nl); ("%%list VAR:gone%%", nl);
     ("mech_list: %%mech%%", "mech_list: LOGIN PLAIN" +:+ nl); ("%%mech%%", "LOGIN" +:+ nl +:+ "PLAIN" +:+ nl);
     ("u = @@PERDITION_LDAP_SPLIT urls@@;@@SPLIT ext@@;@@gone@@", "u = ldap://a:389 a b.c;exe;" +:+ nl)] ∧
  Forall (λ line, ∃ e, render_sample line = inr e)
    ["%%list VAR:ext%%"; "x = %%freq VAR:gone 3%%"; "%%comment VAR%%x"; "@@SPLIT gone@@"; "%%rangeless%%"].
Proof. split; repeat constructor; try (vm_compute; reflexivity); vm_compute; eauto. Qed.

(** ** Templates *)

(** A line as markers with the text before each, and the text after the last. *)
Definition without (d : ascii) : string → bool := chars (λ c, negb (Ascii.eqb c d)).

Section template.
Variable d : ascii.

Definition put (f : string → string) (l : list (string * string)) (tail : string) : string :=
  foldr (λ tc s, tc.1 +:+ f tc.2 +:+ s) tail l.

Abbreviation text := (put (mark_text d)).

Fixpoint lits (s : string) : list Piece := match s with "" => [] | String c s => Lit c :: lits s end.

Lemma lits_app s t : lits (s +:+ t) = lits s ++ lits t.
Proof. induction s as [|c s IH]; [done|]. rewrite string_app_cons. cbn. by rewrite IH. Qed.

Definition content_wf (c : string) : Prop := c ≠ "" ∧ without d c.
Definition template_wf (l : list (string * string)) (tail : string) : Prop :=
  Forall (λ tc, without d tc.1 ∧ content_wf tc.2) l ∧ without d tail.

(** A marker that is not matched is followed by no text that is. *)
Fixpoint separated (ok : string → bool) (l : list (string * string)) : Prop :=
  match l with
  | (_, c) :: (((t, _) :: _) as l) => (ok c ∨ ok t = false) ∧ separated ok l
  | _ => True
  end.

Lemma span_not_without s rest :
  without d s → (rest = "" ∨ ∃ r, rest = String d r) → span_not d (s +:+ rest) = (s, rest).
Proof.
  intros Hs Hr. induction s as [|c s IH].
  - rewrite string_app_nil_l. destruct Hr as [->|[r ->]]; [done|]. cbn. by rewrite Ascii.eqb_refl.
  - cbn [without chars] in Hs. apply andb_True in Hs as [Hc Hs]. rewrite string_app_cons. cbn [span_not].
    destruct (Ascii.eqb c d); [done|]. by rewrite IH.
Qed.

Lemma HasPrefix_double s : HasPrefix (String d (String d s)) (double d) = true.
Proof. unfold HasPrefix, double. cbn [String.prefix]. destruct (ascii_dec d d); [|done]. by destruct s. Qed.

Lemma mark_text_app c rest : mark_text d c +:+ rest = String d (String d (c +:+ String d (String d rest))).
Proof. unfold mark_text, double. rewrite !string_app_assoc. reflexivity. Qed.

Lemma mark_at_mark c rest : content_wf c → mark_at d (mark_text d c +:+ rest) = Some c.
Proof.
  intros [Hne Hc]. rewrite mark_text_app. unfold mark_at. rewrite HasPrefix_double. cbn [drop_string].
  rewrite span_not_without by eauto. destruct (String.eqb_spec c ""); [done|]. cbn [negb andb]. by rewrite HasPrefix_double.
Qed.

Lemma mark_at_ne c s : Ascii.eqb c d = false → mark_at d (String c s) = None.
Proof.
  intros H. unfold mark_at, HasPrefix, double. cbn [String.prefix]. destruct (ascii_dec d c) as [->|]; [|done].
  by rewrite Ascii.eqb_refl in H.
Qed.

Lemma mark_at_one s : (∀ r, s ≠ String d r) → mark_at d (String d s) = None.
Proof.
  intros H. unfold mark_at, HasPrefix, double. cbn [String.prefix]. destruct (ascii_dec d d); [|done].
  destruct s as [|c s]; [done|]. cbn [String.prefix]. destruct (ascii_dec d c) as [<-|]; [|done]. by destruct (H s).
Qed.

Variable ok : string → bool.

Lemma pieces_go_0 c s :
  pieces_go d ok 0 (String c s) =
  match mark_at d (String c s) with
  | Some content =>
      if ok content then Mark content :: pieces_go d ok (String.length content + 3) s else Lit c :: pieces_go d ok 0 s
  | None => Lit c :: pieces_go d ok 0 s
  end.
Proof. done. Qed.

Lemma pieces_go_skip s rest : pieces_go d ok (String.length s) (s +:+ rest) = pieces_go d ok 0 rest.
Proof. induction s as [|c s IH]; [done|]. rewrite string_app_cons. exact IH. Qed.

Lemma pieces_lits s rest : without d s → pieces_go d ok 0 (s +:+ rest) = lits s ++ pieces_go d ok 0 rest.
Proof.
  induction s as [|c s IH]; intros Hs; [done|]. cbn [without chars] in Hs. apply andb_True in Hs as [Hc Hs].
  rewrite string_app_cons, pieces_go_0, mark_at_ne by (by destruct (Ascii.eqb c d)). rewrite IH by done. done.
Qed.

Lemma pieces_matched c rest :
  content_wf c → ok c → pieces_go d ok 0 (mark_text d c +:+ rest) = Mark c :: pieces_go d ok 0 rest.
Proof.
  intros Hc Hok. pose proof (mark_at_mark c rest Hc) as Hm. rewrite mark_text_app in *. rewrite pieces_go_0, Hm.
  destruct (ok c); [|done]. f_equal.
  replace (String d (c +:+ String d (String d rest))) with ((String d c +:+ double d) +:+ rest)
    by (unfold double; rewrite string_app_assoc; reflexivity).
  replace (String.length c + 3)%nat with (String.length (String d c +:+ double d))
    by (rewrite length_string_app; cbn; lia).
  apply pieces_go_skip.
Qed.

(** What follows cannot complete a match with the end of a marker. *)
Definition harmless (s : string) : Prop :=
  (∀ c, mark_at d (double d +:+ s) = Some c → ok c = false) ∧ (∀ c, mark_at d (String d s) = Some c → ok c = false).

Lemma pieces_one c s :
  (∀ m, mark_at d (String c s) = Some m → ok m = false) → pieces_go d ok 0 (String c s) = Lit c :: pieces_go d ok 0 s.
Proof. intros H. rewrite pieces_go_0. destruct (mark_at d (String c s)) as [m|]; [by rewrite H|done]. Qed.

Lemma pieces_unmatched c rest :
  content_wf c → ok c = false → harmless rest →
  pieces_go d ok 0 (mark_text d c +:+ rest) = lits (mark_text d c) ++ pieces_go d ok 0 rest.
Proof.
  intros Hc Hok [H2 H1]. pose proof (mark_at_mark c rest Hc) as Hm. rewrite mark_text_app in *.
  rewrite pieces_one by (rewrite Hm; by intros ? [= <-]).
  destruct Hc as [Hne Hc]. rewrite pieces_one.
  - rewrite pieces_lits by done. change (String d (String d rest)) with (double d +:+ rest).
    change (double d +:+ rest) with (String d (String d rest)) in *.
    rewrite (pieces_one d (String d rest)) by exact H2. rewrite (pieces_one d rest) by exact H1.
    unfold mark_text. rewrite !lits_app, <- !app_assoc. reflexivity.
  - destruct c as [|x c]; [done|]. rewrite mark_at_one; [done|]. intros r. rewrite string_app_cons. intros [= -> _].
    cbn in Hc. by rewrite Ascii.eqb_refl in Hc.
Qed.

Lemma without_head s r : without d s → s ≠ String d r.
Proof. intros Hs ->. cbn in Hs. by rewrite Ascii.eqb_refl in Hs. Qed.

Lemma mark_at_double s : mark_at d (double d +:+ s) =
  let '(content, rest) := span_not d s in
  if negb (String.eqb content "") && HasPrefix rest (double d) then Some content else None.
Proof.
  unfold mark_at. change (double d +:+ s) with (String d (String d s)). by rewrite HasPrefix_double.
Qed.

Lemma harmless_tail s : without d s → harmless s.
Proof.
  intros Hs. split; intros c.
  - rewrite mark_at_double, <- (string_app_nil_r s), span_not_without by (done || by left). by rewrite andb_false_r.
  - rewrite mark_at_one by (intros r; by apply without_head). done.
Qed.

Lemma harmless_marker t c s : without d t → (t = "" ∨ ok t = false) → harmless (t +:+ mark_text d c +:+ s).
Proof.
  intros Ht Hok. rewrite mark_text_app. split; intros m.
  - rewrite mark_at_double, span_not_without by (eauto). rewrite HasPrefix_double, andb_true_r.
    destruct (String.eqb_spec t ""); [done|]. cbn [negb]. intros [= <-]. by destruct Hok.
  - destruct t as [|x t].
    + rewrite string_app_nil_l. unfold mark_at. rewrite HasPrefix_double. cbn [drop_string]. cbn [span_not].
      by rewrite Ascii.eqb_refl.
    + rewrite string_app_cons, mark_at_one; [done|]. intros r [= -> _]. cbn in Ht. by rewrite Ascii.eqb_refl in Ht.
Qed.

Definition pieces_of (l : list (string * string)) (tail : string) : list Piece :=
  foldr (λ tc s, lits tc.1 ++ (if ok tc.2 then [Mark tc.2] else lits (mark_text d tc.2)) ++ s) (lits tail) l.

(** The scanner finds the markers of a template that it looks for, and no others. *)
Lemma pieces_template l tail :
  template_wf l tail → separated ok l → pieces d ok (text l tail) = pieces_of l tail.
Proof.
  unfold pieces. intros [Hl Htail] Hsep. induction l as [|[t c] l IH]; cbn [put pieces_of foldr fst snd].
  - rewrite <- (string_app_nil_r tail) at 1. rewrite pieces_lits by done. cbn. by rewrite app_nil_r.
  - apply Forall_cons in Hl as [[Ht Hc] Hl]. cbn [fst snd] in *. rewrite pieces_lits by done. f_equal.
    fold (text l tail) (pieces_of l tail).
    assert (IH' : pieces_go d ok 0 (text l tail) = pieces_of l tail).
    { apply IH; [done|]. destruct l as [|[t' c'] l]; [done|]. apply Hsep. }
    destruct (ok c) eqn:Eok.
    + rewrite pieces_matched by (done || by rewrite Eok). by rewrite IH'.
    + rewrite pieces_unmatched; [by rewrite IH'|done|done|].
      destruct l as [|[t' c'] l]; [by apply harmless_tail|].
      cbn [put foldr fst snd]. apply harmless_marker; [by apply Forall_cons in Hl as [[? _] _]|].
      destruct Hsep as [[H|H] _]; [by rewrite Eok in H|by right].
Qed.

(** What a replacement makes of a template. *)
Lemma replaceAll_template l tail fn f :
  template_wf l tail → separated ok l → (∀ c, c ∈ l.*2 → ok c → fn (mark_text d c) = inl (f c)) →
  replaceAll d ok (text l tail) fn = inl (put (λ c, if ok c then f c else mark_text d c) l tail).
Proof.
  intros Hwf Hsep Hfn. unfold replaceAll. rewrite pieces_template by done. clear Hwf Hsep.
  assert (Hlits : ∀ s l', replace_pieces d fn (lits s ++ l') =
    match replace_pieces d fn l' with inl r => inl (s +:+ r) | inr e => inr e end).
  { intros s l'. induction s as [|x s IH]; cbn; [by destruct (replace_pieces d fn l')|].
    rewrite IH. by destruct (replace_pieces d fn l'). }
  induction l as [|[t c] l IH]; cbn [put pieces_of foldr fst snd].
  - rewrite <- (app_nil_r (lits tail)), Hlits. cbn. by rewrite string_app_nil_r.
  - fold (pieces_of l tail). rewrite Hlits.
    assert (IH' := IH (λ c' Hc', Hfn c' ltac:(cbn; by right))). destruct (ok c) eqn:Eok.
    + cbn [app replace_pieces]. rewrite (Hfn c) by (cbn; by left || by rewrite Eok). by rewrite IH'.
    + rewrite Hlits, IH'. done.
Qed.
End template.

(** Markers that are replaced become part of the text around them. *)
Section merge.
Variables (d : ascii) (ok : string → bool) (f : string → string).

Fixpoint merge (l : list (string * string)) (tail : string) : list (string * string) * string :=
  match l with
  | [] => ([], tail)
  | (t, c) :: l =>
      let '(l', tail') := merge l tail in
      if ok c then
        match l' with
        | [] => ([], t +:+ f c +:+ tail')
        | (t1, c1) :: l1 => ((t +:+ f c +:+ t1, c1) :: l1, tail')
        end
      else ((t, c) :: l', tail')
  end.

Lemma put_merge g l tail :
  put g (merge l tail).1 (merge l tail).2 = put (λ c, if ok c then f c else g c) l tail.
Proof.
  induction l as [|[t c] l IH]; [done|]. cbn [merge put foldr fst snd].
  fold (put (λ c, if ok c then f c else g c) l tail). rewrite <- IH. destruct (merge l tail) as [l' tail'].
  destruct (ok c); [|done]. destruct l' as [|[t1 c1] l1]; [done|]. cbn. by rewrite !string_app_assoc.
Qed.

Lemma without_app s t : without d (s +:+ t) = without d s && without d t.
Proof. apply chars_app. Qed.

Lemma merge_spec l tail :
  template_wf d l tail → (∀ c, c ∈ l.*2 → ok c → without d (f c)) →
  template_wf d (merge l tail).1 (merge l tail).2 ∧
  ∀ c, c ∈ (merge l tail).1.*2 → c ∈ l.*2 ∧ ok c = false.
Proof.
  intros [Hl Ht] Hf. induction l as [|[t c] l IH]; [split; [by split|]; by intros c ?%not_elem_of_nil|].
  apply Forall_cons in Hl as [[Htt Hc] Hl]. destruct IH as [[Hl' Ht'] Hin]; [done|intros c' Hc'; apply Hf; by right|].
  cbn [merge]. destruct (merge l tail) as [l' tail']. cbn [fst snd] in *. destruct (ok c) eqn:Eok.
  - assert (Hfc : without d (f c)) by (apply Hf; [by left|by rewrite Eok]). destruct l' as [|[t1 c1] l1]; cbn [fst snd].
    + split; [split; [constructor|]|by intros x ?%not_elem_of_nil]. rewrite !without_app, !andb_True. auto.
    + apply Forall_cons in Hl' as [[Ht1 Hc1] Hl1]. split; [split; [constructor; [|done]|done]|].
      * cbn [fst snd] in *. split; [|done]. rewrite !without_app, !andb_True. auto.
      * intros x Hx. destruct (Hin x Hx) as [? ?]. split; [by right|done].
  - split; [split; [by constructor|done]|]. intros x [->|Hx]%elem_of_cons; [split; [by left|done]|].
    destruct (Hin x Hx). split; [by right|done].
Qed.
End merge.

(** ** Small lemmas on the string functions *)
Lemma trim_right_snoc s t c : IsSpace c = false → trim_right ((s +:+ String c "") +:+ t) = (s +:+ String c "") +:+ trim_right t.
Proof.
  intros Hc. rewrite trim_right_app. destruct (String.eqb_spec (trim_right t) "") as [->|]; [|done].
  rewrite string_app_nil_r, trim_right_app. cbn [trim_right]. rewrite Hc. done.
Qed.

Lemma count_byte_app d s t : count_byte d (s +:+ t) = (count_byte d s + count_byte d t)%nat.
Proof. induction s as [|c s IH]; [done|]. rewrite string_app_cons. cbn [count_byte]. rewrite IH. lia. Qed.

Lemma TrimByte_mark d c : content_wf d c → TrimByte d (mark_text d c) = c.
Proof.
  intros [Hne Hc]. unfold TrimByte, mark_text, double.
  change (String d (String d "") +:+ c +:+ String d (String d "")) with (String d (String d (c +:+ String d (String d "")))).
  cbn [trim_left_byte]. rewrite Ascii.eqb_refl.
  assert (trim_left_byte d (c +:+ String d (String d "")) = c +:+ String d (String d "")) as ->.
  { destruct c as [|x c]; [done|]. cbn [without chars] in Hc. apply andb_True in Hc as [Hx _].
    rewrite string_app_cons. cbn [trim_left_byte]. by destruct (Ascii.eqb x d). }
  clear Hne. induction c as [|x c IH].
  - rewrite string_app_nil_l. cbn [trim_right_byte]. by rewrite !Ascii.eqb_refl.
  - cbn [without chars] in Hc. apply andb_True in Hc as [Hx Hc]. rewrite string_app_cons. cbn [trim_right_byte].
    rewrite IH by done. destruct c; [|done]. by destruct (Ascii.eqb x d).
Qed.

Lemma before_sub_mark d c rest :
  without d c → before_sub (double d) (c +:+ double d +:+ rest) = Some c.
Proof.
  intros Hc. induction c as [|x c IH].
  - rewrite string_app_nil_l. change (double d +:+ rest) with (String d (String d rest)). cbn [before_sub].
    by rewrite HasPrefix_double.
  - cbn [without chars] in Hc. apply andb_True in Hc as [Hx Hc]. rewrite string_app_cons. cbn [before_sub].
    rewrite IH by done. unfold HasPrefix, double. cbn [String.prefix].
    destruct (ascii_dec d x) as [->|]; [by rewrite Ascii.eqb_refl in Hx|done].
Qed.

(** A prefix without [d] of a text that goes on with [d] lies in front of it. *)
Lemma HasPrefix_stop d p c x :
  without d p → (x = "" ∨ ∃ r, x = String d r) → HasPrefix (c +:+ x) p = true → HasPrefix c p = true.
Proof.
  intros Hp Hx. unfold HasPrefix. revert p Hp. induction c as [|y c IH]; intros p Hp.
  - rewrite string_app_nil_l. destruct Hx as [->|[r ->]]; [done|]. destruct p as [|z p]; [done|].
    cbn [without chars] in Hp. apply andb_True in Hp as [Hz _]. cbn [String.prefix].
    destruct (ascii_dec z d) as [->|]; [by rewrite Ascii.eqb_refl in Hz|done].
  - rewrite string_app_cons. destruct p as [|z p]; [done|]. cbn [without chars] in Hp. apply andb_True in Hp as [_ Hp].
    cbn [String.prefix]. destruct (ascii_dec z y); [|done]. by apply IH.
Qed.

Lemma HasPrefix_without d p c : HasPrefix c p = true → without d c → without d p.
Proof.
  unfold HasPrefix. revert p. induction c as [|y c IH]; intros [|z p] H Hc; [done|done|done|].
  cbn [String.prefix] in H. destruct (ascii_dec z y) as [->|]; [|done]. cbn [without chars] in *.
  apply andb_True in Hc as [Hy Hc]. apply andb_True. split; [done|]. by apply IH.
Qed.

(** Newlines become spaces and nothing else changes. *)
Lemma ReplaceNewlines_without d s : d ≠ space → without d s → without d (ReplaceNewlines s).
Proof.
  intros Hd. unfold ReplaceNewlines. induction s as [|c s IH]; [done|]. cbn [without chars string_map].
  intros [Hc Hs]%andb_True. apply andb_True. split; [|by apply IH]. destruct (decide (c = newline)); [|done].
  destruct (Ascii.eqb_spec space d); [by subst|done].
Qed.

Lemma ReplaceNewlines_newline s : without newline (ReplaceNewlines s).
Proof.
  unfold ReplaceNewlines. induction s as [|c s IH]; [done|]. cbn [without chars string_map].
  apply andb_True. split; [|exact IH]. destruct (decide (c = newline)); [done|]. by destruct (Ascii.eqb_spec c newline).
Qed.

(** ** Lines with variables *)
Inductive Marker := Typed (ty key : string) | Plain (key : string).

Definition content (m : Marker) : string := match m with Typed ty key => ty +:+ ":" +:+ key | Plain key => key end.
Definition marker_text (m : Marker) : string := mark_text percent (content m).

(** The words a plain key must not begin with. *)
Definition directives : list string := ["comment"; "uncomment"] ++ knownDirectives.

Definition marker_ok (m : Marker) : bool :=
  match m with
  | Typed ty key => bool_decide (ty ∈ ["VAR"; "LOCAL"; "SERVICE"]) && negb (String.eqb key "") &&
                    without percent key && without at_sign key
  | Plain key => negb (String.eqb key "") && without percent key && without at_sign key &&
                 without ":" key && without space key && negb (existsb (HasPrefix key) directives)
  end.

Definition text_ok (t : string) : bool := without percent t && without at_sign t && without newline t.

(** Texts, markers, and no text that reads like a typed marker after a plain one. *)
Fixpoint line_ok (l : list (string * Marker)) (tail : string) : bool :=
  match l with
  | [] => text_ok tail
  | (t, m) :: l =>
      text_ok t && marker_ok m && line_ok l tail &&
      match m, l with Plain _, (t', _) :: _ => negb (typed_content t') | _, _ => true end
  end.

Definition fill (f : Marker → string) (l : list (string * Marker)) (tail : string) : string :=
  foldr (λ tm s, tm.1 +:+ f tm.2 +:+ s) tail l.

Definition contents (l : list (string * Marker)) : list (string * string) := prod_map id content <$> l.

Lemma fill_put f g l tail :
  (∀ m, m ∈ l.*2 → f m = g (content m)) → fill f l tail = put g (contents l) tail.
Proof.
  induction l as [|[t m] l IH]; intros H; [done|]. cbn. rewrite H by (cbn; by left).
  fold (fill f l tail) (contents l). by rewrite IH by (intros m' Hm'; apply H; by right).
Qed.

Lemma Typed_ty ty : bool_decide (ty ∈ ["VAR"; "LOCAL"; "SERVICE"]) = true → ty = "VAR" ∨ ty = "LOCAL" ∨ ty = "SERVICE".
Proof. intros H%bool_decide_eq_true. set_solver. Qed.

Lemma CutByte_without c s : without c s → CutByte c s = None.
Proof.
  induction s as [|x s IH]; intros H; [done|]. cbn [without chars] in H. apply andb_True in H as [Hx H]. cbn.
  destruct (Ascii.eqb x c); [done|]. by rewrite IH.
Qed.

Lemma Contains_without c s : without c s → Contains s (String c "") = false.
Proof. apply Contains_byte. Qed.

(** What each scanner makes of a marker's content. *)
Lemma marker_content m :
  marker_ok m → content_wf percent (content m) ∧ without at_sign (content m) ∧
  typed_content (content m) = (match m with Typed _ _ => true | Plain _ => false end) ∧
  (match m with Plain key => plain_content key | _ => true end).
Proof.
  destruct m as [ty key|key]; cbn [marker_ok content].
  - intros [[[Hty%Is_true_true Hne]%andb_True Hp]%andb_True Ha]%andb_True.
    assert (Hkey : key ≠ "") by (by destruct (String.eqb_spec key "")).
    assert (Hcut : CutByte ":" (ty +:+ ":" +:+ key) = Some (ty, key))
      by (by destruct (Typed_ty ty Hty) as [->|[->| ->]]).
    split_and!; [split| | |done].
    + by destruct (Typed_ty ty Hty) as [->|[->| ->]].
    + by destruct (Typed_ty ty Hty) as [->|[->| ->]].
    + by destruct (Typed_ty ty Hty) as [->|[->| ->]].
    + unfold typed_content. rewrite Hcut, Hty. by destruct (String.eqb key "").
  - intros [[[[[Hne Hp]%andb_True Ha]%andb_True Hc]%andb_True Hs]%andb_True Hd]%andb_True.
    split_and!; [split|done| |].
    + by destruct (String.eqb_spec key "").
    + done.
    + unfold typed_content. by rewrite CutByte_without.
    + unfold plain_content. by rewrite Contains_without.
Qed.

Lemma line_ok_cons t m l tail :
  line_ok ((t, m) :: l) tail →
  text_ok t ∧ marker_ok m ∧ line_ok l tail ∧
  (match m, l with Plain _, (t', _) :: _ => typed_content t' = false | _, _ => True end).
Proof.
  cbn [line_ok]. intros [[[Ht Hm]%andb_True Hl]%andb_True Hs]%andb_True. split_and!; [done..|].
  destruct m, l as [|[t' m'] l]; [done..|]. by destruct (typed_content t').
Qed.

Lemma line_ok_markers l tail m : line_ok l tail → m ∈ l.*2 → marker_ok m.
Proof.
  induction l as [|[t m'] l IH]; intros H Hm; [by apply not_elem_of_nil in Hm|].
  apply line_ok_cons in H as (_ & Hm' & Hl & _). apply elem_of_cons in Hm as [->|Hm]; [done|by apply IH].
Qed.

Lemma line_ok_wf l tail :
  line_ok l tail → template_wf percent (contents l) tail ∧ separated typed_content (contents l).
Proof.
  induction l as [|[t m] l IH]; intros H.
  - split; [split; [constructor|]|done]. cbn in H. by apply andb_True in H as [[? _]%andb_True _].
  - apply line_ok_cons in H as (Ht & Hm & Hl & Hs). destruct (IH Hl) as [[Hwf Htail] Hsep].
    apply andb_True in Ht as [[Ht _]%andb_True _]. destruct (marker_content m Hm) as (Hc & _ & Hty & _).
    split; [split; [constructor; done|done]|]. destruct l as [|[t' m'] l]; [done|]. split; [|done].
    change (typed_content (content m) ∨ typed_content t' = false). rewrite Hty. destruct m; [by left|by right].
Qed.

Lemma contents_elem l c : c ∈ (contents l).*2 → ∃ m, m ∈ l.*2 ∧ c = content m.
Proof.
  unfold contents. rewrite <- list_fmap_compose, list_elem_of_fmap. intros ([t m] & -> & H).
  exists m. split; [|done]. apply list_elem_of_fmap. by exists (t, m).
Qed.

Lemma fill_without d f l tail :
  (∀ t, t ∈ l.*1 → without d t) → (∀ m, m ∈ l.*2 → without d (f m)) → without d tail → without d (fill f l tail).
Proof.
  induction l as [|[t m] l IH]; intros Ht Hm Htail; [done|]. cbn. fold (fill f l tail).
  rewrite !without_app, !andb_True. split_and!; [apply Ht; by left|apply Hm; by left|].
  apply IH; [intros t' ?; apply Ht; by right|intros m' ?; apply Hm; by right|done].
Qed.

Lemma line_ok_texts l tail : line_ok l tail → text_ok tail ∧ ∀ t, t ∈ l.*1 → text_ok t.
Proof.
  induction l as [|[t m] l IH]; intros H; [split; [done|]; by intros t ?%not_elem_of_nil|].
  apply line_ok_cons in H as (Ht & _ & Hl & _). destruct (IH Hl) as [H1 H2]. split; [done|].
  intros t' [->|Hin]%elem_of_cons; auto.
Qed.

Lemma text_ok_spec t : text_ok t → without percent t ∧ without at_sign t ∧ without newline t.
Proof. intros [[? ?]%andb_True ?]%andb_True. done. Qed.

Lemma trim_right_text_ok t : text_ok t → text_ok (trim_right t).
Proof.
  assert (H : ∀ P s, chars P s → chars P (trim_right s)).
  { intros P s. induction s as [|c s IH]; [done|]. cbn [chars trim_right]. intros [Hc Hs]%andb_True. specialize (IH Hs).
    destruct (trim_right s); [destruct (IsSpace c); [done|]; cbn; by rewrite andb_true_r|]. cbn [chars] in *.
    by rewrite andb_True. }
  intros (H1 & H2 & H3)%text_ok_spec. unfold text_ok. rewrite !andb_True. split_and!; by apply H.
Qed.

Lemma line_ok_trim l tail : line_ok l tail → line_ok l (trim_right tail).
Proof.
  induction l as [|[t m] l IH]; cbn [line_ok]; [apply trim_right_text_ok|].
  intros [[Hx Hl]%andb_True Hs]%andb_True. rewrite !andb_True in *. auto.
Qed.

Abbreviation line_text := (fill marker_text).

Lemma line_text_put l tail : line_text l tail = put (mark_text percent) (contents l) tail.
Proof. by apply fill_put. Qed.

(** *** The stages that leave such a line alone *)

(** Without an at sign there is nothing to replace. *)
Lemma replaceAll_none d ok s fn : without d s → replaceAll d ok s fn = inl s.
Proof.
  intros Hs. pose proof (replaceAll_template d ok [] s fn (λ _, "")) as H. cbn [put foldr] in H.
  apply H; [split; [constructor|done]|done|]. by intros c ?%not_elem_of_nil.
Qed.

Lemma line_no_at l tail : line_ok l tail → without at_sign (line_text l tail).
Proof.
  intros H. destruct (line_ok_texts _ _ H) as [Ht Hl]. apply fill_without.
  - intros t Hin. by apply (text_ok_spec t), Hl.
  - intros m Hm. destruct (marker_content m (line_ok_markers _ _ _ H Hm)) as (_ & Ha & _).
    unfold marker_text, mark_text. by rewrite !without_app, !andb_True.
  - by apply text_ok_spec.
Qed.

Lemma line_trim l tail : l ≠ [] → trim_right (line_text l tail) = line_text l (trim_right tail).
Proof.
  intros Hne. assert (H : ∃ s, ∀ tl, line_text l tl = (s +:+ String percent "") +:+ tl).
  { induction l as [|[t m] l IH]; [done|]. destruct l as [|x l].
    - exists (t +:+ String percent (String percent (content m +:+ String percent ""))). intros tl.
      change (line_text [(t, m)] tl) with (t +:+ mark_text percent (content m) +:+ tl). rewrite mark_text_app.
      rewrite !string_app_assoc, !string_app_cons, !string_app_assoc, !string_app_cons. by rewrite !string_app_nil_l.
    - destruct IH as [s Hs]; [done|]. exists (t +:+ marker_text m +:+ s). intros tl.
      change (line_text ((t, m) :: x :: l) tl) with (t +:+ marker_text m +:+ line_text (x :: l) tl).
      rewrite Hs, !string_app_assoc. done. }
  destruct H as [s Hs]. rewrite !Hs. by apply trim_right_snoc.
Qed.

Lemma trim_indent_app t s :
  trim_indent (t +:+ s) = if String.eqb (trim_indent t) "" then trim_indent s else trim_indent t +:+ s.
Proof.
  induction t as [|c t IH]; [done|]. rewrite string_app_cons. cbn [trim_indent].
  destruct (Ascii.eqb c space || Ascii.eqb c tab); [exact IH|]. done.
Qed.

Lemma trim_indent_without d t : without d t → without d (trim_indent t).
Proof.
  induction t as [|c t IH]; intros H; [done|]. cbn [trim_indent].
  destruct (Ascii.eqb c space || Ascii.eqb c tab); [|done]. apply IH. cbn in H. by apply andb_True in H as [_ ?].
Qed.

Lemma HasPrefix_without_head d s r p : without d s → s ≠ "" → HasPrefix (s +:+ r) (String d p) = false.
Proof.
  intros Hs Hne. destruct s as [|c s]; [done|]. cbn [without chars] in Hs. apply andb_True in Hs as [Hc _].
  rewrite string_app_cons. unfold HasPrefix. cbn [String.prefix].
  destruct (ascii_dec d c) as [->|]; [by rewrite Ascii.eqb_refl in Hc|done].
Qed.

(** A marker of such a line begins no directive. *)
Lemma marker_no_directive m p :
  marker_ok m → p ∈ directives → HasPrefix (content m) (p +:+ " ") = false.
Proof.
  intros Hm Hp. apply not_true_iff_false. intros H. destruct m as [ty key|key]; cbn [content] in H.
  - cbn [marker_ok] in Hm. apply andb_True in Hm as [[[Hty%Is_true_true _]%andb_True _]%andb_True _].
    assert (Hall : forallb (λ ty, forallb (λ p, match p, ty with
      | String a _, String b _ => negb (Ascii.eqb a b) | _, _ => false end) directives) ["VAR"; "LOCAL"; "SERVICE"] = true)
      by (vm_compute; reflexivity).
    apply bool_decide_eq_true in Hty. apply forallb_Forall in Hall. rewrite Forall_forall in Hall.
    specialize (Hall ty Hty). apply forallb_Forall in Hall. rewrite Forall_forall in Hall. specialize (Hall p Hp).
    destruct p as [|a p]; [done|]. destruct ty as [|b ty]; [done|]. rewrite !string_app_cons in H.
    unfold HasPrefix in H. cbn [String.prefix] in H. destruct (ascii_dec a b) as [->|]; [|done].
    by rewrite Ascii.eqb_refl in Hall.
  - cbn [marker_ok] in Hm. apply andb_True in Hm as [[_ Hs]%andb_True _].
    pose proof (HasPrefix_without space _ _ H Hs) as Hw. rewrite without_app, andb_True in Hw. by destruct Hw as [_ ?].
Qed.

Lemma line_text_cons t m l tail :
  line_text ((t, m) :: l) tail = t +:+ String percent (String percent (content m +:+ "%%" +:+ line_text l tail)).
Proof.
  change (line_text ((t, m) :: l) tail) with (t +:+ mark_text percent (content m) +:+ line_text l tail).
  by rewrite mark_text_app.
Qed.

Lemma prefix_stage LookUp pyRange l tail :
  line_ok l tail → l ≠ [] → processPrefixDirective LookUp pyRange (line_text l tail) = inl (line_text l tail).
Proof.
  intros H Hne. destruct l as [|[t m] l]; [done|]. apply line_ok_cons in H as (Ht & Hm & _).
  apply text_ok_spec in Ht as (Ht & _). destruct (marker_content m Hm) as ([_ Hc] & _).
  assert (Htr := trim_indent_app t (String percent (String percent (content m +:+ "%%" +:+ line_text l tail)))).
  rewrite <- line_text_cons in Htr. unfold processPrefixDirective. rewrite Htr. clear Htr.
  destruct (String.eqb_spec (trim_indent t) "") as [E|E].
  - set (rest := line_text l tail).
    change (trim_indent (String percent (String percent (content m +:+ "%%" +:+ rest))))
      with (String percent (String percent (content m +:+ double percent +:+ rest))).
    unfold CutPrefix. change "%%" with (double percent). rewrite HasPrefix_double.
    cbn [negb drop_string String.length double]. fold (double percent). rewrite before_sub_mark by done.
    unfold isPrefixDirective. pose proof (marker_no_directive m "comment" Hm ltac:(unfold directives; set_solver)) as Hd1.
    pose proof (marker_no_directive m "uncomment" Hm ltac:(unfold directives; set_solver)) as Hd2.
    change ("comment" +:+ " ") with "comment " in Hd1. change ("uncomment" +:+ " ") with "uncomment " in Hd2.
    by rewrite Hd1, Hd2.
  - unfold CutPrefix. by rewrite (HasPrefix_without_head percent) by (done || by apply trim_indent_without).
Qed.

Lemma take_string_app a b n : take_string (String.length a + n) (a +:+ b) = a +:+ take_string n b.
Proof. induction a as [|c a IH]; [done|]. rewrite !string_app_cons. cbn [String.length Nat.add take_string]. by rewrite IH. Qed.

(** The text between the first two and the last two characters of a line that begins with a marker. *)
Lemma wrapping_inner c rest :
  HasSuffix (String percent (String percent (c +:+ "%%" +:+ rest))) "%%" = true →
  ∃ x, TrimPrefix (TrimSuffix (String percent (String percent (c +:+ "%%" +:+ rest))) "%%") "%%" = c +:+ x ∧
       (x = "" ∨ ∃ r, x = String percent r).
Proof.
  intros Hs. unfold TrimSuffix. rewrite Hs. exists (take_string (String.length rest) ("%%" +:+ rest)).
  split; [|destruct (String.length rest); [by left|right; by eexists]].
  replace (String.length (String percent (String percent (c +:+ "%%" +:+ rest))) - String.length "%%")%nat
    with (String.length (String percent (String percent c)) + String.length rest)%nat
    by (cbn [String.length]; rewrite !length_string_app; cbn [String.length]; lia).
  change (String percent (String percent (c +:+ "%%" +:+ rest))) with (String percent (String percent c) +:+ ("%%" +:+ rest)).
  rewrite take_string_app. rewrite !string_app_cons. unfold TrimPrefix, CutPrefix.
  change "%%" with (double percent) at 1. by rewrite HasPrefix_double.
Qed.

(** No marker of such a line begins a wrapping directive. *)
Lemma wrapping_stage LookUp pyRange l tail :
  line_ok l tail → l ≠ [] → processWrappingDirective LookUp pyRange (line_text l tail) = None.
Proof.
  intros H Hne. unfold processWrappingDirective.
  destruct (negb (HasPrefix (line_text l tail) "%%") || negb (HasSuffix (line_text l tail) "%%") ||
            (count_byte percent (line_text l tail) <? 4)%nat) eqn:Eg; [done|].
  apply orb_false_iff in Eg as [[Hp Hs]%orb_false_iff Hc]. apply negb_false_iff in Hp, Hs.
  destruct l as [|[t m] l]; [done|]. apply line_ok_cons in H as (Ht & Hm & _). apply text_ok_spec in Ht as (Ht & _).
  rewrite line_text_cons in *. destruct t as [|c t].
  2: { rewrite (HasPrefix_without_head percent (String c t) _ "%") in Hp by done. done. }
  rewrite string_app_nil_l in *. destruct (wrapping_inner _ _ Hs) as (x & -> & Hx).
  assert (isWrappingDirective (content m +:+ x) = false) as ->; [|done].
  apply not_true_iff_false. intros (p & Hin & Hpre)%existsb_exists.
  assert (Hd : p ∈ directives ∧ without percent (p +:+ " "))
    by (cbn in Hin; destruct_or?; subst; (split; [unfold directives, knownDirectives; set_solver|done]) || done).
  destruct Hd as [Hd Hw]. apply (HasPrefix_stop percent) in Hpre; [|done..].
  by rewrite marker_no_directive in Hpre.
Qed.

(** *** Directives inside the line *)
Lemma separated_any ok l : (∀ c, c ∈ l.*2 → ok c = true) → separated ok l.
Proof.
  induction l as [|[t c] l IH]; intros H; [done|]. destruct l as [|[t' c'] l]; [done|]. split.
  - left. by rewrite H by (cbn; by left).
  - apply IH. intros x Hx. apply H. by right.
Qed.

Lemma known_directive m name rest :
  marker_ok m → SplitN 2 space (content m) = [name; rest] → isKnownDirective name = false.
Proof.
  intros Hm. cbn [SplitN]. destruct (CutByte space (content m)) as [[a b]|] eqn:E; [|done].
  intros [= -> ->]. apply bool_decide_eq_false. intros Hin.
  assert (Hp : name ∈ directives) by (unfold directives; set_solver).
  pose proof (marker_no_directive m name Hm Hp) as Hn. apply CutByte_app in E.
  rewrite E in Hn. change (String space rest) with (" " +:+ rest) in Hn.
  by rewrite <- string_app_assoc, HasPrefix_app in Hn.
Qed.

Lemma marker_trim m : marker_ok m → TrimByte percent (marker_text m) = content m.
Proof. intros Hm. apply TrimByte_mark. by apply marker_content. Qed.

Lemma inline_match_marker LookUp pyRange m :
  marker_ok m → inline_match LookUp pyRange (marker_text m) = inl (marker_text m).
Proof.
  intros Hm. unfold inline_match. rewrite marker_trim by done. destruct (SplitN 2 space (content m)) as [|name [|rest [|]]] eqn:E;
    [done|done| |done]. by rewrite (known_directive m name rest).
Qed.

Lemma inline_stage LookUp pyRange l tail :
  line_ok l tail → processInlineDirectives LookUp pyRange (line_text l tail) = inl (line_text l tail).
Proof.
  intros H. unfold processInlineDirectives. destruct (_ || _); [done|]. destruct (line_ok_wf _ _ H) as [Hwf _].
  rewrite line_text_put. erewrite replaceAll_template with (f := mark_text percent); [done|done|by apply separated_any|].
  intros c (m & Hm & ->)%contents_elem _. apply inline_match_marker. by eapply line_ok_markers.
Qed.

(** *** The two substitutions *)
Section substitution.
Variables (LookUp : string → string → option string) (pyRange : Z → Z → Z → string).

(** The value of a variable, before newlines are considered. *)
Definition lookup_of (m : Marker) : string :=
  match m with Typed ty key => default "" (LookUp ty key) | Plain key => handleDefaultLookup LookUp key end.

Lemma xformConfigVariable_marker ty key :
  marker_ok (Typed ty key) → xformConfigVariable LookUp (marker_text (Typed ty key)) = default "" (LookUp ty key).
Proof.
  intros Hm. unfold xformConfigVariable. rewrite marker_trim by done. cbn [marker_ok content] in *.
  apply andb_True in Hm as [[[Hty%Is_true_true _]%andb_True _]%andb_True _].
  assert (SplitN 2 ":" (ty +:+ ":" +:+ key) = [ty; key]) as ->
    by (cbn [SplitN]; by destruct (Typed_ty ty Hty) as [->|[->| ->]]).
  by rewrite Hty.
Qed.

Lemma xformConfig_plain key :
  marker_ok (Plain key) → xformConfig LookUp pyRange (marker_text (Plain key)) = inl (handleDefaultLookup LookUp key).
Proof.
  intros Hm. unfold xformConfig. rewrite marker_trim by done. cbn [marker_ok content] in *.
  apply andb_True in Hm as [_ Hd]. unfold directives, knownDirectives in Hd. cbn [existsb app] in Hd.
  rewrite !negb_orb, !andb_True in Hd. destruct_and!.
  by repeat match goal with H : Is_true (negb (HasPrefix key ?p)) |- _ =>
    destruct (HasPrefix key p); [done|clear H] end.
Qed.

(** The line after the typed variables are replaced. *)
Definition typed_value (line : string) (m : Marker) : string :=
  match m with
  | Typed _ _ => keepOnOneLine line (marker_text m) (lookup_of m)
  | Plain _ => marker_text m
  end.

Definition plain_value (line line' : string) (m : Marker) : string :=
  match m with
  | Typed _ _ => typed_value line m
  | Plain _ => keepOnOneLine line' (marker_text m) (lookup_of m)
  end.

Lemma typed_stage line l tail :
  line_ok l tail →
  replaceAll percent typed_content (line_text l tail)
    (λ m, inl (keepOnOneLine line m (xformConfigVariable LookUp m))) = inl (fill (typed_value line) l tail).
Proof.
  intros H. destruct (line_ok_wf _ _ H) as [Hwf Hsep]. rewrite line_text_put.
  erewrite (replaceAll_template percent typed_content (contents l) tail _
    (λ c, keepOnOneLine line (mark_text percent c) (xformConfigVariable LookUp (mark_text percent c)))) by done.
  f_equal. symmetry. apply fill_put. intros m Hm. pose proof (line_ok_markers _ _ _ H Hm) as Hok.
  destruct (marker_content m Hok) as (_ & _ & -> & _). destruct m as [ty key|key]; [|done].
  change (mark_text percent (content (Typed ty key))) with (marker_text (Typed ty key)).
  by rewrite xformConfigVariable_marker.
Qed.

Lemma plain_stage line line' l tail :
  line_ok l tail → (∀ m, m ∈ l.*2 → without percent (typed_value line m) ∨ ∃ key, m = Plain key) →
  replaceAll percent plain_content (fill (typed_value line) l tail)
    (λ m, match xformConfig LookUp pyRange m with inl v => inl (keepOnOneLine line' m v) | inr e => inr e end) =
  inl (fill (plain_value line line') l tail).
Proof.
  intros H Hv. destruct (line_ok_wf _ _ H) as [Hwf Hsep].
  set (F c := keepOnOneLine line (mark_text percent c) (xformConfigVariable LookUp (mark_text percent c))).
  assert (HF : ∀ m, m ∈ l.*2 → typed_value line m = if typed_content (content m) then F (content m) else marker_text m).
  { intros m Hm. pose proof (line_ok_markers _ _ _ H Hm) as Hok.
    destruct (marker_content m Hok) as (_ & _ & -> & _). destruct m as [ty key|key]; [|done]. unfold F.
    change (mark_text percent (content (Typed ty key))) with (marker_text (Typed ty key)).
    by rewrite xformConfigVariable_marker. }
  rewrite (fill_put _ (λ c, if typed_content c then F c else mark_text percent c)) by done.
  rewrite <- (put_merge typed_content F). destruct (merge_spec percent typed_content F (contents l) tail Hwf) as [Hwf' Hin].
  { intros c (m & Hm & ->)%contents_elem Hty. destruct (Hv m Hm) as [Hw|[key ->]].
    - rewrite HF in Hw by done. by destruct (typed_content (content m)).
    - pose proof (line_ok_markers _ _ _ H Hm) as Hok. destruct (marker_content _ Hok) as (_ & _ & E & _).
      by rewrite E in Hty. }
  assert (Hplain : ∀ c, c ∈ (merge typed_content F (contents l) tail).1.*2 →
    plain_content c = true ∧ ∃ key, c = key ∧ marker_ok (Plain key)).
  { intros c Hc. destruct (Hin c Hc) as [(m & Hm & ->)%contents_elem Hty]. pose proof (line_ok_markers _ _ _ H Hm) as Hok.
    destruct (marker_content m Hok) as (_ & _ & E & Hp). destruct m as [ty key|key]; [by rewrite E in Hty|].
    split; [by apply Is_true_true|by exists key]. }
  erewrite (replaceAll_template percent plain_content _ _ _
    (λ c, keepOnOneLine line' (mark_text percent c) (handleDefaultLookup LookUp c))); [|done|by apply separated_any; apply Hplain|].
  - f_equal. rewrite (put_merge typed_content F). symmetry. apply fill_put. intros m Hm.
    pose proof (HF m Hm) as HFm. pose proof (line_ok_markers _ _ _ H Hm) as Hok.
    destruct (marker_content m Hok) as (_ & _ & E & Hp). rewrite E in *. destruct m as [ty key|key]; [done|].
    cbn [content] in *. apply Is_true_true in Hp. by rewrite Hp.
  - intros c Hc _. destruct (Hplain c Hc) as (_ & key & -> & Hok).
    change (mark_text percent key) with (marker_text (Plain key)). by rewrite xformConfig_plain.
Qed.

Lemma count_line l tail : l ≠ [] → (2 ≤ count_byte percent (line_text l tail))%nat.
Proof.
  destruct l as [|[t m] l]; [done|]. intros _. rewrite line_text_cons, count_byte_app. cbn [count_byte].
  rewrite Ascii.eqb_refl. lia.
Qed.

(** A line of texts and variables, in general. *)
Lemma Transform_fill l tail :
  let line := line_text l (trim_right tail) in
  let line' := fill (typed_value line) l (trim_right tail) in
  l ≠ [] → line_ok l tail → (∀ ty key v, LookUp ty key = Some v → without percent v) →
  Transform LookUp pyRange (line_text l tail) = inl (fill (plain_value line line') l (trim_right tail) +:+ nl).
Proof.
  intros line line' Hne H Hv. pose proof (line_ok_trim _ _ H) as Hr. unfold Transform, then_.
  pose proof (count_line l tail Hne) as Hcount. destruct (Nat.ltb_spec (count_byte percent (line_text l tail)) 2); [lia|].
  rewrite andb_false_r. rewrite replaceAll_none by (by apply line_no_at). rewrite line_trim by done. fold line.
  unfold line at 1. rewrite prefix_stage, wrapping_stage, inline_stage by done. rewrite typed_stage by done. fold line.
  rewrite plain_stage; [done|done|]. intros m Hm. destruct m as [ty key|key]; [left|right; by exists key].
  cbn [typed_value lookup_of]. unfold keepOnOneLine.
  assert (Hw : without percent (default "" (LookUp ty key)))
    by (destruct (LookUp ty key) eqn:E; [by eapply Hv|done]).
  destruct (String.eqb _ _); [done|]. by apply ReplaceNewlines_without.
Qed.
End substitution.

(** *** One line stays one line *)

(** The number of characters that are not white space. *)
Fixpoint solid (s : string) : nat :=
  match s with EmptyString => 0 | String c s => (if IsSpace c then 0 else 1) + solid s end.

Lemma solid_app s t : solid (s +:+ t) = (solid s + solid t)%nat.
Proof. induction s as [|c s IH]; [done|]. rewrite string_app_cons. cbn [solid]. rewrite IH. lia. Qed.

Lemma solid_trim_right s : solid (trim_right s) = solid s.
Proof.
  induction s as [|c s IH]; [done|]. cbn [trim_right solid]. destruct (trim_right s).
  - destruct (IsSpace c) eqn:E; cbn [solid] in *; rewrite ?E; lia.
  - cbn [solid] in *. lia.
Qed.

Lemma solid_TrimSpace s : solid (TrimSpace s) = solid s.
Proof.
  unfold TrimSpace. rewrite solid_trim_right. induction s as [|c s IH]; [done|]. cbn [trim_left].
  destruct (IsSpace c) eqn:E; [|done]. rewrite IH. cbn [solid]. by rewrite E.
Qed.

Fixpoint texts_solid (l : list (string * Marker)) (tail : string) : nat :=
  match l with [] => solid tail | (t, _) :: l => solid t + texts_solid l tail end.

Lemma texts_solid_fill f l tail : (texts_solid l tail ≤ solid (fill f l tail))%nat.
Proof.
  induction l as [|[t m] l IH]; [done|]. cbn [texts_solid fill foldr fst snd]. fold (fill f l tail).
  rewrite !solid_app. lia.
Qed.

Lemma solid_fill f l tail m :
  m ∈ l.*2 → f m = marker_text m → (texts_solid l tail + solid (marker_text m) ≤ solid (fill f l tail))%nat.
Proof.
  induction l as [|[t m'] l IH]; intros Hm Hf; [by apply not_elem_of_nil in Hm|].
  cbn [texts_solid fill foldr fst snd]. fold (fill f l tail). rewrite !solid_app.
  apply elem_of_cons in Hm as [->|Hm].
  - cbn [snd] in *. rewrite Hf. pose proof (texts_solid_fill f l tail). lia.
  - specialize (IH Hm Hf). lia.
Qed.

(** With some text around it, no variable is alone on its line. *)
Lemma keepOnOneLine_solid f l tail m v :
  (0 < texts_solid l tail)%nat → m ∈ l.*2 → f m = marker_text m →
  keepOnOneLine (fill f l tail) (marker_text m) v = ReplaceNewlines v.
Proof.
  intros Hs Hm Hf. unfold keepOnOneLine. destruct (String.eqb_spec (TrimSpace (fill f l tail)) (marker_text m)) as [E|]; [|done].
  pose proof (solid_fill f l tail m Hm Hf) as H. rewrite <- (solid_TrimSpace (fill f l tail)), E in H. lia.
Qed.

Lemma trim_left_app t s : solid t = 0%nat → trim_left (t +:+ s) = trim_left s.
Proof.
  induction t as [|c t IH]; intros H; [done|]. rewrite string_app_cons. cbn [trim_left solid] in *.
  destruct (IsSpace c); [by apply IH|lia].
Qed.

Lemma trim_right_blank t : solid t = 0%nat → trim_right t = "".
Proof.
  induction t as [|c t IH]; intros H; [done|]. cbn [trim_right solid] in *. rewrite IH by lia. by destruct (IsSpace c).
Qed.

Lemma trim_right_marker m : trim_right (marker_text m) = marker_text m.
Proof.
  assert (marker_text m = (("%%" +:+ content m +:+ "%") +:+ String percent "") +:+ "") as ->
    by (unfold marker_text, mark_text; rewrite !string_app_assoc; reflexivity).
  by rewrite trim_right_snoc.
Qed.

Lemma keepOnOneLine_alone t m v :
  solid t = 0%nat → keepOnOneLine (t +:+ marker_text m) (marker_text m) v = v.
Proof.
  intros Ht. unfold keepOnOneLine, TrimSpace. rewrite trim_left_app by done.
  change (trim_left (marker_text m)) with (marker_text m). by rewrite trim_right_marker, String.eqb_refl.
Qed.

Lemma fill_ext f g l tail : (∀ m, m ∈ l.*2 → f m = g m) → fill f l tail = fill g l tail.
Proof.
  induction l as [|[t m] l IH]; intros H; [done|]. cbn [fill foldr fst snd]. rewrite H by (cbn; by left).
  fold (fill f l tail) (fill g l tail). by rewrite IH by (intros m' Hm'; apply H; by right).
Qed.

Lemma texts_solid_trim l tail : texts_solid l (trim_right tail) = texts_solid l tail.
Proof.
  induction l as [|[t m] l IH]; cbn [texts_solid]; [apply solid_trim_right|by rewrite IH].
Qed.



(** ** The freq directive never renders a zero interval count *)
Lemma freq_value_positive per valNum total : 1 < total → 1 ≤ freq_value per valNum total.
Proof.
  intros H. unfold freq_value. destruct (Z.ltb_spec 1 total); [|lia]. rewrite andb_true_r.
  by match goal with |- context [?v <? 1] => destruct (Z.ltb_spec v 1); lia end.
Qed.
