(* ===== verification/Cache.v ===== *)
(** * Cache: internal/cache

    The in-memory configuration cache.  Every access to the map runs under its
    lock, so a lookup, a store, an invalidation and a clean-up are one step each;
    a fetch runs between two of them, and what may happen there is left open (see
    Loaders).  The clock's readings are arguments, in nanoseconds; the content
    hash (MD5 of the JSON text) is a parameter. *)
From S2P Require Import Prelude.
Open Scope Z_scope.

Definition CacheTTL : Z := 300.
Definition second : Z := 1000000000.

Record MemoryCacheEntry (A : Type) := {
  Data : A;
  Timestamp : Z;
  Hash : string;
  TTL : Z }.
Arguments Data {A}.
Arguments Timestamp {A}.
Arguments Hash {A}.
Arguments TTL {A}.

Record ConfigCache (A : Type) := {
  memoryCache : gmap string (MemoryCacheEntry A);
  maxMemoryItems : nat;
  skipCache : bool }.
Arguments memoryCache {A}.
Arguments maxMemoryItems {A}.
Arguments skipCache {A}.

Section cache.
Context {A : Type}.
Variable generateHash : A → string.

Definition NewCache (skip : bool) : ConfigCache A := {| memoryCache := ∅; maxMemoryItems := 20; skipCache := skip |}.

Definition set_memory (f : gmap string (MemoryCacheEntry A) → gmap string (MemoryCacheEntry A)) (cc : ConfigCache A)
    : ConfigCache A :=
  {| memoryCache := f (memoryCache cc); maxMemoryItems := maxMemoryItems cc; skipCache := skipCache cc |}.

Definition SetSkipCache (skip : bool) (cc : ConfigCache A) : ConfigCache A :=
  {| memoryCache := memoryCache cc; maxMemoryItems := maxMemoryItems cc; skipCache := skip |}.

(** The age of an entry is over its time to live. *)
Definition expired (now : Z) (e : MemoryCacheEntry A) : bool := TTL e * second <? now - Timestamp e.

Definition getFromMemoryCache (now : Z) (key : string) (cc : ConfigCache A) : option (MemoryCacheEntry A) :=
  e ← memoryCache cc !! key; if expired now e then None else Some e.

Definition setMemoryCache (now : Z) (key : string) (data : A) (hash : string) (cc : ConfigCache A) : ConfigCache A :=
  set_memory (insert key {| Data := data; Timestamp := now; Hash := hash; TTL := CacheTTL |}) cc.

(** [GetCachedConfig] in its two steps: the lookup ([None]: the data must be
    fetched), and the store of what was fetched. *)
Definition cached_lookup (now : Z) (key : string) (cc : ConfigCache A) : option A :=
  if skipCache cc then None else Data <$> getFromMemoryCache now key cc.

Definition cached_store (now : Z) (key : string) (data : A) (cc : ConfigCache A) : ConfigCache A :=
  if skipCache cc then cc else setMemoryCache now key data "" cc.

(** The whole call, when nothing else touches the cache during the fetch. *)
Definition GetCachedConfig {E} (now later : Z) (key : string) (fetch : A + E) (cc : ConfigCache A)
    : (A + E) * ConfigCache A :=
  match cached_lookup now key cc with
  | Some data => (inl data, cc)
  | None => match fetch with
            | inr e => (inr e, cc)
            | inl data => (inl data, cached_store later key data cc)
            end
  end.

Definition previousHash (key : string) (cc : ConfigCache A) : string :=
  match memoryCache cc !! key with
  | None => ""
  | Some e => if String.eqb (Hash e) "" then generateHash (Data e) else Hash e
  end.

Definition GetCachedConfigWithChangeDetection {E} (now later : Z) (key : string) (fetch : A + E) (cc : ConfigCache A)
    : (A * bool + E) * ConfigCache A :=
  if skipCache cc then (match fetch with inl d => inl (d, true) | inr e => inr e end, cc)
  else
    match getFromMemoryCache now key cc with
    | Some e => (inl (Data e, false), cc)
    | None =>
        match fetch with
        | inr e => (inr e, cc)
        | inl data =>
            let newHash := generateHash data in
            let previous := previousHash key cc in
            (inl (data, String.eqb previous "" || negb (String.eqb previous newHash)),
             setMemoryCache later key data newHash cc)
        end
    end.

Definition ClearCache (cc : ConfigCache A) : ConfigCache A := set_memory (λ _, ∅) cc.

Definition GetCacheKeys (cc : ConfigCache A) : list string := (map_to_list (memoryCache cc)).*1.

(** The number of entries removed, and the cache without them. *)
Definition InvalidateCacheByPrefix (prefix : string) (cc : ConfigCache A) : nat * ConfigCache A :=
  (length (List.filter (λ k, HasPrefix k prefix) (GetCacheKeys cc)),
   set_memory (filter (λ kv, HasPrefix kv.1 prefix = false)) cc).

(** *** The clean-up *)

(** Oldest first; entries of one age stand in the order of the map's iteration. *)
Definition older (a b : string * MemoryCacheEntry A) : bool := Timestamp a.2 <=? Timestamp b.2.

Fixpoint insert_older (x : string * MemoryCacheEntry A) (l : list (string * MemoryCacheEntry A)) :=
  match l with [] => [x] | y :: l => if older x y then x :: y :: l else y :: insert_older x l end.

Definition by_age (entries : list (string * MemoryCacheEntry A)) : list (string * MemoryCacheEntry A) :=
  foldr insert_older [] entries.

Definition evict (m : gmap string (MemoryCacheEntry A)) (max : nat) : gmap string (MemoryCacheEntry A) :=
  if (max <? size m)%nat
  then foldr (λ kv m, delete kv.1 m) m (take (size m - max) (by_age (map_to_list m)))
  else m.

Definition runCleanup (now : Z) (cc : ConfigCache A) : ConfigCache A :=
  set_memory (λ m, evict (filter (λ kv, expired now kv.2 = false) m) (maxMemoryItems cc)) cc.

(** ** Facts *)

Lemma cached_store_lookup now later key data cc :
  skipCache cc = false → later - now ≤ CacheTTL * second →
  cached_lookup later key (cached_store now key data cc) = Some data.
Proof.
  intros Hs Ht. unfold cached_store, cached_lookup. rewrite Hs. cbn. rewrite Hs. unfold getFromMemoryCache. cbn.
  rewrite lookup_insert_eq. cbn. unfold expired. cbn. by rewrite (proj2 (Z.ltb_ge _ _)) by lia.
Qed.

(** After an invalidation nothing with the prefix is found, and all else is untouched. *)
Lemma InvalidateCacheByPrefix_spec prefix cc key :
  memoryCache (InvalidateCacheByPrefix prefix cc).2 !! key =
  if HasPrefix key prefix then None else memoryCache cc !! key.
Proof.
  cbn. destruct (HasPrefix key prefix) eqn:E.
  - apply map_lookup_filter_None. right. intros x _ Hx. cbn [fst] in Hx. congruence.
  - destruct (memoryCache cc !! key) as [e|] eqn:Ek.
    + by apply map_lookup_filter_Some.
    + apply map_lookup_filter_None. by left.
Qed.

Lemma insert_older_perm x l : insert_older x l ≡ₚ x :: l.
Proof.
  induction l as [|y l IH]; [done|]. cbn. destruct (older x y); [done|]. rewrite IH. apply Permutation_swap.
Qed.

Lemma by_age_perm l : by_age l ≡ₚ l.
Proof. induction l as [|x l IH]; [done|]. cbn. by rewrite insert_older_perm, IH. Qed.

Lemma older_total a b : older a b = false → older b a = true.
Proof. unfold older. rewrite Z.leb_gt, Z.leb_le. lia. Qed.

Lemma insert_older_sorted x l : StronglySorted (λ a b, older a b = true) l → StronglySorted (λ a b, older a b = true) (insert_older x l).
Proof.
  induction 1 as [|y l Hl IH Hy]; cbn; [repeat constructor|]. destruct (older x y) eqn:E.
  - constructor; [by constructor|]. constructor; [done|]. eapply Forall_impl; [exact Hy|]. intros z Hz.
    unfold older in *. rewrite Z.leb_le in *. lia.
  - constructor; [done|]. apply (Permutation_Forall (symmetry (insert_older_perm x l))).
    constructor; [by apply older_total|done].
Qed.

Lemma by_age_sorted l : StronglySorted (λ a b, older a b = true) (by_age l).
Proof. induction l as [|x l IH]; [constructor|]. by apply insert_older_sorted. Qed.

Lemma foldr_delete_lookup (l : list (string * MemoryCacheEntry A)) (m : gmap string (MemoryCacheEntry A)) k :
  foldr (λ kv m, delete kv.1 m) m l !! k = if decide (k ∈ l.*1) then None else m !! k.
Proof.
  induction l as [|[k' e'] l IH]; cbn [foldr].
  - rewrite decide_False by (apply not_elem_of_nil). done.
  - cbn [fst fmap list_fmap]. destruct (decide (k = k')) as [->|Hne].
    + rewrite lookup_delete_eq, decide_True; [done|by left].
    + rewrite lookup_delete_ne by done. rewrite IH. destruct (decide (k ∈ l.*1)).
      * rewrite decide_True; [done|by right].
      * rewrite decide_False; [done|]. by intros [->|?]%elem_of_cons.
Qed.

(** What an eviction keeps: [max] entries at most, none older than one that was removed. *)
Lemma evict_spec m max :
  (size (evict m max) ≤ max)%nat ∧ evict m max ⊆ m ∧
  ∀ k e k' e', m !! k = Some e → evict m max !! k = None → evict m max !! k' = Some e' → Timestamp e ≤ Timestamp e'.
Proof.
  unfold evict. destruct (Nat.ltb_spec max (size m)) as [Hlt|Hge]; [|split_and!; [done|done|intros; congruence]].
  set (n := (size m - max)%nat). set (l := by_age (map_to_list m)).
  assert (Hperm : l ≡ₚ map_to_list m) by apply by_age_perm.
  assert (Hnodup : NoDup l.*1) by (rewrite Hperm; apply NoDup_fst_map_to_list).
  assert (Hlen : length l = size m) by (rewrite Hperm; apply length_map_to_list).
  assert (Hm : m = list_to_map l) 
    by (rewrite <- (list_to_map_to_list m) at 1; apply list_to_map_proper; [apply NoDup_fst_map_to_list|by symmetry]).
  assert (Hkeep : ∀ k e, foldr (λ kv m, delete kv.1 m) m (take n l) !! k = Some e ↔ (k, e) ∈ drop n l).
  { intros k e. rewrite foldr_delete_lookup. rewrite <- (take_drop n l) in Hnodup. rewrite fmap_app in Hnodup.
    apply NoDup_app in Hnodup as (_ & Hdis & _). destruct (decide (k ∈ (take n l).*1)) as [Hin|Hin].
    - split; [done|]. intros He. destruct (Hdis k Hin). apply list_elem_of_fmap. by exists (k, e).
    - rewrite Hm, <- elem_of_list_to_map by (rewrite Hperm; apply NoDup_fst_map_to_list).
      rewrite <- (take_drop n l) at 1. rewrite elem_of_app. split; [|by right]. intros [He|He]; [|done].
      destruct Hin. apply list_elem_of_fmap. by exists (k, e). }
  split_and!.
  - assert (Hsz : foldr (λ kv m, delete kv.1 m) m (take n l) = list_to_map (drop n l)).
    { apply map_eq. intros k. apply option_eq. intros e. rewrite Hkeep. apply elem_of_list_to_map.
      rewrite <- (take_drop n l), fmap_app in Hnodup. by apply NoDup_app in Hnodup as (_ & _ & ?). }
    rewrite Hsz, map_size_list_to_map, length_drop, Hlen; [lia|].
    rewrite <- (take_drop n l), fmap_app in Hnodup. by apply NoDup_app in Hnodup as (_ & _ & ?).
  - apply map_subseteq_spec. intros k e He. rewrite foldr_delete_lookup in He. by destruct (decide _).
  - intros k e k' e' Hk Hnone Hk'. apply Hkeep in Hk'. rewrite foldr_delete_lookup in Hnone.
    destruct (decide (k ∈ (take n l).*1)) as [Hin|]; [|congruence]. apply list_elem_of_fmap in Hin as ([k2 e2] & -> & Hin).
    assert (e2 = e) as ->.
    { assert ((k2, e2) ∈ l) as H2 by (rewrite <- (take_drop n l), elem_of_app; by left). rewrite Hperm in H2.
      apply elem_of_map_to_list in H2. cbn in Hk. congruence. }
    pose proof (by_age_sorted (map_to_list m)) as Hsort. fold l in Hsort. rewrite <- (take_drop n l) in Hsort.
    apply StronglySorted_app_1_elem_of with (x1 := (k2, e)) (x2 := (k', e')) in Hsort; [|done|done].
    unfold older in Hsort. by apply Z.leb_le in Hsort.
Qed.
End cache.
