(* ===== verification/LcDefaults.v ===== *)
(** * LcDefaults: the compiled-in localconfig keys

    The tables of internal/localconfig/lcdefaults.go, entry for entry. *)
From S2P Require Import Prelude.

Definition lcDefaults_entries : list (string * string) := [
  ("acl_cache_credential_maxsize", "512");
  ("acl_cache_enabled", "true");
  ("acl_cache_target_maxage", "15");
  ("acl_cache_target_maxsize", "1024");
  ("alias_login_enabled", "true");
  ("antispam_backup_retention", "0");
  ("antispam_enable_restarts", "true");
  ("antispam_enable_rule_compilation", "false");
  ("antispam_enable_rule_updates", "true");
  ("antispam_mysql_data_directory", "${zimbra_home}/data/amavisd/mysql/data");
  ("antispam_mysql_enabled", "false");
  ("antispam_mysql_errlogfile", "${zimbra_home}/log/antispam-mysqld.log");
  ("antispam_mysql_mycnf", "${zimbra_home}/conf/antispam-my.cnf");
  ("antispam_mysql_password", "");
  ("antispam_mysql_port", "7308");
  ("antispam_mysql_root_password", "");
  ("antispam_mysql_user", "zimbra");
  ("attachment_extraction_client_class", "com.zimbra.cs.convert.LegacyConverterClient");
  ("autoprov_initial_sleep_ms", "300000");
  ("av_notify_domain", "");
  ("av_notify_user", "");
  ("calendar_allow_invite_without_method", "false");
  ("calendar_apple_ical_compatible_canceled_instances", "true");
  ("calendar_cache_directory", "${zimbra_tmp_directory}/calcache");
  ("calendar_cache_enabled", "true");
  ("calendar_cache_lru_size", "1000");
  ("calendar_cache_max_stale_items", "10");
  ("calendar_cache_range_month_from", "0");
  ("calendar_cache_range_months", "3");
  ("calendar_entourage_compatible_timezones", "true");
  ("calendar_exchange_form_auth_url", "/exchweb/bin/auth/owaauth.dll");
  ("calendar_freebusy_max_days", "366");
  ("calendar_ics_export_buffer_size", "131072");
  ("calendar_ics_import_full_parse_max_size", "131072");
  ("calendar_item_get_max_retries", "100");
  ("calendar_max_desc_in_metadata", "4096");
  ("calendar_outlook_compatible_allday_events", "false");
  ("calendar_resource_ldap_search_maxsize", "1000");
  ("calendar_search_max_days", "400");
  ("cbpolicyd_cache_file", "${zimbra_home}/data/cbpolicyd/cbpolicyd.cache");
  ("cbpolicyd_db_file", "${zimbra_home}/data/cbpolicyd/db/cbpolicyd.sqlitedb");
  ("cbpolicyd_log_detail", "modules");
  ("cbpolicyd_log_file", "${zimbra_log_directory}/cbpolicyd.log");
  ("cbpolicyd_log_mail", "main");
  ("check_dl_membership_enabled", "true");
  ("cli_httpclient_soaphttptransport_so_timeout", "2147483647");
  ("client_ssl_truststore", "${mailboxd_truststore}");
  ("client_ssl_truststore_password", "${mailboxd_truststore_password}");
  ("client_use_native_proxy_selector", "false");
  ("client_use_system_proxy", "false");
  ("command_line_editing_enabled", "true");
  ("common_passwords_txt", "${zimbra_home}/conf/common-passwords.txt");
  ("compute_aggregate_quota_threads", "10");
  ("contact_ranking_enabled", "true");
  ("conversation_ignore_maillist_prefix", "true");
  ("conversation_max_age_ms", "2678400000");
  ("create_db_sql_file", "${mailboxd_directory}/../db/create_database.sql");
  ("data_source_config", "${zimbra_home}/conf/datasource.xml");
  ("data_source_eas_mime_truncation", "4");
  ("data_source_eas_sync_calendar", "true");
  ("data_source_eas_sync_contacts", "true");
  ("data_source_eas_sync_email", "true");
  ("data_source_eas_sync_tasks", "true");
  ("data_source_eas_window_size", "50");
  ("data_source_fetch_size", "5");
  ("data_source_imap_reuse_connections", "false");
  ("data_source_ioexception_handler_class", "com.zimbra.cs.datasource.IOExceptionHandler");
  ("data_source_max_message_memory_size", "2097152");
  ("data_source_new_sync_enabled", "false");
  ("data_source_scheduling_enabled", "true");
  ("data_source_trust_self_signed_certs", "false");
  ("data_source_xsync_class", "");
  ("data_source_xsync_factory_class", "");
  ("debug_xmpp_disable_client_tls", "0");
  ("derby_properties", "${zimbra_home}/conf/derby.properties");
  ("disable_all_event_logging", "true");
  ("disable_all_search_history", "true");
  ("document_incoming_max_age", "360");
  ("empty_folder_batch_sleep_ms", "1");
  ("enable_delegated_admin_ldap_access", "true");
  ("ews_service_wsdl_location", "/opt/zextras/lib/ext/zimbraews/");
  ("exchange_free_busy_interval_min", "15");
  ("external_store_delete_max_ioexceptions", "25");
  ("external_store_local_cache_max_bytes", "1073741824");
  ("external_store_local_cache_max_files", "10000");
  ("external_store_local_cache_min_lifetime", "60000");
  ("files_service_url", "http://127.78.0.7:20002");
  ("filter_null_env_sender_for_dsn_redirect", "true");
  ("folder_tag_cache_lock_timeout_seconds", "10");
  ("freebusy_disable_nodata_status", "false");
  ("freebusy_queue_directory", "${zimbra_home}/fbqueue/");
  ("gal_group_cache_maxage", "10080");
  ("gal_group_cache_maxsize_domains", "10");
  ("gal_group_cache_maxsize_per_domain", "0");
  ("httpclient_convertd_keepalive_connections", "true");
  ("httpclient_convertd_so_timeout", "-1");
  ("httpclient_external_client_connection_timeout", "30000");
  ("httpclient_external_connmgr_connection_timeout", "25000");
  ("httpclient_external_connmgr_idle_reaper_connection_timeout", "300000");
  ("httpclient_external_connmgr_idle_reaper_sleep_interval", "300000");
  ("httpclient_external_connmgr_max_host_connections", "100");
  ("httpclient_external_connmgr_max_total_connections", "300");
  ("httpclient_external_connmgr_so_timeout", "45000");
  ("httpclient_external_connmgr_stale_connection_check", "true");
  ("httpclient_external_connmgr_tcp_nodelay", "false");
  ("httpclient_internal_client_connection_timeout", "30000");
  ("httpclient_internal_connmgr_connection_timeout", "25000");
  ("httpclient_internal_connmgr_idle_reaper_connection_timeout", "300000");
  ("httpclient_internal_connmgr_idle_reaper_sleep_interval", "300000");
  ("httpclient_internal_connmgr_max_host_connections", "100");
  ("httpclient_internal_connmgr_max_total_connections", "300");
  ("httpclient_internal_connmgr_so_timeout", "60000");
  ("httpclient_internal_connmgr_stale_connection_check", "true");
  ("httpclient_internal_connmgr_tcp_nodelay", "false");
  ("httpclient_soaphttptransport_keepalive_connections", "true");
  ("httpclient_soaphttptransport_retry_count", "2");
  ("httpclient_soaphttptransport_so_timeout", "300000");
  ("ignore_imap_uid_range_search", "true");
  ("im_dnsutil_dnsoverride", "");
  ("imap_always_use_remote_store", "false");
  ("imap_authenticated_max_idle_time", "1800");
  ("imap_max_consecutive_error", "5");
  ("imap_max_idle_time", "60");
  ("imap_max_items_in_copy", "1000");
  ("imap_max_nesting_in_search_request", "100");
  ("imap_max_request_size", "10240");
  ("imap_max_time_to_wait_for_catchup_millis", "30000");
  ("imap_noninteractive_session_cache_maxage_days", "3");
  ("imap_thread_keep_alive_time", "60");
  ("imap_throttle_acct_limit", "5000");
  ("imap_throttle_command_limit", "25");
  ("imap_throttle_fetch", "true");
  ("imap_throttle_ip_limit", "5000");
  ("imap_use_ehcache", "true");
  ("imap_write_chunk_size", "8192");
  ("imap_write_timeout", "10");
  ("include_redis_attrs_in_lock_debug", "false");
  ("javamail_imap_debug", "false");
  ("javamail_imap_enable_starttls", "true");
  ("javamail_imap_test_timeout", "20");
  ("javamail_imap_timeout", "60");
  ("javamail_pop3_debug", "false");
  ("javamail_pop3_enable_starttls", "true");
  ("javamail_pop3_test_timeout", "20");
  ("javamail_pop3_timeout", "60");
  ("javamail_smtp_debug", "false");
  ("javamail_smtp_enable_starttls", "true");
  ("javamail_smtp_timeout", "60");
  ("javamail_zparser", "true");
  ("javamail_zsmtp", "true");
  ("jdbc_results_streaming_enabled", "true");
  ("krb5_debug_enabled", "false");
  ("krb5_keytab", "${zimbra_home}/conf/krb5.keytab");
  ("krb5_service_principal_from_interface_address", "false");
  ("ldap_accesslog_envflags", "writemap nometasync");
  ("ldap_accesslog_maxsize", "85899345920");
  ("ldap_amavis_password", "zmamavis");
  ("ldap_bind_url", "");
  ("ldap_cache_account_maxage", "15");
  ("ldap_cache_account_maxsize", "20000");
  ("ldap_cache_cos_maxage", "15");
  ("ldap_cache_cos_maxsize", "100");
  ("ldap_cache_custom_dynamic_group_membership_maxage_ms", "600000");
  ("ldap_cache_domain_maxage", "15");
  ("ldap_cache_domain_maxsize", "500");
  ("ldap_cache_external_domain_maxage", "15");
  ("ldap_cache_external_domain_maxsize", "10000");
  ("ldap_cache_group_maxage", "15");
  ("ldap_cache_group_maxsize", "2000");
  ("ldap_cache_mime_maxage", "15");
  ("ldap_cache_reverseproxylookup_domain_maxage", "15");
  ("ldap_cache_reverseproxylookup_domain_maxsize", "100");
  ("ldap_cache_reverseproxylookup_server_maxage", "15");
  ("ldap_cache_reverseproxylookup_server_maxsize", "100");
  ("ldap_cache_right_maxage", "15");
  ("ldap_cache_right_maxsize", "100");
  ("ldap_cache_server_maxage", "15");
  ("ldap_cache_server_maxsize", "100");
  ("ldap_cache_share_locator_maxage", "15");
  ("ldap_cache_share_locator_maxsize", "5000");
  ("ldap_cache_timezone_maxsize", "100");
  ("ldap_cache_xmppcomponent_maxage", "15");
  ("ldap_cache_xmppcomponent_maxsize", "100");
  ("ldap_cache_zimlet_maxage", "15");
  ("ldap_cache_zimlet_maxsize", "100");
  ("ldap_common_loglevel", "49152");
  ("ldap_common_require_tls", "0");
  ("ldap_common_threads", "8");
  ("ldap_common_tlsciphersuite", "MEDIUM:HIGH");
  ("ldap_common_tlsprotocolmin", "3.1");
  ("ldap_common_toolthreads", "2");
  ("ldap_common_writetimeout", "360");
  ("ldap_connect_pool_debug", "false");
  ("ldap_connect_pool_health_check_background_interval_millis", "30000");
  ("ldap_connect_pool_health_check_max_response_time_millis", "30000");
  ("ldap_connect_pool_health_check_on_checkout_enabled", "false");
  ("ldap_connect_pool_initsize", "1");
  ("ldap_connect_pool_master", "false");
  ("ldap_connect_pool_maxsize", "50");
  ("ldap_connect_pool_prefsize", "0");
  ("ldap_connect_pool_timeout", "120000");
  ("ldap_connect_timeout", "30000");
  ("ldap_db_envflags", "writemap nometasync");
  ("ldap_db_maxsize", "85899345920");
  ("ldap_db_rtxnsize", "0");
  ("ldap_deref_aliases", "always");
  ("ldap_dit_base_dn_admin", "");
  ("ldap_dit_base_dn_appadmin", "");
  ("ldap_dit_base_dn_config", "");
  ("ldap_dit_base_dn_cos", "");
  ("ldap_dit_base_dn_domain", "");
  ("ldap_dit_base_dn_global_dynamicgroup", "");
  ("ldap_dit_base_dn_mail", "");
  ("ldap_dit_base_dn_mime", "");
  ("ldap_dit_base_dn_server", "");
  ("ldap_dit_base_dn_share_locator", "");
  ("ldap_dit_base_dn_xmppcomponent", "");
  ("ldap_dit_base_dn_zimlet", "");
  ("ldap_dit_naming_rdn_attr_cos", "");
  ("ldap_dit_naming_rdn_attr_dynamicgroup", "");
  ("ldap_dit_naming_rdn_attr_globalconfig", "");
  ("ldap_dit_naming_rdn_attr_globalgrant", "");
  ("ldap_dit_naming_rdn_attr_mime", "");
  ("ldap_dit_naming_rdn_attr_server", "");
  ("ldap_dit_naming_rdn_attr_share_locator", "");
  ("ldap_dit_naming_rdn_attr_user", "");
  ("ldap_dit_naming_rdn_attr_xmppcomponent", "");
  ("ldap_dit_naming_rdn_attr_zimlet", "");
  ("ldap_host", "");
  ("ldap_is_master", "false");
  ("ldap_ldapi_socket_file", "${zimbra_home}/data/ldap/state/run/ldapi");
  ("ldap_master_url", "");
  ("ldap_monitor_alert_only", "true");
  ("ldap_monitor_critical", "90");
  ("ldap_monitor_growth", "25");
  ("ldap_monitor_mdb", "true");
  ("ldap_monitor_warning", "80");
  ("ldap_nginx_password", "zmnginx");
  ("ldap_overlay_accesslog_logpurge", "01+00:00  00+04:00");
  ("ldap_overlay_syncprov_checkpoint", "20 10");
  ("ldap_overlay_syncprov_sessionlog", "10000000");
  ("ldap_port", "");
  ("ldap_postfix_password", "zmpostfix");
  ("ldap_read_timeout", "300000");
  ("ldap_replication_password", "zmreplica");
  ("ldap_root_password", "zimbra");
  ("ldap_starttls_required", "true");
  ("ldap_starttls_supported", "0");
  ("ldap_url", "");
  ("lmtp_throttle_ip_limit", "0");
  ("localized_client_msgs_directory", "${mailboxd_directory}/webapps/zimbraAdmin/WEB-INF/classes/messages");
  ("localized_msgs_directory", "${zimbra_home}/conf/msgs");
  ("lock_based_cache_invalidation_enabled", "true");
  ("logger_data_directory", "${zimbra_home}/logger/db/data");
  ("logger_zmrrdfetch_port", "10663");
  ("mailbox_authz_api_bind_address", "127.78.0.7");
  ("mailbox_authz_api_port", "10001");
  ("mailbox_healthcheck_touchpoint_file", "/opt/zextras/healthcheck_touchpoint");
  ("mailbox_internal_api_bind_address", "127.78.0.7");
  ("mailbox_internal_api_port", "10000");
  ("mailboxd_directory", "${zimbra_home}/mailboxd");
  ("mailboxd_java_heap_new_size_percent", "25");
  ("mailboxd_java_options", "-server -Dhttps.protocols=TLSv1.2,TLSv1.3 -Djdk.tls.client.protocols=TLSv1.2,TLSv1.3 -Djava.awt.headless=true -Djava.net.preferIPv4Stack=true -Dsun.net.inetaddr.ttl=${networkaddress_cache_ttl} -Dorg.apache.jasper.compiler.disablejsr199=true -XX:+UseG1GC -XX:SoftRefLRUPolicyMSPerMB=1 -XX:+UnlockExperimentalVMOptions -XX:G1NewSizePercent=15 -XX:G1MaxNewSizePercent=45 -XX:-OmitStackTraceInFastThrow -verbose:gc -Xlog:gc*=info,safepoint=info:file=/opt/zextras/log/gc.log:time:filecount=20,filesize=10m -Djava.security.egd=file:/dev/./urandom --add-opens java.base/java.lang=ALL-UNNAMED");
  ("mailboxd_keystore", "${mailboxd_directory}/etc/keystore");
  ("mailboxd_keystore_base", "${zimbra_home}/conf/keystore.base");
  ("mailboxd_keystore_base_password", "zimbra");
  ("mailboxd_keystore_password", "zimbra");
  ("mailboxd_output_file", "${zimbra_log_directory}/${mailboxd_output_filename}");
  ("mailboxd_output_filename", "zmmailboxd.out");
  ("mailboxd_output_rotate_interval", "86400");
  ("mailboxd_pidfile", "${zimbra_log_directory}/mailboxd.pid");
  ("mailboxd_thread_stack_size", "256k");
  ("mailboxd_truststore", "${zimbra_java_home}/lib/security/cacerts");
  ("mailboxd_truststore_password", "changeit");
  ("max_image_size_to_resize", "10485760");
  ("milter_bind_port", "0");
  ("milter_in_process_mode", "false");
  ("milter_max_idle_time", "3630");
  ("milter_thread_keep_alive_time", "60");
  ("milter_write_chunk_size", "1024");
  ("milter_write_timeout", "10");
  ("mime_encode_compound_xwiniso2022jp_as_iso2022jp", "true");
  ("mime_encode_missing_blob", "true");
  ("mime_exclude_empty_content", "true");
  ("mime_handle_nonprintable_subject", "true");
  ("mime_max_recursion", "20");
  ("mime_promote_empty_multipart", "true");
  ("mime_split_address_at_semicolon", "true");
  ("mysql_backup_retention", "0");
  ("mysql_data_directory", "${zimbra_db_directory}/data");
  ("mysql_errlogfile", "/opt/zextras/log/mysql_error.log");
  ("mysql_memory_percent", "30");
  ("mysql_mycnf", "/opt/zextras/conf/my.cnf");
  ("mysql_port", "7306");
  ("mysql_root_password", "zimbra");
  ("networkaddress_cache_ttl", "60");
  ("nio_imap_enabled", "true");
  ("nio_max_write_queue_size", "10000");
  ("nio_pop3_enabled", "true");
  ("only_flush_cache_on_first_read_after_foreign_write", "true");
  ("out_of_disk_error_unix", "No space left on device");
  ("out_of_disk_error_windows", "There is not enough space on the disk");
  ("outside_transaction_threadlocal_cache_expiry_seconds", "30");
  ("outside_transaction_threadlocal_cache_max_size", "10");
  ("owasp_policy_file", "${zimbra_home}/conf/owasp_policy.xml");
  ("pop3_max_consecutive_error", "5");
  ("pop3_max_idle_time", "60");
  ("pop3_thread_keep_alive_time", "60");
  ("pop3_throttle_acct_limit", "5000");
  ("pop3_throttle_ip_limit", "5000");
  ("pop3_write_timeout", "10");
  ("postfix_mail_owner", "postfix");
  ("postfix_setgid_group", "postdrop");
  ("preview_service_url", "http://127.78.0.7:20001");
  ("public_share_advertising_scope", "samePrimaryDomain");
  ("purge_initial_sleep_ms", "1800000");
  ("redis_cache_synchronize_folder_tag_snapshot", "true");
  ("redis_cache_synchronize_folders_tags", "false");
  ("redis_cache_synchronize_item_cache", "true");
  ("redis_cache_synchronize_mailbox_state", "false");
  ("redis_cache_synchronize_waitset", "false");
  ("redis_cluster_reconnect_timeout", "15000");
  ("redis_cluster_scan_interval", "2000");
  ("redis_connection_timeout", "10000");
  ("redis_keep_alive", "true");
  ("redis_master_connection_pool_size", "200");
  ("redis_master_idle_connection_pool_size", "100");
  ("redis_netty_threads", "0");
  ("redis_num_lock_channels", "50");
  ("redis_num_pubsub_channels", "100");
  ("redis_num_retries", "10");
  ("redis_ping_connection_interval_millis", "10000");
  ("redis_retry_interval", "3000");
  ("redis_service_uri", "redis://zmc-redis:6379");
  ("redis_subscription_connection_pool_size", "200");
  ("redis_subscription_idle_connection_pool_size", "100");
  ("redis_subscriptions_per_connection", "10");
  ("redis_tcp_no_delay", "true");
  ("rest_response_cache_control_value", "no-store, no-cache");
  ("robots_txt", "${zimbra_home}/conf/robots.txt");
  ("search_dbfirst_term_percentage_cutoff", "0.8");
  ("search_disable_database_hints", "false");
  ("search_put_hits_chunk_size", "100");
  ("search_tagged_item_count_join_query_cutoff", "1000");
  ("servlet_max_concurrent_http_requests_per_account", "10");
  ("servlet_max_concurrent_requests_per_session", "0");
  ("shared_mime_info_globs", "${zimbra_home}/conf/globs2");
  ("shared_mime_info_magic", "${zimbra_home}/conf/magic");
  ("skins_directory", "${mailboxd_directory}/webapps/zimbra/skins");
  ("smime_truststore", "${mailboxd_truststore}");
  ("smime_truststore_password", "${mailboxd_truststore_password}");
  ("smtp_host_retry_millis", "60000");
  ("smtp_to_lmtp_enabled", "false");
  ("smtp_to_lmtp_port", "7024");
  ("soap_fault_include_stack_trace", "false");
  ("soap_response_buffer_size", "");
  ("soap_response_chunked_transfer_encoding_enabled", "true");
  ("socket_connect_timeout", "30000");
  ("socket_so_timeout", "30000");
  ("socks_enabled", "false");
  ("sqlite_cache_size", "500");
  ("sqlite_journal_mode", "PERSIST");
  ("sqlite_page_size", "4096");
  ("sqlite_shared_cache_enabled", "false");
  ("sqlite_sync_mode", "NORMAL");
  ("ssl_allow_accept_untrusted_certs", "true");
  ("ssl_allow_mismatched_certs", "true");
  ("ssl_allow_untrusted_certs", "true");
  ("ssl_default_digest", "sha256");
  ("ssl_disable_dh_cipher_suite", "true");
  ("stats_img_folder", "${zimbra_home}/logger/db/work");
  ("support_timer", "true");
  ("text_attachments_base64", "true");
  ("thread_pool_warn_percent", "100");
  ("threadlocal_cache_cleanup_interval_seconds", "120");
  ("timezone_file", "${zimbra_home}/conf/timezones.ics");
  ("tombstone_max_age_ms", "8035200000");
  ("transaction_threadlocal_cache_expiry_seconds", "300");
  ("triton_hash_type", "SHA0");
  ("triton_store_url", "");
  ("triton_upload_buffer_size", "25000");
  ("uncompressed_cache_min_lifetime", "60000");
  ("wsdl_use_public_service_hostname", "true");
  ("xml_invalid_chars_regex", "\&\#(?:x([0-9a-fA-F]+)|([0-9]+))\;");
  ("xmpp_client_compression_policy", "optional");
  ("xmpp_client_idle_timeout", "600000");
  ("xmpp_client_write_timeout", "60000");
  ("xmpp_cloudrouting_idle_timeout", "300000");
  ("xmpp_dns_override", "");
  ("xmpp_muc_default_history_type", "number");
  ("xmpp_muc_discover_locked", "true");
  ("xmpp_muc_enabled", "true");
  ("xmpp_muc_history_number", "25");
  ("xmpp_muc_idle_user_sweep_ms", "300000");
  ("xmpp_muc_idle_user_timeout_ms", "0");
  ("xmpp_muc_log_batch_size", "50");
  ("xmpp_muc_log_sweep_time_ms", "300000");
  ("xmpp_muc_restrict_room_creation", "false");
  ("xmpp_muc_room_create_jid_list", "");
  ("xmpp_muc_service_name", "conference");
  ("xmpp_muc_sysadmin_jid_list", "");
  ("xmpp_muc_unload_empty_hours", "5");
  ("xmpp_offline_quota", "102400");
  ("xmpp_offline_type", "store_and_drop");
  ("xmpp_private_storage_enabled", "true");
  ("xmpp_server_certificate_accept_selfsigned", "true");
  ("xmpp_server_certificate_verify", "false");
  ("xmpp_server_certificate_verify_chain", "true");
  ("xmpp_server_certificate_verify_root", "true");
  ("xmpp_server_certificate_verify_validity", "true");
  ("xmpp_server_compression_policy", "disabled");
  ("xmpp_server_dialback_enabled", "true");
  ("xmpp_server_outgoing_max_threads", "20");
  ("xmpp_server_outgoing_queue", "50");
  ("xmpp_server_processing_core_threads", "2");
  ("xmpp_server_processing_max_threads", "50");
  ("xmpp_server_processing_queue", "50");
  ("xmpp_server_read_timeout", "180000");
  ("xmpp_server_session_allowmultiple", "true");
  ("xmpp_server_session_idle", "1200000");
  ("xmpp_server_session_idle_check_time", "300000");
  ("xmpp_server_socket_remoteport", "5269");
  ("xmpp_server_tls_enabled", "true");
  ("xmpp_session_conflict_limit", "0");
  ("yauth_baseuri", "https://login.yahoo.com/WSLogin/V1");
  ("zimbraPrefCalenderScaling", "false");
  ("zimbra_active_waitset_timeout_minutes", "20");
  ("zimbra_activesync_autodiscover_use_service_url", "false");
  ("zimbra_activesync_contact_image_size", "2097152");
  ("zimbra_activesync_general_cache_size", "500");
  ("zimbra_activesync_heartbeat_interval_max", "3540");
  ("zimbra_activesync_heartbeat_interval_min", "300");
  ("zimbra_activesync_metadata_cache_expiration", "3600");
  ("zimbra_activesync_metadata_cache_max_size", "5000");
  ("zimbra_activesync_parallel_sync_enabled", "false");
  ("zimbra_activesync_search_max_results", "500");
  ("zimbra_activesync_syncstate_item_cache_heap_size", "10M");
  ("zimbra_activesync_versions", "2.0,2.1,2.5,12.0,12.1");
  ("zimbra_admin_service_port", "7071");
  ("zimbra_admin_service_scheme", "https://");
  ("zimbra_admin_waitset_default_request_timeout", "300");
  ("zimbra_admin_waitset_max_request_timeout", "3600");
  ("zimbra_admin_waitset_min_request_timeout", "0");
  ("zimbra_archive_formatter_disable_timeout", "true");
  ("zimbra_archive_formatter_search_chunk_size", "4096");
  ("zimbra_attrs_directory", "");
  ("zimbra_auth_always_send_refer", "false");
  ("zimbra_auth_provider", "");
  ("zimbra_authtoken_cache_size", "5000");
  ("zimbra_authtoken_cookie_domain", "");
  ("zimbra_blob_input_stream_buffer_size_kb", "1");
  ("zimbra_class_accessmanager", "com.zimbra.cs.account.accesscontrol.ACLAccessManager");
  ("zimbra_class_application", "com.zimbra.cs.util.ZimbraApplication");
  ("zimbra_class_attrmanager", "com.zimbra.cs.account.AttributeManager");
  ("zimbra_class_customproxyselector", "");
  ("zimbra_class_database", "com.zimbra.cs.db.MariaDB");
  ("zimbra_class_datasourcemanager", "com.zimbra.cs.datasource.DataSourceManager");
  ("zimbra_class_dbconnfactory", "com.zimbra.cs.db.ZimbraConnectionFactory");
  ("zimbra_class_galgroupinfoprovider", "com.zimbra.cs.gal.GalGroupInfoProvider");
  ("zimbra_class_index_store_factory", "com.zimbra.cs.index.LuceneIndex$Factory");
  ("zimbra_class_jsieve_comparators_ascii_casemap", "com.zimbra.cs.filter.ZimbraAsciiCasemap");
  ("zimbra_class_jsieve_comparators_ascii_numeric", "com.zimbra.cs.filter.ZimbraAsciiNumeric");
  ("zimbra_class_jsieve_comparators_octet", "com.zimbra.cs.filter.ZimbraOctet");
  ("zimbra_class_ldap_client", "com.zimbra.cs.ldap.LdapClient");
  ("zimbra_class_mboxmanager", "com.zimbra.cs.mailbox.MailboxManager");
  ("zimbra_class_provisioning", "com.zimbra.cs.account.ldap.LdapProvisioning");
  ("zimbra_class_rulerewriterfactory", "com.zimbra.cs.filter.RuleRewriterFactory");
  ("zimbra_class_soapsessionfactory", "com.zimbra.soap.SoapSessionFactory");
  ("zimbra_class_store", "com.zimbra.cs.store.file.FileBlobStore");
  ("zimbra_class_two_factor_auth_factory", "com.zimbra.cs.account.auth.twofactor.TwoFactorAuth$DefaultFactory");
  ("zimbra_configrewrite_timeout", "120");
  ("zimbra_converter_depth_max", "100");
  ("zimbra_converter_enabled_uuencode", "true");
  ("zimbra_csv_formatter_disable_timeout", "true");
  ("zimbra_csv_mapping_file", "${zimbra_home}/conf/contact-fields.xml");
  ("zimbra_dav_max_idle_time_ms", "0");
  ("zimbra_db_directory", "${zimbra_home}/db");
  ("zimbra_deregistered_authtoken_queue_size", "5000");
  ("zimbra_deserialize_classes", "");
  ("zimbra_directory_max_search_result", "5000");
  ("zimbra_disk_cache_servlet_flush", "true");
  ("zimbra_disk_cache_servlet_size", "1000");
  ("zimbra_enable_text_extraction", "true");
  ("zimbra_ews_autodiscover_use_service_url", "false");
  ("zimbra_extension_common_directory", "${zimbra_home}/lib/ext-common");
  ("zimbra_extension_directory", "${zimbra_home}/lib/ext");
  ("zimbra_feature_safe_unsubscribe_folder_enabled", "false");
  ("zimbra_feed_manager_blacklist", "10.0.0.0/8,172.16.0.0/12,192.168.0.0/16,fd00::/8");
  ("zimbra_feed_manager_whitelist", "");
  ("zimbra_file_content_type_blacklist", "application/x-ms*");
  ("zimbra_gal_sync_disable_timeout", "true");
  ("zimbra_galsync_index_reader_cache_size", "5");
  ("zimbra_gid", "-1");
  ("zimbra_home", "/opt/zextras");
  ("zimbra_http_originating_ip_header", "X-Forwarded-For");
  ("zimbra_im_chat_close_time", "3600");
  ("zimbra_im_chat_flush_time", "300");
  ("zimbra_imap_folder_pagination_enabled", "false");
  ("zimbra_imap_folder_pagination_size", "2000");
  ("zimbra_index_deferred_items_failure_delay", "300");
  ("zimbra_index_directory", "${zimbra_home}/index");
  ("zimbra_index_disable_perf_counters", "false");
  ("zimbra_index_elasticsearch_url_base", "http://localhost:9200/");
  ("zimbra_index_lucene_io_impl", "nio");
  ("zimbra_index_lucene_max_buffered_docs", "200");
  ("zimbra_index_lucene_max_merge", "2147483647");
  ("zimbra_index_lucene_max_terms_per_query", "50000");
  ("zimbra_index_lucene_merge_factor", "10");
  ("zimbra_index_lucene_merge_policy", "true");
  ("zimbra_index_lucene_min_merge", "1000");
  ("zimbra_index_lucene_ram_buffer_size_kb", "10240");
  ("zimbra_index_lucene_term_index_divisor", "1");
  ("zimbra_index_lucene_use_compound_file", "true");
  ("zimbra_index_max_readers", "35");
  ("zimbra_index_max_transaction_bytes", "5000000");
  ("zimbra_index_max_transaction_items", "100");
  ("zimbra_index_max_writers", "100");
  ("zimbra_index_reader_cache_size", "20");
  ("zimbra_index_reader_cache_ttl", "300");
  ("zimbra_index_rfc822address_max_token_count", "512");
  ("zimbra_index_rfc822address_max_token_length", "256");
  ("zimbra_index_threads", "10");
  ("zimbra_index_wildcard_max_terms_expanded", "20000");
  ("zimbra_java_home", "${zimbra_home}/common/lib/jvm/java");
  ("zimbra_jwt_cookie_size_limit", "4096");
  ("zimbra_ldap_password", "zimbra");
  ("zimbra_ldap_user", "zimbra");
  ("zimbra_ldap_userdn", "uid=zimbra,cn=admins,cn=zimbra");
  ("zimbra_listeners_maxsize", "5");
  ("zimbra_lmtp_max_line_length", "10240");
  ("zimbra_lmtp_validate_messages", "true");
  ("zimbra_log4j_properties", "${zimbra_home}/conf/log4j.properties");
  ("zimbra_log_directory", "${zimbra_home}/log");
  ("zimbra_mail_service_port", "80");
  ("zimbra_mailbox_active_cache", "500");
  ("zimbra_mailbox_change_checkpoint_frequency", "100");
  ("zimbra_mailbox_galsync_cache", "10000");
  ("zimbra_mailbox_groups", "100");
  ("zimbra_mailbox_inactive_cache", "30");
  ("zimbra_mailbox_lock_max_waiting_threads", "15");
  ("zimbra_mailbox_lock_readwrite", "true");
  ("zimbra_mailbox_lock_timeout", "60");
  ("zimbra_mailbox_manager_hardref_cache", "2500");
  ("zimbra_minimize_resources", "false");
  ("zimbra_mtareport_max_hosts", "50");
  ("zimbra_mtareport_max_users", "50");
  ("zimbra_mysql_password", "zextras");
  ("zimbra_mysql_shutdown_timeout", "60");
  ("zimbra_mysql_user", "zextras");
  ("zimbra_nio_file_copy_chunk_size_kb", "512");
  ("zimbra_noop_default_timeout", "300");
  ("zimbra_noop_max_timeout", "1200");
  ("zimbra_noop_min_timeout", "30");
  ("zimbra_reindex_threads", "10");
  ("zimbra_relative_volume_path", "false");
  ("zimbra_remote_cmd_channel_timeout_min", "10");
  ("zimbra_require_interprocess_security", "0");
  ("zimbra_rights_delegated_admin_supported", "true");
  ("zimbra_rights_directory", "");
  ("zimbra_server_hostname", "localhost");
  ("zimbra_servlet_output_stream_buffer_size", "5120");
  ("zimbra_session_limit_admin", "5");
  ("zimbra_session_limit_imap", "15");
  ("zimbra_session_limit_soap", "20");
  ("zimbra_session_limit_sync", "5");
  ("zimbra_session_max_pending_notifications", "400");
  ("zimbra_session_timeout_soap", "600");
  ("zimbra_slow_logging_enabled", "false");
  ("zimbra_slow_logging_threshold", "5000");
  ("zimbra_spam_report_queue_size", "100");
  ("zimbra_ssl_enabled", "true");
  ("zimbra_store_copy_buffer_size_kb", "16");
  ("zimbra_store_directory", "${zimbra_home}/store");
  ("zimbra_store_sweeper_max_age", "480");
  ("zimbra_tmp_directory", "${zimbra_home}/data/tmp");
  ("zimbra_two_factor_apppasswd_update_authtime", "true");
  ("zimbra_uid", "-1");
  ("zimbra_use_owasp_html_sanitizer", "true");
  ("zimbra_user", "zextras");
  ("zimbra_vami_installmode", "single");
  ("zimbra_vami_password", "vmware");
  ("zimbra_vami_user", "vmware");
  ("zimbra_waitset_default_request_timeout", "300");
  ("zimbra_waitset_initial_sleep_time", "1000");
  ("zimbra_waitset_max_per_account", "5");
  ("zimbra_waitset_max_request_timeout", "1200");
  ("zimbra_waitset_min_request_timeout", "30");
  ("zimbra_waitset_nodata_sleep_time", "3000");
  ("zimbra_zmjava_java_ext_dirs", "");
  ("zimbra_zmjava_java_library_path", "");
  ("zimbra_zmjava_options", "-Xmx256m -Dhttps.protocols=TLSv1.2,TLSv1.3 -Djdk.tls.client.protocols=TLSv1.2,TLSv1.3 -Djava.net.preferIPv4Stack=true");
  ("zimbra_zmprov_default_soap_server", "localhost");
  ("zimbra_zmprov_default_to_ldap", "false");
  ("zimlet_deploy_timeout", "10");
  ("zimlet_directory", "${zimbra_home}/zimlets-deployed");
  ("zmailbox_message_cachesize", "1");
  ("zmconfigd_enable_config_restarts", "true");
  ("zmconfigd_interval", "60");
  ("zmconfigd_listen_port", "7171");
  ("zmconfigd_log_level", "3");
  ("zmconfigd_max_failed_restarts", "3");
  ("zmconfigd_startup_pause", "60");
  ("zmdisklog_critical_threshold", "95");
  ("zmdisklog_warn_threshold", "85");
  ("zmprov_safeguarded_attrs", "zimbraServiceEnabled,zimbraServiceInstalled");
  ("zmprov_tmp_directory", "${zimbra_tmp_directory}/zmprov");
  ("zmstat_df_excludes", "");
  ("zmstat_disk_interval", "6000");
  ("zmstat_interval", "30");
  ("zmstat_max_retention", "365")
].

Definition lcDefaults : gmap string string := list_to_map lcDefaults_entries.

Definition lcNullKeys : gset string := list_to_set [
  "antispam_mysql_host";
  "freebusy_exchange_cn1";
  "freebusy_exchange_cn2";
  "freebusy_exchange_cn3";
  "imap_max_message_size";
  "mailboxd_java_heap_size";
  "milter_bind_address";
  "mysql_bind_address";
  "mysql_innodb_log_buffer_size";
  "mysql_innodb_log_file_size";
  "mysql_read_buffer_size";
  "mysql_sort_buffer_size";
  "zimbra_activesync_autodiscover_url"
].

Definition lcProtected : gset string := list_to_set [
  "ldap_root_password";
  "mysql_root_password";
  "zimbra_home";
  "zimbra_ldap_password";
  "zimbra_mysql_password";
  "zimbra_vami_password"
].

(** The table has no key twice, so the map holds every entry. *)
Lemma lcDefaults_lookup k v : (k, v) ∈ lcDefaults_entries → lcDefaults !! k = Some v.
Proof.
  intros H. apply elem_of_list_to_map; [|done]. apply (bool_decide_unpack (NoDup lcDefaults_entries.*1)).
  vm_compute. done.
Qed.
