(* ===== verification/Localconfig.v ===== *)
(** * Localconfig: the local configuration of a node

    internal/localconfig: the expansion of references (resolve.go), the layers of
    the effective configuration (effective.go), the file (localconfig.go,
    writer.go) and the output formats (formats.go).  The file is modelled as the
    elements of its XML document; the codec itself is Go's encoding/xml.  Maps are
    ranged over in an order of the caller's choice, as Go ranges in any order. *)
From S2P Require Import Prelude Files MtaLoad.

(** ** resolve.go: references *)

(** [varPattern]: a dollar and an opening brace, a name without closing brace
    that is not empty, and the closing brace. *)
Inductive Seg := Text (c : ascii) | Ref (name : string).

#[export] Instance Seg_eq_dec : EqDecision Seg.
Proof. solve_decision. Defined.

Definition dollar : ascii := "$".
Definition lbrace : ascii := "{".
Definition rbrace : ascii := "}".

Definition ref_text (name : string) : string := "${" +:+ name +:+ "}".

(** The name of the reference [s] begins with. *)
Definition ref_at (s : string) : option string :=
  match s with
  | String c (String c' t) =>
      if Ascii.eqb c dollar && Ascii.eqb c' lbrace then
        match CutByte rbrace t with
        | Some (EmptyString, _) | None => None
        | Some (name, _) => Some name
        end
      else None
  | _ => None
  end.

(** The matches of the pattern, leftmost first, and the text between them;
    [skip] counts the bytes of the match being passed. *)
Fixpoint segments_go (skip : nat) (s : string) : list Seg :=
  match s with
  | EmptyString => []
  | String c s' =>
      match skip with
      | S n => segments_go n s'
      | O =>
          match ref_at s with
          | Some name => Ref name :: segments_go (String.length name + 2) s'
          | None => Text c :: segments_go 0 s'
          end
      end
  end.

Definition segments (s : string) : list Seg := segments_go 0 s.

Fixpoint concat_map (f : Seg → string) (l : list Seg) : string :=
  match l with [] => "" | x :: l => f x +:+ concat_map f l end.

(** [varPattern.ReplaceAllStringFunc] *)
Definition ReplaceAllStringFunc (s : string) (f : string → string) : string :=
  concat_map (λ x, match x with Text c => String c "" | Ref name => f (ref_text name) end) (segments s).

Definition maxInterpolationDepth : nat := 10.

(** [resolveVarRef]: what replaces the match, and whether it is a substitution. *)
Definition resolveVarRef (m : string) (config : gmap string string) : string * nat :=
  let varName := take_string (String.length m - 3) (drop_string 2 m) in
  match config !! varName with
  | Some replacement => if String.eqb replacement m then (m, 0) else (replacement, 1)
  | None => (m, 0)
  end%nat.

Definition count_refs (f : string → nat) (l : list Seg) : nat :=
  foldr (λ x n, match x with Text _ => n | Ref name => f (ref_text name) + n end)%nat 0%nat l.

(** One key of a pass. *)
Definition interpolateKey (config : gmap string string) (key : string) : gmap string string * nat :=
  match config !! key with
  | None => (config, 0)
  | Some value =>
      if negb (Contains value "${") then (config, 0)
      else (<[key := ReplaceAllStringFunc value (λ m, (resolveVarRef m config).1)]> config,
            count_refs (λ m, (resolveVarRef m config).2) (segments value))
  end%nat.

(** A pass ranges over the keys in some order, updating the map in place. *)
Fixpoint interpolatePass (order : list string) (config : gmap string string) : gmap string string * nat :=
  match order with
  | [] => (config, 0%nat)
  | key :: order =>
      let '(config, n) := interpolateKey config key in
      let '(config, subs) := interpolatePass order config in
      (config, (n + subs)%nat)
  end.

(** [orders i] is the order of the [i]th pass. *)
Fixpoint interpolate_go (n : nat) (orders : nat → list string) (config : gmap string string) :
    gmap string string * nat :=
  match n with
  | O => (config, 0%nat)
  | S n =>
      let '(config, subs) := interpolatePass (orders 0%nat) config in
      if (subs =? 0)%nat then (config, 0%nat)
      else let '(config, total) := interpolate_go n (λ i, orders (S i)) config in
           (config, (subs + total)%nat)
  end.

Definition Interpolate (orders : nat → list string) (config : gmap string string) : gmap string string * nat :=
  interpolate_go maxInterpolationDepth orders config.

(** [Legacy]: a view of the configured keys, and [LocalConfig]: the keys the writer
    decodes, to strings; a [Document] keeps the keys without a value. *)
Abbreviation Legacy := (gmap string string).
Abbreviation LocalConfig := (list (string * string)).
Abbreviation Document := (list (string * option string)).

Section defaults.
Variable Defaults : gmap string string.

Definition IsKnownKey (key : string) : bool := bool_decide (is_Some (Defaults !! key)).

Definition MergeDefaults (config : gmap string string) : gmap string string := config ∪ Defaults.

(** *** The legacy view *)

Definition Raw (l : Legacy) (key : string) : option string :=
  match l !! key with Some v => Some v | None => Defaults !! key end.

Definition Keys (l : Legacy) : list string := sorted_keys (l ∪ Defaults).

Definition ConfigError (msg : string) : string :=
  "com.zimbra.common.localconfig.ConfigException: " +:+ msg.

(** The name between the first opening and the closing brace after it. *)
Fixpoint first_ref (s : string) : option string :=
  match s with
  | EmptyString => None
  | String _ s' =>
      if HasPrefix s "${" then fst <$> CutByte rbrace (drop_string 2 s) else first_ref s'
  end.

(** [strings.ReplaceAll] for a non-empty [old] *)
Fixpoint replace_all (skip : nat) (old new s : string) : string :=
  match s with
  | EmptyString => ""
  | String c s' =>
      match skip with
      | S n => replace_all n old new s'
      | O => if HasPrefix s old then new +:+ replace_all (String.length old - 1) old new s'
             else String c (replace_all 0 old new s')
      end
  end.

Definition ReplaceAll (s old new : string) : string := replace_all 0 old new s.

(** The loop of [expandDeep], [rec] being the recursive call; [None] is a loop
    that has not ended within [n] turns. *)
Fixpoint expandLoop (rec : string → option (string + string)) (n : nat) (replacement : string) :
    option (string + string) :=
  match n with
  | O => None
  | S n =>
      match first_ref replacement with
      | None => Some (inl replacement)
      | Some nested =>
          match rec nested with
          | None => None
          | Some (inr err) => Some (inr err)
          | Some (inl expanded) => expandLoop rec n (ReplaceAll replacement (ref_text nested) expanded)
          end
      end
  end.

Fixpoint expandDeep (fuel : nat) (l : Legacy) (key : string) (seen : list string) : option (string + string) :=
  match fuel with
  | O => None
  | S fuel =>
      if bool_decide (key ∈ seen) then
        Some (inr (ConfigError ("recursive expansion of key '" +:+ key +:+ "': " +:+ Join seen " ")))
      else
        match Raw l key with
        | None => Some (inr (ConfigError ("null valued key '" +:+ key +:+ "' referenced")))
        | Some replacement =>
            expandLoop (λ nested, expandDeep fuel l nested (seen ++ [key])) fuel replacement
        end
  end.

(** [inl None]: the key has no value. *)
Definition Expand (fuel : nat) (l : Legacy) (key : string) : option (option string + string) :=
  match Raw l key with
  | None => Some (inl None)
  | Some _ =>
      match expandDeep fuel l key [] with
      | None => None
      | Some (inl v) => Some (inl (Some v))
      | Some (inr err) => Some (inr err)
      end
  end.

Fixpoint validate_keys (fuel : nat) (l : Legacy) (keys : list string) : option (unit + string) :=
  match keys with
  | [] => Some (inl tt)
  | key :: keys =>
      match Expand fuel l key with
      | None => None
      | Some (inr err) => Some (inr err)
      | Some (inl _) => validate_keys fuel l keys
      end
  end.

Definition Validate (fuel : nat) (l : Legacy) : option (unit + string) := validate_keys fuel l (Keys l).

(** ** localconfig.go and writer.go: the file *)

(** What is at the path: nothing, something unreadable, text that does not
    parse, or a document. *)
Inductive Content := Absent | Unreadable | Malformed | Parsed (doc : Document).

Inductive LcError := NotExist | ReadFailed | ParseFailed | KeyNotSet (key : string) | LockFailed | SaveFailed.

Definition LoadLocalConfigFile (c : Content) : (gmap string string * list string) + LcError :=
  match c with
  | Absent => inr NotExist
  | Unreadable => inr ReadFailed
  | Malformed => inr ParseFailed
  | Parsed doc =>
      inl (foldl (λ '(values, nulls) '(name, value),
                    match value with
                    | None => (values, nulls ++ [name])
                    | Some v => (<[name := TrimSpace v]> values, nulls)
                    end) (∅, []) doc)
  end.

Definition LoadLocalConfigFromFile (c : Content) : gmap string string + LcError :=
  match LoadLocalConfigFile c with inl (values, _) => inl values | inr e => inr e end.

(** The writer decodes into strings: a missing value is the empty one. *)
Definition readLocalConfigXML (c : Content) : LocalConfig + LcError :=
  match c with
  | Absent => inr NotExist
  | Unreadable => inr ReadFailed
  | Malformed => inr ParseFailed
  | Parsed doc => inl (map (λ '(name, value), (name, default "" value)) doc)
  end.

Definition readOrEmptyLocalConfig (c : Content) : LocalConfig + LcError :=
  match readLocalConfigXML c with inr NotExist => inl [] | r => r end.

(** [saveLocalConfig]: the document the file holds after it. *)
Definition saveLocalConfig (lc : LocalConfig) : Content := Parsed (map (λ '(name, value), (name, Some value)) lc).

Fixpoint setKey (lc : LocalConfig) (pair : string * string) : LocalConfig :=
  match lc with
  | [] => [pair]
  | (name, value) :: lc => if String.eqb name pair.1 then (name, pair.2) :: lc else (name, value) :: setKey lc pair
  end.

Definition removeKey (lc : LocalConfig) (key : string) : LocalConfig * bool :=
  let lc' := filter (λ kv, kv.1 ≠ key) lc in (lc', negb (length lc' =? length lc)%nat).

(** The body of [SetKeys] under the lock: the content it leaves. *)
Definition SetKeys_locked (pairs : list (string * string)) (c : Content) : Content + LcError :=
  match readOrEmptyLocalConfig c with
  | inr e => inr e
  | inl lc => inl (saveLocalConfig (foldl setKey lc pairs))
  end.

Fixpoint remove_keys (lc : LocalConfig) (keys : list string) : LocalConfig + LcError :=
  match keys with
  | [] => inl lc
  | key :: keys =>
      let '(lc', present) := removeKey lc key in
      if negb present && negb (IsKnownKey key) then inr (KeyNotSet key) else remove_keys lc' keys
  end.

Definition RemoveKeys_locked (keys : list string) (c : Content) : Content + LcError :=
  match readOrEmptyLocalConfig c with
  | inr e => inr e
  | inl lc => match remove_keys lc keys with inr e => inr e | inl lc' => inl (saveLocalConfig lc') end
  end.

(** *** The lock *)

(** One attempt to take the lock: taken, held by another (or interrupted), or
    refused. *)
Inductive Flock := Taken | Busy | Refused.

(** [flockWithTimeout]: every attempt with the time at which it is checked against
    the deadline; [None]: still polling. *)
Fixpoint flockWithTimeout (deadline : Z) (attempts : list (Flock * Z)) : option (unit + LcError) :=
  match attempts with
  | [] => None
  | (Taken, _) :: _ => Some (inl tt)
  | (Refused, _) :: _ => Some (inr LockFailed)
  | (Busy, now) :: attempts => if (deadline <? now)%Z then Some (inr LockFailed) else flockWithTimeout deadline attempts
  end.

(** The writers of the file, each a process that runs one operation. *)
Inductive Op := OpSet (pairs : list (string * string)) | OpRemove (keys : list string).

Definition run_op (o : Op) (c : Content) : Content + LcError :=
  match o with OpSet pairs => SetKeys_locked pairs c | OpRemove keys => RemoveKeys_locked keys c end.

(** Where a writer is: waiting for the lock, holding it, having read the file,
    having finished the operation, having released the lock, or dead. *)
Inductive Pc := Waiting | Locked | HasRead (c : Content) | Saved (r : unit + LcError)
              | Finished (r : unit + LcError) | Dead.

Record Writers := {
  ws_content : Content;
  ws_holder : option nat;
  ws_pcs : gmap nat Pc;
  (** the writers that replaced the file, in order *)
  ws_log : list nat
}.

Definition move (p : nat) (pc : Pc) (holder : option nat) (w : Writers) : Writers :=
  {| ws_content := ws_content w; ws_holder := holder; ws_pcs := <[p := pc]> (ws_pcs w); ws_log := ws_log w |}.

Definition publish (p : nat) (r : unit + LcError) (c : Content) (w : Writers) : Writers :=
  {| ws_content := c; ws_holder := ws_holder w; ws_pcs := <[p := Saved r]> (ws_pcs w); ws_log := ws_log w ++ [p] |}.

Section writers.
Variable ops : nat → Op.

(** [withFileLock]: the body runs between the lock and its release; the kernel
    releases the lock of a process that dies.  The file is replaced at once, by a
    rename, and an error after it (the directory is not synchronised) is reported
    although the file is there. *)
Inductive wstep : Writers → Writers → Prop :=
  | w_acquire w p : ws_pcs w !! p = Some Waiting → ws_holder w = None →
      wstep w (move p Locked (Some p) w)
  | w_give_up w p : ws_pcs w !! p = Some Waiting →
      wstep w (move p (Finished (inr LockFailed)) (ws_holder w) w)
  | w_read w p : ws_pcs w !! p = Some Locked →
      wstep w (move p (HasRead (ws_content w)) (ws_holder w) w)
  | w_refuse w p c e : ws_pcs w !! p = Some (HasRead c) → run_op (ops p) c = inr e →
      wstep w (move p (Saved (inr e)) (ws_holder w) w)
  | w_save w p c c' : ws_pcs w !! p = Some (HasRead c) → run_op (ops p) c = inl c' →
      wstep w (publish p (inl tt) c' w)
  | w_save_unsynced w p c c' : ws_pcs w !! p = Some (HasRead c) → run_op (ops p) c = inl c' →
      wstep w (publish p (inr SaveFailed) c' w)
  | w_save_failed w p c : ws_pcs w !! p = Some (HasRead c) →
      wstep w (move p (Saved (inr SaveFailed)) (ws_holder w) w)
  | w_release w p r : ws_pcs w !! p = Some (Saved r) →
      wstep w (move p (Finished r) None w)
  | w_crash w p pc : ws_pcs w !! p = Some pc →
      wstep w (move p Dead (if bool_decide (ws_holder w = Some p) then None else ws_holder w) w).
End writers.

(** ** effective.go *)
Definition EnvPrefix : string := "CONFIGD_LC_".
Definition EnvVar (key : string) : string := EnvPrefix +:+ key.

(** [environ] lists the variables as [name=value]. *)
Definition EnvOverrides (environ : list string) : gmap string string :=
  foldl (λ overrides kv,
    match CutByte "=" kv with
    | Some (name, value) =>
        if HasPrefix name EnvPrefix && negb (String.length name =? String.length EnvPrefix)%nat
        then <[drop_string (String.length EnvPrefix) name := value]> overrides
        else overrides
    | None => overrides
    end) ∅ environ.

(** [os.LookupEnv]: the first setting of the variable. *)
Fixpoint LookupEnv (environ : list string) (key : string) : option string :=
  match environ with
  | [] => None
  | kv :: environ =>
      match CutByte "=" kv with
      | Some (name, value) => if String.eqb name key then Some value else LookupEnv environ key
      | None => LookupEnv environ key
      end
  end.

Definition EnvOverride (environ : list string) (key : string) : option string := LookupEnv environ (EnvVar key).

Definition LoadEffectiveFrom (orders : nat → list string) (environ : list string) (c : Content)
    (overrides : gmap string string) : gmap string string + LcError :=
  match (match LoadLocalConfigFromFile c with inr NotExist => inl ∅ | r => r end) with
  | inr e => inr e
  | inl effective =>
      let effective := MergeDefaults effective in
      let effective := maps_Copy effective (EnvOverrides environ) in
      let effective := maps_Copy effective overrides in
      inl (Interpolate orders effective).1
  end.
End defaults.

(** ** formats.go *)
Definition orderedKeys (config : gmap string string) (order : list string) : list string :=
  match order with
  | [] => sorted_keys config
  | _ => filter (λ k, is_Some (config !! k)) order
  end.

Definition nl : string := String newline "".

Definition format_lines (line : string → string → string) (config : gmap string string) (order : list string) : string :=
  foldr (λ k s, line k (default "" (config !! k)) +:+ s) "" (orderedKeys config order).

Definition squote : ascii := "'".

Fixpoint ShellEscape (s : string) : string :=
  match s with
  | EmptyString => ""
  | String c s =>
      if Ascii.eqb c squote then String squote (String "\" (String squote (String squote (ShellEscape s))))
      else String c (ShellEscape s)
  end.

Definition FormatPlain := format_lines (λ k v, k +:+ " = " +:+ v +:+ nl).
Definition FormatShell := format_lines (λ k v, k +:+ "='" +:+ ShellEscape v +:+ "';" +:+ nl).
Definition FormatExport := format_lines (λ k v, "export " +:+ k +:+ "='" +:+ ShellEscape v +:+ "';" +:+ nl).
Definition FormatNokey := format_lines (λ _ v, v +:+ nl).

Definition FormatAsKeyValue (values : gmap string string) : string := FormatPlain values [].

Definition MaskPasswords (config : gmap string string) : gmap string string :=
  map_imap (λ k v, Some (if Contains k "password" then "*" else v)) config.

Definition normalizeSpace (s : string) : string := Join (Fields s) " ".
