(* ===== verification/ExpandProps.v ===== *)
(** * ExpandProps: the two expanders of references agree

    [Interpolate] substitutes in passes over the map, in whatever order Go ranges
    over it; [Expand] recurses through the references.  Both are compared with
    [meaning], the expansion by structural recursion on the nesting. *)
From S2P Require Import Prelude LcDefaults Localconfig.

Lemma drop_string_app s t : drop_string (String.length s) (s +:+ t) = t.
Proof. induction s as [|c s IH]; [by destruct t|]. exact IH. Qed.

(** ** Values and their segments *)
Definition print_seg (x : Seg) : string :=
  match x with Text c => String c "" | Ref name => ref_text name end.
Definition print (l : list Seg) : string := concat_map print_seg l.

(** A value is clean when each dollar of its text is followed by a character of
    the text other than an opening brace, and no name holds a dollar: then no
    substitution can put a new reference together. *)
Definition name_ok (name : string) : bool :=
  negb (String.eqb name "") && chars (λ c, negb (Ascii.eqb c rbrace) && negb (Ascii.eqb c dollar)) name.

Fixpoint ok_segs (l : list Seg) : bool :=
  match l with
  | [] => true
  | Text c :: l =>
      (negb (Ascii.eqb c dollar) ||
       match l with Text c' :: _ => negb (Ascii.eqb c' lbrace) | _ => false end) && ok_segs l
  | Ref name :: l => name_ok name && ok_segs l
  end.

Definition clean (v : string) : bool := ok_segs (segments v).

Lemma concat_map_app f l1 l2 : concat_map f (l1 ++ l2) = concat_map f l1 +:+ concat_map f l2.
Proof. induction l1 as [|x l1 IH]; cbn; [done|]. by rewrite IH, string_app_assoc. Qed.

Lemma ok_segs_app l1 l2 : ok_segs l1 → ok_segs l2 → ok_segs (l1 ++ l2).
Proof.
  intros H1 H2. induction l1 as [|[c|name] l1 IH]; cbn [app ok_segs] in *; [done| |].
  - apply andb_True in H1 as [Hc H1]. apply andb_True. split; [|by apply IH].
    apply orb_True in Hc. apply orb_True. destruct Hc as [Hc|Hc]; [by left|right].
    by destruct l1 as [|[] ?].
  - apply andb_True in H1 as [Hc H1]. apply andb_True. auto.
Qed.

Lemma CutByte_name name rest :
  chars (λ c, negb (Ascii.eqb c rbrace) && negb (Ascii.eqb c dollar)) name →
  CutByte rbrace (name +:+ String rbrace rest) = Some (name, rest).
Proof.
  induction name as [|c name IH]; intros Hn; [done|]. cbn [chars] in Hn. apply andb_True in Hn as [Hc Hn].
  apply andb_True in Hc as [Hc _]. rewrite string_app_cons. cbn [CutByte].
  destruct (Ascii.eqb c rbrace); [done|]. by rewrite IH.
Qed.

Lemma ref_text_app name rest : ref_text name +:+ rest = String dollar (String lbrace (name +:+ String rbrace rest)).
Proof. unfold ref_text. rewrite !string_app_assoc. reflexivity. Qed.

Lemma name_ok_chars name : name_ok name → name ≠ "" ∧ chars (λ c, negb (Ascii.eqb c rbrace) && negb (Ascii.eqb c dollar)) name.
Proof.
  intros [H1 H2]%andb_True. split; [|done]. intros ->. done.
Qed.

Lemma ref_at_ref name rest : name_ok name → ref_at (ref_text name +:+ rest) = Some name.
Proof.
  intros [Hne Hn]%name_ok_chars. rewrite ref_text_app. cbn [ref_at]. rewrite CutByte_name by done.
  by destruct name.
Qed.

Lemma ref_at_text c s :
  (Ascii.eqb c dollar = false ∨ ∃ c' s', s = String c' s' ∧ Ascii.eqb c' lbrace = false) → ref_at (String c s) = None.
Proof.
  intros [H|(c' & s' & -> & H)]; cbn; [destruct s; [done|]; by rewrite H|]. by rewrite H, andb_false_r.
Qed.

Lemma segments_go_skip s rest : segments_go (String.length s) (s +:+ rest) = segments_go 0 rest.
Proof. induction s as [|c s IH]; [done|]. rewrite string_app_cons. exact IH. Qed.

Lemma segments_go_0 c s :
  segments_go 0 (String c s) =
  match ref_at (String c s) with
  | Some name => Ref name :: segments_go (String.length name + 2) s
  | None => Text c :: segments_go 0 s
  end.
Proof. done. Qed.

(** What follows the dollar of a reference. *)
Lemma ref_tail_app name rest :
  String lbrace (name +:+ String rbrace rest) = (String lbrace name +:+ "}") +:+ rest.
Proof. rewrite string_app_assoc. reflexivity. Qed.

Lemma ref_tail_length name : (String.length name + 2)%nat = String.length (String lbrace name +:+ "}").
Proof. rewrite length_string_app. cbn. lia. Qed.

(** Printing and reading back. *)
Lemma segments_print l : ok_segs l → segments (print l) = l.
Proof.
  unfold segments, print. induction l as [|[c|name] l IH]; intros Hok; cbn [concat_map print_seg ok_segs] in *; [done| |].
  - apply andb_True in Hok as [Hc Hok]. change (String c "" +:+ concat_map print_seg l) with (String c (concat_map print_seg l)).
    rewrite segments_go_0, ref_at_text; [by rewrite IH|].
    destruct (Ascii.eqb c dollar); [right|by left]. cbn in Hc.
    destruct l as [|[c'|] l]; [done| |done]. exists c', (concat_map print_seg l). split; [done|].
    by destruct (Ascii.eqb c' lbrace).
  - apply andb_True in Hok as [Hn Hok]. pose proof (ref_at_ref name (concat_map print_seg l) Hn) as Hr.
    rewrite ref_text_app in *. rewrite segments_go_0, Hr. f_equal.
    rewrite ref_tail_length, ref_tail_app, segments_go_skip. by apply IH.
Qed.


Lemma ref_at_split s name : ref_at s = Some name → ∃ rest, s = ref_text name +:+ rest.
Proof.
  destruct s as [|c [|c' t]]; cbn; [done|done|]. destruct (Ascii.eqb c dollar) eqn:E1; [|done].
  destruct (Ascii.eqb c' lbrace) eqn:E2; [|done]. cbn. destruct (CutByte rbrace t) as [[[|x a] b]|] eqn:E; [done| |done].
  intros [= <-]. apply CutByte_app in E as ->. apply Ascii.eqb_eq in E1, E2. subst. exists b.
  by rewrite ref_text_app.
Qed.

Lemma print_segments_go s skip :
  (skip ≤ String.length s)%nat → print (segments_go skip s) = drop_string skip s.
Proof.
  revert skip. induction s as [|c s IH]; intros skip Hle; [by destruct skip|].
  destruct skip as [|n]; [|apply IH; cbn in Hle; lia]. rewrite segments_go_0.
  destruct (ref_at (String c s)) as [name|] eqn:E.
  - apply ref_at_split in E as [rest E]. pose proof E as E'. rewrite ref_text_app in E. injection E as -> ->.
    change (print (Ref name :: ?l)) with (ref_text name +:+ print l).
    rewrite IH by (rewrite ref_tail_app, length_string_app, ref_tail_length; lia).
    rewrite ref_tail_length, ref_tail_app, drop_string_app, <- ref_tail_app. symmetry. exact E'.
  - cbn. fold (print (segments_go 0 s)). unfold print in IH. rewrite IH by lia. by destruct s.
Qed.

Lemma print_segments s : print (segments s) = s.
Proof. unfold segments. rewrite print_segments_go by lia. by destruct s. Qed.

Definition refs_of (l : list Seg) : list string :=
  omap (λ x, match x with Ref name => Some name | Text _ => None end) l.
Definition refs (v : string) : list string := refs_of (segments v).

Lemma refs_of_app l1 l2 : refs_of (l1 ++ l2) = refs_of l1 ++ refs_of l2.
Proof. apply omap_app. Qed.

(** Segments with every reference replaced by segments. *)
Definition subst (f : string → list Seg) (l : list Seg) : list Seg :=
  l ≫= λ x, match x with Text c => [Text c] | Ref name => f name end.

Lemma subst_Text f c l : subst f (Text c :: l) = Text c :: subst f l.
Proof. done. Qed.
Lemma subst_Ref f name l : subst f (Ref name :: l) = f name ++ subst f l.
Proof. done. Qed.

Lemma ok_subst f l :
  ok_segs l → (∀ name, name ∈ refs_of l → ok_segs (f name)) → ok_segs (subst f l).
Proof.
  induction l as [|[c|name] l IH]; intros Hok Hf; [done| |].
  - rewrite subst_Text. cbn [ok_segs] in *. apply andb_True in Hok as [Hc Hok]. apply andb_True. split; [|by apply IH].
    apply orb_True in Hc. apply orb_True. destruct Hc as [Hc|Hc]; [by left|right]. by destruct l as [|[] ?].
  - rewrite subst_Ref. cbn [ok_segs] in *. apply andb_True in Hok as [Hc Hok].
    apply ok_segs_app; [apply Hf; by left|]. apply IH; [done|]. intros m Hm. apply Hf. by right.
Qed.

Lemma concat_map_subst f g l :
  concat_map g (subst f l) =
  concat_map (λ x, match x with Text c => g (Text c) | Ref name => concat_map g (f name) end) l.
Proof.
  induction l as [|[c|name] l IH]; [done| |].
  - rewrite subst_Text. cbn. by rewrite IH.
  - rewrite subst_Ref, concat_map_app, IH. done.
Qed.

Lemma concat_map_ext f g l :
  (∀ c, f (Text c) = g (Text c)) → (∀ name, name ∈ refs_of l → f (Ref name) = g (Ref name)) →
  concat_map f l = concat_map g l.
Proof.
  intros Ht. induction l as [|[c|name] l IH]; intros Hr; [done| |]; cbn.
  - by rewrite Ht, IH.
  - rewrite Hr by (by left). rewrite IH; [done|]. intros m Hm. apply Hr. by right.
Qed.

Lemma refs_of_subst f l name :
  name ∈ refs_of (subst f l) ↔ ∃ m, m ∈ refs_of l ∧ name ∈ refs_of (f m).
Proof.
  induction l as [|[c|m] l IH].
  - cbn. set_solver.
  - rewrite subst_Text. cbn. fold (refs_of l) (refs_of (subst f l)). done.
  - rewrite subst_Ref, refs_of_app, elem_of_app, IH. cbn. fold (refs_of l). set_solver.
Qed.

Lemma prefix_open t : String.prefix "${" (String dollar (String lbrace t)) = true.
Proof. by destruct t. Qed.

Lemma Contains_refs v : Contains v "${" = false → refs v = [].
Proof.
  unfold refs, segments. induction v as [|c v IH]; [done|]. intros H. cbn [Contains] in H.
  apply orb_false_iff in H as [Hp Hc]. rewrite segments_go_0.
  destruct (ref_at (String c v)) as [name|] eqn:E; [|by apply IH].
  apply ref_at_split in E as [rest E]. rewrite ref_text_app in E. injection E as -> ->. by rewrite prefix_open in Hp.
Qed.

(** ** The meaning of a key *)
Section config.
Variable config : gmap string string.

(** The key is expanded by at most [n] levels of lookups in clean values. *)
Fixpoint within (n : nat) (k : string) : bool :=
  match n with
  | O => false
  | S n => match config !! k with
           | None => false
           | Some v => clean v && forallb (within n) (refs v)
           end
  end.

Fixpoint meaning (n : nat) (k : string) : string :=
  match n with
  | O => ""
  | S n => concat_map (λ x, match x with Text c => String c "" | Ref m => meaning n m end)
             (segments (default "" (config !! k)))
  end.

Definition mean (n : nat) (l : list Seg) : string :=
  concat_map (λ x, match x with Text c => String c "" | Ref m => meaning n m end) l.

Lemma within_spec n k :
  within (S n) k ↔ ∃ v, config !! k = Some v ∧ clean v ∧ Forall (λ m, within n m) (refs v).
Proof.
  cbn [within]. destruct (config !! k) as [v|]; [|naive_solver]. rewrite andb_True. split.
  - intros [Hc Hf]. exists v. split_and!; [done|done|]. apply Is_true_true in Hf. eapply Forall_impl; [by apply forallb_Forall|]. intros m. by rewrite Is_true_true.
  - intros (v' & [= <-] & Hc & Hf). split; [done|]. apply Is_true_true, forallb_Forall. eapply Forall_impl; [exact Hf|]. intros m. by rewrite Is_true_true.
Qed.

Lemma meaning_S n k v : config !! k = Some v → meaning (S n) k = mean n (segments v).
Proof. intros E. cbn. by rewrite E. Qed.

Lemma mean_mono_aux n l :
  (∀ k, within n k → within (S n) k ∧ meaning (S n) k = meaning n k) →
  Forall (λ m, within n m) (refs_of l) → Forall (λ m, within (S n) m) (refs_of l) ∧ mean (S n) l = mean n l.
Proof.
  intros IH Hf. rewrite Forall_forall in Hf. split.
  - apply Forall_forall. intros m Hm. by apply IH, Hf.
  - apply concat_map_ext; [done|]. intros m Hm. by apply IH, Hf.
Qed.

Lemma within_mono n k : within n k → within (S n) k ∧ meaning (S n) k = meaning n k.
Proof.
  revert k. induction n as [|n IH]; intros k H; [done|].
  apply within_spec in H as (v & Ev & Hc & Hf). destruct (mean_mono_aux n (segments v) IH Hf) as [Hf' Hm].
  split; [apply within_spec; eauto|]. by rewrite (meaning_S (S n) k v), (meaning_S n k v), Hm.
Qed.

Lemma within_le n n' k : (n ≤ n')%nat → within n k → within n' k ∧ meaning n' k = meaning n k.
Proof.
  induction 1 as [|n' Hle IH]; intros H; [done|]. destruct (IH H) as [Hw Hm].
  destruct (within_mono n' k Hw) as [Hw' Hm']. split; [done|]. by rewrite Hm'.
Qed.

Lemma mean_le n n' l :
  (n ≤ n')%nat → Forall (λ m, within n m) (refs_of l) →
  Forall (λ m, within n' m) (refs_of l) ∧ mean n' l = mean n l.
Proof.
  intros Hle Hf. rewrite Forall_forall in Hf. split.
  - apply Forall_forall. intros m Hm. by apply (within_le n), Hf.
  - apply concat_map_ext; [done|]. intros m Hm. by apply (within_le n), Hf.
Qed.

Lemma mean_norefs n l : refs_of l = [] → mean n l = print l.
Proof.
  intros Hr. apply concat_map_ext; [done|]. rewrite Hr. intros m Hm. by apply not_elem_of_nil in Hm.
Qed.

(** ** Interpolate *)

(** After [i] passes the references of a key nest [i] levels less deep, and it
    still means the same. *)
Definition J (i : nat) (k v : string) : Prop :=
  clean v ∧ ∀ n, within (S (n + i)) k →
    Forall (λ m, within n m) (refs v) ∧ mean n (segments v) = meaning (S (n + i)) k.

Lemma J_start k v : config !! k = Some v → clean v → J 0 k v.
Proof.
  intros Ev Hc. split; [done|]. intros n. rewrite Nat.add_0_r. intros (v' & Ev' & _ & Hf)%within_spec. simplify_eq.
  split; [done|]. by rewrite (meaning_S n k v).
Qed.

Lemma J_pred i k v : J (S i) k v → J i k v.
Proof.
  intros [Hc HJ]. split; [done|]. intros n Hw. destruct (within_mono _ k Hw) as [Hw' Hm].
  replace (S (S (n + i))) with (S (n + S i)) in * by lia. destruct (HJ n Hw') as [Hf E]. by rewrite E.
Qed.

Lemma J_0 i k v : J i k v → J 0 k v.
Proof. induction i as [|i IH]; [done|]. intros H. by apply IH, J_pred. Qed.

Definition current (c : gmap string string) (m : string) : list Seg := segments (default "" (c !! m)).

(** What a substitution does to a key. *)
Lemma J_subst i k v c :
  J i k v → (∀ m, m ∈ refs v → ∃ vm, c !! m = Some vm ∧ J 0 m vm) →
  segments (print (subst (current c) (segments v))) = subst (current c) (segments v) ∧
  J (S i) k (print (subst (current c) (segments v))).
Proof.
  intros [Hc HJ] Hrefs.
  assert (Hok : ok_segs (subst (current c) (segments v))).
  { apply ok_subst; [done|]. intros m Hm. destruct (Hrefs m Hm) as (vm & Em & Hcm & _). unfold current. by rewrite Em. }
  pose proof (segments_print _ Hok) as Hs. split; [done|]. split; [unfold clean; by rewrite Hs|].
  intros n Hw. replace (n + S i)%nat with (S n + i)%nat in * by lia. destruct (HJ (S n) Hw) as [Hf Hm].
  rewrite Forall_forall in Hf.
  assert (Hsub : ∀ m, m ∈ refs v → Forall (λ x, within n x) (refs_of (current c m)) ∧ mean n (current c m) = meaning (S n) m).
  { intros m Hin. destruct (Hrefs m Hin) as (vm & Em & _ & HJm). unfold current. rewrite Em. cbn [default].
    specialize (HJm n). rewrite Nat.add_0_r in HJm. apply HJm. by apply Hf. }
  unfold refs. rewrite Hs. split.
  - apply Forall_forall. intros x (m & Hin & Hx)%refs_of_subst. destruct (Hsub m Hin) as [Hf' _].
    rewrite Forall_forall in Hf'. by apply Hf'.
  - rewrite <- Hm. unfold mean. rewrite concat_map_subst. apply concat_map_ext; [done|].
    intros m Hin. by apply Hsub.
Qed.

(** A key that means something is not its own reference. *)
Lemma not_self n m v : name_ok m → J 0 m v → within n m → v ≠ ref_text m.
Proof.
  intros Hn [_ HJ] Hw ->. assert (Hs : segments (ref_text m) = [Ref m]).
  { rewrite <- (segments_print [Ref m]) by (cbn; by rewrite andb_true_r). unfold print. cbn. by rewrite string_app_nil_r. }
  induction n as [|n IH]; [done|]. apply IH. destruct (HJ n) as [Hf _]; [by rewrite Nat.add_0_r|].
  unfold refs in Hf. rewrite Hs in Hf. by inversion Hf.
Qed.

Lemma ok_refs l m : ok_segs l → m ∈ refs_of l → name_ok m.
Proof.
  induction l as [|[c|name] l IH]; intros Hok Hm; [by apply not_elem_of_nil in Hm| |]; cbn in Hok, Hm;
    apply andb_True in Hok as [Hn Hok]; fold (refs_of l) in Hm; [auto|].
  apply elem_of_cons in Hm as [->|Hm]; auto.
Qed.

Lemma ref_text_name name : take_string (String.length (ref_text name) - 3) (drop_string 2 (ref_text name)) = name.
Proof.
  unfold ref_text. cbn [drop_string append]. rewrite !length_string_app. cbn [String.length].
  replace (2 + (String.length name + 1) - 3)%nat with (String.length name) by lia.
  induction name as [|c name IH]; [done|]. cbn. f_equal. exact IH.
Qed.

Lemma resolveVarRef_ref name c :
  resolveVarRef (ref_text name) c =
  match c !! name with
  | Some r => if String.eqb r (ref_text name) then (ref_text name, 0) else (r, 1)
  | None => (ref_text name, 0)
  end%nat.
Proof. unfold resolveVarRef. by rewrite ref_text_name. Qed.

(** *** A pass *)

(** The map during pass [i], the keys of [P] having been done. *)
Definition PassInv (i : nat) (P : list string) (c : gmap string string) : Prop :=
  (∀ k, is_Some (c !! k) ↔ is_Some (config !! k)) ∧
  ∀ k v, c !! k = Some v → J i k v ∧ (k ∈ P → J (S i) k v).

(** Every key means something. *)
Variable depth : nat.
Hypothesis resolves : ∀ k, is_Some (config !! k) → within depth k.

Lemma refs_defined i P c k v m :
  PassInv i P c → c !! k = Some v → m ∈ refs v → ∃ vm, c !! m = Some vm ∧ J 0 m vm ∧ within depth m ∧ name_ok m.
Proof.
  intros [Hdom HJ] Ev Hm. assert (Hk : within depth k) by (apply resolves, Hdom; eauto).
  destruct (HJ k v Ev) as [[Hc HJk]%J_0 _].
  assert (Hw : within depth m).
  { destruct (within_mono depth k Hk) as [Hk' _]. destruct (HJk depth) as [Hf _]; [by rewrite Nat.add_0_r|].
    rewrite Forall_forall in Hf. by apply Hf. }
  assert (Hd : is_Some (config !! m)).
  { destruct depth as [|d]; [done|]. apply within_spec in Hw as (vm & Em & _). eauto. }
  apply Hdom in Hd as [vm Em]. exists vm. split_and!; [done| |done|by apply (ok_refs (segments v))].
  apply (J_0 i). by apply HJ.
Qed.

Lemma count_refs_0 f l : count_refs f l = 0%nat → ∀ m, m ∈ refs_of l → f (ref_text m) = 0%nat.
Proof.
  induction l as [|[c|name] l IH]; cbn; intros H m Hm; [by apply not_elem_of_nil in Hm|by apply IH|].
  fold (refs_of l) in Hm. fold (count_refs f l) in H. apply elem_of_cons in Hm as [->|Hm]; [lia|apply IH; [lia|done]].
Qed.

(** The substitution the code makes is the one on segments, and counts the
    references. *)
Lemma substitution i P c k v :
  PassInv i P c → c !! k = Some v →
  ReplaceAllStringFunc v (λ m, (resolveVarRef m c).1) = print (subst (current c) (segments v)) ∧
  (count_refs (λ m, (resolveVarRef m c).2) (segments v) = 0%nat → refs v = []).
Proof.
  intros Hinv Ev. split.
  - unfold ReplaceAllStringFunc, print. rewrite concat_map_subst. apply concat_map_ext; [done|].
    intros m Hm. destruct (refs_defined i P c k v m Hinv Ev Hm) as (vm & Em & _).
    rewrite resolveVarRef_ref, Em. fold (print (current c m)). unfold current. rewrite Em, print_segments.
    cbn. destruct (String.eqb_spec vm (ref_text m)); done.
  - intros H0. apply elem_of_nil_inv. intros m Hm.
    destruct (refs_defined i P c k v m Hinv Ev Hm) as (vm & Em & HJ & Hw & Hn).
    pose proof (count_refs_0 _ _ H0 m Hm) as H. cbn in H. rewrite resolveVarRef_ref, Em in H.
    destruct (String.eqb_spec vm (ref_text m)); [|done]. by apply (not_self depth m vm) in Hn.
Qed.

Lemma subst_norefs f v : refs v = [] → print (subst f (segments v)) = v.
Proof.
  intros Hr. rewrite <- (print_segments v) at 2. unfold print. rewrite concat_map_subst.
  apply concat_map_ext; [done|]. unfold refs in Hr. rewrite Hr. intros m Hm. by apply not_elem_of_nil in Hm.
Qed.

Lemma interpolateKey_spec i P c k :
  PassInv i P c → let '(c', n) := interpolateKey c k in
  PassInv i (k :: P) c' ∧ (n = 0%nat → c' = c ∧ ∀ v, c !! k = Some v → refs v = []).
Proof.
  intros Hinv. pose proof Hinv as [Hdom HJ]. unfold interpolateKey.
  destruct (c !! k) as [v|] eqn:Ev.
  - assert (Hd : ∀ m, m ∈ refs v → ∃ vm, c !! m = Some vm ∧ J 0 m vm).
    { intros m Hm. destruct (refs_defined i P c k v m Hinv Ev Hm) as (vm & ? & ? & _). eauto. }
    destruct (J_subst i k v c (proj1 (HJ k v Ev)) Hd) as [_ HJ'].
    destruct (Contains v "${") eqn:Ec; cbn [negb].
    + destruct (substitution i P c k v Hinv Ev) as [-> H0]. split.
      * split; [intros k'; destruct (decide (k' = k)) as [->|Hne];
          [rewrite lookup_insert_eq, <- Hdom, Ev; split; eauto|by rewrite lookup_insert_ne]|].
        intros k' v' Ev'. destruct (decide (k' = k)) as [->|Hne].
        -- rewrite lookup_insert_eq in Ev'. simplify_eq. split; [by apply J_pred|done].
        -- rewrite lookup_insert_ne in Ev' by done. destruct (HJ k' v' Ev') as [H1 H2]. split; [done|].
           intros [->|Hin]%elem_of_cons; [done|auto].
      * intros H. apply H0 in H. rewrite subst_norefs by done. rewrite insert_id by done.
        split; [done|]. by intros v' [= <-].
    + apply Contains_refs in Ec. rewrite subst_norefs in HJ' by done. split; [|by split; [|intros v' [= <-]]].
      split; [done|]. intros k' v' Ev'. destruct (HJ k' v' Ev') as [H1 H2]. split; [done|].
      intros [->|Hin]%elem_of_cons; [by simplify_eq|auto].
  - split; [|done]. split; [done|]. intros k' v' Ev'. destruct (HJ k' v' Ev') as [H1 H2].
    split; [done|]. intros [->|Hin]%elem_of_cons; [by simplify_eq|auto].
Qed.

Lemma interpolatePass_spec i order P c :
  PassInv i P c → let '(c', n) := interpolatePass order c in
  PassInv i (rev order ++ P) c' ∧ (n = 0%nat → c' = c ∧ ∀ k v, k ∈ order → c !! k = Some v → refs v = []).
Proof.
  revert P c. induction order as [|k order IH]; intros P c Hinv; cbn [interpolatePass].
  - split; [done|]. intros _. split; [done|]. intros k v Hk. by apply not_elem_of_nil in Hk.
  - pose proof (interpolateKey_spec i P c k Hinv) as Hk. destruct (interpolateKey c k) as [c1 n1].
    destruct Hk as [Hk Hk0]. specialize (IH (k :: P) c1 Hk). destruct (interpolatePass order c1) as [c2 n2].
    destruct IH as [Hp Hp0]. split; [cbn; by rewrite <- app_assoc|]. intros Hn.
    destruct Hk0 as [-> Hk0]; [lia|]. destruct Hp0 as [-> Hp0]; [lia|]. split; [done|].
    intros k' v [->|Hin]%elem_of_cons Ev; eauto.
Qed.

(** *** The passes *)
Definition covers (order : list string) : Prop := ∀ k, is_Some (config !! k) → k ∈ order.

Definition done_with (c : gmap string string) : Prop :=
  (∀ k, is_Some (c !! k) ↔ is_Some (config !! k)) ∧ ∀ k v, c !! k = Some v → refs v = [] ∧ J 0 k v.

Lemma interpolate_go_spec n i orders c :
  (∀ j, covers (orders j)) → (depth ≤ S (n + i))%nat → PassInv i [] c →
  done_with (interpolate_go n orders c).1.
Proof.
  revert i orders c. induction n as [|n IH]; intros i orders c Hcov Hle Hinv; cbn [interpolate_go].
  - destruct Hinv as [Hdom HJ]. split; [done|]. intros k v Ev. destruct (HJ k v Ev) as [HJk _].
    split; [|by apply (J_0 i)]. destruct HJk as [_ HJk].
    destruct (within_le depth (S (0 + i)) k) as [Hw _]; [lia|apply resolves, Hdom; eauto|].
    destruct (HJk 0%nat Hw) as [Hf _]. by destruct (refs v); [|inversion Hf].
  - pose proof (interpolatePass_spec i (orders 0%nat) [] c Hinv) as Hp.
    destruct (interpolatePass (orders 0%nat) c) as [c1 subs]. destruct Hp as [[Hdom HJ] H0].
    destruct (Nat.eqb_spec subs 0) as [->|Hne].
    + destruct H0 as [-> H0]; [done|]. split; [done|]. cbn [fst]. intros k v Ev.
      split; [|by apply (J_0 i), HJ]. apply (H0 k v); [|done]. apply Hcov, Hdom. eauto.
    + specialize (IH (S i) (λ j, orders (S j)) c1). destruct (interpolate_go n _ c1) as [c2 total]. cbn [fst] in *.
      apply IH; [intros j; apply Hcov|lia|]. split; [done|]. intros k v Ev. split; [|by intros ?%not_elem_of_nil].
      apply HJ; [done|]. rewrite app_nil_r. apply list_elem_of_In. rewrite <- in_rev. apply list_elem_of_In, Hcov, Hdom. eauto.
Qed.
End config.

(** Whatever the order of the passes, a configuration whose references nest at
    most ten deep is expanded completely. *)
Lemma Interpolate_meaning config orders :
  (∀ j, covers config (orders j)) → (∀ k, is_Some (config !! k) → within config 11 k) →
  ∀ k, (Interpolate orders config).1 !! k = (λ _, meaning config 11 k) <$> config !! k.
Proof.
  intros Hcov Hres k.
  destruct (interpolate_go_spec config 11 Hres 10 0 orders config Hcov) as [Hdom HJ]; [lia| |].
  { split; [done|]. intros k' v Ev. split; [|by intros ?%not_elem_of_nil]. apply J_start; [done|].
    assert (Hw : within config 11 k') by (apply Hres; eauto). apply within_spec in Hw as (v' & ? & ? & _). by simplify_eq. }
  unfold Interpolate, maxInterpolationDepth. destruct (config !! k) as [v0|] eqn:E0.
  - assert (Hs : is_Some (config !! k)) by eauto. destruct (proj2 (Hdom k) Hs) as [v Ev]. rewrite Ev.
    cbn [fmap option_fmap option_map]. f_equal. destruct (HJ k v Ev) as [Hr [_ HJk]]. destruct (HJk 10%nat (Hres k Hs)) as [_ E]. etransitivity; [|exact E].
    rewrite mean_norefs by done. by rewrite print_segments.
  - apply eq_None_not_Some. rewrite Hdom, E0. by intros [].
Qed.

(** ** Expand *)
Lemma HasPrefix_text c l :
  ok_segs (Text c :: l) → HasPrefix (String c (print l)) "${" = false.
Proof.
  cbn [ok_segs]. intros [Hc Hok]%andb_True. unfold HasPrefix. cbn [String.prefix].
  destruct (ascii_dec "$" c) as [<-|]; [|done]. cbn in Hc. destruct l as [|[c'|name] l]; [done| |done].
  change (print (Text c' :: l)) with (String c' (print l)). cbn [String.prefix].
  destruct (ascii_dec "{" c') as [<-|]; [done|]. done.
Qed.

Lemma first_ref_print l : ok_segs l → first_ref (print l) = head (refs_of l).
Proof.
  induction l as [|[c|name] l IH]; intros Hok; [done| |].
  - change (print (Text c :: l)) with (String c (print l)). cbn [first_ref]. rewrite HasPrefix_text by done.
    apply IH. cbn in Hok. by apply andb_True in Hok as [_ ?].
  - cbn in Hok. apply andb_True in Hok as [[_ Hn]%name_ok_chars _].
    change (print (Ref name :: l)) with (ref_text name +:+ print l). rewrite ref_text_app. cbn [first_ref].
    unfold HasPrefix. rewrite prefix_open. cbn [drop_string]. by rewrite CutByte_name.
Qed.

Lemma prefix_name name m rest :
  chars (λ c, negb (Ascii.eqb c rbrace) && negb (Ascii.eqb c dollar)) name →
  chars (λ c, negb (Ascii.eqb c rbrace) && negb (Ascii.eqb c dollar)) m →
  String.prefix (name +:+ "}") (m +:+ String rbrace rest) = bool_decide (m = name).
Proof.
  revert m. induction name as [|c name IH]; intros [|c' m] Hn Hm.
  - cbn. by destruct rest.
  - cbn [chars] in Hm. apply andb_True in Hm as [[Hc _]%andb_True _]. rewrite string_app_cons, string_app_nil_l.
    cbn [String.prefix]. destruct (ascii_dec "}" c') as [<-|]; [done|]. done.
  - cbn [chars] in Hn. apply andb_True in Hn as [[Hc _]%andb_True _].
    rewrite !string_app_cons, string_app_nil_l. cbn [String.prefix].
    destruct (ascii_dec c rbrace) as [->|]; [done|]. done.
  - rewrite !string_app_cons. cbn [String.prefix chars] in *. apply andb_True in Hn as [_ Hn]. apply andb_True in Hm as [_ Hm].
    destruct (ascii_dec c c') as [<-|Hne].
    + rewrite IH by done. apply bool_decide_ext. naive_solver.
    + symmetry. apply bool_decide_eq_false. naive_solver.
Qed.

Lemma replace_all_skip s rest old new :
  replace_all (String.length s) old new (s +:+ rest) = replace_all 0 old new rest.
Proof. induction s as [|c s IH]; [done|]. rewrite string_app_cons. exact IH. Qed.

Lemma replace_all_0 old new c s :
  replace_all 0 old new (String c s) =
  if HasPrefix (String c s) old then new +:+ replace_all (String.length old - 1) old new s
  else String c (replace_all 0 old new s).
Proof. done. Qed.

Lemma replace_all_nodollar s rest name new :
  chars (λ c, negb (Ascii.eqb c dollar)) s →
  replace_all 0 (ref_text name) new (s +:+ rest) = s +:+ replace_all 0 (ref_text name) new rest.
Proof.
  induction s as [|c s IH]; intros Hs; [done|]. cbn [chars] in Hs. apply andb_True in Hs as [Hc Hs].
  rewrite !string_app_cons, replace_all_0, IH by done.
  assert (HasPrefix (String c (s +:+ rest)) (ref_text name) = false) as ->; [|done].
  unfold HasPrefix. rewrite <- (string_app_nil_r (ref_text name)), ref_text_app. cbn [String.prefix].
  destruct (ascii_dec dollar c) as [<-|]; done.
Qed.

Lemma chars_nodollar name :
  chars (λ c, negb (Ascii.eqb c rbrace) && negb (Ascii.eqb c dollar)) name →
  chars (λ c, negb (Ascii.eqb c dollar)) (String lbrace name +:+ "}").
Proof.
  intros Hn. cbn. induction name as [|c name IH]; [done|]. cbn in *. apply andb_True in Hn as [[_ Hc]%andb_True Hn].
  apply andb_True. auto.
Qed.

Lemma ReplaceAll_print l name new :
  ok_segs l → name_ok name →
  ReplaceAll (print l) (ref_text name) new =
  concat_map (λ x, match x with
                   | Text c => String c ""
                   | Ref m => if bool_decide (m = name) then new else ref_text m
                   end) l.
Proof.
  intros Hok [_ Hn]%name_ok_chars. unfold ReplaceAll. induction l as [|[c|m] l IH]; [done| |].
  - change (print (Text c :: l)) with (String c (print l)). rewrite replace_all_0.
    assert (HasPrefix (String c (print l)) (ref_text name) = false) as ->.
    { pose proof (HasPrefix_text c l Hok) as Hp. unfold HasPrefix in *.
      rewrite <- (string_app_nil_r (ref_text name)), ref_text_app. unfold dollar, lbrace. cbn [String.prefix] in *.
      destruct (ascii_dec "$" c); [|done]. destruct (print l) as [|c' s]; [done|]. cbn [String.prefix] in *.
      destruct (ascii_dec "{" c'); [|done]. by destruct s. }
    cbn [concat_map]. rewrite IH; [done|]. cbn in Hok. by apply andb_True in Hok as [_ ?].
  - cbn in Hok. apply andb_True in Hok as [[_ Hm]%name_ok_chars Hok]. specialize (IH Hok).
    change (print (Ref m :: l)) with (ref_text m +:+ print l). rewrite ref_text_app, replace_all_0.
    assert (HasPrefix (String dollar (String lbrace (m +:+ String rbrace (print l)))) (ref_text name) =
            bool_decide (m = name)) as ->.
    { unfold HasPrefix, ref_text. change ("${" +:+ name +:+ "}") with (String dollar (String lbrace (name +:+ "}"))).
      cbn [String.prefix]. rewrite <- (prefix_name name m (print l)) by done.
      destruct (ascii_dec dollar dollar), (ascii_dec lbrace lbrace); done. }
    rewrite ref_tail_app. cbn [concat_map]. destruct (bool_decide_reflect (m = name)) as [->|Hne].
    + replace (String.length (ref_text name) - 1)%nat with (String.length (String lbrace name +:+ "}")).
      * by rewrite replace_all_skip, IH.
      * unfold ref_text. rewrite !length_string_app. cbn. lia.
    + rewrite replace_all_nodollar by by apply chars_nodollar. rewrite IH.
      unfold ref_text. rewrite !string_app_assoc. reflexivity.
Qed.

(** Texts that hold no reference and can be put anywhere. *)
Definition plain (v : string) : Prop := clean v ∧ refs v = [].

Definition put (G : string → string) (l : list Seg) : string :=
  concat_map (λ x, match x with Text c => String c "" | Ref m => G m end) l.

Lemma put_ok G l :
  ok_segs l → (∀ m, m ∈ refs_of l → plain (G m)) →
  put G l = print (subst (λ m, segments (G m)) l) ∧ ok_segs (subst (λ m, segments (G m)) l) ∧
  plain (put G l).
Proof.
  intros Hok HG. assert (Hs : ok_segs (subst (λ m, segments (G m)) l)).
  { apply ok_subst; [done|]. intros m Hm. by apply HG. }
  assert (E : put G l = print (subst (λ m, segments (G m)) l)).
  { unfold put, print. rewrite concat_map_subst. apply concat_map_ext; [done|]. intros m _.
    by fold (print (segments (G m))); rewrite print_segments. }
  split_and!; [done|done|]. unfold plain, clean, refs. rewrite E, segments_print by done. split; [done|].
  apply elem_of_nil_inv. intros x (m & Hm & Hx)%refs_of_subst. destruct (HG m Hm) as [_ Hr].
  unfold refs in Hr. rewrite Hr in Hx. by apply not_elem_of_nil in Hx.
Qed.

(** One turn of the loop. *)
Definition resolve_one (name v : string) (l : list Seg) : list Seg :=
  subst (λ m, if bool_decide (m = name) then segments v else [Ref m]) l.

Lemma resolve_one_spec name v l :
  ok_segs l → name ∈ refs_of l → plain v →
  ReplaceAll (print l) (ref_text name) v = print (resolve_one name v l) ∧ ok_segs (resolve_one name v l) ∧
  refs_of (resolve_one name v l) = filter (λ m, m ≠ name) (refs_of l) ∧
  ∀ G, G name = v → put G (resolve_one name v l) = put G l.
Proof.
  intros Hok Hin [Hc Hr]. pose proof (ok_refs _ _ Hok Hin) as Hn. split_and!.
  - rewrite ReplaceAll_print by done. unfold print, resolve_one. rewrite concat_map_subst.
    apply concat_map_ext; [done|]. intros m _. destruct (bool_decide_reflect (m = name)).
    + by fold (print (segments v)); rewrite print_segments.
    + cbn. by rewrite string_app_nil_r.
  - apply ok_subst; [done|]. intros m Hm. destruct (bool_decide_reflect (m = name)); [done|].
    cbn. rewrite andb_true_r. by apply (ok_refs l).
  - unfold resolve_one. clear Hok Hin Hn. induction l as [|[c|m] l IH]; [done|exact IH|].
    rewrite subst_Ref, refs_of_app, IH. cbn [refs_of omap list_omap]. fold (refs_of l). rewrite filter_cons.
    destruct (bool_decide_reflect (m = name)) as [->|Hne].
    + rewrite decide_False by tauto. unfold refs in Hr. by rewrite Hr.
    + by rewrite decide_True.
  - intros G HG. unfold put, resolve_one. rewrite concat_map_subst. apply concat_map_ext; [done|].
    intros m _. destruct (bool_decide_reflect (m = name)) as [->|Hne].
    + rewrite HG. transitivity (print (segments v)); [|apply print_segments].
      apply concat_map_ext; [done|]. unfold refs in Hr. rewrite Hr. intros x Hx. by apply not_elem_of_nil in Hx.
    + cbn. by rewrite string_app_nil_r.
Qed.

(** The loop resolves every reference, or stops at an error of one. *)
Lemma expandLoop_spec rec n l :
  ok_segs l → (length (refs_of l) < n)%nat →
  (∀ m, m ∈ refs_of l → ∃ r, rec m = Some r ∧ ∀ v, r = inl v → plain v) →
  let G m := match rec m with Some (inl v) => v | _ => "" end in
  ((∀ m, m ∈ refs_of l → ∃ v, rec m = Some (inl v)) ∧ expandLoop rec n (print l) = Some (inl (put G l))) ∨
  ∃ m err, m ∈ refs_of l ∧ rec m = Some (inr err) ∧ expandLoop rec n (print l) = Some (inr err).
Proof.
  intros Hok Hlen Hrec G. revert l Hok Hlen Hrec. induction n as [|n IH]; intros l Hok Hlen Hrec; [lia|].
  cbn [expandLoop]. rewrite first_ref_print by done. destruct (refs_of l) as [|m rest] eqn:Er; cbn [head].
  - left. split; [by intros m ?%not_elem_of_nil|]. do 2 f_equal. unfold put, print. symmetry.
    apply concat_map_ext; [done|]. rewrite Er. by intros m ?%not_elem_of_nil.
  - assert (Hm : m ∈ refs_of l) by (rewrite Er; by left).
    destruct (Hrec m) as (r & Em & Hv); [by left|]. rewrite Em. destruct r as [v|err].
    + destruct (resolve_one_spec m v l Hok Hm (Hv v eq_refl)) as (Ep & Hok' & Er' & Hput). rewrite Ep.
      assert (HG : G m = v) by (unfold G; by rewrite Em). rewrite Er, filter_cons, decide_False in Er' by tauto.
      assert (Hsub : ∀ x, x ∈ refs_of (resolve_one m v l) ↔ x ∈ rest ∧ x ≠ m)
        by (intros x; rewrite Er', list_elem_of_filter; tauto).
      destruct (IH (resolve_one m v l) Hok') as [[Hall E]|(x & err & Hx & Ex & E)].
      * rewrite Er'. cbn in Hlen. pose proof (length_filter (λ m0, m0 ≠ m) rest). lia.
      * intros x [Hx _]%Hsub. apply Hrec. by right.
      * left. split; [|by rewrite E, Hput]. intros x Hx. destruct (decide (x = m)) as [->|Hne]; [eauto|].
        apply Hall, Hsub. apply elem_of_cons in Hx as [->|Hx]; done.
      * right. exists x, err. split_and!; [|done|done]. right. by apply Hsub in Hx as [? _].
    + right. exists m, err. split_and!; [by left|done|done].
Qed.

Section legacy.
Variables (Defaults l : gmap string string).
Let config : gmap string string := l ∪ Defaults.

Lemma Raw_config k : Raw Defaults l k = config !! k.
Proof. unfold Raw, config. rewrite lookup_union. by destruct (l !! k), (Defaults !! k). Qed.

Hypothesis all_clean : ∀ k v, config !! k = Some v → clean v.
Variable B : nat.
Hypothesis B_refs : ∀ k v, config !! k = Some v → (length (refs v) < B)%nat.

Lemma meaning_plain n k : within config n k → plain (meaning config n k).
Proof.
  revert k. induction n as [|n IH]; intros k H; [done|]. apply within_spec in H as (v & Ev & Hc & Hf).
  rewrite (meaning_S config n k v) by done. rewrite Forall_forall in Hf.
  apply (put_ok (meaning config n)); [done|]. intros m Hm. by apply IH, Hf.
Qed.

(** The loop at a key, given what the recursive calls return. *)
Lemma expandLoop_key rec fuel k v n :
  config !! k = Some v → (B ≤ fuel)%nat → Forall (λ m, within config n m) (refs v) →
  (∀ m, m ∈ refs v → rec m = Some (inl (meaning config n m))) →
  expandLoop rec fuel v = Some (inl (meaning config (S n) k)).
Proof.
  intros Ev HB Hf Hrec. pose proof (B_refs k v Ev) as Hlen. rewrite Forall_forall in Hf.
  destruct (expandLoop_spec rec fuel (segments v)) as [[_ E]|(m & err & Hm & Em & _)].
  - by apply (all_clean k).
  - unfold refs in Hlen. lia.
  - intros m Hm. exists (inl (meaning config n m)). split; [by apply Hrec|]. intros v' [= <-]. by apply meaning_plain, Hf.
  - rewrite print_segments in E. rewrite E, (meaning_S config n k v) by done. do 2 f_equal.
    apply concat_map_ext; [done|]. intros m Hm. by rewrite Hrec.
  - by rewrite Hrec in Em.
Qed.

(** A key that means something is expanded to its meaning. *)
Lemma expandDeep_complete n fuel k seen :
  within config n k → (∀ s, s ∈ seen → ¬ within config n s) → (n + B ≤ fuel)%nat →
  expandDeep Defaults fuel l k seen = Some (inl (meaning config n k)).
Proof.
  revert fuel k seen. induction n as [|n IH]; intros fuel k seen Hw Hseen Hf; [done|].
  destruct (decide (within config n k)) as [Hw'|Hmin].
  - destruct (within_mono config n k Hw') as [_ E]. rewrite E. apply IH; [done| |lia].
    intros s Hs Hn. apply (Hseen s Hs). by apply within_mono.
  - destruct fuel as [|fuel]; [lia|]. cbn [expandDeep].
    rewrite bool_decide_false by (intros Hin; by apply (Hseen k)). rewrite Raw_config.
    apply within_spec in Hw as (v & Ev & Hc & Hrefs). rewrite Ev.
    apply (expandLoop_key _ fuel k v n); [done|lia|done|]. intros m Hm. rewrite Forall_forall in Hrefs.
    apply IH; [by apply Hrefs| |lia]. intros s [Hs|Hs]%elem_of_app.
    + intros Hn. apply (Hseen s Hs). by apply within_mono.
    + apply list_elem_of_singleton in Hs as ->. done.
Qed.

(** Some number of levels suffices for all of a list. *)
Lemma within_all ks : (∀ m, m ∈ ks → ∃ n, within config n m) → ∃ n, Forall (λ m, within config n m) ks.
Proof.
  induction ks as [|m ks IH]; intros H; [by exists 0%nat|].
  destruct (H m) as [n1 H1]; [by left|]. destruct IH as [n2 H2]; [intros x Hx; apply H; by right|].
  exists (n1 `max` n2)%nat. constructor; [by apply (within_le config n1); [lia|]|].
  eapply Forall_impl; [exact H2|]. intros x Hx. by apply (within_le config n2); [lia|].
Qed.

(** The expansion of a key ends, and its value is the meaning of the key. *)
Lemma expandDeep_sound d fuel k seen :
  NoDup seen → (∀ s, s ∈ seen → is_Some (config !! s)) →
  (size config < d + length seen)%nat → (d + B ≤ fuel)%nat →
  ∃ r, expandDeep Defaults fuel l k seen = Some r ∧
       ∀ v, r = inl v → ∃ n, within config n k ∧ v = meaning config n k.
Proof.
  revert fuel k seen. induction d as [|d IH]; intros fuel k seen Hnd Hdom Hd Hf.
  { exfalso. assert (length seen ≤ size config)%nat; [|lia].
    rewrite <- size_dom, <- (size_list_to_set (C := gset string)) by done.
    apply subseteq_size. intros s Hs. apply elem_of_list_to_set in Hs. apply elem_of_dom. auto. }
  destruct fuel as [|fuel]; [lia|]. cbn [expandDeep]. destruct (bool_decide_reflect (k ∈ seen)) as [Hin|Hnin].
  { eexists. split; [done|]. by intros v. }
  rewrite Raw_config. destruct (config !! k) as [v|] eqn:Ev; [|eexists; split; [done|]; by intros v].
  assert (Hrec : ∀ m, ∃ r, expandDeep Defaults fuel l m (seen ++ [k]) = Some r ∧
    ∀ v, r = inl v → ∃ n, within config n m ∧ v = meaning config n m).
  { intros m. apply IH; [| |rewrite length_app; cbn; lia|lia].
    - apply NoDup_app. split_and!; [done| |apply NoDup_singleton]. intros s Hs ->%list_elem_of_singleton. done.
    - intros s [Hs|Hs]%elem_of_app; [by apply Hdom|]. apply list_elem_of_singleton in Hs as ->. eauto. }
  pose proof (B_refs k v Ev) as Hlen.
  destruct (expandLoop_spec (λ nested, expandDeep Defaults fuel l nested (seen ++ [k])) fuel (segments v))
    as [[Hall E]|(m & err & Hm & Em & E)].
  - by apply (all_clean k).
  - unfold refs in Hlen. lia.
  - intros m Hm. destruct (Hrec m) as (r & Er & Hr). exists r. split; [done|]. intros v' ->.
    destruct (Hr v' eq_refl) as (n & Hw & ->). by apply meaning_plain.
  - rewrite print_segments in E. eexists. split; [exact E|]. intros v' [= <-].
    destruct (within_all (refs v)) as [n Hn].
    { intros m Hm. destruct (Hall m Hm) as [vm Em]. destruct (Hrec m) as (r & Er & Hr). rewrite Em in Er.
      injection Er as <-. destruct (Hr vm eq_refl) as (n & Hw & _). eauto. }
    exists (S n). split; [apply within_spec; eauto using all_clean|]. rewrite (meaning_S config n k v) by done.
    apply concat_map_ext; [done|]. intros m Hm. destruct (Hall m Hm) as [vm Em]. rewrite Em.
    destruct (Hrec m) as (r & Er & Hr). rewrite Em in Er. injection Er as <-. destruct (Hr vm eq_refl) as (n' & Hw & ->).
    rewrite Forall_forall in Hn. specialize (Hn m Hm).
    destruct (within_le config n' (n `max` n') m) as [_ <-]; [lia|done|].
    by destruct (within_le config n (n `max` n') m) as [_ <-]; [lia|done|].
  - rewrite print_segments in E. eexists. split; [exact E|]. done.
Qed.
End legacy.

(** More fuel gives the same result. *)
Lemma expandLoop_mono (rec rec' : string → option (string + string)) n n' s r :
  (∀ m x, rec m = Some x → rec' m = Some x) → (n ≤ n')%nat →
  expandLoop rec n s = Some r → expandLoop rec' n' s = Some r.
Proof.
  intros Hrec. revert n' s. induction n as [|n IH]; intros n' s Hle H; [done|]. destruct n' as [|n']; [lia|].
  cbn [expandLoop] in *. destruct (first_ref s) as [nested|]; [|done].
  destruct (rec nested) as [x|] eqn:E; [|done]. rewrite (Hrec _ _ E). destruct x; [|done]. apply IH; [lia|done].
Qed.

Lemma expandDeep_mono Defaults fuel fuel' l k seen r :
  (fuel ≤ fuel')%nat → expandDeep Defaults fuel l k seen = Some r → expandDeep Defaults fuel' l k seen = Some r.
Proof.
  revert fuel' k seen r. induction fuel as [|fuel IH]; intros fuel' k seen r Hle H; [done|].
  destruct fuel' as [|fuel']; [lia|]. cbn [expandDeep] in *. destruct (bool_decide (k ∈ seen)); [done|].
  destruct (Raw Defaults l k); [|done]. revert H. apply expandLoop_mono; [|lia]. intros m x. apply IH. lia.
Qed.

(** A bound on the references of a value. *)
Definition max_refs (config : gmap string string) : nat :=
  S (map_fold (λ _ v n, length (refs v) `max` n)%nat 0%nat config).

Lemma max_refs_spec config k v : config !! k = Some v → (length (refs v) < max_refs config)%nat.
Proof.
  unfold max_refs. revert k v. induction config as [|k' v' config Hk' Hf IH] using map_first_key_ind; intros k v H.
  - by rewrite lookup_empty in H.
  - rewrite map_fold_insert_first_key by done. destruct (decide (k = k')) as [->|Hne].
    + rewrite lookup_insert_eq in H. simplify_eq. lia.
    + rewrite lookup_insert_ne in H by done. specialize (IH k v H). lia.
Qed.

(** Every key of the map is clean and resolves; as a test. *)
Definition resolvable (n : nat) (config : gmap string string) : bool :=
  forallb (within config n) (map_to_list config).*1.

Lemma resolvable_spec n config : resolvable n config → ∀ k, is_Some (config !! k) → within config n k.
Proof.
  unfold resolvable. intros H%Is_true_true k [v Ev]. apply forallb_Forall in H. rewrite Forall_forall in H.
  apply Is_true_true, H. apply list_elem_of_fmap. exists (k, v). split; [done|]. by apply elem_of_map_to_list.
Qed.

Lemma within_clean n config k v : within config n k → config !! k = Some v → clean v.
Proof. destruct n; [done|]. intros (v' & E & Hc & _)%within_spec. by rewrite E; intros [= <-]. Qed.



(** The legacy expansion ends on every clean configuration, cyclic ones
    included: a key without a value has none, a key whose references all lead to
    values has its full expansion, and any other key, on a cycle or with a
    reference to nothing, is an error and never a value. *)
Theorem Expand_decides Defaults (l : Legacy) k :
  map_Forall (λ _ v, clean v) (l ∪ Defaults) →
  ∃ r, (∀ fuel, (S (size (l ∪ Defaults)) + max_refs (l ∪ Defaults) ≤ fuel)%nat → Expand Defaults fuel l k = Some r) ∧
    match r with
    | inl None => (l ∪ Defaults) !! k = None
    | inl (Some v) => ∃ n, within (l ∪ Defaults) n k ∧ v = meaning (l ∪ Defaults) n k
    | inr _ => is_Some ((l ∪ Defaults) !! k) ∧ ∀ n, ¬ within (l ∪ Defaults) n k
    end.
Proof.
  intros Hc. set (config := l ∪ Defaults) in *. set (B := max_refs config).
  assert (Hcl : ∀ k v, config !! k = Some v → clean v) by (intros ? ? E; exact (Hc _ _ E)).
  unfold Expand. rewrite Raw_config. fold config. destruct (config !! k) as [v0|] eqn:Ev; [|by exists (inl None)].
  destruct (expandDeep_sound Defaults l Hcl B (max_refs_spec config) (S (size config)) (S (size config) + B) k [])
    as (r & Er & Hr); [constructor|by intros s ?%not_elem_of_nil|fold config; cbn; lia|lia|].
  exists (match r with inl v => inl (Some v) | inr e => inr e end). split.
  - intros fuel Hf. rewrite (expandDeep_mono _ _ fuel _ _ _ _ Hf Er). by destruct r.
  - destruct r as [v|err]; [by apply Hr|]. split; [done|]. intros n Hw.
    pose proof (expandDeep_complete Defaults l Hcl B (max_refs_spec config) n (n + S (size config) + B) k [] Hw) as Hx.
    rewrite (expandDeep_mono _ (S (size config) + B) (n + S (size config) + B) _ _ _ _ ltac:(lia) Er) in Hx.
    assert (Some (inr err : string + string) = Some (inl (meaning config n k))); [|done].
    apply Hx; [by intros s ?%not_elem_of_nil|lia].
Qed.

(** A cycle of two keys is an error. *)
Lemma Expand_decides_witness :
  let l : Legacy := <["a" := "x${b}"]> {["b" := "${a}y"]} in
  ∃ err, ∀ fuel, (6 ≤ fuel)%nat → Expand ∅ fuel l "a" = Some (inr err).
Proof.
  intros l. destruct (Expand_decides ∅ l "a") as (r & Hf & Hr).
  - apply (bool_decide_unpack (map_Forall (λ _ v, clean v) (l ∪ ∅))). vm_compute. exact I.
  - assert (E : Expand ∅ 6 l "a" = Some r) by (apply Hf; vm_compute; lia).
    exists (ConfigError "recursive expansion of key 'a': a b"). intros fuel Hle.
    assert (Hr' : r = inr (ConfigError "recursive expansion of key 'a': a b")).
    { assert (Some r = Some (inr (ConfigError "recursive expansion of key 'a': a b"))) by (rewrite <- E; vm_compute; reflexivity).
      congruence. }
    rewrite <- Hr'. apply Hf. vm_compute in Hle |- *. lia.
Defined.
