(* ===== verification/LocalconfigProps.v ===== *)
(** * LocalconfigProps: layers, writes and output of the local configuration *)
From S2P Require Import Prelude LcDefaults Localconfig ExpandProps MtaLoad.

(** ** The layers of the effective configuration *)
Section layers.
Variable Defaults : gmap string string.

(** The effective configuration holds every key of every layer with the value
    of the highest layer that has it (flags, then environment, then the file, then
    the defaults; no file is an empty layer), each with all its references expanded
    over the merged layers, so that a value of one layer may refer to a key of
    another. *)
Theorem LoadEffectiveFrom_layers orders environ c overrides file :
  LoadLocalConfigFromFile c = inl file ∨ c = Absent ∧ file = ∅ →
  let layers := [overrides; EnvOverrides environ; file; Defaults] in
  let value k := foldr (λ (m : gmap string string) r, match m !! k with Some v => Some v | None => r end) None layers in
  (∀ j k, is_Some (value k) → k ∈ orders j) →
  ∃ merged, (∀ k, merged !! k = value k) ∧
    (resolvable 11 merged → ∃ eff, LoadEffectiveFrom Defaults orders environ c overrides = inl eff ∧
       ∀ k, eff !! k = (λ _, meaning merged 11 k) <$> value k).
Proof.
  intros Hfile layers value Hcov.
  exists (maps_Copy (maps_Copy (MergeDefaults Defaults file) (EnvOverrides environ)) overrides).
  assert (Hm : ∀ k, maps_Copy (maps_Copy (MergeDefaults Defaults file) (EnvOverrides environ)) overrides !! k = value k).
  { intros k. unfold maps_Copy, MergeDefaults, value, layers. cbn [foldr]. rewrite !lookup_union.
    by destruct (overrides !! k), (EnvOverrides environ !! k), (file !! k), (Defaults !! k). }
  split; [done|]. intros Hres. eexists. split.
  - unfold LoadEffectiveFrom. destruct Hfile as [->|[-> ->]]; reflexivity.
  - intros k. rewrite Interpolate_meaning; [by rewrite Hm| |by apply resolvable_spec].
    intros j k' Hk. apply Hcov. by rewrite <- Hm.
Qed.
End layers.

(** A key of each layer, referring to one another. *)
Lemma LoadEffectiveFrom_layers_witness :
  let defaults : gmap string string := <["home" := "/opt"]> {["db" := "${home}/db"]} in
  let c := Parsed [("home", Some " /srv "); ("log", Some "${dir}/log")] in
  let env := ["PATH=/bin"; "CONFIGD_LC_dir=${db}/d"] in
  let orders (_ : nat) := sorted_keys (<["sock" := "${log}.s"]> (<["dir" := "${db}/d"]> (<["home" := "/srv"]>
      (<["log" := "${dir}/log"]> {["db" := "${home}/db"]})))) in
  ∃ m, LoadEffectiveFrom defaults orders env c {["sock" := "${log}.s"]} = inl m ∧
       m !! "sock" = Some "/srv/db/d/log.s".
Proof.
  intros defaults c env orders. set (file := <["home" := "/srv"]> {["log" := "${dir}/log"]} : gmap string string).
  set (M := <["sock" := "${log}.s"]> (<["dir" := "${db}/d"]> (<["home" := "/srv"]>
      (<["log" := "${dir}/log"]> {["db" := "${home}/db"]})))) in *.
  assert (Henv : EnvOverrides env = {["dir" := "${db}/d"]}) by (vm_compute; reflexivity).
  assert (HM : ∀ k, foldr (λ (m : gmap string string) r, match m !! k with Some v => Some v | None => r end) None
    [{["sock" := "${log}.s"]}; EnvOverrides env; file; defaults] = M !! k).
  { intros k. rewrite Henv. unfold M, file, defaults. cbn [foldr]. rewrite !lookup_insert, !lookup_singleton.
    repeat case_decide; done. }
  destruct (LoadEffectiveFrom_layers defaults orders env c {["sock" := "${log}.s"]} file) as (merged & Hm & Hres).
  - left. vm_compute. reflexivity.
  - intros j k Hk. rewrite HM in Hk. exact (proj2 (elem_of_sorted_keys M k) Hk).
  - assert (Em : merged = M) by (apply map_eq; intros k; rewrite Hm; apply HM). subst merged.
    destruct Hres as (m & Em' & Hm').
    + vm_compute. exact I.
    + exists m. split; [exact Em'|]. rewrite Hm', <- Hm. vm_compute. reflexivity.
Defined.

(** ** Writing the file *)
Abbreviation as_map lc := (list_to_map lc : gmap string string).

Lemma foldl_insert_map (g : string → string) (lc : LocalConfig) (m : gmap string string) :
  NoDup lc.*1 → foldl (λ m kv, <[kv.1 := g kv.2]> m) m lc = (g <$> as_map lc) ∪ m.
Proof.
  revert m. induction lc as [|[k v] lc IH]; intros m Hnd; cbn.
  - by rewrite fmap_empty, map_empty_union.
  - apply NoDup_cons in Hnd as [Hk Hnd]. rewrite IH by done. rewrite fmap_insert.
    apply map_eq. intros k'. rewrite !lookup_union, !lookup_insert. case_decide as Hx; [subst k'|done].
    cbn in Hk. rewrite lookup_fmap, not_elem_of_list_to_map_1 by done. by destruct (m !! k).
Qed.

(** What is loaded from a file that was saved. *)
Lemma load_saved lc :
  NoDup lc.*1 → LoadLocalConfigFile (saveLocalConfig lc) = inl (TrimSpace <$> as_map lc, []).
Proof.
  intros Hnd. unfold saveLocalConfig, LoadLocalConfigFile. f_equal.
  trans (foldl (λ (m : gmap string string) kv, <[kv.1 := TrimSpace kv.2]> m) (∅ : gmap string string) lc, @nil string).
  - generalize (∅ : gmap string string). clear Hnd. induction lc as [|[k v] lc IH]; intros m; cbn; [done|]. apply IH.
  - by rewrite foldl_insert_map, map_union_empty.
Qed.

Lemma read_saved lc : readLocalConfigXML (saveLocalConfig lc) = inl lc.
Proof.
  unfold saveLocalConfig, readLocalConfigXML. f_equal. induction lc as [|[k v] lc IH]; cbn; [done|]. by rewrite IH.
Qed.

Lemma setKey_spec lc p :
  NoDup lc.*1 → NoDup (setKey lc p).*1 ∧ as_map (setKey lc p) = <[p.1 := p.2]> (as_map lc) ∧
  (setKey lc p).*1 = append_unique lc.*1 p.1.
Proof.
  unfold append_unique. induction lc as [|[k v] lc IH]; intros Hnd; cbn.
  - split_and!; [by constructor; [apply not_elem_of_nil|constructor]|by destruct p|done].
  - apply NoDup_cons in Hnd as [Hk Hnd]. destruct (IH Hnd) as (H1 & H2 & H3).
    destruct (String.eqb_spec k p.1) as [->|Hne]; cbn.
    + split_and!; [by constructor|by rewrite insert_insert_eq|]. rewrite decide_True by by left. done.
    + assert (Hk' : k ∉ (setKey lc p).*1).
      { rewrite H3. unfold append_unique. case_decide; [done|]. rewrite elem_of_app, list_elem_of_singleton. naive_solver. }
      split_and!; [by constructor|rewrite H2; by rewrite insert_insert_ne|].
      rewrite H3. unfold append_unique. do 2 case_decide; [done|..|done]; exfalso; set_solver.
Qed.

Lemma setKeys_spec pairs lc :
  NoDup lc.*1 → NoDup (foldl setKey lc pairs).*1 ∧
  as_map (foldl setKey lc pairs) = as_map (rev pairs) ∪ as_map lc ∧
  (foldl setKey lc pairs).*1 = append_uniques lc.*1 pairs.*1.
Proof.
  revert lc. induction pairs as [|p pairs IH]; intros lc Hnd; cbn [foldl].
  - cbn. by rewrite map_empty_union.
  - destruct (setKey_spec lc p Hnd) as (H1 & H2 & H3). destruct (IH _ H1) as (I1 & I2 & I3).
    split_and!; [done| |by rewrite I3, H3]. rewrite I2, H2. cbn [rev]. rewrite list_to_map_app.
    destruct p as [k v]. cbn. apply map_eq. intros k'. rewrite !lookup_union, !lookup_insert, lookup_empty.
    case_decide; subst; destruct (as_map (rev pairs) !! _), (as_map lc !! _); done.
Qed.

(** Setting keys, whatever the pairs and whatever was in the file, and loading
    it back gives the last value set for each key, trimmed, and the old value of
    every other key; the keys of the file keep their order and new ones follow in
    the order they were set.  An unreadable or malformed file is an error. *)
Theorem SetKeys_load c pairs :
  match readOrEmptyLocalConfig c with
  | inr e => SetKeys_locked pairs c = inr e ∧ (c = Unreadable ∨ c = Malformed)
  | inl lc => NoDup lc.*1 →
      ∃ c', SetKeys_locked pairs c = inl c' ∧
        LoadLocalConfigFile c' = inl (TrimSpace <$> (as_map (rev pairs) ∪ as_map lc), []) ∧
        ∃ lc', readLocalConfigXML c' = inl lc' ∧ NoDup lc'.*1 ∧ lc'.*1 = append_uniques lc.*1 pairs.*1
  end.
Proof.
  unfold SetKeys_locked. destruct (readOrEmptyLocalConfig c) as [lc|e] eqn:E.
  - intros Hnd. destruct (setKeys_spec pairs lc Hnd) as (H1 & H2 & H3). eexists. split_and!; [done| |].
    + by rewrite load_saved, H2.
    + exists (foldl setKey lc pairs). by rewrite read_saved.
  - split; [done|]. destruct c; cbn in E; [done|by left|by right|done].
Qed.

(** A key set twice, one that was there and one that was not. *)
Lemma SetKeys_load_witness :
  let c := Parsed [("a", Some "1"); ("b", Some "2")] in
  ∃ c', SetKeys_locked [("n", "x"); ("b", " 3 "); ("n", "y")] c = inl c' ∧
        LoadLocalConfigFile c' = inl (<["a" := "1"]> (<["b" := "3"]> {["n" := "y"]}), []).
Proof.
  intros c. pose proof (SetKeys_load c [("n", "x"); ("b", " 3 "); ("n", "y")]) as H.
  change (readOrEmptyLocalConfig c) with (inl [("a", "1"); ("b", "2")] : LocalConfig + LcError) in H.
  destruct H as (c' & H1 & H2 & _); [apply (bool_decide_unpack (NoDup _)); vm_compute; exact I|].
  exists c'. split; [exact H1|]. rewrite H2. vm_compute. reflexivity.
Defined.

Lemma remove_spec lc key :
  as_map (removeKey lc key).1 = delete key (as_map lc) ∧
  ((removeKey lc key).2 ↔ is_Some (as_map lc !! key)) ∧ (NoDup lc.*1 → NoDup (removeKey lc key).1.*1).
Proof.
  unfold removeKey. cbn [fst snd]. split_and!.
  - induction lc as [|[k v] lc IH]; [symmetry; apply delete_empty|]. rewrite filter_cons. case_decide as Hk; cbn in Hk.
    + cbn [list_to_map foldr fst snd] in *. rewrite IH, delete_insert_ne by done. done.
    + assert (k = key) as -> by (destruct (decide (k = key)); tauto). rewrite IH. cbn. by rewrite delete_insert_eq.
  - rewrite Is_true_true, negb_true_iff, Nat.eqb_neq. induction lc as [|[k v] lc IH].
    + cbn. rewrite lookup_empty. split; [done|]. by intros [].
    + rewrite filter_cons. cbn [list_to_map foldr fst snd length]. rewrite lookup_insert. case_decide as Hk; cbn in Hk.
      * rewrite decide_False by done. cbn [length]. rewrite <- IH. lia.
      * rewrite decide_True by (destruct (decide (k = key)); tauto). split; [eauto|]. intros _.
        pose proof (length_filter (λ kv : string * string, kv.1 ≠ key) lc). lia.
  - intros Hnd. induction lc as [|[k v] lc IH]; [done|]. apply NoDup_cons in Hnd as [Hk Hnd].
    rewrite filter_cons. case_decide; [|auto]. apply NoDup_cons. split; [|auto].
    intros ([k' v'] & Ek & [_ Hin]%list_elem_of_filter)%list_elem_of_fmap. cbn in Ek. subst k'. apply Hk.
    apply list_elem_of_fmap. by exists (k, v').
Qed.

(** Removing keys leaves the others; it fails, and writes nothing, only for a key
    that has no default and is not, or no longer, in the file. *)
Lemma remove_keys_spec Defaults keys lc :
  match remove_keys Defaults lc keys with
  | inl lc' => as_map lc' = filter (λ kv, kv.1 ∉ keys) (as_map lc) ∧ (NoDup lc.*1 → NoDup lc'.*1)
  | inr e => ∃ i key, e = KeyNotSet key ∧ keys !! i = Some key ∧ Defaults !! key = None ∧
                      (as_map lc !! key = None ∨ key ∈ take i keys)
  end.
Proof.
  revert lc. induction keys as [|key keys IH]; intros lc; cbn [remove_keys].
  - split; [|done]. symmetry. apply map_filter_id. intros k v _. apply not_elem_of_nil.
  - destruct (removeKey lc key) as [lc1 present] eqn:E. destruct (remove_spec lc key) as (H1 & H2 & H3).
    rewrite E in H1, H2, H3. cbn [fst snd] in *. destruct (negb present && negb (IsKnownKey Defaults key)) eqn:Eb.
    + apply andb_true_iff in Eb as [Ep Ek]. exists 0%nat, key. split_and!; [done|done| |].
      * unfold IsKnownKey in Ek. apply negb_true_iff, bool_decide_eq_false in Ek. by apply eq_None_not_Some.
      * left. apply eq_None_not_Some. rewrite <- H2. destruct present; [done|by intros []].
    + specialize (IH lc1). destruct (remove_keys Defaults lc1 keys) as [lc'|e].
      * destruct IH as [I1 I2]. split; [|auto]. rewrite I1, H1. apply map_eq. intros k. apply option_eq. intros v.
        rewrite !map_lookup_filter_Some, lookup_delete_Some. cbn. rewrite not_elem_of_cons. naive_solver.
      * destruct IH as (i & k & -> & Hi & Hd & Hk). exists (S i), k. split_and!; [done|done|done|].
        rewrite H1, lookup_delete_None in Hk. cbn. rewrite elem_of_cons. destruct Hk as [[<-|Hk]|Hk]; auto.
Qed.

(** A key without a [value] becomes an empty one as soon as any key is set, and of
    two elements with one name the first is set and the last is read. *)
Example SetKeys_null :
  let c := Parsed [("n", None); ("a", Some "1")] in
  snd <$> (match LoadLocalConfigFile c with inl x => Some x | _ => None end) = Some ["n"] ∧
  (match SetKeys_locked [("a", "2")] c with inl c' => LoadLocalConfigFile c' | inr e => inr e end) =
  inl (<["n" := ""]> {["a" := "2"]}, []).
Proof. vm_compute. split; reflexivity. Qed.

Example SetKeys_duplicate :
  (match SetKeys_locked [("a", "new")] (Parsed [("a", Some "1"); ("a", Some "2")]) with
   | inl c' => LoadLocalConfigFromFile c' | inr e => inr e end) = inl {["a" := "2"]}.
Proof. vm_compute. reflexivity. Qed.

(** ** Writers that run at the same time *)
Section writers.
Variables (Defaults : gmap string string) (ops : nat → Op) (c0 : Content) (ps : gset nat).

Definition writers_start : Writers :=
  {| ws_content := c0; ws_holder := None; ws_pcs := gset_to_gmap Waiting ps; ws_log := [] |}.

(** The writers one after the other. *)
Definition one_by_one (log : list nat) : Content :=
  foldl (λ c p, match run_op Defaults (ops p) c with inl c' => c' | inr _ => c end) c0 log.

(** What holds for the writer [p] at [pc]. *)
Definition pc_ok (w : Writers) (p : nat) (pc : Pc) : Prop :=
  match pc with
  | Waiting => p ∉ ws_log w
  | Locked => ws_holder w = Some p ∧ p ∉ ws_log w
  | HasRead c => ws_holder w = Some p ∧ (p ∉ ws_log w) ∧ c = ws_content w
  | Saved r => ws_holder w = Some p ∧ (r = inl tt → p ∈ ws_log w)
  | Finished r => r = inl tt → p ∈ ws_log w
  | Dead => True
  end.

Definition writers_inv (w : Writers) : Prop :=
  ws_content w = one_by_one (ws_log w) ∧ NoDup (ws_log w) ∧ ∀ p pc, ws_pcs w !! p = Some pc → pc_ok w p pc.

(** A move of [p] that leaves the holder to the others. *)
Lemma move_inv w p pc holder :
  writers_inv w → pc_ok (move p pc holder w) p pc →
  (∀ q, q ≠ p → ws_holder w = Some q → holder = Some q) → writers_inv (move p pc holder w).
Proof.
  intros (Hc & Hn & Hp) Hpc Hh. split_and!; [done|done|]. cbn. intros q pc' Hq.
  destruct (decide (q = p)) as [->|Hne]; [rewrite lookup_insert_eq in Hq; by simplify_eq|].
  rewrite lookup_insert_ne in Hq by done. specialize (Hp q pc' Hq). destruct pc'; cbn in *; naive_solver.
Qed.

Lemma publish_inv w p c r c' :
  writers_inv w → ws_pcs w !! p = Some (HasRead c) → run_op Defaults (ops p) c = inl c' →
  writers_inv (publish p r c' w).
Proof.
  intros (Hc & Hn & Hp) Hpc Hop. destruct (Hp p _ Hpc) as (Hh & Hlog & ->). split_and!; cbn.
  - unfold one_by_one. rewrite foldl_app. cbn. fold (one_by_one (ws_log w)). by rewrite <- Hc, Hop.
  - apply NoDup_app. split_and!; [done| |apply NoDup_singleton]. by intros q Hq ->%list_elem_of_singleton.
  - intros q pc' Hq. destruct (decide (q = p)) as [->|Hne].
    + rewrite lookup_insert_eq in Hq. simplify_eq. cbn. split; [done|]. set_solver.
    + rewrite lookup_insert_ne in Hq by done. specialize (Hp q pc' Hq).
      destruct pc'; cbn in *; rewrite ?elem_of_app, ?list_elem_of_singleton; naive_solver.
Qed.

Lemma wstep_inv w w' : writers_inv w → wstep Defaults ops w w' → writers_inv w'.
Proof.
  intros Hinv Hstep. pose proof Hinv as (Hc & Hn & Hp).
  destruct Hstep as [w p Hpc Hh|w p Hpc|w p Hpc|w p c e Hpc Hop|w p c c' Hpc Hop|w p c c' Hpc Hop|w p c Hpc|w p r Hpc|w p pc Hpc];
    pose proof (Hp p _ Hpc) as Hok; cbn in Hok; try (by eapply publish_inv);
    apply move_inv; cbn; try done; try tauto; try (intros; congruence); try (split; tauto);
    try (destruct Hok as (Hh & _); split; [exact Hh|discriminate]).
  - destruct Hok as [Hh _]. intros q Hne Hq. congruence.
  - intros q Hne Hq. rewrite bool_decide_false; [done|]. congruence.
Qed.

(** C27: Processes that edit localconfig.xml at the same time, under the file lock,
    and that may give up waiting, fail to save or die at any point: the file is
    always what the writers that replaced it leave when run one after the other in
    some order, each once, and a writer that reported success is among them.  No
    update is lost. *)
Theorem writers_serialised w :
  rtc (wstep Defaults ops) writers_start w →
  ∃ log, NoDup log ∧ ws_content w = one_by_one log ∧
    (∀ p, ws_pcs w !! p = Some (Finished (inl tt)) → p ∈ log) ∧
    (∀ p, ws_pcs w !! p = Some Waiting → p ∉ log).
Proof.
  intros H. assert (Hinv : writers_inv w).
  { apply (rtc_ind_r (R := wstep Defaults ops) (λ w, writers_inv w) writers_start); [|intros; by eapply wstep_inv|done].
    split_and!; [done|constructor|]. cbn. intros p pc [_ <-]%lookup_gset_to_gmap_Some. apply not_elem_of_nil. }
  destruct Hinv as (Hc & Hn & Hp). exists (ws_log w). split_and!; [done|done| |].
  - intros p E. by apply (Hp p _ E).
  - intros p E. exact (Hp p _ E).
Qed.
End writers.

(** Two writers, the second waiting while the first is at work. *)
Lemma writers_serialised_witness :
  let ops p := if decide (p = 0)%nat then OpSet [("a", "1")] else OpSet [("b", "2")] in
  ∃ w, rtc (wstep ∅ ops) (writers_start Absent {[0; 1]}%nat) w ∧
    ws_pcs w !! 0%nat = Some (Finished (inl tt)) ∧ ws_pcs w !! 1%nat = Some (Finished (inl tt)) ∧
    ∃ log, NoDup log ∧ ws_content w = one_by_one ∅ ops Absent log ∧ 0%nat ∈ log ∧ 1%nat ∈ log.
Proof.
  intros ops. set (s0 := writers_start Absent {[0; 1]}%nat).
  set (s1 := move 1 Locked (Some 1%nat) s0). set (s2 := move 1 (HasRead Absent) (Some 1%nat) s1).
  set (c1 := Parsed [("b", Some "2")]). set (s3 := publish 1 (inl tt) c1 s2). set (s4 := move 1 (Finished (inl tt)) None s3).
  set (s5 := move 0 Locked (Some 0%nat) s4). set (s6 := move 0 (HasRead c1) (Some 0%nat) s5).
  set (c2 := Parsed [("b", Some "2"); ("a", Some "1")]).
  set (s7 := publish 0 (inl tt) c2 s6). set (s8 := move 0 (Finished (inl tt)) None s7).
  assert (H : rtc (wstep ∅ ops) s0 s8).
  { eapply rtc_l; [exact (w_acquire ∅ ops s0 1 eq_refl eq_refl)|].
    eapply rtc_l; [exact (w_read ∅ ops s1 1 eq_refl)|].
    eapply rtc_l; [exact (w_save ∅ ops s2 1 Absent c1 eq_refl eq_refl)|].
    eapply rtc_l; [exact (w_release ∅ ops s3 1 (inl tt) eq_refl)|].
    eapply rtc_l; [exact (w_acquire ∅ ops s4 0 eq_refl eq_refl)|].
    eapply rtc_l; [exact (w_read ∅ ops s5 0 eq_refl)|].
    eapply rtc_l; [exact (w_save ∅ ops s6 0 c1 c2 eq_refl eq_refl)|].
    eapply rtc_l; [exact (w_release ∅ ops s7 0 (inl tt) eq_refl)|]. apply rtc_refl. }
  exists s8. split; [exact H|]. split; [vm_compute; reflexivity|]. split; [vm_compute; reflexivity|].
  destruct (writers_serialised ∅ ops Absent {[0; 1]}%nat s8 H) as (log & Hn & Hc & Hf & _).
  exists log. split; [exact Hn|]. split; [exact Hc|]. split; apply Hf; vm_compute; reflexivity.
Defined.

(** ** What a shell makes of the output *)

(** A shell word up to the semicolon: single quotes keep everything but a single
    quote as it is, and outside them a backslash keeps the next character. *)
Fixpoint sh_word (quoted : bool) (s : string) : option (string * string) :=
  match s with
  | EmptyString => None
  | String c s' =>
      if quoted then
        if Ascii.eqb c squote then sh_word false s' else (λ '(v, r), (String c v, r)) <$> sh_word true s'
      else if Ascii.eqb c squote then sh_word true s'
      else if Ascii.eqb c ";" then Some ("", s')
      else if Ascii.eqb c "\" then
        match s' with
        | EmptyString => None
        | String c' s'' => (λ '(v, r), (String c' v, r)) <$> sh_word false s''
        end
      else (λ '(v, r), (String c v, r)) <$> sh_word false s'
  end.

(** The assignments of a script, one per line, each after [pre]. *)
Fixpoint sh_eval (fuel : nat) (pre s : string) : option (list (string * string)) :=
  match fuel, s with
  | _, EmptyString => Some []
  | O, _ => None
  | S fuel, _ =>
      if HasPrefix s pre then
        '(name, rest) ← CutByte "=" (drop_string (String.length pre) s);
        '(value, rest) ← sh_word false rest;
        '(_, rest) ← CutByte newline rest;
        ((name, value) ::.) <$> sh_eval fuel pre rest
      else None
  end.

Lemma sh_word_escaped v rest :
  sh_word true (ShellEscape v +:+ String squote (String ";" rest)) = Some (v, rest).
Proof.
  induction v as [|c v IH]; [done|]. cbn [ShellEscape]. destruct (Ascii.eqb c squote) eqn:E.
  - apply Ascii.eqb_eq in E as ->.
    trans ((λ '(v, r), (String squote v, r)) <$> sh_word true (ShellEscape v +:+ String squote (String ";" rest)));
      [reflexivity|]. by rewrite IH.
  - rewrite string_app_cons. cbn [sh_word]. rewrite E, IH. done.
Qed.


Definition sh_line (pre k v : string) : string := pre +:+ k +:+ "='" +:+ ShellEscape v +:+ "';" +:+ nl.


Lemma sh_eval_line fuel pre k v rest :
  chars (λ c, negb (Ascii.eqb c "=")) k →
  sh_eval (S fuel) pre (sh_line pre k v +:+ rest) = ((k, v) ::.) <$> sh_eval fuel pre rest.
Proof.
  intros Hk. unfold sh_line. rewrite !string_app_assoc.
  set (tail := k +:+ "='" +:+ ShellEscape v +:+ "';" +:+ nl +:+ rest).
  assert (Hne : pre +:+ tail ≠ "").
  { intros E. apply (f_equal String.length) in E. unfold tail in E. rewrite !length_string_app in E. cbn in E. lia. }
  cbn [sh_eval]. destruct (pre +:+ tail) as [|c s] eqn:Es; [done|]. rewrite <- Es.
  rewrite HasPrefix_app, drop_string_app. unfold tail.
  change ("='" +:+ ShellEscape v +:+ "';" +:+ nl +:+ rest)
    with (String "=" (String squote (ShellEscape v +:+ "';" +:+ nl +:+ rest))).
  rewrite CutByte_at by done. cbn [mbind option_bind sh_word]. rewrite Ascii.eqb_refl.
  change ("';" +:+ nl +:+ rest) with (String squote (String ";" (String newline rest))).
  rewrite sh_word_escaped. done.
Qed.

(** A shell that evaluates the output of the shell format (or of the export
    format, [pre] being the word export) sets exactly the selected keys, in order,
    to exactly their values, whatever bytes the values hold. *)
Theorem shell_output_roundtrip config order (exported : bool) :
  map_Forall (λ k _, chars (λ c, negb (Ascii.eqb c "=")) k) config →
  let pre := if exported then "export " else "" in
  let out := (if exported then FormatExport else FormatShell) config order in
  ∀ fuel, (length (orderedKeys config order) < fuel)%nat →
  sh_eval fuel pre out = Some (omap (λ k, (k,.) <$> config !! k) (orderedKeys config order)).
Proof.
  intros Hk pre out fuel Hf.
  assert (Ho : ∀ k, k ∈ orderedKeys config order → is_Some (config !! k)).
  { intros k. unfold orderedKeys. destruct order; [by rewrite elem_of_sorted_keys|]. by intros [? _]%list_elem_of_filter. }
  assert (Hout : out = foldr (λ k s, sh_line pre k (default "" (config !! k)) +:+ s) "" (orderedKeys config order)).
  { unfold out, pre, sh_line. destruct exported; reflexivity. }
  rewrite Hout. clear Hout out. revert fuel Hf. induction (orderedKeys config order) as [|k ks IH]; intros fuel Hf.
  - by destruct fuel.
  - destruct fuel as [|fuel]; [cbn in Hf; lia|]. cbn [foldr].
    destruct (Ho k) as [v Ev]; [by left|]. rewrite Ev. cbn [default].
    rewrite sh_eval_line by exact (Hk k v Ev). rewrite IH; [|intros k' Hk'; apply Ho; by right|cbn in Hf; lia].
    cbn. by rewrite Ev.
Qed.

(** A value with quotes, a dollar and a line break. *)
Lemma shell_output_roundtrip_witness :
  let config : gmap string string := <["pw" := "it's;$x" +:+ String newline "'"]> {["a" := ""]} in
  sh_eval 3 "" (FormatShell config []) = Some [("a", ""); ("pw", "it's;$x" +:+ String newline "'")].
Proof.
  intros config. assert (Hk : map_Forall (λ k _, chars (λ c, negb (Ascii.eqb c "=")) k) config)
    by (apply (bool_decide_unpack (map_Forall (λ k _, chars (λ c, negb (Ascii.eqb c "=")) k) config)); vm_compute; exact I).
  pose proof (shell_output_roundtrip config [] false Hk 3) as H. cbn [orderedKeys] in H.
  etransitivity; [apply H; vm_compute; lia|]. vm_compute. reflexivity.
Defined.
