(* ===== verification/Commands.v ===== *)
(** * Commands: internal/commands and ldap.NormalizeAttrs

    The provisioning lookups the loaders make: the answer of the LDAP client is an
    argument ([None] is a failed query, and an executor without a client fails). *)
From S2P Require Import Prelude.

(** ** The executor *)

(** The client's answers: [GetServerConfig], [GetGlobalConfig] and
    [GetAllServersWithAttributes]. *)
Record provisioningLDAP := {
  GetServerConfig : string → option (gmap string string);
  GetGlobalConfig : option (gmap string string);
  GetAllServersWithAttributes : option (gmap string (gmap string string)) }.

(** [CommandExecutor]: the client, when there is one. *)
Abbreviation CommandExecutor := (option provisioningLDAP).

Definition requireLDAP {A} (e : CommandExecutor) (f : provisioningLDAP → option A) : option A := e ← e; f e.

Definition ServerAttrs (e : CommandExecutor) (hostname : string) : option (gmap string string) :=
  requireLDAP e (λ c, GetServerConfig c hostname).

Definition GlobalAttrs (e : CommandExecutor) : option (gmap string string) := requireLDAP e GetGlobalConfig.

Definition attr (attrs : gmap string string) (key : string) : string := default "" (attrs !! key).

(** Ordered by server name. *)
Definition sortedServers (servers : gmap string (gmap string string)) : list (gmap string string) :=
  (sorted_items servers).*2.

Definition getAllServersWithAttribute (e : CommandExecutor) (attributeKey : string) (url : string → string) : option string :=
  requireLDAP e (λ c,
  servers ← GetAllServersWithAttributes c;
  Some (Join (omap (λ attrs,
    if String.eqb (attr attrs "zimbraServiceHostname") "" then None
    else if EqualFold (attr attrs attributeKey) "TRUE" then Some (url (attr attrs "zimbraServiceHostname")) else None)
    (sortedServers servers)) " ")).

Definition or_default (v d : string) : string := if String.eqb v "" then d else v.

Definition gamau (e : CommandExecutor) : option string :=
  requireLDAP e (λ c,
  servers ← GetAllServersWithAttributes c;
  Some (Join (omap (λ attrs,
    let hostname := attr attrs "zimbraServiceHostname" in
    if String.eqb hostname "" then None
    else if negb (EqualFold (attr attrs "zimbraMtaAuthTarget") "TRUE") then None
    else Some ("https://" +:+ hostname +:+ ":" +:+ or_default (attr attrs "zimbraMtaAuthPort") "7073" +:+ "/service/admin/soap/"))
    (sortedServers servers)) " ")).

Definition garpu (e : CommandExecutor) : option string :=
  getAllServersWithAttribute e "zimbraReverseProxyLookupTarget" (λ h, h +:+ ":7072/service/extension/nginx-lookup").

Definition buildBackendURL (attrs : gmap string string) : option string :=
  let hostname := attr attrs "zimbraServiceHostname" in
  if String.eqb hostname "" then None
  else if negb (EqualFold (attr attrs "zimbraReverseProxyLookupTarget") "TRUE") then None
  else
    let mailMode := attr attrs "zimbraMailMode" in
    if String.eqb mailMode "" then None
    else
      let port := if bool_decide (ToLower mailMode ∈ ["http"; "mixed"; "both"])
                  then or_default (attr attrs "zimbraMailPort") "80"
                  else or_default (attr attrs "zimbraMailSSLPort") "0" in
      Some (hostname +:+ ":" +:+ port).

Definition garpbEmptyFallback : string := "    server localhost:8080;".

Definition garpb (e : CommandExecutor) : option string :=
  requireLDAP e (λ c,
  servers ← GetAllServersWithAttributes c;
  Some (match omap buildBackendURL (sortedServers servers) with
        | [] => garpbEmptyFallback
        | backends => Join backends " "
        end)).

(** ** The registry *)

(** [Command]: the name under which the output is published, and the function. *)
Record Command := { cmd_Name : string; cmd_Func : option string }.

(** [ExecuteWithContext]: exit code and output. *)
Definition ExecuteWithContext (c : Command) : Z * string :=
  match cmd_Func c with
  | None => (1%Z, "")
  | Some output => (0%Z, or_default output "UNKNOWN OUTPUT")
  end.

(** [RegisterLDAPCommands]; the registry is empty ([None]) before. *)
Record Registry := {
  reg_Commands : gmap string Command;
  reg_ServerAttrs : string → option (gmap string string);
  reg_GlobalAttrs : option (gmap string string) }.

Definition RegisterLDAPCommands (e : CommandExecutor) : Registry :=
  {| reg_Commands :=
       list_to_map [("gamau", {| cmd_Name := "getAllMtaAuthURLs"; cmd_Func := gamau e |});
                    ("garpb", {| cmd_Name := "getAllReverseProxyBackends"; cmd_Func := garpb e |});
                    ("garpu", {| cmd_Name := "getAllReverseProxyURLs"; cmd_Func := garpu e |})];
     reg_ServerAttrs := ServerAttrs e;
     reg_GlobalAttrs := GlobalAttrs e |}.

(** ** ldap/normalize.go *)
Definition normalize_value (value : string) : string :=
  if Contains value (String newline "") then Join (map TrimSpace (SplitByte newline value)) (String newline "")
  else TrimSpace value.

(** Attribute names that differ in surrounding blanks would meet in one key, the
    last visited winning; LDAP attribute names have no blanks. *)
Definition NormalizeAttrs (attrs : gmap string string) : gmap string string :=
  map_fold (λ key value m, <[TrimSpace key := normalize_value value]> m) ∅ attrs.
