(* ===== verification/Loaders.v ===== *)
(** * Loaders: internal/configmgr/manager_load*.go, manager_stage.go, retry.go

    How a cycle loads the four parts of the configuration.  A load attempt runs
    the four loaders at once on a staging area and then publishes whatever was
    delivered in one snapshot update.  What an attempt meets (the answers of the
    localconfig file and the directory, cancellations, who finishes in time) is a
    [World]; the clock's readings for the cache are arguments. *)
From S2P Require Import Prelude Config Snapshot State Cache Commands Localconfig.
Open Scope Z_scope.

(** ** Errors *)
Inductive LoadError :=
  | Cancelled
  | LoadLocalFailed (what : string)
  | NotRegistered (cmd : string)
  | QueryFailed (cmd : string)
  | NoData (cmd : string)
  | HostnameRequired
  | UnexpectedType (key : string)
  | AttemptTimeout (attempt : nat)
  | LoadTimeout (wait : Z).

(** ** retry.go *)

(** What a loader sees of its context: cancelled at the [n]-th try, a sleep before
    the [n]-th try that ran to its end, cancelled when it is about to publish. *)
Record Look := { cancelled_at : nat → bool; slept : nat → bool; gone : bool }.

Section retry.
Context {A S : Type} (zero : A) (look : Look) (fn : nat → S → (A + LoadError) * S).

Fixpoint retry_go (tries attempt : nat) (lastErr : option LoadError) (s : S) : (A + LoadError) * S :=
  match tries with
  | O => (match lastErr with Some e => inr e | None => inl zero end, s)
  | Datatypes.S tries =>
      if cancelled_at look attempt then (inr Cancelled, s)
      else if (1 <? attempt)%nat && negb (slept look attempt) then (inr Cancelled, s)
      else
        match fn attempt s with
        | (inl r, s) => (inl r, s)
        | (inr e, s) => retry_go tries (Datatypes.S attempt) (Some e) s
        end
  end.

Definition retryWithBackoff (maxRetries : nat) (s : S) : (A + LoadError) * S := retry_go maxRetries 1 None s.
End retry.

(** ** manager_load.go: common post-processing *)
Definition processSortedSSLConfigForTarget (key : string) (configData : gmap string string) : gmap string string :=
  let value := default "" (configData !! key) in
  if String.eqb value "" then configData
  else
    let sorted := sort_by_key ToLower (Fields value) in
    <[key +:+ "XML" := Join (map (λ v, "<Item>" +:+ v +:+ "</Item>") sorted) (String newline "")]>
      (<[key := Join sorted " "]> configData).

Definition processCommonSSLConfig (configData : gmap string string) : gmap string string :=
  foldl (λ d key, processSortedSSLConfigForTarget key d) configData
    ["zimbraMailboxdSSLProtocols"; "zimbraSSLExcludeCipherSuites"; "zimbraSSLIncludeCipherSuites"].

Definition fetchGlobalAttrs (registry : option Registry) : gmap string string + LoadError :=
  match registry with
  | None => inr (NotRegistered "gacf")
  | Some r =>
      match reg_GlobalAttrs r with
      | None => inr (QueryFailed "gacf")
      | Some attrs => if decide (attrs = ∅) then inr (NoData "gacf") else inl (NormalizeAttrs attrs)
      end
  end.

Definition fetchServerAttrs (registry : option Registry) (hostname : string) : gmap string string + LoadError :=
  match registry with
  | None => inr (NotRegistered "gs")
  | Some r =>
      match reg_ServerAttrs r hostname with
      | None => inr (QueryFailed "gs")
      | Some attrs => if decide (attrs = ∅) then inr (NoData "gs") else inl (NormalizeAttrs attrs)
      end
  end.

(** ** manager_load_misc.go: the global part *)
Definition postProcessGlobal (configData : gmap string string) : gmap string string :=
  processCommonSSLConfig
    (<["zimbraQuarantineBannedItems" :=
        if String.eqb (attr configData "zimbraMtaBlockedExtensionWarnRecipient") "TRUE" &&
           negb (String.eqb (attr configData "zimbraAmavisQuarantineAccount") "")
        then "TRUE" else "FALSE"]> configData).

(** ** manager_load_server.go *)
Record ServerConfigData := { scd_Data : gmap string string; scd_ServiceConfig : gmap string string }.

Fixpoint rbl_matches (pattern : string) (words : list string) : list string :=
  match words with
  | w :: ((next :: _) as rest) => (if String.eqb w pattern then [next] else []) ++ rbl_matches pattern rest
  | _ => []
  end.

Definition extractRBLMatches (text pattern : string) : list string := rbl_matches pattern (Fields text).

Fixpoint rbl_removed (pattern : string) (skip : bool) (words : list string) : list string :=
  match words with
  | [] => []
  | w :: rest =>
      if skip then rbl_removed pattern false rest
      else if String.eqb w pattern && (match rest with [] => false | _ => true end)
           then rbl_removed pattern true rest
           else w :: rbl_removed pattern false rest
  end.

Definition removeRBLEntries (text pattern : string) : string := Join (rbl_removed pattern false (Fields text)) " ".

(** The pairs of a restriction keyword and the key its domains are stored under. *)
Definition rblTypes : list (string * string) :=
  [("reject_rbl_client", "zimbraMtaRestrictionRBLs"); ("reject_rhsbl_client", "zimbraMtaRestrictionRHSBLCs");
   ("reject_rhsbl_sender", "zimbraMtaRestrictionRHSBLSs");
   ("reject_rhsbl_reverse_client", "zimbraMtaRestrictionRHSBLRCs")].

Definition processRBLPatterns (restriction : string) (types : list (string * string)) : gmap string (list string) * string :=
  foldl (λ '(extracted, restriction) '(pattern, dataKey),
    (<[dataKey := extractRBLMatches restriction pattern]> extracted, removeRBLEntries restriction pattern))
    (∅, restriction) types.

Definition processMtaRestrictionRBLsForData (data : gmap string string) : gmap string string :=
  let restriction := attr data "zimbraMtaRestriction" in
  if String.eqb restriction "" then data
  else
    let '(extracted, cleaned) := processRBLPatterns restriction rblTypes in
    <["zimbraMtaRestriction" := cleaned]>
      (map_fold (λ key matches d, <[key := Join matches ", "]> d) data extracted).

Definition if_unset (key value : string) (data : gmap string string) : gmap string string :=
  match data !! key with Some _ => data | None => <[key := value]> data end.

Definition insert_all (kvs : list (string * string)) (data : gmap string string) : gmap string string :=
  foldl (λ d '(k, v), <[k := v]> d) data kvs.

Definition processIPModeConfigForData (data : gmap string string) : gmap string string :=
  let ipMode := attr data "zimbraIPMode" in
  if String.eqb ipMode "" then data
  else
    let ipMode := ToLower ipMode in
    let data := <["zimbraIPv4BindAddress" := "127.0.0.1"]> data in
    if String.eqb ipMode "ipv4" then
      if_unset "zimbraMilterBindAddress" "127.0.0.1"
        (insert_all [("zimbraUnboundBindAddress", "127.0.0.1"); ("zimbraLocalBindAddress", "127.0.0.1");
                     ("zimbraPostconfProtocol", "ipv4"); ("zimbraAmavisListenSockets", "'10024','10026','10032'");
                     ("zimbraInetMode", "inet")] data)
    else if String.eqb ipMode "ipv6" then
      if_unset "zimbraMilterBindAddress" "[::1]"
        (insert_all [("zimbraUnboundBindAddress", "::1"); ("zimbraLocalBindAddress", "::1");
                     ("zimbraPostconfProtocol", "ipv6");
                     ("zimbraAmavisListenSockets", "'[::1]:10024','[::1]:10026','[::1]:10032'");
                     ("zimbraInetMode", "inet6")] data)
    else if String.eqb ipMode "both" then
      if_unset "zimbraMilterBindAddress" "[::1]"
        (insert_all [("zimbraUnboundBindAddress", "127.0.0.1 ::1"); ("zimbraLocalBindAddress", "::1");
                     ("zimbraPostconfProtocol", "all");
                     ("zimbraAmavisListenSockets", "'10024','10026','10032','[::1]:10024','[::1]:10026','[::1]:10032'");
                     ("zimbraInetMode", "inet6")] data)
    else data.

Definition processMilterConfigForData (data : gmap string string) : gmap string string :=
  if bool_decide (data !! "zimbraMilterServerEnabled" = Some "TRUE") then
    let bindAddr := attr data "zimbraMilterBindAddress" in
    let bindPort := attr data "zimbraMilterBindPort" in
    if String.eqb bindAddr "" || String.eqb bindPort "" then data
    else
      let milter := "inet:" +:+ bindAddr +:+ ":" +:+ bindPort in
      let existing := attr data "zimbraMtaSmtpdMilters" in
      <["zimbraMtaSmtpdMilters" := if String.eqb existing "" then milter else existing +:+ ", " +:+ milter]> data
  else <["zimbraMtaSmtpdMilters" := ""]> data.

Definition convertToCommaSeparatedForData (key : string) (data : gmap string string) : gmap string string :=
  let value := attr data key in
  if String.eqb value "" then data else <[key := Join (Fields value) ", "]> data.

Definition comma_keys : list string :=
  ["zimbraMtaHeaderChecks"; "zimbraMtaImportEnvironment"; "zimbraMtaLmtpConnectionCacheDestinations";
   "zimbraMtaLmtpHostLookup"; "zimbraMtaSmtpSaslMechanismFilter"; "zimbraMtaNotifyClasses";
   "zimbraMtaPropagateUnmatchedExtensions"; "zimbraMtaSmtpdSaslSecurityOptions";
   "zimbraMtaSmtpSaslSecurityOptions"; "zimbraMtaSmtpdSaslTlsSecurityOptions"].

Definition zimbraServiceEnabled : string := "zimbraServiceEnabled".

(** The services of the server, with the sections that follow from them. *)
Definition enable_service (svc : gmap string string) (s : string) : gmap string string :=
  let svc := <[s := zimbraServiceEnabled]> svc in
  if String.eqb s "mailbox" then <["mailboxd" := zimbraServiceEnabled]> svc
  else if String.eqb s "mta" then <["sasl" := zimbraServiceEnabled]> svc
  else svc.

Definition per_line (data : gmap string string) : gmap string string :=
  let value := attr data "zimbraMtaMyNetworks" in
  if String.eqb value "" then data
  else <["zimbraMtaMyNetworksPerLine" := Join (Fields value) (String newline "")]> data.

Definition postProcessServerConfig (configData : ServerConfigData) : ServerConfigData :=
  let data := per_line (processCommonSSLConfig (scd_Data configData)) in
  let svc := foldl enable_service (scd_ServiceConfig configData) (Fields (attr data zimbraServiceEnabled)) in
  let data := processMilterConfigForData (processIPModeConfigForData (processMtaRestrictionRBLsForData data)) in
  {| scd_Data := foldl (λ d key, convertToCommaSeparatedForData key d) data comma_keys; scd_ServiceConfig := svc |}.

(** ** manager_load_local.go *)
Definition applyLocalConfigDefaults (data : gmap string string) : gmap string string :=
  let data := if_unset "zmconfigd_listen_port" "7171" data in
  let ldapURL := attr data "ldap_url" in
  if String.eqb ldapURL "" then data
  else
    let urls := Fields ldapURL in
    <["opendkim_keytable_uri" := Join (map (λ u, u +:+ "/?DKIMDomain,DKIMSelector,DKIMKey,?sub?(DKIMSelector=$d)") urls) " "]>
      (<["opendkim_signingtable_uri" := Join (map (λ u, u +:+ "/?DKIMSelector?sub?(DKIMIdentity=$d)") urls) " "]> data).

Definition parse_pair (data : gmap string string) (line : string) : gmap string string :=
  match CutByte "=" (TrimSpace line) with
  | Some (k, v) => <[TrimSpace k := TrimSpace v]> data
  | None => data
  end.

(** [late] tells that the context is cancelled when the parsing ends. *)
Definition parseLocalConfigOutput (late : bool) (output : string) : gmap string string + LoadError :=
  let data := applyLocalConfigDefaults (foldl parse_pair ∅ (SplitByte newline (TrimSpace output))) in
  if late then inr Cancelled else inl data.

(** ** The manager's caches and settings that the loaders touch *)

(** What the cache holds. *)
Inductive Cached := CMap (m : gmap string string) | CServer (d : ServerConfigData) | CText (s : string).

Record LoaderState := {
  ls_config : Config;                    (* mainConfig *)
  ls_cache : option (ConfigCache Cached);
  ls_output : string }.                  (* cachedLocalConfigOutput *)

Definition set_config (c : Config) (s : LoaderState) : LoaderState :=
  {| ls_config := c; ls_cache := ls_cache s; ls_output := ls_output s |}.
Definition set_cache (c : option (ConfigCache Cached)) (s : LoaderState) : LoaderState :=
  {| ls_config := ls_config s; ls_cache := c; ls_output := ls_output s |}.
Definition set_output (o : string) (s : LoaderState) : LoaderState :=
  {| ls_config := ls_config s; ls_cache := ls_cache s; ls_output := o |}.

Definition ClearLocalConfigCache (s : LoaderState) : LoaderState := set_output "" s.
Definition InvalidateLDAPCache (s : LoaderState) : LoaderState :=
  set_cache ((λ c, (InvalidateCacheByPrefix "ldap:" c).2) <$> ls_cache s) s.

(** [loadConfigWithCache] at type [T], which [as_T] recognises in the cache; the
    fetch answers with a [T]. *)
Definition loadConfigWithCache {T} (as_T : Cached → option T) (of_T : T → Cached) (now later : Z) (key : string)
    (fetch : T + LoadError) (s : LoaderState) : (T + LoadError) * LoaderState :=
  match ls_cache s with
  | None => (fetch, s)
  | Some c =>
      let '(r, c) := GetCachedConfig now later key (match fetch with inl v => inl (of_T v) | inr e => inr e end) c in
      (match r with
       | inr e => inr e
       | inl x => match as_T x with Some v => inl v | None => inr (UnexpectedType key) end
       end, set_cache (Some c) s)
  end.

Definition as_map (x : Cached) : option (gmap string string) := match x with CMap m => Some m | _ => None end.
Definition as_server (x : Cached) : option ServerConfigData := match x with CServer d => Some d | _ => None end.
Definition as_text (x : Cached) : option string := match x with CText s => Some s | _ => None end.

(** ** manager_stage.go *)
Record stagedLoad := {
  sl_local : option (gmap string string);
  sl_global : option (gmap string string);
  sl_misc : option (gmap string string);
  sl_server : option (gmap string string * gmap string string) }.

Definition no_stage : stagedLoad := {| sl_local := None; sl_global := None; sl_misc := None; sl_server := None |}.

Definition setLocal (d : gmap string string) (s : stagedLoad) : stagedLoad :=
  {| sl_local := Some d; sl_global := sl_global s; sl_misc := sl_misc s; sl_server := sl_server s |}.
Definition setGlobal (d : gmap string string) (s : stagedLoad) : stagedLoad :=
  {| sl_local := sl_local s; sl_global := Some d; sl_misc := sl_misc s; sl_server := sl_server s |}.
Definition setMisc (d : gmap string string) (s : stagedLoad) : stagedLoad :=
  {| sl_local := sl_local s; sl_global := sl_global s; sl_misc := Some d; sl_server := sl_server s |}.
Definition setServer (d svc : gmap string string) (s : stagedLoad) : stagedLoad :=
  {| sl_local := sl_local s; sl_global := sl_global s; sl_misc := sl_misc s; sl_server := Some (d, svc) |}.

Definition with_part {A} (f : option Snapshot → A → Snapshot) (part : option A) (out : Snapshot) : Snapshot :=
  match part with Some d => f (Some out) d | None => out end.

Definition delivered (s : stagedLoad) : bool :=
  bool_decide (is_Some (sl_local s)) || bool_decide (is_Some (sl_global s)) ||
  bool_decide (is_Some (sl_misc s)) || bool_decide (is_Some (sl_server s)).

Definition apply_stage (s : stagedLoad) (old : Snapshot) : Snapshot :=
  if negb (delivered s) then old
  else
    WithObserved (Some
      (with_part (λ o '(d, svc), WithServer o d svc) (sl_server s)
        (with_part WithMisc (sl_misc s)
          (with_part WithGlobal (sl_global s)
            (with_part WithLocal (sl_local s) old))))) ∅.

(** ** The loaders *)

(** What one attempt meets: per loader its context, the answers to the [n]-th try,
    and the clock for the cache. *)
Record World := {
  look_lc : Look; look_gc : Look; look_mc : Look; look_sc : Look;
  loadLocalConfig : nat → gmap string string + string;
  late_local : nat → bool;
  registry_gc : nat → option Registry;
  registry_sc : nat → option Registry;
  registry_mc : string → option Registry;
  now_ : Z }.

(** A loader: what it stages when it succeeds. *)
Abbreviation Loader := (World → LoaderState → ((stagedLoad → stagedLoad) + LoadError) * LoaderState).

Definition executeLocalConfigCommand (load : gmap string string + string) (s : LoaderState)
    : (string + LoadError) * LoaderState :=
  if negb (String.eqb (ls_output s) "") then (inl (ls_output s), s)
  else match load with
       | inr e => (inr (LoadLocalFailed e), s)
       | inl localCfg => (inl (FormatAsKeyValue localCfg), set_output (FormatAsKeyValue localCfg) s)
       end.

Definition LoadLocalConfig : Loader := λ w s,
  let '(r, s) := retryWithBackoff ∅ (look_lc w) (λ n s,
    match executeLocalConfigCommand (loadLocalConfig w n) s with
    | (inr e, s) => (inr e, s)
    | (inl output, s) => (parseLocalConfigOutput (late_local w n) output, s)
    end) 3 s in
  match r with
  | inr e => (inr e, s)
  | inl data =>
      if gone (look_lc w) then (inr Cancelled, s)
      else (inl (setLocal data), set_config (SetVals data (ls_config s)) s)
  end.

Definition fetchGlobalConfig (w : World) : gmap string string + LoadError :=
  (retryWithBackoff ∅ (look_gc w) (λ n (u : unit),
    (match fetchGlobalAttrs (registry_gc w n) with inl d => inl (postProcessGlobal d) | inr e => inr e end, u)) 3 tt).1.

Definition LoadGlobalConfig : Loader := λ w s,
  let '(r, s) := loadConfigWithCache as_map CMap (now_ w) (now_ w) "ldap:global_config" (fetchGlobalConfig w) s in
  match r with
  | inr e => (inr e, s)
  | inl configData => if gone (look_gc w) then (inr Cancelled, s) else (inl (setGlobal configData), s)
  end.

Definition fetchServerConfig (w : World) (hostname : string) : ServerConfigData + LoadError :=
  (retryWithBackoff {| scd_Data := ∅; scd_ServiceConfig := ∅ |} (look_sc w) (λ n (u : unit),
    (match fetchServerAttrs (registry_sc w n) hostname with
     | inl d => inl (postProcessServerConfig {| scd_Data := d; scd_ServiceConfig := ∅ |})
     | inr e => inr e
     end, u)) 3 tt).1.

Definition LoadServerConfig : Loader := λ w s,
  let hostname := Hostname (ls_config s) in
  if String.eqb hostname "" then (inr HostnameRequired, s)
  else
    let '(r, s) := loadConfigWithCache as_server CServer (now_ w) (now_ w) ("ldap:server_config:" +:+ hostname)
                     (fetchServerConfig w hostname) s in
    match r with
    | inr e => (inr e, s)
    | inl d => if gone (look_sc w) then (inr Cancelled, s) else (inl (setServer (scd_Data d) (scd_ServiceConfig d)), s)
    end.

(** [fetchMiscCommand]: a command that is missing or fails has no output. *)
Definition fetchMiscCommand (r : option Registry) (cmdName : string) : string :=
  match (r ← r; reg_Commands r !! cmdName) with
  | None => ""
  | Some cmd => let '(rc, output) := ExecuteWithContext cmd in if rc =? 0 then output else ""
  end.

(** Without a type mismatch in the cache, [output, _ := cachedData.(string)]. *)
Definition resolveMiscOutput (w : World) (cmdName : string) (s : LoaderState) : string * LoaderState :=
  match ls_cache s with
  | None => (fetchMiscCommand (registry_mc w cmdName) cmdName, s)
  | Some c =>
      let '(r, c) := GetCachedConfig (E := Empty_set) (now_ w) (now_ w) ("ldap:misc:" +:+ cmdName)
                       (inl (CText (fetchMiscCommand (registry_mc w cmdName) cmdName))) c in
      (match r with inl x => default "" (as_text x) | inr e => match e with end end, set_cache (Some c) s)
  end.

Definition executeMiscCommand (w : World) (cmdName : string) (s : LoaderState) : option (string * string) * LoaderState :=
  let '(output, s) := resolveMiscOutput w cmdName s in
  (if String.eqb output "" then None
   else cmd ← (r ← registry_mc w cmdName; reg_Commands r !! cmdName); Some (cmd_Name cmd, output), s).

Definition miscCommands : list string := ["garpu"; "garpb"; "gamau"].

Definition LoadMiscConfig : Loader := λ w s,
  let '(published, s) := foldl (λ '(published, s) cmdName,
    let '(r, s) := executeMiscCommand w cmdName s in
    (match r with Some (name, output) => <[name := output]> published | None => published end, s)) (∅, s) miscCommands in
  if gone (look_mc w) then (inr Cancelled, s) else (inl (setMisc published), s).

(** ** A load attempt *)

(** How far a loader is when the waiting ends. *)
Inductive Progress := Ended | Delivered | Running.

Inductive Name := lc | gc | mc | sc.

Definition loader_of (n : Name) : Loader :=
  match n with lc => LoadLocalConfig | gc => LoadGlobalConfig | mc => LoadMiscConfig | sc => LoadServerConfig end.

Definition loadFuncs : list Name := [lc; gc; mc; sc].

(** A waiting: cancelled, or how far each loader is when it ends. *)
Record Wait := { wait_cancelled : bool; wait_progress : Name → Progress }.

Inductive loadWait := loadWaitDone | loadWaitTimedOut | loadWaitCancelled.

Definition ended (p : Progress) : bool := match p with Ended => true | _ => false end.

Definition awaitLoaders (w : Wait) : loadWait :=
  if wait_cancelled w then loadWaitCancelled
  else if forallb (λ n, ended (wait_progress w n)) loadFuncs then loadWaitDone
  else loadWaitTimedOut.

(** What the loaders have done by then: those still running have delivered nothing;
    the errors are those of the loaders that ended. *)
Definition run_loader (w : World) (progress : Name → Progress) (x : stagedLoad * list LoadError * LoaderState) (n : Name)
    : stagedLoad * list LoadError * LoaderState :=
  let '(stage, errs, s) := x in
  match progress n with
  | Running => (stage, errs, s)
  | p =>
      match loader_of n w s with
      | (inl f, s) => (f stage, errs, s)
      | (inr e, s) => (stage, if ended p then errs ++ [e] else errs, s)
      end
  end.

(** An attempt's result: timed out, errors, and the stage; [None] when cancelled. *)
Definition runLoadAttempt (w : World) (first second : Wait) (s : LoaderState)
    : option (bool * list LoadError * stagedLoad) * LoaderState :=
  let finish (wt : Wait) (timedOut : bool) :=
    let '(stage, errs, s) := foldl (run_loader w (wait_progress wt)) (no_stage, [], s) loadFuncs in
    (Some (timedOut, errs, stage), s) in
  let cancelled (wt : Wait) := (None, (foldl (run_loader w (wait_progress wt)) (no_stage, [], s) loadFuncs).2) in
  match awaitLoaders first with
  | loadWaitCancelled => cancelled first
  | loadWaitDone => finish first false
  | loadWaitTimedOut =>
      match awaitLoaders second with
      | loadWaitCancelled => cancelled second
      | loadWaitDone => finish second false
      | loadWaitTimedOut => finish second true
      end
  end.

Definition evaluateLoadResult (timedOut : bool) (errors : list LoadError) (attempt maxRetries : nat) (wait : Z)
    : bool * option LoadError :=
  match timedOut, errors with
  | false, [] => (false, None)
  | _, _ =>
      if (attempt <? maxRetries)%nat then
        (true, if timedOut then Some (AttemptTimeout attempt) else head errors)
      else match errors with
           | e :: _ => (false, Some e)
           | [] => (false, Some (LoadTimeout (wrap64 (wait * 2))))
           end
  end.

Definition parseLDAPReadTimeout (localConfigData : gmap string string) : Z :=
  let ldapReadTimeout := default 60000 (s ← localConfigData !! "ldap_read_timeout"; Atoi s) in
  let threadWaitSec := if 60000 <=? ldapReadTimeout then Z.quot ldapReadTimeout 1000 else 60 in
  wrap64 (threadWaitSec * second).

(** What the [n]-th attempt meets, and whether the pause before it ran to its end. *)
Record Attempt := { at_world : World; at_first : Wait; at_second : Wait; at_slept : bool }.

Fixpoint load_loop (attempts : nat → Attempt) (wait : Z) (maxRetries tries attempt : nat) (lastErr : option LoadError)
    (s : LoaderState) (st : State) : option LoadError * LoaderState * State :=
  match tries with
  | O => (lastErr, s, st)
  | S tries =>
      let a := attempts attempt in
      if (1 <? attempt)%nat && negb (at_slept a) then (Some Cancelled, s, st)
      else
        match runLoadAttempt (at_world a) (at_first a) (at_second a) s with
        | (None, s) => (Some Cancelled, s, st)
        | (Some (timedOut, errors, stage), s) =>
            let st := UpdateSnapshot (apply_stage stage) st in
            let '(shouldRetry, err) := evaluateLoadResult timedOut errors attempt maxRetries wait in
            if shouldRetry then load_loop attempts wait maxRetries tries (S attempt) err s st
            else (err, s, st)
        end
  end.

Definition LoadAllConfigsWithRetry (attempts : nat → Attempt) (maxRetries : nat) (s : LoaderState) (st : State)
    : option LoadError * LoaderState * State :=
  let s := InvalidateLDAPCache (ClearLocalConfigCache s) in
  let st := ClearFileCache st in
  load_loop attempts (parseLDAPReadTimeout (snap_local (State_Snapshot st))) maxRetries maxRetries 1 None s st.

Definition LoadAllConfigs (attempts : nat → Attempt) (s : LoaderState) (st : State)
    : option LoadError * LoaderState * State := LoadAllConfigsWithRetry attempts 1 s st.
