(* ===== verification/LoadersProps.v ===== *)
(** * LoadersProps: what a load cycle publishes, and what the loaders make of the
    data they read *)
From S2P Require Import Prelude Config Snapshot State Network Text Cache Localconfig Commands Loaders.
Open Scope Z_scope.

(** ** Retries *)

(** Without cancellations: the first answer of the tries, or the last error. *)
Fixpoint first_answer {A} (fn : nat → A + LoadError) (n attempt : nat) : option (A + LoadError) :=
  match n with
  | O => None
  | S n => match fn attempt with
           | inl r => Some (inl r)
           | inr e => match first_answer fn n (S attempt) with Some r => Some r | None => Some (inr e) end
           end
  end.

Lemma retry_first_answer {A} (zero : A) look fn n :
  (∀ k, cancelled_at look k = false) → (∀ k, slept look k = true) →
  (retryWithBackoff zero look (λ k (u : unit), (fn k, u)) n tt).1 = default (inl zero) (first_answer fn n 1).
Proof.
  intros Hc Hs. unfold retryWithBackoff. generalize 1%nat as k.
  assert (H : ∀ k last, (retry_go zero look (λ k (u : unit), (fn k, u)) n k last tt).1 =
    default (match last with Some e => inr e | None => inl zero end) (first_answer fn n k)).
  { induction n as [|n IH]; intros k last; [done|]. cbn [retry_go first_answer]. rewrite Hc, Hs, andb_false_r.
    destruct (fn k) as [r|e]; [done|]. rewrite IH. by destruct (first_answer fn n (S k)). }
  intros k. apply H.
Qed.

(** ** The loaders do not disturb each other *)

(** The cached loaders as functions of the cache. *)
Definition call {T} (as_T : Cached → option T) (of_T : T → Cached) (w : World) (key : string) (fetch : T + LoadError)
    (c : option (ConfigCache Cached)) : (T + LoadError) * option (ConfigCache Cached) :=
  match c with
  | None => (fetch, None)
  | Some c =>
      let '(r, c) := GetCachedConfig (now_ w) (now_ w) key (match fetch with inl v => inl (of_T v) | inr e => inr e end) c in
      (match r with
       | inr e => inr e
       | inl x => match as_T x with Some v => inl v | None => inr (UnexpectedType key) end
       end, Some c)
  end.

Lemma loadConfigWithCache_call {T} (as_T : Cached → option T) of_T w key fetch s :
  loadConfigWithCache as_T of_T (now_ w) (now_ w) key fetch s =
  ((call as_T of_T w key fetch (ls_cache s)).1, set_cache (call as_T of_T w key fetch (ls_cache s)).2 s).
Proof.
  unfold loadConfigWithCache, call. destruct s as [cf [c|] o]; [|done]. cbn. by destruct (GetCachedConfig _ _ _ _ _).
Qed.

(** What an operation may read and write: the cache entries of [K], and the settings
    and the localconfig output when [l]; everyone reads the host name. *)
Definition same_cache (K : string → bool) (c1 c2 : option (ConfigCache Cached)) : Prop :=
  match c1, c2 with
  | None, None => True
  | Some c1, Some c2 => skipCache c1 = skipCache c2 ∧ maxMemoryItems c1 = maxMemoryItems c2 ∧
                        ∀ k, K k = true → memoryCache c1 !! k = memoryCache c2 !! k
  | _, _ => False
  end.

Definition same (K : string → bool) (l : bool) (s1 s2 : LoaderState) : Prop :=
  Hostname (ls_config s1) = Hostname (ls_config s2) ∧
  (l = true → ls_config s1 = ls_config s2 ∧ ls_output s1 = ls_output s2) ∧ same_cache K (ls_cache s1) (ls_cache s2).

Lemma same_cache_ext c1 c2 : same_cache (λ _, true) c1 c2 → c1 = c2.
Proof.
  destruct c1 as [[m1 n1 b1]|], c2 as [[m2 n2 b2]|]; cbn; [|done..]. intros (-> & -> & H). do 2 f_equal.
  apply map_eq. auto.
Qed.

Lemma same_ext s1 s2 : same (λ _, true) true s1 s2 → s1 = s2.
Proof.
  destruct s1 as [cf1 c1 o1], s2 as [cf2 c2 o2]. intros (_ & H & Hc). cbn in *. destruct (H eq_refl) as [-> ->].
  by apply same_cache_ext in Hc as ->.
Qed.

Lemma same_cache_refl K c : same_cache K c c.
Proof. by destruct c. Qed.

Lemma same_cache_sym K c1 c2 : same_cache K c1 c2 → same_cache K c2 c1.
Proof. destruct c1, c2; cbn; [|done..]. intros (-> & -> & H). split_and!; [done..|]. intros k Hk. by rewrite H. Qed.

Lemma same_cache_trans K c1 c2 c3 : same_cache K c1 c2 → same_cache K c2 c3 → same_cache K c1 c3.
Proof.
  destruct c1, c2, c3; cbn; try done. intros (-> & -> & H1) (-> & -> & H2). split_and!; [done..|].
  intros k Hk. by rewrite H1, H2.
Qed.

Lemma same_refl K l s : same K l s s.
Proof. split_and!; [done..|apply same_cache_refl]. Qed.

Lemma same_sym K l s1 s2 : same K l s1 s2 → same K l s2 s1.
Proof.
  intros (H1 & H2 & H3). split_and!; [done| |by apply same_cache_sym]. intros Hl. by destruct (H2 Hl).
Qed.

Lemma same_trans K l s1 s2 s3 : same K l s1 s2 → same K l s2 s3 → same K l s1 s3.
Proof.
  intros (H1 & H2 & H3) (G1 & G2 & G3). split_and!; [congruence| |by eapply same_cache_trans].
  intros Hl. destruct (H2 Hl), (G2 Hl). split; congruence.
Qed.

Lemma same_cache_weaken (K K' : string → bool) c1 c2 :
  (∀ k, K k = true → K' k = true) → same_cache K' c1 c2 → same_cache K c1 c2.
Proof. intros HK. destruct c1, c2; cbn; [|done..]. intros (-> & -> & H). split_and!; auto. Qed.

Lemma same_weaken (K K' : string → bool) (l l' : bool) s1 s2 :
  (∀ k, K k = true → K' k = true) → (l = true → l' = true) → same K' l' s1 s2 → same K l s1 s2.
Proof. intros HK Hl (H1 & H2 & H3). split_and!; [done|auto|by eapply same_cache_weaken]. Qed.

Record local_op {R} (K : string → bool) (l : bool) (op : LoaderState → R * LoaderState) : Prop := {
  local_reads : ∀ s1 s2, same K l s1 s2 → (op s1).1 = (op s2).1 ∧ same K l (op s1).2 (op s2).2;
  local_frame : ∀ s, same (λ k, negb (K k)) (negb l) s (op s).2 }.

(** Operations on different things can be swapped. *)
Lemma local_commute {R1 R2} K1 l1 K2 l2 (op1 : LoaderState → R1 * LoaderState) (op2 : LoaderState → R2 * LoaderState) s :
  local_op K1 l1 op1 → local_op K2 l2 op2 → (∀ k, K1 k = true → K2 k = false) → (l1 = true → l2 = false) →
  (op1 s).1 = (op1 (op2 s).2).1 ∧ (op2 (op1 s).2).1 = (op2 s).1 ∧ (op2 (op1 s).2).2 = (op1 (op2 s).2).2.
Proof.
  intros L1 L2 HK Hl.
  assert (H2 : same K2 l2 s (op1 s).2).
  { eapply same_weaken; [| |apply (local_frame _ _ _ L1)].
    - intros k Hk. cbn beta. destruct (K1 k) eqn:E; [|done]. by rewrite (HK k E) in Hk.
    - intros E. destruct l1; [by rewrite (Hl eq_refl) in E|done]. }
  assert (H1 : same K1 l1 s (op2 s).2).
  { eapply same_weaken; [| |apply (local_frame _ _ _ L2)].
    - intros k Hk. cbn beta. by rewrite (HK k Hk).
    - intros E. by rewrite (Hl E). }
  destruct (local_reads _ _ _ L1 _ _ H1) as [E1 S1]. destruct (local_reads _ _ _ L2 _ _ H2) as [E2 S2].
  split_and!; [done|done|]. pose proof (local_frame _ _ _ L2 (op1 s).2) as F2. pose proof (local_frame _ _ _ L1 (op2 s).2) as F1.
  pose proof (local_frame _ _ _ L1 s) as F1'. pose proof (local_frame _ _ _ L2 s) as F2'.
  apply same_ext. destruct F1 as (f11 & f12 & f13), F2 as (f21 & f22 & f23), S1 as (s11 & s12 & s13), S2 as (s21 & s22 & s23),
    F1' as (g11 & g12 & g13), F2' as (g21 & g22 & g23). split_and!.
  - congruence.
  - intros _. destruct l1; [rewrite Hl in * by done|].
    + destruct (f22 eq_refl), (s12 eq_refl). split; congruence.
    + destruct l2; [destruct (f12 eq_refl), (s22 eq_refl); split; congruence|].
      destruct (f12 eq_refl), (f22 eq_refl), (g12 eq_refl), (g22 eq_refl). split; congruence.
  - destruct (ls_cache (op2 (op1 s).2).2) as [a|], (ls_cache (op1 (op2 s).2).2) as [b|], (ls_cache (op1 s).2) as [c|],
      (ls_cache (op2 s).2) as [d|], (ls_cache s) as [e|]; cbn in *; try done.
    destruct f13 as (? & ? & f13), f23 as (? & ? & f23), s13 as (? & ? & s13), s23 as (? & ? & s23), g13 as (? & ? & g13),
      g23 as (? & ? & g23). split_and!; [congruence..|]. intros k _.
    specialize (f13 k); specialize (f23 k); specialize (s13 k); specialize (s23 k); specialize (g13 k); specialize (g23 k).
    specialize (HK k). destruct (K1 k), (K2 k); cbn in *; try (by specialize (HK eq_refl));
      repeat match goal with H : true = true → _ |- _ => specialize (H eq_refl) end; congruence.
Qed.

Lemma local_bind {R1 R2} K l (op : LoaderState → R1 * LoaderState) (k : R1 → LoaderState → R2 * LoaderState) :
  local_op K l op → (∀ r, local_op K l (k r)) → local_op K l (λ s, let '(r, s) := op s in k r s).
Proof.
  intros L1 L2. split.
  - intros s1 s2 H. destruct (local_reads _ _ _ L1 s1 s2 H) as [E S]. destruct (op s1) as [r1 t1], (op s2) as [r2 t2].
    cbn in E, S. subst. by apply (local_reads _ _ _ (L2 r2)).
  - intros s. pose proof (local_frame _ _ _ L1 s) as F. destruct (op s) as [r t]. eapply same_trans; [exact F|apply L2].
Qed.

Lemma local_ret {R} K l (r : R) : local_op K l (λ s, (r, s)).
Proof. split; [done|]. intros s. apply same_refl. Qed.

Lemma local_ext {R} K l (op op' : LoaderState → R * LoaderState) : (∀ s, op s = op' s) → local_op K l op' → local_op K l op.
Proof. intros H [H1 H2]. split; intros; rewrite !H; auto. Qed.

Lemma local_fold {A B R} K l (op : A → LoaderState → R * LoaderState) (add : B → R → B) (xs : list A) (b : B) :
  (∀ x, x ∈ xs → local_op K l (op x)) →
  local_op K l (λ s, foldl (λ '(b, s) x, let '(r, s) := op x s in (add b r, s)) (b, s) xs).
Proof.
  revert b. induction xs as [|x xs IH]; intros b H; [apply local_ret|].
  apply (local_ext _ _ _ (λ s, let '(r, s) := op x s in foldl (λ '(b, s) x, let '(r, s) := op x s in (add b r, s)) (add b r, s) xs)).
  - intros s. cbn [foldl]. by destruct (op x s).
  - apply local_bind; [apply H; by left|]. intros r. apply IH. intros y Hy. apply H. by right.
Qed.

(** A loader that looks at the host name first. *)
Lemma local_host {R} K l (op : string → LoaderState → R * LoaderState) :
  (∀ h, local_op K l (op h)) → local_op K l (λ s, op (Hostname (ls_config s)) s).
Proof.
  intros H. split.
  - intros s1 s2 Hs. rewrite (proj1 Hs). by apply H.
  - intros s. apply H.
Qed.

Lemma GetCachedConfig_reads {E} K now later key (fetch : Cached + E) c1 c2 :
  K key = true → same_cache K (Some c1) (Some c2) →
  (GetCachedConfig now later key fetch c1).1 = (GetCachedConfig now later key fetch c2).1 ∧
  same_cache K (Some (GetCachedConfig now later key fetch c1).2) (Some (GetCachedConfig now later key fetch c2).2).
Proof.
  intros HK Hs. pose proof Hs as (H1 & H2 & H3). unfold GetCachedConfig, cached_lookup, getFromMemoryCache. rewrite (H3 key HK), H1.
  destruct (if skipCache c2 then None else Data <$> _) as [d|]; [done|]. destruct fetch as [v|e]; [|done]. split; [done|].
  cbn [snd]. unfold cached_store. rewrite H1. destruct (skipCache c2) eqn:E2; [done|].
  unfold setMemoryCache, set_memory, same_cache. cbn [skipCache maxMemoryItems memoryCache]. split_and!; [congruence..|].
  intros k Hk. destruct (decide (k = key)) as [->|]; [by rewrite !lookup_insert_eq|]. rewrite !lookup_insert_ne by done. auto.
Qed.

Lemma GetCachedConfig_frame {E} (K : string → bool) now later key (fetch : Cached + E) c :
  K key = true → same_cache (λ k, negb (K k)) (Some c) (Some (GetCachedConfig now later key fetch c).2).
Proof.
  intros HK. unfold GetCachedConfig. destruct (cached_lookup now key c); [apply same_cache_refl|].
  destruct fetch; [|apply same_cache_refl]. cbn [snd]. unfold cached_store. destruct (skipCache c); [apply same_cache_refl|].
  split_and!; [done..|]. intros k Hk. cbn. rewrite lookup_insert_ne; [done|]. intros ->. by rewrite HK in Hk.
Qed.

Lemma same_set_cache K s1 s2 c1 c2 :
  Hostname (ls_config s1) = Hostname (ls_config s2) → same_cache K c1 c2 → same K false (set_cache c1 s1) (set_cache c2 s2).
Proof. done. Qed.

Lemma local_load {T} K (as_T : Cached → option T) of_T now later key fetch :
  K key = true → local_op K false (loadConfigWithCache as_T of_T now later key fetch).
Proof.
  intros HK. unfold loadConfigWithCache. split.
  - intros s1 s2 (Hh & _ & Hc). destruct (ls_cache s1) as [c1|] eqn:E1, (ls_cache s2) as [c2|] eqn:E2; try done.
    + set (f := match fetch with inl v => inl (of_T v) | inr e => inr e end).
      destruct (GetCachedConfig_reads K now later key f c1 c2 HK Hc) as [Hr Hs].
      destruct (GetCachedConfig now later key f c1) as [r1 d1], (GetCachedConfig now later key f c2) as [r2 d2]. cbn in Hr, Hs.
      subst. split; [done|]. by apply same_set_cache.
    + split; [done|]. cbn [snd]. split_and!; [done..|]. by rewrite E1, E2.
  - intros s. destruct (ls_cache s) as [c|] eqn:E; [|apply same_refl].
    set (f := match fetch with inl v => inl (of_T v) | inr e => inr e end).
    pose proof (GetCachedConfig_frame K now later key f c HK) as Hf. destruct (GetCachedConfig now later key f c) as [r d].
    cbn in Hf |- *. split_and!; [done|by destruct s|]. by rewrite E.
Qed.

Lemma local_misc_output K w cmdName : K ("ldap:misc:" +:+ cmdName) = true → local_op K false (resolveMiscOutput w cmdName).
Proof.
  intros HK. unfold resolveMiscOutput. set (f := inl (CText _)). split.
  - intros s1 s2 (Hh & _ & Hc). destruct (ls_cache s1) as [c1|] eqn:E1, (ls_cache s2) as [c2|] eqn:E2; try done.
    + destruct (GetCachedConfig_reads K (now_ w) (now_ w) _ f c1 c2 HK Hc) as [Hr Hs].
      destruct (GetCachedConfig _ _ _ f c1) as [r1 d1], (GetCachedConfig _ _ _ f c2) as [r2 d2]. cbn in Hr, Hs. subst.
      split; [done|]. by apply same_set_cache.
    + split; [done|]. cbn [snd]. split_and!; [done..|]. by rewrite E1, E2.
  - intros s. destruct (ls_cache s) as [c|] eqn:E; [|apply same_refl].
    pose proof (GetCachedConfig_frame K (now_ w) (now_ w) _ f c HK) as Hf. destruct (GetCachedConfig _ _ _ f c) as [r d].
    cbn in Hf |- *. split_and!; [done|by destruct s|]. by rewrite E.
Qed.

(** What each loader owns. *)
Definition owns (n : Name) (k : string) : bool :=
  match n with
  | lc => false
  | gc => String.eqb k "ldap:global_config"
  | mc => HasPrefix k "ldap:misc:"
  | sc => HasPrefix k "ldap:server_config:"
  end.
Definition is_lc (n : Name) : bool := match n with lc => true | _ => false end.

Lemma HasPrefix_split s p : HasPrefix s p = true → ∃ r, s = p +:+ r.
Proof.
  revert s. induction p as [|c p IH]; intros s H; [by exists s|]. destruct s as [|c' s]; [done|]. unfold HasPrefix in *.
  cbn [String.prefix] in H. destruct (ascii_dec c c') as [->|]; [|done]. destruct (IH s H) as [r ->]. by exists r.
Qed.

Lemma owns_disjoint n m k : n ≠ m → owns n k = true → owns m k = false.
Proof.
  intros Hne Hn. destruct (owns m k) eqn:Hm; [|done]. exfalso. destruct n, m; try done; cbn in Hn, Hm;
    repeat match goal with
    | H : String.eqb _ _ = true |- _ => apply String.eqb_eq in H; subst
    | H : HasPrefix _ _ = true |- _ => apply HasPrefix_split in H as [? H]; try subst k
    end; done.
Qed.

(** An operation that leaves the cache alone. *)
Lemma local_settings {R} K (op : LoaderState → R * LoaderState) :
  (∀ s c, op (set_cache c s) = ((op s).1, set_cache c (op s).2)) →
  (∀ s, Hostname (ls_config (op s).2) = Hostname (ls_config s)) → local_op K true op.
Proof.
  intros H Hh. split.
  - intros s1 s2 (_ & Hs & Hc). destruct (Hs eq_refl) as [E1 E2].
    assert (s2 = set_cache (ls_cache s2) s1) as E
      by (clear -E1 E2; destruct s1, s2; cbn in E1, E2; by subst).
    rewrite E, H. cbn [fst snd]. split; [done|]. split_and!; [done|done|]. cbn [ls_cache set_cache].
    assert (ls_cache (op s1).2 = ls_cache s1) as ->; [|done].
    assert (s1 = set_cache (ls_cache s1) s1) as E' by (by destruct s1). rewrite E' at 1. by rewrite H.
  - intros s. split_and!; [by rewrite Hh|done|].
    assert (s = set_cache (ls_cache s) s) as E' by (by destruct s). rewrite E' at 2. rewrite H. apply same_cache_refl.
Qed.

Lemma retry_go_set_cache {A} (zero : A) look (fn : nat → LoaderState → (A + LoadError) * LoaderState) :
  (∀ n s c, fn n (set_cache c s) = ((fn n s).1, set_cache c (fn n s).2)) →
  ∀ n k last s c, retry_go zero look fn n k last (set_cache c s) =
    ((retry_go zero look fn n k last s).1, set_cache c (retry_go zero look fn n k last s).2).
Proof.
  intros H n. induction n as [|n IH]; intros k last s c; [done|]. cbn [retry_go].
  destruct (cancelled_at look k); [done|]. destruct (_ && _); [done|]. rewrite H. destruct (fn k s) as [[r|e] s']; [done|].
  cbn [fst snd]. apply IH.
Qed.

Definition local_try (w : World) (n : nat) (s : LoaderState) : (gmap string string + LoadError) * LoaderState :=
  match executeLocalConfigCommand (loadLocalConfig w n) s with
  | (inr e, s) => (inr e, s)
  | (inl output, s) => (parseLocalConfigOutput (late_local w n) output, s)
  end.

Lemma local_try_set_cache w n s c : local_try w n (set_cache c s) = ((local_try w n s).1, set_cache c (local_try w n s).2).
Proof.
  unfold local_try, executeLocalConfigCommand. cbn [ls_output set_cache]. destruct (negb _); [done|].
  by destruct (loadLocalConfig w n).
Qed.

Lemma local_try_config w n s : ls_config (local_try w n s).2 = ls_config s.
Proof.
  unfold local_try, executeLocalConfigCommand. destruct (negb _); [done|]. by destruct (loadLocalConfig w n).
Qed.

Lemma retry_local_config look w n k last s :
  ls_config (retry_go ∅ look (local_try w) n k last s).2 = ls_config s.
Proof.
  revert k last s. induction n as [|n IH]; intros k last s; [done|]. cbn [retry_go].
  destruct (cancelled_at look k); [done|]. destruct (_ && _); [done|]. pose proof (local_try_config w k s) as H.
  destruct (local_try w k s) as [[r|e] s']; [done|]. rewrite IH. done.
Qed.

Lemma SetVals_Hostname data c : Hostname (SetVals data c) = Hostname c.
Proof. unfold SetVals, SetRuntimeVals. by destruct (templateDirOf data c). Qed.

Lemma LoadLocalConfig_eq w s :
  LoadLocalConfig w s =
  let '(r, s) := retryWithBackoff ∅ (look_lc w) (local_try w) 3 s in
  match r with
  | inr e => (inr e, s)
  | inl data => if gone (look_lc w) then (inr Cancelled, s)
                else (inl (setLocal data), set_config (SetVals data (ls_config s)) s)
  end.
Proof. done. Qed.

Lemma local_loader n w : local_op (owns n) (is_lc n) (loader_of n w).
Proof.
  destruct n; cbn [loader_of is_lc].
  - apply local_settings; intros s; rewrite ?LoadLocalConfig_eq.
    + intros c. rewrite !LoadLocalConfig_eq. unfold retryWithBackoff. rewrite retry_go_set_cache by apply local_try_set_cache.
      destruct (retry_go ∅ (look_lc w) (local_try w) 3 1 None s) as [[d|e] s']; cbn [fst snd]; [|done].
      by destruct (gone (look_lc w)).
    + pose proof (retry_local_config (look_lc w) w 3 1 None s) as H. unfold retryWithBackoff.
      destruct (retry_go ∅ (look_lc w) (local_try w) 3 1 None s) as [[d|e] s']; cbn [fst snd] in *; [|by rewrite H].
      destruct (gone (look_lc w)); cbn [snd ls_config set_config]; [by rewrite H|]. by rewrite SetVals_Hostname, H.
  - apply local_bind; [by apply local_load|]. intros [d|e]; [destruct (gone (look_gc w))|]; apply local_ret.
  - apply local_bind.
    + apply (local_fold (owns mc) false (λ cmdName s, executeMiscCommand w cmdName s) (λ published r,
        match r with Some (name, output) => <[name := output]> published | None => published end)).
      intros cmdName Hin. apply local_bind; [apply local_misc_output, HasPrefix_app|]. intros output. apply local_ret.
    + intros published. destruct (gone (look_mc w)); apply local_ret.
  - apply (local_host (owns sc) false (λ h s, if String.eqb h "" then (inr HostnameRequired, s) else
      let '(r, s) := loadConfigWithCache as_server CServer (now_ w) (now_ w) ("ldap:server_config:" +:+ h)
                       (fetchServerConfig w h) s in
      match r with
      | inr e => (inr e, s)
      | inl d => if gone (look_sc w) then (inr Cancelled, s) else (inl (setServer (scd_Data d) (scd_ServiceConfig d)), s)
      end)).
    intros h. destruct (String.eqb h ""); [apply local_ret|].
    apply local_bind; [apply local_load; apply HasPrefix_app|]. intros [d|e]; [destruct (gone (look_sc w))|]; apply local_ret.
Qed.

(** ** One attempt *)

(** Each loader stages its own part. *)
Definition stages_part (n : Name) (f : stagedLoad → stagedLoad) : Prop :=
  match n with
  | lc => ∃ d, f = setLocal d
  | gc => ∃ d, f = setGlobal d
  | mc => ∃ d, f = setMisc d
  | sc => ∃ d svc, f = setServer d svc
  end.

Lemma loader_stages n w s f : (loader_of n w s).1 = inl f → stages_part n f.
Proof.
  destruct n; cbn [loader_of stages_part]; [rewrite LoadLocalConfig_eq|unfold LoadGlobalConfig|unfold LoadMiscConfig|unfold LoadServerConfig].
  - destruct (retryWithBackoff _ _ _ _ _) as [[d|e] s']; [|done]. destruct (gone _); [done|]. intros [= <-]. eauto.
  - destruct (loadConfigWithCache _ _ _ _ _ _ _) as [[d|e] s']; [|done]. destruct (gone _); [done|]. intros [= <-]. eauto.
  - destruct (foldl _ _ _) as [d s']. destruct (gone _); [done|]. intros [= <-]. eauto.
  - destruct (String.eqb _ _); [done|]. destruct (loadConfigWithCache _ _ _ _ _ _ _) as [[d|e] s']; [|done].
    destruct (gone _); [done|]. intros [= <-]. eauto.
Qed.

Lemma stages_commute n m f g stage : n ≠ m → stages_part n f → stages_part m g → f (g stage) = g (f stage).
Proof. intros Hne. destruct n, m; cbn; try done; naive_solver. Qed.

(** What a loader does to the stage, the errors and the state when it runs on its own. *)
Definition staged (w : World) (progress : Name → Progress) (s : LoaderState) (n : Name) : option (stagedLoad → stagedLoad) :=
  match progress n with
  | Running => None
  | _ => match (loader_of n w s).1 with inl f => Some f | inr _ => None end
  end.

Definition failed_with (w : World) (progress : Name → Progress) (s : LoaderState) (n : Name) : list LoadError :=
  match progress n with
  | Ended => match (loader_of n w s).1 with inl _ => [] | inr e => [e] end
  | _ => []
  end.

Definition after (w : World) (progress : Name → Progress) (n : Name) (s : LoaderState) : LoaderState :=
  match progress n with Running => s | _ => (loader_of n w s).2 end.

Lemma run_loader_eq w p stage errs s n :
  run_loader w p (stage, errs, s) n =
  (match staged w p s n with Some f => f stage | None => stage end, errs ++ failed_with w p s n, after w p n s).
Proof.
  unfold run_loader, staged, failed_with, after. destruct (p n), (loader_of n w s) as [[f|e] s']; cbn; by rewrite ?app_nil_r.
Qed.

(** What one loader does is the same before and after another one has run. *)
Lemma after_independent w p n m s :
  n ≠ m →
  staged w p (after w p m s) n = staged w p s n ∧ failed_with w p (after w p m s) n = failed_with w p s n ∧
  after w p n (after w p m s) = after w p m (after w p n s).
Proof.
  intros Hne. unfold staged, failed_with, after.
  assert (Hl : is_lc n = true → is_lc m = false) by (by destruct n, m).
  destruct (local_commute _ _ _ _ _ _ s (local_loader n w) (local_loader m w) (λ k, owns_disjoint n m k Hne) Hl) as (H1 & H2 & H3).
  destruct (p m); [| |done]; (destruct (p n); [| |done]); rewrite ?H1, ?H3; done.
Qed.

(** Equal stages and states, and the same errors in some order. *)
Definition agree (x y : stagedLoad * list LoadError * LoaderState) : Prop :=
  x.1.1 = y.1.1 ∧ x.1.2 ≡ₚ y.1.2 ∧ x.2 = y.2.

#[local] Instance agree_equivalence : Equivalence agree.
Proof.
  split.
  - by intros x.
  - intros x y (? & ? & ?). by split_and!.
  - intros x y z (? & ? & ?) (? & ? & ?). split_and!; by etrans.
Qed.

#[local] Instance run_loader_proper w p : Proper (agree ==> eq ==> agree) (run_loader w p).
Proof.
  intros [[st es] s] [[st' es'] s'] (H1 & H2 & H3) n _ <-. cbn in H1, H2, H3. subst. rewrite !run_loader_eq.
  split_and!; cbn; [done| |done]. by rewrite H2.
Qed.

#[local] Instance Name_eq_dec : EqDecision Name.
Proof. solve_decision. Defined.

Lemma run_loader_swap w p x n m : agree (run_loader w p (run_loader w p x n) m) (run_loader w p (run_loader w p x m) n).
Proof.
  destruct (decide (n = m)) as [->|Hne]; [done|]. destruct x as [[stage errs] s]. rewrite !run_loader_eq.
  destruct (after_independent w p n m s Hne) as (E1 & E2 & E3).
  destruct (after_independent w p m n s (not_eq_sym Hne)) as (G1 & G2 & G3).
  rewrite E1, E2, E3, G1, G2. split_and!; cbn; [|rewrite <- !app_assoc; by rewrite (Permutation_app_comm (failed_with w p s n))|done].
  unfold staged. destruct (loader_of n w s) as [[f|e] sn] eqn:Hn, (loader_of m w s) as [[g|e'] sm] eqn:Hm; cbn;
    destruct (p n), (p m); try done;
    (apply (stages_commute m n); [done|eapply loader_stages; by rewrite Hm|eapply loader_stages; by rewrite Hn]).
Qed.

Lemma foldl_run_loader w p x l l' : l ≡ₚ l' → agree (foldl (run_loader w p) x l) (foldl (run_loader w p) x l').
Proof.
  intros H. revert x. induction H as [|n l l' _ IH|n m l|l l' l'' _ IH1 _ IH2]; intros x; cbn [foldl].
  - done.
  - apply IH.
  - assert (Hp : ∀ l x y, agree x y → agree (foldl (run_loader w p) x l) (foldl (run_loader w p) y l)).
    { clear. intros l. induction l as [|n l IH]; intros x y H; [done|]. cbn. apply IH. by rewrite H. }
    apply Hp, run_loader_swap.
  - etrans; [apply IH1|apply IH2].
Qed.

(** The four loaders of an attempt run at once, and it does not matter how: in
    whatever order their effects land, the attempt stages the same parts, leaves the
    manager's settings and caches in the same state and collects the same errors. *)
Theorem loaders_any_order w progress s order :
  order ≡ₚ loadFuncs →
  let '(stage, errs, s') := foldl (run_loader w progress) (no_stage, [], s) order in
  let '(stage0, errs0, s0) := foldl (run_loader w progress) (no_stage, [], s) loadFuncs in
  stage = stage0 ∧ errs ≡ₚ errs0 ∧ s' = s0.
Proof.
  intros H. pose proof (foldl_run_loader w progress (no_stage, [], s) _ _ H) as (H1 & H2 & H3).
  by destruct (foldl _ _ order) as [[? ?] ?], (foldl _ _ loadFuncs) as [[? ?] ?].
Qed.

(** A cycle on a directory that answers the global attributes and knows no server. *)
Definition demo_look : Look := {| cancelled_at := λ _, false; slept := λ _, true; gone := false |}.
Definition demo_registry : Registry :=
  {| reg_Commands := ∅; reg_ServerAttrs := λ _, None; reg_GlobalAttrs := Some {["zimbraX" := "1"]} |}.
Definition demo_world : World :=
  {| look_lc := demo_look; look_gc := demo_look; look_mc := demo_look; look_sc := demo_look;
     loadLocalConfig := λ _, inl {["ldap_port" := "389"]}; late_local := λ _, false;
     registry_gc := λ _, Some demo_registry; registry_sc := λ _, Some demo_registry;
     registry_mc := λ _, Some demo_registry; now_ := 0 |}.
Definition demo_loader_state : LoaderState :=
  {| ls_config := NewConfigWithHostname "/opt/zextras" "h"; ls_cache := Some (NewCache false); ls_output := "" |}.

Definition stage_summary (x : stagedLoad * list LoadError * LoaderState) : option string * option string * bool * nat :=
  let '(stage, errs, _) := x in
  (sl_local stage ≫= lookup "ldap_port", sl_global stage ≫= lookup "zimbraX", bool_decide (is_Some (sl_server stage)), length errs).

Lemma loaders_any_order_witness :
  stage_summary (foldl (run_loader demo_world (λ _, Ended)) (no_stage, [], demo_loader_state) [sc; mc; gc; lc]) =
    (Some "389", Some "1", false, 1%nat) ∧
  let '(stage, errs, s') := foldl (run_loader demo_world (λ _, Ended)) (no_stage, [], demo_loader_state) [sc; mc; gc; lc] in
  let '(stage0, errs0, s0) := foldl (run_loader demo_world (λ _, Ended)) (no_stage, [], demo_loader_state) loadFuncs in
  stage = stage0 ∧ errs ≡ₚ errs0 ∧ s' = s0.
Proof.
  split; [vm_compute; reflexivity|].
  apply (loaders_any_order demo_world (λ _, Ended) demo_loader_state [sc; mc; gc; lc]).
  unfold loadFuncs. rewrite (Permutation_app_comm [sc; mc] [gc; lc]). cbn [app].
  rewrite (perm_swap lc gc). do 2 constructor. apply perm_swap.
Defined.

(** The wait whose end decides an attempt; [None] when the attempt is cancelled. *)
Definition final_wait (a : Attempt) : option Wait :=
  match awaitLoaders (at_first a) with
  | loadWaitCancelled => None
  | loadWaitDone => Some (at_first a)
  | loadWaitTimedOut =>
      match awaitLoaders (at_second a) with loadWaitCancelled => None | _ => Some (at_second a) end
  end.

Lemma run_all_eq w p s :
  let on n stage := match staged w p s n with Some f => f stage | None => stage end in
  (foldl (run_loader w p) (no_stage, [], s) loadFuncs).1 =
  (on sc (on mc (on gc (on lc no_stage))), failed_with w p s lc ++ failed_with w p s gc ++ failed_with w p s mc ++ failed_with w p s sc).
Proof.
  intros on. unfold loadFuncs. cbn [foldl]. rewrite !run_loader_eq. cbn [fst app].
  destruct (after_independent w p gc lc s) as (-> & -> & _); [done|].
  destruct (after_independent w p mc gc (after w p lc s)) as (-> & -> & _); [done|].
  destruct (after_independent w p mc lc s) as (-> & -> & _); [done|].
  destruct (after_independent w p sc mc (after w p gc (after w p lc s))) as (-> & -> & _); [done|].
  destruct (after_independent w p sc gc (after w p lc s)) as (-> & -> & _); [done|].
  destruct (after_independent w p sc lc s) as (-> & -> & _); [done|].
  by rewrite <- !app_assoc.
Qed.

(** The part a loader delivers into the snapshot. *)
Definition new_part {A} (w : World) (p : Name → Progress) (s : LoaderState) (n : Name) (get : stagedLoad → option A) (old : A) : A :=
  match staged w p s n with Some f => default old (get (f no_stage)) | None => old end.

Lemma staged_part w p s n f : staged w p s n = Some f → stages_part n f.
Proof.
  unfold staged. intros H. destruct (p n); [| |done];
    (destruct (loader_of n w s) as [[g|e] s'] eqn:E; cbn in H; [|done]; eapply loader_stages; rewrite E; cbn; congruence).
Qed.

Lemma apply_stage_parts w p s (old : Snapshot) :
  let stage := (foldl (run_loader w p) (no_stage, [], s) loadFuncs).1.1 in
  let new := apply_stage stage old in
  snap_local new = new_part w p s lc sl_local (snap_local old) ∧
  snap_global new = new_part w p s gc sl_global (snap_global old) ∧
  snap_misc new = new_part w p s mc sl_misc (snap_misc old) ∧
  (snap_server new, snap_services new) = new_part w p s sc sl_server (snap_server old, snap_services old) ∧
  ((∀ n, staged w p s n = None) → new = old) ∧
  ((∃ n, is_Some (staged w p s n)) → snap_observed new = ∅).
Proof.
  intros stage new. subst new stage. rewrite run_all_eq. cbn [fst]. unfold new_part.
  destruct (staged w p s lc) as [fl|] eqn:El; [destruct (staged_part _ _ _ _ _ El) as [dl ->]|];
  (destruct (staged w p s gc) as [fg|] eqn:Eg; [destruct (staged_part _ _ _ _ _ Eg) as [dg ->]|]);
  (destruct (staged w p s mc) as [fm|] eqn:Em; [destruct (staged_part _ _ _ _ _ Em) as [dm ->]|]);
  (destruct (staged w p s sc) as [fs|] eqn:Es; [destruct (staged_part _ _ _ _ _ Es) as (ds & dv & ->)|]);
  (split_and!; [done|done|done|by destruct old| |]);
  first [intros Hall; pose proof (Hall lc); pose proof (Hall gc); pose proof (Hall mc); pose proof (Hall sc); congruence
        |intros _; done
        |intros [[] [f Hf]]; congruence].
Qed.

Lemma evaluate_one timedOut errs wait :
  (evaluateLoadResult timedOut errs 1 1 wait).1 = false ∧
  ((evaluateLoadResult timedOut errs 1 1 wait).2 = None ↔ timedOut = false ∧ errs = []).
Proof. destruct timedOut, errs; cbn; split; try done; split; try done; by intros []. Qed.

Lemma no_failures w p s :
  negb (forallb (λ n, ended (p n)) loadFuncs) = false ∧ (foldl (run_loader w p) (no_stage, [], s) loadFuncs).1.2 = [] ↔
  ∀ n, p n = Ended ∧ ∃ f, (loader_of n w s).1 = inl f.
Proof.
  rewrite run_all_eq. cbn [snd]. rewrite negb_false_iff, forallb_Forall. split.
  - intros [Hall Herr] n. rewrite Forall_forall in Hall.
    assert (Hin : n ∈ loadFuncs) by (destruct n; unfold loadFuncs; set_solver).
    assert (Hn : p n = Ended) by (specialize (Hall n Hin); by destruct (p n)).
    split; [done|]. apply app_eq_nil in Herr as [H1 [H2 [H3 H4]%app_eq_nil]%app_eq_nil].
    assert (Hf : failed_with w p s n = []) by (by destruct n). unfold failed_with in Hf. rewrite Hn in Hf.
    destruct (loader_of n w s) as [[f|e] s']; [|done]. by exists f.
  - intros H. split.
    + apply Forall_forall. intros n _. destruct (H n) as [-> _]. done.
    + unfold failed_with. destruct (H lc) as [-> [? ->]], (H gc) as [-> [? ->]], (H mc) as [-> [? ->]], (H sc) as [-> [? ->]]. done.
Qed.

(** The end of an attempt that is not cancelled. *)
Definition attempt_published (w : World) (wt : Wait) (s0 : LoaderState) (wait : Z) (st : State) (timedOut : bool) : Prop :=
  let '(err, s', st') :=
    match (let '(stage, errs, s1) := foldl (run_loader w (wait_progress wt)) (no_stage, [], s0) loadFuncs in
           (Some (timedOut, errs, stage), s1)) with
    | (None, s) => (Some Cancelled, s, ClearFileCache st)
    | (Some (timedOut, errors, stage), s) =>
        let '(shouldRetry, err) := evaluateLoadResult timedOut errors 1 1 wait in
        if shouldRetry then (err, s, UpdateSnapshot (apply_stage stage) (ClearFileCache st))
        else (err, s, UpdateSnapshot (apply_stage stage) (ClearFileCache st))
    end in
  let old := State_Snapshot st in
  let new := State_Snapshot st' in
  st' = set_snap (Some new) (ClearFileCache st) ∧
  snap_local new = new_part w (wait_progress wt) s0 lc sl_local (snap_local old) ∧
  snap_global new = new_part w (wait_progress wt) s0 gc sl_global (snap_global old) ∧
  snap_misc new = new_part w (wait_progress wt) s0 mc sl_misc (snap_misc old) ∧
  (snap_server new, snap_services new) = new_part w (wait_progress wt) s0 sc sl_server (snap_server old, snap_services old) ∧
  ((∀ n, staged w (wait_progress wt) s0 n = None) → new = old) ∧
  (err = None ↔ ∀ n, wait_progress wt n = Ended ∧ ∃ f, (loader_of n w s0).1 = inl f).

Lemma attempt_publishes w wt s0 wait st timedOut :
  timedOut = negb (forallb (λ n, ended (wait_progress wt n)) loadFuncs) → attempt_published w wt s0 wait st timedOut.
Proof.
  intros ->. unfold attempt_published. pose proof (apply_stage_parts w (wait_progress wt) s0 (State_Snapshot st)) as Hp.
  pose proof (no_failures w (wait_progress wt) s0) as Hf.
  destruct (foldl _ _ _) as [[stage errs] s1]. cbn [fst snd] in Hp, Hf.
  destruct (evaluate_one (negb (forallb (λ n, ended (wait_progress wt n)) loadFuncs)) errs wait) as [Hr He].
  destruct (evaluateLoadResult _ _ _ _ _) as [r err]. cbn [fst snd] in Hr, He. subst r. destruct Hp as (? & ? & ? & ? & ? & _).
  split_and!; [done..|]. by rewrite He.
Qed.


(** ** What the loaders make of the data they read *)

(** ** The local configuration passes through its text *)
Definition plain_line (P : ascii → bool) (s : string) : bool := chars (λ c, negb (Ascii.eqb c newline) && P c) s.

(** Keys and values without newlines and surrounding blanks, and keys without '='. *)
Definition lc_key_ok (k : string) : Prop := TrimSpace k = k ∧ plain_line (λ c, negb (Ascii.eqb c "=")) k.
Definition lc_value_ok (v : string) : Prop := TrimSpace v = v ∧ plain_line (λ _, true) v.

Lemma plain_line_newline P s : plain_line P s → chars (λ c, negb (Ascii.eqb c newline)) s.
Proof. unfold plain_line. induction s as [|c s IH]; [done|]. cbn [chars]. rewrite !andb_True. naive_solver. Qed.

Lemma plain_line_P P s : plain_line P s → chars P s.
Proof. unfold plain_line. induction s as [|c s IH]; [done|]. cbn [chars]. rewrite !andb_True. naive_solver. Qed.

Lemma parse_pair_line m k v :
  chars (λ c, negb (Ascii.eqb c "=")) k → parse_pair m (k +:+ " = " +:+ v) = <[TrimSpace k := TrimSpace v]> m.
Proof.
  intros Hk. unfold parse_pair.
  assert (E : CutByte "=" (k +:+ " = " +:+ v) = Some (k +:+ " ", " " +:+ v)).
  { assert (k +:+ " = " +:+ v = (k +:+ " ") +:+ String "=" (" " +:+ v)) as -> by (by rewrite string_app_assoc).
    apply CutByte_at. by rewrite chars_app, andb_True. }
  rewrite (CutByte_trim "=" _ _ _ eq_refl E). f_equal.
  - rewrite TrimSpace_left. by apply TrimSpace_snoc.
  - rewrite TrimSpace_right. by apply TrimSpace_cons.
Qed.

Lemma parse_pair_trim_left m s : parse_pair m (trim_left s) = parse_pair m s.
Proof. unfold parse_pair. by rewrite TrimSpace_left. Qed.

Lemma parse_pair_trim_right m s : parse_pair m (trim_right s) = parse_pair m s.
Proof. unfold parse_pair. by rewrite TrimSpace_right. Qed.

Lemma parse_pair_blank m s : trim_right s = "" → parse_pair m s = m.
Proof. intros H. unfold parse_pair. by rewrite blank_TrimSpace. Qed.

(** The blanks around a text of lines do not matter. *)
Lemma parse_lines_trim m s :
  foldl parse_pair m (SplitByte newline (TrimSpace s)) = foldl parse_pair m (SplitByte newline s).
Proof.
  unfold TrimSpace. trans (foldl parse_pair m (SplitByte newline (trim_left s))).
  - destruct (SplitByte_trim_right newline (trim_left s) eq_refl) as (pre & last & blanks & -> & -> & Hb).
    rewrite !foldl_app. cbn [foldl]. rewrite parse_pair_trim_right.
    induction Hb as [|b blanks Hb _ IH]; [done|]. cbn [foldl]. by rewrite (parse_pair_blank _ b).
  - induction s as [|c s IH]; [done|]. cbn [trim_left]. destruct (IsSpace c) eqn:Ec; [|done]. rewrite IH. cbn [SplitByte].
    destruct (Ascii.eqb_spec c newline); [done|]. destruct (SplitByte newline s) as [|x l]; cbn [foldl].
    + symmetry. apply parse_pair_blank. cbn. by rewrite Ec.
    + f_equal. unfold parse_pair. by rewrite TrimSpace_cons.
Qed.

Lemma parse_formatted (m0 config : gmap string string) keys :
  (∀ k, k ∈ keys → plain_line (λ c, negb (Ascii.eqb c "=")) k ∧ plain_line (λ _, true) (default "" (config !! k))) →
  foldl parse_pair m0 (SplitByte newline (foldr (λ k s, (k +:+ " = " +:+ default "" (config !! k) +:+ nl) +:+ s) "" keys)) =
  foldl (λ m k, <[TrimSpace k := TrimSpace (default "" (config !! k))]> m) m0 keys.
Proof.
  revert m0. induction keys as [|k keys IH]; intros m0 H.
  - done.
  - cbn [foldr foldl]. destruct (H k) as [Hk Hv]; [by left|].
    assert ((k +:+ " = " +:+ default "" (config !! k) +:+ nl) +:+
      foldr (λ k s, (k +:+ " = " +:+ default "" (config !! k) +:+ nl) +:+ s) "" keys =
      (k +:+ " = " +:+ default "" (config !! k)) +:+ String newline
      (foldr (λ k s, (k +:+ " = " +:+ default "" (config !! k) +:+ nl) +:+ s) "" keys)) as ->.
    { by rewrite !string_app_assoc. }
    rewrite SplitByte_app.
    + cbn [foldl]. rewrite parse_pair_line by (by apply plain_line_P in Hk). apply IH. intros k' Hk'. apply H. by right.
    + rewrite !chars_app, !andb_True. split_and!; [by eapply plain_line_newline|done|by eapply plain_line_newline].
Qed.

Lemma foldl_insert_lookup (config m0 : gmap string string) keys k :
  foldl (λ m k, <[k := default "" (config !! k)]> m) m0 keys !! k =
  if decide (k ∈ keys) then Some (default "" (config !! k)) else m0 !! k.
Proof.
  revert m0. induction keys as [|k' keys IH]; intros m0; cbn [foldl].
  - by rewrite decide_False by (apply not_elem_of_nil).
  - rewrite IH. destruct (decide (k ∈ keys)) as [Hin|Hin].
    + by rewrite decide_True by (by right).
    + destruct (decide (k = k')) as [->|Hne].
      * rewrite lookup_insert_eq, decide_True by (by left). done.
      * rewrite lookup_insert_ne by done. rewrite decide_False; [done|]. by intros [->|?]%elem_of_cons.
Qed.

(** The local configuration survives its passage through text.  The [lc]
    loader prints the effective configuration as lines of keys and values and
    parses them back: for keys and values without newlines and surrounding blanks
    (and keys without an equals sign) nothing is lost or changed, and only the
    derived settings (listen port, OpenDKIM tables) are added. *)
Theorem local_config_roundtrip (config : gmap string string) :
  (∀ k v, config !! k = Some v → lc_key_ok k ∧ lc_value_ok v) →
  parseLocalConfigOutput false (FormatAsKeyValue config) = inl (applyLocalConfigDefaults config).
Proof.
  intros H. unfold parseLocalConfigOutput, FormatAsKeyValue, FormatPlain, format_lines. cbn [orderedKeys].
  rewrite parse_lines_trim, parse_formatted.
  - do 2 f_equal. assert (Heq : foldl (λ m k, <[TrimSpace k := TrimSpace (default "" (config !! k))]> m) ∅ (sorted_keys config) =
      foldl (λ m k, <[k := default "" (config !! k)]> m) (∅ : gmap string string) (sorted_keys config)).
    { generalize (∅ : gmap string string).
      assert (Hall : ∀ k, k ∈ sorted_keys config → is_Some (config !! k)) by (intros k; apply elem_of_sorted_keys).
      induction (sorted_keys config) as [|k keys IH]; intros m0; [done|]. cbn [foldl].
      destruct (Hall k) as [v Hv]; [by left|]. destruct (H k v Hv) as [[Hk _] [Hv' _]]. rewrite Hv.
      change (default "" (Some v)) with v. rewrite Hk, Hv'. apply IH. intros k' Hk'. apply Hall. by right. }
    rewrite Heq. apply map_eq. intros k. rewrite foldl_insert_lookup. destruct (decide (k ∈ sorted_keys config)) as [Hin|Hin].
    + apply elem_of_sorted_keys in Hin as [v ->]. done.
    + rewrite elem_of_sorted_keys in Hin. rewrite lookup_empty. symmetry. by apply eq_None_not_Some.
  - intros k Hk. apply elem_of_sorted_keys in Hk as [v Hv]. rewrite Hv. destruct (H k v Hv) as [[_ ?] [_ ?]]. done.
Qed.

Lemma local_config_roundtrip_witness :
  let config : gmap string string := {["ldap_url" := "ldap://a:389"; "empty" := ""]} in
  (∀ k v, config !! k = Some v → lc_key_ok k ∧ lc_value_ok v) ∧
  ∃ d, parseLocalConfigOutput false (FormatAsKeyValue config) = inl d ∧ d !! "ldap_url" = Some "ldap://a:389" ∧
       d !! "empty" = Some "" ∧ d !! "zmconfigd_listen_port" = Some "7171" ∧
       d !! "opendkim_signingtable_uri" = Some "ldap://a:389/?DKIMSelector?sub?(DKIMIdentity=$d)".
Proof.
  intros config.
  assert (H : ∀ k v, config !! k = Some v → lc_key_ok k ∧ lc_value_ok v).
  { intros k v Hk. unfold config in Hk. apply lookup_insert_Some in Hk as [[<- <-]|[_ Hk]]; [by repeat split|].
    apply lookup_singleton_Some in Hk as [<- <-]. by repeat split. }
  split; [exact H|]. eexists. split; [exact (local_config_roundtrip config H)|]. vm_compute. repeat split.
Defined.

(** A value with a newline is cut there, and its second line can set another key. *)
Example local_config_multiline :
  parseLocalConfigOutput false (FormatAsKeyValue {["a" := "x" +:+ nl +:+ "zmconfigd_interval = 1"]}) =
  inl (applyLocalConfigDefaults {["a" := "x"; "zmconfigd_interval" := "1"]}).
Proof. vm_compute. reflexivity. Qed.

(** ** The MTA restrictions *)

(** A restriction: a word, or a keyword that takes a domain. *)
Inductive Entry := Other (word : string) | Rbl (keyword domain : string).

Definition entry_words (e : Entry) : list string := match e with Other w => [w] | Rbl k d => [k; d] end.
Definition words (l : list Entry) : list string := l ≫= entry_words.

Definition keywords_ : list string := rblTypes.*1.

Definition entry_ok (e : Entry) : Prop :=
  match e with
  | Other w => token w ∧ w ∉ keywords_
  | Rbl k d => k ∈ keywords_ ∧ token d ∧ d ∉ keywords_
  end.

Definition domains (keyword : string) (l : list Entry) : list string :=
  omap (λ e, match e with Rbl k d => if String.eqb k keyword then Some d else None | Other _ => None end) l.

(** The restrictions without those of some keyword. *)
Definition without_keyword (keyword : string) (l : list Entry) : list Entry :=
  List.filter (λ e, match e with Rbl k _ => negb (String.eqb k keyword) | Other _ => true end) l.

Lemma words_cons e l : words (e :: l) = entry_words e ++ words l.
Proof. done. Qed.

Lemma words_tokens l : Forall entry_ok l → Forall token (words l).
Proof.
  induction 1 as [|e l He _ IH]; [constructor|]. rewrite words_cons. apply Forall_app. split; [|done].
  destruct e as [w|k d]; cbn [entry_words].
  - destruct He as [Hw _]. constructor; [exact Hw|constructor].
  - destruct He as (Hk & Hd & _). constructor; [|constructor; [exact Hd|constructor]].
    unfold keywords_, rblTypes in Hk. cbn in Hk. set_unfold in Hk. destruct_or?; by subst.
Qed.

Lemma not_keyword w keyword : keyword ∈ keywords_ → w ∉ keywords_ → String.eqb w keyword = false.
Proof. intros Hk Hw. destruct (String.eqb_spec w keyword); [by subst|done]. Qed.

Lemma rbl_matches_cons keyword w rest :
  String.eqb w keyword = false → rbl_matches keyword (w :: rest) = rbl_matches keyword rest.
Proof. intros H. destruct rest as [|x rest]; [done|]. cbn [rbl_matches]. by rewrite H. Qed.

Lemma rbl_matches_words keyword l :
  keyword ∈ keywords_ → Forall entry_ok l → rbl_matches keyword (words l) = domains keyword l.
Proof.
  intros Hkw. induction 1 as [|e l He _ IH]; [done|]. rewrite words_cons. destruct e as [w|k d]; cbn [entry_words app].
  - destruct He as [_ Hw]. rewrite rbl_matches_cons by (by apply not_keyword). exact IH.
  - destruct He as (_ & _ & Hd).
    change (rbl_matches keyword (k :: d :: words l)) with
      ((if String.eqb k keyword then [d] else []) ++ rbl_matches keyword (d :: words l)).
    rewrite rbl_matches_cons by (by apply not_keyword). rewrite IH. cbn. by destruct (String.eqb k keyword).
Qed.

Lemma rbl_removed_words keyword l :
  keyword ∈ keywords_ → Forall entry_ok l → rbl_removed keyword false (words l) = words (without_keyword keyword l).
Proof.
  intros Hkw. induction 1 as [|e l He _ IH]; [done|]. rewrite words_cons. destruct e as [w|k d]; cbn [entry_words app].
  - destruct He as [_ Hw]. cbn [rbl_removed without_keyword List.filter]. rewrite (not_keyword w keyword) by done. cbn.
    by rewrite IH.
  - destruct He as (_ & _ & Hd). cbn [rbl_removed without_keyword List.filter].
    destruct (String.eqb k keyword) eqn:E; cbn [andb negb].
    + exact IH.
    + cbn. rewrite (not_keyword d keyword) by done. cbn. by rewrite IH.
Qed.

Lemma without_keyword_ok keyword l : Forall entry_ok l → Forall entry_ok (without_keyword keyword l).
Proof. induction 1 as [|e l He _ IH]; [constructor|]. cbn. destruct e as [w|k d]; [by constructor|]. destruct (negb _); [by constructor|done]. Qed.

Lemma domains_without keyword k l : keyword ≠ k → domains keyword (without_keyword k l) = domains keyword l.
Proof.
  intros Hne. induction l as [|e l IH]; [done|]. destruct e as [w|k' d]; [exact IH|].
  unfold without_keyword. cbn [List.filter]. fold (without_keyword k l). destruct (String.eqb_spec k' k) as [->|Hk]; cbn [negb].
  - rewrite IH. unfold domains. cbn [omap list_omap]. destruct (String.eqb_spec k keyword); [by subst|done].
  - unfold domains in *. cbn [omap list_omap]. by rewrite IH.
Qed.

Lemma extract_words keyword l :
  keyword ∈ keywords_ → Forall entry_ok l → extractRBLMatches (Join (words l) " ") keyword = domains keyword l.
Proof. intros. unfold extractRBLMatches. rewrite Fields_Join by (by apply words_tokens). by apply rbl_matches_words. Qed.

Lemma remove_words keyword l :
  keyword ∈ keywords_ → Forall entry_ok l →
  removeRBLEntries (Join (words l) " ") keyword = Join (words (without_keyword keyword l)) " ".
Proof. intros. unfold removeRBLEntries. rewrite Fields_Join by (by apply words_tokens). by rewrite rbl_removed_words. Qed.

(** The text that is left when every blacklist entry is taken out. *)
Definition others (l : list Entry) : list string := omap (λ e, match e with Other w => Some w | Rbl _ _ => None end) l.

Lemma without_all l :
  Forall entry_ok l → words (foldl (λ l k, without_keyword k l) l keywords_) = others l.
Proof.
  intros H. assert (Hall : foldl (λ l k, without_keyword k l) l keywords_ =
    List.filter (λ e, match e with Other _ => true | Rbl _ _ => false end) l).
  { cbn [foldl keywords_ rblTypes fmap list_fmap fst]. unfold without_keyword.
    induction H as [|e l He _ IH]; [done|]. destruct e as [w|k d]; cbn [List.filter]; [by rewrite <- IH|].
    destruct He as (Hk & _ & _). unfold keywords_, rblTypes in Hk. cbn in Hk. set_unfold in Hk.
    rewrite <- IH. destruct_or?; subst; reflexivity. }
  rewrite Hall. clear. induction l as [|[w|k d] l IH]; [done| |exact IH]. cbn [List.filter]. rewrite words_cons, IH. done.
Qed.

Lemma map_fold_store (extracted : gmap string (list string)) (data : gmap string string) k :
  map_fold (λ key matches d, <[key := Join matches ", "]> d) data extracted !! k =
  match extracted !! k with Some matches => Some (Join matches ", ") | None => data !! k end.
Proof.
  revert k. apply (map_fold_weak_ind (λ r m, ∀ k, r !! k = match m !! k with Some ms => Some (Join ms ", ") | None => data !! k end)).
  - intros k. by rewrite lookup_empty.
  - intros i x m r Hi IH k. destruct (decide (i = k)) as [->|Hne]; [by rewrite !lookup_insert_eq|].
    rewrite !lookup_insert_ne by done. apply IH.
Qed.

Lemma keyword_in keyword : existsb (String.eqb keyword) keywords_ = true → keyword ∈ keywords_.
Proof. intros (x & Hx & ->%String.eqb_eq)%existsb_exists. by apply list_elem_of_In. Qed.

Lemma processRBLPatterns_words l :
  Forall entry_ok l →
  processRBLPatterns (Join (words l) " ") rblTypes =
  (<["zimbraMtaRestrictionRHSBLRCs" := domains "reject_rhsbl_reverse_client" l]>
   (<["zimbraMtaRestrictionRHSBLSs" := domains "reject_rhsbl_sender" l]>
    (<["zimbraMtaRestrictionRHSBLCs" := domains "reject_rhsbl_client" l]>
     (<["zimbraMtaRestrictionRBLs" := domains "reject_rbl_client" l]> ∅))), Join (others l) " ").
Proof.
  intros H. pose proof (without_all l H) as Hall. cbn [foldl keywords_ rblTypes fmap list_fmap fst] in Hall.
  unfold processRBLPatterns, rblTypes. cbn [foldl].
  pose proof (without_keyword_ok "reject_rbl_client" _ H) as H1. pose proof (without_keyword_ok "reject_rhsbl_client" _ H1) as H2.
  pose proof (without_keyword_ok "reject_rhsbl_sender" _ H2) as H3.
  repeat (rewrite extract_words by (done || by apply keyword_in); rewrite remove_words by (done || by apply keyword_in)).
  rewrite Hall. by rewrite !domains_without by done.
Qed.

(** The MTA restrictions are split without loss.  For a restriction text of
    words and blacklist entries (a keyword and its domain), post-processing stores
    under the key of each blacklist keyword exactly the domains given with it, in
    order, leaves in zimbraMtaRestriction exactly the other words, in order, and
    changes no other attribute. *)
Theorem restrictions_split (data : gmap string string) l :
  Forall entry_ok l → words l ≠ [] → data !! "zimbraMtaRestriction" = Some (Join (words l) " ") →
  let data' := processMtaRestrictionRBLsForData data in
  (∀ keyword key, (keyword, key) ∈ rblTypes → data' !! key = Some (Join (domains keyword l) ", ")) ∧
  data' !! "zimbraMtaRestriction" = Some (Join (others l) " ") ∧
  (∀ k, k ∉ rblTypes.*2 → k ≠ "zimbraMtaRestriction" → data' !! k = data !! k).
Proof.
  intros Hl Hne Hd. unfold processMtaRestrictionRBLsForData, attr. rewrite Hd. change (default "" (Some ?x)) with x.
  assert (String.eqb (Join (words l) " ") "" = false) as ->.
  { pose proof (words_tokens l Hl) as Ht. destruct (words l) as [|w ws]; [done|]. apply Forall_cons in Ht as [[Hw _] _].
    destruct w; [done|]. by destruct ws. }
  rewrite processRBLPatterns_words by done. cbn zeta iota beta. split_and!.
  - intros keyword key Hin. rewrite lookup_insert_ne
      by (intros <-; unfold rblTypes in Hin; set_unfold in Hin; destruct_or?; by simplify_eq).
    rewrite map_fold_store. unfold rblTypes in Hin. set_unfold in Hin.
    destruct_or?; simplify_eq; repeat (rewrite lookup_insert_ne by done); by rewrite lookup_insert_eq.
  - by rewrite lookup_insert_eq.
  - intros k Hk Hne'. rewrite lookup_insert_ne by done. rewrite map_fold_store. cbn in Hk.
    repeat (rewrite lookup_insert_ne by (intros <-; apply Hk; set_solver)). by rewrite lookup_empty.
Qed.

Lemma restrictions_split_witness :
  let l := [Other "reject_invalid_hostname"; Rbl "reject_rbl_client" "zen.org"; Rbl "reject_rhsbl_sender" "a.b"; Rbl "reject_rbl_client" "c.d"] in
  let data : gmap string string := {["zimbraMtaRestriction" := Join (words l) " "]} in
  let data' := processMtaRestrictionRBLsForData data in
  data' !! "zimbraMtaRestrictionRBLs" = Some "zen.org, c.d" ∧ data' !! "zimbraMtaRestriction" = Some "reject_invalid_hostname".
Proof.
  intros l data data'.
  destruct (restrictions_split data l) as (H1 & H2 & _).
  - repeat constructor; try (cbn; set_unfold; naive_solver); done.
  - done.
  - vm_compute. reflexivity.
  - split; [apply (H1 "reject_rbl_client"); left|exact H2].
Defined.

(** ** The services of the server *)

(** The service map holds the words of zimbraServiceEnabled, mailboxd for mailbox and
    sasl for mta. *)
Lemma enabled_services names svc k :
  is_Some (foldl enable_service svc names !! k) ↔
  is_Some (svc !! k) ∨ k ∈ names ∨ (k = "mailboxd" ∧ "mailbox" ∈ names) ∨ (k = "sasl" ∧ "mta" ∈ names).
Proof.
  revert svc. induction names as [|s names IH]; intros svc; cbn [foldl].
  - set_solver.
  - rewrite IH. unfold enable_service.
    assert (Hi : ∀ k' (m : gmap string string), is_Some (<[k' := zimbraServiceEnabled]> m !! k) ↔ k = k' ∨ is_Some (m !! k)).
    { intros k' m. destruct (decide (k' = k)) as [->|Hne]; [rewrite lookup_insert_eq; naive_solver|].
      rewrite lookup_insert_ne by done. naive_solver. }
    destruct (String.eqb_spec s "mailbox") as [->|H1]; [|destruct (String.eqb_spec s "mta") as [->|H2]];
      rewrite ?Hi, !elem_of_cons; naive_solver.
Qed.
