(* ===== verification/LoadRace.v ===== *)
(** * LoadRace: the loaders, the cache and time

    Successive load cycles of one cached part (say the global attributes) on a
    directory that changes: a cycle empties the cache and starts a loader; the
    loader looks into the cache, fetches, stores what it fetched, and delivers if
    its context is still alive.  A cycle that gives up waiting cancels the loader's
    context, but the loader runs on.  The directory's content is its version
    number. *)
From S2P Require Import Prelude Cache.
Open Scope nat_scope.

Definition key : string := "ldap:global_config".

Inductive Pc := AtLookup | AtFetch | AtStore (v : nat) | AtPublish (v : nat) | Finished.

Record Thread := { th_pc : Pc; th_cancelled : bool }.

Record Race := {
  dir : nat;                       (* the directory's version *)
  cache : ConfigCache nat;
  threads : list Thread;
  start : nat;                     (* the directory's version when the cycle began *)
  active : bool;                   (* a cycle is running *)
  staged_ : option nat;
  published : option (nat * nat)   (* what the last successful cycle published, and its start *)
}.

Inductive Move :=
  | Change                         (* someone changes the directory *)
  | Begin                          (* InvalidateLDAPCache; a new attempt *)
  | Lookup (i : nat) (now : Z)     (* the first half of GetCachedConfig *)
  | Fetch (i : nat) (ok : bool)
  | Store (i : nat) (now : Z)      (* its second half *)
  | Deliver (i : nat)              (* ctx.Err and sink(ctx).setGlobal *)
  | End_.                          (* UpdateSnapshot(stage.apply); the attempt's context is cancelled *)

Definition set_pc (i : nat) (pc : Pc) (r : Race) : Race :=
  {| dir := dir r; cache := cache r; threads := alter (λ t, {| th_pc := pc; th_cancelled := th_cancelled t |}) i (threads r);
     start := start r; active := active r; staged_ := staged_ r; published := published r |}.
Definition set_cache_ (c : ConfigCache nat) (r : Race) : Race :=
  {| dir := dir r; cache := c; threads := threads r; start := start r; active := active r; staged_ := staged_ r;
     published := published r |}.
Definition stage_ (v : nat) (r : Race) : Race :=
  {| dir := dir r; cache := cache r; threads := threads r; start := start r; active := active r; staged_ := Some v;
     published := published r |}.

Definition cancel_ (t : Thread) : Thread := {| th_pc := th_pc t; th_cancelled := true |}.

Definition exec (m : Move) (r : Race) : option Race :=
  match m with
  | Change => Some {| dir := S (dir r); cache := cache r; threads := threads r; start := start r; active := active r;
                      staged_ := staged_ r; published := published r |}
  | Begin =>
      if active r then None
      else Some {| dir := dir r; cache := (InvalidateCacheByPrefix "ldap:" (cache r)).2;
                   threads := threads r ++ [{| th_pc := AtLookup; th_cancelled := false |}];
                   start := dir r; active := true; staged_ := None; published := published r |}
  | Lookup i now =>
      match th_pc <$> threads r !! i with
      | Some AtLookup => Some (set_pc i (match cached_lookup now key (cache r) with
                                         | Some v => AtPublish v | None => AtFetch end) r)
      | _ => None
      end
  | Fetch i ok =>
      match th_pc <$> threads r !! i with
      | Some AtFetch => Some (set_pc i (if ok then AtStore (dir r) else Finished) r)
      | _ => None
      end
  | Store i now =>
      match th_pc <$> threads r !! i with
      | Some (AtStore v) => Some (set_pc i (AtPublish v) (set_cache_ (cached_store now key v (cache r)) r))
      | _ => None
      end
  | Deliver i =>
      match threads r !! i with
      | Some {| th_pc := AtPublish v; th_cancelled := c |} =>
          Some (set_pc i Finished (if c then r else stage_ v r))
      | _ => None
      end
  | End_ =>
      if active r
      then Some {| dir := dir r; cache := cache r; threads := cancel_ <$> threads r; start := start r; active := false;
                   staged_ := staged_ r;
                   published := match staged_ r with Some v => Some (v, start r) | None => published r end |}
      else None
  end.

Definition exec_all (moves : list Move) (r : Race) : option Race :=
  foldl (λ r m, r ← r; exec m r) (Some r) moves.

Definition initial : Race :=
  {| dir := 0; cache := NewCache false; threads := []; start := 0; active := false; staged_ := None; published := None |}.

(** No loader of an earlier cycle can store any more. *)
Definition harmless_pc (pc : Pc) : bool := match pc with AtPublish _ | Finished => true | _ => false end.
Definition quiet (r : Race) : bool := forallb (λ t, harmless_pc (th_pc t)) (threads r).

(** A run in which a new cycle begins only once the loaders of the earlier ones are
    through with the cache. *)
Fixpoint quiet_run (moves : list Move) (r : Race) : Prop :=
  match moves with
  | [] => True
  | m :: moves =>
      (m = Begin → quiet r = true) ∧ match exec m r with Some r' => quiet_run moves r' | None => False end
  end.

(** ** Freshness *)

Definition pc_fresh (n : nat) (pc : Pc) : Prop := match pc with AtStore v | AtPublish v => n ≤ v | _ => True end.

(** A loader that is not cancelled, or could still store, has nothing older than the
    beginning of the cycle; nor has the cache. *)
Definition thread_ok (n : nat) (t : Thread) : Prop :=
  (th_cancelled t = false ∨ harmless_pc (th_pc t) = false) → pc_fresh n (th_pc t).

Definition cache_fresh (n : nat) (c : ConfigCache nat) : Prop :=
  ∀ e, memoryCache c !! key = Some e → n ≤ Data e.

Record fresh (r : Race) : Prop := {
  f_dir : start r ≤ dir r;
  f_cache : cache_fresh (start r) (cache r);
  f_threads : Forall (thread_ok (start r)) (threads r);
  f_active : active r = false → Forall (λ t, th_cancelled t = true) (threads r);
  f_staged : ∀ v, staged_ r = Some v → start r ≤ v;
  f_published : ∀ v n, published r = Some (v, n) → n ≤ v }.

Lemma fresh_set_pc i pc r :
  fresh r → pc_fresh (start r) pc → fresh (set_pc i pc r).
Proof.
  intros [H1 H2 H3 H4 H5 H6] Hpc. split; cbn; try done.
  - apply Forall_alter; [done|]. intros t _ _ _. exact Hpc.
  - intros Ha. apply Forall_alter; [by apply H4|]. intros t _ Ht. exact Ht.
Qed.

Lemma fresh_thread r i t : fresh r → threads r !! i = Some t → thread_ok (start r) t.
Proof. intros [_ _ H _ _ _] Ht. by eapply (Forall_lookup_1 _ _ _ _ H). Qed.

Lemma fresh_begin r :
  fresh r → active r = false → quiet r = true →
  fresh {| dir := dir r; cache := (InvalidateCacheByPrefix "ldap:" (cache r)).2;
           threads := threads r ++ [{| th_pc := AtLookup; th_cancelled := false |}];
           start := dir r; active := true; staged_ := None; published := published r |}.
Proof.
  intros [H1 H2 H3 H4 H5 H6] Ha Hq. split; cbn; try done.
  - intros e He. pose proof (InvalidateCacheByPrefix_spec "ldap:" (cache r) key) as Hi. exfalso.
    change (HasPrefix key "ldap:") with true in Hi. cbn in Hi, He. congruence.
  - apply Forall_app. split; [|repeat constructor; by intros].
    apply forallb_Forall in Hq. specialize (H4 Ha). rewrite Forall_forall in *. intros t Ht [Hc|Hc].
    + by rewrite H4 in Hc.
    + by rewrite Hq in Hc.
Qed.

Lemma exec_fresh m r r' : fresh r → (m = Begin → quiet r = true) → exec m r = Some r' → fresh r'.
Proof.
  intros Hf Hq. pose proof Hf as [H1 H2 H3 H4 H5 H6]. destruct m; cbn [exec].
  - intros [= <-]. split; cbn; try done. lia.
  - destruct (active r) eqn:Ha; [done|]. intros [= <-]. by apply fresh_begin; auto.
  - destruct (threads r !! i) as [[pc c]|] eqn:Et; [|done]. cbn. destruct pc; try done. intros [= <-]. apply fresh_set_pc; [done|].
    destruct (cached_lookup now key (cache r)) as [v|] eqn:El; [|done]. cbn.
    unfold cached_lookup, getFromMemoryCache in El. destruct (skipCache (cache r)); [done|].
    destruct (memoryCache (cache r) !! key) as [e|] eqn:Ee; [|done]. cbn in El. destruct (expired now e); [done|].
    injection El as <-. by apply H2.
  - destruct (threads r !! i) as [[pc c]|] eqn:Et; [|done]. cbn. destruct pc; try done. intros [= <-]. apply fresh_set_pc; [done|].
    by destruct ok.
  - destruct (threads r !! i) as [[pc c]|] eqn:Et; [|done]. cbn. destruct pc; try done. intros [= <-].
    assert (Hv : start r ≤ v) by (apply (fresh_thread _ _ _ Hf Et); by right).
    apply fresh_set_pc; [|done]. split; cbn; try done. intros e. unfold cached_store. destruct (skipCache (cache r)); [apply H2|].
    cbn. rewrite lookup_insert_eq. by intros [= <-].
  - destruct (threads r !! i) as [[pc c]|] eqn:Et; [|done]. destruct pc; try done. intros [= <-].
    apply fresh_set_pc; [|done]. destruct c; [done|]. split; cbn; try done. intros ? [= <-].
    apply (fresh_thread _ _ _ Hf Et). by left.
  - destruct (active r) eqn:Ha; [|done]. intros [= <-]. split; cbn; try done.
    + apply Forall_fmap. eapply Forall_impl; [exact H3|]. intros t Ht [Hc|Hc]; [done|]. apply Ht. by right.
    + intros _. apply Forall_fmap. by apply Forall_true.
    + intros v n. destruct (staged_ r) as [v'|]; [|apply H6]. intros [= <- <-]. by apply H5.
Qed.

(** C36: a load cycle is never behind the directory.  As long as a new cycle begins
    only after the loaders of the earlier ones are through with the cache, whatever
    the order in which the directory changes, loaders look, fetch, store, are given
    up on and deliver: what a cycle publishes was read after the cycle began. *)
Theorem load_fresh moves r :
  quiet_run moves initial → exec_all moves initial = Some r →
  match published r with Some (v, began) => began ≤ v | None => True end.
Proof.
  intros Hq He. assert (H : fresh r).
  { assert (H0 : fresh initial) by (split; done). unfold exec_all in He. generalize dependent initial.
    induction moves as [|m moves IH]; intros r0 Hq He H0; cbn in *; [by injection He as <-|].
    destruct Hq as [Hm Hq]. destruct (exec m r0) as [r1|] eqn:E; [|done]. eapply IH; [exact Hq|exact He|].
    by eapply exec_fresh. }
  pose proof (f_published _ H) as Hp. destruct (published r) as [[v n]|]; [|done]. by apply (Hp v n).
Qed.

Definition normal_run : list Move :=
  [Begin; Lookup 0 0; Change; Fetch 0 true; Store 0 0; Deliver 0; End_; Change;
   Begin; Lookup 1 0; Fetch 1 true; Store 1 0; Deliver 1; End_].

Lemma load_fresh_witness :
  quiet_run normal_run initial ∧ published <$> exec_all normal_run initial = Some (Some (2, 2)) ∧ 2 ≤ 2.
Proof.
  assert (Hq : quiet_run normal_run initial) by (vm_compute; repeat split; congruence).
  destruct (exec_all normal_run initial) as [r|] eqn:E; [|vm_compute in E; discriminate].
  assert (Hp : published r = Some (2, 2)) by (vm_compute in E; injection E as <-; reflexivity).
  split; [exact Hq|]. split; [cbn; by rewrite Hp|]. pose proof (load_fresh normal_run r Hq E) as H. by rewrite Hp in H.
Defined.

(** A loader that outlives its cycle and stores during the next one: the next
    cycle's loader finds the old data in the cache and publishes it. *)
Definition late_run : list Move :=
  [Begin; Lookup 0 0; Fetch 0 true; End_; Change; Begin; Store 0 0; Lookup 1 0; Deliver 0; Deliver 1; End_].

Lemma late_loader_publishes_stale : published <$> exec_all late_run initial = Some (Some (0, 1)).
Proof. vm_compute. reflexivity. Qed.
