(* ===== verification/MtaOps.v ===== *)
(** * MtaOps: internal/mtaops

    The operations a plan ends in: postconf commands, mapped files and LDAP writes
    (executor.go), and the values they carry (resolver.go).  The postconf program
    is a parameter: given its arguments it succeeds or not, prints something and
    leaves another world. *)
From S2P Require Import Prelude Config Snapshot State Base64 Files.
Open Scope Z_scope.

(** ** Values *)

(** [postconfKeyRe]: one or more letters, digits and underscores. *)
Definition key_char (c : ascii) : bool := in_range 48 57 c || in_range 65 90 c || in_range 97 122 c || (byte c =? 95)%N.
Definition valid_key (k : string) : bool := negb (String.eqb k "") && chars key_char k.

Definition nonblank_lines (lines : list string) : list string :=
  List.filter (λ l, negb (String.eqb l "")) (map TrimSpace lines).

Definition NormalizePostconfValue (value : string) : string :=
  if Contains value (String newline "") then Join (nonblank_lines (SplitByte newline value)) ", " else value.

(** ** postconf *)
Section postconf.
Context {W : Type}.
(** Success and output of [postconf args]. *)
Variable run : list string → W → (bool * string) * W.

Inductive PostconfError := PostconfFailed (args : list string) (output : string) | InvalidPostconfKey (key : string).

Definition postconf_args (ops : list (string * string)) : list string :=
  omap (λ '(k, v), if valid_key k then Some (k +:+ "=" +:+ v) else None)
    (map (λ '(k, v), (k, NormalizePostconfValue v)) ops).

Definition ExecutePostconfBatch (ops : list (string * string)) (w : W) : option PostconfError * W :=
  match ops with
  | [] => (None, w)
  | _ =>
      match postconf_args ops with
      | [] => (None, w)
      | args =>
          let '((ok, output), w) := run ("-e" :: args) w in
          (if ok then None else Some (PostconfFailed ("-e" :: args) output), w)
      end
  end.

Definition ExecutePostconf (key value : string) (w : W) : option PostconfError * W :=
  ExecutePostconfBatch [(key, value)] w.

(** An unknown parameter is no failure. *)
Definition ExecutePostconfdBatch (keys : list string) (w : W) : option PostconfError * W :=
  match keys with
  | [] => (None, w)
  | _ =>
      let '((ok, output), w) := run ("-X" :: keys) w in
      (if ok || Contains (ToLower output) "unknown parameter" then None
       else Some (PostconfFailed ("-X" :: keys) output), w)
  end.

Definition ExecutePostconfd (key : string) (w : W) : option PostconfError * W := ExecutePostconfdBatch [key] w.

Definition unwrapPostconfValue (lines : list string) : string := Join (nonblank_lines lines) " ".

Fixpoint continuationLines (lines : list string) : list string :=
  match lines with
  | (String c _ as l) :: rest => if Ascii.eqb c space || Ascii.eqb c tab then l :: continuationLines rest else []
  | _ => []
  end.

(** [strings.TrimLeft s " \t"] *)
Fixpoint trim_blanks (s : string) : string :=
  match s with
  | String c s' => if Ascii.eqb c space || Ascii.eqb c tab then trim_blanks s' else s
  | EmptyString => ""
  end.

Fixpoint parse_entry (lines : list string) (key : string) : option string :=
  match lines with
  | [] => None
  | line :: rest =>
      let '(after, found) := CutPrefix line key in
      if negb found then parse_entry rest key
      else
        let '(value, found) := CutPrefix (trim_blanks after) "=" in
        if negb found then parse_entry rest key
        else Some (unwrapPostconfValue (trim_blanks value :: continuationLines rest))
  end.

Definition parsePostconfEntry (out key : string) : option string := parse_entry (SplitByte newline out) key.

(** The value, or [None] when an explicit value is asked for and there is none. *)
Definition ReadPostconf (key : string) (explicitOnly : bool) (w : W) : (option string + PostconfError) * W :=
  if negb (valid_key key) then (inr (InvalidPostconfKey key), w)
  else if negb explicitOnly then
    let '((ok, out), w) := run ["-h"; key] w in
    (if ok then inl (Some (unwrapPostconfValue (SplitByte newline out))) else inr (PostconfFailed ["-h"; key] out), w)
  else
    let '((ok, out), w) := run ["-n"; key] w in
    (if ok then inl (parsePostconfEntry out key) else inr (PostconfFailed ["-n"; key] out), w).
End postconf.

(** ** Mapped files *)
Definition mappedFilePaths (baseDir key : string) : option string :=
  (λ relPath, baseDir +:+ "/" +:+ relPath) <$> MAPPEDFILES !! key.

(** [Lstat] as [writeMapfile] uses it: the permissions of a regular file. *)
Definition lstat_perm (path : string) : IO (option Z) :=
  catch (primitive "lstat" (λ fs, inl (perm_of ∘ f_mode <$> fs !! path, fs)) same same) (λ _, mret None).

Section mapfile.
Variables (uid0 gid0 umask : Z) (baseDir : string).

Definition writeMapfile (path data tmp : string) : IO unit :=
  perm ← lstat_perm path;
  guarded (AtomicWrite uid0 gid0 path data (default (Z.ldiff 438 umask) perm) tmp) "atomic write" (mret tt).

Definition handleEmptyMapfileData (filePath : string) : IO unit :=
  there ← guarded (stat_exists filePath) ("error checking file " +:+ filePath) (mret tt);
  if there : bool then guarded (remove filePath) ("failed to remove stale file " +:+ filePath) (mret tt) else mret tt.

Definition executeMapLocal (filePath : string) : IO unit :=
  _ ← guarded (stat_exists filePath) ("error checking file " +:+ filePath) (mret tt); mret tt.

Definition executeMapFile (base64 filePath tmp : string) : IO unit :=
  if String.eqb base64 "" then handleEmptyMapfileData filePath
  else
    match DecodeString base64 with
    | None => fail (failed false "failed to decode base64 data")
    | Some data =>
        existing ← catch (f ← read filePath; mret (Some (f_data f))) (λ _, mret None);
        if bool_decide (existing = Some data) then mret tt
        else guarded (writeMapfile filePath data tmp) ("failed to write file " +:+ filePath) (mret tt)
    end.

Definition ExecuteMapfile (key : string) (isLocal : bool) (base64 tmp : string) : IO unit :=
  match mappedFilePaths baseDir key with
  | None => fail (failed false ("unmapped MAPFILE key: " +:+ key))
  | Some filePath => if isLocal then executeMapLocal filePath else executeMapFile base64 filePath tmp
  end.
End mapfile.

(** ** resolver.go *)
Section resolver.
(** [Stat] of a path: there, not there, or an error. *)
Variables (baseDir : string) (Stat_ : string → option bool).

Definition resolveVAR (key : string) (snap : option Snapshot) : string :=
  let value := default "" (Global snap key) in
  TrimSpace (if String.eqb value "" then default "" (Server snap key) else value).

Definition resolveLOCAL (key : string) (snap : option Snapshot) : string := TrimSpace (default "" (Local snap key)).

Definition resolveMAPLOCAL (key : string) : string + string :=
  match mappedFilePaths baseDir key with
  | None => inl ("MAPLOCAL: unknown mapped file key: " +:+ key)
  | Some filePath =>
      match Stat_ filePath with
      | Some true => inr filePath
      | Some false => inr ""
      | None => inl ("MAPLOCAL " +:+ key +:+ ": error checking file " +:+ filePath)
      end
  end.

Definition ResolveValue (valueType key : string) (snap : option Snapshot) : string + string :=
  if String.eqb valueType TypeVar then inr (resolveVAR key snap)
  else if String.eqb valueType TypeLocal then inr (resolveLOCAL key snap)
  else if String.eqb valueType TypeMapLocal then resolveMAPLOCAL key
  else inr key.

(** TRUE and FALSE, in any case, are yes and no for Postfix. *)
Definition yes_no (value : string) : string :=
  if String.eqb (ToUpper value) "TRUE" then "yes" else if String.eqb (ToUpper value) "FALSE" then "no" else value.

Definition ResolvePostconfDirective (key valueType valueKey : string) (snap : option Snapshot) : string + (string * string) :=
  if String.eqb valueType "" && String.eqb valueKey "" then inr (key, "")
  else match ResolveValue valueType valueKey snap with
       | inl err => inl ("failed to resolve POSTCONF " +:+ key +:+ ": " +:+ err)
       | inr value => inr (key, yes_no value)
       end.

Definition ResolveLdapDirective (key valueType valueKey : string) (snap : option Snapshot) : string + (string * string) :=
  match ResolveValue valueType valueKey snap with
  | inl err => inl ("failed to resolve LDAP " +:+ key +:+ ": " +:+ err)
  | inr value => inr (key, value)
  end.

Definition ResolveMapfileDirective (key : string) (isLocal : bool) (snap : option Snapshot) : string + (string * string) :=
  match mappedFilePaths baseDir key with
  | None => inl ("unknown MAPFILE key: " +:+ key)
  | Some filePath => inr (filePath, if isLocal then "" else default "" (Global snap key))
  end.
End resolver.

(** The resolver and the lookup of the manager disagree when the directory has a
    server value next to a global one: POSTCONF takes the global one. *)
Example VAR_precedence :
  let snap := Some (New {| Local_ := ∅; Global_ := {["zimbraMtaSmtpdMilters" := "global"]};
                           Server_ := {["zimbraMtaSmtpdMilters" := "server"]}; Misc_ := ∅; Services_ := ∅ |}) in
  resolveVAR "zimbraMtaSmtpdMilters" snap = "global" ∧ Var snap "zimbraMtaSmtpdMilters" = Some "server".
Proof. split; vm_compute; reflexivity. Qed.
