(* ===== verification/PlanHost.v ===== *)
(** * PlanHost: internal/configmgr/manager_plan_host.go and file_scratch.go

    What a forced rewrite would change on this host, found by reading only.  The
    host is what the reads answer: files, their modes, and postconf; nothing here
    returns another host or another state, the lookups' cache being private to the
    call.  The details quote values as [%q] does for printable text; its escapes of
    other bytes are left out. *)
From S2P Require Import Prelude Config Snapshot Redact Plan Compute State Base64 Observe Actions Files RewriteProps MtaOps.
Open Scope Z_scope.

(** ** What is read of the host *)
Record HostView := {
  hv_env : Env;                                           (* FILE lookups: files and transformer *)
  hv_Transform : string → string + string;                (* the transformer, for rendering *)
  hv_ReadFile : string → option string;
  hv_Mode : string → option Z;                            (* Stat *)
  hv_Stat : string → option bool;
  hv_ReadPostconf : string → bool → option string + PostconfError }.

Inductive PlanHostError :=
  | ErrOutOfScope (name : string)
  | ErrUnknownSection (name : string)
  | ErrCompute (e : ComputeError)
  | ErrRender (source : string)
  | ErrPostconf (key : string) (e : PostconfError).

Section planhost.
Variables (mainConfig : Config) (hv : HostView) (st : State) (systemd : bool).

(** [withFileScratch]: the state the lookups of the call see and fill. *)
Definition withFileScratch : State := ClearFileCache st.

(** [narrowScope] *)
Fixpoint first_outside (configured requested : list string) : option string :=
  match requested with
  | [] => None
  | name :: rest => if bool_decide (name ∈ configured) then first_outside configured rest else Some name
  end.

Definition narrowScope (requested : list string) : list string + PlanHostError :=
  match Sections mainConfig with
  | [] => inl requested
  | configured =>
      match requested with
      | [] => inl configured
      | _ => match first_outside configured requested with
             | Some name => inr (ErrOutOfScope name)
             | None => inl requested
             end
      end
  end.

(** ** Drift of each kind of action: [""] when there is none *)
Definition mapfileDrift (m : Mapfile) : string :=
  match mf_Local m, MAPPEDFILES !! mf_Key m with
  | true, _ | _, None => ""
  | false, Some relPath =>
      let path := BaseDir mainConfig +:+ "/" +:+ relPath in
      match DecodeString (mappedFileBase64 (Some (State_Snapshot st)) (mf_Key m)) with
      | None => ""
      | Some want =>
          match String.eqb want "", hv_ReadFile hv path with
          | true, Some _ => path +:+ " exists but its value is unset; it would be removed"
          | true, None => ""
          | false, None => path +:+ " is missing; it would be written"
          | false, Some have =>
              if String.eqb have want then "" else path +:+ " differs from " +:+ mf_Key m +:+ "; it would be rewritten"
          end
      end
  end.

(** [%04o] of permissions *)
Definition octal_char (z : Z) : ascii := ascii_of_nat (48 + Z.to_nat (z mod 8)).
Definition octal4 (p : Z) : string :=
  String "0" (String (octal_char (p / 64)) (String (octal_char (p / 8)) (String (octal_char p) ""))).

(** [RenderRewrite]: content and mode. *)
Definition RenderRewrite (r : Rewrite) : (string * Z) + PlanHostError :=
  match rewriteFileMode (rw_Mode r) with
  | None => inr (ErrRender (rw_Source r))
  | Some mode =>
      match (text ← hv_ReadFile hv (TemplatePath mainConfig (rw_Source r)); render (hv_Transform hv) text) with
      | None => inr (ErrRender (rw_Source r))
      | Some content => inl (content, mode)
      end
  end.

Definition rewriteDrift (r : Rewrite) : string + PlanHostError :=
  let destPath := BaseDir mainConfig +:+ "/" +:+ rw_Target r in
  match RenderRewrite r with
  | inr e => inr e
  | inl (rendered, mode) =>
      inl (match hv_Mode hv destPath with
           | None => destPath +:+ " is missing; it would be written"
           | Some have_mode =>
               match hv_ReadFile hv destPath with
               | None => destPath +:+ " is unreadable; it would be rewritten"
               | Some have =>
                   if negb (String.eqb have rendered) then destPath +:+ " content differs from the rendered template"
                   else if negb (perm_of have_mode =? perm_of mode)
                        then destPath +:+ " mode " +:+ octal4 (perm_of have_mode) +:+ " would become " +:+ octal4 (perm_of mode)
                   else ""
               end
           end)
  end.

(** The value of a directive, as [resolveValueSpec] finds it for the executor. *)
Definition resolve_spec (valueSpec : string) : string + string :=
  let '(valueType, valueKey) := parseValueSpec valueSpec in
  if String.eqb valueType "LITERAL" then inr valueKey
  else if String.eqb valueType TypeFile then
    match (lookupFileKey mainConfig (hv_env hv) valueKey withFileScratch).1 with
    | inl _ => inl ("error reading file " +:+ valueKey)
    | inr v => inr v
    end
  else MtaOps.ResolveValue (BaseDir mainConfig) (hv_Stat hv) valueType valueKey (Some (State_Snapshot st)).

Definition postconf_want (p : Postconf) : string + string :=
  match resolve_spec (pc_Value p) with
  | inl err => inl err
  | inr resolved => inr (NormalizePostconfValue (normalizePostconfBool (pc_Value p) resolved))
  end.

Definition postconfDrift (p : Postconf) : string + PlanHostError :=
  match postconf_want p with
  | inl err => inl ("value cannot be resolved: " +:+ err)
  | inr want =>
      match hv_ReadPostconf hv (pc_Key p) false with
      | inr e => inr (ErrPostconf (pc_Key p) e)
      | inl have =>
          let have := default "" have in
          inl (if String.eqb (Join (Fields have) " ") (Join (Fields want) " ") then ""
               else "main.cf " +:+ pc_Key p +:+ " = " +:+ dquote +:+ ForLog (pc_Key p) have +:+ dquote +:+
                    " would become " +:+ dquote +:+ ForLog (pc_Key p) want +:+ dquote)
      end
  end.

Definition postconfdDrift (p : Postconfd) : string + PlanHostError :=
  match hv_ReadPostconf hv (pd_Key p) true with
  | inr e => inr (ErrPostconf (pd_Key p) e)
  | inl None => inl ""
  | inl (Some _) => inl ("main.cf sets " +:+ pd_Key p +:+ ", which would be removed")
  end.

(** The drift of every item, by key; the first error ends the observation. *)
Definition collect_drift {A} (key : A → string) (drift : A → string + PlanHostError) (items : list A)
    : gmap string string + PlanHostError :=
  foldl (λ acc x,
    match acc with
    | inr e => inr e
    | inl m => match drift x with
               | inr e => inr e
               | inl d => inl (if String.eqb d "" then m else <[key x := d]> m)
               end
    end) (inl ∅) items.

Definition ldap_drift : string := "cn=config value is not read by plan; the attribute would be written".

(** [observeHost] with [observeActionDrift]; without the proxygen field. *)
Definition observeHost (cand : Plan.Plan) : Host + PlanHostError :=
  let mapfiles := foldl (λ m x, let d := mapfileDrift x in if String.eqb d "" then m else <[mf_Key x := d]> m) ∅
                    (p_Heal cand ++ p_Mapfiles cand) in
  match collect_drift rw_Source rewriteDrift (p_Rewrites cand) with
  | inr e => inr e
  | inl rewrites =>
      match collect_drift pc_Key postconfDrift (p_Postconf cand) with
      | inr e => inr e
      | inl postconf =>
          match collect_drift pd_Key postconfdDrift (p_Postconfd cand) with
          | inr e => inr e
          | inl postconfd =>
              inl {| h_Mapfiles := mapfiles; h_Rewrites := rewrites; h_Postconf := postconf; h_Postconfd := postconfd;
                     h_Ldap := foldl (λ m x, <[ld_Key x := ldap_drift]> m) ∅ (p_Ldap cand); h_Proxygen := "" |}
          end
      end
  end.

(** [proxygenDrift]: the first section of the candidate that would change. *)
Definition proxygenDrift (candidate : Proxygen) (pruned : Plan.Plan) : string :=
  match List.filter (λ s, bool_decide (s ∈ s_Name <$> p_Sections pruned)) (pg_Sections candidate) with
  | s :: _ => "proxy configuration depends on section " +:+ s +:+
              ", which would change (generated proxy files are not rendered by plan)"
  | [] => ""
  end.

Definition with_proxygen (d : string) (h : Host) : Host :=
  {| h_Mapfiles := h_Mapfiles h; h_Rewrites := h_Rewrites h; h_Postconf := h_Postconf h; h_Postconfd := h_Postconfd h;
     h_Ldap := h_Ldap h; h_Proxygen := d |}.

(** ** PlanHost *)
Definition plan_host_input (scope : list string) (host : option Host) : Input :=
  let cur := (Observe mainConfig (hv_env hv) (State_Snapshot st) (MtaConfig_ st) withFileScratch).1 in
  {| Prev := Some cur; Cur := Some cur; Conf := Some (MtaConfig_ st); Forced := []; Requested := []; FirstRun := false;
     Tracked := list_to_map (map (λ s, (s, "running")) (ServiceNames (Some cur)));
     In_Carry := {| c_Rewrites := []; c_Postconf := []; c_Postconfd := []; c_Ldap := []; c_Proxygen := None; c_Restarts := [] |};
     Scope := scope; AssumeChanged := true; In_Host := host; Systemd := systemd |}.

Fixpoint first_unknown (scope : list string) : option string :=
  match scope with
  | [] => None
  | name :: rest => match mta_Sections (MtaConfig_ st) !! name with None => Some name | Some _ => first_unknown rest end
  end.

Definition compute_for (scope : list string) (host : option Host) : Plan.Plan + PlanHostError :=
  match Compute (plan_host_input scope host) with inl e => inr (ErrCompute e) | inr p => inl p end.

Definition PlanHost (requested : list string) : Plan.Plan + PlanHostError :=
  match narrowScope requested with
  | inr e => inr e
  | inl scope =>
      match first_unknown scope with
      | Some name => inr (ErrUnknownSection name)
      | None =>
          match compute_for scope None with
          | inr e => inr e
          | inl candidate =>
              match observeHost candidate with
              | inr e => inr e
              | inl host =>
                  match compute_for scope (Some host) with
                  | inr e => inr e
                  | inl pruned =>
                      match p_Proxygen candidate with
                      | None => inl pruned
                      | Some pg => compute_for scope (Some (with_proxygen (proxygenDrift pg pruned) host))
                      end
                  end
              end
          end
      end
  end.
End planhost.
