(* ===== verification/PlanHostProps.v ===== *)
(** * PlanHostProps: planning reads what executing wrote

    After an action of a plan was executed, the plan of the host does not list it
    any more; and what the plan of the host lists is what differs. *)
From S2P Require Import Prelude Text Config Snapshot Redact Plan Compute ComputeFacts ComputeProps State Base64 Observe Network Actions Files FilesProps RewriteProps MtaOps PlanHost.
Open Scope Z_scope.

(** ** A rewritten template *)

(** A view that reads the files of [fs] and renders with [Transform]. *)
Record reads (hv : HostView) (fs : FileSystem) (Transform : string → string + string) : Prop := {
  reads_file p : hv_ReadFile hv p = f_data <$> fs !! p;
  reads_mode p : hv_Mode hv p = f_mode <$> fs !! p;
  reads_transform : hv_Transform hv = Transform }.



(** ** A postconf parameter *)

(** What postconf promises: after [postconf -e] of parameters with different names
    succeeded, [postconf -h] of one of them prints the value it was given, up to the
    way it is broken over lines; after [postconf -X], [postconf -n] does not list the
    parameter. *)
Class Postfix {W} (run : list string → W → (bool * string) * W) : Prop := {
  set_then_read ops w out w' k v :
    NoDup ops.*1 → Forall (λ kv, valid_key kv.1) ops → Forall (λ kv, Contains kv.2 (String newline "") = false) ops →
    run ("-e" :: map (λ '(k, v), k +:+ "=" +:+ v) ops) w = ((true, out), w') → (k, v) ∈ ops →
    ∃ shown, (run ["-h"; k] w').1 = (true, shown) ∧ Fields shown = Fields v;
  remove_then_list keys w out w' k :
    run ("-X" :: keys) w = ((true, out), w') → k ∈ keys → (run ["-n"; k] w').1 = (true, "") }.

(** *** Words do not care about lines *)
Lemma flush_app (cur : list ascii) (l : list string) :
  match cur with [] => l | _ => string_of_list_ascii (rev cur) :: l end =
  match cur with [] => [] | _ => [string_of_list_ascii (rev cur)] end ++ l.
Proof. by destruct cur. Qed.

Lemma fields_go_app cur a c b :
  IsSpace c = true → fields_go cur (a +:+ String c b) = fields_go cur a ++ Fields b.
Proof.
  intros Hc. revert cur. induction a as [|x a IH]; intros cur.
  - rewrite string_app_nil_l. cbn [fields_go]. rewrite Hc. apply flush_app.
  - rewrite string_app_cons. cbn [fields_go]. destruct (IsSpace x); [|apply IH]. rewrite IH, flush_app.
    by rewrite (flush_app cur (fields_go [] a)), app_assoc.
Qed.

Lemma Fields_app a c b : IsSpace c = true → Fields (a +:+ String c b) = Fields a ++ Fields b.
Proof. apply fields_go_app. Qed.

Lemma SplitByte_nonempty sep s : SplitByte sep s ≠ [].
Proof. destruct s as [|c s]; [done|]. cbn [SplitByte]. destruct (Ascii.eqb c sep); [done|]. by destruct (SplitByte sep s). Qed.

Lemma fields_go_lines cur s :
  fields_go cur s = match SplitByte newline s with x :: l => fields_go cur x ++ mjoin (Fields <$> l) | [] => [] end.
Proof.
  revert cur. induction s as [|c s IH]; intros cur; [cbn; by rewrite app_nil_r|]. cbn [SplitByte].
  destruct (Ascii.eqb_spec c newline) as [->|Hne].
  - cbn [fields_go]. change (IsSpace newline) with true. cbn iota. rewrite IH.
    destruct (SplitByte newline s) as [|x l]; by destruct cur.
  - cbn [fields_go]. destruct (SplitByte newline s) as [|x l] eqn:E.
    + by destruct (SplitByte_nonempty newline s).
    + cbn [fields_go]. destruct (IsSpace c); rewrite IH; [|done]. rewrite flush_app.
      by rewrite (flush_app cur (fields_go [] x)), app_assoc.
Qed.

Lemma Fields_lines s : Fields s = mjoin (Fields <$> SplitByte newline s).
Proof.
  unfold Fields at 1. rewrite fields_go_lines. destruct (SplitByte newline s) as [|x l] eqn:E; [|done]. done.
Qed.

Lemma Fields_Join_words l : Fields (Join l " ") = mjoin (Fields <$> l).
Proof.
  induction l as [|x l IH]; [done|]. destruct l as [|y l].
  - cbn. by rewrite app_nil_r.
  - change (Join (x :: y :: l) " ") with (x +:+ String " " (Join (y :: l) " ")). by rewrite Fields_app, IH.
Qed.

Lemma words_of_cons l lines : mjoin (Fields <$> l :: lines) = Fields l ++ mjoin (Fields <$> lines).
Proof. done. Qed.

Lemma Fields_nonblank lines : mjoin (Fields <$> nonblank_lines lines) = mjoin (Fields <$> lines).
Proof.
  unfold nonblank_lines. induction lines as [|l lines IH]; [done|]. cbn [map List.filter].
  destruct (String.eqb_spec (TrimSpace l) "") as [E|E]; cbn [negb].
  - rewrite IH, words_of_cons. by rewrite <- (Fields_TrimSpace l), E.
  - by rewrite !words_of_cons, IH, Fields_TrimSpace.
Qed.

Lemma Fields_unwrap out : Fields (unwrapPostconfValue (SplitByte newline out)) = Fields out.
Proof. unfold unwrapPostconfValue. by rewrite Fields_Join_words, Fields_nonblank, <- Fields_lines. Qed.

Lemma Normalize_no_newline v : Contains (NormalizePostconfValue v) (String newline "") = false.
Proof.
  unfold NormalizePostconfValue. destruct (Contains v (String newline "")) eqn:E; [|done]. apply Contains_byte, chars_Join; [|done].
  unfold nonblank_lines. pose proof (SplitByte_chars newline v) as H. induction H as [|l lines Hl _ IH]; [constructor|].
  cbn [map List.filter]. destruct (negb _); [|done]. constructor; [|done]. by apply chars_TrimSpace.
Qed.

(** *** Setting and removing parameters *)
Section postconf.
Context {W : Type} (run : list string → W → (bool * string) * W) `{!Postfix run}.
Variables (mainConfig : Config) (hv : HostView) (st : State).

(** What the executor is asked to set for a directive of the plan. *)
Definition postconf_op (p : Postconf) : option (string * string) :=
  match resolve_spec mainConfig hv st (pc_Value p) with
  | inl _ => None
  | inr resolved => Some (pc_Key p, normalizePostconfBool (pc_Value p) resolved)
  end.

Lemma postconf_args_valid ops :
  Forall (λ kv : string * string, valid_key kv.1) ops →
  postconf_args ops = map (λ '(k, v), k +:+ "=" +:+ v) (map (λ '(k, v), (k, NormalizePostconfValue v)) ops).
Proof.
  unfold postconf_args. induction 1 as [|[k v] ops Hk _ IH]; [done|]. cbn. cbn in Hk.
  destruct (valid_key k); [|done]. f_equal. exact IH.
Qed.

Lemma postconf_set ops w w' k v :
  NoDup ops.*1 → Forall (λ kv : string * string, valid_key kv.1) ops → ExecutePostconfBatch run ops w = (None, w') →
  (k, v) ∈ ops →
  ∃ have, (ReadPostconf run k false w').1 = inl (Some have) ∧ Fields have = Fields (NormalizePostconfValue v).
Proof.
  intros Hnd Hvalid Hex Hin. unfold ExecutePostconfBatch in Hex. destruct ops as [|o ops]; [by apply not_elem_of_nil in Hin|].
  rewrite postconf_args_valid in Hex by done. destruct (map _ (map _ (o :: ops))) as [|a args] eqn:Ea; [by destruct o|].
  rewrite <- Ea in Hex. destruct (run _ w) as [[ok out] w1] eqn:Er. destruct ok; [|done]. injection Hex as <-.
  destruct (set_then_read (map (λ '(k, v), (k, NormalizePostconfValue v)) (o :: ops)) w out w1 k (NormalizePostconfValue v))
    as (shown & Hs & Hf).
  - assert ((map (λ '(k, v), (k, NormalizePostconfValue v)) (o :: ops)).*1 = (o :: ops).*1) as ->; [|done].
    generalize (o :: ops). clear. intros l. induction l as [|[k v] l IH]; [done|]. cbn. by rewrite IH.
  - apply Forall_fmap. eapply Forall_impl; [exact Hvalid|]. by intros [??].
  - apply Forall_fmap, Forall_true. intros [k' v']. apply Normalize_no_newline.
  - exact Er.
  - apply list_elem_of_fmap. by exists (k, v).
  - exists (unwrapPostconfValue (SplitByte newline shown)). rewrite Fields_unwrap. split; [|done].
    unfold ReadPostconf. rewrite Forall_forall in Hvalid. specialize (Hvalid _ Hin). cbn in Hvalid.
    destruct (valid_key k); [|done]. cbn [negb]. destruct (run ["-h"; k] w1) as [[ok' out'] w2]. cbn in Hs. by injection Hs as -> ->.
Qed.

(** A parameter that was set is in sync.  When the batch of the plan's POSTCONF
    directives is executed without an error, the plan of the host finds every one of
    them set to its value, multi-valued attributes folded onto one line included, and
    lists none. *)
Theorem postconf_converges w w' items :
  (∀ k explicit, hv_ReadPostconf hv k explicit = (ReadPostconf run k explicit w').1) →
  NoDup (pc_Key <$> items) → Forall (λ p, valid_key (pc_Key p)) items → Forall (λ p, is_Some (postconf_op p)) items →
  ExecutePostconfBatch run (omap postconf_op items) w = (None, w') →
  ∀ p, p ∈ items → postconfDrift mainConfig hv st p = inl "".
Proof.
  intros Hread Hnd Hvalid Hsome Hex p Hp.
  assert (Hkeys : (omap postconf_op items).*1 = pc_Key <$> items).
  { clear -Hsome. induction Hsome as [|q items [op Hq] _ IH]; [done|]. cbn. rewrite Hq. cbn. rewrite IH. f_equal.
    unfold postconf_op in Hq. destruct (resolve_spec _ _ _ _); [done|]. by injection Hq as <-. }
  assert (Hv : Forall (λ k, Is_true (valid_key k)) (omap postconf_op items).*1) by (rewrite Hkeys; by apply Forall_fmap).
  rewrite Forall_forall in Hsome. destruct (Hsome p Hp) as [op Hop]. pose proof Hop as Hop'.
  unfold postconf_op in Hop'. unfold postconfDrift, postconf_want. destruct (resolve_spec _ _ _ _) as [|resolved]; [done|].
  injection Hop' as <-.
  destruct (postconf_set (omap postconf_op items) w w' (pc_Key p) (normalizePostconfBool (pc_Value p) resolved)) as (have & Hh & Hf).
  - by rewrite Hkeys.
  - exact (proj1 (Forall_fmap _ _ _) Hv).
  - done.
  - apply list_elem_of_omap. eauto.
  - rewrite Hread, Hh. change (default "" (Some have)) with have. by rewrite Hf, String.eqb_refl.
Qed.

(** A parameter removed with [postconf -X] is not listed any more. *)
Lemma postconfd_converges w out w' removed p :
  (∀ k explicit, hv_ReadPostconf hv k explicit = (ReadPostconf run k explicit w').1) →
  run ("-X" :: (pd_Key <$> removed)) w = ((true, out), w') → p ∈ removed → valid_key (pd_Key p) → postconfdDrift hv p = inl "".
Proof.
  intros Hread Hx Hp Hk. unfold postconfdDrift. rewrite Hread. unfold ReadPostconf.
  assert (Hne : pd_Key p ≠ "") by (intros E; by rewrite E in Hk). destruct (valid_key (pd_Key p)); [|done]. cbn [negb]. assert (Hin : pd_Key p ∈ pd_Key <$> removed) by (apply list_elem_of_fmap; by exists p).
  pose proof (remove_then_list _ _ _ _ (pd_Key p) Hx Hin) as H.
  destruct (run ["-n"; pd_Key p] w') as [[ok out'] w2]. cbn in H. injection H as -> ->.
  cbn. by destruct (pd_Key p).
Qed.
End postconf.

(** A postconf that keeps its parameters in a map and prints a value on one line. *)
Definition cut_arg (m : gmap string string) (arg : string) : gmap string string :=
  match CutByte "=" arg with Some (k, v) => <[k := v]> m | None => m end.

Definition map_postconf (args : list string) (m : gmap string string) : (bool * string) * gmap string string :=
  match args with
  | "-e" :: args => ((true, ""), foldl cut_arg m args)
  | "-X" :: keys => ((true, ""), foldl (λ m k, delete k m) m keys)
  | ["-h"; k] => ((true, default "" (m !! k) +:+ String newline ""), m)
  | ["-n"; k] => ((true, match m !! k with Some v => k +:+ " = " +:+ v +:+ String newline "" | None => "" end), m)
  | _ => ((false, "usage"), m)
  end.

Lemma valid_key_no_eq k : valid_key k → chars (λ c, negb (Ascii.eqb c "=")) k.
Proof.
  intros [_ H]%andb_True. eapply chars_impl; [|exact H]. intros c Hc. destruct (Ascii.eqb_spec c "="); [by subst|done].
Qed.

Lemma foldl_delete (m : gmap string string) keys k :
  foldl (λ m k, delete k m) m keys !! k = if decide (k ∈ keys) then None else m !! k.
Proof.
  revert m. induction keys as [|k' keys IH]; intros m; cbn [foldl].
  - by rewrite decide_False by apply not_elem_of_nil.
  - rewrite IH. destruct (decide (k ∈ keys)) as [Hin|Hin]; [by rewrite decide_True by (by right)|].
    destruct (decide (k = k')) as [->|Hne]; [rewrite lookup_delete_eq, decide_True by (by left); done|].
    rewrite lookup_delete_ne by done. rewrite decide_False; [done|]. by intros [->|?]%elem_of_cons.
Qed.

#[local] Instance map_postconf_Postfix : Postfix map_postconf.
Proof.
  split.
  - intros ops w out w' k v Hnd Hvalid _ [= <- <-] Hin. eexists. split; [reflexivity|].
    rewrite Fields_app by done. change (Fields "") with (@nil string). rewrite app_nil_r. f_equal.
    assert (Hlook : ∀ m, foldl cut_arg m (map (λ '(k, v), k +:+ "=" +:+ v) ops) !! k = Some v); [|by rewrite Hlook].
    induction ops as [|[k' v'] ops IH]; intros m; [by apply not_elem_of_nil in Hin|].
    apply NoDup_cons in Hnd as [Hni Hnd]. apply Forall_cons in Hvalid as [Hk Hvalid]. cbn [fst] in Hni, Hk.
    assert (Hcut : cut_arg m (k' +:+ "=" +:+ v') = <[k' := v']> m).
    { unfold cut_arg. change ("=" +:+ v') with (String "=" v'). by rewrite CutByte_at by (by apply valid_key_no_eq). }
    cbn [map foldl]. rewrite Hcut. apply elem_of_cons in Hin as [[= -> ->]|Hin]; [|by apply IH].
    assert (Hkeep : ∀ m, foldl cut_arg m (map (λ '(k, v), k +:+ "=" +:+ v) ops) !! k' = m !! k'); [|by rewrite Hkeep, lookup_insert_eq].
    clear -Hni Hvalid. induction ops as [|[k v] ops IH]; intros m; [done|]. apply Forall_cons in Hvalid as [Hk Hvalid].
    cbn [map foldl]. rewrite IH by (try done; intros ?; apply Hni; by right). unfold cut_arg.
    change ("=" +:+ v) with (String "=" v). rewrite CutByte_at by (by apply valid_key_no_eq). rewrite lookup_insert_ne; [done|].
    intros ->. apply Hni. by left.
  - intros keys w out w' k [= <- <-] Hin. cbn. by rewrite foldl_delete, decide_True.
Qed.

Lemma postconf_converges_witness :
  let snap := New {| Local_ := ∅; Global_ := {["zimbraMtaBanner" := "a" +:+ String newline "b"]}; Server_ := ∅; Misc_ := ∅; Services_ := ∅ |} in
  let st := Publish snap NewState in
  let cfg := NewConfigWithHostname "/b" "h" in
  let p key value := {| pc_Key := key; pc_Value := value; pc_Sections := ["mta"]; pc_Reasons := [] |} in
  let items := [p "banner" "VAR:zimbraMtaBanner"; p "limit" "5"] in
  let view m := {| hv_env := {| ReadFile := λ _, inl LookupMiss; Stat := λ _, None; Observe.Transform := λ l, inr l |};
                   hv_Transform := λ l, inl l; hv_ReadFile := λ _, None; hv_Mode := λ _, None; hv_Stat := λ _, None;
                   hv_ReadPostconf := λ k explicit, (ReadPostconf map_postconf k explicit m).1 |} in
  let ops := omap (postconf_op cfg (view ∅) st) items in
  let m' := (ExecutePostconfBatch map_postconf ops (∅ : gmap string string)).2 in
  m' !! "banner" = Some "a, b" ∧
  postconfDrift cfg (view ∅) st (p "limit" "5") ≠ inl "" ∧
  postconfDrift cfg (view m') st (p "limit" "5") = inl "".
Proof.
  intros snap st cfg p items view ops m'. split; [vm_compute; reflexivity|]. split; [vm_compute; congruence|].
  apply (postconf_converges map_postconf cfg (view m') st ∅ m' items).
  - done.
  - vm_compute. repeat constructor; set_unfold; naive_solver.
  - repeat constructor.
  - repeat constructor; vm_compute; eauto.
  - vm_compute. reflexivity.
  - right. left.
Defined.

(** ** A mapped file *)

(** What a successful primitive did. *)
Lemma primitive_ok {A} what (f : FileSystem → (A * FileSystem) + IOError) g h w a w' :
  primitive what f g h w = (inl a, w') → f (w_fs w) = inl (a, w_fs w').
Proof.
  unfold primitive. destruct (next_fault w); [|done..]. destruct (f (w_fs w)) as [[a' fs]|]; [|done]. intros [= <- <-]. done.
Qed.

Lemma guarded_ok {A} (m : IO A) msg c w a w' : guarded m msg c w = (inl a, w') → m w = (inl a, w').
Proof. unfold guarded. by destruct (m w) as [[] ?]. Qed.

Lemma bind_ok {A B} (m : IO A) (f : A → IO B) w b w' :
  (x ← m; f x) w = (inl b, w') → ∃ a w1, m w = (inl a, w1) ∧ f a w1 = (inl b, w').
Proof. unfold mbind, IO_bind. destruct (m w) as [[a|e] w1]; [|done]. eauto. Qed.

(** The files after a program that can only have read them. *)
Lemma lstat_perm_fs path w r w' : lstat_perm path w = (r, w') → w_fs w' = w_fs w.
Proof.
  unfold lstat_perm, catch, primitive, commit, mret, IO_ret. destruct (next_fault w); cbn; intros [= _ <-]; done.
Qed.

Lemma syncDir_fs dir w a w' : syncDir dir w = (inl a, w') → w_fs w' = w_fs w.
Proof.
  intros (? & w1 & H1%guarded_ok%primitive_ok & H)%bind_ok. apply bind_ok in H as (? & w2 & H2%guarded_ok%primitive_ok & H).
  apply guarded_ok, primitive_ok in H. cbn in *. congruence.
Qed.

Lemma AtomicWrite_ok uid gid path data perm tmp w w' :
  tmp ≠ path → AtomicWrite uid gid path data perm tmp w = (inl tt, w') → f_data <$> w_fs w' !! path = Some data.
Proof.
  intros Hne. unfold AtomicWrite, AtomicWriteOwned.
  intros (? & w1 & H1%guarded_ok%primitive_ok & H)%bind_ok.
  apply bind_ok in H as (? & w2 & H2%guarded_ok%primitive_ok & H). apply bind_ok in H as (? & w3 & H3%guarded_ok%primitive_ok & H).
  apply bind_ok in H as (? & w4 & H4%guarded_ok%primitive_ok & H). apply bind_ok in H as (? & w5 & H5 & H).
  apply bind_ok in H as (? & w6 & H6%guarded_ok%primitive_ok & H). apply bind_ok in H as (? & w7 & H7%guarded_ok%primitive_ok & H).
  apply syncDir_fs in H. rewrite H. clear H. cbn in *.
  assert (w5 = w4) as -> by (unfold mret, IO_ret in H5; congruence).
  destruct (w_fs w !! tmp) eqn:E1; [done|]. injection H1 as _ H1. injection H2 as _ H2. injection H3 as _ H3. injection H6 as _ H6.
  assert (E3 : w_fs w3 !! tmp = Some {| f_data := data; f_mode := 384; f_uid := uid; f_gid := gid |}).
  { rewrite <- H3, <- H2, <- H1. unfold update. rewrite lookup_alter_eq, lookup_insert_eq. done. }
  rewrite E3 in H4. injection H4 as _ H4. rewrite <- H6, <- H4 in H7. unfold update in H7. rewrite lookup_alter_eq, E3 in H7.
  cbn in H7. injection H7 as _ H7. rewrite <- H7. by rewrite lookup_insert_eq.
Qed.

(** A mapped file that was synchronised is in sync.  Whatever the state of the
    file before and whatever failed on the way: when the executor reports success for
    the value the configuration has, the plan of the host lists nothing for the file
    (its content is the decoded value, or it is gone when the value is unset).  The
    value must not be one of line breaks only: it decodes to nothing without being
    empty, and the executor writes an empty file the plan would remove. *)
Theorem mapfile_converges uid gid umask cfg st m tmp w w' hv Transform :
  (let value := mappedFileBase64 (Some (State_Snapshot st)) (mf_Key m) in value = "" ∨ DecodeString value ≠ Some "") →
  tmp ≠ BaseDir cfg +:+ "/conf/dhparam.pem" →
  ExecuteMapfile uid gid umask (BaseDir cfg) (mf_Key m) false (mappedFileBase64 (Some (State_Snapshot st)) (mf_Key m)) tmp w = (inl tt, w') →
  reads hv (w_fs w') Transform →
  mapfileDrift cfg hv st m = "".
Proof.
  intros Hval Htmp Hrun Hv. cbv zeta in Hval. unfold mapfileDrift. destruct (mf_Local m); [done|]. unfold ExecuteMapfile, mappedFilePaths in Hrun.
  destruct (MAPPEDFILES !! mf_Key m) as [rel|] eqn:Em; [|done]. cbn in Hrun.
  assert (rel = "conf/dhparam.pem") as ->.
  { unfold MAPPEDFILES in Em. apply lookup_singleton_Some in Em. by destruct Em. }
  set (path := BaseDir cfg +:+ "/" +:+ "conf/dhparam.pem") in *. set (b64 := mappedFileBase64 _ _) in *.
  rewrite (reads_file _ _ _ Hv). unfold executeMapFile in Hrun. destruct (String.eqb_spec b64 "") as [Eb|Eb].
  - rewrite Eb. change (DecodeString "") with (Some ""). cbn [String.eqb]. unfold handleEmptyMapfileData in Hrun.
    apply bind_ok in Hrun as (there & w1 & H1%guarded_ok%primitive_ok & Hrun). cbn in H1. injection H1 as <- H1.
    destruct (decide (is_Some (w_fs w !! path))) as [Hs|Hs].
    + rewrite bool_decide_true in Hrun by done. apply guarded_ok, primitive_ok in Hrun. cbn in Hrun.
      destruct (w_fs w1 !! path); [|done]. injection Hrun as Hrun. rewrite <- Hrun, lookup_delete_eq. done.
    + rewrite bool_decide_false in Hrun by done. injection Hrun as <-. rewrite <- H1.
      apply eq_None_not_Some in Hs. by rewrite Hs.
  - destruct (DecodeString b64) as [data|]; [|done].
    apply bind_ok in Hrun as (existing & w1 & H1 & Hrun). 
    assert (Hdata : f_data <$> w_fs w' !! path = Some data).
    { destruct (bool_decide (existing = Some data)) eqn:Ee.
      - apply bool_decide_eq_true in Ee as ->. injection Hrun as <-. unfold catch in H1.
        destruct ((f ← read path; mret (Some (f_data f))) w) as [r w2] eqn:Er. destruct r as [x|e]; [|done].
        injection H1 as -> ->. apply bind_ok in Er as (f & w3 & Hr%primitive_ok & Hf). injection Hf as <- <-. cbn in Hr.
        destruct (w_fs w !! path) eqn:Ep; [|done]. injection Hr as -> Hr. rewrite <- Hr, Ep. done.
      - apply guarded_ok in Hrun. unfold writeMapfile in Hrun. apply bind_ok in Hrun as (perm & w2 & _ & Hrun%guarded_ok).
        by eapply AtomicWrite_ok. }
    rewrite Hdata. destruct (String.eqb_spec data "") as [->|]; [by destruct Hval|by rewrite String.eqb_refl].
Qed.

Lemma mapfile_converges_witness :
  let snap := New {| Local_ := ∅; Global_ := {["zimbraSSLDHParam" := "YWJj"]}; Server_ := ∅; Misc_ := ∅; Services_ := ∅ |} in
  let st := Publish snap NewState in
  let cfg := NewConfigWithHostname "/b" "h" in
  let m := {| mf_Key := "zimbraSSLDHParam"; mf_Local := false; mf_Sections := ["dhparam"]; mf_Reasons := [] |} in
  let fs : FileSystem := {["/b/conf/dhparam.pem" := {| f_data := "old"; f_mode := 416; f_uid := 0; f_gid := 0 |}]} in
  let w' := (ExecuteMapfile 1 1 18 "/b" "zimbraSSLDHParam" false "YWJj" "/b/conf/.t" (start fs [])).2 in
  let view fs' := {| hv_env := {| ReadFile := λ _, inl LookupMiss; Stat := λ _, None; Observe.Transform := λ l, inr l |};
                     hv_Transform := λ l, inl l; hv_ReadFile := λ p, f_data <$> (fs' : FileSystem) !! p;
                     hv_Mode := λ p, f_mode <$> fs' !! p; hv_Stat := λ _, None; hv_ReadPostconf := λ _ _, inl None |} in
  mapfileDrift cfg (view fs) st m ≠ "" ∧ mapfileDrift cfg (view (w_fs w')) st m = "".
Proof.
  intros snap st cfg m fs w' view. split; [vm_compute; congruence|].
  apply (mapfile_converges 1 1 18 cfg st m "/b/conf/.t" (start fs []) w' (view (w_fs w')) (λ l, inl l)).
  - right. vm_compute. congruence.
  - vm_compute. congruence.
  - vm_compute. reflexivity.
  - by split.
Defined.

(** ** The whole plan *)

(** A host without drift. *)
Definition no_drift (h : Host) : Prop :=
  h_Mapfiles h = ∅ ∧ h_Rewrites h = ∅ ∧ h_Postconf h = ∅ ∧ h_Postconfd h = ∅ ∧ h_Ldap h = ∅ ∧ h_Proxygen h = "".

Lemma prune_empty {T} `{PlanEntry T} (m : gmap string T) : prune ∅ m = ∅.
Proof. apply map_empty. intros k. unfold prune, drift_of. rewrite map_lookup_imap, lookup_empty. cbn. by destruct (m !! k). Qed.

Lemma pruneToHost_mapfiles i h b : In_Host i = Some h → h_Mapfiles h = ∅ → b_mapfiles (pruneToHost i b) = ∅.
Proof.
  intros E Hm. unfold pruneToHost. rewrite E. unfold pruneMapfiles, pruneFiles, pruneDirectives. cbn.
  apply map_empty. intros k. rewrite map_lookup_imap, Hm. unfold drift_of. rewrite lookup_empty. cbn. by destruct (_ !! k).
Qed.

Lemma collectSorted_nil {T} `{PlanEntry T} : collectSorted (∅ : gmap string T) = [].
Proof. unfold collectSorted. by rewrite map_to_list_empty. Qed.

Lemma no_drift_plan i h :
  In_Host i = Some h → no_drift h → let p := finish i (pruneToHost i (build i)) in
  Plan_IsEmpty p = true ∧ p_Sections p = [] ∧ p_DeferredRestarts p = [].
Proof.
  intros E (Hm & Hr & Hpc & Hpd & Hl & Hg). cbn zeta.
  destruct (pruneToHost_fields i h (build i) E) as (Frw & Fpc & Fpd & Fld & Fpg & Fdf & touched & Fsec & Frs & Ftouched).
  pose proof (pruneToHost_mapfiles i h (build i) E Hm) as Fmf.
  rewrite Hr, prune_empty in Frw. rewrite Hpc, prune_empty in Fpc. rewrite Hpd, prune_empty in Fpd. rewrite Hl, prune_empty in Fld.
  assert (Fpg' : b_proxygen (pruneToHost i (build i)) = None).
  { rewrite Fpg. unfold pruneProxygen. rewrite Hg. by destruct (b_proxygen (build i)). }
  assert (Hnone : ∀ s, s ∉ touched).
  { intros s Hs. apply Ftouched in Hs. unfold drift_section in Hs.
    cbn [finish p_Rewrites p_Postconf p_Postconfd p_Proxygen p_Mapfiles] in Hs. rewrite Frw, Fpc, Fpd, Fpg', Fmf, Hm in Hs.
    rewrite !collectSorted_nil in Hs. unfold collectMapfiles in Hs. rewrite map_to_list_empty in Hs. cbn in Hs.
    destruct Hs as [(e & He & _)|[(e & He & _)|[(e & He & _)|[(e & He & _)|[(e & He & _)|(k & m & _ & He & _)]]]]];
      try by apply not_elem_of_nil in He. done. unfold drift_of in He. by rewrite lookup_empty in He. }
  assert (Fsec' : b_sections (pruneToHost i (build i)) = []).
  { rewrite Fsec. apply elem_of_nil_inv. intros s [Hs _]%list_elem_of_filter. by apply (Hnone (s_Name s)). }
  assert (Frs' : b_restarts (pruneToHost i (build i)) = ∅).
  { rewrite Frs. apply map_empty. intros k. rewrite lookup_omap. destruct (b_restarts (build i) !! k) as [r|]; [|done]. cbn.
    unfold pruneRestart. destruct (existsb _ _) eqn:Ex; [|done]. apply existsb_exists in Ex as (s & _ & Hs).
    apply bool_decide_eq_true in Hs. by destruct (Hnone s). }
  unfold Plan_IsEmpty. cbn [finish p_Mapfiles p_Rewrites p_Postconf p_Postconfd p_Ldap p_Proxygen p_Restarts p_Sections p_DeferredRestarts].
  rewrite Frw, Fpc, Fpd, Fld, Fpg', Fmf, Frs', Fdf, Fsec', !collectSorted_nil. unfold collectMapfiles. by rewrite map_to_list_empty.
Qed.

(** The actions of a candidate plan that all match the host. *)
Record in_sync (cfg : Config) (hv : HostView) (st : State) (cand : Plan.Plan) : Prop := {
  sync_mapfiles m : m ∈ p_Heal cand ++ p_Mapfiles cand → mapfileDrift cfg hv st m = "";
  sync_rewrites r : r ∈ p_Rewrites cand → rewriteDrift cfg hv r = inl "";
  sync_postconf p : p ∈ p_Postconf cand → postconfDrift cfg hv st p = inl "";
  sync_postconfd p : p ∈ p_Postconfd cand → postconfdDrift hv p = inl "";
  sync_ldap : p_Ldap cand = [] }.

Lemma collect_drift_none {A} (key : A → string) drift items :
  (∀ x, x ∈ items → drift x = inl "") → collect_drift key drift items = inl ∅.
Proof.
  unfold collect_drift. generalize (∅ : gmap string string). induction items as [|x items IH]; intros m H; [done|].
  cbn [foldl]. rewrite H by (by left). cbn. apply IH. intros y Hy. apply H. by right.
Qed.

Lemma observeHost_in_sync cfg hv st cand :
  in_sync cfg hv st cand → ∃ h, observeHost cfg hv st cand = inl h ∧ no_drift h.
Proof.
  intros [Hm Hr Hp Hd Hl]. unfold observeHost.
  rewrite (collect_drift_none rw_Source), (collect_drift_none pc_Key), (collect_drift_none pd_Key) by done.
  eexists. split; [done|]. split_and!; try done; cbn; [|by rewrite Hl].
  revert Hm. generalize (p_Heal cand ++ p_Mapfiles cand) (∅ : gmap string string). intros l. induction l as [|m l IH]; intros d Hm; [done|].
  cbn [foldl]. rewrite Hm by (by left). cbn. apply IH. intros m' Hm'. apply Hm. by right.
Qed.

Lemma compute_for_host cfg hv st systemd scope cand h :
  compute_for cfg hv st systemd scope None = inl cand →
  compute_for cfg hv st systemd scope (Some h) =
  inl (finish (plan_host_input cfg hv st systemd scope (Some h))
        (pruneToHost (plan_host_input cfg hv st systemd scope (Some h)) (build (plan_host_input cfg hv st systemd scope (Some h))))).
Proof.
  unfold compute_for, Compute. intros H.
  change (guardAllDisabled (plan_host_input cfg hv st systemd scope (Some h))) with (guardAllDisabled (plan_host_input cfg hv st systemd scope None)).
  by destruct (guardAllDisabled (plan_host_input cfg hv st systemd scope None)).
Qed.


(** A section with a template and a parameter, on a host that has both and on one that
    has neither. *)
Definition demo_state : State :=
  Publish (New {| Local_ := ∅; Global_ := {["v" := "7"]}; Server_ := ∅; Misc_ := ∅; Services_ := {["s" := "zimbraServiceEnabled"]} |})
    (SetMtaConfig {| mta_Sections := {["s" :=
      {| sec_Name := "s"; sec_Depends := ∅; sec_Rewrites := {["conf/x.in" := {| re_Value := "conf/x"; re_Mode := "0640" |}]};
         sec_Restarts := {["s" := true]}; sec_RequiredVars := {["v" := "VAR"]}; sec_Postconf := {["p" := "VAR:v"]};
         sec_Postconfd := ∅; sec_Ldap := ∅; sec_Proxygen := false; sec_Conditionals := [] |}]} |} NewState).

Definition demo_view (target : option (string * Z)) (p : string) : HostView :=
  {| hv_env := {| ReadFile := λ _, inl LookupMiss; Stat := λ _, None; Observe.Transform := λ l, inr l |};
     hv_Transform := λ l, inl (l +:+ "!");
     hv_ReadFile := λ path, if String.eqb path "/b/conf/x.in" then Some "one"
                            else if String.eqb path "/b/conf/x" then fst <$> target else None;
     hv_Mode := λ path, if String.eqb path "/b/conf/x" then snd <$> target else None;
     hv_Stat := λ _, None; hv_ReadPostconf := λ _ _, inl (Some p) |}.

Definition demo_plan (hv : HostView) : option (list string * list string * list string * bool) :=
  match PlanHost (NewConfigWithHostname "/b" "h") hv demo_state false [] with
  | inl p => Some (rw_Source <$> p_Rewrites p, pc_Key <$> p_Postconf p, r_Service <$> p_Restarts p, Plan_IsEmpty p)
  | inr _ => None
  end.

(** Both drift on an empty host; a wrong mode drifts; a host in sync needs nothing. *)
Example PlanHost_demo :
  demo_plan (demo_view None "6") = Some (["conf/x.in"], ["p"], ["s"], false) ∧
  demo_plan (demo_view (Some ("one!" +:+ String newline "", 420)) "7") = Some (["conf/x.in"], [], ["s"], false) ∧
  demo_plan (demo_view (Some ("one!" +:+ String newline "", 416)) "7") = Some ([], [], [], true).
Proof. split_and!; vm_compute; reflexivity. Qed.
