(* ===== verification/Host.v ===== *)
(** * Host: the side-effect boundary of the service controller

    internal/sys bundles what touches the host (commands, processes, files,
    signals, time) in a few interfaces; internal/systemd asks systemctl through
    them.  A [Host] answers every request from the events so far, so it may answer
    the same question differently later; every request is recorded with its
    answer.  The theorems about the controller quantify over all hosts and read the
    record. *)
From S2P Require Import Prelude.
Open Scope Z_scope.

(** ** The boundary *)

(** [sys.ProcEntry] *)
Record entry := { e_PID : Z; e_Exe : string; e_Argv : list string; e_Comm : string }.

Inductive Sig := SIGTERM | SIGKILL | SIGHUP | SIGCONT | SIGINT | SIGQUIT | SIGUSR1 | SIGUSR2.

(** A command: exit status zero, another one (a [sys.ExitError]), or not run at
    all; the first two with the combined output. *)
Inductive RunResult := RunOk (out : string) | RunExit (out : string) | RunFailed.

(** Of [Signal] and [SignalGroup]: delivered, ESRCH or ErrProcessDone, EPERM,
    another error. *)
Inductive SigResult := SigOk | SigGone | SigPerm | SigOther.

(** Of [Stat]: there, ErrNotExist, another error. *)
Inductive StatResult := StatOk | StatMissing | StatFailed.

Inductive ReadResult := ReadOk (data : string) | ReadMissing | ReadFailed.

Inductive Event :=
  | ERun (path : string) (args : list string) (r : RunResult)
  | EStart (path : string) (args : list string) (pid : option Z)
  | ETable (t : option (list entry))
  | EEntry (pid : Z) (e : option entry)
  | EZombie (pid : Z) (b : bool)
  | EAlive (pid : Z) (b : bool)
  | ESignal (pid : Z) (s : Sig) (r : SigResult)
  | ESignalGroup (pgid : Z) (s : Sig) (r : SigResult)
  | EStat (path : string) (r : StatResult)
  | ERead (path : string) (r : ReadResult)
  | EReadDir (path : string) (r : option (list (string * bool)) * bool)
  | EOpen (path : string) (ok : bool)
  | EMkdir (path : string) (ok : bool)
  | ERemove (path : string) (ok : bool)
  | EWrite (path data : string) (ok : bool)
  | EGroup (gid : option Z)
  | EChown (path : string) (gid : Z) (ok : bool)
  | ENow (t : Z)
  | EAfter (d : Z)
  | EDone (b : bool)
  | EConfig (lc : option (gmap string string))
  | ENet (what : string) (ok : bool)
  | EDirectory (r : option (list string)).

Abbreviation Log := (list Event).

(** The host's answers.  [h_ReadDir] answers the names with whether they are
    directories, or an error that is not-exist or not.  [h_delay] is the time that
    goes by between two readings of the clock; [h_Done] tells whether the context
    has ended; [h_Net] answers the probes over the network and the sockets (not part
    of the boundary of internal/sys), and [h_Directory] the query of the enabled
    services. *)
Record Host := {
  h_Run : Log → string → list string → RunResult;
  h_Start : Log → string → list string → option Z;
  h_Table : Log → option (list entry);
  h_Entry : Log → Z → option entry;
  h_Zombie : Log → Z → bool;
  h_Alive : Log → Z → bool;
  h_Signal : Log → Z → Sig → SigResult;
  h_SignalGroup : Log → Z → Sig → SigResult;
  h_Pid : Z; h_Ppid : Z; h_UID : Z;
  h_Stat : Log → string → StatResult;
  h_ReadFile : Log → string → ReadResult;
  h_ReadDir : Log → string → option (list (string * bool)) * bool;
  h_Open : Log → string → bool;
  h_Mkdir : Log → string → bool;
  h_Remove : Log → string → bool;
  h_Write : Log → string → bool;
  h_LookupGID : Log → string → option Z;
  h_Chown : Log → string → bool;
  h_delay : Log → N;
  h_Done : Log → bool;
  h_Config : Log → option (gmap string string);
  h_Net : Log → string → bool;
  h_Directory : Log → option (list string) }.

(** ** The controller's state

    The log (newest first), the clock, the cached verdicts on systemd, the process
    table a status context carries once it was read, and whether a recursion went
    deeper than the model allows. *)
Record Ctl := {
  cl_log : Log;
  cl_now : Z;
  cl_mode : option bool;
  cl_booted : option bool;
  cl_snap : option (option (list entry));
  cl_deep : bool }.

Definition M (A : Type) : Type := Ctl → A * Ctl.

#[export] Instance M_ret : MRet M := λ A a s, (a, s).
#[export] Instance M_bind : MBind M := λ A B f m s, let '(a, s) := m s in f a s.

Definition log_event (e : Event) (s : Ctl) : Ctl :=
  {| cl_log := e :: cl_log s; cl_now := cl_now s; cl_mode := cl_mode s; cl_booted := cl_booted s;
     cl_snap := cl_snap s; cl_deep := cl_deep s |}.
Definition set_now (t : Z) (s : Ctl) : Ctl :=
  {| cl_log := cl_log s; cl_now := t; cl_mode := cl_mode s; cl_booted := cl_booted s;
     cl_snap := cl_snap s; cl_deep := cl_deep s |}.
Definition set_systemd (m : option bool) (s : Ctl) : Ctl :=
  {| cl_log := cl_log s; cl_now := cl_now s; cl_mode := m; cl_booted := cl_booted s;
     cl_snap := cl_snap s; cl_deep := cl_deep s |}.
Definition set_booted (b : bool) (s : Ctl) : Ctl :=
  {| cl_log := cl_log s; cl_now := cl_now s; cl_mode := cl_mode s; cl_booted := Some b;
     cl_snap := cl_snap s; cl_deep := cl_deep s |}.
Definition set_snapshot (t : option (option (list entry))) (s : Ctl) : Ctl :=
  {| cl_log := cl_log s; cl_now := cl_now s; cl_mode := cl_mode s; cl_booted := cl_booted s;
     cl_snap := t; cl_deep := cl_deep s |}.
Definition set_deep (s : Ctl) : Ctl :=
  {| cl_log := cl_log s; cl_now := cl_now s; cl_mode := cl_mode s; cl_booted := cl_booted s;
     cl_snap := cl_snap s; cl_deep := true |}.

(** A request: the answer, recorded. *)
Definition ask {A} (answer : Log → A) (ev : A → Event) : M A := λ s,
  let a := answer (cl_log s) in (a, log_event (ev a) s).

Section host.
Variable H : Host.

Definition Run (path : string) (args : list string) : M RunResult := ask (λ l, h_Run H l path args) (ERun path args).
Definition Start (path : string) (args : list string) : M (option Z) := ask (λ l, h_Start H l path args) (EStart path args).
Definition Table : M (option (list entry)) := ask (h_Table H) ETable.
Definition Entry (pid : Z) : M (option entry) := ask (λ l, h_Entry H l pid) (EEntry pid).
Definition Zombie (pid : Z) : M bool := ask (λ l, h_Zombie H l pid) (EZombie pid).
Definition Alive (pid : Z) : M bool := ask (λ l, h_Alive H l pid) (EAlive pid).
Definition Signal (pid : Z) (sig : Sig) : M SigResult := ask (λ l, h_Signal H l pid sig) (ESignal pid sig).
Definition SignalGroup (pgid : Z) (sig : Sig) : M SigResult := ask (λ l, h_SignalGroup H l pgid sig) (ESignalGroup pgid sig).
Definition Stat (path : string) : M StatResult := ask (λ l, h_Stat H l path) (EStat path).
Definition exists_ (path : string) : M bool := r ← Stat path; mret (match r with StatOk => true | _ => false end).
Definition ReadFile (path : string) : M ReadResult := ask (λ l, h_ReadFile H l path) (ERead path).
Definition ReadDir (path : string) : M (option (list (string * bool)) * bool) := ask (λ l, h_ReadDir H l path) (EReadDir path).
Definition OpenFile (path : string) : M bool := ask (λ l, h_Open H l path) (EOpen path).
Definition MkdirAll (path : string) : M bool := ask (λ l, h_Mkdir H l path) (EMkdir path).
Definition Remove (path : string) : M bool := ask (λ l, h_Remove H l path) (ERemove path).
Definition WriteFile (path data : string) : M bool := ask (λ l, h_Write H l path) (EWrite path data).
Definition LookupGID (group : string) : M (option Z) := ask (λ l, h_LookupGID H l group) EGroup.
Definition Chown (path : string) (gid : Z) : M bool := ask (λ l, h_Chown H l path) (EChown path gid).
Definition Done : M bool := ask (h_Done H) EDone.
Definition loadConfig : M (option (gmap string string)) := ask (h_Config H) EConfig.
Definition Net (what : string) : M bool := ask (λ l, h_Net H l what) (ENet what).
Definition Directory : M (option (list string)) := ask (h_Directory H) EDirectory.

(** Time only goes on: by an arbitrary delay before a reading, and by at least the
    duration of a wait. *)
Definition Now : M Z := λ s,
  let t := cl_now s + Z.of_N (h_delay H (cl_log s)) in (t, log_event (ENow t) (set_now t s)).

Definition After (d : Z) : M unit := λ s,
  let t := cl_now s + d + Z.of_N (h_delay H (cl_log s)) in (tt, log_event (EAfter d) (set_now t s)).

(** ** Helpers for loops *)
Fixpoint for_each {A} (f : A → M unit) (l : list A) : M unit :=
  match l with [] => mret tt | x :: l => f x ≫= λ _, for_each f l end.

Fixpoint collect {A B} (f : A → M (option B)) (l : list A) : M (list B) :=
  match l with
  | [] => mret []
  | x :: l => b ← f x; bs ← collect f l; mret (match b with Some b => b :: bs | None => bs end)
  end.

Fixpoint filterM {A} (f : A → M bool) (l : list A) : M (list A) :=
  match l with
  | [] => mret []
  | x :: l => b ← f x; ys ← filterM f l; mret (if (b : bool) then x :: ys else ys)
  end.

(** Whether [f] holds of every element; the rest is not asked once it does not. *)
Fixpoint forallM {A} (f : A → M bool) (l : list A) : M bool :=
  match l with [] => mret true | x :: l => b ← f x; if (b : bool) then forallM f l else mret false end.

(** ** internal/systemd *)
Definition carbonioTargets : list string :=
  ["carbonio-directory-server.target"; "carbonio-appserver.target"; "carbonio-proxy.target"; "carbonio-mta.target";
   "service-discover.target"].

Definition runSystemdDir : string := "/run/systemd/system".

Definition IsBooted : M bool := λ s,
  match cl_booted s with
  | Some b => (b, s)
  | None => let '(b, s) := exists_ runSystemdDir s in (b, set_booted b s)
  end.

(** [Some b]: the unit is enabled or not; [None]: systemctl could not be asked. *)
Definition IsEnabled (unit : string) : M (option bool) :=
  r ← Run "systemctl" ["is-enabled"; unit];
  mret (match r with RunOk _ => Some true | RunExit _ => Some false | RunFailed => None end).

Fixpoint enabled_targets (targets : list string) (failed : bool) : M (option bool) :=
  match targets with
  | [] => mret (if failed then None else Some false)
  | t :: targets =>
      e ← IsEnabled t;
      match e with
      | None => enabled_targets targets true
      | Some true => mret (Some true)
      | Some false => enabled_targets targets failed
      end
  end.

Definition IsSystemdEnabled : M (option bool) := enabled_targets carbonioTargets false.

(** [Controller.IsSystemdMode]: the verdict is kept, a failed probe is not one. *)
Definition IsSystemdMode : M bool := λ s,
  match cl_mode s with
  | Some b => (b, s)
  | None =>
      let '(e, s) := IsSystemdEnabled s in
      match e with None => (false, s) | Some b => (b, set_systemd (Some b) s) end
  end.
End host.
