(* ===== verification/ProcIdent.v ===== *)
(** * ProcIdent: recognising and stopping the processes of a service

    internal/services/procident.go (process identities, the shared process table of
    status probes, pidfiles) and what helpers.go and cli_process.go do to processes:
    signals, waiting for an exit, escalation to SIGKILL.  Durations are in
    milliseconds.  The waits of [waitAndEscalate] run in step: all processes are
    polled, then the interval goes by. *)
From stdpp Require Import pretty.
From S2P Require Import Prelude Host.
Open Scope Z_scope.

(** ** Errors *)
Inductive Err :=
  | Msg (what : string)
  | Wrap (what : string) (e : Err)
  | JoinErrs (es : list Err)
  | ErrSystemdNotBooted
  | ExitError (out : string)
  | ErrUnsupportedVerb
  | ErrNoStatsPidFiles.

Definition wrapped (what : string) (e : option Err) : option Err := Wrap what <$> e.

Definition joined (es : list Err) : option Err := match es with [] => None | _ => Some (JoinErrs es) end.

(** ** Names: [path.Base] and [path.Match] *)
Definition slash : ascii := "/"%char.

Definition rev_string (s : string) : string := String.rev s.

Fixpoint trim_slashes_left (s : string) : string :=
  match s with String c s' => if decide (c = slash) then trim_slashes_left s' else s | _ => s end.

(** [strings.TrimRight s "/"] *)
Definition TrimRightSlash (s : string) : string := rev_string (trim_slashes_left (rev_string s)).

Definition path_Base (p : string) : string :=
  if String.eqb p "" then "."
  else
    let q := TrimRightSlash p in
    if String.eqb q "" then "/" else List.last (SplitByte slash q) "".

(** A pattern as a list of matchers; [None] when it is malformed. *)
Inductive Glob := GStar | GAny | GLit (c : ascii) | GClass (negated : bool) (ranges : list (ascii * ascii)).

Definition backslash : ascii := ascii_of_N 92.

(** One, possibly escaped, character of a class. *)
Definition class_char (s : string) : option (ascii * string) :=
  match s with
  | String c s' =>
      if bool_decide (c = "-"%char ∨ c = "]"%char) then None
      else if decide (c = backslash) then match s' with String c' s'' => Some (c', s'') | _ => None end
      else Some (c, s')
  | _ => None
  end.

Fixpoint class_ranges (fuel : nat) (s : string) (acc : list (ascii * ascii)) : option (list (ascii * ascii) * string) :=
  match fuel with
  | O => None
  | S fuel =>
      match s with
      | String c s' =>
          if bool_decide (c = "]"%char ∧ acc ≠ []) then Some (rev acc, s')
          else
            '(lo, r) ← class_char s;
            match r with
            | String d r' =>
                if decide (d = "-"%char) then '(hi, r'') ← class_char r'; class_ranges fuel r'' ((lo, hi) :: acc)
                else class_ranges fuel r ((lo, lo) :: acc)
            | _ => None
            end
      | _ => None
      end
  end.

Fixpoint glob_of (fuel : nat) (p : string) : option (list Glob) :=
  match fuel with
  | O => None
  | S fuel =>
      match p with
      | EmptyString => Some []
      | String c p' =>
          if decide (c = "*"%char) then cons GStar <$> glob_of fuel p'
          else if decide (c = "?"%char) then cons GAny <$> glob_of fuel p'
          else if decide (c = backslash) then
            match p' with String c' p'' => cons (GLit c') <$> glob_of fuel p'' | _ => None end
          else if decide (c = "["%char) then
            let '(neg, p') := match p' with
                              | String d q => if decide (d = "^"%char) then (true, q) else (false, p')
                              | _ => (false, p')
                              end in
            '(ranges, r) ← class_ranges fuel p' [];
            cons (GClass neg ranges) <$> glob_of fuel r
          else cons (GLit c) <$> glob_of fuel p'
      end
  end.

Definition in_ranges (c : ascii) (rs : list (ascii * ascii)) : bool :=
  existsb (λ '(lo, hi), in_range (byte lo) (byte hi) c) rs.

Fixpoint glob_match (g : list Glob) (s : string) : bool :=
  match g with
  | [] => String.eqb s ""
  | GStar :: g' =>
      (fix star (s : string) : bool :=
         glob_match g' s || match s with String c s' => negb (bool_decide (c = slash)) && star s' | _ => false end) s
  | GAny :: g' => match s with String c s' => negb (bool_decide (c = slash)) && glob_match g' s' | _ => false end
  | GLit c :: g' => match s with String c' s' => bool_decide (c = c') && glob_match g' s' | _ => false end
  | GClass neg rs :: g' =>
      match s with String c s' => negb (eqb (in_ranges c rs) neg) && glob_match g' s' | _ => false end
  end.

(** [path.Match]; a malformed pattern, which is an error there, matches nothing. *)
Definition path_Match (pattern s : string) : bool :=
  match glob_of (S (String.length pattern)) pattern with Some g => glob_match g s | None => false end.

Definition has_meta (s : string) : bool :=
  negb (chars (λ c, negb (bool_decide (c = "*"%char ∨ c = "?"%char ∨ c = "["%char))) s).

(** ** procident.go: identities *)
Definition nameMatches (name s : string) : bool := if has_meta name then path_Match name s else String.eqb name s.

Definition commMaxLen : nat := 15.

Definition commName (name : string) : string :=
  let base := path_Base name in
  if negb (has_meta base) && (commMaxLen <? String.length base)%nat then take_string commMaxLen base else base.

Definition TrimSuffix (s p : string) : string :=
  if HasSuffix s p then take_string (String.length s - String.length p) s else s.

Definition bareToken (tok : string) : string := TrimSuffix (path_Base tok) ":".

Definition matchesProgram (p : entry) (name : string) : bool :=
  if String.eqb name "" then false
  else
    let absolute := HasPrefix name "/" in
    if absolute && negb (String.eqb (e_Exe p) "") && nameMatches name (e_Exe p) then true
    else
      match e_Argv p with
      | [] => negb (String.eqb (e_Comm p) "") && nameMatches (commName name) (e_Comm p)
      | argv => existsb (λ tok, nameMatches name tok || (negb absolute && nameMatches name (bareToken tok))) argv
      end.

Definition argMatches (want tok : string) : bool :=
  let want := TrimRightSlash want in
  nameMatches want (TrimRightSlash tok) ||
  match CutByte "="%char tok with Some (_, value) => nameMatches want (TrimRightSlash value) | None => false end.

Definition entryMatches (p : entry) (identity : string) : bool :=
  let '(prog, required) := default (identity, "") (CutByte space identity) in
  matchesProgram p prog && forallb (λ want, existsb (argMatches want) (e_Argv p)) (Fields required).

(** ** procident.go: the process table *)

(** A context: whether starts regenerate configuration, and whether it carries a
    process snapshot. *)
Record Ctx := { cx_norewrite : bool; cx_snapshot : bool }.

Definition background : Ctx := {| cx_norewrite := false; cx_snapshot := false |}.

Definition WithProcessSnapshot (ctx : Ctx) : M Ctx := λ s,
  if cx_snapshot ctx then (ctx, s)
  else ({| cx_norewrite := cx_norewrite ctx; cx_snapshot := true |}, set_snapshot None s).

Definition pid_le (a b : entry) : Prop := e_PID a ≤ e_PID b.
#[export] Instance pid_le_dec a b : Decision (pid_le a b) := decide (e_PID a ≤ e_PID b).

Definition sorted_table (t : option (list entry)) : option (list entry) := merge_sort pid_le <$> t.

Section proc.
Variable H : Host.

(** [procSnapshot.load] of the snapshot the context carries. *)
Definition load : M (option (list entry)) := λ s,
  match cl_snap s with
  | Some t => (t, s)
  | None => let '(t, s) := Table H s in (sorted_table t, set_snapshot (Some (sorted_table t)) s)
  end.

Definition scan_entries (name : string) (es : list entry) : M (list Z) :=
  collect (λ e,
    if entryMatches e name
    then z ← Zombie H (e_PID e); mret (if (z : bool) then None else Some (e_PID e))
    else mret None) es.

Definition scan (t : option (list entry)) (name : string) : M (option (list Z)) :=
  match t with
  | None => mret None
  | Some es => pids ← scan_entries name es; mret (Some pids)
  end.

Definition scanProcesses (name : string) : M (option (list Z)) := t ← Table H; scan (sorted_table t) name.

Definition scanProcessesForStatus (ctx : Ctx) (name : string) : M (option (list Z)) :=
  if cx_snapshot ctx then t ← load; scan t name else scanProcesses name.

Definition snapshot_lookup (t : option (list entry)) (pid : Z) : option entry :=
  es ← t; List.find (λ e, e_PID e =? pid) es.

Definition readPidFile (pidFile : string) : M (option Z) :=
  r ← ReadFile H pidFile;
  mret (match r with
        | ReadOk data =>
            let text := TrimSpace data in
            let line := match CutByte newline text with Some (l, _) => l | None => text end in
            pid ← Atoi (TrimSpace line); if pid <=? 0 then None else Some pid
        | _ => None
        end).

Definition processAlive (pid : Z) : M bool := Alive H pid.

Definition isRunningByPidFile (pidFile : string) : M (option bool) :=
  p ← readPidFile pidFile;
  match p with None => mret None | Some pid => b ← processAlive pid; mret (Some b) end.

Definition pidBelongsTo (ctx : Ctx) (pid : Z) (name : string) : M bool :=
  if String.eqb name "" then processAlive pid
  else if cx_snapshot ctx then
    t ← load;
    match snapshot_lookup t pid with
    | Some e => if entryMatches e name then z ← Zombie H pid; mret (negb z) else mret false
    | None => mret false
    end
  else
    e ← Entry H pid;
    match e with
    | Some e => z ← Zombie H pid; mret (negb z && entryMatches e name)
    | None => mret false
    end.

Definition selfOrParent (pid : Z) : bool := (pid =? h_Pid H) || (pid =? h_Ppid H).

(** The lowest pid of the identity but configd's own and its parent's; 0 when there
    is none. *)
Definition pidFromProcessName (ctx : Ctx) (name : string) : M Z :=
  if String.eqb name "" then mret 0
  else
    pids ← scanProcessesForStatus ctx name;
    mret (default 0 (pids ≫= λ pids, List.find (λ pid, negb (selfOrParent pid)) pids)).

(** ** cli_process.go: waiting for an exit *)
Inductive pollResult := pollExited | pollTimedOut | pollCancelled.

(** One round of the poll: [None] when it goes on. *)
Definition poll_once (pid deadline : Z) : M (option pollResult) :=
  t ← Now H;
  if t <? deadline then
    alive ← processAlive pid;
    if (alive : bool) then
      over ← Done H;
      if (over : bool) then
        alive ← processAlive pid; mret (Some (if (alive : bool) then pollCancelled else pollExited))
      else mret None
    else mret (Some pollExited)
  else
    alive ← processAlive pid; mret (Some (if (alive : bool) then pollTimedOut else pollExited)).

Fixpoint poll_loop (fuel : nat) (pid deadline interval : Z) : M pollResult :=
  match fuel with
  | O => λ s, (pollTimedOut, set_deep s)
  | S fuel =>
      r ← poll_once pid deadline;
      match r with
      | Some r => mret r
      | None => After H interval ≫= λ _, poll_loop fuel pid deadline interval
      end
  end.

(** Enough rounds: each but the last takes an interval of the time-out. *)
Definition poll_fuel (timeout interval : Z) : nat := Z.to_nat (timeout / interval) + 2.

Definition pollUntilExit (pid timeout interval : Z) : M pollResult :=
  t ← Now H; poll_loop (poll_fuel timeout interval) pid (t + timeout) interval.

(** ** Signals *)
Definition signalPID (pid : Z) (sig : Sig) : M unit := Signal H pid sig ≫= λ _, mret tt.

(** The pids that still have to be waited for, after one round; the others are
    dealt with. *)
Definition escalate_round (deadline : Z) (pids : list Z) : M (list Z) :=
  collect (λ pid,
    r ← poll_once pid deadline;
    match r with
    | None => mret (Some pid)
    | Some pollTimedOut => signalPID pid SIGKILL ≫= λ _, mret None
    | Some _ => mret None
    end) pids.

Fixpoint escalate_loop (fuel : nat) (deadline interval : Z) (pids : list Z) : M unit :=
  match pids with
  | [] => mret tt
  | _ =>
      match fuel with
      | O => λ s, (tt, set_deep s)
      | S fuel =>
          rest ← escalate_round deadline pids;
          match rest with
          | [] => mret tt
          | _ => After H interval ≫= λ _, escalate_loop fuel deadline interval rest
          end
      end
  end.

Definition waitAndEscalate (pids : list Z) (timeout : Z) : M unit :=
  t ← Now H; escalate_loop (poll_fuel timeout 200) (t + timeout) 200 pids.

Definition killTimeout : Z := 30000.

Definition killProcess (processName : string) : M (option Err) :=
  pids ← scanProcesses processName;
  match pids with
  | None => mret (Some (Wrap ("scan processes for " +:+ processName) (Msg "read the process table")))
  | Some pids =>
      match List.filter (λ pid, negb (selfOrParent pid)) pids with
      | [] => mret None
      | targets =>
          for_each (λ pid, signalPID pid SIGTERM) targets ≫= λ _,
          waitAndEscalate targets killTimeout ≫= λ _, mret None
      end
  end.

(** ** helpers.go: the graceful stop of a pidfile's process *)
Definition gracefulStopPID (pid : Z) (serviceName : string) (timeout : Z) : M (option Err) :=
  r ← Signal H pid SIGTERM;
  match r with
  | SigGone => mret None
  | SigPerm | SigOther => mret (Some (Wrap ("failed to SIGTERM process " +:+ pretty pid) (Msg "signal")))
  | SigOk =>
      p ← pollUntilExit pid timeout 50;
      match p with
      | pollExited => mret None
      | pollCancelled => mret (Some (Wrap ("stopping " +:+ serviceName +:+ " interrupted") (Msg "context")))
      | pollTimedOut =>
          r ← Signal H pid SIGKILL;
          mret (match r with
                | SigOk | SigGone => None
                | _ => Some (Wrap ("failed to SIGKILL process " +:+ pretty pid) (Msg "signal"))
                end)
      end
  end.

Definition pidsByIdentity (name : string) : M (list Z) :=
  pids ← scanProcesses name;
  mret (match pids with None => [] | Some pids => List.filter (λ pid, negb (selfOrParent pid)) pids end).

Definition gracefulStopViaPidfile (ctx : Ctx) (pidFile serviceName processName : string) (timeout : Z) : M (option Err) :=
  r ← ReadFile H pidFile;
  match r with
  | ReadMissing => mret None
  | ReadFailed => mret (Some (Wrap ("failed to read pidfile " +:+ pidFile) (Msg "read")))
  | ReadOk data =>
      match Atoi (TrimSpace data) with
      | None => mret (Some (Msg ("invalid pid in " +:+ pidFile +:+ ": " +:+ TrimSpace data)))
      | Some pid =>
          mine ← pidBelongsTo ctx pid processName;
          pids ← (if (mine : bool) then mret [pid] else pidsByIdentity processName);
          errs ← collect (λ p, gracefulStopPID p serviceName timeout) pids;
          match errs with
          | [] => Remove H pidFile ≫= λ _, mret None
          | _ => mret (joined errs)
          end
      end
  end.

(** ** cli_process.go: process groups *)
Definition sudoBin : string := "/usr/bin/sudo".

Definition sudoKill (pid : Z) (signal : string) (groupKill : bool) : M unit :=
  let target := if groupKill then "-" +:+ pretty pid else pretty pid in
  Run H sudoBin ["-n"; "kill"; "-" +:+ signal; "--"; target] ≫= λ _, mret tt.

Definition killByPIDWithGroupAndSudo (pid : Z) : M bool :=
  r ← SignalGroup H pid SIGTERM;
  match r with
  | SigGone => mret true
  | _ =>
      (match r with SigPerm => sudoKill pid "TERM" true | _ => mret tt end) ≫= λ _,
      p ← pollUntilExit pid killTimeout 200;
      match p with
      | pollExited => mret true
      | pollCancelled => mret false
      | pollTimedOut =>
          r ← SignalGroup H pid SIGKILL;
          (match r with SigPerm => sudoKill pid "KILL" true | _ => mret tt end) ≫= λ _,
          alive ← processAlive pid; mret (negb alive)
      end
  end.

Definition sudoRun (binary : string) (args : list string) : M (option Err) :=
  r ← Run H sudoBin ("-n" :: binary :: args);
  mret (match r with RunOk _ => None | _ => Some (Wrap (binary +:+ " " +:+ Join args " ") (Msg "failed")) end).
End proc.

(** What is recognised, and what is not. *)
Example identities :
  let e exe argv comm := {| e_PID := 7; e_Exe := exe; e_Argv := argv; e_Comm := comm |} in
  entryMatches (e "" ["nginx:"; "master"; "process"; "/o/sbin/nginx"; "-c"] "") "/o/sbin/nginx" = true ∧
  entryMatches (e "" ["tail"; "-f"; "/o/log/clamd.log"] "") "/o/sbin/clamd" = false ∧
  entryMatches (e "" ["perl"; "-w"; "/o/libexec/zmstat-proc"] "") "/o/libexec/zmstat-*" = true ∧
  entryMatches (e "" ["tail"; "/o/libexec/x/zmstat-proc"] "") "/o/libexec/zmstat-*" = false ∧
  entryMatches (e "" ["consul"; "connect"; "envoy"] "") "/usr/bin/consul agent /etc/z" = false ∧
  entryMatches (e "/usr/bin/consul" ["x"; "agent"; "-config-dir=/etc/z/"] "") "/usr/bin/consul agent /etc/z" = true ∧
  entryMatches (e "" ["amavisd"; "(master)"] "") "amavisd" = true ∧
  entryMatches (e "" [] "carbonio-mailbo") "carbonio-mailboxd" = true.
Proof. vm_compute. repeat split. Qed.
