(* ===== verification/Launch.v ===== *)
(** * Launch: service definitions and how services are launched without systemd

    internal/services: the declarative definitions (registry.go, spec.go, paths.go),
    the steps (steps.go), and the launchers and stoppers of the legacy mode
    (cli_process.go, launch_direct.go, launch_commands.go, java_launch.go,
    mysqld_launch.go, collectors.go, readiness.go, ldap_launch.go, mta_prepare.go).
    Hooks are actions of the host monad.  The probes over the network, and the
    sd_notify sockets, are answers of the host. *)
From stdpp Require Import pretty.
From S2P Require Import Prelude Config Host ProcIdent.
Open Scope Z_scope.

(** ** spec.go *)
Inductive ReadyKind := ReadyNone | ReadyLDAP | ReadyConfigd | ReadyMailboxPort.

Abbreviation Hook := (M (option Err)).

Record JavaSpec := {
  j_Label : string; j_LogFile : string; j_Args : gmap string string → list string;
  j_Mkdirs : list string; j_Touch : list string }.

Record MysqldSpec := {
  my_DefaultsKey : string; my_ErrlogKey : string; my_OptionalDefaults : bool; my_Active : option (M bool) }.

Record StaleDirs := { sd_Dir : string; sd_Prefix : string }.

Record RunStep := {
  rs_Path : string; rs_Args : list string; rs_Sudo : bool; rs_IfExists : string;
  rs_SkipOnNoRewrite : bool; rs_BestEffort : bool }.

Inductive StepAction := Mkdir (dirs : list string) | RemoveStale (d : StaleDirs) | RunCmd (r : RunStep) | HookStep (h : Hook).

Record Step := { st_Do : StepAction; st_UnlessExists : string }.

Record CommandSpec := {
  cs_Start : option (list string); cs_Stop : option (list string);
  cs_Status : option (list string); cs_Reload : option (list string);
  cs_Prepare : list Step; cs_RestartAsReload : bool; cs_ReloadRestartsDependencies : bool }.

Record CollectorSpec := { co_Always : list string; co_Optional : list (string * string) }.

Record Companion := { cp_Identity : string; cp_Binary : string }.

Record ProcessWait := { pw_Attempts : nat; pw_Interval : Z }.

Record DirectSpec := {
  ds_OptionalBinary : bool; ds_SkipIfRunning : bool; ds_Prepare : list Step; ds_Wait : ProcessWait }.

(** ** registry.go: [ServiceDef] *)
Record ServiceDef := {
  Name : string; DisplayName : string; SystemdUnits : list string;
  BinaryPath : string; BinaryArgs : list string; Detached : bool; LogFile : string; NeedsRoot : bool;
  PidFile : string; ProcessName : string; GracefulStop : Z;
  Dependencies : list string; EnableCheck : option (M bool); Setup : list Step;
  PreStart : list Hook; PostStart : list Hook; PreStop : list Hook; ConfigRewrite : list string;
  UseSDNotify : bool; CustomStart : option Hook; CustomStop : option Hook;
  UseSystemdForStatus : bool; ExternallyManaged : bool;
  Members : list string; StopMembersForward : bool; ForceMembersNoRewrite : bool;
  MemberApplies : option (string → M bool); DetailMember : string; Wants : list string;
  Component : bool; IdleWhenDisabled : bool; Companions : list Companion; RefreshSignal : option Sig;
  ArgsFromConfig : option (gmap string string → list string); Ready : ReadyKind;
  Java : option JavaSpec; Mysqld : option MysqldSpec; Commands : option CommandSpec;
  Collectors : option CollectorSpec; Direct : option DirectSpec; Heavy : bool }.

Abbreviation Registry := (gmap string ServiceDef).

(** ** paths.go *)
Record paths := {
  p_base : string; p_bin : string; p_conf : string; p_common : string; p_data : string; p_lib : string;
  p_log : string; p_mailbox : string; p_mailboxd : string; p_store : string; p_libexec : string; p_run : string }.

Definition newPaths (base run : string) : paths :=
  {| p_base := base; p_bin := base +:+ "/bin"; p_conf := base +:+ "/conf"; p_common := base +:+ "/common";
     p_data := base +:+ "/data"; p_lib := base +:+ "/lib"; p_log := base +:+ "/log"; p_mailbox := base +:+ "/mailbox";
     p_mailboxd := base +:+ "/mailboxd"; p_store := base +:+ "/store"; p_libexec := base +:+ "/libexec"; p_run := run |}.

Definition statsPidDir (p : paths) : string := p_run p +:+ "/stats".
Definition statsGlob (p : paths) : string := p_libexec p +:+ "/zmstat-*".
Definition cacheFile (p : paths) : string := p_log p +:+ "/.zmcontrol.cache".
Definition configrewrite (p : paths) : string := p_libexec p +:+ "/configrewrite".
Definition sdNotifySocket (p : paths) (service : string) : string := p_run p +:+ "/notify-" +:+ service +:+ ".sock".

Definition lc_get (lc : gmap string string) (k : string) : string := default "" (lc !! k).

Definition first_set (l : list string) : string := default "" (List.find (λ s, negb (String.eqb s "")) l).

Section launch.
Variables (H : Host) (p : paths).
(** [Controller.noRewrite] *)
Variable noRewrite : bool.

Definition rewriteSkipped (ctx : Ctx) : bool := noRewrite || cx_norewrite ctx.

(** ** steps.go *)
Definition removeStaleDirs (stale : StaleDirs) : M unit :=
  r ← ReadDir H (sd_Dir stale);
  match r.1 with
  | None => mret tt
  | Some entries =>
      for_each (λ '(name, is_dir),
        if (is_dir : bool) && HasPrefix name (sd_Prefix stale)
        then Remove H (sd_Dir stale +:+ "/" +:+ name) ≫= λ _, mret tt
        else mret tt) entries
  end.

Definition runCommand (ctx : Ctx) (run : RunStep) : M (option Err) :=
  if rs_SkipOnNoRewrite run && rewriteSkipped ctx then mret None
  else
    there ← (if String.eqb (rs_IfExists run) "" then mret true else exists_ H (rs_IfExists run));
    if negb there then mret None
    else
      r ← (if rs_Sudo run then Run H sudoBin ("-n" :: rs_Path run :: rs_Args run) else Run H (rs_Path run) (rs_Args run));
      mret (match r with
            | RunOk _ => None
            | _ => if rs_BestEffort run then None
                   else Some (Wrap (rs_Path run +:+ " " +:+ Join (rs_Args run) " ") (Msg "failed"))
            end).

Fixpoint mkdirs (dirs : list string) : M (option Err) :=
  match dirs with
  | [] => mret None
  | d :: dirs =>
      ok ← MkdirAll H d;
      if (ok : bool) then mkdirs dirs else mret (Some (Wrap ("create " +:+ d) (Msg "mkdir")))
  end.

Definition runStep (ctx : Ctx) (step : Step) : M (option Err) :=
  skip ← (if String.eqb (st_UnlessExists step) "" then mret false else exists_ H (st_UnlessExists step));
  if (skip : bool) then mret None
  else match st_Do step with
       | Mkdir dirs => mkdirs dirs
       | RemoveStale d => removeStaleDirs d ≫= λ _, mret None
       | RunCmd r => runCommand ctx r
       | HookStep h => h
       end.

Fixpoint runSteps (ctx : Ctx) (steps : list Step) : M (option Err) :=
  match steps with
  | [] => mret None
  | s :: steps =>
      e ← runStep ctx s;
      match e with Some e => mret (Some e) | None => runSteps ctx steps end
  end.

(** ** readiness.go, ldap_launch.go *)
Definition buildLDAPBindURL (lc : gmap string string) : string :=
  if negb (String.eqb (lc_get lc "ldap_bind_url") "") then lc_get lc "ldap_bind_url"
  else match Fields (lc_get lc "ldap_url") with
       | url :: _ => url
       | [] =>
           let port := first_set [lc_get lc "ldap_port"; "389"] in
           let host := first_set [lc_get lc "zimbra_server_hostname"; "localhost"] in
           "ldap://" +:+ host +:+ ":" +:+ port
       end.

Definition slapdArgs (lc : gmap string string) : list string :=
  ["-d"; "0"; "-l"; "LOCAL0"; "-h"; buildLDAPBindURL lc +:+ " ldapi:///"; "-F"; p_data p +:+ "/ldap/config"].

(** [exited]: whether the launched child is watched. *)
Fixpoint ldap_ready_loop (fuel : nat) (exited : bool) (deadline : Z) : M (option Err) :=
  match fuel with
  | O => λ s, (Some (Msg "ldap"), set_deep s)
  | S fuel =>
      ok ← Net H "rootDSE";
      if (ok : bool) then mret None
      else
        over ← Done H;
        if (over : bool) then mret (Some (Msg "context"))
        else
          died ← (if exited then Net H "child exited" else mret false);
          if (died : bool) then mret (Some (Msg "ldap exited during startup before becoming ready"))
          else
            After H 250 ≫= λ _,
            t ← Now H;
            if deadline <? t then mret (Some (Msg "ldap did not become ready")) else ldap_ready_loop fuel exited deadline
  end.

Definition awaitLDAPReady (exited : bool) : M (option Err) :=
  t ← Now H; ldap_ready_loop (Z.to_nat (30000 / 250) + 2) exited (t + 30000).

Definition probe_error (what : string) (ok : bool) : option Err := if ok then None else Some (Msg what).

Definition awaitReady (def : ServiceDef) (exited : bool) : M (option Err) :=
  match Ready def with
  | ReadyNone => mret None
  | ReadyConfigd => ok ← Net H "configd STATUS"; mret (probe_error "configd did not become ready" ok)
  | ReadyLDAP =>
      lc ← loadConfig H;
      match lc with None => mret (Some (Msg "failed to load localconfig")) | Some _ => awaitLDAPReady exited end
  | ReadyMailboxPort =>
      lc ← loadConfig H;
      match lc with
      | None => mret (Some (Msg "failed to load localconfig"))
      | Some _ => ok ← Net H "mailbox port"; mret (probe_error "mailboxd did not open its port" ok)
      end
  end.

(** ** sd_notify.go, up to the answer of the wait for READY=1.  The first component
    tells whether the process was started. *)
Definition startWithSDNotify (path : string) (args : list string) (service : string) : M (bool * option Err) :=
  Remove H (sdNotifySocket p service) ≫= λ _,
  bound ← Net H "listen on the notify socket";
  if negb bound then mret (false, Some (Wrap ("create notify socket for " +:+ service) (Msg "listen")))
  else
    proc ← Start H path args;
    r ← match proc with
        | None => mret (false, Some (Wrap ("start " +:+ service) (Msg "start")))
        | Some _ => ok ← Net H "READY=1"; mret (true, probe_error (service +:+ " did not signal READY=1") ok)
        end;
    Remove H (sdNotifySocket p service) ≫= λ _, mret r.

(** ** cli_process.go: direct launches *)
Definition launchArgs (def : ServiceDef) : M (list string + Err) :=
  match ArgsFromConfig def with
  | None => mret (inl (BinaryArgs def))
  | Some f =>
      lc ← loadConfig H;
      mret (match lc with Some lc => inl (f lc) | None => inr (Msg "failed to load localconfig") end)
  end.

Definition startDetached (name : string) (def : ServiceDef) (args : list string) : M (option Err) :=
  let logFilePath := first_set [LogFile def; p_log p +:+ "/" +:+ name +:+ ".out"] in
  opened ← OpenFile H logFilePath;
  if negb opened then mret (Some (Wrap ("open log file " +:+ logFilePath +:+ " for " +:+ name) (Msg "open")))
  else if UseSDNotify def then
    r ← startWithSDNotify (BinaryPath def) args name;
    mret (wrapped ("failed to start " +:+ name) r.2)
  else
    proc ← Start H (BinaryPath def) args;
    match proc with
    | None => mret (Some (Wrap ("failed to spawn " +:+ name) (Msg "start")))
    | Some _ => awaitReady def (match Ready def with ReadyLDAP => true | _ => false end)
    end.

Definition startDirect (name : string) (def : ServiceDef) : M (option Err) :=
  if String.eqb (BinaryPath def) "" then mret (Some (Msg ("no binary path defined for " +:+ name)))
  else
    a ← launchArgs def;
    match a with
    | inr e => mret (Some e)
    | inl args =>
        there ← exists_ H (BinaryPath def);
        if negb there then mret (Some (Wrap (name +:+ " binary not found at " +:+ BinaryPath def) (Msg "stat")))
        else
          let sudo := NeedsRoot def && negb (h_UID H =? 0) in
          let binary := if sudo then sudoBin else BinaryPath def in
          let args := if sudo then "-n" :: BinaryPath def :: args else args in
          if Detached def then startDetached name def args
          else if UseSDNotify def then r ← startWithSDNotify binary args name; mret r.2
          else
            r ← Run H binary args;
            match r with
            | RunOk _ => awaitReady def false
            | _ => mret (Some (Wrap ("failed to start " +:+ name +:+ " directly") (Msg "run")))
            end
    end.

(** ** launch_direct.go *)
Definition binaryInstalled (path : string) : M bool := exists_ H path.

Fixpoint wait_identity (attempts : nat) (ctx : Ctx) (identity : string) (interval : Z) : M bool :=
  match attempts with
  | O => mret false
  | S attempts =>
      pid ← pidFromProcessName H ctx identity;
      if 0 <? pid then mret true
      else match attempts with
           | O => mret false
           | _ =>
               over ← Done H;
               if (over : bool) then mret false
               else After H interval ≫= λ _, wait_identity attempts ctx identity interval
           end
  end.

Definition waitForIdentity (ctx : Ctx) (identity : string) (wait : ProcessWait) : M bool :=
  wait_identity (pw_Attempts wait) ctx identity (pw_Interval wait).

Definition appeared (ctx : Ctx) (identity : string) (wait : ProcessWait) : M (option Err) :=
  if (pw_Attempts wait =? 0)%nat then mret None
  else ok ← waitForIdentity ctx identity wait; mret (probe_error (identity +:+ " did not start in time") ok).

Definition startCompanion (ctx : Ctx) (companion : Companion) (wait : ProcessWait) : M (option Err) :=
  if String.eqb (cp_Binary companion) "" then mret None
  else
    pid ← pidFromProcessName H ctx (cp_Identity companion);
    if 0 <? pid then mret None
    else
      e ← sudoRun H (cp_Binary companion) [];
      match e with
      | Some e => mret (Some (Wrap ("start " +:+ cp_Identity companion) e))
      | None => appeared ctx (cp_Identity companion) wait
      end.

Fixpoint startCompanions (ctx : Ctx) (cs : list Companion) (wait : ProcessWait) : M (option Err) :=
  match cs with
  | [] => mret None
  | c :: cs =>
      e ← startCompanion ctx c wait;
      match e with Some e => mret (Some e) | None => startCompanions ctx cs wait end
  end.

Definition startDaemon (ctx : Ctx) (name : string) (def : ServiceDef) (spec : DirectSpec) : M (option Err) :=
  there ← (if ds_OptionalBinary spec then binaryInstalled (BinaryPath def) else mret true);
  if negb there then mret None
  else
    e ← startCompanions ctx (Companions def) (ds_Wait spec);
    match e with
    | Some e => mret (Some e)
    | None =>
        pid ← (if ds_SkipIfRunning spec then pidFromProcessName H ctx (ProcessName def) else mret 0);
        if 0 <? pid then mret None
        else
          e ← runSteps ctx (ds_Prepare spec);
          match e with
          | Some e => mret (Some e)
          | None =>
              e ← startDirect name def;
              match e with Some e => mret (Some e) | None => appeared ctx (ProcessName def) (ds_Wait spec) end
          end
    end.

Fixpoint kill_companions (cs : list Companion) (firstErr : option Err) : M (option Err) :=
  match cs with
  | [] => mret firstErr
  | c :: cs =>
      e ← killProcess H (cp_Identity c);
      kill_companions cs (match firstErr with Some _ => firstErr | None => e end)
  end.

Definition killAll (def : ServiceDef) : M (option Err) :=
  e ← killProcess H (ProcessName def); kill_companions (Companions def) e.

Definition companionsRunning (ctx : Ctx) (def : ServiceDef) : M bool :=
  forallM (λ c, pid ← pidFromProcessName H ctx (cp_Identity c); mret (negb (pid =? 0))) (Companions def).

(** ** procident.go: [runningPID].  [DetailMember] leads from a composite to one of
    its members; the registry is the controller's. *)
Fixpoint runningPID (fuel : nat) (reg : Registry) (ctx : Ctx) (def : ServiceDef) : M Z :=
  let own :=
    pid ← (if String.eqb (PidFile def) "" then mret None
           else
             r ← readPidFile H (PidFile def);
             match r with
             | None => mret None
             | Some pid => b ← pidBelongsTo H ctx pid (ProcessName def); mret (if (b : bool) then Some pid else None)
             end);
    match pid with Some pid => mret pid | None => pidFromProcessName H ctx (ProcessName def) end in
  match (if String.eqb (DetailMember def) "" then None else reg !! DetailMember def) with
  | None => own
  | Some member => match fuel with O => λ s, (0, set_deep s) | S fuel => runningPID fuel reg ctx member end
  end.
End launch.
