(* ===== verification/Launchers.v ===== *)
(** * Launchers: the launch strategies of the legacy mode

    internal/services: commands with verbs (launch_commands.go), JVMs
    (java_launch.go), MariaDB servers (mysqld_launch.go), the stats collectors
    (collectors.go), the preparation of postfix (mta_prepare.go), the hook that waits
    for the Advanced modules (advanced_hook.go), and the choice among the strategies
    (cli_process.go: startWithoutSystemd, stopWithoutSystemd). *)
From stdpp Require Import pretty.
From S2P Require Import Prelude Config Host ProcIdent Launch.
Open Scope Z_scope.

(** [strings.ReplaceAll s old new], for [old] not empty. *)
Fixpoint replace_all (skip : nat) (old new s : string) : string :=
  match s with
  | EmptyString => ""
  | String c s' =>
      match skip with
      | S k => replace_all k old new s'
      | O => if String.prefix old s then new +:+ replace_all (String.length old - 1) old new s'
             else String c (replace_all 0 old new s')
      end
  end.

Section launchers.
Variables (H : Host) (p : paths).
Variable noRewrite : bool.
Variable reg : Registry.

Definition running_pid (ctx : Ctx) (def : ServiceDef) : M Z := runningPID H (S (size reg)) reg ctx def.

(** ** launch_commands.go *)
Definition controlCommand (def : ServiceDef) (verb : list string) : M RunResult :=
  if NeedsRoot def then Run H sudoBin ("-n" :: BinaryPath def :: verb) else Run H (BinaryPath def) verb.

Definition run_ok (r : RunResult) : bool := match r with RunOk _ => true | _ => false end.

Definition commandRunning (def : ServiceDef) (spec : CommandSpec) : M bool :=
  match cs_Status spec with
  | None => mret false
  | Some verb => r ← controlCommand def verb; mret (run_ok r)
  end.

Definition startCommands (ctx : Ctx) (def : ServiceDef) (spec : CommandSpec) : M (option Err) :=
  running ← commandRunning def spec;
  if (running : bool) then mret None
  else
    e ← runSteps H noRewrite ctx (cs_Prepare spec);
    match e with
    | Some e => mret (Some e)
    | None =>
        r ← controlCommand def (default [] (cs_Start spec));
        mret (if run_ok r then None else Some (Wrap (BinaryPath def +:+ " start") (Msg "run")))
    end.

Definition stopCommands (ctx : Ctx) (def : ServiceDef) (spec : CommandSpec) (stop : list string) : M (option Err) :=
  r ← controlCommand def stop;
  if run_ok r then mret None
  else
    let failed := Some (Wrap (BinaryPath def +:+ " stop") (Msg "run")) in
    match cs_Status spec with
    | None => mret failed
    | Some _ =>
        running ← commandRunning def spec;
        if (running : bool) then mret failed
        else pid ← running_pid ctx def; mret (if pid =? 0 then None else failed)
    end.

(** ** java_launch.go *)
Definition javaBinary (lc : gmap string string) : M (string + Err) :=
  let javaHome := first_set [lc_get lc "mailboxd_java_home"; lc_get lc "zimbra_java_home"; p_common p +:+ "/lib/jvm/java"] in
  let javaBin := javaHome +:+ "/bin/java" in
  there ← exists_ H javaBin;
  mret (if (there : bool) then inl javaBin else inr (Wrap ("java binary not found at " +:+ javaBin) (Msg "stat"))).

Definition javaPreviewArgs : list string := ["--enable-preview"; "--enable-native-access=ALL-UNNAMED"].

Definition withoutPreviewArgs (opts : list string) : list string :=
  List.filter (λ o, negb (String.eqb o "--enable-preview" || HasPrefix o "--enable-native-access=")) opts.

Definition mailboxMainClass : string := "com.zextras.mailbox.Mailbox".
Definition milterMainClass : string := "com.zimbra.cs.milter.MilterServer".

(** [opt] is appended unless the options already mention [mark]. *)
Definition add_opt (opts mark opt : string) : string :=
  if Contains opts mark then opts else TrimSpace (opts +:+ " " +:+ opt).

Definition mailboxJavaArgs (lc : gmap string string) : list string :=
  let heap := first_set [lc_get lc "mailboxd_java_heap_size"; "512"] in
  let gclog := "-Xlog:gc*=info,safepoint=info:file=" +:+ p_log p +:+ "/gc.log:time:filecount=20,filesize=10m" in
  let opts := TrimSpace (replace_all 0 gclog "" (lc_get lc "mailboxd_java_options")) in
  let opts := add_opt opts "Xss" ("-Xss" +:+ first_set [lc_get lc "mailboxd_thread_stack_size"; "256k"]) in
  let opts := add_opt opts "sun.net.inetaddr.ttl"
                ("-Dsun.net.inetaddr.ttl=" +:+ first_set [lc_get lc "networkaddress_cache_ttl"; "60"]) in
  let log4j := lc_get lc "zimbra_log4j_properties" in
  let opts := if String.eqb log4j "" then opts else add_opt opts "log4j" ("-Dlog4j.configurationFile=" +:+ log4j) in
  javaPreviewArgs ++ ["-Dfile.encoding=UTF-8"] ++ withoutPreviewArgs (Fields opts) ++
  ["-Xms" +:+ heap +:+ "m"; "-Xmx" +:+ heap +:+ "m"; "-Djava.io.tmpdir=" +:+ p_mailboxd p +:+ "/work";
   "-Djava.library.path=" +:+ p_lib p; "-Dzimbra.config=" +:+ p_conf p +:+ "/localconfig.xml";
   "-cp"; p_mailbox p +:+ "/jars/mailbox.jar:" +:+ p_mailbox p +:+ "/jars/*"; mailboxMainClass].

Definition milterJavaArgs (lc : gmap string string) : list string :=
  let javaOpts := first_set [lc_get lc "zimbra_zmjava_options";
    "-Xmx256m -Dhttps.protocols=TLSv1.2,TLSv1.3 -Djdk.tls.client.protocols=TLSv1.2,TLSv1.3 -Djava.net.preferIPv4Stack=true"] in
  let javaLibPath := first_set [lc_get lc "zimbra_zmjava_java_library_path"; p_base p +:+ "/lib"] in
  javaPreviewArgs ++ ["-client"] ++ withoutPreviewArgs (Fields javaOpts) ++
  ["-Dzimbra.home=" +:+ p_base p; "-Djava.library.path=" +:+ javaLibPath;
   "-classpath"; p_mailbox p +:+ "/jars/*:" +:+ p_conf p;
   "-Dlog4j.configurationFile=file:" +:+ p_conf p +:+ "/milter.log4j.properties";
   "-Dzimbra.config=" +:+ p_conf p +:+ "/localconfig.xml"; milterMainClass].

Definition startJavaDetached (label javaBin logFile : string) (args : list string) : M (option Err) :=
  opened ← OpenFile H logFile;
  if negb opened then mret (Some (Wrap ("failed to open " +:+ logFile) (Msg "open")))
  else
    proc ← Start H javaBin args;
    mret (match proc with Some _ => None | None => Some (Wrap ("failed to start " +:+ label) (Msg "start")) end).

Definition touch (file : string) : M unit :=
  r ← Stat H file;
  match r with StatMissing => OpenFile H file ≫= λ _, mret tt | _ => mret tt end.

Definition startJava (def : ServiceDef) (spec : JavaSpec) : M (option Err) :=
  lc ← loadConfig H;
  match lc with
  | None => mret (Some (Msg "failed to load localconfig"))
  | Some lc =>
      b ← javaBinary lc;
      match b with
      | inr e => mret (Some e)
      | inl javaBin =>
          for_each (λ dir, MkdirAll H dir ≫= λ _, mret tt) (j_Mkdirs spec) ≫= λ _,
          for_each touch (j_Touch spec) ≫= λ _,
          e ← startJavaDetached (j_Label spec) javaBin (j_LogFile spec) (j_Args spec lc);
          match e with Some e => mret (Some e) | None => awaitReady H def false end
      end
  end.

(** ** mysqld_launch.go *)
Definition spawnMysqldSafe (name defaultsFile errlogFile pidfile : string) : M (option Err) :=
  if String.eqb defaultsFile "" then mret (Some (Msg (name +:+ ": defaults file path not set in localconfig")))
  else
    running ← isRunningByPidFile H pidfile;
    match running with
    | Some true => mret None
    | _ =>
        let args := ["--defaults-file=" +:+ defaultsFile; "--external-locking"] ++
                    (if String.eqb errlogFile "" then [] else ["--log-error=" +:+ errlogFile]) ++
                    ["--malloc-lib=" +:+ p_common p +:+ "/lib/libjemalloc.so"; "--ledir=" +:+ p_common p +:+ "/sbin"] in
        opened ← OpenFile H (p_log p +:+ "/mysqld_safe_" +:+ name +:+ ".out");
        if negb opened then mret (Some (Wrap (name +:+ ": open log file") (Msg "open")))
        else
          proc ← Start H (p_common p +:+ "/bin/mysqld_safe") args;
          mret (match proc with Some _ => None | None => Some (Wrap (name +:+ ": spawn mysqld_safe") (Msg "start")) end)
    end.

Definition is_active (active : option (M bool)) : M bool := match active with None => mret true | Some m => m end.

Definition startMysqld (def : ServiceDef) (spec : MysqldSpec) : M (option Err) :=
  active ← is_active (my_Active spec);
  if negb active then mret None
  else
    lc ← loadConfig H;
    match lc with
    | None => mret (Some (Msg "load localconfig"))
    | Some lc =>
        let defaults := lc_get lc (my_DefaultsKey spec) in
        if String.eqb defaults "" && my_OptionalDefaults spec then mret None
        else spawnMysqldSafe (Name def) defaults (lc_get lc (my_ErrlogKey spec)) (PidFile def)
    end.

Definition mysql_timeout (lc : option (gmap string string)) : Z :=
  match lc ≫= λ lc, Atoi (TrimSpace (lc_get lc "zimbra_mysql_shutdown_timeout")) with
  | Some secs => if 0 <? secs then secs * 1000 else 60000
  | None => 60000
  end.

Definition stopMysqld (ctx : Ctx) (def : ServiceDef) : M (option Err) :=
  pid ← running_pid ctx def;
  if pid =? 0 then Remove H (PidFile def) ≫= λ _, mret None
  else
    lc ← loadConfig H;
    signalPID H pid SIGTERM ≫= λ _,
    r ← pollUntilExit H pid (mysql_timeout lc) 1000;
    match r with
    | pollExited => Remove H (PidFile def) ≫= λ _, mret None
    | pollCancelled => mret (Some (Wrap (Name def +:+ " still running after SIGTERM; wait interrupted") (Msg "context")))
    | pollTimedOut => mret (Some (Msg (Name def +:+ " still running after SIGTERM; not forcing termination")))
    end.

Definition stopMysqldService (ctx : Ctx) (def : ServiceDef) (spec : MysqldSpec) : M (option Err) :=
  active ← is_active (my_Active spec);
  if negb active then mret None else stopMysqld ctx def.

Definition innodbDisabled (engines : string) : bool :=
  match List.find (λ fields, match fields with f :: _ :: _ => String.eqb f "InnoDB" | _ => false end)
                  (map (SplitByte tab) (SplitByte newline engines)) with
  | Some (_ :: state :: _) => String.eqb (TrimSpace state) "DISABLED"
  | _ => false
  end.

Definition modifiedDBPages (status : string) : Z :=
  foldl (λ total line,
    if HasPrefix line "Modified db pages"
    then total + default 0 (Atoi (List.last (Fields line) ""))
    else total) 0 (SplitByte newline status).

Definition query (stmt : string) : M (option string) :=
  r ← Run H (p_bin p +:+ "/mysql") ["-u"; "zextras"; "-e"; stmt];
  mret (match r with RunOk out => Some out | _ => None end).

Fixpoint flush_loop (fuel : nat) (deadline : Z) : M unit :=
  match fuel with
  | O => λ s, (tt, set_deep s)
  | S fuel =>
      t ← Now H;
      if negb (t <? deadline) then mret tt
      else
        status ← query ("show engine innodb status" +:+ String backslash "G");
        match status with
        | None => mret tt
        | Some status =>
            if modifiedDBPages status =? 0 then mret tt
            else
              over ← Done H;
              if (over : bool) then mret tt else After H 1000 ≫= λ _, flush_loop fuel deadline
        end
  end.

(** [db]: the registry entry of appserver-db. *)
Definition flushAppserverDBDirtyPages (ctx : Ctx) (db : ServiceDef) : M unit :=
  pid ← running_pid ctx db;
  if pid =? 0 then mret tt
  else
    lc ← loadConfig H;
    match lc with
    | None => mret tt
    | Some lc =>
        if String.eqb (lc_get lc "zimbra_mysql_password") "" then mret tt
        else
          engines ← query "show engines;";
          if match engines with Some e => innodbDisabled e | None => false end then mret tt
          else
            r ← query "set global innodb_max_dirty_pages_pct=0;";
            match r with
            | None => mret tt
            | Some _ => t ← Now H; flush_loop 602 (t + 600000)
            end
    end.

Definition appserverDBFlushHook (db : ServiceDef) : Hook :=
  flushAppserverDBDirtyPages background db ≫= λ _, mret None.

(** ** collectors.go *)
Definition start_collector (cmd : string) : M bool :=
  match Fields cmd with
  | [] => mret false
  | binary :: args =>
      there ← exists_ H (p_libexec p +:+ "/" +:+ binary);
      if negb there then mret false
      else
        opened ← OpenFile H (p_log p +:+ "/" +:+ binary +:+ ".out");
        if negb opened then mret false
        else proc ← Start H (p_libexec p +:+ "/" +:+ binary) args; mret (bool_decide (is_Some proc))
  end.

Definition startCollectors (spec : CollectorSpec) : M (option Err) :=
  lc ← loadConfig H;
  match lc with
  | None => mret (Some (Msg "failed to load localconfig"))
  | Some lc =>
      let optional := omap (λ '(cmd, key), if String.eqb (lc_get lc key) "TRUE" then Some cmd else None) (co_Optional spec) in
      started ← filterM start_collector (co_Always spec ++ optional);
      mret (match started with [] => Some (Msg "no stats collectors started") | _ => None end)
  end.

Definition killStatsPidFile (ctx : Ctx) (pidPath processName : string) : M bool :=
  r ← ReadFile H pidPath;
  match r with
  | ReadOk data =>
      match Atoi (TrimSpace data) with
      | Some pid =>
          if pid <=? 0 then Remove H pidPath ≫= λ _, mret false
          else
            mine ← pidBelongsTo H ctx pid processName;
            if negb mine then Remove H pidPath ≫= λ _, mret true
            else killed ← killByPIDWithGroupAndSudo H pid; Remove H pidPath ≫= λ _, mret killed
      | None => Remove H pidPath ≫= λ _, mret false
      end
  | _ => mret false
  end.

Definition pid_files (entries : list (string * bool)) : list string :=
  map fst (List.filter (λ '(name, is_dir), negb is_dir && HasSuffix name ".pid") entries).

Definition stopCollectors (ctx : Ctx) (def : ServiceDef) : M (option Err) :=
  r ← ReadDir H (statsPidDir p);
  match r with
  | (None, false) => mret (Some (Wrap ("failed to read stats PID dir " +:+ statsPidDir p) (Msg "read")))
  | (entries, _) =>
      for_each (λ name, killStatsPidFile ctx (statsPidDir p +:+ "/" +:+ name) (ProcessName def) ≫= λ _, mret tt)
        (pid_files (default [] entries)) ≫= λ _,
      killProcess H (ProcessName def) ≫= λ _, mret None
  end.

Definition readStatsPid (pidPath : string) : M (option Z) :=
  r ← ReadFile H pidPath;
  mret (match r with
        | ReadOk data => pid ← Atoi (TrimSpace data); if pid <=? 0 then None else Some pid
        | _ => None
        end).

Definition hupCollector (pid : Z) : M bool :=
  alive ← processAlive H pid;
  if negb alive then mret false
  else
    r ← Signal H pid SIGHUP;
    match r with
    | SigOk => mret true
    | SigPerm => sudoKill H pid "HUP" false ≫= λ _, mret true
    | _ => mret false
    end.

(** [SignalReport]: the pids signaled and those not running. *)
Definition rotateCollectors : M ((list Z * list Z) * option Err) :=
  r ← ReadDir H (statsPidDir p);
  match r with
  | (None, false) => mret (([], []), Some (Wrap ("read stats PID dir " +:+ statsPidDir p) (Msg "read")))
  | (entries, _) =>
      rows ← collect (λ name,
        pid ← readStatsPid (statsPidDir p +:+ "/" +:+ name);
        match pid with None => mret None | Some pid => ok ← hupCollector pid; mret (Some (pid, ok : bool)) end)
        (pid_files (default [] entries));
      let pids (b : bool) := omap (λ '(pid, ok), if eqb ok b then Some pid else None) rows in
      mret ((pids true, pids false), match rows with [] => Some ErrNoStatsPidFiles | _ => None end)
  end.

(** ** cli_process.go: the choice *)
Definition startWithoutSystemd (ctx : Ctx) (name : string) (def : ServiceDef) : M (option Err) :=
  match CustomStart def, Java def, Mysqld def, Commands def, Collectors def, Direct def with
  | Some h, _, _, _, _, _ => h
  | None, Some j, _, _, _, _ => startJava def j
  | None, None, Some m, _, _, _ => startMysqld def m
  | None, None, None, Some c, _, _ => startCommands ctx def c
  | None, None, None, None, Some c, _ => startCollectors c
  | None, None, None, None, None, Some d => startDaemon H p noRewrite ctx name def d
  | None, None, None, None, None, None =>
      if negb (String.eqb (BinaryPath def) "") then startDirect H p name def
      else if negb (String.eqb (ProcessName def) "") then mret None
      else mret (Some (Msg ("cannot start " +:+ name +:+ " in legacy mode: no direct launcher registered")))
  end.

(** The observer that waits for STOPPING=1 beside the kill only logs. *)
Definition stopWithoutSystemd (ctx : Ctx) (name : string) (def : ServiceDef) : M (option Err) :=
  match CustomStop def, Mysqld def, Commands def ≫= cs_Stop, Collectors def with
  | Some h, _, _, _ => h
  | None, Some m, _, _ => stopMysqldService ctx def m
  | None, None, Some stop, _ =>
      match Commands def with Some spec => stopCommands ctx def spec stop | None => mret None end
  | None, None, None, Some _ => stopCollectors ctx def
  | None, None, None, None =>
      if (0 <? GracefulStop def) && negb (String.eqb (PidFile def) "")
      then gracefulStopViaPidfile H ctx (PidFile def) name (ProcessName def) (GracefulStop def)
      else if String.eqb (ProcessName def) ""
      then mret (Some (Msg ("cannot stop " +:+ name +:+ " in legacy mode: no ProcessName registered")))
      else killAll H def
  end.
End launchers.
