(* ===== verification/Controller.v ===== *)
(** * Controller: the lifecycle of the services on a host

    internal/services/cli.go with the parts of cli_process.go, launch_commands.go,
    systemd_restart.go, signals.go and registry.go it stands on: start, stop,
    restart, reload, status, refresh and rotate of a service, by systemctl on a
    systemd host and by the launchers of [Launchers] otherwise.  The recursions
    along members, wants and dependencies take fuel; running out of it is recorded
    in [cl_deep]. *)
From stdpp Require Import pretty.
From S2P Require Import Prelude Config Host ProcIdent Launch Launchers.
Open Scope Z_scope.

Definition systemctlBin : string := "/usr/bin/systemctl".

(** ** registry.go: names *)
Definition ServiceAliases : gmap string string := list_to_map
  [("mailboxd", "mailbox"); ("mysql", "appserver-db"); ("mariadb", "appserver-db"); ("service", "store");
   ("zmconfigd", "configd"); ("directory-server", "ldap"); ("directory", "ldap"); ("config-service", "configd")].

Definition lookup_service (reg : Registry) (name : string) : option ServiceDef :=
  match reg !! name with
  | Some def => Some def
  | None => canonical ← ServiceAliases !! name; reg !! canonical
  end.

Definition unknownService (name : string) : Err := Msg ("unknown service: " +:+ name).

Definition WithNoRewriteContext (ctx : Ctx) : Ctx := {| cx_norewrite := true; cx_snapshot := cx_snapshot ctx |}.

Definition stopOrder (def : ServiceDef) (members : list string) : list string :=
  if StopMembersForward def then members else rev members.

Fixpoint is_exit_error (e : Err) : bool :=
  match e with Wrap _ e => is_exit_error e | ExitError _ => true | _ => false end.
Fixpoint is_not_booted (e : Err) : bool :=
  match e with Wrap _ e => is_not_booted e | ErrSystemdNotBooted => true | _ => false end.

Section controller.
Variables (H : Host) (p : paths).
Variable noRewrite : bool.
Variable reg : Registry.

Definition LookupService (name : string) : option ServiceDef := lookup_service reg name.

Definition too_deep {A} (a : A) : M A := λ s, (a, set_deep s).

(** ** Enabled or not *)
Definition idleWhenDisabled (def : ServiceDef) : M bool :=
  match EnableCheck def with
  | Some check => if IdleWhenDisabled def then b ← check; mret (negb b) else mret false
  | None => mret false
  end.

Definition ServiceDisabled (name : string) : M bool :=
  match LookupService name with Some def => idleWhenDisabled def | None => mret false end.

Definition isDepEnabled (dep : string) : M bool :=
  match LookupService dep with
  | None => mret false
  | Some def => match EnableCheck def with Some check => check | None => mret true end
  end.

Definition IsCustomEnabled (name : string) : M bool :=
  match LookupService name ≫= EnableCheck with Some check => check | None => mret false end.

Definition applicableMembers (def : ServiceDef) : M (list string) :=
  filterM (λ m, match MemberApplies def with None => mret true | Some f => f m end) (Members def).

(** ** systemctl *)
Definition Systemctl (action unit : string) : M (option Err) :=
  booted ← IsBooted H;
  if negb booted then mret (Some ErrSystemdNotBooted)
  else
    r ← Run H systemctlBin [action; unit];
    mret (match r with
          | RunOk _ => None
          | RunExit out => Some (Wrap (action +:+ " " +:+ unit) (ExitError out))
          | RunFailed => Some (Wrap (action +:+ " " +:+ unit) (Msg "systemctl"))
          end).

Fixpoint systemdUnitsActive (units : list string) : M (bool * option Err) :=
  match units with
  | [] => mret (true, None)
  | unit :: units =>
      e ← Systemctl "is-active" unit;
      match e with
      | None => systemdUnitsActive units
      | Some e =>
          mret (false, if is_exit_error e || is_not_booted e then None else Some (Wrap ("systemctl is-active " +:+ unit) e))
      end
  end.

(** [systemctl action] of each unit, up to the first failure. *)
Fixpoint systemctl_units (action : string) (units : list string) : M (option Err) :=
  match units with
  | [] => mret None
  | unit :: units =>
      e ← Systemctl action unit;
      match e with
      | Some e => mret (Some (Wrap ("failed to " +:+ action +:+ " (" +:+ unit +:+ ")") e))
      | None => systemctl_units action units
      end
  end.

Definition startService (ctx : Ctx) (name : string) (def : ServiceDef) : M (option Err) :=
  if ExternallyManaged def then mret None
  else
    systemd ← IsSystemdMode H;
    if (systemd : bool) then systemctl_units "start" (SystemdUnits def)
    else startWithoutSystemd H p noRewrite ctx name def.

Definition stopService (ctx : Ctx) (name : string) (def : ServiceDef) : M (option Err) :=
  if ExternallyManaged def then mret None
  else
    systemd ← IsSystemdMode H;
    if (systemd : bool) then systemctl_units "stop" (rev (SystemdUnits def))
    else stopWithoutSystemd H p reg ctx name def.

Definition ServiceTryReloadOrRestart (name : string) : M (option Err) :=
  match LookupService name with
  | None => mret (Some (unknownService name))
  | Some def =>
      if ExternallyManaged def then mret None
      else match SystemdUnits def with
           | [] => mret (Some (Msg ("service " +:+ name +:+ " has no systemd unit")))
           | units =>
               booted ← IsBooted H;
               if negb booted then mret (Some ErrSystemdNotBooted)
               else
                 r ← Run H systemctlBin ("try-reload-or-restart" :: units);
                 mret (if run_ok r then None else Some (Wrap ("try-reload-or-restart " +:+ Join units " ") (Msg "systemctl")))
           end
  end.

(** ** Status *)
Definition RunningPID (ctx : Ctx) (def : ServiceDef) : M Z := running_pid H reg ctx def.

Fixpoint ServiceStatus (fuel : nat) (ctx : Ctx) (name : string) : M (bool * option Err) :=
  match fuel with
  | O => too_deep (false, None)
  | S fuel =>
      match LookupService name with
      | None => mret (false, Some (unknownService name))
      | Some def =>
          match Members def with
          | _ :: _ =>
              members ← applicableMembers def;
              (fix all (l : list string) : M (bool * option Err) :=
                 match l with
                 | [] => mret (true, None)
                 | m :: l =>
                     r ← ServiceStatus fuel ctx m;
                     match r with (true, None) => all l | (_, e) => mret (false, e) end
                 end) members
          | [] =>
              systemd ← IsSystemdMode H;
              if (systemd : bool) || UseSystemdForStatus def then systemdUnitsActive (SystemdUnits def)
              else
                pid ← RunningPID ctx def;
                b ← (if 0 <? pid then companionsRunning H ctx def else mret false);
                mret (b : bool, None)
          end
      end
  end.

Definition depth : nat := S (size reg).

Definition Status (ctx : Ctx) (name : string) : M (bool * option Err) := ServiceStatus depth ctx name.

Definition NotRunningMembers (ctx : Ctx) (def : ServiceDef) : M (list string) :=
  members ← applicableMembers def;
  collect (λ m, r ← Status ctx m;
                mret (match r with
                      | (false, None) => DisplayName <$> LookupService m
                      | _ => None
                      end)) members.

(** ** Configuration rewrites *)
Definition rewriteSections (sections : list string) : M (option Err) :=
  there ← exists_ H (configrewrite p);
  if (there : bool) then
    r ← Run H (configrewrite p) sections; mret (if run_ok r then None else Some (Wrap (configrewrite p) (Msg "run")))
  else ok ← Net H ("REWRITE " +:+ Join sections " "); mret (probe_error "configd REWRITE" ok).

Definition rewriteConfigs (ctx : Ctx) (def : ServiceDef) : M unit :=
  if rewriteSkipped noRewrite ctx || bool_decide (ConfigRewrite def = []) then mret tt
  else rewriteSections (ConfigRewrite def) ≫= λ _, mret tt.

(** The sections of the services and of their members, each once, in order. *)
Fixpoint collect_sections (fuel : nat) (acc : gset string * list string) (name : string) : gset string * list string :=
  match fuel with
  | O => acc
  | S fuel =>
      match LookupService name with
      | None => acc
      | Some def =>
          let '(seen, sections) := acc in
          if bool_decide (Name def ∈ seen) then acc
          else foldl (collect_sections fuel) ({[Name def]} ∪ seen, append_uniques sections (ConfigRewrite def)) (Members def)
      end
  end.

Definition RewriteConfigsFor (names : list string) : M (option Err) :=
  match (foldl (collect_sections depth) (∅, []) names).2 with
  | [] => mret None
  | sections => rewriteSections sections
  end.

(** ** Hooks *)
Fixpoint runPreStartHooks (name : string) (hooks : list Hook) : M (option Err) :=
  match hooks with
  | [] => mret None
  | h :: hooks =>
      e ← h;
      match e with
      | Some e => mret (Some (Wrap ("pre-start hook failed for " +:+ name) e))
      | None => runPreStartHooks name hooks
      end
  end.

Definition runPreStart (ctx : Ctx) (name : string) (def : ServiceDef) : M (option Err) :=
  e ← runSteps H noRewrite ctx (Setup def);
  match e with
  | Some e => mret (Some (Wrap ("pre-start hook failed for " +:+ name) e))
  | None => runPreStartHooks name (PreStart def)
  end.

(** Failing hooks after a start and before a stop are only logged. *)
Definition run_hooks (hooks : list Hook) : M unit := for_each (λ h, (h : Hook) ≫= λ _, mret tt) hooks.

(** [rec] for each member, in order, going on past failures. *)
Definition each_member (rec : string → M (option Err)) (members : list string) : M (option Err) :=
  errs ← collect (λ m, e ← rec m; mret (wrapped m e)) members; mret (joined errs).

(** ** Start *)
Section start.
Variable rec : Ctx → string → M (option Err).

Definition startWanted (ctx : Ctx) (def : ServiceDef) : M unit :=
  for_each (λ want, rec ctx want ≫= λ _, mret tt) (Wants def).

Fixpoint start_dependencies (ctx : Ctx) (deps : list string) : M (option Err) :=
  match deps with
  | [] => mret None
  | dep :: deps =>
      enabled ← isDepEnabled dep;
      if negb enabled then start_dependencies ctx deps
      else
        e ← rec ctx dep;
        match e with
        | Some e => mret (Some (Wrap ("failed to start dependency " +:+ dep) e))
        | None => start_dependencies ctx deps
        end
  end.

Definition startEnabledDependencies (ctx : Ctx) (def : ServiceDef) : M (option Err) :=
  start_dependencies ctx (Dependencies def).

Definition startComposite (ctx : Ctx) (def : ServiceDef) : M (option Err) :=
  rewriteConfigs ctx def ≫= λ _,
  let memberCtx := if ForceMembersNoRewrite def then WithNoRewriteContext ctx else ctx in
  members ← applicableMembers def;
  each_member (rec memberCtx) members.

(** The start proper, once the service is known to be down. *)
Definition start_down (ctx : Ctx) (name : string) (def : ServiceDef) : M (option Err) :=
  startWanted ctx def ≫= λ _,
  e ← startEnabledDependencies ctx def;
  match e with
  | Some e => mret (Some e)
  | None =>
      rewriteConfigs ctx def ≫= λ _,
      e ← runPreStart ctx name def;
      match e with
      | Some e => mret (Some e)
      | None =>
          e ← startService ctx name def;
          match e with
          | Some e => mret (Some (Wrap ("start service " +:+ name) e))
          | None => run_hooks (PostStart def) ≫= λ _, mret None
          end
      end
  end.
End start.

Fixpoint ServiceStart (fuel : nat) (ctx : Ctx) (name : string) : M (option Err) :=
  match fuel with
  | O => too_deep (Some (Msg name))
  | S fuel =>
      match LookupService name with
      | None => mret (Some (unknownService name))
      | Some def =>
          idle ← idleWhenDisabled def;
          if (idle : bool) then mret None
          else match Members def with
               | _ :: _ => startComposite (ServiceStart fuel) ctx def
               | [] =>
                   r ← Status ctx name;
                   if fst (r : bool * option Err) then RunningPID ctx def ≫= λ _, mret None
                   else start_down (ServiceStart fuel) ctx name def
               end
      end
  end.

(** The start of a unit's ExecStart. *)
Fixpoint ServiceStartSystemd (fuel : nat) (ctx : Ctx) (name : string) : M (option Err) :=
  match fuel with
  | O => too_deep (Some (Msg name))
  | S fuel =>
      match LookupService name with
      | None => mret (Some (unknownService name))
      | Some def =>
          idle ← idleWhenDisabled def;
          if (idle : bool) then mret None
          else match Members def with
               | _ :: _ => members ← applicableMembers def; each_member (ServiceStartSystemd fuel ctx) members
               | [] =>
                   e ← runPreStart ctx name def;
                   match e with
                   | Some e => mret (Some e)
                   | None =>
                       e ← startWithoutSystemd H p noRewrite ctx name def;
                       match e with
                       | Some e => mret (Some (Wrap ("start service " +:+ name) e))
                       | None => run_hooks (PostStart def) ≫= λ _, mret None
                       end
                   end
               end
      end
  end.

(** ** Stop *)
Definition stopComposite (rec : string → M (option Err)) (def : ServiceDef) : M (option Err) :=
  members ← applicableMembers def; each_member rec (stopOrder def members).

Fixpoint ServiceStop (fuel : nat) (ctx : Ctx) (name : string) : M (option Err) :=
  match fuel with
  | O => too_deep (Some (Msg name))
  | S fuel =>
      match LookupService name with
      | None => mret (Some (unknownService name))
      | Some def =>
          idle ← idleWhenDisabled def;
          if (idle : bool) then mret None
          else match Members def with
               | _ :: _ => stopComposite (ServiceStop fuel ctx) def
               | [] =>
                   run_hooks (PreStop def) ≫= λ _,
                   e ← stopService ctx name def;
                   match e with
                   | Some e => mret (Some (Wrap ("stop service " +:+ name) e))
                   | None =>
                       for_each (λ dep,
                         enabled ← isDepEnabled dep;
                         if (enabled : bool) then ServiceStop fuel ctx dep ≫= λ _, mret tt else mret tt)
                         (rev (Dependencies def)) ≫= λ _, mret None
                   end
               end
      end
  end.

Fixpoint ServiceStopSystemd (fuel : nat) (ctx : Ctx) (name : string) : M (option Err) :=
  match fuel with
  | O => too_deep (Some (Msg name))
  | S fuel =>
      match LookupService name with
      | None => mret (Some (unknownService name))
      | Some def =>
          idle ← idleWhenDisabled def;
          if (idle : bool) then mret None
          else match Members def with
               | _ :: _ => stopComposite (ServiceStopSystemd fuel ctx) def
               | [] =>
                   run_hooks (PreStop def) ≫= λ _,
                   e ← stopWithoutSystemd H p reg ctx name def;
                   mret (wrapped ("stop service " +:+ name) e)
               end
      end
  end.

(** ** Restart and reload *)
Definition reloadCommands (restart : string → M (option Err)) (def : ServiceDef) (spec : CommandSpec) (verb : list string)
    : M (option Err) :=
  (if cs_ReloadRestartsDependencies spec
   then for_each (λ dep,
          enabled ← isDepEnabled dep;
          if (enabled : bool) then restart dep ≫= λ _, mret tt else mret tt) (Dependencies def)
   else mret tt) ≫= λ _,
  r ← controlCommand H def verb;
  mret (if run_ok r then None else Some (Wrap (BinaryPath def +:+ " " +:+ Join verb " ") (Msg "run"))).

Definition stop_then_start (ctx : Ctx) (name : string) (def : ServiceDef) : M (option Err) :=
  e ← stopService ctx name def;
  match e with
  | Some e => mret (Some (Wrap ("failed to stop " +:+ name +:+ " during reload fallback") e))
  | None => startService ctx name def
  end.

Definition reloadWithoutSystemd (restart : string → M (option Err)) (ctx : Ctx) (name : string) (def : ServiceDef)
    : M (option Err) :=
  match Commands def with
  | Some spec =>
      match cs_Reload spec with
      | Some verb => reloadCommands restart def spec verb
      | None => stop_then_start ctx name def
      end
  | None => stop_then_start ctx name def
  end.

Fixpoint reload_units (ctx : Ctx) (name : string) (def : ServiceDef) (units : list string) : M (option Err) :=
  match units with
  | [] => mret None
  | unit :: units =>
      e ← Systemctl "reload" unit;
      match e with Some _ => stop_then_start ctx name def | None => reload_units ctx name def units end
  end.

Fixpoint ServiceRestart (fuel : nat) (ctx : Ctx) (name : string) : M (option Err) :=
  match fuel with
  | O => too_deep (Some (Msg name))
  | S fuel =>
      match LookupService name with
      | None => mret (Some (unknownService name))
      | Some def =>
          if match Commands def with Some spec => cs_RestartAsReload spec | None => false end
          then rewriteConfigs ctx def ≫= λ _, ServiceReload fuel ctx name
          else
            ServiceStop (S fuel) ctx name ≫= λ _, ServiceStart (S fuel) ctx name
      end
  end
with ServiceReload (fuel : nat) (ctx : Ctx) (name : string) : M (option Err) :=
  match fuel with
  | O => too_deep (Some (Msg name))
  | S fuel =>
      match LookupService name with
      | None => mret (Some (unknownService name))
      | Some def =>
          if ExternallyManaged def then mret None
          else match Members def with
               | _ :: _ => ServiceRestart fuel ctx name
               | [] =>
                   systemd ← IsSystemdMode H;
                   if (systemd : bool) then reload_units ctx name def (SystemdUnits def)
                   else reloadWithoutSystemd (ServiceRestart fuel ctx) ctx name def
               end
      end
  end.

(** ** signals.go *)
Definition ServiceRefresh (ctx : Ctx) (name : string) : M (list Z * option Err) :=
  match LookupService name with
  | None => mret ([], Some (unknownService name))
  | Some def =>
      match RefreshSignal def with
      | None => mret ([], Some (Wrap (Name def +:+ " has no refresh") ErrUnsupportedVerb))
      | Some sig =>
          pid ← RunningPID ctx def;
          if pid =? 0 then mret ([], None)
          else
            r ← Signal H pid sig;
            mret (match r with
                  | SigOk => ([pid], None)
                  | _ => ([], Some (Wrap ("signal " +:+ Name def) (Msg "signal")))
                  end)
      end
  end.

Definition ServiceRotate (name : string) : M ((list Z * list Z) * option Err) :=
  match LookupService name with
  | None => mret (([], []), Some (unknownService name))
  | Some def =>
      match Collectors def with
      | None => mret (([], []), Some (Wrap (Name def +:+ " has no rotate") ErrUnsupportedVerb))
      | Some _ => rotateCollectors H p
      end
  end.

Definition RegenerateResolvers : M (option Err) :=
  let resolverctl := p_bin p +:+ "/zmresolverctl" in
  there ← exists_ H resolverctl;
  if negb there then mret None
  else r ← Run H resolverctl []; mret (if run_ok r then None else Some (Wrap resolverctl (Msg "run"))).
End controller.
