(* ===== verification/Registry.v ===== *)
(** * Registry: the services of a Carbonio host

    internal/services: the registry (registry.go) with its enable checks and hooks
    (mta_prepare.go, advanced_hook.go, mysqld_launch.go), the discovery of the
    services enabled on the host (discovery.go), and the listings in start order. *)
From stdpp Require Import pretty.
From S2P Require Import Prelude Config Services Host ProcIdent Launch Launchers Controller.
Open Scope Z_scope.

Definition ldapServiceNames : gmap string string := {["mailbox" := "store"]}.

Definition MapLDAPServiceToRegistry (ldapName : string) : string :=
  match ldapServiceNames !! ldapName with
  | Some canonical => canonical
  | None => default ldapName (ServiceAliases !! ldapName)
  end.

Definition legacyServiceNames : list string := ["zimlet"; "zimbraAdmin"; "zimbra"].

Section registry.
Variables (H : Host) (p : paths).

(** ** discovery.go *)
Definition readCache : M (list string + Err) :=
  r ← ReadFile H (cacheFile p);
  mret (match r with
        | ReadOk data =>
            inl (List.filter (λ l, negb (String.eqb l "")) (map TrimSpace (SplitByte newline (TrimSpace data))))
        | _ => inr (Msg "cannot determine enabled services: LDAP unreachable and cache missing")
        end).

Definition writeCache (services : list string) : M unit :=
  let nl := String newline "" in WriteFile H (cacheFile p) (Join services nl +:+ nl) ≫= λ _, mret tt.

(** What is made of the directory's answer. *)
Definition enabled_services (raw : list string) : list string :=
  let services := List.filter (λ s, negb (bool_decide (s ∈ legacyServiceNames))) raw in
  if existsb (λ s, String.eqb s "zmconfigd" || String.eqb s "configd") services then services
  else services ++ ["zmconfigd"].

(** The directory's answer is [None] when it cannot be asked, for want of a URL, a
    connection or an answer. *)
Definition DiscoverEnabledServices : M (list string + Err) :=
  lc ← loadConfig H;
  match lc with
  | None => mret (inr (Msg "failed to load localconfig"))
  | Some lc =>
      if String.eqb (lc_get lc "zimbra_server_hostname") "" then
        mret (inr (Msg "zimbra_server_hostname not set in localconfig"))
      else
        raw ← Directory H;
        match raw with
        | None => readCache
        | Some raw => writeCache (enabled_services raw) ≫= λ _, mret (inl (enabled_services raw))
        end
  end.

Definition IsLDAPLocal : M bool :=
  lc ← loadConfig H;
  mret (match lc with
        | None => false
        | Some lc => Contains (lc_get lc "ldap_url") (lc_get lc "zimbra_server_hostname")
        end).

(** ** Enable checks *)
Definition milterEnabled : M bool :=
  r ← ReadFile H (p_conf p +:+ "/mta_milter_options");
  mret (match r with ReadOk data => Contains data "zimbraMilterServerEnabled=TRUE" | _ => false end).

Definition antispamDBEnabled : M bool :=
  lc ← loadConfig H;
  match lc with
  | None => mret false
  | Some lc =>
      if negb (IsTruthy (lc_get lc "antispam_mysql_enabled")) then mret false
      else
        let host := TrimSpace (lc_get lc "antispam_mysql_host") in
        if String.eqb host "" then mret false
        else if String.eqb host "127.0.0.1" || String.eqb host "localhost" then mret true
        else
          r ← Run H (p_bin p +:+ "/zmhostname") [];
          mret (match r with RunOk out => String.eqb host (TrimSpace out) | _ => false end)
  end.

Definition amavisd : string := p_common p +:+ "/sbin/amavisd".

Definition amavisMemberApplies (member : string) : M bool :=
  if negb (String.eqb member "amavis") then mret true else binaryInstalled H amavisd.

Definition antispamMemberApplies (member : string) : M bool :=
  if String.eqb member "antispam-db" then antispamDBEnabled else amavisMemberApplies member.

Definition antispamEnabled : M bool :=
  r ← DiscoverEnabledServices;
  mret (match r with inl enabled => bool_decide ("antispam" ∈ enabled) | inr _ => false end).

(** ** mta_prepare.go *)

(** [postfixAccountNameRe] *)
Definition account_name (s : string) : bool :=
  match s with
  | EmptyString => false
  | String c s' =>
      (in_range 97 122 c || (byte c =? 95)%N) &&
      chars (λ c, in_range 97 122 c || in_range 48 57 c || (byte c =? 95)%N || (byte c =? 45)%N) s'
  end.

Definition mainCf : string := p_common p +:+ "/conf/main.cf".

Definition bootstrapPostfixMainCf (lc : gmap string string) : M (option Err) :=
  r ← Stat H mainCf;
  match r with
  | StatOk => mret None
  | StatFailed => mret (Some (Wrap ("stat " +:+ mainCf) (Msg "stat")))
  | StatMissing =>
      let owner := TrimSpace (lc_get lc "postfix_mail_owner") in
      let group := TrimSpace (lc_get lc "postfix_setgid_group") in
      let set s := negb (String.eqb s "") in
      if (set owner || set group) && (negb (account_name owner) || negb (account_name group))
      then mret (Some (Msg "invalid postfix owner/group name"))
      else
        e ← sudoRun H "/usr/bin/touch" [mainCf];
        match e with
        | Some e => mret (Some (Wrap ("touch " +:+ mainCf) e))
        | None =>
            if negb (set owner) || negb (set group) then mret None
            else
              e ← sudoRun H (p_common p +:+ "/sbin/postconf") ["-e"; "mail_owner=" +:+ owner; "setgid_group=" +:+ group];
              mret (wrapped "postconf -e mail_owner/setgid_group" e)
        end
  end.

Definition prepareMainCf : Hook :=
  lc ← loadConfig H;
  match lc with
  | None => mret (Some (Msg "load localconfig"))
  | Some lc => e ← bootstrapPostfixMainCf lc; mret (wrapped "bootstrap main.cf" e)
  end.

Definition lines (l : list string) : string := foldr (λ line rest, line +:+ String newline rest) "" l.

Definition renderLDAPTable (ldapURL ldapPort startTLS bindPW query extra : string) : string :=
  lines ["server_host = " +:+ ldapURL; "server_port = " +:+ ldapPort; "search_base ="] +:+ query +:+
  lines ["version = 3"; "start_tls = " +:+ startTLS; "tls_ca_cert_dir = /opt/zextras/conf/ca"; "bind = yes";
         "bind_dn = uid=zmpostfix,cn=appaccts,cn=zimbra"; "bind_pw = " +:+ bindPW; "timeout = 30"] +:+ extra.

Definition ldap_tables : list (string * string * string) :=
  let en := "(zimbraMailStatus=enabled))" in
  [("ldap-vmm.cf", lines ["query_filter = (&(zimbraMailDeliveryAddress=%s)" +:+ en; "result_attribute = zimbraMailDeliveryAddress"], "");
   ("ldap-vmd.cf", lines ["query_filter = (&(zimbraDomainName=%s)(zimbraDomainType=local)" +:+ en; "result_attribute = zimbraDomainName"], "");
   ("ldap-vam.cf", lines ["query_filter = (&(|(zimbraMailDeliveryAddress=%s)(zimbraMailAlias=%s)(zimbraOldMailAddress=%s)(zimbraMailCatchAllAddress=%s))" +:+ en;
      "result_attribute = zimbraMailDeliveryAddress,zimbraMailForwardingAddress,zimbraPrefMailForwardingAddress,zimbraMailCatchAllForwardingAddress"],
      lines ["special_result_attribute = member"]);
   ("ldap-vad.cf", lines ["query_filter = (&(zimbraDomainName=%s)(zimbraDomainType=alias)" +:+ en; "result_attribute = zimbraDomainName"], "");
   ("ldap-canonical.cf", lines ["query_filter = (&(|(zimbraMailDeliveryAddress=%s)(zimbraMailAlias=%s)(zimbraMailCatchAllAddress=%s))" +:+ en;
      "result_attribute = zimbraMailCanonicalAddress,zimbraMailCatchAllCanonicalAddress"], "");
   ("ldap-transport.cf", lines ["query_filter = (&(|(zimbraMailDeliveryAddress=%s)(zimbraDomainName=%s))" +:+ en;
      "result_attribute = zimbraMailTransport"], "");
   ("ldap-slm.cf", lines ["query_filter = (&(|(uid=%s)(zimbraMailDeliveryAddress=%s)(zimbraMailAlias=%s)(zimbraMailCatchAllAddress=%s)(zimbraAllowFromAddress=%s))" +:+ en;
      "result_format = %u, %s";
      "result_attribute = uid,zimbraMailDeliveryAddress,zimbraMailForwardingAddress,zimbraPrefMailForwardingAddress,zimbraMailCatchAllForwardingAddress,zimbraMailAlias,zimbraAllowFromAddress"], "");
   ("ldap-splitdomain.cf", lines ["query_filter = (&(|(zimbraMailDeliveryAddress=%s)(zimbraMailAlias=%s)(zimbraMailCatchAllAddress=%s))" +:+ en;
      "result_attribute = zimbraMailDeliveryAddress,zimbraMailForwardingAddress,zimbraPrefMailForwardingAddress";
      "result_filter = OK"], "")].

Fixpoint write_tables (content : string → string → string) (tables : list (string * string * string)) : M (option Err) :=
  match tables with
  | [] => mret None
  | (name, query, extra) :: tables =>
      ok ← WriteFile H (p_conf p +:+ "/" +:+ name) (content query extra);
      if (ok : bool) then write_tables content tables else mret (Some (Wrap ("write " +:+ name) (Msg "write")))
  end.

Definition chgrpPostfixLDAPFiles : M unit :=
  gid ← LookupGID H "postfix";
  match gid with
  | None => mret tt
  | Some gid => for_each (λ '(name, _, _), Chown H (p_conf p +:+ "/" +:+ name) gid ≫= λ _, mret tt) ldap_tables
  end.

Definition writePostfixLDAPConfig (lc : gmap string string) : M (option Err) :=
  let ldapURL := TrimSpace (lc_get lc "ldap_url") in
  let ldapPort := TrimSpace (lc_get lc "ldap_port") in
  let startTLS := if IsTruthy (lc_get lc "ldap_starttls_supported") then "yes" else "no" in
  if String.eqb ldapURL "" || String.eqb ldapPort "" then mret (Some (Msg "ldap_url or ldap_port missing from localconfig"))
  else
    made ← MkdirAll H (p_conf p);
    if negb made then mret (Some (Wrap ("mkdir " +:+ p_conf p) (Msg "mkdir")))
    else
      e ← write_tables (renderLDAPTable ldapURL ldapPort startTLS (lc_get lc "ldap_postfix_password")) ldap_tables;
      match e with Some e => mret (Some e) | None => chgrpPostfixLDAPFiles ≫= λ _, mret None end.

Definition prepareLDAPTables : Hook :=
  lc ← loadConfig H;
  match lc with
  | None => mret (Some (Msg "load localconfig"))
  | Some lc => e ← writePostfixLDAPConfig lc; mret (wrapped "render ldap-*.cf" e)
  end.

(** ** advanced_hook.go *)
Definition advancedInstalled : M bool :=
  r ← ReadDir H (p_lib p +:+ "/ext/carbonio");
  mret (match r.1 with
        | None => false
        | Some entries => existsb (λ '(name, _), HasPrefix name "carbonio-advanced-" && HasSuffix name ".jar") entries
        end).

Fixpoint advanced_loop (attempts : nat) : M unit :=
  match attempts with
  | O => mret tt
  | S attempts =>
      running ← Net H "Advanced modules";
      if (running : bool) then mret tt
      else
        over ← Done H;
        if (over : bool) then mret tt else After H 2000 ≫= λ _, advanced_loop attempts
  end.

Definition MailboxAdvancedStatusHook : Hook :=
  installed ← advancedInstalled;
  if negb installed then mret None
  else
    lc ← loadConfig H;
    match lc with None => mret None | Some _ => advanced_loop 10 ≫= λ _, mret None end.

(** ** registry.go: [defaultRegistry] *)

Definition mailboxConfigRewrite : list string :=
  ["sasl"; "webxml"; "mailbox"; "service"; "zextras"; "zextrasAdmin"; "zimlet"].

Definition statsCollectors : CollectorSpec :=
  {| co_Always := ["zmstat-proc"; "zmstat-cpu"; "zmstat-vm"; "zmstat-io -x"; "zmstat-df"; "zmstat-io"; "zmstat-fd"; "zmstat-allprocs"];
     co_Optional := [("zmstat-mysql", "zmstat_mysql_enabled"); ("zmstat-nginx", "zmstat_nginx_enabled");
                     ("zmstat-mtaqueue", "zmstat_mtaqueue_enabled")] |}.

Definition cbpolicydDB : string := p_data p +:+ "/cbpolicyd/db/cbpolicyd.sqlitedb".
Definition amavisDir : string := p_data p +:+ "/amavisd".
Definition altermime : string := p_libexec p +:+ "/zmaltermimeconfig".

Definition plain_run (path : string) : RunStep :=
  {| rs_Path := path; rs_Args := []; rs_Sudo := false; rs_IfExists := ""; rs_SkipOnNoRewrite := false; rs_BestEffort := false |}.

Definition svc_memcached : ServiceDef :=
  {| Name := "memcached"; DisplayName := "memcached"; SystemdUnits := ["carbonio-memcached.service"];
     BinaryPath := p_common p +:+ "/bin/memcached";
     BinaryArgs := ["-d"; "-U"; "0"; "-l"; "127.0.1.1,127.0.0.1"; "-p"; "11211"]; Detached := false; LogFile := "";
     NeedsRoot := false; PidFile := ""; ProcessName := p_common p +:+ "/bin/memcached"; GracefulStop := 0;
     Launch.Dependencies := []; EnableCheck := None; Setup := []; PreStart := []; PostStart := []; PreStop := [];
     ConfigRewrite := []; UseSDNotify := false; CustomStart := None; CustomStop := None;
     UseSystemdForStatus := false; ExternallyManaged := false; Members := []; StopMembersForward := false;
     ForceMembersNoRewrite := false; MemberApplies := None; DetailMember := ""; Wants := []; Component := false;
     IdleWhenDisabled := false; Companions := []; RefreshSignal := None; ArgsFromConfig := None; Ready := ReadyNone;
     Java := None; Mysqld := None; Commands := None; Collectors := None; Direct := None; Heavy := false |}.

Definition svc_cbpolicyd : ServiceDef :=
  {| Name := "cbpolicyd"; DisplayName := "cbpolicyd"; SystemdUnits := ["carbonio-policyd.service"];
     BinaryPath := p_common p +:+ "/bin/cbpolicyd"; BinaryArgs := ["--config"; p_conf p +:+ "/cbpolicyd.conf"];
     Detached := false; LogFile := ""; NeedsRoot := false; PidFile := p_run p +:+ "/cbpolicyd.pid";
     ProcessName := p_common p +:+ "/bin/cbpolicyd"; GracefulStop := 0; Launch.Dependencies := [];
     EnableCheck := None;
     Setup := [{| st_Do := Mkdir [p_data p +:+ "/cbpolicyd/db"]; st_UnlessExists := cbpolicydDB |};
                {| st_Do := RunCmd (plain_run (p_libexec p +:+ "/zmcbpolicydinit")); st_UnlessExists := cbpolicydDB |}];
     PreStart := []; PostStart := []; PreStop := []; ConfigRewrite := ["cbpolicyd"]; UseSDNotify := false;
     CustomStart := None; CustomStop := None; UseSystemdForStatus := false; ExternallyManaged := false;
     Members := []; StopMembersForward := false; ForceMembersNoRewrite := false; MemberApplies := None;
     DetailMember := ""; Wants := []; Component := false; IdleWhenDisabled := false; Companions := [];
     RefreshSignal := None; ArgsFromConfig := None; Ready := ReadyNone; Java := None; Mysqld := None;
     Commands := None; Collectors := None; Direct := None; Heavy := false |}.

Definition svc_stats : ServiceDef :=
  {| Name := "stats"; DisplayName := "stats"; SystemdUnits := ["carbonio-stats.service"]; BinaryPath := "";
     BinaryArgs := []; Detached := false; LogFile := ""; NeedsRoot := false; PidFile := "";
     ProcessName := statsGlob p; GracefulStop := 0; Launch.Dependencies := []; EnableCheck := None; Setup := [];
     PreStart := []; PostStart := []; PreStop := []; ConfigRewrite := []; UseSDNotify := false; CustomStart := None;
     CustomStop := None; UseSystemdForStatus := false; ExternallyManaged := false; Members := [];
     StopMembersForward := false; ForceMembersNoRewrite := false; MemberApplies := None; DetailMember := "";
     Wants := []; Component := false; IdleWhenDisabled := false; Companions := []; RefreshSignal := None;
     ArgsFromConfig := None; Ready := ReadyNone; Java := None; Mysqld := None; Commands := None;
     Collectors := Some statsCollectors; Direct := None; Heavy := false |}.

Definition svc_opendkim : ServiceDef :=
  {| Name := "opendkim"; DisplayName := "opendkim"; SystemdUnits := ["carbonio-opendkim.service"];
     BinaryPath := p_common p +:+ "/sbin/opendkim";
     BinaryArgs := ["-f"; "-x"; p_conf p +:+ "/opendkim.conf"; "-u"; "zextras"]; Detached := false; LogFile := "";
     NeedsRoot := false; PidFile := p_run p +:+ "/opendkim.pid"; ProcessName := p_common p +:+ "/sbin/opendkim";
     GracefulStop := 0; Launch.Dependencies := []; EnableCheck := None; Setup := []; PreStart := []; PostStart := [];
     PreStop := []; ConfigRewrite := []; UseSDNotify := true; CustomStart := None; CustomStop := None;
     UseSystemdForStatus := false; ExternallyManaged := false; Members := []; StopMembersForward := false;
     ForceMembersNoRewrite := false; MemberApplies := None; DetailMember := ""; Wants := []; Component := false;
     IdleWhenDisabled := false; Companions := []; RefreshSignal := None; ArgsFromConfig := None; Ready := ReadyNone;
     Java := None; Mysqld := None; Commands := None; Collectors := None; Direct := None; Heavy := false |}.

Definition svc_freshclam : ServiceDef :=
  {| Name := "freshclam"; DisplayName := "freshclam"; SystemdUnits := ["carbonio-freshclam.service"];
     BinaryPath := p_common p +:+ "/bin/freshclam";
     BinaryArgs := ["--config-file=" +:+ p_conf p +:+ "/freshclam.conf"; "--quiet"; "-d"; "--checks=12"; "--foreground=true"];
     Detached := true; LogFile := ""; NeedsRoot := false; PidFile := p_run p +:+ "/freshclam.pid";
     ProcessName := p_common p +:+ "/bin/freshclam"; GracefulStop := 0; Launch.Dependencies := [];
     EnableCheck := None; Setup := []; PreStart := []; PostStart := []; PreStop := []; ConfigRewrite := [];
     UseSDNotify := true; CustomStart := None; CustomStop := None; UseSystemdForStatus := false;
     ExternallyManaged := false; Members := []; StopMembersForward := false; ForceMembersNoRewrite := false;
     MemberApplies := None; DetailMember := ""; Wants := []; Component := false; IdleWhenDisabled := false;
     Companions := []; RefreshSignal := None; ArgsFromConfig := None; Ready := ReadyNone; Java := None;
     Mysqld := None; Commands := None; Collectors := None; Direct := None; Heavy := false |}.

Definition svc_saslauthd : ServiceDef :=
  {| Name := "saslauthd"; DisplayName := "saslauthd"; SystemdUnits := ["carbonio-saslauthd.service"];
     BinaryPath := p_common p +:+ "/sbin/saslauthd"; BinaryArgs := ["-r"; "-a"; "zimbra"]; Detached := false;
     LogFile := ""; NeedsRoot := false; PidFile := p_run p +:+ "/saslauthd.pid";
     ProcessName := p_common p +:+ "/sbin/saslauthd"; GracefulStop := 0; Launch.Dependencies := [];
     EnableCheck := None; Setup := []; PreStart := []; PostStart := []; PreStop := []; ConfigRewrite := ["sasl"];
     UseSDNotify := false; CustomStart := None; CustomStop := None; UseSystemdForStatus := false;
     ExternallyManaged := false; Members := []; StopMembersForward := false; ForceMembersNoRewrite := false;
     MemberApplies := None; DetailMember := ""; Wants := []; Component := false; IdleWhenDisabled := false;
     Companions := []; RefreshSignal := None; ArgsFromConfig := None; Ready := ReadyNone; Java := None;
     Mysqld := None; Commands := None; Collectors := None; Direct := None; Heavy := false |}.

Definition svc_milter : ServiceDef :=
  {| Name := "milter"; DisplayName := "milter"; SystemdUnits := ["carbonio-milter.service"]; BinaryPath := "";
     BinaryArgs := []; Detached := false; LogFile := ""; NeedsRoot := false; PidFile := "";
     ProcessName := milterMainClass; GracefulStop := 0; Launch.Dependencies := [];
     EnableCheck := Some milterEnabled; Setup := []; PreStart := []; PostStart := []; PreStop := [];
     ConfigRewrite := []; UseSDNotify := false; CustomStart := None; CustomStop := None;
     UseSystemdForStatus := false; ExternallyManaged := false; Members := []; StopMembersForward := false;
     ForceMembersNoRewrite := false; MemberApplies := None; DetailMember := ""; Wants := []; Component := false;
     IdleWhenDisabled := false; Companions := []; RefreshSignal := Some SIGCONT; ArgsFromConfig := None;
     Ready := ReadyNone;
     Java := Some {| j_Label := "milter"; j_LogFile := p_log p +:+ "/milter.out"; j_Args := milterJavaArgs p; j_Mkdirs := []; j_Touch := [] |};
     Mysqld := None; Commands := None; Collectors := None; Direct := None; Heavy := false |}.

Definition svc_amavis : ServiceDef :=
  {| Name := "amavis"; DisplayName := "amavis"; SystemdUnits := ["carbonio-mailthreat.service"];
     BinaryPath := amavisd;
     BinaryArgs := ["-X"; "no_conf_file_writable_check"; "-c"; p_conf p +:+ "/amavisd.conf"]; Detached := false;
     LogFile := ""; NeedsRoot := false; PidFile := p_run p +:+ "/amavisd.pid"; ProcessName := "amavisd";
     GracefulStop := 0; Launch.Dependencies := []; EnableCheck := None;
     Setup := [{| st_Do := Mkdir [amavisDir +:+ "/.spamassassin"]; st_UnlessExists := "" |};
                {| st_Do := RunCmd {| rs_Path := altermime; rs_Args := []; rs_Sudo := false; rs_IfExists := altermime;
                                      rs_SkipOnNoRewrite := true; rs_BestEffort := true |}; st_UnlessExists := "" |}];
     PreStart := []; PostStart := []; PreStop := []; ConfigRewrite := ["amavis"; "antispam"]; UseSDNotify := false;
     CustomStart := None; CustomStop := None; UseSystemdForStatus := false; ExternallyManaged := false;
     Members := []; StopMembersForward := false; ForceMembersNoRewrite := false; MemberApplies := None;
     DetailMember := ""; Wants := []; Component := true; IdleWhenDisabled := false;
     Companions := [{| cp_Identity := "amavis-mc"; cp_Binary := p_common p +:+ "/sbin/amavis-mc" |}];
     RefreshSignal := None; ArgsFromConfig := None; Ready := ReadyNone; Java := None; Mysqld := None;
     Commands := None; Collectors := None;
     Direct := Some {| ds_OptionalBinary := true; ds_SkipIfRunning := true;
                 ds_Prepare := [{| st_Do := RemoveStale {| sd_Dir := amavisDir +:+ "/tmp"; sd_Prefix := "amavis-" |}; st_UnlessExists := "" |};
                                {| st_Do := Mkdir [amavisDir +:+ "/quarantine"; amavisDir +:+ "/tmp"; amavisDir +:+ "/var"]; st_UnlessExists := "" |}];
                 ds_Wait := {| pw_Attempts := 10; pw_Interval := 1000 |} |};
     Heavy := false |}.

Definition svc_clamd : ServiceDef :=
  {| Name := "clamd"; DisplayName := "clamd"; SystemdUnits := ["carbonio-antivirus.service"];
     BinaryPath := p_common p +:+ "/sbin/clamd"; BinaryArgs := ["--config-file=" +:+ p_conf p +:+ "/clamd.conf"];
     Detached := true; LogFile := ""; NeedsRoot := false; PidFile := p_run p +:+ "/clamd.pid";
     ProcessName := p_common p +:+ "/sbin/clamd"; GracefulStop := 0; Launch.Dependencies := []; EnableCheck := None;
     Setup := [{| st_Do := Mkdir [p_data p +:+ "/clamav/db"]; st_UnlessExists := "" |}]; PreStart := [];
     PostStart := []; PreStop := []; ConfigRewrite := ["antivirus"]; UseSDNotify := true; CustomStart := None;
     CustomStop := None; UseSystemdForStatus := false; ExternallyManaged := false; Members := [];
     StopMembersForward := false; ForceMembersNoRewrite := false; MemberApplies := None; DetailMember := "";
     Wants := []; Component := true; IdleWhenDisabled := false; Companions := []; RefreshSignal := None;
     ArgsFromConfig := None; Ready := ReadyNone; Java := None; Mysqld := None; Commands := None; Collectors := None;
     Direct := None; Heavy := false |}.

Definition svc_antivirus : ServiceDef :=
  {| Name := "antivirus"; DisplayName := "antivirus";
     SystemdUnits := ["carbonio-mailthreat.service"; "carbonio-antivirus.service"; "carbonio-freshclam.service"];
     BinaryPath := ""; BinaryArgs := []; Detached := false; LogFile := ""; NeedsRoot := false; PidFile := "";
     ProcessName := ""; GracefulStop := 0; Launch.Dependencies := []; EnableCheck := None; Setup := [];
     PreStart := []; PostStart := []; PreStop := []; ConfigRewrite := ["antivirus"]; UseSDNotify := false;
     CustomStart := None; CustomStop := None; UseSystemdForStatus := false; ExternallyManaged := false;
     Members := ["amavis"; "clamd"; "freshclam"]; StopMembersForward := true; ForceMembersNoRewrite := true;
     MemberApplies := Some amavisMemberApplies; DetailMember := "clamd"; Wants := []; Component := false;
     IdleWhenDisabled := false; Companions := []; RefreshSignal := None; ArgsFromConfig := None; Ready := ReadyNone;
     Java := None; Mysqld := None; Commands := None; Collectors := None; Direct := None; Heavy := false |}.

Definition svc_antispam_db : ServiceDef :=
  {| Name := "antispam-db"; DisplayName := "antispam-db"; SystemdUnits := ["carbonio-antispam.service"];
     BinaryPath := ""; BinaryArgs := []; Detached := false; LogFile := ""; NeedsRoot := false;
     PidFile := p_run p +:+ "/amavisd-mysql.pid";
     ProcessName := p_common p +:+ "/sbin/m*d* --defaults-file=" +:+ p_conf p +:+ "/antispam-my.cnf";
     GracefulStop := 0; Launch.Dependencies := []; EnableCheck := None; Setup := []; PreStart := []; PostStart := [];
     PreStop := []; ConfigRewrite := []; UseSDNotify := false; CustomStart := None; CustomStop := None;
     UseSystemdForStatus := false; ExternallyManaged := false; Members := []; StopMembersForward := false;
     ForceMembersNoRewrite := false; MemberApplies := None; DetailMember := ""; Wants := []; Component := true;
     IdleWhenDisabled := false; Companions := []; RefreshSignal := None; ArgsFromConfig := None; Ready := ReadyNone;
     Java := None;
     Mysqld := Some {| my_DefaultsKey := "antispam_mysql_mycnf"; my_ErrlogKey := "antispam_mysql_errlogfile"; my_OptionalDefaults := true;
                 my_Active := Some antispamDBEnabled |};
     Commands := None; Collectors := None; Direct := None; Heavy := false |}.

Definition svc_antispam : ServiceDef :=
  {| Name := "antispam"; DisplayName := "antispam";
     SystemdUnits := ["carbonio-antispam.service"; "carbonio-mailthreat.service"]; BinaryPath := "";
     BinaryArgs := []; Detached := false; LogFile := ""; NeedsRoot := false; PidFile := ""; ProcessName := "";
     GracefulStop := 0; Launch.Dependencies := []; EnableCheck := Some antispamEnabled; Setup := [];
     PreStart := []; PostStart := []; PreStop := []; ConfigRewrite := []; UseSDNotify := false; CustomStart := None;
     CustomStop := None; UseSystemdForStatus := false; ExternallyManaged := false;
     Members := ["antispam-db"; "amavis"]; StopMembersForward := true; ForceMembersNoRewrite := false;
     MemberApplies := Some antispamMemberApplies; DetailMember := "amavis"; Wants := []; Component := false;
     IdleWhenDisabled := true; Companions := []; RefreshSignal := None; ArgsFromConfig := None; Ready := ReadyNone;
     Java := None; Mysqld := None; Commands := None; Collectors := None; Direct := None; Heavy := false |}.

Definition svc_mta : ServiceDef :=
  {| Name := "mta"; DisplayName := "mta"; SystemdUnits := ["carbonio-postfix.service"];
     BinaryPath := p_common p +:+ "/sbin/postfix"; BinaryArgs := []; Detached := false; LogFile := "";
     NeedsRoot := true; PidFile := p_data p +:+ "/postfix/spool/pid/master.pid";
     ProcessName := p_common p +:+ "/libexec/master"; GracefulStop := 0;
     Launch.Dependencies := ["saslauthd"; "milter"]; EnableCheck := None; Setup := []; PreStart := [];
     PostStart := []; PreStop := []; ConfigRewrite := ["antispam"; "antivirus"; "opendkim"; "mta"; "sasl"];
     UseSDNotify := false; CustomStart := None; CustomStop := None; UseSystemdForStatus := false;
     ExternallyManaged := false; Members := []; StopMembersForward := false; ForceMembersNoRewrite := false;
     MemberApplies := None; DetailMember := ""; Wants := []; Component := false; IdleWhenDisabled := false;
     Companions := []; RefreshSignal := None; ArgsFromConfig := None; Ready := ReadyNone; Java := None;
     Mysqld := None;
     Commands := Some {| cs_Start := Some ["start"]; cs_Stop := Some ["stop"]; cs_Status := Some ["status"]; cs_Reload := Some ["reload"];
                   cs_Prepare := [{| st_Do := HookStep prepareMainCf; st_UnlessExists := "" |};
                                  {| st_Do := HookStep prepareLDAPTables; st_UnlessExists := "" |};
                                  {| st_Do := RunCmd {| rs_Path := p_common p +:+ "/sbin/postalias"; rs_Args := ["/etc/aliases"]; rs_Sudo := true;
                                                        rs_IfExists := "/etc/aliases"; rs_SkipOnNoRewrite := false; rs_BestEffort := true |};
                                     st_UnlessExists := "" |}];
                   cs_RestartAsReload := true; cs_ReloadRestartsDependencies := true |};
     Collectors := None; Direct := None; Heavy := false |}.

Definition svc_proxy : ServiceDef :=
  {| Name := "proxy"; DisplayName := "proxy"; SystemdUnits := ["carbonio-nginx.service"];
     BinaryPath := p_common p +:+ "/sbin/nginx"; BinaryArgs := ["-c"; p_conf p +:+ "/nginx.conf"]; Detached := false;
     LogFile := ""; NeedsRoot := false; PidFile := p_run p +:+ "/nginx.pid";
     ProcessName := p_common p +:+ "/sbin/nginx"; GracefulStop := 0; Launch.Dependencies := []; EnableCheck := None;
     Setup := []; PreStart := []; PostStart := []; PreStop := []; ConfigRewrite := ["proxy"]; UseSDNotify := true;
     CustomStart := None; CustomStop := None; UseSystemdForStatus := false; ExternallyManaged := false;
     Members := []; StopMembersForward := false; ForceMembersNoRewrite := false; MemberApplies := None;
     DetailMember := ""; Wants := []; Component := false; IdleWhenDisabled := false; Companions := [];
     RefreshSignal := None; ArgsFromConfig := None; Ready := ReadyNone; Java := None; Mysqld := None;
     Commands := None; Collectors := None; Direct := None; Heavy := false |}.

Definition svc_mailbox : ServiceDef :=
  {| Name := "mailbox"; DisplayName := "mailbox"; SystemdUnits := ["carbonio-appserver.service"]; BinaryPath := "";
     BinaryArgs := []; Detached := false; LogFile := ""; NeedsRoot := false; PidFile := "";
     ProcessName := mailboxMainClass; GracefulStop := 0; Launch.Dependencies := []; EnableCheck := None; Setup := [];
     PreStart := []; PostStart := [MailboxAdvancedStatusHook]; PreStop := [];
     ConfigRewrite := mailboxConfigRewrite; UseSDNotify := false; CustomStart := None; CustomStop := None;
     UseSystemdForStatus := false; ExternallyManaged := false; Members := []; StopMembersForward := false;
     ForceMembersNoRewrite := false; MemberApplies := None; DetailMember := ""; Wants := ["appserver-db"];
     Component := true; IdleWhenDisabled := false; Companions := []; RefreshSignal := None; ArgsFromConfig := None;
     Ready := ReadyMailboxPort;
     Java := Some {| j_Label := "mailbox"; j_LogFile := p_log p +:+ "/zmmailboxd.out"; j_Args := mailboxJavaArgs p;
               j_Mkdirs := [p_mailboxd p +:+ "/work/service/jsp"; p_mailboxd p +:+ "/work"]; j_Touch := [p_log p +:+ "/gc.log"] |};
     Mysqld := None; Commands := None; Collectors := None; Direct := None; Heavy := true |}.

Definition svc_appserver_db (preStop : list Hook) : ServiceDef :=
  {| Name := "appserver-db"; DisplayName := "mysql"; SystemdUnits := ["carbonio-appserver-db.service"];
     BinaryPath := ""; BinaryArgs := []; Detached := false; LogFile := ""; NeedsRoot := false;
     PidFile := p_run p +:+ "/mysql.pid";
     ProcessName := p_common p +:+ "/sbin/m*d* --defaults-file=" +:+ p_conf p +:+ "/my.cnf"; GracefulStop := 0;
     Launch.Dependencies := []; EnableCheck := None; Setup := []; PreStart := []; PostStart := [];
     PreStop := preStop; ConfigRewrite := []; UseSDNotify := false; CustomStart := None; CustomStop := None;
     UseSystemdForStatus := false; ExternallyManaged := false; Members := []; StopMembersForward := false;
     ForceMembersNoRewrite := false; MemberApplies := None; DetailMember := ""; Wants := []; Component := true;
     IdleWhenDisabled := false; Companions := []; RefreshSignal := None; ArgsFromConfig := None; Ready := ReadyNone;
     Java := None;
     Mysqld := Some {| my_DefaultsKey := "mysql_mycnf"; my_ErrlogKey := "mysql_errlogfile"; my_OptionalDefaults := false; my_Active := None |};
     Commands := None; Collectors := None; Direct := None; Heavy := true |}.

Definition svc_store : ServiceDef :=
  {| Name := "store"; DisplayName := "mailbox";
     SystemdUnits := ["carbonio-appserver-db.service"; "carbonio-appserver.service"]; BinaryPath := "";
     BinaryArgs := []; Detached := false; LogFile := ""; NeedsRoot := false; PidFile := ""; ProcessName := "";
     GracefulStop := 0; Launch.Dependencies := []; EnableCheck := None; Setup := []; PreStart := []; PostStart := [];
     PreStop := []; ConfigRewrite := mailboxConfigRewrite; UseSDNotify := false; CustomStart := None;
     CustomStop := None; UseSystemdForStatus := false; ExternallyManaged := false;
     Members := ["appserver-db"; "mailbox"]; StopMembersForward := false; ForceMembersNoRewrite := true;
     MemberApplies := None; DetailMember := "mailbox"; Wants := []; Component := false; IdleWhenDisabled := false;
     Companions := []; RefreshSignal := None; ArgsFromConfig := None; Ready := ReadyNone; Java := None;
     Mysqld := None; Commands := None; Collectors := None; Direct := None; Heavy := true |}.

Definition svc_ldap : ServiceDef :=
  {| Name := "ldap"; DisplayName := "directory server"; SystemdUnits := ["carbonio-openldap.service"];
     BinaryPath := p_common p +:+ "/libexec/slapd"; BinaryArgs := []; Detached := true;
     LogFile := p_log p +:+ "/slapd.out"; NeedsRoot := false; PidFile := p_run p +:+ "/slapd.pid";
     ProcessName := p_common p +:+ "/libexec/slapd"; GracefulStop := 10000; Launch.Dependencies := [];
     EnableCheck := None; Setup := []; PreStart := []; PostStart := []; PreStop := []; ConfigRewrite := [];
     UseSDNotify := false; CustomStart := None; CustomStop := None; UseSystemdForStatus := false;
     ExternallyManaged := false; Members := []; StopMembersForward := false; ForceMembersNoRewrite := false;
     MemberApplies := None; DetailMember := ""; Wants := []; Component := false; IdleWhenDisabled := false;
     Companions := []; RefreshSignal := None; ArgsFromConfig := Some (slapdArgs p); Ready := ReadyLDAP; Java := None;
     Mysqld := None; Commands := None; Collectors := None; Direct := None; Heavy := true |}.

Definition svc_configd : ServiceDef :=
  {| Name := "configd"; DisplayName := "config service"; SystemdUnits := ["carbonio-configd.service"];
     BinaryPath := p_bin p +:+ "/configd"; BinaryArgs := []; Detached := true; LogFile := p_log p +:+ "/configd.out";
     NeedsRoot := false; PidFile := ""; ProcessName := p_bin p +:+ "/configd"; GracefulStop := 0;
     Launch.Dependencies := []; EnableCheck := None; Setup := []; PreStart := []; PostStart := []; PreStop := [];
     ConfigRewrite := []; UseSDNotify := false; CustomStart := None; CustomStop := None;
     UseSystemdForStatus := false; ExternallyManaged := false; Members := []; StopMembersForward := false;
     ForceMembersNoRewrite := false; MemberApplies := None; DetailMember := ""; Wants := []; Component := false;
     IdleWhenDisabled := false; Companions := []; RefreshSignal := None; ArgsFromConfig := None;
     Ready := ReadyConfigd; Java := None; Mysqld := None; Commands := None; Collectors := None; Direct := None;
     Heavy := false |}.

Definition svc_service_discover : ServiceDef :=
  {| Name := "service-discover"; DisplayName := "service discover"; SystemdUnits := ["service-discover.service"];
     BinaryPath := ""; BinaryArgs := []; Detached := false; LogFile := ""; NeedsRoot := false; PidFile := "";
     ProcessName := "/usr/bin/consul agent /etc/zextras/service-discover"; GracefulStop := 0;
     Launch.Dependencies := []; EnableCheck := None; Setup := []; PreStart := []; PostStart := []; PreStop := [];
     ConfigRewrite := []; UseSDNotify := false; CustomStart := None; CustomStop := None; UseSystemdForStatus := true;
     ExternallyManaged := true; Members := []; StopMembersForward := false; ForceMembersNoRewrite := false;
     MemberApplies := None; DetailMember := ""; Wants := []; Component := false; IdleWhenDisabled := false;
     Companions := []; RefreshSignal := None; ArgsFromConfig := None; Ready := ReadyNone; Java := None;
     Mysqld := None; Commands := None; Collectors := None; Direct := None; Heavy := false |}.


(** The hook of appserver-db looks its own entry up for the process to ask about. *)
Definition appserver_db : ServiceDef := svc_appserver_db [appserverDBFlushHook H p ∅ (svc_appserver_db [])].

Definition defaultRegistry : Registry := list_to_map
  [("memcached", svc_memcached); ("cbpolicyd", svc_cbpolicyd); ("stats", svc_stats); ("opendkim", svc_opendkim);
   ("freshclam", svc_freshclam); ("saslauthd", svc_saslauthd); ("milter", svc_milter); ("amavis", svc_amavis);
   ("clamd", svc_clamd); ("antivirus", svc_antivirus); ("antispam-db", svc_antispam_db); ("antispam", svc_antispam);
   ("mta", svc_mta); ("proxy", svc_proxy); ("mailbox", svc_mailbox); ("appserver-db", appserver_db);
   ("store", svc_store); ("ldap", svc_ldap); ("configd", svc_configd); ("service-discover", svc_service_discover)].
End registry.

(** ** registry.go: listings *)
Definition order_le (a b : string) : Prop := start_le NewServiceManager a b.
#[export] Instance order_le_dec a b : Decision (order_le a b) := start_le_dec NewServiceManager a b.

Definition AllServiceNames (reg : Registry) : list string := merge_sort order_le (map_to_list reg).*1.

Definition ControlServiceNames (reg : Registry) : list string :=
  List.filter (λ name, match reg !! name with Some def => negb (Component def) | None => false end) (AllServiceNames reg).

(** [StatusListServices]: [None] when the key is unset or empty. *)
Definition StatusListServices (H : Host) (reg : Registry) : M (option (gset string)) :=
  lc ← loadConfig H;
  mret (lc ← lc;
        match Fields (lc_get lc "zmcontrol_service_status_list") with
        | [] => None
        | fields =>
            Some (list_to_set (mjoin (map (λ f, MapLDAPServiceToRegistry f ::
                    match lookup_service reg f with Some def => [Name def] | None => [] end) fields)))
        end).
