(* ===== verification/Orchestrate.v ===== *)
(** * Orchestrate: control start, stop and status

    internal/cli/control/orchestrate.go: the order in which a host's services are
    started, stopped and reported, over the controller.  What is printed and the
    disk-space warnings are left out; [rc] is the exit code. *)
From S2P Require Import Prelude Config Services Host ProcIdent Launch Launchers Controller Registry.
Open Scope Z_scope.

Section orchestrate.
Variables (H : Host) (p : paths).
Variable reg : Registry.

Definition svcStatus (ctx : Ctx) (name : string) : M (bool * option Err) := Status H reg ctx name.
Definition svcStart (ctx : Ctx) (name : string) : M (option Err) := Controller.ServiceStart H p false reg (depth reg) ctx name.
Definition svcStop (ctx : Ctx) (name : string) : M (option Err) := Controller.ServiceStop H p reg (depth reg) ctx name.

Definition statusForStart (ctx : Ctx) (name : string) : M (bool + Err) :=
  r ← svcStatus ctx name;
  mret (match (r : bool * option Err) with (_, Some e) => inr (Wrap ("status of " +:+ name) e) | (running, None) => inl running end).

Definition runningForStop (ctx : Ctx) (name : string) : M bool :=
  r ← svcStatus ctx name;
  mret (match (r : bool * option Err) with (_, Some _) => true | (running, None) => running end).

(** ** Start *)
Definition start_if_stopped (ctx : Ctx) (name : string) : M (option Err) :=
  r ← statusForStart ctx name;
  match (r : bool + Err) with
  | inr e => mret (Some e)
  | inl true => mret None
  | inl false => svcStart ctx name
  end.

Definition startBootstrapServices (ctx : Ctx) : M (option Err) :=
  here ← IsLDAPLocal H;
  e ← (if (here : bool) then start_if_stopped ctx "ldap" else mret None);
  match (e : option Err) with Some e => mret (Some e) | None => start_if_stopped ctx "configd" end.

Definition servicesToStart (enabledSet : gset string) : M (list string) :=
  filterM (λ name,
    if String.eqb name "ldap" || String.eqb name "configd" then mret false
    else if bool_decide (name ∈ enabledSet) then mret true
    else IsCustomEnabled reg name) (ControlServiceNames reg).

Definition startOne (ctx startCtx : Ctx) (name : string) : M bool :=
  (if String.eqb name "proxy" then RegenerateResolvers H p ≫= λ _, mret tt else mret tt) ≫= λ _,
  e ← svcStart startCtx name; mret (match (e : option Err) with None => true | Some _ => false end).

Definition statusCounts (counted : option (gset string)) (name : string) : bool :=
  match counted with
  | Some set => bool_decide (name ∈ set)
  | None => negb (String.eqb name "stats") && negb (String.eqb name "logger")
  end.

(** Whether none of the started services that count is known to be down. *)
Definition verifyStarted (ctx : Ctx) (started : list string) : M bool :=
  match started with
  | [] => mret true
  | _ =>
      ctx ← WithProcessSnapshot ctx;
      counted ← StatusListServices H reg;
      down ← filterM (λ name,
        if statusCounts counted name
        then r ← svcStatus ctx name; mret (match (r : bool * option Err) with (false, None) => true | _ => false end)
        else mret false) started;
      mret (bool_decide (down = []))
  end.

Definition startEnabledServices (ctx : Ctx) (enabledSet : gset string) : M Z :=
  toStart ← servicesToStart enabledSet;
  RewriteConfigsFor H p reg toStart ≫= λ _,
  let known := List.filter (λ n, bool_decide (is_Some (lookup_service reg n))) toStart in
  started ← filterM (startOne ctx (WithNoRewriteContext ctx)) known;
  ok ← verifyStarted ctx started;
  mret (if (ok : bool) && bool_decide (started = known) then 0 else 1).

Definition controlStart (ctx : Ctx) : M Z :=
  e ← startBootstrapServices ctx;
  match (e : option Err) with
  | Some _ => mret 1
  | None =>
      r ← DiscoverEnabledServices H p;
      match (r : list string + Err) with
      | inr _ => mret 1
      | inl enabledList => startEnabledServices ctx (list_to_set (map MapLDAPServiceToRegistry enabledList))
      end
  end.

(** ** Stop *)
Definition stop_if_running (ctx : Ctx) (name : string) : M bool :=
  running ← runningForStop ctx name;
  if negb running then mret true
  else e ← svcStop ctx name; mret (match (e : option Err) with None => true | Some _ => false end).

Definition stop_names : list string :=
  List.filter (λ n, negb (String.eqb n "configd") && negb (String.eqb n "ldap") && bool_decide (is_Some (lookup_service reg n)))
    (rev (ControlServiceNames reg)).

Definition stopLDAPIfLocal (ctx : Ctx) : M bool :=
  here ← IsLDAPLocal H; if (here : bool) then stop_if_running ctx "ldap" else mret true.

Definition controlStop (ctx : Ctx) : M Z :=
  failed ← filterM (λ name, ok ← stop_if_running ctx name; mret (negb ok)) stop_names;
  ldap ← stopLDAPIfLocal ctx;
  configd ← stop_if_running ctx "configd";
  mret (if bool_decide (failed = []) && (ldap : bool) && (configd : bool) then 0 else 1).

(** ** Status *)

(** The services to show; [None]: they cannot be discovered, and all are shown. *)
Definition discoverStatusSet : M (option (gset string)) :=
  r ← DiscoverEnabledServices H p;
  mret (match (r : list string + Err) with
        | inr _ => None
        | inl l => Some ({["configd"]} ∪ list_to_set (map MapLDAPServiceToRegistry l))
        end).

Definition ServiceListStatus (ctx : Ctx) (includeComponents : bool) : M (list (string * bool)) :=
  ctx ← WithProcessSnapshot ctx;
  collect (λ name, r ← svcStatus ctx name; mret (Some (name, fst (r : bool * option Err))))
    (if includeComponents then AllServiceNames reg else ControlServiceNames reg).

Definition controlStatus (ctx : Ctx) : M (list (string * bool) * Z) :=
  ctx ← WithProcessSnapshot ctx;
  shown ← discoverStatusSet;
  all ← ServiceListStatus ctx false;
  match (shown : option (gset string)) with
  | None => mret (all, 1)
  | Some set =>
      let rows := List.filter (λ '(name, _), bool_decide (name ∈ set)) all in
      counted ← StatusListServices H reg;
      mret (rows, if existsb (λ '(name, running), negb running && statusCounts counted name) rows then 1 else 0)
  end.
End orchestrate.
