(* ===== verification/TraceLogic.v ===== *)
(** * TraceLogic: what the events of a controller operation may be

    [emits o F m]: in whatever state (of mode [o], when one is given), all events
    that [m] adds to the log are among those [F] permits, and a cached verdict on
    systemd stays.  The lemmas follow the structure of the operations; the tactic
    [emit] applies them. *)
From stdpp Require Import pretty.
From S2P Require Import Prelude Config Host ProcIdent Launch Launchers Controller.
Open Scope Z_scope.

(** What is permitted: systemctl; [systemctl is-active] of some units; launching and
    signalling processes; asking for a configuration rewrite. *)
Record Permits := { f_systemctl : bool; f_probe : string → bool; f_spawn : bool; f_rewrite : bool }.

Section allowed.
Variable p : paths.

Definition allowed (F : Permits) (e : Event) : Prop :=
  match e with
  | ERun path args _ =>
      (path = systemctlBin → f_systemctl F = true ∨ ∃ unit, args = ["is-active"; unit] ∧ f_probe F unit = true) ∧
      (path = configrewrite p → f_rewrite F = true)
  | EStart _ _ _ | ESignal _ _ _ | ESignalGroup _ _ _ => f_spawn F = true
  | ENet what _ => HasPrefix what "REWRITE" = true → f_rewrite F = true
  | _ => True
  end.

(** A command that is neither systemctl nor the rewrite script. *)
Definition plain (path : string) : Prop := path ≠ systemctlBin ∧ path ≠ configrewrite p.

Definition emits {A} (o : option bool) (F : Permits) (m : M A) : Prop :=
  ∀ s, (∀ b, o = Some b → cl_mode s = Some b) →
  (∃ new, cl_log (m s).2 = new ++ cl_log s ∧ Forall (allowed F) new) ∧
  (∀ b, cl_mode s = Some b → cl_mode (m s).2 = Some b).

Lemma emits_ret {A} o F (a : A) : emits o F (mret a).
Proof. intros s _. split; [|done]. by exists []. Qed.

Lemma emits_bind {A B} o F (m : M A) (f : A → M B) :
  emits o F m → (∀ a, emits o F (f a)) → emits o F (m ≫= f).
Proof.
  intros Hm Hf s Hs. unfold mbind, M_bind. destruct (Hm s Hs) as [(n1 & H1 & F1) M1]. destruct (m s) as [a s1]. cbn in *.
  destruct (Hf a s1) as [(n2 & H2 & F2) M2]; [by auto|].
  split; [|by auto]. exists (n2 ++ n1). rewrite H2, H1, app_assoc. split; [done|]. by apply Forall_app.
Qed.

Lemma emits_ask {A} o F (answer : Log → A) ev : (∀ a, allowed F (ev a)) → emits o F (ask answer ev).
Proof. intros H s _. split; [|done]. exists [ev (answer (cl_log s))]. by repeat constructor. Qed.

Lemma emits_deep {A} o F (a : A) : emits o F (λ s, (a, set_deep s)).
Proof. intros s _. split; [|done]. by exists []. Qed.

Lemma emits_too_deep {A} o F (a : A) : emits o F (too_deep a).
Proof. apply emits_deep. Qed.

Lemma emits_for_each {A} o F (f : A → M unit) l : (∀ x, x ∈ l → emits o F (f x)) → emits o F (for_each f l).
Proof.
  induction l as [|x l IH]; intros H; [apply emits_ret|]. apply emits_bind; [apply H; by left|].
  intros _. apply IH. intros y Hy. apply H. by right.
Qed.

Lemma emits_collect {A B} o F (f : A → M (option B)) l : (∀ x, x ∈ l → emits o F (f x)) → emits o F (collect f l).
Proof.
  induction l as [|x l IH]; intros H; [apply emits_ret|]. apply emits_bind; [apply H; by left|].
  intros b. apply emits_bind; [|intros; apply emits_ret]. apply IH. intros y Hy. apply H. by right.
Qed.

Lemma emits_filterM {A} o F (f : A → M bool) l : (∀ x, x ∈ l → emits o F (f x)) → emits o F (filterM f l).
Proof.
  induction l as [|x l IH]; intros H; [apply emits_ret|]. apply emits_bind; [apply H; by left|].
  intros b. apply emits_bind; [|intros; apply emits_ret]. apply IH. intros y Hy. apply H. by right.
Qed.

Lemma emits_forallM {A} o F (f : A → M bool) l : (∀ x, x ∈ l → emits o F (f x)) → emits o F (forallM f l).
Proof.
  induction l as [|x l IH]; intros H; [apply emits_ret|]. apply emits_bind; [apply H; by left|].
  intros []; [|apply emits_ret]. apply IH. intros y Hy. apply H. by right.
Qed.

Lemma emits_mono {A} o F F' (m : M A) :
  (∀ e, allowed F e → allowed F' e) → emits o F m → emits o F' m.
Proof.
  intros HF Hm s Hs. destruct (Hm s Hs) as [(n & H1 & H2) M1]. split; [|done]. exists n. split; [done|].
  by eapply Forall_impl.
Qed.

Lemma emits_any {A} o F (m : M A) : emits None F m → emits o F m.
Proof. intros H s _. by apply H. Qed.
End allowed.

(** ** The rewrite script is none of the other commands *)
Fixpoint last_char (s : string) : option ascii :=
  match s with "" => None | String c "" => Some c | String _ s => last_char s end.

Lemma last_char_app a c b : last_char (a +:+ String c b) = last_char (String c b).
Proof. induction a as [|x a IH]; [done|]. rewrite string_app_cons. cbn [last_char]. destruct a; exact IH. Qed.

Lemma ends_differ s p : last_char s ≠ Some "e"%char → s ≠ configrewrite p.
Proof. intros Hs ->. apply Hs. apply last_char_app. Qed.

Lemma systemctl_not_script p : systemctlBin ≠ configrewrite p.
Proof. by apply ends_differ. Qed.

Lemma sudo_plain p : plain p sudoBin.
Proof. split; [done|by apply ends_differ]. Qed.

Create HintDb emits.
#[export] Hint Resolve emits_ret emits_too_deep emits_deep : emits.

Ltac emit_step :=
  match goal with
  | |- emits _ _ _ (mbind _ _) => apply emits_bind; [|intros ?]
  | |- emits _ _ _ (for_each _ _) => apply emits_for_each; intros ? ?
  | |- emits _ _ _ (collect _ _) => apply emits_collect; intros ? ?
  | |- emits _ _ _ (filterM _ _) => apply emits_filterM; intros ? ?
  | |- emits _ _ _ (forallM _ _) => apply emits_forallM; intros ? ?
  | |- emits _ _ _ (match ?x with _ => _ end) => destruct x eqn:?
  | |- _ => solve [eauto 3 with emits]
  end.
Ltac emit := repeat (cbv beta zeta; emit_step).

(** ** The primitives *)
Section primitives.
Variables (p : paths) (H : Host).

Lemma emits_Run o F path args : plain p path → emits p o F (Run H path args).
Proof. intros [H1 H2]. apply emits_ask. intros r. by split. Qed.

Lemma emits_Start o F path args : f_spawn F = true → emits p o F (Start H path args).
Proof. intros HF. by apply emits_ask. Qed.

Lemma emits_Signal o F pid sig : f_spawn F = true → emits p o F (Signal H pid sig).
Proof. intros HF. by apply emits_ask. Qed.

Lemma emits_SignalGroup o F pid sig : f_spawn F = true → emits p o F (SignalGroup H pid sig).
Proof. intros HF. by apply emits_ask. Qed.

Lemma emits_Net o F what : HasPrefix what "REWRITE" = false → emits p o F (Net H what).
Proof. intros Hw. apply emits_ask. intros r. cbn. congruence. Qed.

Lemma emits_Table o F : emits p o F (Table H). Proof. by apply emits_ask. Qed.
Lemma emits_Entry o F pid : emits p o F (Entry H pid). Proof. by apply emits_ask. Qed.
Lemma emits_Zombie o F pid : emits p o F (Zombie H pid). Proof. by apply emits_ask. Qed.
Lemma emits_Alive o F pid : emits p o F (processAlive H pid). Proof. by apply emits_ask. Qed.
Lemma emits_Stat o F path : emits p o F (Stat H path). Proof. by apply emits_ask. Qed.
Lemma emits_ReadFile o F path : emits p o F (ReadFile H path). Proof. by apply emits_ask. Qed.
Lemma emits_ReadDir o F path : emits p o F (ReadDir H path). Proof. by apply emits_ask. Qed.
Lemma emits_OpenFile o F path : emits p o F (OpenFile H path). Proof. by apply emits_ask. Qed.
Lemma emits_MkdirAll o F path : emits p o F (MkdirAll H path). Proof. by apply emits_ask. Qed.
Lemma emits_Remove o F path : emits p o F (Remove H path). Proof. by apply emits_ask. Qed.
Lemma emits_WriteFile o F path data : emits p o F (WriteFile H path data). Proof. by apply emits_ask. Qed.
Lemma emits_LookupGID o F g : emits p o F (LookupGID H g). Proof. by apply emits_ask. Qed.
Lemma emits_Chown o F path gid : emits p o F (Chown H path gid). Proof. by apply emits_ask. Qed.
Lemma emits_Done o F : emits p o F (Done H). Proof. by apply emits_ask. Qed.
Lemma emits_loadConfig o F : emits p o F (loadConfig H). Proof. by apply emits_ask. Qed.
Lemma emits_Directory o F : emits p o F (Directory H). Proof. by apply emits_ask. Qed.

Lemma emits_Now o F : emits p o F (Now H).
Proof. intros s _. split; [|done]. eexists [_]. by repeat constructor. Qed.
Lemma emits_After o F d : emits p o F (After H d).
Proof. intros s _. split; [|done]. eexists [_]. by repeat constructor. Qed.

Lemma emits_exists o F path : emits p o F (exists_ H path).
Proof. apply emits_bind; [apply emits_Stat|intros; apply emits_ret]. Qed.

Lemma emits_IsBooted o F : emits p o F (IsBooted H).
Proof.
  intros s Hs. unfold IsBooted. destruct (cl_booted s) as [b|]; [exact (emits_ret p o F b s Hs)|].
  destruct (emits_exists o F runSystemdDir s Hs) as [(n & H1 & H2) H3]. destruct (exists_ H runSystemdDir s) as [b s'].
  cbn in *. split; [by exists n|done].
Qed.

Lemma emits_enabled_targets o F targets failed : emits p o F (enabled_targets H targets failed).
Proof.
  revert failed. induction targets as [|t ts IH]; intros failed; cbn [enabled_targets]; [apply emits_ret|].
  apply emits_bind; [|intros [[]|]; [apply emits_ret|apply IH|apply IH]].
  apply emits_bind; [|intros; apply emits_ret]. apply emits_Run. split; [done|by apply ends_differ].
Qed.

(** A known mode is not asked for again. *)
Definition possible (o : option bool) (b : bool) : Prop := ∀ b', o = Some b' → b = b'.

Lemma emits_mode {A} o F (k : bool → M A) :
  (∀ b, possible o b → emits p o F (k b)) → emits p o F (IsSystemdMode H ≫= k).
Proof.
  intros Hk s Hs. unfold mbind, M_bind, IsSystemdMode. destruct (cl_mode s) as [b|] eqn:Eb.
  - pose proof (Hk b) as Hkb. rewrite <- Eb. apply Hkb; [intros b' Hb'; specialize (Hs b' Hb'); congruence|]. by rewrite Eb.
  - assert (Ho : o = None) by (destruct o as [b|]; [by specialize (Hs b eq_refl)|done]). subst o.
    destruct (emits_enabled_targets None F carbonioTargets false s ltac:(done)) as [(n1 & H1 & F1) _].
    unfold IsSystemdEnabled. destruct (enabled_targets H carbonioTargets false s) as [e s1]. cbn in H1.
    assert (Hgo : ∀ b s2, cl_log s2 = cl_log s1 →
      (∃ new, cl_log (k b s2).2 = new ++ cl_log s ∧ Forall (allowed p F) new) ∧ (∀ b', None = Some b' → cl_mode (k b s2).2 = Some b')).
    { intros b s2 Hs2. destruct (Hk b ltac:(done) s2 ltac:(done)) as [(n2 & H2 & F2) _]. split; [|done].
      exists (n2 ++ n1). rewrite H2, Hs2, H1, app_assoc. split; [done|]. by apply Forall_app. }
    destruct e as [b|]; by apply Hgo.
Qed.
End primitives.

#[export] Hint Resolve emits_Table emits_Entry emits_Zombie emits_Alive emits_Stat emits_ReadFile emits_ReadDir
  emits_OpenFile emits_MkdirAll emits_Remove emits_WriteFile emits_LookupGID emits_Chown emits_Done emits_loadConfig
  emits_Directory emits_Now emits_After emits_exists emits_IsBooted emits_Start emits_Signal emits_SignalGroup
  emits_Run : emits.
#[export] Hint Extern 1 (emits _ _ _ (Net _ _)) => apply emits_Net; reflexivity : emits.

(** ** Processes *)
Section processes.
Variables (p : paths) (H : Host) (o : option bool) (F : Permits).

Lemma emits_load : emits p o F (load H).
Proof.
  intros s Hs. unfold load. destruct (cl_snap s) as [t|]; [exact (emits_ret p o F t s Hs)|].
  destruct (emits_Table p H o F s Hs) as [(n & H1 & H2) H3]. destruct (Table H s) as [t s']. cbn in *. split; [by exists n|done].
Qed.
#[local] Hint Resolve emits_load : emits.

Lemma emits_scan t name : emits p o F (scan H t name).
Proof. unfold scan, scan_entries. emit. Qed.
#[local] Hint Resolve emits_scan : emits.

Lemma emits_scanProcesses name : emits p o F (scanProcesses H name).
Proof. unfold scanProcesses. emit. Qed.
#[local] Hint Resolve emits_scanProcesses : emits.

Lemma emits_readPidFile f : emits p o F (readPidFile H f).
Proof. unfold readPidFile. emit. Qed.
#[local] Hint Resolve emits_readPidFile : emits.

Lemma emits_isRunningByPidFile f : emits p o F (isRunningByPidFile H f).
Proof. unfold isRunningByPidFile. emit. Qed.

Lemma emits_pidBelongsTo ctx pid name : emits p o F (pidBelongsTo H ctx pid name).
Proof. unfold pidBelongsTo. emit. Qed.

Lemma emits_pidFromProcessName ctx name : emits p o F (pidFromProcessName H ctx name).
Proof. unfold pidFromProcessName, scanProcessesForStatus. emit. Qed.

Lemma emits_runningPID fuel reg ctx def : emits p o F (runningPID H fuel reg ctx def).
Proof.
  revert def. induction fuel as [|fuel IH]; intros def; cbn [runningPID]; pose proof emits_pidBelongsTo;
    pose proof emits_pidFromProcessName; emit.
Qed.

Lemma emits_running_pid reg ctx def : emits p o F (running_pid H reg ctx def).
Proof. apply emits_runningPID. Qed.

Lemma emits_poll_once pid deadline : emits p o F (poll_once H pid deadline).
Proof. unfold poll_once. emit. Qed.
#[local] Hint Resolve emits_poll_once : emits.

Lemma emits_pollUntilExit pid t i : emits p o F (pollUntilExit H pid t i).
Proof.
  unfold pollUntilExit. emit. generalize (a + t). generalize (poll_fuel t i). intros fuel d.
  induction fuel as [|fuel IH]; cbn [poll_loop]; emit.
Qed.

Hypothesis Hspawn : f_spawn F = true.

Lemma emits_signalPID pid sig : emits p o F (signalPID H pid sig).
Proof. unfold signalPID. emit. Qed.
#[local] Hint Resolve emits_signalPID emits_pollUntilExit : emits.

Lemma emits_waitAndEscalate pids t : emits p o F (waitAndEscalate H pids t).
Proof.
  unfold waitAndEscalate. emit. generalize (a + t). generalize (poll_fuel t 200). intros fuel d. revert pids.
  induction fuel as [|fuel IH]; intros pids; cbn [escalate_loop]; unfold escalate_round; emit.
Qed.
#[local] Hint Resolve emits_waitAndEscalate : emits.

Lemma emits_killProcess name : emits p o F (killProcess H name).
Proof. unfold killProcess. emit. Qed.

Lemma emits_gracefulStopViaPidfile ctx f n pn t : emits p o F (gracefulStopViaPidfile H ctx f n pn t).
Proof. unfold gracefulStopViaPidfile, pidsByIdentity, gracefulStopPID. pose proof emits_pidBelongsTo. emit. Qed.

Hypothesis Hsudo : plain p sudoBin.

Lemma emits_sudoKill pid sig g : emits p o F (sudoKill H pid sig g).
Proof. unfold sudoKill. emit. Qed.
#[local] Hint Resolve emits_sudoKill : emits.

Lemma emits_killByPID pid : emits p o F (killByPIDWithGroupAndSudo H pid).
Proof. unfold killByPIDWithGroupAndSudo. emit. Qed.
End processes.

#[export] Hint Resolve emits_load emits_scanProcesses emits_readPidFile emits_isRunningByPidFile emits_pidBelongsTo
  emits_pidFromProcessName emits_running_pid emits_runningPID emits_pollUntilExit emits_signalPID emits_waitAndEscalate emits_killProcess
  emits_gracefulStopViaPidfile emits_sudoKill emits_killByPID : emits.
