(* ===== verification/ControllerProps.v ===== *)
(** * ControllerProps: what starting, stopping and restarting a service may do *)
From stdpp Require Import pretty.
From S2P Require Import Prelude Config Host ProcIdent Launch Launchers Controller TraceLogic.
Open Scope Z_scope.

(** ** Well-behaved definitions: no binary, step or hook of the service calls
    systemctl or asks for a rewrite, and hooks launch and signal nothing. *)
Definition nothing : Permits := {| f_systemctl := false; f_probe := λ _, false; f_spawn := false; f_rewrite := false |}.

Lemma nothing_least p F e : allowed p nothing e → allowed p F e.
Proof.
  destruct e; cbn; try done.
  intros [H1 H2]. split; intros H; [destruct (H1 H) as [?|(? & _ & ?)]; done|by specialize (H2 H)].
  intros H1 H. by specialize (H1 H).
Qed.

Definition hook_ok {A} (p : paths) (h : M A) : Prop := emits p None nothing h.

Lemma hook_emits {A} p o F (h : M A) : hook_ok p h → emits p o F h.
Proof. intros Hh. apply emits_any. eapply emits_mono; [|exact Hh]. apply nothing_least. Qed.

Definition step_ok (p : paths) (st : Step) : Prop :=
  match st_Do st with RunCmd r => plain p (rs_Path r) | HookStep h => hook_ok p h | _ => True end.

Record def_ok (p : paths) (def : ServiceDef) : Prop := {
  ok_binary : plain p (BinaryPath def);
  ok_check : from_option (hook_ok p) True (EnableCheck def);
  ok_applies : from_option (λ f, ∀ m, hook_ok p (f m)) True (MemberApplies def);
  ok_setup : Forall (step_ok p) (Setup def);
  ok_pre : Forall (hook_ok p) (PreStart def);
  ok_post : Forall (hook_ok p) (PostStart def);
  ok_prestop : Forall (hook_ok p) (PreStop def);
  ok_start : from_option (hook_ok p) True (CustomStart def);
  ok_stop : from_option (hook_ok p) True (CustomStop def);
  ok_active : from_option (hook_ok p) True (Mysqld def ≫= my_Active);
  ok_prepare : from_option (λ c, Forall (step_ok p) (cs_Prepare c)) True (Commands def);
  ok_direct : from_option (λ d, Forall (step_ok p) (ds_Prepare d)) True (Direct def) }.

Section launch.
Variables (p : paths) (H : Host) (noRewrite : bool) (o : option bool) (F : Permits).
Hypothesis Hsudo : plain p sudoBin.

Lemma emits_removeStaleDirs d : emits p o F (removeStaleDirs H d).
Proof. unfold removeStaleDirs. emit. Qed.
#[local] Hint Resolve emits_removeStaleDirs : emits.

Lemma emits_mkdirs dirs : emits p o F (mkdirs H dirs).
Proof. induction dirs; cbn [mkdirs]; emit. Qed.
#[local] Hint Resolve emits_mkdirs : emits.

Lemma emits_runCommand ctx r : plain p (rs_Path r) → emits p o F (runCommand H noRewrite ctx r).
Proof. intros Hr. unfold runCommand. emit. Qed.
#[local] Hint Resolve emits_runCommand hook_emits : emits.

Lemma emits_runSteps ctx steps : Forall (step_ok p) steps → emits p o F (runSteps H noRewrite ctx steps).
Proof.
  induction 1 as [|st steps Hst _ IH]; cbn [runSteps]; [emit|]. unfold step_ok in Hst. unfold runStep. emit.
Qed.

Lemma emits_awaitReady def b : emits p o F (awaitReady H def b).
Proof.
  unfold awaitReady, awaitLDAPReady. emit. generalize (a0 + 30000). generalize (Z.to_nat (30000 / 250) + 2)%nat. intros fuel d.
  induction fuel as [|fuel IH]; cbn [ldap_ready_loop]; emit.
Qed.
#[local] Hint Resolve emits_awaitReady emits_runSteps : emits.

Lemma emits_sudoRun binary args : emits p o F (sudoRun H binary args).
Proof. unfold sudoRun. emit. Qed.
#[local] Hint Resolve emits_sudoRun : emits.

Lemma emits_controlCommand def verb : plain p (BinaryPath def) → emits p o F (controlCommand H def verb).
Proof. intros Hb. unfold controlCommand. emit. Qed.
#[local] Hint Resolve emits_controlCommand : emits.

Lemma emits_commandRunning def spec : plain p (BinaryPath def) → emits p o F (commandRunning H def spec).
Proof. intros Hb. unfold commandRunning. emit. Qed.
#[local] Hint Resolve emits_commandRunning : emits.

Lemma emits_waitForIdentity ctx i w : emits p o F (waitForIdentity H ctx i w).
Proof. unfold waitForIdentity. induction (pw_Attempts w) as [|n IH]; cbn [wait_identity]; emit; subst; apply IH. Qed.
#[local] Hint Resolve emits_waitForIdentity : emits.

Lemma emits_appeared ctx i w : emits p o F (appeared H ctx i w).
Proof. unfold appeared. emit. Qed.
#[local] Hint Resolve emits_appeared : emits.

Lemma emits_startCompanions ctx cs w : emits p o F (startCompanions H ctx cs w).
Proof. induction cs as [|c cs IH]; cbn [startCompanions]; unfold startCompanion; emit. Qed.
#[local] Hint Resolve emits_startCompanions : emits.

Lemma emits_companionsRunning ctx def : emits p o F (companionsRunning H ctx def).
Proof. unfold companionsRunning. emit. Qed.

Hypothesis Hspawn : f_spawn F = true.

Lemma emits_startWithSDNotify path args n : emits p o F (startWithSDNotify H p path args n).
Proof. unfold startWithSDNotify. emit. Qed.
#[local] Hint Resolve emits_startWithSDNotify : emits.

Lemma emits_startDirect name def : plain p (BinaryPath def) → emits p o F (startDirect H p name def).
Proof. intros Hb. unfold startDirect, launchArgs, startDetached. destruct (NeedsRoot def && _); emit. Qed.
#[local] Hint Resolve emits_startDirect : emits.

Lemma emits_startDaemon ctx name def d :
  plain p (BinaryPath def) → Forall (step_ok p) (ds_Prepare d) → emits p o F (startDaemon H p noRewrite ctx name def d).
Proof. intros Hb Hd. unfold startDaemon, binaryInstalled. emit. Qed.

Lemma emits_startJava def j : emits p o F (startJava H p def j).
Proof. unfold startJava, javaBinary, touch, startJavaDetached. emit. Qed.

Lemma emits_startMysqld def m : from_option (hook_ok p) True (my_Active m) → emits p o F (startMysqld H p def m).
Proof. intros Hm. unfold startMysqld, spawnMysqldSafe, is_active. destruct (my_Active m); cbn in Hm; emit. Qed.

Lemma emits_startCommands ctx def c :
  plain p (BinaryPath def) → Forall (step_ok p) (cs_Prepare c) → emits p o F (startCommands H noRewrite ctx def c).
Proof. intros Hb Hc. unfold startCommands. emit. Qed.

Lemma emits_startCollectors c : emits p o F (startCollectors H p c).
Proof. unfold startCollectors, start_collector. emit. Qed.
#[local] Hint Resolve emits_startDaemon emits_startJava emits_startMysqld emits_startCommands emits_startCollectors : emits.

Lemma emits_startWithoutSystemd ctx name def : def_ok p def → emits p o F (startWithoutSystemd H p noRewrite ctx name def).
Proof.
  intros []. unfold startWithoutSystemd.
  destruct (CustomStart def), (Java def), (Mysqld def), (Commands def), (Collectors def), (Direct def); cbn in *; emit.
Qed.

Lemma emits_stopWithoutSystemd reg ctx name def : def_ok p def → emits p o F (stopWithoutSystemd H p reg ctx name def).
Proof.
  intros []. unfold stopWithoutSystemd, stopMysqldService, stopMysqld, is_active, stopCommands, stopCollectors, killStatsPidFile,
    killAll. pose proof (emits_killProcess p H o F Hspawn) as Hk.
  assert (Hc : ∀ cs e, emits p o F (kill_companions H cs e)) by (intros cs; induction cs; intros e; cbn [kill_companions]; emit).
  destruct (CustomStop def) as [h|]; cbn in *; [emit|]. destruct (Mysqld def) as [m|]; cbn in *; [destruct (my_Active m); emit|].
  destruct (Commands def) as [c|]; cbn in *; emit.
Qed.
End launch.

#[export] Hint Resolve emits_runSteps emits_awaitReady emits_sudoRun emits_controlCommand emits_companionsRunning
  emits_startWithoutSystemd emits_stopWithoutSystemd hook_emits : emits.

(** ** The lifecycle on a host of a known mode *)
Section lifecycle.
Variables (p : paths) (H : Host) (noRewrite : bool) (reg : Registry) (o : option bool) (F : Permits).
Hypothesis Hsudo : plain p sudoBin.
Hypothesis Hreg : map_Forall (λ _ def, def_ok p def) reg.
Hypothesis Hsystemd : possible o true → f_systemctl F = true.
Hypothesis Hlegacy : possible o false → f_spawn F = true.
Hypothesis Hprobe : map_Forall (λ _ def, UseSystemdForStatus def = true → ∀ u, u ∈ SystemdUnits def → f_probe F u = true) reg.

Abbreviation ok := (emits p o F).

Lemma lookup_ok name def : LookupService reg name = Some def → def_ok p def.
Proof.
  unfold LookupService, lookup_service. destruct (reg !! name) as [d|] eqn:E; [intros [= <-]; by apply (Hreg name)|].
  destruct (ServiceAliases !! name) as [c|]; [|done]. cbn. intros Hc. by apply (Hreg c).
Qed.

Lemma lookup_probe name def :
  LookupService reg name = Some def → UseSystemdForStatus def = true → ∀ u, u ∈ SystemdUnits def → f_probe F u = true.
Proof.
  unfold LookupService, lookup_service. destruct (reg !! name) as [d|] eqn:E; [intros [= <-]; by apply (Hprobe name)|].
  destruct (ServiceAliases !! name) as [c|]; [|done]. cbn. intros Hc. by apply (Hprobe c).
Qed.

Lemma emits_check def : def_ok p def → ok (idleWhenDisabled def).
Proof. intros [_ Hc]. unfold idleWhenDisabled. destruct (EnableCheck def); cbn in *; emit. Qed.

Lemma emits_isDepEnabled dep : ok (isDepEnabled reg dep).
Proof.
  unfold isDepEnabled. destruct (LookupService reg dep) as [def|] eqn:E; [|emit]. destruct (lookup_ok _ _ E) as [_ Hc].
  destruct (EnableCheck def); cbn in *; emit.
Qed.

Lemma emits_applicableMembers def : def_ok p def → ok (applicableMembers def).
Proof. intros [_ _ Ha]. unfold applicableMembers. destruct (MemberApplies def); cbn in *; emit. Qed.

Lemma emits_is_active unit : f_systemctl F = true ∨ f_probe F unit = true → ok (Systemctl H "is-active" unit).
Proof.
  intros Hu. unfold Systemctl. emit. apply emits_ask. intros r. split; [|by intros ?%systemctl_not_script]. intros _.
  destruct Hu; [by left|right; by exists unit].
Qed.

Lemma emits_Systemctl action unit : possible o true → ok (Systemctl H action unit).
Proof.
  intros Hb. unfold Systemctl. emit. apply emits_ask. intros r. split; [|by intros ?%systemctl_not_script]. intros _. left. auto.
Qed.
#[local] Hint Resolve emits_check emits_isDepEnabled emits_applicableMembers emits_is_active emits_Systemctl : emits.

Lemma emits_systemdUnitsActive units :
  f_systemctl F = true ∨ (∀ u, u ∈ units → f_probe F u = true) → ok (systemdUnitsActive H units).
Proof.
  induction units as [|u us IH]; intros Hu; cbn [systemdUnitsActive]; [emit|]. apply emits_bind.
  - apply emits_is_active. destruct Hu as [?|Hu]; [by left|right; apply Hu; by left].
  - intros []; [emit|]. apply IH. destruct Hu as [?|Hu]; [by left|right; intros v Hv; apply Hu; by right].
Qed.

Lemma emits_systemctl_units action units : possible o true → ok (systemctl_units H action units).
Proof. intros Hb. induction units; cbn [systemctl_units]; emit. Qed.
#[local] Hint Resolve emits_systemdUnitsActive emits_systemctl_units : emits.

Lemma emits_startService ctx name def : def_ok p def → ok (startService H p noRewrite ctx name def).
Proof. intros Hd. unfold startService. destruct (ExternallyManaged def); [emit|]. apply emits_mode. intros [] Hb; emit. Qed.

Lemma emits_stopService ctx name def : def_ok p def → ok (stopService H p reg ctx name def).
Proof. intros Hd. unfold stopService. destruct (ExternallyManaged def); [emit|]. apply emits_mode. intros [] Hb; emit. Qed.
#[local] Hint Resolve emits_startService emits_stopService : emits.

Lemma emits_Status fuel ctx name : ok (ServiceStatus H reg fuel ctx name).
Proof.
  revert name. induction fuel as [|fuel IH]; intros name; cbn [ServiceStatus]; [emit|].
  destruct (LookupService reg name) as [def|] eqn:E; [|emit]. pose proof (lookup_ok _ _ E) as Hd. destruct (Members def) as [|m ms].
  - apply emits_mode. unfold RunningPID. intros [] Hb; cbn [orb].
    + apply emits_systemdUnitsActive. left. auto.
    + destruct (UseSystemdForStatus def) eqn:Eu; [|emit]. apply emits_systemdUnitsActive. right. eapply lookup_probe; eauto.
  - apply emits_bind; [emit|]. intros l. induction l as [|x l IHl]; emit.
Qed.
#[local] Hint Resolve emits_Status : emits.

(** A start may ask for a rewrite unless the context, or the controller, says not. *)
Definition may_rewrite (ctx : Ctx) : Prop := rewriteSkipped noRewrite ctx = true ∨ f_rewrite F = true.

Lemma may_rewrite_member ctx : may_rewrite ctx → may_rewrite (WithNoRewriteContext ctx).
Proof. intros _. left. unfold rewriteSkipped. cbn. apply orb_true_r. Qed.

Lemma emits_rewriteConfigs ctx def : may_rewrite ctx → ok (rewriteConfigs H p noRewrite ctx def).
Proof.
  intros Hr. unfold rewriteConfigs. destruct Hr as [->|Hrw]; [apply emits_ret|]. unfold rewriteSections. emit.
  - apply emits_ask. intros r. split; [|done]. intros E. by destruct (systemctl_not_script p).
  - apply emits_ask. intros r _. exact Hrw.
Qed.
#[local] Hint Resolve emits_rewriteConfigs : emits.

Lemma emits_runPreStart ctx name def : def_ok p def → ok (runPreStart H noRewrite ctx name def).
Proof.
  intros [_ _ _ Hs Hp]. unfold runPreStart. emit. induction Hp; cbn [runPreStartHooks]; emit.
Qed.

Lemma emits_run_hooks hooks : Forall (hook_ok p) hooks → ok (run_hooks hooks).
Proof. intros Hh. unfold run_hooks. emit. rewrite Forall_forall in Hh. eauto with emits. Qed.

Lemma emits_each_member rec members : (∀ m, ok (rec m)) → ok (each_member rec members).
Proof. intros Hr. unfold each_member. emit. Qed.
#[local] Hint Resolve emits_runPreStart emits_run_hooks emits_each_member may_rewrite_member : emits.

Lemma emits_start_down rec ctx name def :
  (∀ n, ok (rec ctx n)) → may_rewrite ctx → def_ok p def → ok (start_down H p noRewrite reg rec ctx name def).
Proof.
  intros Hr Hc Hd. pose proof Hd as []. unfold start_down, startWanted, startEnabledDependencies. emit.
  induction (Dependencies def); cbn [start_dependencies]; emit.
Qed.
#[local] Hint Resolve emits_start_down : emits.

Lemma emits_ServiceStart fuel ctx name : may_rewrite ctx → ok (ServiceStart H p noRewrite reg fuel ctx name).
Proof.
  revert ctx name. induction fuel as [|fuel IH]; intros ctx name Hc; cbn [ServiceStart]; [emit|].
  destruct (LookupService reg name) as [def|] eqn:E; [|emit]. pose proof (lookup_ok _ _ E) as Hd.
  unfold startComposite, RunningPID, Status. emit; destruct (ForceMembersNoRewrite def); auto with emits.
Qed.

Lemma emits_ServiceStop fuel ctx name : ok (ServiceStop H p reg fuel ctx name).
Proof.
  revert ctx name. induction fuel as [|fuel IH]; intros ctx name; cbn [ServiceStop]; [emit|].
  destruct (LookupService reg name) as [def|] eqn:E; [|emit]. pose proof (lookup_ok _ _ E) as Hd. pose proof Hd as [].
  unfold stopComposite. emit.
Qed.
#[local] Hint Resolve emits_ServiceStart emits_ServiceStop : emits.

Lemma emits_stop_then_start ctx name def : def_ok p def → ok (stop_then_start H p noRewrite reg ctx name def).
Proof. intros Hd. unfold stop_then_start. emit. Qed.
#[local] Hint Resolve emits_stop_then_start : emits.

Lemma emits_reload_units ctx name def units :
  possible o true → def_ok p def → ok (reload_units H p noRewrite reg ctx name def units).
Proof. intros Hb Hd. induction units; cbn [reload_units]; emit. Qed.

Lemma emits_reloadWithoutSystemd restart ctx name def :
  (∀ n, ok (restart n)) → def_ok p def → ok (reloadWithoutSystemd H p noRewrite reg restart ctx name def).
Proof. intros Hr Hd. pose proof Hd as []. unfold reloadWithoutSystemd, reloadCommands. emit. Qed.
#[local] Hint Resolve emits_reload_units emits_reloadWithoutSystemd : emits.

Lemma emits_restart_reload fuel ctx name :
  may_rewrite ctx →
  ok (ServiceRestart H p noRewrite reg fuel ctx name) ∧ ok (ServiceReload H p noRewrite reg fuel ctx name).
Proof.
  intros Hc. revert name. induction fuel as [|fuel IH]; intros name; cbn [ServiceRestart ServiceReload]; [split; emit|].
  assert (IH1 : ∀ n, ok (ServiceRestart H p noRewrite reg fuel ctx n)) by (intros n; apply IH).
  assert (IH2 : ∀ n, ok (ServiceReload H p noRewrite reg fuel ctx n)) by (intros n; apply IH).
  destruct (LookupService reg name) as [def|] eqn:E; [|split; emit]. pose proof (lookup_ok _ _ E) as Hd. split.
  - emit.
  - destruct (ExternallyManaged def); [emit|]. destruct (Members def); [|emit]. apply emits_mode. intros [] Hb; emit.
Qed.
End lifecycle.

(** ** The leaf verbs of the units' ExecStart and ExecStop *)
Section leaf.
Variables (p : paths) (H : Host) (noRewrite : bool) (reg : Registry) (o : option bool) (F : Permits).
Hypothesis Hsudo : plain p sudoBin.
Hypothesis Hreg : map_Forall (λ _ def, def_ok p def) reg.
Hypothesis Hspawn : f_spawn F = true.

#[local] Hint Resolve emits_check emits_applicableMembers emits_runPreStart emits_run_hooks emits_each_member : emits.

Lemma emits_ServiceStartSystemd fuel ctx name : emits p o F (ServiceStartSystemd H p noRewrite reg fuel ctx name).
Proof.
  revert name. induction fuel as [|fuel IH]; intros name; cbn [ServiceStartSystemd]; [emit|].
  destruct (LookupService reg name) as [def|] eqn:E; [|emit]. pose proof (lookup_ok _ _ Hreg _ _ E) as Hd. pose proof Hd as [].
  emit.
Qed.

Lemma emits_ServiceStopSystemd fuel ctx name : emits p o F (ServiceStopSystemd H p reg fuel ctx name).
Proof.
  revert name. induction fuel as [|fuel IH]; intros name; cbn [ServiceStopSystemd]; [emit|].
  destruct (LookupService reg name) as [def|] eqn:E; [|emit]. pose proof (lookup_ok _ _ Hreg _ _ E) as Hd. pose proof Hd as [].
  unfold stopComposite. emit.
Qed.
End leaf.
