(* ===== verification/RegistryProps.v ===== *)
(** * RegistryProps: the lifecycle of the registered services

    The laws of [TraceLogic] and [ControllerProps] for the registry of a Carbonio
    host, and for the service manager that runs on the controller. *)
From stdpp Require Import pretty.
From S2P Require Import Prelude Config Services Host ProcIdent Launch Launchers Controller Registry TraceLogic ControllerProps.
Open Scope Z_scope.

(** ** The registry is well-behaved *)
Lemma suffix_differ a b c d : String.length b = String.length d → b ≠ d → a +:+ b ≠ c +:+ d.
Proof.
  revert c. induction a as [|x a IH]; intros c Hl Hne E; rewrite ?string_app_nil_l, ?string_app_cons in E.
  - destruct c as [|y c]; [done|]. rewrite string_app_cons in E. subst b. cbn in Hl. rewrite length_string_app in Hl. lia.
  - destruct c as [|y c]; rewrite ?string_app_nil_l, ?string_app_cons in E.
    + subst d. cbn in Hl. rewrite length_string_app in Hl. lia.
    + injection E as _ E. by apply (IH c).
Qed.

Lemma plain_ends p s : last_char s ≠ Some "e"%char → last_char s ≠ Some "l"%char → plain p s.
Proof. intros H1 H2. split; [by intros ->|by apply ends_differ]. Qed.

Lemma plain_mysql p : plain p (p_bin p +:+ "/mysql").
Proof.
  split; [by apply (suffix_differ _ _ "/usr/bin/sys" "temctl")|]. apply ends_differ. by rewrite last_char_app.
Qed.

Lemma plain_zmhostname p : plain p (p_bin p +:+ "/zmhostname").
Proof.
  split; [|unfold configrewrite; change "/configrewrite" with ("/co" +:+ "nfigrewrite"); rewrite <- string_app_assoc; by apply suffix_differ].
  intros E%(f_equal last_char). by rewrite last_char_app in E.
Qed.

#[local] Hint Resolve plain_mysql plain_zmhostname sudo_plain emits_sudoRun : emits.
#[local] Hint Extern 2 (plain _ _) => (apply plain_ends; rewrite ?last_char_app; done) : emits.

Section registry.
Variables (H : Host) (p : paths).
#[local] Hint Unfold hook_ok : emits.

Lemma discover_ok : hook_ok p (DiscoverEnabledServices H p).
Proof. unfold hook_ok, DiscoverEnabledServices, readCache, writeCache. emit. Qed.

Lemma antispamDB_ok : hook_ok p (antispamDBEnabled H p).
Proof. unfold hook_ok, antispamDBEnabled. emit. Qed.

Lemma amavis_ok m : hook_ok p (amavisMemberApplies H p m).
Proof. unfold hook_ok, amavisMemberApplies, binaryInstalled. emit. Qed.

Lemma antispamMember_ok m : hook_ok p (antispamMemberApplies H p m).
Proof. unfold antispamMemberApplies. destruct (String.eqb m "antispam-db"); [apply antispamDB_ok|apply amavis_ok]. Qed.

Lemma antispamEnabled_ok : hook_ok p (antispamEnabled H p).
Proof. pose proof discover_ok. unfold hook_ok, antispamEnabled in *. emit. Qed.

Lemma milterEnabled_ok : hook_ok p (milterEnabled H p).
Proof. unfold hook_ok, milterEnabled. emit. Qed.

Lemma prepareMainCf_ok : hook_ok p (prepareMainCf H p).
Proof. unfold hook_ok, prepareMainCf, bootstrapPostfixMainCf. emit. Qed.

Lemma prepareLDAPTables_ok : hook_ok p (prepareLDAPTables H p).
Proof.
  unfold hook_ok, prepareLDAPTables, writePostfixLDAPConfig, chgrpPostfixLDAPFiles.
  assert (Hw : ∀ c ts, emits p None nothing (write_tables H p c ts)) by (intros c ts; induction ts as [|[[]] ts IH]; cbn [write_tables]; emit).
  emit.
Qed.

Lemma advanced_ok : hook_ok p (MailboxAdvancedStatusHook H p).
Proof.
  unfold hook_ok, MailboxAdvancedStatusHook, advancedInstalled.
  assert (Hl : ∀ n, emits p None nothing (advanced_loop H n)) by (intros n; induction n; cbn [advanced_loop]; emit). emit.
Qed.

Lemma dirty_pages_ok reg db : hook_ok p (appserverDBFlushHook H p reg db).
Proof.
  unfold hook_ok, appserverDBFlushHook, flushAppserverDBDirtyPages, query.
  assert (Hl : ∀ n d, emits p None nothing (flush_loop H p n d)) by (intros n d; induction n; cbn [flush_loop]; unfold query; emit). emit.
Qed.

#[local] Arguments appserverDBFlushHook : simpl never.

Lemma defaultRegistry_ok : map_Forall (λ _ def, def_ok p def) (defaultRegistry H p).
Proof.
  pose proof discover_ok; pose proof antispamDB_ok; pose proof amavis_ok; pose proof antispamMember_ok; pose proof antispamEnabled_ok;
  pose proof milterEnabled_ok; pose proof prepareMainCf_ok; pose proof prepareLDAPTables_ok; pose proof advanced_ok; pose proof dirty_pages_ok.
  intros name def Hl%elem_of_list_to_map_2.
  repeat (apply elem_of_cons in Hl as [[= -> ->]|Hl]; [split; cbn; repeat first [apply Forall_nil_2|apply Forall_cons_2|exact I]; unfold step_ok, amavisd, altermime; cbn; solve [eauto with emits]|]).
  by apply not_elem_of_nil in Hl.
Qed.
End registry.

(** ** The verbs *)
Inductive Verb := VStart | VStop | VRestart | VReload.

Definition lifecycle (H : Host) (p : paths) (noRewrite : bool) (reg : Registry) (v : Verb) (ctx : Ctx) (name : string)
    : M (option Err) :=
  match v with
  | VStart => Controller.ServiceStart H p noRewrite reg (depth reg) ctx name
  | VStop => Controller.ServiceStop H p reg (depth reg) ctx name
  | VRestart => Controller.ServiceRestart H p noRewrite reg (depth reg) ctx name
  | VReload => Controller.ServiceReload H p noRewrite reg (depth reg) ctx name
  end.

Lemma lifecycle_emits p H noRewrite reg o F v ctx name :
  map_Forall (λ _ def, def_ok p def) reg → (possible o true → f_systemctl F = true) → (possible o false → f_spawn F = true) →
  map_Forall (λ _ def, UseSystemdForStatus def = true → ∀ u, u ∈ SystemdUnits def → f_probe F u = true) reg →
  rewriteSkipped noRewrite ctx = true ∨ f_rewrite F = true →
  emits p o F (lifecycle H p noRewrite reg v ctx name).
Proof.
  intros Hreg Hs Hl Hp Hr. pose proof (sudo_plain p) as Hsudo. destruct v; cbn [lifecycle].
  - by apply emits_ServiceStart.
  - by apply emits_ServiceStop.
  - by apply emits_restart_reload.
  - by apply emits_restart_reload.
Qed.

Lemma default_probe H p f :
  f "service-discover.service" = true →
  map_Forall (λ _ def, UseSystemdForStatus def = true → ∀ u, u ∈ SystemdUnits def → f u = true) (defaultRegistry H p).
Proof.
  intros Hf name def Hl%elem_of_list_to_map_2.
  repeat (apply elem_of_cons in Hl as [[= -> ->]|Hl]; [try done|]); [|by apply not_elem_of_nil in Hl].
  intros _ u ->%list_elem_of_singleton. exact Hf.
Qed.

(** Launching or signalling a process directly. *)
Definition direct (e : Event) : Prop :=
  match e with EStart _ _ _ | ESignal _ _ _ | ESignalGroup _ _ _ => True | _ => False end.

Definition is_systemctl (e : Event) : Prop := match e with ERun path _ _ => path = systemctlBin | _ => False end.


(** ** The service manager on the controller *)
Fixpoint err_text (e : Err) : string :=
  match e with
  | Msg s => s
  | Wrap s e => s +:+ ": " +:+ err_text e
  | JoinErrs es => Join (map err_text es) (String newline "")
  | ErrSystemdNotBooted => "systemd is not the init system on this host"
  | ExitError out => out
  | ErrUnsupportedVerb => "verb not supported by this service"
  | ErrNoStatsPidFiles => "no stats collector pid files found"
  end.

(** The controller as the backend of the daemon's service manager: the calls carry
    the no-rewrite context ([ControlProcess], [ApplySystemd]), and the context's end
    is the host's [Done]. *)
Definition controller_backend (H : Host) (p : paths) (reg : Registry) : Backend Ctl :=
  let ctx := WithNoRewriteContext background in
  let run (v : Verb) (name : string) (s : Ctl) :=
    let '(e, s) := lifecycle H p false reg v ctx name s in (err_text <$> e, s) in
  {| Services.ServiceStart := run VStart; Services.ServiceStop := run VStop; Services.ServiceRestart := run VRestart;
     Services.ServiceStatus := λ name s,
       match Status H reg background name s with
       | ((_, Some e), s) => (inl (err_text e), s)
       | ((running, None), s) => (inr running, s)
       end;
     Services.LookupService := λ name, bool_decide (is_Some (lookup_service reg name));
     asHost := Some {| IsSystemdMode_ := λ s, default false (cl_mode s);
                       Services.ServiceTryReloadOrRestart := λ name s,
                         let '(e, s) := ServiceTryReloadOrRestart H reg name s in (err_text <$> e, s) |};
     ctx_Err := Done H |}.

(** A relation that the backend's calls respect is respected by the whole queue. *)
Section queue.
Context {W : Type} (ctl : Backend W) (BeforeRestart : option (string → W → W)) (R : relation W) `{!PreOrder R}.
Hypothesis Hrestart : ∀ name w, R w (Services.ServiceRestart ctl name w).2.
Hypothesis Hctx : ∀ w, R w (ctx_Err ctl w).2.
Hypothesis Hbefore : ∀ f name w, BeforeRestart = Some f → R w (f name w).

Lemma attempt_related lookup service st :
  R (run_w st) (run_w (attemptServiceRestart ctl BeforeRestart lookup service st).2).
Proof.
  unfold attemptServiceRestart.
  set (w0 := match BeforeRestart with Some f => f service (run_w st) | None => run_w st end).
  assert (H0 : R (run_w st) w0) by (unfold w0; destruct BeforeRestart as [f|] eqn:E; [by apply Hbefore|reflexivity]).
  change (ControlProcess ctl service ServiceAction.ActionRestart w0) with (Services.ServiceRestart ctl (ToLower service) w0).
  pose proof (Hrestart (ToLower service) w0) as H1. destruct (Services.ServiceRestart ctl (ToLower service) w0) as [err w1]. cbn in H1. destruct err as [e|].
  - pose proof (Hctx w1) as H2. destruct (ctx_Err ctl w1) as [c w2]. cbn in H2. assert (Hw : R (run_w st) w2) by (etrans; [exact H0|etrans; [exact H1|exact H2]]).
    destruct c; [exact Hw|]. by destruct (_ <=? _).
  - cbn. by etrans.
Qed.

Lemma round_related lookup services processed progress st :
  R (run_w st) (run_w (round_loop ctl BeforeRestart lookup services processed progress st).2).
Proof.
  revert processed progress st. induction services as [|s l IH]; intros processed progress st; cbn [round_loop]; [reflexivity|].
  pose proof (Hctx (run_w st)) as H2. destruct (ctx_Err ctl (run_w st)) as [c w]. cbn in H2. destruct c; [done|].
  destruct (negb _ || _); [etrans; [exact H2|apply (IH _ _ (with_world w st))]|].
  pose proof (attempt_related lookup s (with_world w st)) as H3. cbn in H3.
  destruct (attemptServiceRestart ctl BeforeRestart lookup s (with_world w st)) as [[] st']; cbn in H3;
    (etrans; [exact H2|etrans; [exact H3|apply IH]]).
Qed.

Lemma ProcessRestarts_related fuel lookup sm w r :
  ProcessRestarts ctl BeforeRestart fuel lookup sm w = Some r → R w (run_w r.2).
Proof.
  unfold ProcessRestarts. destruct (DisableRestarts sm); [intros [= <-]; cbn; reflexivity|].
  assert (Hloop : ∀ st x, restart_loop ctl BeforeRestart fuel lookup st = Some x → R (run_w st) (run_w x.2)).
  { induction fuel as [|fuel IH]; intros st x; cbn [restart_loop]; destruct (decide _); try done;
      [by intros [= <-]|by intros [= <-]|].
    unfold processRestartRound. pose proof (round_related lookup (getSortedServices (run_sm st)) ∅ false st) as H1.
    destruct (round_loop _ _ _ _ _ _ _) as [progress st1]. cbn in H1. pose proof (Hctx (run_w st1)) as H2.
    destruct (ctx_Err ctl (run_w st1)) as [c w2]. cbn in H2.
    assert (H3 : R (run_w st) (run_w (with_world w2 st1))) by (cbn; by etrans).
    destruct c; [by intros [= <-]|]. destruct progress; [|by intros [= <-]].
    intros Hx%IH. by etrans. }
  destruct (restart_loop _ _ _ _ _) as [[e st]|] eqn:E; [|done]. apply Hloop in E. cbn in E |- *.
  destruct e; intros [= <-]; exact E.
Qed.
End queue.

(** Asking for a configuration rewrite: the script, or the daemon itself. *)
Definition rewrites (p : paths) (e : Event) : Prop :=
  match e with
  | ERun path _ _ => path = configrewrite p
  | ENet what _ => HasPrefix what "REWRITE" = true
  | _ => False
  end.

(** What happens between two states asks for no rewrite. *)
Definition no_rewrite (p : paths) (s s' : Ctl) : Prop :=
  ∃ new, cl_log s' = new ++ cl_log s ∧ Forall (λ e, ¬ rewrites p e) new.

#[export] Instance no_rewrite_preorder p : PreOrder (no_rewrite p).
Proof.
  split.
  - intros s. by exists [].
  - intros s1 s2 s3 (n1 & H1 & F1) (n2 & H2 & F2). exists (n2 ++ n1). rewrite H2, H1, app_assoc. split; [done|]. by apply Forall_app.
Qed.

Definition no_rewriting : Permits := {| f_systemctl := true; f_probe := λ _, true; f_spawn := true; f_rewrite := false |}.

Lemma emits_no_rewrite {A} p (m : M A) s : emits p None no_rewriting m → no_rewrite p s (m s).2.
Proof.
  intros Hm. destruct (Hm s ltac:(done)) as [(new & Hn & Hall) _]. exists new. split; [done|].
  eapply Forall_impl; [exact Hall|]. intros e He Hr. destruct e; cbn in He, Hr; try done.
  - destruct He as [_ He]. by specialize (He Hr).
  - by specialize (He Hr).
Qed.

Lemma daemon_verb_no_rewrite H p v name s :
  no_rewrite p s (lifecycle H p false (defaultRegistry H p) v (WithNoRewriteContext background) name s).2.
Proof.
  apply emits_no_rewrite. apply lifecycle_emits; try done; [apply defaultRegistry_ok|by left].
Qed.

Lemma daemon_status_no_rewrite H p name s : no_rewrite p s (Status H (defaultRegistry H p) background name s).2.
Proof.
  apply emits_no_rewrite. pose proof (sudo_plain p). apply emits_Status; try done. apply defaultRegistry_ok.
Qed.

Lemma backend_no_rewrite H p name s :
  let ctl := controller_backend H p (defaultRegistry H p) in
  no_rewrite p s (Services.ServiceStart ctl name s).2 ∧ no_rewrite p s (Services.ServiceStop ctl name s).2 ∧
  no_rewrite p s (Services.ServiceRestart ctl name s).2 ∧ no_rewrite p s (Services.ServiceStatus ctl name s).2.
Proof.
  intros ctl. cbn [ctl controller_backend Services.ServiceStart Services.ServiceStop Services.ServiceRestart Services.ServiceStatus].
  pose proof (λ v, daemon_verb_no_rewrite H p v name s) as Hv. pose proof (daemon_status_no_rewrite H p name s) as Hs.
  split_and!; [specialize (Hv VStart)|specialize (Hv VStop)|specialize (Hv VRestart)|];
    try (by destruct (lifecycle _ _ _ _ _ _ _ _)).
  by destruct (Status _ _ _ _ _) as [[? []] ?].
Qed.


(** ** A host to try it on: commands succeed, files are there, processes die when
    told to; the processes are those of [demo_table]. *)
Definition demo_table : list entry :=
  [{| e_PID := 40; e_Exe := ""; e_Argv := ["/opt/zextras/common/sbin/saslauthd"; "-r"]; e_Comm := "" |};
   {| e_PID := 41; e_Exe := ""; e_Argv := ["tail"; "-f"; "/opt/zextras/log/saslauthd.log"]; e_Comm := "" |}].

Definition demo_host : Host :=
  {| h_Run := λ _ _ _, RunOk ""; h_Start := λ _ _ _, Some 99; h_Table := λ _, Some demo_table;
     h_Entry := λ _ pid, List.find (λ e, e_PID e =? pid) demo_table; h_Zombie := λ _ _, false;
     h_Alive := λ log pid, negb (existsb (λ e, match e with ESignal q _ _ => q =? pid | _ => false end) log);
     h_Signal := λ _ _ _, SigOk; h_SignalGroup := λ _ _ _, SigOk; h_Pid := 1; h_Ppid := 2; h_UID := 0;
     h_Stat := λ _ _, StatOk; h_ReadFile := λ _ _, ReadMissing; h_ReadDir := λ _ _, (Some [], true);
     h_Open := λ _ _, true; h_Mkdir := λ _ _, true; h_Remove := λ _ _, true; h_Write := λ _ _, true;
     h_LookupGID := λ _ _, None; h_Chown := λ _ _, true; h_delay := λ _, 0%N; h_Done := λ _, false;
     h_Config := λ _, Some ∅; h_Net := λ _ _, true; h_Directory := λ _, Some [] |}.

Definition demo_ctl (systemd : bool) : Ctl :=
  {| cl_log := []; cl_now := 0; cl_mode := Some systemd; cl_booted := Some true; cl_snap := None; cl_deep := false |}.

Definition demo_paths : paths := newPaths "/opt/zextras" "/run/carbonio".

Definition demo_events (systemd : bool) (v : Verb) (name : string) : list Event :=
  List.filter (λ e, match e with ERun _ _ _ | EStart _ _ _ | ESignal _ _ _ => true | _ => false end)
    (rev (cl_log (lifecycle demo_host demo_paths false (defaultRegistry demo_host demo_paths) v background name (demo_ctl systemd)).2)).


(** The restart of the MTA from the daemon reloads postfix and restarts saslauthd,
    without a rewrite; from the command line it rewrites the configuration first. *)
Example mta_restart :
  let run ctx := List.filter (λ e, match e with ERun _ _ _ | EStart _ _ _ | ESignal _ _ _ => true | _ => false end)
    (rev (cl_log (lifecycle demo_host demo_paths false (defaultRegistry demo_host demo_paths) VRestart ctx "mta" (demo_ctl false)).2)) in
  let sudo args := ERun sudoBin ("-n" :: "/opt/zextras/common/sbin/postfix" :: args) (RunOk "") in
  run (WithNoRewriteContext background) = [ESignal 40 SIGTERM SigOk; sudo ["reload"]] ∧
  head (run background) = Some (ERun "/opt/zextras/libexec/configrewrite" ["antispam"; "antivirus"; "opendkim"; "mta"; "sasl"] (RunOk "")).
Proof. split; vm_compute; reflexivity. Qed.
