(* ===== verification/Hooks.v ===== *)
(** * Hooks: the service backend of a pod

    internal/services/hooks.go: instead of managing processes, the backend signals them
    and runs commands, as the hooks file says.  The file is its decoded JSON, as the
    entries in the order in which Go ranges over the maps.  The host is that of [Host],
    the registry that of the controller. *)
From S2P Require Import Prelude Config Services Host ProcIdent Launch Launchers Controller Registry RegistryProps.
Open Scope Z_scope.

(** ** The hooks file *)
Definition hookStart : string := "start".
Definition hookStop : string := "stop".
Definition hookRestart : string := "restart".
Definition hookStatus : string := "status".
Definition hookWildcard : string := "*".
Definition specSkip : string := "skip".
Definition specProcess : string := "process".
Definition specSignal : string := "signal:".
Definition specExec : string := "exec:".

Abbreviation HookActions := (list (string * list string)).
Abbreviation Hooks := (list (string * HookActions)).

Inductive HookKind :=
  | KSkip
  | KProcess
  | KSignal (sig : Sig) (service : string)
  | KExec (argv : list string).

Record hookSpec := { hs_raw : string; hs_kind : HookKind }.

(** [ErrHooks], [ErrHooksMissing] and the other errors, with their subjects. *)
Inductive HookErr :=
  | ErrHooks (msg : string)
  | ErrHooksMissing (what : string)
  | HookUnknownService (name : string)
  | errNoProcess (name : string)
  | SignalError (name : string)
  | CommandExit
  | CommandError (path : string)
  | HookFailed (action name raw : string) (e : HookErr).

Definition signals (name : string) : option Sig :=
  if String.eqb name "HUP" then Some SIGHUP else if String.eqb name "INT" then Some SIGINT
  else if String.eqb name "QUIT" then Some SIGQUIT else if String.eqb name "TERM" then Some SIGTERM
  else if String.eqb name "KILL" then Some SIGKILL else if String.eqb name "USR1" then Some SIGUSR1
  else if String.eqb name "USR2" then Some SIGUSR2 else None.

(** The parsed hooks by service and action.  An entry replaces one whose name differs in
    case only. *)
Abbreviation HookBackend := (gmap string (gmap string (list hookSpec))).

Section backend.
Variable reg : Registry.

(** signal:<SIG>[@<service>] *)
Definition parseSignalSpec (raw : string) : hookSpec + HookErr :=
  let s := TrimPrefix raw specSignal in
  let '(name, target) := match CutByte "@" s with Some (a, b) => (a, b) | None => (s, "") end in
  match signals (TrimPrefix (ToUpper name) "SIG") with
  | None => inr (ErrHooks "unknown signal")
  | Some sig =>
      if String.eqb target "" then inl {| hs_raw := raw; hs_kind := KSignal sig "" |}
      else match lookup_service reg (ToLower target) with
           | None => inr (ErrHooks "unknown service")
           | Some _ => inl {| hs_raw := raw; hs_kind := KSignal sig (ToLower target) |}
           end
  end.

Definition parseHookSpec (action raw : string) : hookSpec + HookErr :=
  if String.eqb raw specSkip then
    if String.eqb action hookStatus then inr (ErrHooks "cannot answer a status")
    else inl {| hs_raw := raw; hs_kind := KSkip |}
  else if String.eqb raw specProcess then
    if String.eqb action hookStatus then inl {| hs_raw := raw; hs_kind := KProcess |}
    else inr (ErrHooks "only valid for status")
  else if HasPrefix raw specSignal then
    if String.eqb action hookStatus then inr (ErrHooks "cannot answer a status") else parseSignalSpec raw
  else if HasPrefix raw specExec then
    match Fields (TrimPrefix raw specExec) with
    | [] => inr (ErrHooks "no command")
    | argv => inl {| hs_raw := raw; hs_kind := KExec argv |}
    end
  else inr (ErrHooks "unknown hook").

Fixpoint parse_list (action : string) (raws : list string) : list hookSpec + HookErr :=
  match raws with
  | [] => inl []
  | raw :: raws =>
      match parseHookSpec action raw with
      | inr e => inr e
      | inl spec => match parse_list action raws with inr e => inr e | inl specs => inl (spec :: specs) end
      end
  end.

Fixpoint parseServiceHooks (actions : HookActions) : gmap string (list hookSpec) + HookErr :=
  match actions with
  | [] => inl ∅
  | (action, raws) :: actions =>
      if negb (bool_decide (action ∈ [hookStart; hookStop; hookRestart; hookStatus])) then inr (ErrHooks "unknown action")
      else match raws with
           | [] => inr (ErrHooks "no hook")
           | _ => match parse_list action raws with
                  | inr e => inr e
                  | inl specs => match parseServiceHooks actions with
                                 | inr e => inr e
                                 | inl parsed => inl (<[action := specs]> parsed)
                                 end
                  end
           end
  end.

Fixpoint new_hooks (hooks : Hooks) (b : HookBackend) : HookBackend + HookErr :=
  match hooks with
  | [] => inl b
  | (svc, actions) :: hooks =>
      let name := ToLower svc in
      if negb (String.eqb name hookWildcard) && negb (bool_decide (is_Some (lookup_service reg name)))
      then inr (ErrHooks "unknown service")
      else match parseServiceHooks actions with
           | inr e => inr e
           | inl parsed => new_hooks hooks (<[name := parsed]> b)
           end
  end.

Definition NewHookBackend (hooks : Hooks) : HookBackend + HookErr := new_hooks hooks ∅.

Definition own_specs (b : HookBackend) (service action : string) : list hookSpec := default [] (b !! service ≫= λ m, m !! action).

Definition specsFor (b : HookBackend) (service action : string) : list hookSpec :=
  match own_specs b service action with [] => own_specs b hookWildcard action | specs => specs end.

Definition canonical (name : string) : string :=
  match lookup_service reg (ToLower name) with Some def => Name def | None => ToLower name end.

Definition uncovered (b : HookBackend) (action : string) (services : list string) : list string :=
  omap (λ svc, match specsFor b (canonical svc) action with [] => Some (action +:+ ":" +:+ svc) | _ => None end) services.

(** What is not covered, sorted and without repetitions. *)
Definition Validate (b : HookBackend) (restart status : list string) : option (list string) :=
  match uncovered b hookRestart restart ++ uncovered b hookStatus status with
  | [] => None
  | missing => Some (remove_dups (merge_sort String.le missing))
  end.

(** ** Running hooks *)
Variable H : Host.

Definition exec (argv : list string) : M (option HookErr) :=
  match argv with
  | [] => mret None
  | path :: args =>
      r ← Run H path args;
      mret match r with RunOk _ => None | RunExit _ => Some CommandExit | RunFailed => Some (CommandError path) end
  end.

Definition signal (def : ServiceDef) (sig : Sig) (service : string) : M (option HookErr) :=
  let def := if String.eqb service "" then Some def else lookup_service reg service in
  match def with
  | None => mret None
  | Some def =>
      pid ← running_pid H reg background def;
      if pid <=? 0 then mret (Some (errNoProcess (Name def)))
      else r ← Signal H pid sig; mret match r with SigOk => None | _ => Some (SignalError (Name def)) end
  end.

(** [apply]; the parser lets no process hook through to it. *)
Definition apply_hook (def : ServiceDef) (spec : hookSpec) : M (option HookErr) :=
  match hs_kind spec with
  | KSkip => mret None
  | KSignal sig service => signal def sig service
  | KExec argv => exec argv
  | KProcess => exec []
  end.

Fixpoint run_hooks (def : ServiceDef) (action : string) (specs : list hookSpec) : M (option HookErr) :=
  match specs with
  | [] => mret None
  | spec :: specs =>
      e ← apply_hook def spec;
      match e with
      | Some e => mret (Some (HookFailed action (Name def) (hs_raw spec) e))
      | None => run_hooks def action specs
      end
  end.

Definition run (b : HookBackend) (name action : string) : M (option HookErr) :=
  match lookup_service reg (ToLower name) with
  | None => mret (Some (HookUnknownService name))
  | Some def =>
      match specsFor b (Name def) action with
      | [] => mret (Some (ErrHooksMissing (Name def)))
      | specs => run_hooks def action specs
      end
  end.

(** One status hook: running or not, or an error. *)
Definition status (def : ServiceDef) (spec : hookSpec) : M (bool + HookErr) :=
  match hs_kind spec with
  | KProcess => pid ← running_pid H reg background def; mret (inl (0 <? pid))
  | KExec argv =>
      e ← exec argv;
      mret match e with None => inl true | Some CommandExit => inl false | Some e => inr e end
  | _ => mret (inl true)
  end.

Fixpoint all_running (def : ServiceDef) (specs : list hookSpec) : M (bool + HookErr) :=
  match specs with
  | [] => mret (inl true)
  | spec :: specs =>
      r ← status def spec;
      match r with inl true => all_running def specs | r => mret r end
  end.

Definition HookStatus (b : HookBackend) (name : string) : M (bool + HookErr) :=
  match lookup_service reg (ToLower name) with
  | None => mret (inr (HookUnknownService name))
  | Some def =>
      match specsFor b (Name def) hookStatus with
      | [] => mret (inr (ErrHooksMissing (Name def)))
      | specs => all_running def specs
      end
  end.
End backend.

(** ** As the backend of the service manager *)
Fixpoint hook_text (e : HookErr) : string :=
  match e with
  | ErrHooks msg => "service hooks: " +:+ msg
  | ErrHooksMissing what => "service hooks missing: " +:+ what
  | HookUnknownService name => "unknown service: " +:+ name
  | errNoProcess name => "no running process: " +:+ name
  | SignalError name => "signal to " +:+ name
  | CommandExit => "exit status"
  | CommandError path => "run " +:+ path
  | HookFailed action name raw e => action +:+ " " +:+ name +:+ ": hook " +:+ raw +:+ ": " +:+ hook_text e
  end.

Definition hook_backend (reg : Registry) (H : Host) (b : HookBackend) : Backend Ctl :=
  let act action name s := let '(e, s) := run reg H b name action s in (hook_text <$> e, s) in
  {| Services.ServiceStart := act hookStart; Services.ServiceStop := act hookStop;
     Services.ServiceRestart := act hookRestart;
     Services.ServiceStatus := λ name s,
       match HookStatus reg H b name s with (inl r, s) => (inr r, s) | (inr e, s) => (inl (hook_text e), s) end;
     Services.LookupService := λ name, bool_decide (is_Some (lookup_service reg name));
     asHost := None; ctx_Err := Done H |}.

(** ** Every hook that runs is one of the file *)

(** [raw] is a hook of the file for [service], or for all services, and [action]. *)
Definition listed (hooks : Hooks) (service action raw : string) : Prop :=
  ∃ svc actions raws, (svc, actions) ∈ hooks ∧ (ToLower svc = service ∨ ToLower svc = hookWildcard) ∧
    (action, raws) ∈ actions ∧ raw ∈ raws.

(** A parsed hook comes from the file. *)
Definition sound (reg : Registry) (hooks : Hooks) (b : HookBackend) : Prop :=
  ∀ name action spec, spec ∈ own_specs b name action →
    parseHookSpec reg action (hs_raw spec) = inl spec ∧
    ∃ svc actions raws, (svc, actions) ∈ hooks ∧ ToLower svc = name ∧ (action, raws) ∈ actions ∧ hs_raw spec ∈ raws.

(** The signal a [signal:] hook names. *)
Definition signal_name (raw : string) : string :=
  let s := TrimPrefix raw specSignal in match CutByte "@" s with Some (a, _) => a | None => s end.

Lemma parseSignalSpec_inv reg raw spec :
  parseSignalSpec reg raw = inl spec →
  hs_raw spec = raw ∧ ∃ sig service, hs_kind spec = KSignal sig service ∧
    signals (TrimPrefix (ToUpper (signal_name raw)) "SIG") = Some sig.
Proof.
  unfold parseSignalSpec, signal_name. destruct (CutByte "@" _) as [[name target]|];
    (destruct (signals _) as [sig|] eqn:E; [|done]).
  - destruct (String.eqb target ""); [intros [= <-]; naive_solver|].
    destruct (lookup_service _ _); [intros [= <-]; naive_solver|done].
  - rewrite String.eqb_refl. intros [= <-]. naive_solver.
Qed.

Lemma parseHookSpec_inv reg action raw spec :
  parseHookSpec reg action raw = inl spec →
  hs_raw spec = raw ∧
  match hs_kind spec with
  | KSkip => action ≠ hookStatus
  | KProcess => action = hookStatus
  | KSignal _ _ => action ≠ hookStatus ∧ HasPrefix raw specSignal = true ∧ parseSignalSpec reg raw = inl spec
  | KExec argv => HasPrefix raw specExec = true ∧ Fields (TrimPrefix raw specExec) = argv ∧ argv ≠ []
  end.
Proof.
  unfold parseHookSpec. destruct (String.eqb_spec raw specSkip) as [->|]; [|destruct (String.eqb_spec raw specProcess) as [->|]].
  - destruct (String.eqb_spec action hookStatus); [done|]. by intros [= <-].
  - destruct (String.eqb_spec action hookStatus); [|done]. by intros [= <-].
  - destruct (HasPrefix raw specSignal) eqn:Es.
    + destruct (String.eqb_spec action hookStatus); [done|]. intros Hp.
      destruct (parseSignalSpec_inv _ _ _ Hp) as (Hr & sig & service & Hk & _). rewrite Hk. done.
    + destruct (HasPrefix raw specExec) eqn:Ee; [|done].
      destruct (Fields (TrimPrefix raw specExec)) eqn:Ef; [done|]. intros [= <-]. simpl. done.
Qed.

Lemma parse_list_in reg action raws specs spec :
  parse_list reg action raws = inl specs → spec ∈ specs →
  parseHookSpec reg action (hs_raw spec) = inl spec ∧ hs_raw spec ∈ raws.
Proof.
  revert specs. induction raws as [|raw raws IH]; intros specs; simpl; [intros [= <-] ?%elem_of_nil; done|].
  destruct (parseHookSpec reg action raw) as [sp|] eqn:E; [|done]. destruct (parse_list _ _ _); [|done].
  intros [= <-] [->|Hin]%elem_of_cons.
  - destruct (parseHookSpec_inv _ _ _ _ E) as [-> _]. split; [done|by left].
  - destruct (IH _ eq_refl Hin). split; [done|by right].
Qed.

Lemma parseServiceHooks_in reg actions parsed action specs spec :
  parseServiceHooks reg actions = inl parsed → parsed !! action = Some specs → spec ∈ specs →
  parseHookSpec reg action (hs_raw spec) = inl spec ∧ ∃ raws, (action, raws) ∈ actions ∧ hs_raw spec ∈ raws.
Proof.
  revert parsed specs. induction actions as [|[a raws] actions IH]; intros parsed specs; simpl; [by intros [= <-]|].
  destruct (negb _); [done|]. destruct raws as [|r rs] eqn:Er; [done|]. rewrite <- Er in *.
  destruct (parse_list reg a raws) as [sps|] eqn:El; [|done].
  destruct (parseServiceHooks reg actions) as [parsed'|]; [|done]. intros [= <-].
  intros [[-> ->]|[Hne Hl]]%lookup_insert_Some Hin.
  - destruct (parse_list_in _ _ _ _ _ El Hin). split; [done|]. exists raws. split; [by left|done].
  - destruct (IH _ _ eq_refl Hl Hin) as [? (raws' & ? & ?)]. split; [done|]. exists raws'. split; [by right|done].
Qed.

Lemma NewHookBackend_sound reg hooks b : NewHookBackend reg hooks = inl b → sound reg hooks b.
Proof.
  assert (Hg : ∀ rest b0, (∀ e, e ∈ rest → e ∈ hooks) → sound reg hooks b0 → new_hooks reg rest b0 = inl b → sound reg hooks b).
  { induction rest as [|[svc actions] rest IH]; intros b0 Hsub Hs; simpl; [by intros [= <-]|].
    destruct (_ && _); [done|]. destruct (parseServiceHooks reg actions) as [parsed|] eqn:Ep; [|done].
    apply IH; [intros; apply Hsub; by right|]. intros name action spec. unfold own_specs.
    destruct (decide (name = ToLower svc)) as [->|Hne]; [rewrite lookup_insert_eq|rewrite lookup_insert_ne by done; apply Hs].
    simpl. destruct (parsed !! action) as [specs|] eqn:Ea; [|intros ?%elem_of_nil; done]. intros Hin.
    destruct (parseServiceHooks_in _ _ _ _ _ _ Ep Ea Hin) as [Hp (raws & ? & ?)]. split; [done|].
    exists svc, actions, raws. split_and!; try done. apply Hsub. by left. }
  apply Hg; [done|]. intros ? ? ?. unfold own_specs. rewrite lookup_empty. by intros ?%elem_of_nil.
Qed.

Lemma specsFor_listed reg hooks b service action spec :
  sound reg hooks b → spec ∈ specsFor b service action →
  parseHookSpec reg action (hs_raw spec) = inl spec ∧ listed hooks service action (hs_raw spec).
Proof.
  intros Hs Hin. assert (Hin' : spec ∈ own_specs b service action ∨ spec ∈ own_specs b hookWildcard action).
  { unfold specsFor in Hin. destruct (own_specs b service action); [by right|by left]. }
  destruct Hin' as [(Hp & svc & actions & raws & ? & ? & ? & ?)%Hs|(Hp & svc & actions & raws & ? & ? & ? & ?)%Hs];
    (split; [done|]); exists svc, actions, raws; auto.
Qed.

(** ** What the hooks of a service may do to the host

    [only P m]: all events that [m] adds to the log satisfy [P]. *)
Definition only {A} (P : Event → Prop) (m : M A) : Prop :=
  ∀ s, ∃ new, cl_log (m s).2 = new ++ cl_log s ∧ Forall P new.

Lemma only_ret {A} P (a : A) : only P (mret a).
Proof. intros s. by exists []. Qed.

Lemma only_bind {A B} P (m : M A) (f : A → M B) : only P m → (∀ a, only P (f a)) → only P (m ≫= f).
Proof.
  intros Hm Hf s. unfold mbind, M_bind. destruct (Hm s) as (n1 & H1 & F1). destruct (m s) as [a s1]. cbn in *.
  destruct (Hf a s1) as (n2 & H2 & F2). exists (n2 ++ n1). rewrite H2, H1, app_assoc. split; [done|]. by apply Forall_app.
Qed.

Lemma only_ask {A} P (answer : Log → A) ev : (∀ a, P (ev a)) → only P (ask answer ev).
Proof. intros HP s. exists [ev (answer (cl_log s))]. split; [done|]. by constructor. Qed.

Lemma only_collect {A B} P (f : A → M (option B)) l : (∀ x, only P (f x)) → only P (collect f l).
Proof.
  intros Hf. induction l as [|x l IH]; [apply only_ret|]. apply only_bind; [done|]. intros b.
  apply only_bind; [done|]. intros. apply only_ret.
Qed.

(** Looking at processes and files. *)
Definition looks (e : Event) : Prop :=
  match e with
  | ERun _ _ _ | EStart _ _ _ | ESignal _ _ _ | ESignalGroup _ _ _ | EOpen _ _ | EMkdir _ _ | ERemove _ _
  | EWrite _ _ _ | EChown _ _ _ | ENet _ _ => False
  | _ => True
  end.

Section looking.
Context (H : Host) (reg : Registry).

Lemma only_pidFromProcessName name : only looks (pidFromProcessName H background name).
Proof.
  unfold pidFromProcessName. destruct (String.eqb name ""); [apply only_ret|]. apply only_bind; [|intros; apply only_ret].
  unfold scanProcessesForStatus, scanProcesses, scan. simpl. apply only_bind; [by apply only_ask|].
  intros t. destruct (sorted_table t); [|apply only_ret]. apply only_bind; [|intros; apply only_ret].
  apply only_collect. intros e. destruct (entryMatches e name); [|apply only_ret].
  apply only_bind; [by apply only_ask|intros; apply only_ret].
Qed.

Lemma only_pidBelongsTo pid name : only looks (pidBelongsTo H background pid name).
Proof.
  unfold pidBelongsTo. destruct (String.eqb name ""); [by apply only_ask|]. simpl. apply only_bind; [by apply only_ask|].
  intros [e|]; [|apply only_ret]. apply only_bind; [by apply only_ask|intros; apply only_ret].
Qed.

Lemma only_runningPID fuel def : only looks (runningPID H fuel reg background def).
Proof.
  revert def. induction fuel as [|fuel IH]; intros def; cbn [runningPID];
    (destruct (if String.eqb (DetailMember def) "" then _ else _) as [member|];
     [first [apply IH | intros s; by exists []]|]);
    (apply only_bind; [destruct (String.eqb (PidFile def) ""); [apply only_ret|];
        (apply only_bind; [apply only_bind; [by apply only_ask|intros; apply only_ret]|]);
        intros [pid|]; [|apply only_ret]; apply only_bind; [apply only_pidBelongsTo|intros; apply only_ret]
      |intros [pid|]; [apply only_ret|apply only_pidFromProcessName]]).
Qed.
End looking.

(** What the file prescribes for a service and an action: commands that are the words of
    an [exec:] hook, signals of a [signal:] hook, and looking. *)
Definition prescribed (hooks : Hooks) (service action : string) (e : Event) : Prop :=
  match e with
  | ERun path args _ => ∃ raw, listed hooks service action raw ∧ HasPrefix raw specExec = true ∧
                               Fields (TrimPrefix raw specExec) = path :: args
  | ESignal _ sig _ => action ≠ hookStatus ∧
      ∃ raw, listed hooks service action raw ∧ HasPrefix raw specSignal = true ∧
             signals (TrimPrefix (ToUpper (signal_name raw)) "SIG") = Some sig
  | e => looks e
  end.

Lemma looks_prescribed hooks service action {A} (m : M A) : only looks m → only (prescribed hooks service action) m.
Proof.
  intros Hm s. destruct (Hm s) as (new & Hn & HF). exists new. split; [done|]. eapply Forall_impl; [exact HF|].
  intros e. by destruct e.
Qed.

Section prescribed.
Context (reg : Registry) (hooks : Hooks) (b : HookBackend) (H : Host) (def : ServiceDef).
Hypothesis Hsound : sound reg hooks b.

Lemma only_exec action spec argv :
  listed hooks (Name def) action (hs_raw spec) → parseHookSpec reg action (hs_raw spec) = inl spec → hs_kind spec = KExec argv →
  only (prescribed hooks (Name def) action) (exec H argv).
Proof.
  intros Hl Hp Hk. destruct (parseHookSpec_inv _ _ _ _ Hp) as [_ Hi]. rewrite Hk in Hi. destruct Hi as (He & Hf & _).
  unfold exec. destruct argv as [|path args]; [apply only_ret|]. apply only_bind; [|intros; apply only_ret].
  apply only_ask. intros r. simpl. eauto.
Qed.

Lemma only_apply_hook action spec :
  spec ∈ specsFor b (Name def) action → only (prescribed hooks (Name def) action) (apply_hook reg H def spec).
Proof.
  intros [Hp Hl]%(specsFor_listed reg hooks); [|done]. destruct (parseHookSpec_inv _ _ _ _ Hp) as [_ Hi].
  unfold apply_hook. destruct (hs_kind spec) as [| |sig service|argv] eqn:Hk; [apply only_ret|apply only_ret| |by eapply only_exec].
  destruct Hi as (Hns & Hpre & Hsig). destruct (parseSignalSpec_inv _ _ _ Hsig) as (_ & sig' & service' & Hk' & Hname).
  rewrite Hk in Hk'. injection Hk' as -> ->.
  unfold signal. destruct (if String.eqb service' "" then _ else _) as [d|]; [|apply only_ret].
  apply only_bind; [apply looks_prescribed, only_runningPID|]. intros pid. destruct (pid <=? 0); [apply only_ret|].
  apply only_bind; [|intros; apply only_ret]. apply only_ask. intros r. simpl. eauto 6.
Qed.

Lemma only_run_hooks action specs :
  (∀ spec, spec ∈ specs → spec ∈ specsFor b (Name def) action) →
  only (prescribed hooks (Name def) action) (run_hooks reg H def action specs).
Proof.
  induction specs as [|spec specs IH]; intros Hin; [apply only_ret|]. apply only_bind; [apply only_apply_hook, Hin; by left|].
  intros [e|]; [apply only_ret|]. apply IH. intros. apply Hin. by right.
Qed.

Lemma only_all_running specs :
  (∀ spec, spec ∈ specs → spec ∈ specsFor b (Name def) hookStatus) →
  only (prescribed hooks (Name def) hookStatus) (all_running reg H def specs).
Proof.
  induction specs as [|spec specs IH]; intros Hin; [apply only_ret|]. apply only_bind.
  - destruct (specsFor_listed reg hooks b (Name def) hookStatus spec) as [Hp Hl]; [done|apply Hin; by left|].
    unfold status. destruct (hs_kind spec) as [| |sig service|argv] eqn:Hk; try apply only_ret.
    + apply only_bind; [apply looks_prescribed, only_runningPID|intros; apply only_ret].
    + apply only_bind; [by eapply only_exec|intros; apply only_ret].
  - intros [[|]|e]; [|apply only_ret..]. apply IH. intros. apply Hin. by right.
Qed.
End prescribed.

(** C21: in a pod the daemon does to the services only what the hooks file says.  Whatever
    the host answers: starting, stopping or restarting a service runs no command but the
    words of an [exec:] hook listed for that service (or for all) and that action, sends
    no signal but that of such a [signal:] hook, and otherwise only looks at processes
    and files; asking for a status sends no signal at all. *)
Theorem hook_backend_contained reg hooks b H name action def s :
  NewHookBackend reg hooks = inl b → lookup_service reg (ToLower name) = Some def →
  (∃ new, cl_log (run reg H b name action s).2 = new ++ cl_log s ∧ Forall (prescribed hooks (Name def) action) new) ∧
  (∃ new, cl_log (HookStatus reg H b name s).2 = new ++ cl_log s ∧
          Forall (λ e, prescribed hooks (Name def) hookStatus e ∧ ∀ pid sig r, e ≠ ESignal pid sig r) new).
Proof.
  intros Hb%NewHookBackend_sound Hdef. unfold run, HookStatus. rewrite Hdef. split.
  - destruct (specsFor b (Name def) action) as [|spec specs] eqn:E; [by exists []|].
    apply (only_run_hooks reg hooks b H def); [done|]. intros sp Hsp. by rewrite E.
  - destruct (specsFor b (Name def) hookStatus) as [|spec specs] eqn:E; [by exists []|].
    destruct (only_all_running reg hooks b H def Hb (spec :: specs) ltac:(intros sp Hsp; by rewrite E) s) as (new & Hn & HF).
    exists new. split; [done|]. eapply Forall_impl; [exact HF|]. intros e He. split; [done|].
    intros pid sig r ->. by destruct He.
Qed.

Definition demo_hooks : Hooks :=
  [("saslauthd", [("restart", ["signal:HUP"; "exec:/bin/notify saslauthd"]); ("status", ["process"])]);
   ("*", [("restart", ["skip"])])].

Definition demo_registry : Registry := defaultRegistry demo_host demo_paths.

Definition demo_backend : HookBackend := match NewHookBackend demo_registry demo_hooks with inl b => b | inr _ => ∅ end.

Definition acted (l : Log) : Log :=
  List.filter (λ e, match e with ERun _ _ _ | EStart _ _ _ | ESignal _ _ _ => true | _ => false end) (rev l).

Lemma hook_backend_contained_witness :
  acted (cl_log (run demo_registry demo_host demo_backend "saslauthd" hookRestart (demo_ctl false)).2) =
    [ESignal 40 SIGHUP SigOk; ERun "/bin/notify" ["saslauthd"] (RunOk "")] ∧
  (∃ new, cl_log (run demo_registry demo_host demo_backend "saslauthd" hookRestart (demo_ctl false)).2 = new ++ [] ∧
          Forall (prescribed demo_hooks "saslauthd" hookRestart) new).
Proof.
  split; [vm_compute; reflexivity|].
  assert (Hb : NewHookBackend demo_registry demo_hooks = inl demo_backend).
  { assert (Hok : match NewHookBackend demo_registry demo_hooks with inl _ => true | inr _ => false end = true)
      by (vm_compute; reflexivity).
    revert Hok. unfold demo_backend. by destruct (NewHookBackend demo_registry demo_hooks). }
  assert (Hn' : Name <$> lookup_service demo_registry (ToLower "saslauthd") = Some "saslauthd") by (vm_compute; reflexivity).
  destruct (lookup_service demo_registry (ToLower "saslauthd")) as [def|] eqn:Hdef; [|done].
  assert (Hn : Name def = "saslauthd") by by injection Hn'.
  pose proof (proj1 (hook_backend_contained demo_registry demo_hooks demo_backend demo_host "saslauthd" hookRestart def
                       (demo_ctl false) Hb Hdef)) as Hc.
  rewrite Hn in Hc. exact Hc.
Defined.

(** ** Validation *)

(** A service the validation passed never lacks a hook when it is restarted. *)
Lemma validated_has_hooks reg H b restart status_ name s e s' :
  Validate reg b restart status_ = None → name ∈ restart →
  run reg H b name hookRestart s = (Some e, s') → ∀ what, e ≠ ErrHooksMissing what.
Proof.
  intros HV Hin. unfold run. destruct (lookup_service reg (ToLower name)) as [def|] eqn:Hdef; [|by intros [= <- _]].
  assert (Hs : specsFor b (Name def) hookRestart ≠ []).
  { intros Hs. unfold Validate in HV. destruct (uncovered reg b hookRestart restart ++ _) eqn:E; [|done].
    apply app_eq_nil in E as [E _]. assert (Hx : hookRestart +:+ ":" +:+ name ∈ uncovered reg b hookRestart restart).
    { apply list_elem_of_omap. exists name. split; [done|]. unfold canonical. by rewrite Hdef, Hs. }
    rewrite E in Hx. by apply elem_of_nil in Hx. }
  destruct (specsFor b (Name def) hookRestart) as [|spec specs]; [done|]. generalize (spec :: specs). clear Hs.
  intros l. revert s. induction l as [|sp l IH]; intros s; simpl; [done|]. unfold mbind, M_bind.
  destruct (apply_hook _ _ _ _ s) as [[e'|] s1]; [by intros [= <- _] what|apply IH].
Qed.

(** ** Aliases in the hooks file

    A hooks file may name a service by an alias of the registry: it is accepted, but the
    hooks are kept under the alias and looked up under the service's own name. *)
Example alias_hooks_ignored :
  let b := match NewHookBackend demo_registry [("directory", [("restart", ["exec:/bin/true"])])] with
           | inl b => Some b | inr _ => None end in
  (λ b, ((run demo_registry demo_host b "directory" hookRestart (demo_ctl false)).1,
         Validate demo_registry b ["directory"] [])) <$> b
  = Some (Some (ErrHooksMissing "ldap"), Some ["restart:directory"]).
Proof. vm_compute. reflexivity. Qed.
