(* ===== verification/Tmpl.v ===== *)
(** * Tmpl: the template language of the nginx proxy

    Models internal/proxy/tmpl: the patterns, the line renderer and the explode
    directive of tmpl.go, and the lexer and the brace scanner of lex.go.  A regular
    expression is the function that its leftmost match is: all of them are anchored
    or search for one fixed opening, and no two adjacent repetitions can match the
    same byte, so that there is nothing to backtrack over. *)
From S2P Require Import Prelude.

(** ** The patterns *)

(** The longest prefix of bytes with [P], and the rest. *)
Fixpoint span (P : ascii → bool) (s : string) : string * string :=
  match s with
  | String c s' => if P c then let '(a, b) := span P s' in (String c a, b) else ("", s)
  | "" => ("", "")
  end.

Definition eqc (c x : ascii) : bool := Ascii.eqb x c.
(** [\s] *)
Definition re_space (c : ascii) : bool := in_range 9 10 c || in_range 12 13 c || eqc " " c.
(** The blanks of [TrimLeft(s, ' \t')]. *)
Definition blank (c : ascii) : bool := eqc " " c || eqc tab c.
Definition lower_digit (c : ascii) : bool := in_range 97 122 c || in_range 48 57 c || eqc "_" c.
(** [\w] *)
Definition word_char (c : ascii) : bool := lower_digit c || in_range 65 90 c.
Definition var_char (c : ascii) : bool :=
  in_range 97 122 c || in_range 65 90 c || in_range 48 57 c || eqc "." c || eqc "_" c || eqc ":" c.
Definition not_brace (c : ascii) : bool := negb (eqc "}" c).
Definition no_newline (s : string) : bool := chars (λ c, negb (eqc newline c)) s.

Definition non_empty (s : string) : bool := negb (String.eqb s "").

Definition reference (name : string) : string := "${" +:+ name +:+ "}".

(** [${name}] at the start of [s], its name of bytes [P]: the name and the rest. *)
Definition ref_of (P : ascii → bool) (s : string) : option (string * string) :=
  match s with
  | String "$" (String "{" s) =>
      let '(name, rest) := span P s in
      match rest with
      | String "}" rest => if non_empty name then Some (name, rest) else None
      | _ => None
      end
  | _ => None
  end.

(** [VarPattern], at the start of [s]. *)
Definition var_at (s : string) : option (string * string) := ref_of var_char s.

(** A line cut at the matches of [VarPattern]. *)
Inductive Piece := PText (t : string) | PVar (name : string).

Definition add_char (c : ascii) (l : list Piece) : list Piece :=
  match l with PText t :: l => PText (String c t) :: l | _ => PText (String c "") :: l end.

Fixpoint pieces_go (skip : nat) (s : string) : list Piece :=
  match s with
  | "" => []
  | String c s' =>
      match skip with
      | S skip => pieces_go skip s'
      | O =>
          match var_at s with
          | Some (name, _) => PVar name :: pieces_go (S (S (String.length name))) s'
          | None => add_char c (pieces_go 0 s')
          end
      end
  end.
Definition pieces (s : string) : list Piece := pieces_go 0 s.

(** [EnablerPattern]: the indentation, the name, the rest of the line. *)
Definition EnablerPattern (s : string) : option (string * string * string) :=
  let '(indent, s) := span re_space s in
  match ref_of not_brace s with
  | Some (name, rest) => if non_empty rest && no_newline rest then Some (indent, name, rest) else None
  | None => None
  end.

(** [EmptyDirectivePattern] *)
Definition EmptyDirectivePattern (s : string) : bool :=
  let '(a, s) := span re_space s in
  let '(b, s) := span lower_digit s in
  let '(c, s) := span re_space s in
  non_empty a && non_empty b && non_empty c && HasPrefix s ";".

(** [ExplodePattern] *)
Definition ExplodePattern (s : string) : option (string * string) :=
  match CutPrefix s "!{explode" with
  | (s, true) =>
      let '(a, s) := span re_space s in
      let '(typ, s) := span word_char s in
      match s with
      | String "(" s =>
          let '(args, s) := span (λ c, negb (eqc ")" c)) s in
          if non_empty a && non_empty typ && HasPrefix s ")}" then Some (typ, args) else None
      | _ => None
      end
  | (_, false) => None
  end.

(** ** tmpl.go *)
Definition ExplodeMarker : string := "!{explode".
Definition ExplodeDomain : string := "domain".
Definition ExplodeServer : string := "server".
Definition VarVHN : string := "vhn".
Definition VarVIP : string := "vip".
Definition VarSSLCrt : string := "ssl.crt".
Definition VarSSLKey : string := "ssl.key".
Definition VarSSLClientCA : string := "ssl.clientcertca".
Definition VarServerID : string := "server_id".
Definition VarServerHostname : string := "server_hostname".
Definition ConfPrefix : string := "nginx.conf".

Inductive Kind := KindText | KindScalar | KindEnabler.

(** [Enabler]: whether the name is an enabler variable and, if so, whether it is on.
    [Value]: the text of a known variable. *)
Record Resolver := { Enabler_ : string → option bool; Value_ : string → option string }.

Definition TrimSuffix (s suf : string) : string :=
  if HasSuffix s suf then take_string (String.length s - String.length suf) s else s.

Definition nl : string := String newline "".

Definition SplitLines (content : string) : list string :=
  if String.eqb content "" then [] else SplitByte newline (TrimSuffix content nl).

Definition IsCommentLine (line : string) : bool := HasPrefix (TrimSpace line) "#".

Definition ParseExplode (line : string) : option (string * string) := ExplodePattern line.

Definition DomainArgs (argsStr : string) : string + list string :=
  let argsStr := TrimSpace argsStr in
  if String.eqb argsStr "" then inl "explode domain directive requires at least one argument"
  else
    let args := map TrimSpace (SplitByte "," argsStr) in
    if existsb (String.eqb "") args then inl "explode domain directive has empty argument" else inr args.

Definition ServerService (argsStr : string) : string + string :=
  let service := TrimSpace argsStr in
  if String.eqb service "" then inl "service name required for server explode directive" else inr service.

Definition ExplodeVariables (typ : string) : list string :=
  if String.eqb typ ExplodeDomain then [VarVHN; VarVIP; VarSSLCrt; VarSSLKey; VarSSLClientCA]
  else if String.eqb typ ExplodeServer then [VarServerID; VarServerHostname] else [].

Definition OutputName (templateName templatePrefix confPrefix : string) : option string :=
  let name := TrimSuffix templateName ".template" in
  if String.eqb templatePrefix ConfPrefix && String.eqb confPrefix ConfPrefix then Some name
  else if negb (String.eqb name templatePrefix) && negb (HasPrefix name (templatePrefix +:+ ".")) then None
  else Some (confPrefix +:+ TrimPrefix name templatePrefix).

Definition placeholderIndent (before : string) : string := (span blank before).1.

(** [TrimLeft(s, ' \t')] *)
Definition TrimBlanks (s : string) : string := (span blank s).2.

Definition indent_line (indent line : string) : string := if String.eqb line "" then line else indent +:+ line.

Definition indentContinuation (text indent : string) : string :=
  if String.eqb indent "" || negb (Contains text nl) then text
  else match SplitByte newline text with
       | first :: rest => Join (first :: map (indent_line indent) rest) nl
       | [] => text
       end.

Section render.
Variable r : Resolver.

(** The text of a variable; an unknown one renders as the empty string. *)
Definition value (name : string) : string := default "" (Value_ r name).

(** [before] is the line up to the pieces. *)
Fixpoint expand_pieces (before : string) (ps : list Piece) : string :=
  match ps with
  | [] => ""
  | PText t :: ps => t +:+ expand_pieces (before +:+ t) ps
  | PVar name :: ps =>
      indentContinuation (value name) (placeholderIndent before) +:+ expand_pieces (before +:+ reference name) ps
  end.

Definition expandVars (line : string) : string := expand_pieces "" (pieces line).

Definition comment_out (indent line : string) : string :=
  if String.eqb (TrimBlanks line) "" then line else indent +:+ "#" +:+ TrimPrefix line indent.

Definition render_text (line : string) : string :=
  let result := expandVars line in
  if EmptyDirectivePattern result then "    # " +:+ TrimSpace result else result.

(** [RenderLine] and [renderEnabler], which call each other: an enabler prefix is
    dropped and the shorter line rendered. *)
Fixpoint render (fuel : nat) (line : string) : string :=
  match fuel with
  | O => line
  | S fuel =>
      match EnablerPattern line with
      | Some (indent, name, rest) =>
          match Enabler_ r name with
          | Some on =>
              let rendered := render fuel (indent +:+ rest) in
              if (on : bool) then rendered
              else Join (map (comment_out indent) (SplitByte newline rendered)) nl
          | None => render_text line
          end
      | None => render_text line
      end
  end.

Definition RenderLine (line : string) : string := render (S (String.length line)) line.
End render.

(** ** lex.go: tokens *)
Inductive TokenKind := Text | Enabler | Var.

Record Token := { tk_Kind : TokenKind; tk_Text : string; tk_Offset : nat }.

(** [appendVarTokens], without the tokens it appends to. *)
Fixpoint piece_tokens (base : nat) (ps : list Piece) : list Token :=
  match ps with
  | [] => []
  | PText t :: ps => {| tk_Kind := Text; tk_Text := t; tk_Offset := base |} :: piece_tokens (base + String.length t) ps
  | PVar name :: ps =>
      {| tk_Kind := Var; tk_Text := name; tk_Offset := base |} :: piece_tokens (base + String.length (reference name)) ps
  end.

Definition appendVarTokens (toks : list Token) (text : string) (base : nat) : list Token :=
  toks ++ piece_tokens base (pieces text).

(** The tokens of the prefix that [indent] and [name] make, at [pos]. *)
Definition prefix_tokens (pos : nat) (indent name : string) : list Token :=
  (if non_empty indent then [{| tk_Kind := Text; tk_Text := indent; tk_Offset := pos |}] else []) ++
  [{| tk_Kind := Enabler; tk_Text := name; tk_Offset := pos + String.length indent |}].

Fixpoint tokenize_go (fuel : nat) (toks : list Token) (pos : nat) (line : string) : list Token :=
  match fuel with
  | O => toks
  | S fuel =>
      match EnablerPattern line with
      | Some (indent, name, rest) =>
          tokenize_go fuel (toks ++ prefix_tokens pos indent name)
            (pos + String.length indent + String.length (reference name)) rest
      | None => appendVarTokens toks line pos
      end
  end.

Definition Tokenize (line : string) : list Token := tokenize_go (S (String.length line)) [] 0 line.

(** The length of the [${name}] that [text] starts with. *)
Fixpoint var_end_go (j : nat) (text : string) : option nat :=
  match text with
  | "" => None
  | String c text =>
      if eqc "}" c then (if (j =? 2)%nat then None else Some (S j))
      else if var_char c then var_end_go (S j) text else None
  end.

Definition varEnd (text : string) : option nat :=
  match text with String "$" (String "{" s) => var_end_go 2 s | _ => None end.

(** ** lex.go: the scan for braces *)
Record lineScan := {
  ls_opens : nat; ls_closes : nat; ls_leadClose : nat; ls_code : string; ls_continued : bool; ls_firstClose : option nat }.

Definition double_quote : ascii := ascii_of_nat 34.
Definition single_quote : ascii := ascii_of_nat 39.
Definition backslash : ascii := ascii_of_nat 92.

(** [count], with [leading] as part of the result. *)
Definition count (c : ascii) (i : nat) (leading : bool) (ls : lineScan) : lineScan * bool :=
  if eqc "{" c then
    ({| ls_opens := S (ls_opens ls); ls_closes := ls_closes ls; ls_leadClose := ls_leadClose ls; ls_code := ls_code ls;
        ls_continued := ls_continued ls; ls_firstClose := ls_firstClose ls |}, false)
  else if eqc "}" c then
    ({| ls_opens := ls_opens ls; ls_closes := S (ls_closes ls);
        ls_leadClose := if leading then S (ls_leadClose ls) else ls_leadClose ls; ls_code := ls_code ls;
        ls_continued := ls_continued ls;
        ls_firstClose := match ls_firstClose ls with None => Some i | f => f end |}, leading)
  else if blank c then (ls, leading) else (ls, false).

Definition with_code (code : string) (ls : lineScan) : lineScan :=
  {| ls_opens := ls_opens ls; ls_closes := ls_closes ls; ls_leadClose := ls_leadClose ls; ls_code := code;
     ls_continued := ls_continued ls; ls_firstClose := ls_firstClose ls |}.

(** The scan of [text] from offset [i] on, of which [s] is left: [skip] counts the
    bytes of an opaque token, [quote] is the open quote ([scanner]); a quote that
    closes goes on with the flags it was opened with. *)
Fixpoint scan_go (text : string) (s : string) (i skip : nat) (quote : option ascii) (leading tokenStart : bool)
    (ls : lineScan) : lineScan * option ascii :=
  match s with
  | "" => (ls, quote)
  | String c s' =>
      match skip, quote with
      | S skip, _ => scan_go text s' (S i) skip quote leading tokenStart ls
      | O, Some q =>
          if eqc backslash c then scan_go text s' (S i) 1 quote leading tokenStart ls
          else scan_go text s' (S i) 0 (if eqc q c then None else quote) leading tokenStart ls
      | O, None =>
          match if eqc "$" c then varEnd s else None with
          | Some n => scan_go text s' (S i) (pred n) None false false ls
          | None =>
              if eqc backslash c then scan_go text s' (S i) 1 None false false ls
              else if (eqc double_quote c || eqc single_quote c) && tokenStart then scan_go text s' (S i) 0 (Some c) false false ls
              else if eqc "#" c && tokenStart then (with_code (take_string i text) ls, None)
              else
                let '(ls, leading) := count c i leading ls in
                scan_go text s' (S i) 0 None leading (blank c || eqc ";" c || eqc "{" c || eqc "}" c) ls
          end
      end
  end.

(** [scan] with the state of the scanner, the open quote. *)
Definition scan (quote : option ascii) (text : string) : lineScan * option ascii :=
  let continued := match quote with Some _ => true | None => false end in
  scan_go text text 0 0 quote (negb continued) true
    {| ls_opens := 0; ls_closes := 0; ls_leadClose := 0; ls_code := text; ls_continued := continued; ls_firstClose := None |}.
