(* ===== verification/TmplFormat.v ===== *)
(** * TmplFormat: the template formatter

    Models internal/proxy/tmpl/format.go: the classification of the lines with the
    state carried from line to line, the alignment of runs of directives, and the
    passes that are repeated until nothing changes. *)
From S2P Require Import Prelude Tmpl.
Open Scope Z_scope.

Definition indentUnit : string := "    ".

Fixpoint Repeat (s : string) (n : nat) : string := match n with O => "" | S n => s +:+ Repeat s n end.

(** The string without its last bytes with [P] ([strings.TrimRight]). *)
Fixpoint drop_end (P : ascii → bool) (s : string) : string :=
  match s with
  | "" => ""
  | String c s =>
      match drop_end P s with
      | "" => if P c then "" else String c ""
      | t => String c t
      end
  end.

Definition carriage_return : ascii := ascii_of_N 13.
(** The set [' \t\r']. *)
Definition trailing (c : ascii) : bool := blank c || eqc carriage_return c.

(** [utf8.RuneCountInString] *)
Fixpoint rune_count (skip : nat) (s : string) : Z :=
  match s with
  | "" => 0
  | String _ s' =>
      match skip with
      | S skip => rune_count skip s'
      | O => 1 + rune_count (pred (default 1%nat (rune_size s))) s'
      end
  end.

Fixpoint IndexByte (c : ascii) (s : string) : option nat :=
  match s with "" => None | String x s => if eqc c x then Some O else S <$> IndexByte c s end.

(** [IsSwitch] and [LeadingSpace]; a nil function answers false. *)
Record FormatOptions := { IsSwitch : string → bool; LeadingSpace : string → bool }.

(** ** The patterns *)

(** As many [${...}] as follow each other: their number and the rest. *)
Fixpoint refs (fuel : nat) (s : string) : nat * string :=
  match fuel with
  | O => (O, s)
  | S fuel =>
      match ref_of not_brace s with
      | Some (_, rest) => let '(n, rest) := refs fuel rest in (S n, rest)
      | None => (O, s)
      end
  end.

(** At least one of [\s+${...}], then [\s*;]. *)
Fixpoint values (fuel : nat) (some : bool) (s : string) : bool :=
  match fuel with
  | O => false
  | S fuel =>
      let '(ws, t) := span re_space s in
      match ref_of not_brace t with
      | Some (_, rest) => if non_empty ws then values fuel true rest else false
      | None => some && HasPrefix t ";"
      end
  end.

Definition vanishingDirective (s : string) : bool :=
  let n := S (String.length s) in
  let '(_, s) := refs n s in
  let '(name, s) := span lower_digit s in
  non_empty name && values n false s.

Definition onlyVariables (s : string) : bool :=
  let '(n, rest) := refs (S (String.length s)) s in (0 <? n)%nat && String.eqb rest "".

(** ** Lines *)
Record fline := {
  f_raw : string;
  f_verbatim : bool;
  f_prefixes : list string;
  f_col0 : bool;
  f_body : string;
  f_level : Z;
  f_directive : bool;
  f_name : string;
  f_rest : string;
  f_gap : Z;
  f_lead : bool
}.

(** [String] of a line. *)
Definition fline_String (f : fline) : string :=
  if f_verbatim f then f_raw f
  else if String.eqb (f_body f) "" && bool_decide (f_prefixes f = []) then ""
  else if f_level f <? 0 then f_raw f
  else
    let indent := Repeat indentUnit (Z.to_nat (f_level f)) in
    (if f_col0 f then "" else indent) +:+
    match f_prefixes f with
    | [] => ""
    | p :: ps =>
        reference p +:+
        (if f_col0 f && (non_empty (f_body f) || bool_decide (ps ≠ [])) then indent else "") +:+
        foldr (λ p s, reference p +:+ s) "" ps
    end +:+ f_body f.

(** The state of the classification: the open quote, the depth, whether the previous
    code line is an unfinished statement. *)
Record classifier := { c_quote : option ascii; c_depth : nat; c_pending : bool }.

Section options.
Variable opts : FormatOptions.

(** The prefixes, the rest, and whether blanks were skipped between them. *)
Fixpoint split_prefixes_go (fuel : nat) (rest : string) : list string * string * bool :=
  match fuel with
  | O => ([], rest, false)
  | S fuel =>
      match varEnd rest with
      | None => ([], rest, false)
      | Some n =>
          let name := take_string (n - 3) (drop_string 2 rest) in
          if IsSwitch opts name then
            let after := drop_string n rest in
            let '(ps, body, ws) := split_prefixes_go fuel (TrimBlanks after) in
            (name :: ps, body, negb (String.eqb (TrimBlanks after) after) || ws)
          else ([], rest, false)
      end
  end.

(** The prefixes, the body, [hadWS] and [col0]. *)
Definition splitPrefixes (line : string) : list string * string * bool * bool :=
  let rest := TrimBlanks line in
  let hadWS := negb (String.eqb rest line) in
  let '(prefixes, body, ws) := split_prefixes_go (S (String.length rest)) rest in
  (prefixes, body, hadWS || ws, negb hadWS && bool_decide (prefixes ≠ [])).

(** The text of [code] without its variables. *)
Fixpoint pieces_text (ps : list Piece) : string :=
  match ps with [] => "" | PText t :: ps => t +:+ pieces_text ps | PVar _ :: ps => pieces_text ps end.

Fixpoint last_byte (s : string) : option ascii :=
  match s with "" => None | String c "" => Some c | String _ s => last_byte s end.

Definition finished (code : string) : bool :=
  match last_byte code with
  | Some c => eqc ";" c || eqc "{" c || eqc "}" c || String.eqb (TrimSpace (pieces_text (pieces code))) ""
  | None => String.eqb (TrimSpace (pieces_text (pieces code))) ""
  end.

Definition continuesStatement (code : string) (isComment : bool) (ls : lineScan) : bool :=
  negb isComment && non_empty code && negb (HasPrefix code "{") && (ls_leadClose ls =? 0)%nat.

Definition isDirective (code : string) (isComment : bool) (ls : lineScan) : bool :=
  non_empty code && negb isComment && (ls_opens ls + ls_closes ls =? 0)%nat && HasSuffix code ";".

Definition keepsColumn (level : Z) (prefixes : list string) (body : string) (hadWS : bool) : bool :=
  (vanishingDirective body && negb (Bool.eqb (0 <? level) hadWS)) ||
  ((0 <? level) && negb hadWS && bool_decide (prefixes = []) && onlyVariables body).

Definition startsWithLeadingSpace (text : string) : bool :=
  match varEnd text with
  | Some n => LeadingSpace opts (take_string (n - 3) (drop_string 2 text))
  | None => false
  end.

(** The end of the directive's name, [None] when a quoted name is not closed. *)
Definition name_end (code : string) : option nat :=
  start ← match code with
          | String c code' =>
              if eqc double_quote c || eqc single_quote c then (λ k, k + 2)%nat <$> IndexByte c code' else Some O
          | "" => Some O
          end;
  Some (start + String.length (span (λ c, negb (blank c)) (drop_string start code)).1)%nat.

Definition setDirective (code : string) (f : fline) : fline :=
  match name_end code with
  | None => f
  | Some e =>
      let name := take_string e code in
      let rest := TrimBlanks (drop_string e (f_body f)) in
      if (String.length code <=? e)%nat || String.eqb rest "" || String.eqb rest ";"
         || Contains name "${" || Contains name ";" then f
      else
        {| f_raw := f_raw f; f_verbatim := f_verbatim f; f_prefixes := f_prefixes f; f_col0 := f_col0 f; f_body := f_body f;
           f_level := f_level f; f_directive := true; f_name := name; f_rest := rest;
           f_gap := Z.of_nat (String.length (f_body f)) - Z.of_nat e - Z.of_nat (String.length rest);
           f_lead := startsWithLeadingSpace rest |}
  end.

Definition classifyLine (c : classifier) (line : string) : fline * classifier :=
  match c_quote c with
  | Some _ =>
      let '(ls, quote) := scan (c_quote c) line in
      ({| f_raw := TrimSuffix line (String carriage_return ""); f_verbatim := true; f_prefixes := []; f_col0 := false;
          f_body := ""; f_level := 0; f_directive := false; f_name := ""; f_rest := ""; f_gap := 0; f_lead := false |},
       {| c_quote := quote; c_depth := (c_depth c + ls_opens ls - ls_closes ls)%nat; c_pending := c_pending c |})
  | None =>
      let '(prefixes, body, hadWS, col0) := splitPrefixes line in
      let '(ls, quote) := scan None body in
      let body := match quote with Some _ => TrimBlanks body | None => drop_end trailing body end in
      let code := drop_end trailing (ls_code ls) in
      let isComment := HasPrefix body "#" in
      let continued := c_pending c && continuesStatement code isComment ls in
      let level := Z.of_nat (c_depth c - ls_leadClose ls) + (if continued then 1 else 0) in
      let c := {| c_quote := quote; c_depth := (c_depth c + ls_opens ls - ls_closes ls)%nat;
                  c_pending := if negb isComment && non_empty code then negb (finished code) else c_pending c |} in
      let level := if keepsColumn level prefixes body hadWS then -1 else level in
      let f := {| f_raw := drop_end trailing line; f_verbatim := false; f_prefixes := prefixes; f_col0 := col0; f_body := body;
                  f_level := level; f_directive := false; f_name := ""; f_rest := ""; f_gap := 0; f_lead := false |} in
      (if negb continued && isDirective code isComment ls && (0 <=? level) then setDirective code f else f, c)
  end.

Fixpoint classify_go (c : classifier) (lines : list string) : list fline :=
  match lines with
  | [] => []
  | line :: lines => let '(f, c) := classifyLine c line in f :: classify_go c lines
  end.

Definition classify (lines : list string) : list fline :=
  classify_go {| c_quote := None; c_depth := 0; c_pending := false |} lines.
End options.

(** ** Alignment *)
Definition width (f : fline) : Z := rune_count 0 (f_name f).
Definition natural (f : fline) : Z := width f + 1 + (if f_lead f then 1 else 0).
Definition col (f : fline) : Z := natural f - 1 + f_gap f.
Definition padded (f : fline) : bool := 1 <? f_gap f.

Definition linked (a b : fline) : bool :=
  if padded a && padded b then true
  else if padded a then col a <=? natural b
  else if padded b then col b <=? natural a
  else false.

Definition with_body (body : string) (f : fline) : fline :=
  {| f_raw := f_raw f; f_verbatim := f_verbatim f; f_prefixes := f_prefixes f; f_col0 := f_col0 f; f_body := body;
     f_level := f_level f; f_directive := f_directive f; f_name := f_name f; f_rest := f_rest f; f_gap := f_gap f;
     f_lead := f_lead f |}.

Definition alignGroup (group : list fline) : list fline :=
  let column := foldr Z.max 0 (map natural group) in
  map (λ f,
    let gap := if (1 <? length group)%nat then column - natural f + 1 else 1 in
    with_body (f_name f +:+ Repeat " " (Z.to_nat gap) +:+ f_rest f) f) group.

(** [group] is the chain of linked lines before [run]. *)
Fixpoint alignRun_go (group run : list fline) : list fline :=
  match run with
  | [] => alignGroup group
  | f :: run =>
      match last group with
      | None => alignRun_go [f] run
      | Some g => if linked g f then alignRun_go (group ++ [f]) run else alignGroup group ++ alignRun_go [f] run
      end
  end.
Definition alignRun (run : list fline) : list fline := alignRun_go [] run.

(** [run] is the run of directives of one level before [fl]. *)
Fixpoint alignRuns_go (run fl : list fline) : list fline :=
  match fl with
  | [] => alignRun run
  | f :: fl =>
      if f_directive f && match run with g :: _ => f_level f =? f_level g | [] => true end then alignRuns_go (run ++ [f]) fl
      else alignRun run ++ (if f_directive f then alignRuns_go [f] fl else f :: alignRuns_go [] fl)
  end.
Definition alignRuns (fl : list fline) : list fline := alignRuns_go [] fl.

(** ** Format *)
Section format.
Variable opts : FormatOptions.

Definition formatPass (lines : list string) : list string := map fline_String (alignRuns (classify opts lines)).

Definition maxPasses : nat := 16.

Fixpoint format_passes (n : nat) (lines : list string) : list string :=
  match n with
  | O => lines
  | S n => let out := formatPass lines in if decide (out = lines) then out else format_passes n out
  end.

Definition formatLines (lines : list string) : list string := format_passes maxPasses lines.

Definition unlines (lines : list string) : string := foldr (λ l s, l +:+ nl +:+ s) "" lines.

Definition Format (src : string) : string :=
  match SplitLines src with
  | [] => ""
  | first :: rest =>
      match ParseExplode first with
      | Some _ => first +:+ nl +:+ unlines (formatLines rest)
      | None => unlines (formatLines (first :: rest))
      end
  end.
End format.
