(* ===== verification/TmplProps.v ===== *)
(** * TmplProps: the lexer and the renderer of the template language

    The tokens of a line give the line back; which variables a line can look up; what
    enabler prefixes do. *)
From S2P Require Import Prelude Text Tmpl.

(** ** Patterns *)
Lemma span_spec P s :
  s = (span P s).1 +:+ (span P s).2 ∧ chars P (span P s).1 ∧
  match (span P s).2 with "" => True | String c _ => P c = false end.
Proof.
  induction s as [|c s (H1 & H2 & H3)]; [done|]. cbn [span]. destruct (P c) eqn:E; [|done].
  destruct (span P s) as [a b]. cbn in *. rewrite E, string_app_cons, <- H1. by destruct (chars P a).
Qed.

Lemma span_at P a s : chars P a → match s with "" => True | String c _ => P c = false end → span P (a +:+ s) = (a, s).
Proof.
  induction a as [|c a IH]; [intros _ Hs|cbn [chars]; intros [Hc Ha]%andb_prop_elim Hs].
  - rewrite string_app_nil_l. destruct s as [|c s]; [done|]. cbn [span]. by rewrite Hs.
  - rewrite string_app_cons. cbn [span]. destruct (P c); [|done]. by rewrite IH.
Qed.

Lemma span_more P a s : chars P a → span P (a +:+ s) = (a +:+ (span P s).1, (span P s).2).
Proof.
  intros Ha. destruct (span_spec P s) as (H1 & H2 & H3). rewrite H1 at 1. rewrite <- string_app_assoc.
  apply span_at; [by rewrite chars_app, andb_True|done].
Qed.

Lemma non_empty_true s : non_empty s = true ↔ s ≠ "".
Proof. unfold non_empty. rewrite negb_true_iff, String.eqb_neq. done. Qed.

Lemma ref_of_spec P s name rest :
  ref_of P s = Some (name, rest) → s = reference name +:+ rest ∧ name ≠ "" ∧ chars P name.
Proof.
  unfold ref_of. intros H. destruct s as [|c s]; [done|].
  destruct (decide (c = "$"%char)) as [->|Hc]; [|by destruct c as [[] [] [] [] [] [] [] []]].
  destruct s as [|c s]; [done|].
  destruct (decide (c = "{"%char)) as [->|Hc]; [|by destruct c as [[] [] [] [] [] [] [] []]].
  destruct (span_spec P s) as (H1 & H2 & _). destruct (span P s) as [a b]. cbn in *.
  destruct b as [|c b]; [done|].
  destruct (decide (c = "}"%char)) as [->|Hc]; [|by destruct c as [[] [] [] [] [] [] [] []]].
  destruct (non_empty a) eqn:E; [|done]. apply non_empty_true in E. simplify_eq.
  split; [|done]. unfold reference. by rewrite !string_app_assoc.
Qed.

Lemma ref_of_ref P name rest :
  P "}"%char = false → name ≠ "" → chars P name → ref_of P (reference name +:+ rest) = Some (name, rest).
Proof.
  intros HP Hn Hc. unfold reference. rewrite !string_app_assoc. change ("${" +:+ ?x) with (String "$" (String "{" x)).
  cbn [ref_of]. rewrite string_app_cons, string_app_nil_l, span_at by done. by apply non_empty_true in Hn as ->.
Qed.

Lemma ref_of_length P s name rest : ref_of P s = Some (name, rest) → String.length s = (String.length name + 3 + String.length rest)%nat.
Proof. intros (-> & _)%ref_of_spec. unfold reference. rewrite !length_string_app. cbn. lia. Qed.

Lemma var_char_no_brace name : chars var_char name → chars not_brace name.
Proof. apply chars_impl. intros c. by destruct c as [[] [] [] [] [] [] [] []]. Qed.

(** ** Pieces *)
Definition piece_text (p : Piece) : string := match p with PText t => t | PVar name => reference name end.
Fixpoint print_pieces (ps : list Piece) : string := match ps with [] => "" | p :: ps => piece_text p +:+ print_pieces ps end.

Fixpoint piece_names (ps : list Piece) : list string :=
  match ps with [] => [] | PText _ :: ps => piece_names ps | PVar name :: ps => name :: piece_names ps end.

Lemma print_add_char c ps : print_pieces (add_char c ps) = String c (print_pieces ps).
Proof. by destruct ps as [|[]]. Qed.

Lemma names_add_char c ps : piece_names (add_char c ps) = piece_names ps.
Proof. by destruct ps as [|[]]. Qed.

Lemma pieces_skip_ref a s : pieces_go (String.length a) (a +:+ s) = pieces_go 0 s.
Proof. induction a as [|c a IH]; [done|]. by rewrite string_app_cons. Qed.

Lemma pieces_ref name rest : name ≠ "" → chars var_char name → pieces (reference name +:+ rest) = PVar name :: pieces rest.
Proof.
  intros Hn Hc. pose proof (ref_of_ref var_char name rest eq_refl Hn Hc) as Hr. unfold pieces.
  revert Hr. unfold reference. rewrite !string_app_assoc. change ("${" +:+ ?x) with (String "$" (String "{" x)).
  intros Hr. cbn [pieces_go]. unfold var_at. rewrite Hr. f_equal.
  rewrite <- (pieces_skip_ref (name +:+ "}")). rewrite length_string_app, Nat.add_1_r, string_app_assoc. done.
Qed.

Lemma pieces_cons c s : var_at (String c s) = None → pieces (String c s) = add_char c (pieces s).
Proof. intros H. unfold pieces. cbn [pieces_go]. by rewrite H. Qed.

Lemma var_at_dollar c s : c ≠ "$"%char → var_at (String c s) = None.
Proof. intros H. unfold var_at, ref_of. by destruct c as [[] [] [] [] [] [] [] []]. Qed.

Lemma pieces_skip_ind (Q : string → list Piece → Prop) :
  Q "" [] →
  (∀ c s, var_at (String c s) = None → Q s (pieces s) → Q (String c s) (add_char c (pieces s))) →
  (∀ name s, name ≠ "" → chars var_char name → Q s (pieces s) → Q (reference name +:+ s) (PVar name :: pieces s)) →
  ∀ s, Q s (pieces s).
Proof.
  intros H0 H1 H2 s. remember (String.length s) as n eqn:E. revert s E.
  induction (lt_wf n) as [n _ IH]. intros s ->. destruct s as [|c s]; [done|].
  destruct (var_at (String c s)) as [[name rest]|] eqn:Ev.
  - pose proof Ev as (Es & Hn & Hc)%ref_of_spec. pose proof (ref_of_length _ _ _ _ Ev) as El.
    rewrite Es, pieces_ref by done. apply H2; [done..|]. apply (IH (String.length rest)); [lia|done].
  - rewrite pieces_cons by done. apply H1; [done|]. apply (IH (String.length s)); [cbn; lia|done].
Qed.

Lemma print_pieces_pieces s : print_pieces (pieces s) = s.
Proof.
  revert s. apply (pieces_skip_ind (λ s ps, print_pieces ps = s)); [done|..].
  - intros c s _ IH. by rewrite print_add_char, IH.
  - intros name s _ _ IH. cbn. by rewrite IH.
Qed.

(** ** Enabler prefixes *)
Lemma EnablerPattern_spec line indent name rest :
  EnablerPattern line = Some (indent, name, rest) →
  line = indent +:+ reference name +:+ rest ∧ chars re_space indent ∧ name ≠ "" ∧ chars not_brace name ∧
  rest ≠ "" ∧ no_newline rest.
Proof.
  unfold EnablerPattern. destruct (span_spec re_space line) as (H1 & H2 & _). destruct (span re_space line) as [a b]. cbn in *.
  destruct (ref_of not_brace b) as [[n' r']|] eqn:E; [|done]. destruct (non_empty r' && no_newline r') eqn:Er; [|done].
  intros [= -> -> ->]. apply ref_of_spec in E as (-> & Hn & Hc). apply andb_true_iff in Er as [Hr Hl].
  rewrite non_empty_true in Hr. by rewrite Hl.
Qed.

Lemma EnablerPattern_length line indent name rest :
  EnablerPattern line = Some (indent, name, rest) →
  (String.length line = String.length indent + (String.length name + 3) + String.length rest)%nat.
Proof. intros (-> & _)%EnablerPattern_spec. unfold reference. rewrite !length_string_app. cbn. lia. Qed.

(** Spaces in front change the indentation only. *)
Lemma EnablerPattern_indent ws s :
  chars re_space ws →
  EnablerPattern (ws +:+ s) = (λ '(indent, name, rest), (ws +:+ indent, name, rest)) <$> EnablerPattern s.
Proof.
  intros H. unfold EnablerPattern. rewrite span_more by done. destruct (span re_space s) as [a b]. cbn.
  destruct (ref_of not_brace b) as [[n r]|]; [|done]. by destruct (_ && _).
Qed.

(** ** The lexer *)
Definition print_token (t : Token) : string :=
  match tk_Kind t with Text => tk_Text t | Enabler | Var => reference (tk_Text t) end.
Fixpoint print_tokens (toks : list Token) : string := match toks with [] => "" | t :: ts => print_token t +:+ print_tokens ts end.

Lemma print_tokens_app l1 l2 : print_tokens (l1 ++ l2) = print_tokens l1 +:+ print_tokens l2.
Proof. induction l1 as [|t l1 IH]; [done|]. cbn. by rewrite IH, string_app_assoc. Qed.

(** The offsets of tokens that start at [base]. *)
Fixpoint offsets_from (base : nat) (toks : list Token) : Prop :=
  match toks with
  | [] => True
  | t :: toks => tk_Offset t = base ∧ offsets_from (base + String.length (print_token t)) toks
  end.

Lemma offsets_from_app base l1 l2 :
  offsets_from base (l1 ++ l2) ↔ offsets_from base l1 ∧ offsets_from (base + String.length (print_tokens l1)) l2.
Proof.
  revert base. induction l1 as [|t l1 IH]; intros base; cbn; [by rewrite Nat.add_0_r; tauto|].
  rewrite IH, length_string_app, Nat.add_assoc. tauto.
Qed.

Lemma offsets_from_at base l1 t l2 :
  offsets_from base (l1 ++ t :: l2) → tk_Offset t = (base + String.length (print_tokens l1))%nat.
Proof. by intros [_ [H _]]%offsets_from_app. Qed.

Lemma piece_tokens_print base ps : print_tokens (piece_tokens base ps) = print_pieces ps ∧ offsets_from base (piece_tokens base ps).
Proof. revert base. induction ps as [|[] ps IH]; intros base; cbn; [done|..]; edestruct IH as [-> ?]; done. Qed.

Lemma prefix_tokens_print pos indent name :
  print_tokens (prefix_tokens pos indent name) = indent +:+ reference name ∧ offsets_from pos (prefix_tokens pos indent name).
Proof.
  unfold prefix_tokens. destruct (non_empty indent) eqn:E; cbn.
  - by rewrite string_app_nil_r.
  - rewrite string_app_nil_r. destruct indent; [|done]. cbn. by rewrite Nat.add_0_r.
Qed.

Lemma tokenize_go_print fuel toks pos line :
  (String.length line < fuel)%nat → offsets_from 0 toks → pos = String.length (print_tokens toks) →
  print_tokens (tokenize_go fuel toks pos line) = print_tokens toks +:+ line ∧ offsets_from 0 (tokenize_go fuel toks pos line).
Proof.
  revert toks pos line. induction fuel as [|fuel IH]; intros toks pos line Hf Ho Hp; [lia|]. cbn [tokenize_go].
  destruct (EnablerPattern line) as [[[indent name] rest]|] eqn:E.
  - pose proof (EnablerPattern_length _ _ _ _ E) as Hl. apply EnablerPattern_spec in E as (-> & _).
    destruct (prefix_tokens_print pos indent name) as [P1 P2].
    destruct (IH (toks ++ prefix_tokens pos indent name)
                (pos + String.length indent + String.length (reference name))%nat rest) as [-> ?]; [lia|..].
    + apply offsets_from_app. by rewrite <- Hp.
    + rewrite print_tokens_app, P1, !length_string_app. lia.
    + by rewrite print_tokens_app, P1, !string_app_assoc.
  - unfold appendVarTokens. destruct (piece_tokens_print pos (pieces line)) as [P1 P2].
    rewrite print_tokens_app, P1, print_pieces_pieces, offsets_from_app, <- Hp. done.
Qed.

(** The lexer of template lines loses nothing: writing each text token as it is
    and each prefix or variable as a reference gives the line back, and the offset of
    every token is where it starts in the line. *)
Theorem Tokenize_roundtrip line :
  print_tokens (Tokenize line) = line ∧
  ∀ before t after, Tokenize line = before ++ t :: after → tk_Offset t = String.length (print_tokens before).
Proof.
  destruct (tokenize_go_print (S (String.length line)) [] 0 line) as [Hp Ho]; [lia|done..|]. split; [done|].
  intros before t after E. change (offsets_from 0 (Tokenize line)) in Ho. rewrite E in Ho.
  by apply offsets_from_at in Ho.
Qed.

(** ** The renderer *)
Section render.
Variable r : Resolver.

Lemma render_enough fuel line : (String.length line < fuel)%nat → render r fuel line = RenderLine r line.
Proof.
  revert line. unfold RenderLine. induction fuel as [fuel IH] using lt_wf_ind. intros line Hf.
  destruct fuel as [|fuel]; [lia|]. cbn [render].
  destruct (EnablerPattern line) as [[[indent name] rest]|] eqn:E; [|done].
  destruct (Enabler_ r name) as [on|]; [|done].
  assert (String.length (indent +:+ rest) < String.length line)%nat as Hl.
  { apply EnablerPattern_length in E. rewrite length_string_app. lia. }
  rewrite (IH fuel) by lia. destruct (decide (String.length line = fuel)) as [<-|]; [by rewrite (IH (String.length line)) by lia|].
  by rewrite (IH (String.length line)) by lia.
Qed.

Lemma RenderLine_eq line :
  RenderLine r line =
  match EnablerPattern line with
  | Some (indent, name, rest) =>
      match Enabler_ r name with
      | Some true => RenderLine r (indent +:+ rest)
      | Some false => Join (map (comment_out indent) (SplitByte newline (RenderLine r (indent +:+ rest)))) nl
      | None => render_text r line
      end
  | None => render_text r line
  end.
Proof.
  unfold RenderLine at 1. cbn [render]. destruct (EnablerPattern line) as [[[indent name] rest]|] eqn:E; [|done].
  destruct (Enabler_ r name) as [on|]; [|done]. rewrite render_enough; [by destruct on|].
  apply EnablerPattern_length in E. rewrite length_string_app. lia.
Qed.
End render.

(** ** The variables of a line *)
Fixpoint token_names (toks : list Token) : list string :=
  match toks with
  | [] => []
  | t :: toks => match tk_Kind t with Text => token_names toks | Enabler | Var => tk_Text t :: token_names toks end
  end.

Definition line_names (line : string) : list string := token_names (Tokenize line).

Lemma token_names_app l1 l2 : token_names (l1 ++ l2) = token_names l1 ++ token_names l2.
Proof. induction l1 as [|[[] t o] l1 IH]; cbn; [done|..]; by rewrite IH. Qed.

Lemma piece_tokens_names base ps : token_names (piece_tokens base ps) = piece_names ps.
Proof. revert base. induction ps as [|[] ps IH]; intros base; cbn; [done|..]; by rewrite IH. Qed.

Lemma tokenize_names fuel toks pos line :
  (String.length line < fuel)%nat →
  token_names (tokenize_go fuel toks pos line) = token_names toks ++ line_names line.
Proof.
  unfold line_names, Tokenize. revert toks pos line. induction fuel as [fuel IH] using lt_wf_ind. intros toks pos line Hf.
  destruct fuel as [|fuel]; [lia|]. cbn [tokenize_go]. destruct (EnablerPattern line) as [[[indent name] rest]|] eqn:E.
  - apply EnablerPattern_length in E. rewrite (IH fuel) by lia.
    assert (String.length rest < String.length line)%nat by lia.
    rewrite (IH (String.length line) ltac:(lia) ([] ++ _)) by lia. cbn [app].
    rewrite !token_names_app, <- app_assoc. do 2 f_equal. unfold prefix_tokens. by destruct (non_empty indent).
  - unfold appendVarTokens. by rewrite !token_names_app, !piece_tokens_names.
Qed.

Lemma line_names_eq line :
  line_names line =
  match EnablerPattern line with
  | Some (_, name, rest) => name :: line_names rest
  | None => piece_names (pieces line)
  end.
Proof.
  unfold line_names at 1, Tokenize. cbn [tokenize_go].
  destruct (EnablerPattern line) as [[[indent name] rest]|] eqn:E.
  - apply EnablerPattern_length in E. rewrite tokenize_names by lia. unfold prefix_tokens. by destruct (non_empty indent).
  - unfold appendVarTokens. by rewrite token_names_app, piece_tokens_names.
Qed.

Lemma piece_names_spaces ws s : chars re_space ws → piece_names (pieces (ws +:+ s)) = piece_names (pieces s).
Proof.
  induction ws as [|c ws IH]; [done|]. cbn [chars]. intros [Hc H]%andb_True. rewrite string_app_cons, pieces_cons.
  - by rewrite names_add_char, IH.
  - apply var_at_dollar. by intros ->.
Qed.

Lemma line_names_spaces ws s : chars re_space ws → line_names (ws +:+ s) = line_names s.
Proof.
  intros H. rewrite !line_names_eq, EnablerPattern_indent by done.
  destruct (EnablerPattern s) as [[[indent name] rest]|]; [done|]. by apply piece_names_spaces.
Qed.

(** What the renderer looks up is among the tokens, when those are names of
    variables. *)
Lemma piece_names_line line :
  Forall (λ n, Is_true (chars var_char n)) (line_names line) → piece_names (pieces line) ⊆ line_names line.
Proof.
  remember (String.length line) as n eqn:En. revert line En. induction n as [n IH] using lt_wf_ind. intros line ->.
  rewrite line_names_eq. destruct (EnablerPattern line) as [[[indent name] rest]|] eqn:E; [|done].
  pose proof (EnablerPattern_length _ _ _ _ E) as Hl. apply EnablerPattern_spec in E as (-> & Hi & Hn & _).
  intros [Hv H]%Forall_cons. rewrite piece_names_spaces, pieces_ref by done. cbn [piece_names].
  intros x [->|Hx]%elem_of_cons; [by left|]. right. eapply (IH (String.length rest)); [lia|done..].
Qed.

Lemma expand_pieces_ext r r' before ps :
  (∀ n, n ∈ piece_names ps → Value_ r n = Value_ r' n) → expand_pieces r before ps = expand_pieces r' before ps.
Proof.
  revert before. induction ps as [|[t|n] ps IH]; intros before H; [done|..]; cbn in *.
  - by rewrite IH.
  - unfold value. rewrite (H n) by (by left). rewrite IH; [done|]. intros m Hm. apply H. by right.
Qed.

Lemma RenderLine_ext r r' line :
  Forall (λ n, Is_true (chars var_char n)) (line_names line) →
  (∀ n, n ∈ line_names line → Enabler_ r n = Enabler_ r' n ∧ Value_ r n = Value_ r' n) →
  RenderLine r line = RenderLine r' line.
Proof.
  remember (String.length line) as n eqn:En. revert line En. induction n as [n IH] using lt_wf_ind. intros line -> Hv H.
  assert (render_text r line = render_text r' line) as Ht.
  { unfold render_text, expandVars. erewrite expand_pieces_ext; [done|].
    intros m Hm. apply H. by apply piece_names_line. }
  rewrite !RenderLine_eq. rewrite line_names_eq in Hv, H.
  destruct (EnablerPattern line) as [[[indent name] rest]|] eqn:E; [|done].
  destruct (H name) as [<- _]; [by left|]. destruct (Enabler_ r name) as [on|]; [|done].
  pose proof (EnablerPattern_length _ _ _ _ E) as Hl. apply EnablerPattern_spec in E as (-> & Hi & _).
  apply Forall_cons in Hv as [_ Hv].
  rewrite (IH (String.length (indent +:+ rest))) with (line := indent +:+ rest); [done| |done|..].
  - rewrite length_string_app. lia.
  - by rewrite line_names_spaces.
  - rewrite line_names_spaces by done. intros m Hm. apply H. by right.
Qed.

(** ** Switched lines *)

(** The enabler prefixes of a line, with their values, and the text they guard. *)
Inductive switched (r : Resolver) : string → list (string * bool) → string → Prop :=
  | switched_text line :
      (∀ indent name rest, EnablerPattern line = Some (indent, name, rest) → Enabler_ r name = None) →
      switched r line [] line
  | switched_prefix line indent name rest on prefixes text :
      EnablerPattern line = Some (indent, name, rest) → Enabler_ r name = Some on →
      switched r (indent +:+ rest) prefixes text →
      switched r line ((name, on) :: prefixes) text.

Lemma switched_total r line : ∃ prefixes text, switched r line prefixes text.
Proof.
  remember (String.length line) as n eqn:En. revert line En. induction n as [n IH] using lt_wf_ind. intros line ->.
  destruct (EnablerPattern line) as [[[indent name] rest]|] eqn:E.
  - destruct (Enabler_ r name) as [on|] eqn:Eo.
    + destruct (IH (String.length (indent +:+ rest))) with (line := indent +:+ rest) as (ps & text & H); [|done|].
      { apply EnablerPattern_length in E. rewrite length_string_app. lia. }
      exists ((name, on) :: ps), text. by econstructor.
    + exists [], line. constructor. intros i n r' E'. rewrite E in E'. by simplify_eq.
  - exists [], line. constructor. intros i n r' E'. by rewrite E in E'.
Qed.

Definition quiet (line : string) : Prop := TrimBlanks line = "" ∨ IsCommentLine line = true.

Lemma trim_left_spaces ws s : chars re_space ws → trim_left (ws +:+ s) = trim_left s.
Proof.
  induction ws as [|c ws IH]; [done|]. cbn [chars]. intros [Hc H]%andb_True. rewrite string_app_cons. cbn [trim_left].
  assert (IsSpace c = true) as ->; [|by apply IH]. clear -Hc. by destruct c as [[] [] [] [] [] [] [] []].
Qed.

Lemma comment_out_quiet indent line : chars re_space indent → quiet (comment_out indent line).
Proof.
  intros H. unfold comment_out. destruct (String.eqb_spec (TrimBlanks line) ""); [by left|]. right.
  unfold IsCommentLine, TrimSpace. rewrite trim_left_spaces by done. cbn [trim_left].
  change ("#" +:+ ?x) with (String "#" x). cbn [trim_left]. change (IsSpace "#") with false. cbv iota.
  rewrite trim_right_cons. change (IsSpace "#") with false. rewrite andb_false_r. apply (HasPrefix_app "#").
Qed.

Lemma chars_drop P n s : chars P s → chars P (drop_string n s).
Proof. revert s. induction n as [|n IH]; [done|]. intros [|c s]; [done|]. cbn. intros [_ H]%andb_True. by apply IH. Qed.

Lemma comment_out_line indent line : no_newline indent → no_newline line → no_newline (comment_out indent line).
Proof.
  intros Hi Hl. unfold comment_out. destruct (String.eqb _ _); [done|]. unfold no_newline in *. rewrite !chars_app, !andb_True.
  split; [done|]. split; [done|]. unfold TrimPrefix, CutPrefix. destruct (HasPrefix line indent); [|done]. by apply chars_drop.
Qed.

(** C33: enabler prefixes switch whole lines.  Every line of a template is a chain of
    enabler variables and a text: when all of them are on, the line renders as the
    text, without the prefixes; when one is off, every line of what it renders as,
    also of a value of several lines, is blank or a comment, so that nothing of it is
    live. *)
Theorem RenderLine_switches r line :
  no_newline line = true →
  ∃ prefixes text, switched r line prefixes text ∧
    if forallb snd prefixes then RenderLine r line = render_text r text
    else Forall quiet (SplitByte newline (RenderLine r line)).
Proof.
  intros Hl. destruct (switched_total r line) as (ps & text & H). exists ps, text. split; [done|]. revert Hl.
  induction H as [line H|line indent name rest on ps text E Eo H IH]; intros Hl; cbn [forallb snd]; rewrite RenderLine_eq.
  - destruct (EnablerPattern line) as [[[i n] rest]|] eqn:E; [|done]. by rewrite (H _ _ _ eq_refl).
  - rewrite E, Eo. apply EnablerPattern_spec in E as (-> & Hi & _ & _ & _ & Hr).
    unfold no_newline in Hl. rewrite !chars_app, !andb_true_iff in Hl. destruct Hl as (Hli & _ & Hlr).
    assert (no_newline (indent +:+ rest) = true) as Hlt by (unfold no_newline; by rewrite chars_app, Hli, Hlr).
    destruct on; [by apply IH|]. cbn [andb].
    rewrite SplitByte_Join.
    + apply Forall_fmap, Forall_forall. intros x _. by apply comment_out_quiet.
    + destruct (SplitByte_cons newline (RenderLine r (indent +:+ rest))) as (x & l & ->). done.
    + apply Forall_fmap. eapply Forall_impl; [apply SplitByte_chars|]. intros x Hx. apply comment_out_line; [|done].
      unfold no_newline. by rewrite Hli.
Qed.

(** A disabled prefix in front of a value of two lines. *)
Definition demo_resolver : Resolver :=
  {| Enabler_ := λ n, if String.eqb n "off" then Some false else if String.eqb n "on" then Some true else None;
     Value_ := λ n, if String.eqb n "servers" then Some ("server a;" +:+ nl +:+ "server b;") else None |}.

Lemma RenderLine_switches_witness :
  RenderLine demo_resolver "  ${on}${off}${servers}" = "  #server a;" +:+ nl +:+ "  #server b;" ∧
  ∃ prefixes text, switched demo_resolver "  ${on}${off}${servers}" prefixes text ∧
    if forallb snd prefixes then RenderLine demo_resolver "  ${on}${off}${servers}" = render_text demo_resolver text
    else Forall quiet (SplitByte newline (RenderLine demo_resolver "  ${on}${off}${servers}")).
Proof. split; [vm_compute; reflexivity|]. apply RenderLine_switches. vm_compute. reflexivity. Defined.
