(* ===== verification/TmplLint.v ===== *)
(** * TmplLint: the template linter

    Models internal/proxy/tmpl/lint.go: the rules on every line with the state carried
    from line to line (open quote, depth, braces per enabler), and proves what a
    template without unknown variables can be relied on for. *)
From stdpp Require Import pretty.
From S2P Require Import Prelude Text Tmpl TmplFormat TmplProps.

(** ** lint.go *)
Definition RuleUnknownVariable : string := "unknown-variable".
Definition RuleEnablerAsValue : string := "enabler-as-value".
Definition RuleValueAsEnabler : string := "value-as-enabler".
Definition RuleExplode : string := "explode".
Definition RuleBraces : string := "braces".
Definition RuleWhitespace : string := "whitespace".

(** [Registry]: the kind of a known variable. *)
Definition LintRegistry : Type := string → option Kind.

Record Finding := { fi_File : string; fi_Line : nat; fi_Col : nat; fi_Rule : string; fi_Message : string }.

(** The braces of the lines that carry one enabler prefix. *)
Record group := { g_net : Z; g_line : nat; g_col : nat }.

Record linter := {
  l_scope : list string;
  l_explType : string;
  l_findings : list Finding;
  l_quote : option ascii;
  l_depth : nat;
  l_groups : list (string * group)
}.

Definition Index (s sub : string) : option nat :=
  (fix go (i : nat) (s : string) {struct s} :=
     if HasPrefix s sub then Some i else match s with "" => None | String _ s => go (S i) s end) O s.

Section lint.
Variables (file : string) (reg : LintRegistry).

Definition add (line col : nat) (rule message : string) (l : linter) : linter :=
  {| l_scope := l_scope l; l_explType := l_explType l;
     l_findings := l_findings l ++ [{| fi_File := file; fi_Line := line; fi_Col := col; fi_Rule := rule; fi_Message := message |}];
     l_quote := l_quote l; l_depth := l_depth l; l_groups := l_groups l |}.

Definition checkWhitespace (n : nat) (line : string) (l : linter) : linter :=
  let l := match IndexByte tab line with
           | Some i => add n (S i) RuleWhitespace "tab character, indent with spaces" l
           | None => l
           end in
  let trimmed := drop_end trailing line in
  if String.eqb trimmed line then l else add n (S (String.length trimmed)) RuleWhitespace "trailing whitespace" l.

Definition scopeHint (name : string) : string :=
  if String.eqb name VarVHN || String.eqb name VarVIP then " (defined only by !{explode domain(...)})"
  else if String.eqb name VarServerID || String.eqb name VarServerHostname then " (defined only by !{explode server(...)})"
  else "".

Definition checkToken (n : nat) (l : linter) (t : Token) : linter :=
  match tk_Kind t with
  | Text => l
  | kind =>
      let name := tk_Text t in
      let col := S (tk_Offset t) in
      match reg name with
      | None =>
          if bool_decide (name ∈ l_scope l) then l
          else add n col RuleUnknownVariable ("unknown variable " +:+ reference name +:+ scopeHint name) l
      | Some KindScalar =>
          match kind with
          | Enabler => add n col RuleValueAsEnabler
              (reference name +:+ " is a number or on/off value, not an enabler, but is used as a line prefix") l
          | _ => l
          end
      | Some KindEnabler =>
          match kind with
          | Var => add n col RuleEnablerAsValue
              (reference name +:+ " is an enabler variable but is used as a value (it renders as " +:+
               dquote +:+ dquote +:+ " or " +:+ dquote +:+ "#" +:+ dquote +:+ ")") l
          | _ => l
          end
      | Some KindText => l
      end
  end.

Definition checkTokens (n : nat) (toks : list Token) (l : linter) : linter := foldl (checkToken n) l toks.

Definition set_groups (gs : list (string * group)) (l : linter) : linter :=
  {| l_scope := l_scope l; l_explType := l_explType l; l_findings := l_findings l; l_quote := l_quote l;
     l_depth := l_depth l; l_groups := gs |}.

(** The net braces added to the group of [name], which is new when it is not there. *)
Fixpoint bump (name : string) (new : group) (net : Z) (gs : list (string * group)) : list (string * group) :=
  match gs with
  | [] => [(name, {| g_net := net; g_line := g_line new; g_col := g_col new |})]
  | (k, g) :: gs =>
      if String.eqb k name then (k, {| g_net := (g_net g + net)%Z; g_line := g_line g; g_col := g_col g |}) :: gs
      else (k, g) :: bump name new net gs
  end.

Definition countGroups (n : nat) (toks : list Token) (ls : lineScan) (l : linter) : linter :=
  foldl (λ l t,
    match tk_Kind t with
    | Enabler =>
        set_groups (bump (tk_Text t) {| g_net := 0; g_line := n; g_col := S (tk_Offset t) |}
                      (Z.of_nat (ls_opens ls) - Z.of_nat (ls_closes ls)) (l_groups l)) l
    | _ => l
    end) l toks.

(** The enabler prefixes of the line skipped: the offset and the rest. *)
Fixpoint skip_prefixes (fuel base : nat) (line : string) : nat * string :=
  match fuel with
  | O => (base, line)
  | S fuel =>
      match EnablerPattern line with
      | Some (indent, name, rest) => skip_prefixes fuel (base + String.length indent + String.length (reference name)) rest
      | None => (base, line)
      end
  end.

Definition lineBraces (quote : option ascii) (line : string) : lineScan * option ascii * nat :=
  let '(base, rest) := skip_prefixes (S (String.length line)) 0 line in (scan quote rest, base).

Definition set_scan (quote : option ascii) (depth : nat) (l : linter) : linter :=
  {| l_scope := l_scope l; l_explType := l_explType l; l_findings := l_findings l; l_quote := quote; l_depth := depth;
     l_groups := l_groups l |}.

(** The rules on line [i], counted from 0. *)
Definition checkLine (i : nat) (line : string) (l : linter) : linter :=
  let n := S i in
  let l := checkWhitespace n line l in
  if (i =? 0)%nat && non_empty (l_explType l) then l
  else
    let l := match (if (0 <? i)%nat then Index line ExplodeMarker else None) with
             | Some k => add n (S k) RuleExplode "explode directive must be on the first line of the template" l
             | None => l
             end in
    let '(ls, quote, base) := lineBraces (l_quote l) line in
    let toks := Tokenize line in
    let l := countGroups n toks ls (checkTokens n toks l) in
    let l := if (l_depth l <? ls_leadClose ls)%nat
             then add n (match ls_firstClose ls with Some f => base + f + 1 | None => base end) RuleBraces
                    "unexpected '}': no block is open" l
             else l in
    set_scan quote (l_depth l + ls_opens ls - ls_closes ls) l.

Fixpoint checkLines (i : nat) (lines : list string) (l : linter) : linter :=
  match lines with [] => l | line :: lines => checkLines (S i) lines (checkLine i line l) end.

Definition imbalance (net : Z) : string :=
  if (0 <? net)%Z then pretty net +:+ " more '{' than '}'" else pretty (- net)%Z +:+ " more '}' than '{'".

Definition checkBalance (lineCount : nat) (l : linter) : linter :=
  let l := foldl (λ l '(name, g),
             if (g_net g =? 0)%Z then l
             else add (g_line g) (g_col g) RuleBraces
                    ("unbalanced braces in the lines enabled by " +:+ reference name +:+ ": " +:+ imbalance (g_net g)) l)
             l (l_groups l) in
  if (l_depth l =? 0)%nat then l
  else add (Nat.max lineCount 1) 1 RuleBraces
         ("unbalanced braces in the file: " +:+ pretty (l_depth l) +:+ " block(s) left open") l.

Definition set_explode (typ : string) (l : linter) : linter :=
  {| l_scope := ExplodeVariables typ; l_explType := typ; l_findings := l_findings l; l_quote := l_quote l;
     l_depth := l_depth l; l_groups := l_groups l |}.

Definition checkExplodeLine (first : string) (l : linter) : linter :=
  match ParseExplode first with
  | None =>
      if HasPrefix first "!{" then add 1 1 RuleExplode "malformed explode directive, want !{explode type(args)}" l else l
  | Some (typ, args) =>
      let err :=
        if String.eqb typ ExplodeDomain then match DomainArgs args with inl e => Some e | inr _ => None end
        else if String.eqb typ ExplodeServer then match ServerService args with inl e => Some e | inr _ => None end
        else Some ("unknown explode type " +:+ dquote +:+ typ +:+ dquote +:+ ", want domain or server") in
      set_explode typ (match err with Some e => add 1 1 RuleExplode e l | None => l end)
  end.

(** Before or at the same place. *)
Definition before (a b : Finding) : bool :=
  (fi_Line a <? fi_Line b)%nat || ((fi_Line a =? fi_Line b)%nat && (fi_Col a <=? fi_Col b)%nat).

Fixpoint insert_finding (a : Finding) (l : list Finding) : list Finding :=
  match l with [] => [a] | b :: l => if before a b then a :: b :: l else b :: insert_finding a l end.

(** [slices.SortStableFunc], by position. *)
Definition sort_findings (l : list Finding) : list Finding := foldr insert_finding [] l.

Definition new_linter : linter :=
  {| l_scope := []; l_explType := ""; l_findings := []; l_quote := None; l_depth := 0; l_groups := [] |}.

Definition Lint (src : string) : list Finding :=
  let lines := SplitLines src in
  let l := match lines with first :: _ => checkExplodeLine first new_linter | [] => new_linter end in
  sort_findings (l_findings (checkBalance (length lines) (checkLines 0 lines l))).
End lint.

(** ** What the linter guarantees *)
Section sound.
Variables (file : string) (reg : LintRegistry).

(** Later states keep the findings, the scope and the directive of earlier ones. *)
Definition extends (l l' : linter) : Prop :=
  l_findings l `prefix_of` l_findings l' ∧ l_scope l' = l_scope l ∧ l_explType l' = l_explType l.

#[local] Instance extends_po : PreOrder extends.
Proof.
  split; [by intros l|]. intros a b c (H1 & H2 & H3) (H4 & H5 & H6). split_and!; [by etrans|congruence..].
Qed.

Lemma extends_add n c rule m l : extends l (add file n c rule m l).
Proof. split_and!; [by eexists|done..]. Qed.

Lemma extends_scan quote depth l : extends l (set_scan quote depth l).
Proof. by split_and!. Qed.

Lemma extends_fold {A} (f : linter → A → linter) xs l : (∀ l x, extends l (f l x)) → extends l (foldl f l xs).
Proof. intros H. revert l. induction xs as [|x xs IH]; intros l; [done|]. cbn. etrans; [apply H|apply IH]. Qed.

Lemma extends_token n l t : extends l (checkToken file reg n l t).
Proof.
  unfold checkToken. repeat case_match; try apply extends_add; done.
Qed.

Lemma extends_whitespace n line l : extends l (checkWhitespace file n line l).
Proof.
  unfold checkWhitespace. etrans; [|destruct (String.eqb _ _); [done|apply extends_add]].
  destruct (IndexByte tab line); [apply extends_add|done].
Qed.

Lemma extends_tokens n toks l : extends l (checkTokens file reg n toks l).
Proof. apply extends_fold. intros. apply extends_token. Qed.

Lemma extends_groups n toks ls l : extends l (countGroups n toks ls l).
Proof. apply extends_fold. intros l1 t. by destruct (tk_Kind t). Qed.

(** On the way through the rules of a line its tokens are checked, unless it is the
    explode directive. *)
Lemma extends_checkLine i line l :
  ∃ l1, extends l l1 ∧ extends l1 (checkLine file reg i line l) ∧
    (i ≠ O ∨ l_explType l = "" → ∃ l0, extends l l0 ∧ l1 = checkTokens file reg (S i) (Tokenize line) l0).
Proof.
  pose proof (extends_whitespace (S i) line l) as Hw. unfold checkLine. set (lw := checkWhitespace _ _ _ _) in *.
  destruct ((i =? 0)%nat && non_empty (l_explType lw)) eqn:E.
  - exists lw. split_and!; [done..|]. intros Hi. exfalso. destruct Hw as (_ & _ & Hw).
    apply andb_true_iff in E as [E1%Nat.eqb_eq E2%non_empty_true]. destruct Hi; congruence.
  - set (le := match (if (0 <? i)%nat then _ else _) with Some k => _ | None => lw end).
    assert (extends l le) as He.
    { etrans; [done|]. subst le. destruct (if (0 <? i)%nat then _ else _); [apply extends_add|done]. }
    exists (checkTokens file reg (S i) (Tokenize line) le). split_and!.
    + etrans; [done|]. apply extends_tokens.
    + destruct (lineBraces _ _) as [[ls quote] base]. etrans; [apply (extends_groups (S i) (Tokenize line) ls)|].
      set (lg := countGroups _ _ _ _).
      etrans; [|apply extends_scan]. destruct (l_depth lg <? ls_leadClose ls)%nat; [apply extends_add|done].
    + eauto.
Qed.

Lemma extends_checkLines i lines l : extends l (checkLines file reg i lines l).
Proof.
  revert i l. induction lines as [|line lines IH]; intros i l; [done|]. cbn.
  destruct (extends_checkLine i line l) as (l1 & H1 & H2 & _). etrans; [done|]. etrans; [done|]. apply IH.
Qed.

Lemma extends_checkBalance n l : extends l (checkBalance file n l).
Proof.
  unfold checkBalance. set (lb := foldl _ _ _). assert (extends l lb) as H.
  { apply extends_fold. intros l1 [name g]. destruct (g_net g =? 0)%Z; [done|]. apply extends_add. }
  etrans; [done|]. destruct (l_depth lb =? 0)%nat; [done|]. apply extends_add.
Qed.

(** ** Known variables *)
Definition known (l : linter) (name : string) : Prop := is_Some (reg name) ∨ name ∈ l_scope l.
Definition all_known (l : linter) : Prop := Forall (λ f, fi_Rule f ≠ RuleUnknownVariable) (l_findings l).

Lemma all_known_extends l l' : extends l l' → all_known l' → all_known l.
Proof. unfold all_known. intros ([new ->] & _ & _) [H _]%Forall_app. done. Qed.

Lemma checkTokens_known n toks l : all_known (checkTokens file reg n toks l) → Forall (known l) (token_names toks).
Proof.
  revert l. induction toks as [|t toks IH]; intros l H; [constructor|].
  assert (Forall (known l) (token_names toks)) as Ht.
  { eapply Forall_impl; [by apply IH|]. intros x. unfold known. by destruct (extends_token n l t) as (_ & -> & _). }
  apply (all_known_extends (checkToken file reg n l t)) in H; [|apply (extends_tokens n toks)]. cbn [token_names]. revert H. unfold checkToken, known. cbv zeta.
  destruct (tk_Kind t); [done|..]; intros H; (constructor; [|done]); revert H.
  all: destruct (reg (tk_Text t)); [by left; eauto|]. 
  all: destruct (decide (tk_Text t ∈ l_scope l)) as [Hs|Hs]; [by right|].
  all: rewrite bool_decide_eq_false_2 by done; intros [_ [H _]%Forall_cons]%Forall_app; by destruct H.
Qed.

Lemma checkLines_known i lines l :
  all_known (checkLines file reg i lines l) →
  Forall (λ line, Forall (known l) (line_names line)) (if decide (i = O ∧ l_explType l ≠ "") then tail lines else lines).
Proof.
  assert (∀ lines i l, all_known (checkLines file reg i lines l) → i ≠ O ∨ l_explType l = "" →
            Forall (λ line, Forall (known l) (line_names line)) lines) as Hrest.
  { clear. intros lines. induction lines as [|line lines IH]; intros i l H Hi; [constructor|]. cbn in H.
    destruct (extends_checkLine i line l) as (l1 & H1 & H2 & H3). destruct (H3 Hi) as (l0 & H0 & ->).
    assert (extends l (checkLine file reg i line l)) as (_ & Hscope & Htyp) by (etrans; [exact H1|exact H2]).
    constructor.
    - eapply Forall_impl; [apply (checkTokens_known (S i) (Tokenize line) l0)|].
      + eapply all_known_extends; [done|]. eapply all_known_extends; [|exact H]. apply extends_checkLines.
      + intros x. unfold known. by destruct H0 as (_ & -> & _).
    - specialize (IH _ _ H). eapply Forall_impl; [apply IH; by left|]. intros x Hx. eapply Forall_impl; [exact Hx|].
      intros y. unfold known. by rewrite Hscope. }
  intros H. case_decide as Hd; [|apply (Hrest _ i); [done|]].
  - destruct Hd as [-> Ht]. destruct lines as [|line lines]; [constructor|]. cbn in H |- *.
    destruct (extends_checkLine 0 line l) as (l1 & H1 & H2 & _).
    assert (extends l (checkLine file reg 0 line l)) as (_ & Hscope & Htyp) by (etrans; [exact H1|exact H2]).
    eapply Forall_impl; [apply (Hrest _ _ _ H); by left|]. intros x Hx. eapply Forall_impl; [exact Hx|].
      intros y. unfold known. by rewrite Hscope.
  - destruct (decide (i = O)); [|by left]. right. destruct (decide (l_explType l = "")); naive_solver.
Qed.
End sound.

(** ** Templates without unknown variables *)

(** The lines that are rendered, and the variables the directive defines for them. *)
Definition body_lines (src : string) : list string :=
  match SplitLines src with
  | first :: rest => match ParseExplode first with Some _ => rest | None => first :: rest end
  | [] => []
  end.
Definition scope_of (src : string) : list string :=
  match SplitLines src with
  | first :: _ => match ParseExplode first with Some (typ, _) => ExplodeVariables typ | None => [] end
  | [] => []
  end.

Lemma sort_findings_perm l : sort_findings l ≡ₚ l.
Proof.
  assert (∀ a l, insert_finding a l ≡ₚ a :: l) as Hi.
  { clear. intros a l. induction l as [|b l IH]; [done|]. cbn. destruct (before a b); [done|]. rewrite IH. constructor. }
  induction l as [|a l IH]; [done|]. cbn. by rewrite Hi, IH.
Qed.

Lemma ParseExplode_type first typ args : ParseExplode first = Some (typ, args) → typ ≠ "".
Proof.
  unfold ParseExplode, ExplodePattern. destruct (CutPrefix _ _) as [s []]; [|done]. destruct (span re_space s) as [a s1].
  destruct (span word_char s1) as [t s2]. intros H.
  destruct s2 as [|c s2]; [done|]. destruct (decide (c = "("%char)) as [->|Hc]; [|by destruct c as [[] [] [] [] [] [] [] []]].
  destruct (span _ s2) as [args' s3]. destruct (non_empty a && non_empty t && _) eqn:E; [|done]. simplify_eq.
  rewrite !andb_true_iff, !non_empty_true in E. tauto.
Qed.

Lemma start_linter file first :
  match ParseExplode first with
  | Some (typ, _) => l_scope (checkExplodeLine file first new_linter) = ExplodeVariables typ ∧
                     l_explType (checkExplodeLine file first new_linter) = typ
  | None => l_scope (checkExplodeLine file first new_linter) = [] ∧ l_explType (checkExplodeLine file first new_linter) = ""
  end.
Proof. unfold checkExplodeLine. destruct (ParseExplode first) as [[typ args]|]; [done|]. by destruct (HasPrefix _ _). Qed.

(** C22: a template that the linter finds no unknown variable in renders from the
    declared variables and those of its explode directive alone: whatever any other
    name stands for, every line comes out the same.  In particular no reference
    silently renders as nothing for want of a declaration. *)
Theorem Lint_sound file src reg r r' :
  (∀ name kind, reg name = Some kind → chars var_char name) →
  Forall (λ f, fi_Rule f ≠ RuleUnknownVariable) (Lint file reg src) →
  (∀ name, is_Some (reg name) ∨ name ∈ scope_of src → Enabler_ r name = Enabler_ r' name ∧ Value_ r name = Value_ r' name) →
  map (RenderLine r) (body_lines src) = map (RenderLine r') (body_lines src).
Proof.
  intros Hreg HL Hr. unfold Lint in HL. rewrite sort_findings_perm in HL.
  eapply all_known_extends in HL; [|apply extends_checkBalance].
  assert (Forall (λ line, Forall (λ n, is_Some (reg n) ∨ n ∈ scope_of src) (line_names line)) (body_lines src)) as Hk.
  { unfold body_lines, scope_of. destruct (SplitLines src) as [|first rest]; [constructor|].
    apply checkLines_known in HL. pose proof (start_linter file first) as Hs. unfold known in HL.
    destruct (ParseExplode first) as [[typ args]|] eqn:E; destruct Hs as [Hs1 Hs2]; rewrite Hs1, Hs2 in HL.
    - apply ParseExplode_type in E. rewrite decide_True in HL by done. done.
    - rewrite decide_False in HL by (intros [_ ?]; done). done. }
  apply map_ext_Forall. eapply Forall_impl; [exact Hk|]. intros line Hl. cbn in Hl. apply RenderLine_ext.
  - eapply Forall_impl; [exact Hl|]. intros n [[k Hn]|Hn]; [by eapply Hreg|].
    unfold scope_of in Hn. destruct (SplitLines src); [by apply elem_of_nil in Hn|].
    destruct (ParseExplode _) as [[typ args]|]; [|by apply elem_of_nil in Hn].
    revert Hn. unfold ExplodeVariables. repeat case_match; intros Hn; repeat (apply elem_of_cons in Hn as [->|Hn]); try done; by apply elem_of_nil in Hn.
  - intros n Hn. apply Hr. rewrite Forall_forall in Hl. by apply Hl.
Qed.

(** A template of one declared variable; the resolvers differ on another name. *)
Definition demo_registry : LintRegistry := λ name, if String.eqb name "web.port" then Some KindScalar else None.
Definition demo_values (other : string) : Resolver :=
  {| Enabler_ := λ _, None; Value_ := λ name, Some (if String.eqb name "web.port" then "443" else other) |}.

Lemma Lint_sound_witness :
  map (RenderLine (demo_values "a")) (body_lines ("listen ${web.port};" +:+ nl)) = ["listen 443;"] ∧
  map (RenderLine (demo_values "a")) (body_lines ("listen ${web.port};" +:+ nl)) =
  map (RenderLine (demo_values "b")) (body_lines ("listen ${web.port};" +:+ nl)).
Proof.
  split; [vm_compute; reflexivity|]. apply (Lint_sound "nginx.conf" _ demo_registry).
  - intros name kind. unfold demo_registry. destruct (String.eqb_spec name "web.port") as [->|]; [|discriminate].
    intros _. vm_compute. exact I.
  - assert (Lint "nginx.conf" demo_registry ("listen ${web.port};" +:+ nl) = []) as -> by (vm_compute; reflexivity). constructor.
  - intros name Hn. split; [reflexivity|]. unfold demo_values, Value_. destruct Hn as [[k Hn]|Hn].
    + unfold demo_registry in Hn. destruct (String.eqb name "web.port"); [reflexivity|discriminate].
    + assert (scope_of ("listen ${web.port};" +:+ nl) = []) as Hs by (vm_compute; reflexivity).
      rewrite Hs in Hn. by apply elem_of_nil in Hn.
Defined.

(** A closing brace that no block is open for is found only at the start of a line. *)
Example Lint_misses_brace :
  Lint "nginx.conf" demo_registry ("listen 80; }" +:+ nl) = [] ∧
  map fi_Message (Lint "nginx.conf" demo_registry ("}" +:+ nl)) = ["unexpected '}': no block is open"].
Proof. split; vm_compute; reflexivity. Qed.
