(* ===== verification/TmplFormatProps.v ===== *)
(** * TmplFormatProps: what the template formatter changes

    Formatting keeps the lines and changes blanks only; when a pass settles, the
    result is stable, and examples of where it does not or where blanks matter. *)
From S2P Require Import Prelude Text Tmpl TmplFormat TmplProps TmplLint.
Open Scope Z_scope.

(** ** Strings up to blanks *)
Fixpoint strip (s : string) : string :=
  match s with "" => "" | String c s => if trailing c then strip s else String c (strip s) end.

Lemma strip_app a b : strip (a +:+ b) = strip a +:+ strip b.
Proof. induction a as [|c a IH]; [done|]. rewrite string_app_cons. cbn. destruct (trailing c); by rewrite ?string_app_cons, IH. Qed.

Lemma strip_chars s : chars trailing s → strip s = "".
Proof. induction s as [|c s IH]; [done|]. cbn. intros [Hc H]%andb_True. destruct (trailing c); [by apply IH|done]. Qed.

Lemma blank_trailing s : chars blank s → chars trailing s.
Proof. apply chars_impl. intros c H. unfold trailing. by destruct (blank c). Qed.

Lemma strip_TrimBlanks s : strip (TrimBlanks s) = strip s.
Proof.
  unfold TrimBlanks. destruct (span_spec blank s) as (H1 & H2 & _). rewrite H1 at 2.
  by rewrite strip_app, (strip_chars (span blank s).1) by (by apply blank_trailing).
Qed.

Lemma TrimBlanks_idem s : TrimBlanks (TrimBlanks s) = TrimBlanks s.
Proof.
  unfold TrimBlanks. destruct (span_spec blank s) as (_ & _ & H3).
  assert (span blank (span blank s).2 = ("", (span blank s).2)) as ->; [|done].
  apply (span_at blank ""); done.
Qed.

Lemma drop_end_app P a b :
  drop_end P (a +:+ b) = if String.eqb (drop_end P b) "" then drop_end P a else a +:+ drop_end P b.
Proof.
  induction a as [|c a IH].
  - rewrite !string_app_nil_l. by destruct (String.eqb_spec (drop_end P b) "") as [->|].
  - rewrite !string_app_cons. cbn [drop_end]. rewrite IH. destruct (String.eqb_spec (drop_end P b) ""); [done|].
    destruct (a +:+ drop_end P b) eqn:E; [|done]. by destruct a, (drop_end P b).
Qed.

Lemma drop_end_prefix P s : ∃ t, s = drop_end P s +:+ t ∧ chars P t.
Proof.
  induction s as [|c s (t & H1 & H2)]; [by exists ""|]. cbn [drop_end]. destruct (drop_end P s) as [|d u].
  - rewrite string_app_nil_l in H1. subst. destruct (P c) eqn:E.
    + exists (String c t). split; [done|]. cbn. by rewrite E.
    + exists t. by rewrite string_app_cons.
  - exists t. split; [|done]. rewrite string_app_cons. by f_equal.
Qed.

Lemma strip_drop_end s : strip (drop_end trailing s) = strip s.
Proof.
  destruct (drop_end_prefix trailing s) as (t & H1 & H2). rewrite H1 at 2.
  by rewrite strip_app, (strip_chars t), string_app_nil_r by done.
Qed.

Lemma strip_Repeat u n : strip u = "" → strip (Repeat u n) = "".
Proof. intros H. induction n as [|n IH]; [done|]. cbn. by rewrite strip_app, H, IH. Qed.

Lemma take_drop_string n s : s = take_string n s +:+ drop_string n s.
Proof. revert s. induction n as [|n IH]; [done|]. intros [|c s]; [done|]. cbn. rewrite string_app_cons. by f_equal. Qed.

Lemma TrimSuffix_spec s suf : TrimSuffix s suf = s ∨ s = TrimSuffix s suf +:+ suf.
Proof.
  unfold TrimSuffix, HasSuffix. destruct (_ && _) eqn:E; [|by left]. right. apply andb_true_iff in E as [_ E%String.eqb_eq].
  rewrite <- E at 2. apply take_drop_string.
Qed.

Lemma strip_TrimSuffix s : strip (TrimSuffix s (String carriage_return "")) = strip s.
Proof.
  destruct (TrimSuffix_spec s (String carriage_return "")) as [->|H]; [done|]. rewrite H at 2.
  rewrite strip_app. change (strip (String carriage_return "")) with "". by rewrite string_app_nil_r.
Qed.

(** ** Prefixes of strings *)
Definition is_prefix (p s : string) : Prop := ∃ t, s = p +:+ t.

#[local] Instance is_prefix_po : PreOrder is_prefix.
Proof.
  split; [intros s; exists ""; by rewrite string_app_nil_r|]. intros a b c [t ->] [u ->]. exists (t +:+ u).
  by rewrite string_app_assoc.
Qed.

Lemma drop_end_is_prefix P s : is_prefix (drop_end P s) s.
Proof. destruct (drop_end_prefix P s) as (t & H & _). by exists t. Qed.

Lemma drop_end_mono P p s : is_prefix p s → is_prefix (drop_end P p) (drop_end P s).
Proof.
  intros [t ->]. rewrite drop_end_app. destruct (String.eqb _ _); [done|]. etrans; [apply drop_end_is_prefix|]. by eexists.
Qed.

Lemma take_is_prefix n s : is_prefix (take_string n s) s.
Proof. exists (drop_string n s). apply take_drop_string. Qed.

Lemma take_prefix n p s : is_prefix p s → (n ≤ String.length p)%nat → take_string n p = take_string n s.
Proof.
  intros [t ->]. revert p. induction n as [|n IH]; [done|]. intros [|c p]; cbn; [lia|]. intros H.
  rewrite ?string_app_cons. cbn. f_equal. apply IH. lia.
Qed.

(** ** The scanner *)
Lemma scan_code quote text : is_prefix (ls_code (scan quote text).1) text.
Proof.
  unfold scan. set (ls0 := {| ls_opens := 0 |}).
  assert (∀ s i skip q lead start ls, is_prefix (ls_code ls) text →
    is_prefix (ls_code (scan_go text s i skip q lead start ls).1) text) as H; [|apply H; done].
  clear. induction s as [|c s IH]; intros i skip q lead start ls Hl; [done|]. cbn [scan_go].
  destruct skip as [|skip]; [|by apply IH]. destruct q as [q|]; [destruct (eqc backslash c); by apply IH|].
  destruct (if eqc "$" c then _ else _); [by apply IH|]. destruct (eqc backslash c); [by apply IH|].
  destruct (_ && start); [by apply IH|]. destruct (eqc "#" c && start); [apply take_is_prefix|].
  destruct (count c i lead ls) as [ls' lead'] eqn:E. apply IH. revert E. unfold count.
  destruct (eqc "{" c); [by intros [= <- _]|]. destruct (eqc "}" c); [by intros [= <- _]|]. destruct (blank c); by intros [= <- _].
Qed.

Lemma varEnd_spec s n :
  varEnd s = Some n →
  s = reference (take_string (n - 3) (drop_string 2 s)) +:+ drop_string n s.
Proof.
  assert (∀ t j m, var_end_go j t = Some m → (j < m)%nat ∧
    t = take_string (m - j - 1) t +:+ "}" +:+ drop_string (m - j) t) as Hgo.
  { clear. intros t. induction t as [|c t IH]; intros j m; [done|]. cbn [var_end_go].
    destruct (eqc "}" c) eqn:Ec.
    - destruct (j =? 2)%nat; [done|]. intros [= <-]. split; [lia|]. replace (S j - j - 1)%nat with 0%nat by lia.
      replace (S j - j)%nat with 1%nat by lia. apply Ascii.eqb_eq in Ec as ->. done.
    - destruct (var_char c); [|done]. intros [Hm H]%IH. split; [lia|].
      replace (m - j)%nat with (S (m - S j))%nat by lia. replace (S (m - S j) - 1)%nat with (S (m - S j - 1))%nat by lia.
      cbn [take_string drop_string]. rewrite string_app_cons. by f_equal. }
  unfold varEnd. intros H. destruct s as [|c s]; [done|].
  destruct (decide (c = "$"%char)) as [->|Hc]; [|by destruct c as [[] [] [] [] [] [] [] []]].
  destruct s as [|c s]; [done|]. destruct (decide (c = "{"%char)) as [->|Hc]; [|by destruct c as [[] [] [] [] [] [] [] []]].
  apply Hgo in H as [Hm H]. unfold reference. rewrite !string_app_assoc.
  change (String "$" (String "{" s)) with ("${" +:+ s) at 1. f_equal.
  destruct n as [|[|n]]; [lia..|]. cbn [drop_string].
  replace (S (S n) - 2 - 1)%nat with (S (S n) - 3)%nat in H by lia.
  replace (S (S n) - 2)%nat with n in H by lia. exact H.
Qed.

(** ** Lines *)
Fixpoint refs_text (ps : list string) : string := match ps with [] => "" | p :: ps => reference p +:+ refs_text ps end.

Section lines.
Variable opts : FormatOptions.

Lemma split_prefixes_strip fuel rest :
  let '(ps, body, _) := split_prefixes_go opts fuel rest in
  strip (refs_text ps +:+ body) = strip rest ∧ (TrimBlanks rest = rest → TrimBlanks body = body).
Proof.
  revert rest. induction fuel as [|fuel IH]; intros rest; cbn [split_prefixes_go]; [done|].
  destruct (varEnd rest) as [n|] eqn:E; [|done]. destruct (IsSwitch opts _); [|done].
  specialize (IH (TrimBlanks (drop_string n rest))).
  destruct (split_prefixes_go opts fuel (TrimBlanks (drop_string n rest))) as [[ps body] ws].
  destruct IH as [IH1 IH2]. split; [|intros _; apply IH2, TrimBlanks_idem].
  cbn [refs_text]. rewrite string_app_assoc, strip_app, IH1, strip_TrimBlanks, <- strip_app. f_equal. by symmetry; apply varEnd_spec.
Qed.

Lemma splitPrefixes_strip line :
  let '(ps, body, _, _) := splitPrefixes opts line in strip (refs_text ps +:+ body) = strip line ∧ TrimBlanks body = body.
Proof.
  unfold splitPrefixes. pose proof (split_prefixes_strip (S (String.length (TrimBlanks line))) (TrimBlanks line)) as H.
  destruct (split_prefixes_go _ _ _) as [[ps body] ws]. destruct H as [-> H]. split; [apply strip_TrimBlanks|].
  apply H, TrimBlanks_idem.
Qed.

(** A formatted line has the text of [line]. *)
Definition good (line : string) (f : fline) : Prop :=
  strip (f_raw f) = strip line ∧
  (f_verbatim f = true ∧ f_directive f = false ∨
   f_verbatim f = false ∧ strip (refs_text (f_prefixes f) +:+ f_body f) = strip line ∧
   (f_directive f = true → strip (f_name f +:+ f_rest f) = strip (f_body f))).

Lemma good_String line f : good line f → strip (fline_String f) = strip line.
Proof.
  intros [Hr Hg]. unfold fline_String. destruct Hg as [[-> _]|(-> & Hb & _)]; [done|].
  destruct (_ && _) eqn:E.
  - apply andb_true_iff in E as [E1%String.eqb_eq E2%bool_decide_eq_true]. by rewrite E1, E2 in Hb.
  - destruct (f_level f <? 0); [done|]. rewrite <- Hb, !strip_app. set (indent := Repeat _ _).
    assert (strip indent = "") as Hi by (by apply strip_Repeat).
    assert (∀ b : bool, strip (if b then "" else indent) = "") as H1 by (by intros []).
    assert (∀ b : bool, strip (if b then indent else "") = "") as H2 by (by intros []).
    rewrite H1, string_app_nil_l. f_equal. destruct (f_prefixes f) as [|p ps]; [done|]. cbn [refs_text].
    rewrite !strip_app, H2, string_app_nil_l. done.
Qed.

Lemma good_directive line code f :
  good line f → f_verbatim f = false → f_directive f = false → is_prefix code (f_body f) → good line (setDirective opts code f).
Proof.
  intros Hg Hv Hd Hc. unfold setDirective. destruct (name_end code) as [e|]; [|done].
  destruct (_ || Contains _ ";") eqn:E; [done|]. destruct Hg as [Hr [[? _]|(_ & Hb & _)]]; [congruence|].
  split; [done|]. right. split_and!; [done..|]. intros _. cbn.
  rewrite !orb_false_iff in E. destruct E as [[[[E _] _] _] _]. apply Nat.leb_gt in E.
  rewrite strip_app, strip_TrimBlanks, (take_prefix e code (f_body f)), <- strip_app, <- take_drop_string; [done|done|lia].
Qed.

Lemma classifyLine_good c line : good line (classifyLine opts c line).1.
Proof.
  unfold classifyLine. destruct (c_quote c) as [q|].
  { destruct (scan (Some q) line) as [ls quote]. split; [apply strip_TrimSuffix|by left]. }
  pose proof (splitPrefixes_strip line) as Hs. destruct (splitPrefixes opts line) as [[[prefixes body] hadWS] col0].
  destruct Hs as [Hs Ht]. pose proof (scan_code None body) as Hc. destruct (scan None body) as [ls quote]. cbn [fst] in Hc.
  set (body' := match quote with Some _ => _ | None => _ end). set (code := drop_end trailing (ls_code ls)).
  assert (strip body' = strip body) as Hb. { subst body'. destruct quote; [apply strip_TrimBlanks|apply strip_drop_end]. }
  assert (is_prefix code body') as Hcode.
  { subst body' code. destruct quote; [|by apply drop_end_mono]. rewrite Ht. etrans; [apply drop_end_is_prefix|done]. }
  assert (∀ level, good line {| f_raw := drop_end trailing line; f_verbatim := false; f_prefixes := prefixes; f_col0 := col0;
     f_body := body'; f_level := level; f_directive := false; f_name := ""; f_rest := ""; f_gap := 0; f_lead := false |}) as Hg.
  { intros level. split; [apply strip_drop_end|]. right. cbn. split_and!; [done| |done]. by rewrite strip_app, Hb, <- strip_app. }
  cbn [fst]. destruct (_ && (0 <=? _)); [|done]. by apply good_directive.
Qed.

Lemma classify_good lines : Forall2 good lines (classify opts lines).
Proof.
  unfold classify. generalize {| c_quote := None; c_depth := 0; c_pending := false |}.
  induction lines as [|line lines IH]; intros c; cbn; [constructor|]. pose proof (classifyLine_good c line) as H.
  destruct (classifyLine opts c line) as [f c']. by constructor.
Qed.
End lines.

(** ** Alignment *)
Definition aligned (f f' : fline) : Prop :=
  f' = f ∨ f_directive f = true ∧ ∃ n, f' = with_body (f_name f +:+ Repeat " " n +:+ f_rest f) f.

Lemma good_aligned line f f' : good line f → aligned f f' → good line f'.
Proof.
  intros Hg [->|(Hd & n & ->)]; [done|]. destruct Hg as [Hr [[_ ?]|(Hv & Hb & Hn)]]; [congruence|].
  assert (strip (f_name f +:+ Repeat " " n +:+ f_rest f) = strip (f_body f)) as H.
  { rewrite !strip_app, strip_Repeat, string_app_nil_l, <- strip_app by done. by apply Hn. }
  split; [done|]. right. cbn. split_and!; [done| |].
  - rewrite strip_app, H, <- strip_app. done.
  - intros _. rewrite H. by apply Hn.
Qed.

Abbreviation directives := (Forall (λ f, f_directive f = true)).

Lemma alignGroup_aligned group : directives group → Forall2 aligned group (alignGroup group).
Proof.
  intros H. unfold alignGroup. generalize (1 <? length group)%nat (foldr Z.max 0 (map natural group)). intros b column.
  induction H as [|f l Hf H IH]; constructor; [|done]. right. eauto.
Qed.

Lemma alignRun_aligned group run : directives group → directives run → Forall2 aligned (group ++ run) (alignRun_go group run).
Proof.
  revert group. induction run as [|f run IH]; intros group Hg Hr; cbn; [rewrite app_nil_r; by apply alignGroup_aligned|].
  apply Forall_cons in Hr as [Hf Hr]. destruct (last group) as [g|] eqn:E.
  - destruct (linked g f).
    + rewrite (app_assoc group [f] run : group ++ f :: run = _). apply IH; [|done]. apply Forall_app. by repeat constructor.
    + apply Forall2_app; [by apply alignGroup_aligned|]. apply (IH [f]); [by repeat constructor|done].
  - apply last_None in E as ->. apply (IH [f]); [by repeat constructor|done].
Qed.

Lemma alignRuns_aligned run fl : directives run → Forall2 aligned (run ++ fl) (alignRuns_go run fl).
Proof.
  revert run. induction fl as [|f fl IH]; intros run Hr; cbn; [rewrite app_nil_r; by apply (alignRun_aligned [] run)|].
  destruct (f_directive f) eqn:Ef; cbn [andb].
  - destruct (match run with [] => true | _ => _ end).
    + rewrite (app_assoc run [f] fl : run ++ f :: fl = _). apply IH, Forall_app. by repeat constructor.
    + apply Forall2_app; [by apply (alignRun_aligned [] run)|]. apply (IH [f]). by repeat constructor.
  - apply Forall2_app; [by apply (alignRun_aligned [] run)|]. constructor; [by left|]. by apply (IH []).
Qed.

(** ** Passes *)
Definition same_text (a b : string) : Prop := strip a = strip b.

#[local] Instance same_text_equivalence : Equivalence same_text.
Proof. unfold same_text. split; [by intros ?|by intros ???|intros ??? H1 H2; by rewrite H1]. Qed.

Lemma formatPass_text opts lines : Forall2 same_text lines (formatPass opts lines).
Proof.
  unfold formatPass. pose proof (classify_good opts lines) as Hg.
  pose proof (alignRuns_aligned [] (classify opts lines) ltac:(constructor)) as Ha. cbn [app] in Ha.
  apply Forall2_fmap_r. fold (alignRuns (classify opts lines)) in Ha. revert Hg Ha.
  generalize (classify opts lines) as fl, (alignRuns (classify opts lines)) as fl'. intros fl fl' Hg. revert fl'.
  induction Hg as [|line f lines fl H Hg IH]; intros fl' Ha; [by apply Forall2_nil_inv_l in Ha as ->|].
  apply Forall2_cons_inv_l in Ha as (f' & fl2 & Hf & Ha & ->). constructor; [|by apply IH].
  unfold same_text. symmetry. by eapply good_String, good_aligned.
Qed.

Lemma format_passes_text opts n lines : Forall2 same_text lines (format_passes opts n lines).
Proof.
  revert lines. induction n as [|n IH]; intros lines; cbn; [reflexivity|].
  case_decide; [apply formatPass_text|]. etrans; [apply formatPass_text|apply IH].
Qed.

(** ** Texts *)
Lemma no_newline_strip s : no_newline (strip s) = no_newline s.
Proof.
  induction s as [|c s IH]; [done|]. unfold no_newline in *. cbn [strip chars]. destruct (trailing c) eqn:E; [|cbn [chars]; by rewrite IH].
  rewrite IH. assert (eqc newline c = false) as ->; [|done]. by destruct c as [[] [] [] [] [] [] [] []].
Qed.

Lemma SplitLines_lines src : Forall (λ l, no_newline l = true) (SplitLines src).
Proof.
  unfold SplitLines. destruct (String.eqb src ""); [constructor|]. eapply Forall_impl; [apply SplitByte_chars|].
  intros l. by apply Is_true_true_1.
Qed.

Lemma same_text_lines lines lines' :
  Forall2 same_text lines lines' → Forall (λ l, no_newline l = true) lines → Forall (λ l, no_newline l = true) lines'.
Proof.
  induction 1 as [|a b l l' Hab H IH]; [done|]. intros [Ha Hl]%Forall_cons. constructor; [|by apply IH].
  by rewrite <- no_newline_strip, <- Hab, no_newline_strip.
Qed.

Lemma unlines_Join l lines : unlines (l :: lines) = Join (l :: lines) nl +:+ nl.
Proof.
  revert l. induction lines as [|m lines IH]; intros l.
  - cbn. by rewrite string_app_nil_r.
  - change (unlines (l :: m :: lines)) with (l +:+ nl +:+ unlines (m :: lines)). rewrite IH.
    change (Join (l :: m :: lines) nl) with (l +:+ nl +:+ Join (m :: lines) nl). by rewrite !string_app_assoc.
Qed.

Lemma drop_string_length a b : drop_string (String.length a) (a +:+ b) = b.
Proof. induction a as [|c a IH]; [done|]. by rewrite string_app_cons. Qed.

Lemma take_string_length a b : take_string (String.length a) (a +:+ b) = a.
Proof. induction a as [|c a IH]; [done|]. rewrite string_app_cons. cbn. by rewrite IH. Qed.

Lemma TrimSuffix_app a suf : TrimSuffix (a +:+ suf) suf = a.
Proof.
  unfold TrimSuffix, HasSuffix. rewrite length_string_app.
  replace (String.length a + String.length suf - String.length suf)%nat with (String.length a) by lia.
  rewrite drop_string_length, String.eqb_refl, take_string_length. by rewrite (proj2 (Nat.leb_le _ _)) by lia.
Qed.

Lemma SplitLines_unlines lines : Forall (λ l, no_newline l = true) lines → SplitLines (unlines lines) = lines.
Proof.
  intros H. destruct lines as [|l lines]; [done|]. unfold SplitLines. rewrite unlines_Join.
  destruct (String.eqb_spec (Join (l :: lines) nl +:+ nl) "") as [E|_].
  { apply (f_equal String.length) in E. rewrite length_string_app in E. cbn in E. lia. }
  rewrite TrimSuffix_app. apply SplitByte_Join; [done|]. eapply Forall_impl; [exact H|]. intros x Hx. by apply Is_true_true_2.
Qed.

(** The lines of a formatted text. *)
Definition format_all (opts : FormatOptions) (lines : list string) : list string :=
  match lines with
  | [] => []
  | first :: rest =>
      match ParseExplode first with Some _ => first :: formatLines opts rest | None => formatLines opts (first :: rest) end
  end.

Lemma Format_unlines opts src : Format opts src = unlines (format_all opts (SplitLines src)).
Proof. unfold Format, format_all. destruct (SplitLines src) as [|first rest]; [done|]. by destruct (ParseExplode first). Qed.

Lemma format_all_text opts lines : Forall2 same_text lines (format_all opts lines).
Proof.
  destruct lines as [|first rest]; [constructor|]. cbn [format_all]. destruct (ParseExplode first).
  - constructor; [done|]. apply format_passes_text.
  - apply format_passes_text.
Qed.

Lemma SplitLines_Format opts src : SplitLines (Format opts src) = format_all opts (SplitLines src).
Proof.
  rewrite Format_unlines. apply SplitLines_unlines. eapply same_text_lines; [apply format_all_text|apply SplitLines_lines].
Qed.

(** C23: formatting a template adds and removes no line and changes nothing in a line
    but blanks: the formatted text has as many lines as the source, and each has the
    text of its counterpart, in the same order of its characters. *)
Theorem Format_blanks_only opts src : Forall2 same_text (SplitLines src) (SplitLines (Format opts src)).
Proof. rewrite SplitLines_Format. apply format_all_text. Qed.

Lemma formatLines_stable opts lines : formatPass opts lines = lines → formatLines opts lines = lines.
Proof. intros H. unfold formatLines, maxPasses. cbn [format_passes]. rewrite H. by rewrite decide_True. Qed.

(** When the passes settled and the first line is read as before, formatting again
    changes nothing. *)
Lemma Format_stable opts src :
  let lines := SplitLines (Format opts src) in
  (∀ body, (body = lines ∨ lines = default "" (head lines) :: body) → formatPass opts body = body) →
  Format opts (Format opts src) = Format opts src.
Proof.
  intros lines H. rewrite (Format_unlines opts (Format opts src)). fold lines.
  assert (Format opts src = unlines lines) as -> by (subst lines; by rewrite SplitLines_Format, Format_unlines).
  f_equal. clearbody lines. unfold format_all. destruct lines as [|first rest]; [done|].
  destruct (ParseExplode first); [f_equal|]; apply formatLines_stable, H; [by right|by left].
Qed.

(** ** Where formatting falls short of its documentation *)
Definition plain_options : FormatOptions := {| IsSwitch := λ _, false; LeadingSpace := λ _, false |}.

(** Names of growing length on alternate sides of a padded line: each pass brings one
    more of them into reach. *)
Fixpoint ladder (n : nat) : list string :=
  match n with
  | O => ["bbb x;"; "a   x;"]
  | S n => let name := Repeat "n" (n + 4) +:+ " x;" in if Nat.even n then ladder n ++ [name] else name :: ladder n
  end.

(** Sixteen passes are not always enough, so that formatting twice may differ. *)
Example Format_not_idempotent :
  let once := Format plain_options (unlines (ladder 17)) in String.eqb (Format plain_options once) once = false.
Proof. vm_compute. reflexivity. Qed.

(** An indented explode directive is text to the generator; formatting makes it a
    directive. *)
Example Format_makes_explode :
  let src := "  !{explode domain(vhn)}" +:+ nl in
  body_lines src = ["  !{explode domain(vhn)}"] ∧ body_lines (Format plain_options src) = [].
Proof. vm_compute. done. Qed.
