(* ===== verification/NetIP.v ===== *)
(** * NetIP: IP addresses as Go's [net] package reads and writes them

    [net.ParseIP], [IP.To4] and [IP.String], which the proxy generator uses to check
    the addresses it takes from the directory.  An IPv4 address and its IPv6-mapped
    form are the same address, as in [net]. *)
From stdpp Require Import pretty.
From S2P Require Import Prelude.
Open Scope Z_scope.

Inductive IP := IPv4 (a b c d : Z) | IPv6 (groups : list Z).

#[export] Instance IP_eq_dec : EqDecision IP.
Proof. solve_decision. Defined.

(** ** Reading *)
Definition hex_of (c : ascii) : option Z :=
  let n := Z.of_N (byte c) in
  if in_range 48 57 c then Some (n - 48)
  else if in_range 97 102 c then Some (n - 87)
  else if in_range 65 70 c then Some (n - 55)
  else None.

Fixpoint hex_digits (acc : Z) (s : string) : option Z :=
  match s with "" => Some acc | String c s => d ← hex_of c; hex_digits (acc * 16 + d) s end.

(** A field of an IPv6 address: one to four hexadecimal digits. *)
Definition parse_group (s : string) : option Z :=
  if String.eqb s "" || (4 <? String.length s)%nat then None else hex_digits 0 s.

(** A field of an IPv4 address: no leading zero, at most 255. *)
Definition parse_octet (s : string) : option Z :=
  match s with
  | "" => None
  | String "0" (String _ _) => None
  | _ => if (3 <? String.length s)%nat then None else n ← digits 0 s; if n <=? 255 then Some n else None
  end.

Definition parse4 (s : string) : option (Z * Z * Z * Z) :=
  match SplitByte "." s with
  | [a; b; c; d] => a ← parse_octet a; b ← parse_octet b; c ← parse_octet c; d ← parse_octet d; Some (a, b, c, d)
  | _ => None
  end.

(** The fields between colons; the last may be an IPv4 address. *)
Fixpoint parse_groups (last_ok : bool) (fields : list string) : option (list Z) :=
  match fields with
  | [] => Some []
  | [f] =>
      if last_ok && Contains f "." then '(a, b, c, d) ← parse4 f; Some [a * 256 + b; c * 256 + d]
      else g ← parse_group f; Some [g]
  | f :: fields => g ← parse_group f; gs ← parse_groups last_ok fields; Some (g :: gs)
  end.

Definition side (last_ok : bool) (s : string) : option (list Z) :=
  if String.eqb s "" then Some [] else parse_groups last_ok (SplitByte ":" s).

(** The text before and after the first double colon. *)
Fixpoint cut_ellipsis (s : string) : option (string * string) :=
  match s with
  | "" => None
  | String c s' =>
      if HasPrefix s "::" then Some ("", drop_string 2 s) else (λ '(a, b), (String c a, b)) <$> cut_ellipsis s'
  end.

Definition parse6 (s : string) : option (list Z) :=
  match cut_ellipsis s with
  | None => gs ← parse_groups true (SplitByte ":" s); if (length gs =? 8)%nat then Some gs else None
  | Some (a, b) =>
      ga ← side false a; gb ← side true b;
      if (length ga + length gb <=? 7)%nat then Some (ga ++ replicate (8 - length ga - length gb) 0 ++ gb) else None
  end.

(** The first of the two separators decides which kind of address it is. *)
Fixpoint first_separator (s : string) : option bool :=
  match s with
  | "" => None
  | String c s => if Ascii.eqb c "." then Some false else if Ascii.eqb c ":" then Some true else first_separator s
  end.

(** [net.IP] of eight groups: the IPv6-mapped ones are IPv4 addresses ([To4]). *)
Definition of_groups (gs : list Z) : IP :=
  match gs with
  | [0; 0; 0; 0; 0; 65535; x; y] => IPv4 (x / 256) (x mod 256) (y / 256) (y mod 256)
  | _ => IPv6 gs
  end.

Definition ParseIP (s : string) : option IP :=
  match first_separator s with
  | Some false => (λ '(a, b, c, d), IPv4 a b c d) <$> parse4 s
  | Some true => of_groups <$> parse6 s
  | None => None
  end.

(** ** Writing *)
Definition hex_char (n : Z) : ascii := ascii_of_N (Z.to_N (if n <? 10 then 48 + n else 87 + n)).

Fixpoint hex_text (fuel : nat) (n : Z) (acc : string) : string :=
  match fuel with
  | O => acc
  | S fuel =>
      let acc := String (hex_char (n mod 16)) acc in if n <? 16 then acc else hex_text fuel (n / 16) acc
  end.
Definition hex (n : Z) : string := hex_text 4 n "".

(** The length of the run of zeros at the start. *)
Fixpoint zeros (gs : list Z) : nat := match gs with 0 :: gs => S (zeros gs) | _ => O end.

(** The first longest run of at least two zeros, as position and length. *)
Fixpoint longest_run (i : nat) (gs : list Z) (best : nat * nat) : nat * nat :=
  match gs with
  | [] => best
  | _ :: gs' => longest_run (S i) gs' (if (snd best <? zeros gs)%nat then (i, zeros gs) else best)
  end.

Definition group_text (gs : list Z) : string := Join (map hex gs) ":".

Definition text6 (gs : list Z) : string :=
  let '(i, n) := longest_run 0 gs (O, 1%nat) in
  if (n <=? 1)%nat then group_text gs else group_text (take i gs) +:+ "::" +:+ group_text (drop (i + n) gs).

Definition IP_String (ip : IP) : string :=
  match ip with
  | IPv4 a b c d => pretty a +:+ "." +:+ pretty b +:+ "." +:+ pretty c +:+ "." +:+ pretty d
  | IPv6 gs => text6 gs
  end.

Definition is_v4 (ip : IP) : bool := match ip with IPv4 _ _ _ _ => true | IPv6 _ => false end.

Example ParseIP_texts :
  (map (λ s, default "" (IP_String <$> ParseIP s))
    ["10.0.0.1"; "10.0.0.01"; "2001:DB8::1"; "::"; "::ffff:1.2.3.4"; "1:2:3:4:5:6:7:8"; "1::2::3"; "1:0:0:2:0:0:0:3"; "::1.2.3.4"; "1:2:3:4:5:6:7::"])
  = ["10.0.0.1"; ""; "2001:db8::1"; "::"; "1.2.3.4"; "1:2:3:4:5:6:7:8"; ""; "1:0:0:2::3"; "::102:304"; "1:2:3:4:5:6:7:0"].
Proof. vm_compute. reflexivity. Qed.
