(* ===== verification/Proxy.v ===== *)
(** * Proxy: the variables of the nginx configuration generator

    Models internal/proxy: the data of types.go, the checks of sanitize.go, the
    conversion and formatting of values (vars.go, template.go, template_interpolate.go)
    and the look-ups of resolvers.go.  The resolvers and formatters that a variable
    names are constructors here, applied in [ProxyResolvers].  The descriptions of the
    variables, which only documentation shows, are left out. *)
From stdpp Require Import pretty.
From S2P Require Import Prelude Config Tmpl NetIP.
Open Scope Z_scope.

(** ** types.go *)

(** The dynamic values of a variable. *)
Inductive Val := VNil | VBool (b : bool) | VString (s : string) | VInt (z : Z) | VInt64 (z : Z) | VStrings (l : list string).

Inductive ValueType :=
  ValueTypeInteger | ValueTypeLong | ValueTypeString | ValueTypeBoolean | ValueTypeEnabler | ValueTypeTime |
  ValueTypeTimeInSec | ValueTypeCustom.

Inductive OverrideType := OverrideNone | OverrideConfig | OverrideServer | OverrideLocalConfig | OverrideCustom.

#[export] Instance Val_eq_dec : EqDecision Val.
Proof. solve_decision. Defined.
#[export] Instance ValueType_eq_dec : EqDecision ValueType.
Proof. solve_decision. Defined.

(** How the servers of an upstream block are found (upstream_spec.go). *)
Record upstreamSpec := {
  us_services : list string; us_attrList : string; us_portAttrKey : string; us_portAttrDefault : string; us_fixedPort : Z }.

(** The custom resolvers. *)
Inductive ResolverId :=
  | IPMode (mode : string)
  | DHParamEnabled
  | SSLSessionCacheSize
  | SSLClientCertCAEnabled
  | Timeout (configKey : string) (defaultBase offset : Z)
  | MailWhitelistIPs
  | WebSSLProtocols
  | MemcacheServers
  | ListenAddresses
  | WebSSLDhparamEnabled
  | StrictServerName
  | ProxyHTTPCompression
  | UpstreamDisable (spec : upstreamSpec)
  | UpstreamServers (spec : upstreamSpec)
  | UpstreamTarget (sslName plainName : string)
  | LoginURL (configKey : string)
  | LogoutRedirect (configKey : string)
  | AddHeadersDefault
  | ErrorPages
  | MailModeEnabled (disabledWhenMode : string)
  | WebAvailable
  | WebUpstreamTargetAvailable
  | UpstreamFairShmSize
  | Greeting (attribute before after : string)
  | SaslHostFromIP
  | IMAPCapabilities
  | POP3Capabilities
  | IMAPId
  | LookupTargetAvailable
  | LookupAvailable
  | LookupHandlers.

Inductive FormatterId := SpacedList | Capabilities.

Record Variable_ := {
  v_Attribute : string;
  v_ValueType : ValueType;
  v_OverrideType : OverrideType;
  v_DefaultValue : Val;
  v_Value : Val;
  v_CustomFormatter : option FormatterId;
  v_CustomResolver : option ResolverId;
  v_ConfigText : option string
}.

(** The map of variables.  The copies saved while a domain is rendered may be nil
    pointers ([Some None]). *)
Abbreviation Vars := (gmap string (option Variable_)).

Definition set_value (val : Val) (v : Variable_) : Variable_ :=
  {| v_Attribute := v_Attribute v; v_ValueType := v_ValueType v; v_OverrideType := v_OverrideType v;
     v_DefaultValue := v_DefaultValue v; v_Value := val; v_CustomFormatter := v_CustomFormatter v;
     v_CustomResolver := v_CustomResolver v; v_ConfigText := v_ConfigText v |}.

(** A variable without attribute, resolver and formatter. *)
Definition plainVar (vt : ValueType) (val : Val) : Variable_ :=
  {| v_Attribute := ""; v_ValueType := vt; v_OverrideType := OverrideNone; v_DefaultValue := VNil; v_Value := val;
     v_CustomFormatter := None; v_CustomResolver := None; v_ConfigText := None |}.

Record DomainInfo := {
  d_Name : string; d_VirtualHostname : string; d_VirtualIPAddress : string; d_ClientCertMode : string;
  d_ClientCertCA : string; d_SSLCertificate : string; d_SSLPrivateKey : string }.

Record ServerInfo := { si_ID : string; si_Hostname : string }.

(** The attributes of a server entry of the directory. *)
Abbreviation Attrs := (gmap string string).

(** What a generator reads: its configurations (which may be missing) and directories,
    and the answers of the directory, the files and the name service while it runs.
    [e_buildProps] is the text of the build properties of the mailbox jar.
    The servers are listed in the order in which the loop over Go's map meets them.
    [e_frac digits unit] is the part of a unit, in nanoseconds, that the digits after
    the point of a duration stand for, which Go computes in floating point. *)
Record Env := {
  e_Local : option (gmap string string);
  e_Global : option (gmap string string);
  e_Server : option (gmap string string);
  e_WorkingDir : string;
  e_ConfDir : string;
  e_IncludesDir : string;
  e_ConfPrefix : string;
  e_TemplatePrefix : string;
  e_ldap : bool;
  e_servers : option (list (string * Attrs));
  e_domains : option (list DomainInfo);
  e_service_servers : string → option (list ServerInfo);
  e_stat_size : string → option Z;
  e_lookup_ip : string → option IP;
  e_buildProps : option string;
  e_frac : string → Z → Z
}.

(** ** sanitize.go *)
Definition maxHostnameLen : nat := 253.

Definition host_char (c : ascii) : bool :=
  in_range 97 122 c || in_range 65 90 c || in_range 48 57 c || eqc "." c || eqc "-" c || eqc "_" c || eqc ":" c || eqc "[" c || eqc "]" c.

Definition validHostToken (s : string) : bool :=
  non_empty s && (String.length s <=? maxHostnameLen)%nat && chars host_char s.

(** [strings.Trim(s, '[]')] *)
Definition trim_brackets (s : string) : string :=
  let b c := eqc "[" c || eqc "]" c in String.rev (span b (String.rev (span b s).2)).2.

Definition validIPLiteral (s : string) : bool := bool_decide (is_Some (ParseIP (trim_brackets s))).

Definition validDomainName (s : string) : bool :=
  validHostToken s && chars (λ c, negb (eqc ":" c || eqc "[" c || eqc "]" c)) s && negb (Contains s "..").

Definition validClientCertMode (mode : string) : bool :=
  existsb (String.eqb mode) [""; "off"; "on"; "optional"; "optional_no_ca"].

(** [validateDomainInfo], as the field that is refused. *)
Definition validateDomainInfo (d : DomainInfo) : option string :=
  if negb (validDomainName (d_Name d)) then Some "domain name"
  else if non_empty (d_VirtualHostname d) && negb (validHostToken (d_VirtualHostname d)) then Some "virtual hostname"
  else if non_empty (d_VirtualIPAddress d) && negb (validIPLiteral (d_VirtualIPAddress d)) then Some "virtual IP address"
  else if negb (validClientCertMode (d_ClientCertMode d)) then Some "client cert mode"
  else None.

(** ** Formatting (template.go, template_interpolate.go) *)

(** [fmt.Sprintf('%v')] *)
Definition any_text (v : Val) : string :=
  match v with
  | VNil => "<nil>"
  | VBool b => if b then "true" else "false"
  | VString s => s
  | VInt z | VInt64 z => pretty z
  | VStrings l => "[" +:+ Join l " " +:+ "]"
  end.

(** Whether a value is not the [int] 0.  In a case of several types the Go value stays
    an interface, and an [int64] never equals an [int]. *)
Definition not_zero (v : Val) : bool := match v with VInt z => negb (z =? 0) | _ => true end.

Definition enabled_value (v : Val) : option bool :=
  match v with
  | VBool b => Some b
  | VString s => Some (non_empty s)
  | VInt _ | VInt64 _ => Some (not_zero v)
  | VNil | VStrings _ => None
  end.

Definition formatEnabler (v : Val) : string := if default false (enabled_value v) then "" else "#".

Definition formatValue (v : Val) : string :=
  match v with
  | VNil => ""
  | VString s => s
  | VInt z | VInt64 z => pretty z
  | VBool b => if b then "on" else "off"
  | VStrings l => Join l " "
  end.

Definition formatTimeValue (v : Val) : string :=
  match v with VNil => "" | VString s => s | VInt z | VInt64 z => pretty z +:+ "ms" | _ => any_text v end.

Definition formatTimeInSecValue (v : Val) : string :=
  match v with
  | VNil => ""
  | VString s => match Atoi s with Some ms => pretty (Z.quot ms 1000) | None => s end
  | VInt z | VInt64 z => pretty (Z.quot z 1000)
  | _ => any_text v
  end.

Definition quoted (s : string) : string := dquote +:+ s +:+ dquote.

(** The bytes that would end a quoted argument. *)
Definition breaks_quotes (c : ascii) : bool :=
  eqc double_quote c || eqc backslash c || eqc newline c || (byte c =? 13)%N || (byte c =? 0)%N || eqc ";" c.

(** [formatCapabilities] *)
Definition formatCapabilities (v : Val) : option string :=
  match v with
  | VStrings caps =>
      Some (foldr (λ cap s, if chars (λ c, negb (breaks_quotes c)) cap then " " +:+ quoted cap +:+ s else s) "" caps)
  | _ => None
  end.

Definition run_formatter (f : FormatterId) (v : Val) : option string :=
  match f with
  | SpacedList => Some (match v with VStrings l => " " +:+ Join l " " | _ => " " +:+ any_text v end)
  | Capabilities => formatCapabilities v
  end.

Definition format_variable (v : Variable_) : option string :=
  match v_ConfigText v with
  | Some text => Some text
  | None =>
      match v_CustomFormatter v with
      | Some f => run_formatter f (v_Value v)
      | None =>
          Some (match v_ValueType v with
                | ValueTypeEnabler => formatEnabler (v_Value v)
                | ValueTypeTime => formatTimeValue (v_Value v)
                | ValueTypeTimeInSec => formatTimeInSecValue (v_Value v)
                | _ => formatValue (v_Value v)
                end)
      end
  end.

(** [None] is the error of an unknown variable or of its formatter.  (A nil pointer
    would be dereferenced; only saved copies can be nil, and no template names them.) *)
Definition ExpandVariable (vars : Vars) (name : string) : option string :=
  match vars !! name with Some (Some v) => format_variable v | _ => None end.

(** [varResolver.Enabler]; a value of an unexpected type is logged and off. *)
Definition Enabler_of (vars : Vars) (name : string) : option bool :=
  match vars !! name with
  | Some (Some v) =>
      match v_ValueType v with ValueTypeEnabler => Some (default false (enabled_value (v_Value v))) | _ => None end
  | _ => None
  end.

Definition varResolver (vars : Vars) : Resolver := {| Enabler_ := Enabler_of vars; Value_ := ExpandVariable vars |}.

Definition interpolateLine (vars : Vars) (line : string) : string := RenderLine (varResolver vars) line.

(** ** Values from the configuration (vars.go) *)
Definition lookupAttr (data : option (gmap string string)) (attr : string) : option string :=
  if String.eqb attr "" then None else m ← data; m !! attr.

(** *** [time.ParseDuration] *)
Definition is_digit (c : ascii) : bool := in_range 48 57 c.

Definition micro1 : string := String (ascii_of_nat 194) (String (ascii_of_nat 181) "s").
Definition micro2 : string := String (ascii_of_nat 206) (String (ascii_of_nat 188) "s").

Definition unit_ns (u : string) : option Z :=
  if String.eqb u "ns" then Some 1
  else if String.eqb u "us" || String.eqb u micro1 || String.eqb u micro2 then Some 1000
  else if String.eqb u "ms" then Some 1000000
  else if String.eqb u "s" then Some 1000000000
  else if String.eqb u "m" then Some 60000000000
  else if String.eqb u "h" then Some 3600000000000
  else None.

Section config.
Variable E : Env.

Fixpoint durations (fuel : nat) (acc : Z) (s : string) : option Z :=
  match fuel with
  | O => None
  | S fuel =>
      if String.eqb s "" then Some acc
      else
        let '(whole, s) := span is_digit s in
        let '(point, s) := match s with String "." s => (true, s) | _ => (false, s) end in
        let '(fraction, s) := if point then span is_digit s else ("", s) in
        let '(u, s) := span (λ c, negb (is_digit c || eqc "." c)) s in
        if String.eqb whole "" && String.eqb fraction "" then None
        else
          v ← digits 0 whole; unit ← unit_ns u;
          let total := v * unit + (if String.eqb fraction "" then 0 else e_frac E fraction unit) in
          if (2 ^ 63 <? v) || (2 ^ 63 / unit <? v) || (2 ^ 63 <? total) || (2 ^ 63 <? acc + total) then None
          else durations fuel (acc + total) s
  end.

Definition ParseDuration (s : string) : option Z :=
  let '(neg, s) := match s with String "-" s => (true, s) | String "+" s => (false, s) | _ => (false, s) end in
  if String.eqb s "0" then Some 0
  else if String.eqb s "" then None
  else
    d ← durations (S (String.length s)) 0 s;
    if (neg : bool) then Some (- d) else if 2 ^ 63 - 1 <? d then None else Some d.

Definition parseDurationToMillis (val : string) (secondsAsUnit : bool) : Val :=
  if String.eqb val "" then VString val
  else match ParseDuration val with
       | Some d => VInt (Z.quot d 1000000)
       | None =>
           match Atoi val with
           | Some n => VInt (if secondsAsUnit then wrap64 (n * 1000) else n)
           | None => VString val
           end
       end.

(** [None] is the conversion error. *)
Definition convertValue (val : string) (vt : ValueType) : option Val :=
  match vt with
  | ValueTypeInteger => VInt <$> Atoi val
  | ValueTypeLong => VInt64 <$> Atoi val
  | ValueTypeBoolean | ValueTypeEnabler => Some (VBool (EqualFold val "TRUE"))
  | ValueTypeString => Some (VString val)
  | ValueTypeTime => Some (parseDurationToMillis val true)
  | ValueTypeTimeInSec => Some (parseDurationToMillis val false)
  | ValueTypeCustom => Some (VString val)
  end.

(** [LookupValue] of a variable without a resolver. *)
Definition lookup_configured (v : Variable_) : option Val :=
  let attr := v_Attribute v in
  match v_OverrideType v with
  | OverrideConfig =>
      match lookupAttr (e_Global E) attr with Some val => convertValue val (v_ValueType v) | None => Some (v_DefaultValue v) end
  | OverrideServer =>
      match lookupAttr (e_Server E) attr with
      | Some val => convertValue val (v_ValueType v)
      | None =>
          match lookupAttr (e_Global E) attr with
          | Some val => convertValue val (v_ValueType v)
          | None => Some (v_DefaultValue v)
          end
      end
  | OverrideLocalConfig =>
      match lookupAttr (e_Local E) attr with Some val => convertValue val (v_ValueType v) | None => Some (v_DefaultValue v) end
  | OverrideNone | OverrideCustom => Some (v_DefaultValue v)
  end.

(** *** resolvers.go *)
Inductive configSource := sourceGlobal | sourceServer | sourceLocal.

Definition source_data (src : configSource) : option (gmap string string) :=
  match src with sourceGlobal => e_Global E | sourceServer => e_Server E | sourceLocal => e_Local E end.

(** The first source with a value that is not empty. *)
Fixpoint getConfigValue (key : string) (sources : list configSource) : option string :=
  match sources with
  | [] => None
  | src :: sources =>
      match m ← source_data src; m !! key with
      | Some v => if String.eqb v "" then getConfigValue key sources else Some v
      | None => getConfigValue key sources
      end
  end.

Definition server_global : list configSource := [sourceServer; sourceGlobal].

(** Unlike the other look-ups, an empty mode is taken. *)
Definition getIPMode : string :=
  match m ← e_Global E; m !! "zimbraIPMode" with
  | Some mode => ToLower mode
  | None => match m ← e_Local E; m !! "zimbraIPMode" with Some mode => ToLower mode | None => "both" end
  end.

Definition clientCertCAPath : string := e_ConfDir E +:+ "/nginx.client.ca.crt".

Definition perVirtualHostnameEnabled : bool :=
  match getConfigValue "zimbraReverseProxyGenConfigPerVirtualHostname" server_global with
  | None => true
  | Some v => EqualFold v "TRUE"
  end.

Definition confPrefix : string := if String.eqb (e_ConfPrefix E) "" then ConfPrefix else e_ConfPrefix E.
Definition templatePrefix : string := if String.eqb (e_TemplatePrefix E) "" then confPrefix else e_TemplatePrefix E.
End config.
