(* ===== verification/ProxyUpstream.v ===== *)
(** * ProxyUpstream: the upstream servers of the proxy configuration

    Models internal/proxy/upstreams.go and upstream_spec.go: the servers of the
    directory, their index by host name, the lists of back ends derived from it and
    the cache the queries fill.  A list that is cached with its "populated" flag is
    [Some] list.  The queries hold the mutexes of the cache from beginning to end, so
    each one is one step on the cache. *)
From stdpp Require Import pretty.
From S2P Require Import Prelude Config Tmpl NetIP Proxy.
Open Scope Z_scope.

(** The weight and the failure limits of a server are never set. *)
Record UpstreamServer := { u_Host : string; u_Port : Z }.
Record MemcacheServer := { m_Hostname : string; m_Port : Z }.

(** The servers indexed by host name. *)
Abbreviation ByHost := (gmap string Attrs).

Record upstreamQueryCache := {
  uc_backends : option (list UpstreamServer);
  uc_backendsSSL : option (list UpstreamServer);
  uc_memcached : option (list MemcacheServer);
  uc_attrs : option ByHost
}.

Definition empty_cache : upstreamQueryCache :=
  {| uc_backends := None; uc_backendsSSL := None; uc_memcached := None; uc_attrs := None |}.

(** The generator may have no cache. *)
Abbreviation UCache := (option upstreamQueryCache).

(** [attrs[key]]; a missing key is the empty string. *)
Definition attr_of (attrs : Attrs) (key : string) : string := default "" (attrs !! key).

Definition atoiOr (s : string) (def : Z) : Z := default def (Atoi (TrimSpace s)).

Definition serverHostname (attrs : Attrs) : string := attr_of attrs "zimbraServiceHostname".

(** The values of a multi-valued attribute. *)
Definition trimmed_lines (s : string) : list string := TrimSpace <$> SplitByte newline s.

Definition serverEnablesAnyService (attrs : Attrs) (services : list string) : bool :=
  existsb (λ val, existsb (String.eqb val) services) (trimmed_lines (attr_of attrs "zimbraServiceEnabled")).

(** ** The back ends of the reverse proxy *)

Definition buildUpstreamServer (hostname : string) (attrs : Attrs) : UpstreamServer :=
  let mode := ToLower (attr_of attrs "zimbraMailMode") in
  {| u_Host := hostname;
     u_Port :=
       if String.eqb mode "http" || String.eqb mode "mixed" || String.eqb mode "both"
       then atoiOr (attr_of attrs "zimbraMailPort") 80
       else atoiOr (attr_of attrs "zimbraMailSSLPort") 443 |}.

Definition buildUpstreamServerSSL (hostname : string) (attrs : Attrs) : UpstreamServer :=
  {| u_Host := hostname; u_Port := atoiOr (attr_of attrs "zimbraMailSSLPort") 443 |}.

Definition backend_of (buildFn : string → Attrs → UpstreamServer) (attrs : Attrs) : option UpstreamServer :=
  let hostname := serverHostname attrs in
  if String.eqb hostname "" || negb (EqualFold (attr_of attrs "zimbraReverseProxyLookupTarget") "TRUE") then None
  else let s := buildFn hostname attrs in if 0 <? u_Port s then Some s else None.

(** The host names of the servers are distinct, so that the order of the sorted list
    does not depend on that of the map. *)
Definition buildReverseProxyBackends (byHost : ByHost) (buildFn : string → Attrs → UpstreamServer) : list UpstreamServer :=
  sort_by_key u_Host (omap (λ kv : string * Attrs, backend_of buildFn kv.2) (map_to_list byHost)).

Definition backendsOrFallback (servers : list UpstreamServer) (fallbackPort : Z) : list UpstreamServer :=
  match servers with [] => [{| u_Host := "localhost"; u_Port := fallbackPort |}] | _ => servers end.

Definition memcached_of (attrs : Attrs) : option MemcacheServer :=
  let hostname := serverHostname attrs in
  if String.eqb hostname "" || negb (serverEnablesAnyService attrs ["memcached"]) then None
  else
    let port := atoiOr (attr_of attrs "zimbraMemcachedBindPort") 11211 in
    if 0 <? port then Some {| m_Hostname := hostname; m_Port := port |} else None.

Definition buildMemcachedServers (byHost : ByHost) : list MemcacheServer :=
  sort_by_key m_Hostname (omap (λ kv : string * Attrs, memcached_of kv.2) (map_to_list byHost)).

Definition formatMemcacheServers (servers : list MemcacheServer) : string :=
  Join ((λ s, "servers   " +:+ m_Hostname s +:+ ":" +:+ pretty (m_Port s) +:+ ";") <$> servers) nl.

(** ** The index of the servers *)

Definition index_host (cn : string) (attrs : Attrs) : string :=
  let host := serverHostname attrs in if String.eqb host "" then cn else host.

Definition index_step (byHost : ByHost) (kv : string * Attrs) : ByHost :=
  let host := index_host kv.1 kv.2 in
  if validHostToken host then <[host := kv.2]> byHost else byHost.

Definition indexServersByHost (serversMap : list (string * Attrs)) : ByHost := foldl index_step ∅ serversMap.

Section queries.
Variable E : Env.

Definition set_attrs (m : ByHost) (c : upstreamQueryCache) : upstreamQueryCache :=
  {| uc_backends := uc_backends c; uc_backendsSSL := uc_backendsSSL c; uc_memcached := uc_memcached c; uc_attrs := Some m |}.

(** [None] is the failure of the query; without a client there are no servers. *)
Definition getServerAttrsByHostname (c : UCache) : option ByHost * UCache :=
  match c ≫= uc_attrs with
  | Some m => (Some m, c)
  | None =>
      if negb (e_ldap E) then (Some ∅, c)
      else match e_servers E with
           | None => (None, c)
           | Some l => let m := indexServersByHost l in (Some m, set_attrs m <$> c)
           end
  end.

Definition serverAttrsForQuery (c : UCache) : option ByHost * UCache :=
  match c ≫= uc_attrs with
  | None => if e_ldap E then getServerAttrsByHostname c else (None, c)
  | Some _ => getServerAttrsByHostname c
  end.

(** What differs between the plain and the SSL back ends. *)
Record backendParams := {
  bp_fallbackPort : Z;
  bp_build : string → Attrs → UpstreamServer;
  bp_servers : upstreamQueryCache → option (list UpstreamServer);
  bp_set : list UpstreamServer → upstreamQueryCache → upstreamQueryCache
}.

Definition backendsByParams (ssl : bool) : backendParams :=
  if ssl then
    {| bp_fallbackPort := 8443; bp_build := buildUpstreamServerSSL; bp_servers := uc_backendsSSL;
       bp_set := λ l c, {| uc_backends := uc_backends c; uc_backendsSSL := Some l; uc_memcached := uc_memcached c; uc_attrs := uc_attrs c |} |}
  else
    {| bp_fallbackPort := 8080; bp_build := buildUpstreamServer; bp_servers := uc_backends;
       bp_set := λ l c, {| uc_backends := Some l; uc_backendsSSL := uc_backendsSSL c; uc_memcached := uc_memcached c; uc_attrs := uc_attrs c |} |}.

Definition reverseProxyBackendsRaw (ssl : bool) (c : UCache) : option (list UpstreamServer) * UCache :=
  let p := backendsByParams ssl in
  match c ≫= bp_servers p with
  | Some servers => (Some servers, c)
  | None =>
      match serverAttrsForQuery c with
      | (None, c) => (None, c)
      | (Some byHost, c) =>
          let servers := buildReverseProxyBackends byHost (bp_build p) in
          (Some servers, bp_set p servers <$> c)
      end
  end.

Definition getAllReverseProxyBackendsBy (ssl : bool) (c : UCache) : option (list UpstreamServer) * UCache :=
  let '(servers, c) := reverseProxyBackendsRaw ssl c in
  ((λ l, backendsOrFallback l (bp_fallbackPort (backendsByParams ssl))) <$> servers, c).

Definition getAllMemcachedServers (c : UCache) : option (list MemcacheServer) * UCache :=
  match c ≫= uc_memcached with
  | Some servers => (Some servers, c)
  | None =>
      match serverAttrsForQuery c with
      | (None, c) => (None, c)
      | (Some byHost, c) =>
          let servers := buildMemcachedServers byHost in
          (Some servers,
           (λ k, {| uc_backends := uc_backends k; uc_backendsSSL := uc_backendsSSL k; uc_memcached := Some servers;
                    uc_attrs := uc_attrs k |}) <$> c)
      end
  end.

(** The three queries of [PrefetchUpstreamData], which run concurrently. *)
Inductive prefetch := PrefetchBackends (ssl : bool) | PrefetchMemcached.

Definition prefetchOperation (p : prefetch) (c : UCache) : UCache :=
  match p with
  | PrefetchBackends ssl => (getAllReverseProxyBackendsBy ssl c).2
  | PrefetchMemcached => (getAllMemcachedServers c).2
  end.

(** Under the mutex of the cache the queries run one after the other, in some order. *)
Definition PrefetchUpstreamData (order : list prefetch) (c : UCache) : UCache :=
  foldl (λ c p, prefetchOperation p c) c order.

(** ** Upstream blocks (upstream_spec.go) *)

Definition attrListServerNames (a : string) : list string :=
  match getConfigValue E a server_global with
  | None => []
  | Some value => filter (λ name, name ≠ "") (trimmed_lines value)
  end.

Definition resolveUpstreamPortAttr (spec : upstreamSpec) : string :=
  if negb (us_fixedPort spec =? 0) || String.eqb (us_portAttrKey spec) "" then ""
  else match getConfigValue E (us_portAttrKey spec) [sourceGlobal] with
       | Some v => v
       | None => us_portAttrDefault spec
       end.

(** The loops over the index, in the order of [l].  A server that the index holds under
    its directory name, having no host name, is selected under the empty one. *)
Definition selectByAttrList (l : list (string * Attrs)) (names : list string) : ByHost :=
  foldl (λ sel kv, let host := serverHostname kv.2 in
                   if existsb (String.eqb host) names then <[host := kv.2]> sel else sel) ∅ l.

Definition selectByServices (l : list (string * Attrs)) (services : list string) : ByHost :=
  foldl (λ sel kv, if serverEnablesAnyService kv.2 services then <[serverHostname kv.2 := kv.2]> sel else sel) ∅ l.

Definition select_servers (spec : upstreamSpec) (byHost : ByHost) : ByHost :=
  if non_empty (us_attrList spec) then selectByAttrList (map_to_list byHost) (attrListServerNames (us_attrList spec))
  else selectByServices (map_to_list byHost) (us_services spec).

Definition upstreamCandidates (spec : upstreamSpec) (c : UCache) : option (list (string * Attrs)) * UCache :=
  let '(byHost, c) := getServerAttrsByHostname c in
  ((λ m, sorted_items (select_servers spec m)) <$> byHost, c).

Definition isValidUpstream (attrs : Attrs) : bool :=
  EqualFold (TrimSpace (attr_of attrs "zimbraReverseProxyLookupTarget")) "TRUE" &&
  existsb (String.eqb (ToLower (TrimSpace (attr_of attrs "zimbraMailMode")))) ["http"; "https"; "mixed"; "both"; "redirect"].

Definition serverAttrOrGlobal (attrs : Attrs) (a : string) : string :=
  let v := attr_of attrs a in
  if non_empty v then v else default "" (m ← e_Global E; m !! a).

Definition generateServerDirective (hostname : string) (attrs : Attrs) (port : Z) : string :=
  if port <=? 0 then ""
  else
    let timeout := atoiOr (serverAttrOrGlobal attrs "zimbraMailProxyReconnectTimeout") 60 in
    let maxFails := atoiOr (serverAttrOrGlobal attrs "zimbraMailProxyMaxFails") 1 in
    hostname +:+ ":" +:+ pretty port +:+ " fail_timeout=" +:+ pretty timeout +:+ "s" +:+
    (if maxFails =? 1 then "" else " max_fails=" +:+ pretty maxFails).

Definition resolveServerPort (attrs : Attrs) (fixedPort : Z) (portAttr : string) : Z :=
  if negb (fixedPort =? 0) then fixedPort
  else
    let v := atoiOr (attr_of attrs portAttr) 0 in
    if 0 <? v then v
    else match getConfigValue E portAttr [sourceGlobal] with Some gv => atoiOr gv 0 | None => 0 end.

Definition upstream_directive (spec : upstreamSpec) (c : string * Attrs) : option string :=
  if isValidUpstream c.2 then
    let port := resolveServerPort c.2 (us_fixedPort spec) (resolveUpstreamPortAttr spec) in
    let d := generateServerDirective c.1 c.2 port in
    if non_empty d then Some d else None
  else None.

Definition upstreamDirectives (spec : upstreamSpec) (candidates : list (string * Attrs)) : list string :=
  omap (upstream_directive spec) candidates.

Definition formatServersVar (directives : list string) : string :=
  foldr (λ d s, "server    " +:+ d +:+ ";" +:+ nl +:+ s) "" directives.

Definition upstreamHasServers (spec : upstreamSpec) (c : UCache) : bool * UCache :=
  let '(candidates, c) := upstreamCandidates spec c in
  (match candidates with None => false | Some l => bool_decide (upstreamDirectives spec l ≠ []) end, c).

(** The resolver [makeUpstreamResolver] returns; a failed query gives the empty text. *)
Definition upstream_servers (spec : upstreamSpec) (c : UCache) : string * UCache :=
  let '(candidates, c) := upstreamCandidates spec c in
  (match candidates with None => "" | Some l => formatServersVar (upstreamDirectives spec l) end, c).
End queries.
