(* ===== verification/ProxyResolvers.v ===== *)
(** * ProxyResolvers: the resolvers of the proxy variables

    Models resolvers.go, resolvers_web.go, resolvers_network.go,
    resolvers_capabilities.go and buildinfo.go of internal/proxy: one definition per
    resolver, [resolve] for the resolver a variable names, [LookupValue] and
    [ResolveAllVariables] (vars.go).  No resolver fails: the errors of their queries
    become defaults.  Attribute values are UTF-8 texts, on which [strings.Map] changes
    only the characters it maps. *)
From stdpp Require Import pretty.
From S2P Require Import Prelude Config Tmpl NetIP Proxy ProxyUpstream.
Open Scope Z_scope.

(** ** Text helpers *)

(** [strings.Fields(strings.ReplaceAll(s, newline, ' '))] *)
Definition multi_fields (s : string) : list string := Fields (ReplaceNewlines s).

(** [strings.FieldsFunc] *)
Fixpoint fields_func_go (sep : ascii → bool) (cur : list ascii) (s : string) : list string :=
  let flush (rest : list string) := match cur with [] => rest | _ => string_of_list_ascii (rev cur) :: rest end in
  match s with
  | EmptyString => flush []
  | String c s => if sep c then flush (fields_func_go sep [] s) else fields_func_go sep (c :: cur) s
  end.

Definition Fields_func (sep : ascii → bool) (s : string) : list string := fields_func_go sep [] s.

Definition normalizeMultiValue (s : string) : string :=
  string_map (λ c, if eqc newline c || eqc "," c then space else c) s.

Definition parseMultiValueAttribute (a : string) : list string :=
  if Contains a nl then
    match filter (λ line, line ≠ "") (trimmed_lines a) with [] => [a] | result => result end
  else [a].

Definition header_punctuation (c : ascii) : bool :=
  existsb (Ascii.eqb c) (list_ascii_of_string "!#$%&'*+-.^_`|~").

Definition validHeaderName (s : string) : bool :=
  non_empty s &&
  chars (λ c, in_range 97 122 c || in_range 65 90 c || in_range 48 57 c || header_punctuation c) s.

Definition single_quote : ascii := ascii_of_nat 39.

(** The scan of the bytes between the quotes. *)
Fixpoint quoted_inner (q : ascii) (s : string) : bool :=
  match s with
  | EmptyString => true
  | String c s =>
      if eqc backslash c then match s with EmptyString => false | String _ s => quoted_inner q s end
      else if eqc q c then false else quoted_inner q s
  end.

(** [s] without its first byte; the last byte must be the closing quote. *)
Definition validQuotedArg (s : string) (q : ascii) : bool :=
  match s with
  | String _ rest =>
      match String.rev rest with String c inner => eqc q c && quoted_inner q (String.rev inner) | EmptyString => false end
  | EmptyString => false
  end.

Definition line_break (c : ascii) : bool := eqc newline c || (byte c =? 13)%N.

Definition bare_char (c : ascii) : bool :=
  negb (eqc space c || eqc tab c || eqc double_quote c || eqc single_quote c || eqc ";" c || eqc "{" c || eqc "}" c).

Definition validHeaderValue (s : string) : bool :=
  match s with
  | EmptyString => false
  | String q _ =>
      chars (λ c, negb (line_break c)) s &&
      (if eqc double_quote q || eqc single_quote q then validQuotedArg s q else chars bare_char s)
  end.

(** [fmt.Sscanf(s, '%d')]: blanks (not a newline), a sign, digits; what follows is ignored. *)
Definition scan_d (s : string) : option Z :=
  let '(ws, s) := span IsSpace s in
  if Contains ws nl then None
  else
    let '(sign, s) := match s with String "+" s => ("+", s) | String "-" s => ("-", s) | _ => ("", s) end in
    let ds := (span is_digit s).1 in
    if String.eqb ds "" then None else Atoi (sign +:+ ds).

(** ** buildinfo.go *)
Definition build_line (vr : string * string) (line : string) : string * string :=
  match CutByte "=" line with
  | None => vr
  | Some (key, val) =>
      let key := TrimSpace key in
      if String.eqb key "VERSION" then (TrimSpace val, vr.2)
      else if String.eqb key "RELEASE" then (vr.1, TrimSpace val) else vr
  end.

Definition parseBuildInfo (text : string) : string * string :=
  foldl build_line ("unknown", "unknown") (SplitByte newline text).

(** ** The state of a generator while its variables are resolved *)
Record Gen := { g_cache : UCache; g_vars : Vars }.

Section resolvers.
Variable E : Env.

Definition buildInfo : string * string := from_option parseBuildInfo ("unknown", "unknown") (e_buildProps E).

Definition exists_file (path : string) : bool := bool_decide (is_Some (e_stat_size E path)).

(** *** resolvers.go *)
Definition resolveDHParamEnabled : Val :=
  VString (if exists_file (e_ConfDir E +:+ "/dhparam.pem") then "ssl_dhparam" else "").

Definition resolveMailWhitelistIPs : Val :=
  VString
    match getConfigValue E "zimbraReverseProxyIPThrottleWhitelist" server_global with
    | None => ""
    | Some raw => foldr (λ ip s, "mail_whitelist_ip    " +:+ ip +:+ ";" +:+ nl +:+ s) "" (multi_fields raw)
    end.

(** [resolveWebAvailable] and [resolveWebUpstreamTargetAvailable] differ in their logging. *)
Definition resolveWebAvailable (c : UCache) : Val * UCache :=
  let '(servers, c) := reverseProxyBackendsRaw E false c in
  (VBool match servers with Some (_ :: _) => true | _ => false end, c).

Definition resolveLookupAvailable : Val :=
  VBool match getConfigValue E "zimbraReverseProxyAvailableLookupTargets" [sourceGlobal] with
        | None => false
        | Some val => bool_decide (multi_fields val ≠ [])
        end.

Definition resolveWebSSLDhparamEnabled : Val :=
  VBool (exists_file (default (e_ConfDir E +:+ "/dhparam.pem") (getConfigValue E "web.ssl.dhparam.file" [sourceLocal]))).

Definition resolveSSLClientCertCAEnabled : Val :=
  VBool match e_stat_size E (clientCertCAPath E) with None => false | Some size => 0 <? size end.

(** *** resolvers_web.go *)
Definition resolveStrictServerName : string :=
  match getConfigValue E "zimbraReverseProxyStrictServerNameEnabled" server_global with
  | Some val => if IsTruthy val then "" else "#"
  | None => "#"
  end.

Definition compressionMIMETypes : string :=
  Join ["    application/atom+xml"; "    application/geo+json"; "    application/javascript"; "    application/x-javascript";
        "    application/json"; "    application/graphql-response+json"; "    application/ld+json"; "    application/manifest+json";
        "    application/rdf+xml"; "    application/rss+xml"; "    application/xhtml+xml"; "    application/xml"; "    font/eot";
        "    font/otf"; "    font/ttf"; "    font/woff2"; "    image/svg+xml"; "    text/css"; "    text/javascript";
        "    text/plain"; "    text/xml;"; ""; ""] nl.

Definition resolveProxyHTTPCompression : Val :=
  let enabled := match getConfigValue E "zimbraHttpCompressionEnabled" server_global with Some v => IsTruthy v | None => true end in
  VString
    (if enabled then
       Join [""; "gzip on;"; "gzip_disable " +:+ quoted "msie6" +:+ ";"; "gzip_vary on;"; "gzip_proxied any;";
             "gzip_comp_level 6;"; "gzip_buffers 16 8k;"; "gzip_http_version 1.1;"; "gzip_min_length 256;"; "gzip_types";
             compressionMIMETypes; "brotli on;"; "brotli_static on;"; "brotli_types"; compressionMIMETypes] nl
     else "").

Definition resolveWebSSLProtocols : Val :=
  let sep c := eqc "," c || eqc space c || eqc newline c in
  let protocols val := filter (λ p, p ≠ "") (TrimSpace <$> Fields_func sep val) in
  VStrings
    match protocols <$> getConfigValue E "zimbraReverseProxySSLProtocols" server_global with
    | Some (p :: ps) => p :: ps
    | _ => ["TLSv1.2"; "TLSv1.3"]
    end.

(** The directive of a header line; a malformed or unsafe one is skipped. *)
Definition header_directive (header : string) : option string :=
  match CutByte ":" header with
  | None => None
  | Some (name, val) =>
      let headerName := TrimSpace name in
      let headerValue := TrimSpace val in
      if validHeaderName headerName && validHeaderValue headerValue
      then Some ("add_header " +:+ headerName +:+ " " +:+ headerValue +:+ ";") else None
  end.

Definition resolveAddHeadersDefault : Val :=
  let headers :=
    from_option parseMultiValueAttribute [] (getConfigValue E "zimbraReverseProxyResponseHeaders" [sourceGlobal]) ++
    option_list (getConfigValue E "carbonioReverseProxyResponseCSPHeader" [sourceGlobal]) in
  VString (Join (omap header_directive headers) nl).

Definition resolveMemcacheServers (c : UCache) : Val * UCache :=
  let '(servers, c) := getAllMemcachedServers E c in
  (VString (from_option formatMemcacheServers "" servers), c).

Definition resolveErrorPages : Val :=
  let line errCode :=
    match getConfigValue E "zimbraReverseProxyErrorHandlerURL" [sourceGlobal] with
    | None => "error_page " +:+ errCode +:+ " /zmerror_upstream_" +:+ errCode +:+ ".html;"
    | Some errURL => "error_page " +:+ errCode +:+ " " +:+ errURL +:+ "?err=" +:+ errCode +:+ "&up=$upstream_addr;"
    end in
  VString (line "502" +:+ nl +:+ line "504").

Definition resolveSSLSessionCacheSize : Val :=
  VString ("shared:SSL:" +:+ default "10m" (getConfigValue E "zimbraReverseProxySSLSessionCacheSize" server_global)).

Definition resolveUpstreamFairShmSize : Val :=
  let sizeStr := default "32" (getConfigValue E "zimbraReverseProxyUpstreamFairShmSize" server_global) in
  let size := match scan_d sizeStr with Some size => if size <? 32 then 32 else size | None => 32 end in
  VString ("upstream_fair_shm_size " +:+ pretty size +:+ "k;").

Definition resolveMailModeEnabled (disabledWhenMode : string) : Val :=
  VBool match getConfigValue E "zimbraReverseProxyMailMode" server_global with
        | Some mailMode => negb (EqualFold mailMode disabledWhenMode)
        | None => true
        end.

Definition disableForUpstream (spec : upstreamSpec) (c : UCache) : Val * UCache :=
  let '(has, c) := upstreamHasServers E spec c in (VString (if (has : bool) then "" else "#"), c).

(** *** resolvers_network.go *)
Definition queryDomains : option (list DomainInfo) :=
  if negb (e_ldap E) then None
  else if negb (perVirtualHostnameEnabled E) then Some []
  else e_domains E.

(** The set of the addresses, as a list without duplicates. *)
Definition collectVirtualIPAddresses : list string :=
  match queryDomains with
  | None => []
  | Some domains =>
      remove_dups
        (omap (λ d, let a := d_VirtualIPAddress d in if non_empty a && validIPLiteral a then Some a else None) domains)
  end.

Definition formatListenDirectives (addressSet : list string) (prefix httpsPort : string) : string :=
  Join ((λ addr, prefix +:+ "    listen                  " +:+ addr +:+ ":" +:+ httpsPort +:+ " default_server;") <$>
        sort_by_key (λ s, s) addressSet) nl.

(** The port variable is looked up first and keeps what is found; it is registered
    without a resolver (vars_web.go). *)
Definition refresh_port (vars : Vars) : Vars :=
  match vars !! "web.https.port" with
  | Some (Some v) =>
      match lookup_configured E v with
      | Some val => <["web.https.port" := Some (set_value val v)]> vars
      | None => vars
      end
  | _ => vars
  end.

Definition resolveListenAddresses (vars : Vars) : Val * Vars :=
  let prefix := resolveStrictServerName in
  match collectVirtualIPAddresses with
  | [] => (VString prefix, vars)
  | addressSet =>
      let vars := refresh_port vars in
      let httpsPort := default "443" (ExpandVariable vars "web.https.port") in
      (VString (formatListenDirectives addressSet prefix httpsPort), vars)
  end.

Definition resolveLookupTargetAvailable : Val :=
  VBool (bool_decide (is_Some (getConfigValue E "zimbraReverseProxyLookupTarget" [sourceGlobal]))).

Definition resolveSaslHostFromIP : Val := VString (default "off" (getConfigValue E "zimbraReverseProxySaslHostFromIP" [sourceGlobal])).

(** The resolver [makeTimeoutResolver] returns; the sum is one of machine integers. *)
Definition resolveTimeout (configKey : string) (defaultBase offset : Z) : Val :=
  VInt (wrap64 (default defaultBase (getConfigValue E configKey [sourceLocal] ≫= Atoi) + offset)).

(** The resolver [makeUpstreamTargetResolver] returns. *)
Definition resolveUpstreamTarget (sslName nonSSLName : string) : Val :=
  let sslToUpstream :=
    match getConfigValue E "zimbraReverseProxySSLToUpstreamEnabled" [sourceServer] with Some v => IsTruthy v | None => true end in
  VString (if sslToUpstream then "https://" +:+ sslName else "http://" +:+ nonSSLName).

(** *** resolvers_capabilities.go *)
Definition resolveHostToIP (host : string) : string := from_option IP_String host (e_lookup_ip E host).

Definition resolveLookupHandlers : Val :=
  let extensionPort := default "7072" (getConfigValue E "zimbraExtensionBindPort" [sourceGlobal]) in
  let rawHosts := default "" (getConfigValue E "zimbraReverseProxyAvailableLookupTargets" [sourceGlobal]) in
  let hosts :=
    match Fields (normalizeMultiValue rawHosts) with
    | [] => [default "127.0.0.1" (getConfigValue E "zimbra_server_hostname" [sourceLocal])]
    | hosts => hosts
    end in
  VString
    (Join ((λ host, "https://" +:+ resolveHostToIP host +:+ ":" +:+ extensionPort +:+ "/service/extension/nginx-lookup") <$> hosts) " ").

Definition default_imap_capabilities : list string :=
  ["IMAP4rev1"; "ID"; "LITERAL+"; "SASL-IR"; "IDLE"; "NAMESPACE"; "ACL"; "BINARY"; "CATENATE"; "CHILDREN"; "CONDSTORE";
   "ENABLE"; "ESEARCH"; "ESORT"; "I18NLEVEL=1"; "LIST-EXTENDED"; "LIST-STATUS"; "MULTIAPPEND"; "QRESYNC"; "QUOTA";
   "RIGHTS=ektx"; "SEARCHRES"; "SORT"; "THREAD=ORDEREDSUBJECT"; "UIDPLUS"; "UNSELECT"; "WITHIN"; "XLIST"].

Definition resolveIMAPCapabilities : Val :=
  VStrings
    match (Fields ∘ normalizeMultiValue) <$> getConfigValue E "zimbraReverseProxyImapEnabledCapability" server_global with
    | Some (c :: caps) => c :: caps
    | _ => default_imap_capabilities
    end.

Definition defaultPOP3Capabilities : list string := ["EXPIRE 31 USER"; "TOP"; "UIDL"; "USER"; "XOIP"].

Definition resolvePOP3Capabilities : Val :=
  VStrings
    match (λ val, filter (λ line, line ≠ "") (trimmed_lines val)) <$>
          getConfigValue E "zimbraReverseProxyPop3EnabledCapability" server_global with
    | Some (c :: caps) => c :: caps
    | _ => defaultPOP3Capabilities
    end.

Definition resolveIMAPId : Val :=
  let '(version, release) := buildInfo in
  VString (quoted "NAME" +:+ " " +:+ quoted "Zimbra" +:+ " " +:+ quoted "VERSION" +:+ " " +:+ quoted version +:+ " " +:+
           quoted "RELEASE" +:+ " " +:+ quoted release).

(** [resolveGreeting]: the banner around the version. *)
Definition resolveGreeting (attribute before after : string) : Val :=
  let exposeVersion := match getConfigValue E attribute server_global with Some v => IsTruthy v | None => false end in
  VString (if exposeVersion then before +:+ buildInfo.1 +:+ after else "").

(** *** The resolver of a variable *)
Definition on_cache (f : UCache → Val * UCache) (g : Gen) : Val * Gen :=
  let '(v, c) := f (g_cache g) in (v, {| g_cache := c; g_vars := g_vars g |}).

Definition resolve (r : ResolverId) (g : Gen) : Val * Gen :=
  match r with
  | IPMode mode => (VBool (String.eqb (getIPMode E) mode), g)
  | DHParamEnabled => (resolveDHParamEnabled, g)
  | SSLSessionCacheSize => (resolveSSLSessionCacheSize, g)
  | SSLClientCertCAEnabled => (resolveSSLClientCertCAEnabled, g)
  | Timeout configKey defaultBase offset => (resolveTimeout configKey defaultBase offset, g)
  | MailWhitelistIPs => (resolveMailWhitelistIPs, g)
  | WebSSLProtocols => (resolveWebSSLProtocols, g)
  | MemcacheServers => on_cache resolveMemcacheServers g
  | ListenAddresses =>
      let '(v, vars) := resolveListenAddresses (g_vars g) in (v, {| g_cache := g_cache g; g_vars := vars |})
  | WebSSLDhparamEnabled => (resolveWebSSLDhparamEnabled, g)
  | StrictServerName => (VString resolveStrictServerName, g)
  | ProxyHTTPCompression => (resolveProxyHTTPCompression, g)
  | UpstreamDisable spec => on_cache (disableForUpstream spec) g
  | UpstreamServers spec => on_cache (λ c, let '(s, c) := upstream_servers E spec c in (VString s, c)) g
  | UpstreamTarget sslName plainName => (resolveUpstreamTarget sslName plainName, g)
  | LoginURL configKey => (VString (default "/static/login/" (getConfigValue E configKey [sourceGlobal])), g)
  | LogoutRedirect configKey =>
      (VString match getConfigValue E configKey [sourceGlobal] with
               | Some _ => "return 200"
               | None => "return 303 /static/login/"
               end, g)
  | AddHeadersDefault => (resolveAddHeadersDefault, g)
  | ErrorPages => (resolveErrorPages, g)
  | MailModeEnabled disabledWhenMode => (resolveMailModeEnabled disabledWhenMode, g)
  | WebAvailable | WebUpstreamTargetAvailable => on_cache resolveWebAvailable g
  | UpstreamFairShmSize => (resolveUpstreamFairShmSize, g)
  | Greeting attribute before after => (resolveGreeting attribute before after, g)
  | SaslHostFromIP => (resolveSaslHostFromIP, g)
  | IMAPCapabilities => (resolveIMAPCapabilities, g)
  | POP3Capabilities => (resolvePOP3Capabilities, g)
  | IMAPId => (resolveIMAPId, g)
  | LookupTargetAvailable => (resolveLookupTargetAvailable, g)
  | LookupAvailable => (resolveLookupAvailable, g)
  | LookupHandlers => (resolveLookupHandlers, g)
  end.

(** ** vars.go *)

(** [None] is the error of a conversion. *)
Definition LookupValue (v : Variable_) (g : Gen) : option Val * Gen :=
  match v_CustomResolver v with
  | Some r => let '(val, g) := resolve r g in (Some val, g)
  | None => (lookup_configured E v, g)
  end.

(** The loop of [ResolveAllVariables] over the keys of the map, in the order Go
    happens to take; [false] is the error of the first variable that fails. *)
Fixpoint ResolveAllVariables (keys : list string) (g : Gen) : bool * Gen :=
  match keys with
  | [] => (true, g)
  | k :: keys =>
      match g_vars g !! k with
      | Some (Some v) =>
          match LookupValue v g with
          | (None, g) => (false, g)
          | (Some val, g) =>
              ResolveAllVariables keys
                {| g_cache := g_cache g; g_vars := alter (λ v, set_value val <$> v) k (g_vars g) |}
          end
      | _ => ResolveAllVariables keys g
      end
  end.
End resolvers.
