(* ===== verification/ProxyRegister.v ===== *)
(** * ProxyRegister: the variables the generator declares

    Models internal/proxy/vars.go (registration), vars_*.go and registry.go.  Each
    [register*] definition makes the calls of the Go function of that name, in order;
    the descriptions are left out, as they only appear in documentation. *)
From stdpp Require Import pretty.
From S2P Require Import Prelude Config Tmpl TmplFormat NetIP Proxy ProxyUpstream ProxyResolvers.
Open Scope Z_scope.

(** ** Options of a registration (vars.go) *)
Inductive varOpt :=
  | withAttribute (attr : string)
  | withValueType (vt : ValueType)
  | withOverrideType (ot : OverrideType)
  | withCustomFormatter (fn : FormatterId)
  | withCustomResolver (fn : ResolverId).

Definition apply_opt (v : Variable_) (o : varOpt) : Variable_ :=
  {| v_Attribute := match o with withAttribute a => a | _ => v_Attribute v end;
     v_ValueType := match o with withValueType vt => vt | _ => v_ValueType v end;
     v_OverrideType := match o with withOverrideType ot => ot | _ => v_OverrideType v end;
     v_DefaultValue := v_DefaultValue v;
     v_Value := v_Value v;
     v_CustomFormatter := match o with withCustomFormatter f => Some f | _ => v_CustomFormatter v end;
     v_CustomResolver := match o with withCustomResolver r => Some r | _ => v_CustomResolver v end;
     v_ConfigText := v_ConfigText v |}.

(** The zero values of the types are the integer and the override by nothing. *)
Definition new_var (defaultValue : Val) : Variable_ :=
  {| v_Attribute := ""; v_ValueType := ValueTypeInteger; v_OverrideType := OverrideNone; v_DefaultValue := defaultValue;
     v_Value := defaultValue; v_CustomFormatter := None; v_CustomResolver := None; v_ConfigText := None |}.

Definition registerVar (keyword : string) (defaultValue : Val) (opts : list varOpt) (vars : Vars) : Vars :=
  <[keyword := Some (foldl apply_opt (new_var defaultValue) opts)]> vars.

Definition run_all (calls : list (Vars → Vars)) (vars : Vars) : Vars := foldl (λ m f, f m) vars calls.

(** ** Shared registrations *)
Definition registerStringVar (key defaultVal : string) : Vars → Vars :=
  registerVar key (VString defaultVal) [withValueType ValueTypeString].

Definition registerUpstreamServersVar (key : string) (spec : upstreamSpec) : Vars → Vars :=
  registerVar key (VString "")
    [withValueType ValueTypeCustom; withOverrideType OverrideCustom; withCustomResolver (UpstreamServers spec)].

Definition registerUpstreamDisableVar (key attr : string) (resolver : varOpt) : Vars → Vars :=
  registerVar key (VString "#")
    [withAttribute attr; withValueType ValueTypeCustom; withOverrideType OverrideConfig; resolver].

Definition registerUpstreamTargetVar (key defaultVal sslName plainName : string) : Vars → Vars :=
  registerVar key (VString defaultVal)
    [withAttribute "zimbraReverseProxySSLToUpstreamEnabled"; withValueType ValueTypeCustom;
     withOverrideType OverrideServer; withCustomResolver (UpstreamTarget sslName plainName)].

Definition registerLoginURLVar (key attr : string) : Vars → Vars :=
  registerVar key (VString "/static/login/")
    [withAttribute attr; withValueType ValueTypeCustom; withOverrideType OverrideCustom; withCustomResolver (LoginURL attr)].

Definition registerLogoutRedirectVar (key attr : string) : Vars → Vars :=
  registerVar key (VString "")
    [withAttribute attr; withValueType ValueTypeCustom; withOverrideType OverrideCustom; withCustomResolver (LogoutRedirect attr)].

Definition registerThrottleLimitVar (key attr : string) : Vars → Vars :=
  registerVar key (VInt 0) [withAttribute attr; withValueType ValueTypeInteger; withOverrideType OverrideConfig].

Definition registerThrottleTTLVar (key attr : string) : Vars → Vars :=
  registerVar key (VInt 3600000) [withAttribute attr; withValueType ValueTypeTime; withOverrideType OverrideConfig].

Definition registerSASLConfigVar (key attr : string) (defaultVal : bool) : Vars → Vars :=
  registerVar key (VBool defaultVal) [withAttribute attr; withValueType ValueTypeBoolean; withOverrideType OverrideConfig].

Definition registerAuthEnablerVar (key attr : string) (defaultVal : bool) : Vars → Vars :=
  registerVar key (VBool defaultVal) [withAttribute attr; withValueType ValueTypeEnabler; withOverrideType OverrideServer].

(** *** Upstream specifications (upstream_spec.go, resolvers_web.go) *)
Definition mkSpec (services : list string) (attrList portAttrKey portAttrDefault : string) (fixedPort : Z) : upstreamSpec :=
  {| us_services := services; us_attrList := attrList; us_portAttrKey := portAttrKey; us_portAttrDefault := portAttrDefault;
     us_fixedPort := fixedPort |}.

Definition mailClientSvcs : list string := ["mailbox"; "service"].
Definition webClientSvcs : list string := ["mailbox"; "zimbra"].
Definition adminClientSvcs : list string := ["mailbox"; "zimbraAdmin"].

Definition ewsUpstreamSpec : upstreamSpec :=
  mkSpec [] "zimbraReverseProxyUpstreamEwsServers" "zimbraReverseProxyHttpPortAttribute" "zimbraMailPort" 0.
Definition loginUpstreamSpec : upstreamSpec :=
  mkSpec [] "zimbraReverseProxyUpstreamLoginServers" "zimbraReverseProxyHttpPortAttribute" "zimbraMailPort" 0.

Definition resolveLoginUpstreamDisable : ResolverId := UpstreamDisable loginUpstreamSpec.
Definition resolveEwsUpstreamDisable : ResolverId := UpstreamDisable ewsUpstreamSpec.
Definition resolveZxUpstreamDisable : ResolverId := UpstreamDisable (mkSpec ["mailbox"; "service"] "" "" "" 8742).
Definition resolveWebclientUpstreamDisable : ResolverId :=
  UpstreamDisable (mkSpec ["mailbox"; "zimbra"] "" "zimbraReverseProxyHttpPortAttribute" "zimbraMailPort" 0).
Definition resolveAdminUpstreamDisable : ResolverId :=
  UpstreamDisable (mkSpec ["mailbox"; "service"] "" "zimbraReverseProxyAdminPortAttribute" "zimbraAdminPort" 0).

Definition resolveHTTPEnabled : ResolverId := MailModeEnabled "https".
Definition resolveHTTPSEnabled : ResolverId := MailModeEnabled "http".

Definition resolveIMAPGreeting : ResolverId :=
  Greeting "zimbraReverseProxyImapExposeVersionOnBanner" "* OK Zimbra " " IMAP4 ready".
Definition resolvePOP3Greeting : ResolverId :=
  Greeting "zimbraReverseProxyPop3ExposeVersionOnBanner" "+OK Zimbra " " POP3 ready".

Definition webSSLCiphersDefault : string :=
  Join ["ECDHE-ECDSA-AES128-GCM-SHA256"; "ECDHE-RSA-AES128-GCM-SHA256"; "ECDHE-ECDSA-AES256-GCM-SHA384";
        "ECDHE-RSA-AES256-GCM-SHA384"; "ECDHE-ECDSA-CHACHA20-POLY1305"; "ECDHE-RSA-CHACHA20-POLY1305";
        "DHE-RSA-AES128-GCM-SHA256"; "DHE-RSA-AES256-GCM-SHA384"] ":".

(** ** The declared variables (vars_*.go) *)
Section register.
Variable E : Env.

(** *** vars_core.go *)
Definition registerCoreVariables : Vars → Vars :=
  run_all [
    registerVar "core.workdir" (VString (e_WorkingDir E)) [];
    registerVar "core.includes" (VString (e_IncludesDir E)) [];
    registerVar "core.cprefix" (VString (confPrefix E)) [withValueType ValueTypeString];
    registerVar "core.tprefix" (VString (templatePrefix E)) [withValueType ValueTypeString];
    registerVar "core.ipv4only.enabled" (VString "")
      [withValueType ValueTypeEnabler; withOverrideType OverrideCustom; withCustomResolver (IPMode "ipv4")];
    registerVar "core.ipv6only.enabled" (VString "")
      [withValueType ValueTypeEnabler; withOverrideType OverrideCustom; withCustomResolver (IPMode "ipv6")];
    registerVar "core.ipboth.enabled" (VString "")
      [withValueType ValueTypeEnabler; withOverrideType OverrideCustom; withCustomResolver (IPMode "both")];
    registerVar "main.workers" (VInt 4)
      [withAttribute "zimbraReverseProxyWorkerProcesses"; withValueType ValueTypeInteger; withOverrideType OverrideServer];
    registerVar "main.connections" (VInt 10240)
      [withAttribute "zimbraReverseProxyWorkerConnections"; withValueType ValueTypeInteger; withOverrideType OverrideServer];
    registerVar "main.accept_mutex" (VString "on")
      [withAttribute "zimbraReverseProxyAcceptMutex"; withOverrideType OverrideServer; withValueType ValueTypeString];
    registerVar "main.logfile" (VString ("/opt/zextras" +:+ "/log/nginx.log")) [withValueType ValueTypeString];
    registerVar "main.krb5keytab" (VString ("/opt/zextras" +:+ "/conf/krb5.keytab"))
      [withAttribute "zimbraReverseProxyKrb5Keytab"; withOverrideType OverrideConfig; withValueType ValueTypeString];
    registerVar "main.loglevel" (VString "info")
      [withAttribute "zimbraReverseProxyLogLevel"; withOverrideType OverrideServer; withValueType ValueTypeString]].

(** *** vars_ssl.go *)
Definition registerSSLVariables : Vars → Vars :=
  run_all [
    registerVar "ssl.crt.default" (VString (e_ConfDir E +:+ "/nginx.crt")) [withValueType ValueTypeString];
    registerVar "ssl.key.default" (VString (e_ConfDir E +:+ "/nginx.key")) [withValueType ValueTypeString];
    registerVar "ssl.clientcertca.default" (VString (clientCertCAPath E))
      [withAttribute "zimbraReverseProxyClientCertCA"; withOverrideType OverrideCustom];
    registerVar "ssl.dhparam.enabled" (VString "")
      [withValueType ValueTypeEnabler; withOverrideType OverrideCustom; withCustomResolver DHParamEnabled];
    registerVar "ssl.dhparam.file" (VString (e_ConfDir E +:+ "/dhparam.pem")) [withValueType ValueTypeString];
    registerVar "ssl.ciphers" (VString "ECDHE-RSA-AES128-GCM-SHA256:ECDHE-ECDSA-AES128-GCM-SHA256")
      [withAttribute "zimbraReverseProxySSLCiphers"; withOverrideType OverrideConfig; withValueType ValueTypeString];
    registerVar "ssl.protocols" (VString "TLSv1.2 TLSv1.3")
      [withAttribute "zimbraReverseProxySSLProtocols"; withOverrideType OverrideConfig; withValueType ValueTypeString];
    registerVar "ssl.ecdh.curve" (VString "auto")
      [withAttribute "zimbraReverseProxySSLECDHCurve"; withOverrideType OverrideConfig; withValueType ValueTypeString];
    registerVar "ssl.session.timeout" (VInt 600000)
      [withAttribute "zimbraReverseProxySSLSessionTimeout"; withValueType ValueTypeTimeInSec; withOverrideType OverrideServer];
    registerVar "ssl.session.cachesize" (VString "10m")
      [withAttribute "zimbraReverseProxySSLSessionCacheSize"; withOverrideType OverrideCustom; withCustomResolver SSLSessionCacheSize];
    registerVar "web.ssl.ciphers" (VString webSSLCiphersDefault)
      [withAttribute "zimbraReverseProxySSLCiphers"; withOverrideType OverrideConfig; withValueType ValueTypeString];
    registerVar "web.ssl.preferserverciphers" (VString "on") [withValueType ValueTypeBoolean; withOverrideType OverrideConfig];
    registerVar "web.ssl.ecdh.curve" (VString "auto")
      [withAttribute "zimbraReverseProxySSLECDHCurve"; withOverrideType OverrideConfig; withValueType ValueTypeString];
    registerVar "web.ssl.dhparam.file" (VString (e_ConfDir E +:+ "/dhparam.pem")) [];
    registerVar "ssl.clientcertmode" (VString "off")
      [withAttribute "zimbraReverseProxyClientCertMode"; withOverrideType OverrideConfig; withValueType ValueTypeString];
    registerVar "ssl.clientcertmode.default" (VString "off")
      [withAttribute "zimbraReverseProxyClientCertMode"; withOverrideType OverrideServer; withValueType ValueTypeString];
    registerVar "ssl.verify.depth" (VInt 10)
      [withAttribute "zimbraReverseProxySSLVerifyDepth"; withValueType ValueTypeInteger; withOverrideType OverrideConfig];
    registerVar "ssl.clientcertdepth.default" (VInt 10)
      [withAttribute "zimbraReverseProxyClientCertDepth"; withValueType ValueTypeInteger; withOverrideType OverrideNone];
    registerVar "ssl.clientcertca.enabled" (VBool false)
      [withValueType ValueTypeEnabler; withOverrideType OverrideCustom; withCustomResolver SSLClientCertCAEnabled]].

(** *** vars_web.go *)
Definition registerWebPortVariables : Vars → Vars :=
  run_all [
    registerVar "web.http.port" (VInt 0)
      [withAttribute "zimbraMailProxyPort"; withValueType ValueTypeInteger; withOverrideType OverrideServer];
    registerVar "web.https.port" (VInt 0)
      [withAttribute "zimbraMailSSLProxyPort"; withValueType ValueTypeInteger; withOverrideType OverrideServer];
    registerVar "web.http.uport" (VInt 8080)
      [withAttribute "zimbraMailPort"; withValueType ValueTypeInteger; withOverrideType OverrideServer];
    registerVar "listen.:addresses" (VString "${web.strict.servername}")
      [withValueType ValueTypeCustom; withOverrideType OverrideCustom; withCustomResolver ListenAddresses];
    registerVar "web.admin.port" (VInt 9071)
      [withAttribute "zimbraAdminProxyPort"; withValueType ValueTypeInteger; withOverrideType OverrideServer];
    registerVar "web.admin.uiport" (VInt 7071)
      [withAttribute "zimbraAdminPort"; withValueType ValueTypeInteger; withOverrideType OverrideConfig];
    registerVar "web.admin.uport" (VInt 7071)
      [withAttribute "zimbraAdminPort"; withValueType ValueTypeInteger; withOverrideType OverrideServer];
    registerVar "web.carbonio.admin.port" (VInt 6071)
      [withAttribute "carbonioAdminProxyPort"; withValueType ValueTypeInteger; withOverrideType OverrideServer]].

Definition registerWebUpstreamNameVariables : Vars → Vars :=
  run_all [
    registerVar "web.mailmode" (VString "https")
      [withAttribute "zimbraReverseProxyMailMode"; withOverrideType OverrideServer; withValueType ValueTypeString];
    registerStringVar "web.upstream.name" "zimbra";
    registerStringVar "web.upstream.webclient.name" "zimbra_webclient";
    registerStringVar "web.upstream.zx.name" "zx";
    registerStringVar "web.ssl.upstream.name" "zimbra_ssl";
    registerStringVar "web.ssl.upstream.webclient.name" "zimbra_ssl_webclient";
    registerStringVar "web.ssl.upstream.zx.name" "zx_ssl";
    registerStringVar "web.ews.upstream.name" "zimbra_ews";
    registerStringVar "web.ssl.ews.upstream.name" "zimbra_ews_ssl";
    registerStringVar "web.login.upstream.name" "zimbra_login";
    registerStringVar "web.ssl.login.upstream.name" "zimbra_login_ssl";
    registerStringVar "web.admin.upstream.name" "zimbra_admin";
    registerStringVar "web.admin.upstream.adminclient.name" "zimbra_adminclient";
    registerVar "web.server_name.default" (VString "")
      [withAttribute "zimbraServiceHostname"; withValueType ValueTypeString; withOverrideType OverrideServer]].

Definition registerWebSSLVariables : Vars → Vars :=
  run_all [
    registerVar "web.upstream.exactversioncheck" (VString "on")
      [withAttribute "zimbraReverseProxyExactServerVersionCheck"; withOverrideType OverrideServer; withValueType ValueTypeString];
    registerVar "web.server_names.max_size" (VInt 512) [withValueType ValueTypeInteger];
    registerVar "web.server_names.bucket_size" (VInt 64) [withValueType ValueTypeInteger];
    registerVar "web.ssl.protocols" (VString "TLSv1.2 TLSv1.3")
      [withAttribute "zimbraReverseProxySSLProtocols"; withValueType ValueTypeCustom; withOverrideType OverrideServer; withCustomResolver WebSSLProtocols; withCustomFormatter SpacedList];
    registerVar "web.server.version.check" (VBool true)
      [withAttribute "zimbraReverseProxyExactServerVersionCheck"; withValueType ValueTypeBoolean; withOverrideType OverrideConfig];
    registerVar "web.ssl.dhparam.enabled" (VBool false)
      [withValueType ValueTypeEnabler; withOverrideType OverrideCustom; withCustomResolver WebSSLDhparamEnabled];
    registerVar "web.strict.servername" (VString "#")
      [withAttribute "zimbraReverseProxyStrictServerNameEnabled"; withValueType ValueTypeCustom; withOverrideType OverrideConfig; withCustomResolver StrictServerName];
    registerVar "proxy.http.compression" (VString "")
      [withAttribute "zimbraHttpCompressionEnabled"; withValueType ValueTypeCustom; withOverrideType OverrideServer; withCustomResolver ProxyHTTPCompression]].

Definition registerWebAuthVariables : Vars → Vars :=
  run_all [
    registerVar "web.login.upstream.url" (VString "/")
      [withAttribute "zimbraMailURL"; withValueType ValueTypeString; withOverrideType OverrideServer];
    registerUpstreamDisableVar "web.login.upstream.disable" "zimbraReverseProxyUpstreamLoginServers" (withCustomResolver resolveLoginUpstreamDisable);
    registerUpstreamDisableVar "web.ews.upstream.disable" "zimbraReverseProxyUpstreamEwsServers" (withCustomResolver resolveEwsUpstreamDisable);
    registerUpstreamDisableVar "web.zx.upstream.disable" "zimbraReverseProxyUpstreamZxServers" (withCustomResolver resolveZxUpstreamDisable);
    registerUpstreamDisableVar "web.webclient.upstream.disable" "zimbraReverseProxyUpstreamClientServers" (withCustomResolver resolveWebclientUpstreamDisable);
    registerUpstreamDisableVar "web.admin.upstream.disable" "zimbraReverseProxyUpstreamAdminServers" (withCustomResolver resolveAdminUpstreamDisable);
    registerUpstreamServersVar "web.upstream.:servers" (mkSpec mailClientSvcs "" "zimbraReverseProxyHttpPortAttribute" "zimbraMailPort" 0);
    registerUpstreamServersVar "web.upstream.webclient.:servers" (mkSpec webClientSvcs "" "zimbraReverseProxyHttpPortAttribute" "zimbraMailPort" 0);
    registerUpstreamServersVar "web.upstream.zx.:servers" (mkSpec mailClientSvcs "" "" "" 8742);
    registerUpstreamServersVar "web.upstream.ewsserver.:servers" (mkSpec [] "zimbraReverseProxyUpstreamEwsServers" "zimbraReverseProxyHttpPortAttribute" "zimbraMailPort" 0);
    registerUpstreamServersVar "web.upstream.loginserver.:servers" (mkSpec [] "zimbraReverseProxyUpstreamLoginServers" "zimbraReverseProxyHttpPortAttribute" "zimbraMailPort" 0);
    registerUpstreamServersVar "web.ssl.upstream.:servers" (mkSpec mailClientSvcs "" "zimbraReverseProxyHttpSSLPortAttribute" "zimbraMailSSLPort" 0);
    registerUpstreamServersVar "web.ssl.upstream.webclient.:servers" (mkSpec webClientSvcs "" "zimbraReverseProxyHttpSSLPortAttribute" "zimbraMailSSLPort" 0);
    registerUpstreamServersVar "web.ssl.upstream.zx.:servers" (mkSpec mailClientSvcs "" "" "" 8743);
    registerUpstreamServersVar "web.ssl.upstream.ewsserver.:servers" (mkSpec [] "zimbraReverseProxyUpstreamEwsServers" "zimbraReverseProxyHttpSSLPortAttribute" "zimbraMailSSLPort" 0);
    registerUpstreamServersVar "web.ssl.upstream.loginserver.:servers" (mkSpec [] "zimbraReverseProxyUpstreamLoginServers" "zimbraReverseProxyHttpSSLPortAttribute" "zimbraMailSSLPort" 0);
    registerUpstreamServersVar "web.admin.upstream.:servers" (mkSpec mailClientSvcs "" "zimbraReverseProxyAdminPortAttribute" "zimbraAdminPort" 0);
    registerUpstreamServersVar "web.admin.upstream.adminclient.:servers" (mkSpec adminClientSvcs "" "zimbraReverseProxyAdminPortAttribute" "zimbraAdminPort" 0);
    registerUpstreamServersVar "web.admin.ssl.upstream.:servers" (mkSpec mailClientSvcs "" "zimbraReverseProxyAdminPortAttribute" "zimbraAdminPort" 0);
    registerUpstreamServersVar "web.admin.ssl.upstream.adminclient.:servers" (mkSpec adminClientSvcs "" "zimbraReverseProxyAdminPortAttribute" "zimbraAdminPort" 0);
    registerUpstreamTargetVar "web.upstream.target" "http://zimbra" "zimbra_ssl" "zimbra";
    registerUpstreamTargetVar "web.upstream.zx" "http://zx" "zx_ssl" "zx";
    registerUpstreamTargetVar "web.upstream.ews.target" "http://zimbra_ews" "zimbra_ews_ssl" "zimbra_ews";
    registerUpstreamTargetVar "web.upstream.login.target" "http://zimbra_login" "zimbra_login_ssl" "zimbra_login";
    registerUpstreamTargetVar "web.upstream.webclient.target" "http://zimbra_webclient" "zimbra_ssl_webclient" "zimbra_webclient";
    registerLoginURLVar "web.carbonio.webui.login.url.default" "carbonioWebUILoginURL";
    registerLoginURLVar "web.carbonio.webui.login.url.vhost" "carbonioWebUILoginURL";
    registerLogoutRedirectVar "web.carbonio.webui.logout.redirect.default" "carbonioWebUILogoutURL";
    registerLogoutRedirectVar "web.carbonio.webui.logout.redirect.vhost" "carbonioWebUILogoutURL";
    registerLoginURLVar "web.carbonio.admin.login.url.default" "carbonioAdminUILoginURL";
    registerLoginURLVar "web.carbonio.admin.login.url.vhost" "carbonioAdminUILoginURL";
    registerLogoutRedirectVar "web.carbonio.admin.logout.redirect.default" "carbonioAdminUILogoutURL";
    registerLogoutRedirectVar "web.carbonio.admin.logout.redirect.vhost" "carbonioAdminUILogoutURL"].

Definition registerWebHeaderVariables : Vars → Vars :=
  run_all [
    registerVar "web.response.headers" (VString "")
      [withAttribute "zimbraReverseProxyResponseHeaders"; withValueType ValueTypeString; withOverrideType OverrideConfig];
    registerVar "web.add.headers.default" (VString "")
      [withValueType ValueTypeCustom; withOverrideType OverrideCustom; withCustomResolver AddHeadersDefault];
    registerVar "web.add.headers.vhost" (VString "")
      [withValueType ValueTypeCustom; withOverrideType OverrideCustom; withCustomResolver AddHeadersDefault];
    registerVar "web.errpages" (VString "")
      [withAttribute "zimbraReverseProxyErrorHandlerURL"; withValueType ValueTypeCustom; withOverrideType OverrideCustom; withCustomResolver ErrorPages];
    registerVar "web.error.pages.enabled" (VBool false)
      [withAttribute "zimbraReverseProxyErrorPagesEnabled"; withValueType ValueTypeBoolean; withOverrideType OverrideConfig]].

Definition registerWebMiscVariables : Vars → Vars :=
  run_all [
    registerVar "web.enabled" (VBool false)
      [withAttribute "zimbraReverseProxyHttpEnabled"; withValueType ValueTypeEnabler; withOverrideType OverrideServer];
    registerVar "web.http.enabled" (VBool true) [withValueType ValueTypeEnabler; withCustomResolver resolveHTTPEnabled];
    registerVar "web.https.enabled" (VBool true) [withValueType ValueTypeEnabler; withCustomResolver resolveHTTPSEnabled];
    registerVar "web.admin.default.enabled" (VBool false)
      [withAttribute "zimbraReverseProxyAdminEnabled"; withValueType ValueTypeEnabler; withOverrideType OverrideServer];
    registerVar "web.available" (VBool false)
      [withValueType ValueTypeEnabler; withOverrideType OverrideCustom; withCustomResolver WebAvailable];
    registerVar "web.upstream.target.available" (VBool true)
      [withValueType ValueTypeBoolean; withOverrideType OverrideCustom; withCustomResolver WebUpstreamTargetAvailable];
    registerVar "web.upload.max" (VInt 10485760)
      [withAttribute "zimbraFileUploadMaxSize"; withValueType ValueTypeLong; withOverrideType OverrideConfig];
    registerVar "web.logfile" (VString "/opt/zextras/log/nginx.access.log") [withValueType ValueTypeString];
    registerVar "web.upstream.buffers.num" (VInt 8)
      [withAttribute "zimbraReverseProxyUpstreamBuffersNumber"; withValueType ValueTypeInteger; withOverrideType OverrideConfig];
    registerVar "web.upstream.buffers.size" (VString "4k")
      [withAttribute "zimbraReverseProxyUpstreamBuffersSize"; withOverrideType OverrideConfig; withValueType ValueTypeString];
    registerVar "upstream.fair.shm.size" (VString "32")
      [withAttribute "zimbraReverseProxyUpstreamFairShmSize"; withOverrideType OverrideCustom; withCustomResolver UpstreamFairShmSize]].

Definition registerWebVariables (vars : Vars) : Vars :=
  registerWebMiscVariables (registerWebHeaderVariables (registerWebAuthVariables (registerWebSSLVariables
    (registerWebUpstreamNameVariables (registerWebPortVariables vars))))).

(** *** vars_mail.go *)
Definition registerMailVariables : Vars → Vars :=
  run_all [
    registerVar "mail.enabled" (VBool false)
      [withAttribute "zimbraReverseProxyMailEnabled"; withValueType ValueTypeEnabler; withOverrideType OverrideConfig];
    registerVar "mail.imap.port" (VInt 143)
      [withAttribute "zimbraImapProxyBindPort"; withValueType ValueTypeInteger; withOverrideType OverrideServer];
    registerVar "mail.imaps.port" (VInt 993)
      [withAttribute "zimbraImapSSLProxyBindPort"; withValueType ValueTypeInteger; withOverrideType OverrideServer];
    registerVar "mail.pop3.port" (VInt 110)
      [withAttribute "zimbraPop3ProxyBindPort"; withValueType ValueTypeInteger; withOverrideType OverrideServer];
    registerVar "mail.pop3s.port" (VInt 995)
      [withAttribute "zimbraPop3SSLProxyBindPort"; withValueType ValueTypeInteger; withOverrideType OverrideServer];
    registerVar "mail.imap.enabled" (VBool true)
      [withAttribute "zimbraReverseProxyMailImapEnabled"; withValueType ValueTypeEnabler; withOverrideType OverrideServer];
    registerVar "mail.imaps.enabled" (VBool true)
      [withAttribute "zimbraReverseProxyMailImapsEnabled"; withValueType ValueTypeEnabler; withOverrideType OverrideServer];
    registerVar "mail.pop3.enabled" (VBool true)
      [withAttribute "zimbraReverseProxyMailPop3Enabled"; withValueType ValueTypeEnabler; withOverrideType OverrideServer];
    registerVar "mail.pop3s.enabled" (VBool true)
      [withAttribute "zimbraReverseProxyMailPop3sEnabled"; withValueType ValueTypeEnabler; withOverrideType OverrideServer];
    registerVar "mail.mode" (VString "https")
      [withAttribute "zimbraReverseProxyMailMode"; withOverrideType OverrideConfig; withValueType ValueTypeString];
    registerVar "mail.defaultrealm" (VString "")
      [withAttribute "zimbraReverseProxyDefaultRealm"; withValueType ValueTypeString; withOverrideType OverrideServer];
    registerVar "mail.passerrors" (VBool true)
      [withAttribute "zimbraReverseProxyPassErrors"; withValueType ValueTypeBoolean; withOverrideType OverrideServer];
    registerVar "mail.imap.proxytimeout" (VInt 2100)
      [withAttribute "imap_authenticated_max_idle_time"; withValueType ValueTypeCustom; withOverrideType OverrideCustom; withCustomResolver (Timeout "imap_authenticated_max_idle_time" 1800 300)];
    registerVar "mail.imap.timeout" (VInt 60)
      [withAttribute "imap_max_idle_time"; withValueType ValueTypeInteger; withOverrideType OverrideLocalConfig];
    registerVar "mail.pop3.timeout" (VInt 60)
      [withAttribute "pop3_max_idle_time"; withValueType ValueTypeInteger; withOverrideType OverrideLocalConfig];
    registerVar "mail.pop3.proxytimeout" (VInt 60)
      [withAttribute "pop3_max_idle_time"; withValueType ValueTypeInteger; withOverrideType OverrideLocalConfig];
    registerVar "mail.whitelistip.:servers" (VString "")
      [withAttribute "zimbraReverseProxyIPThrottleWhitelist"; withValueType ValueTypeCustom; withOverrideType OverrideCustom; withCustomResolver MailWhitelistIPs];
    registerVar "mail.ctimeout" (VInt 120000)
      [withAttribute "zimbraReverseProxyConnectTimeout"; withValueType ValueTypeTime; withOverrideType OverrideServer];
    registerVar "mail.usermax" (VInt 0)
      [withAttribute "zimbraReverseProxyUserLoginLimit"; withValueType ValueTypeInteger; withOverrideType OverrideConfig];
    registerVar "mail.userttl" (VInt 3600000)
      [withAttribute "zimbraReverseProxyUserLoginLimitTime"; withValueType ValueTypeTime; withOverrideType OverrideConfig];
    registerVar "mail.userrej" (VString "Login rejected for this user")
      [withAttribute "zimbraReverseProxyUserThrottleMsg"; withOverrideType OverrideConfig; withValueType ValueTypeString];
    registerVar "mail.whitelist.ttl" (VInt 300000)
      [withAttribute "zimbraReverseProxyIPThrottleWhitelistTime"; withValueType ValueTypeTimeInSec; withOverrideType OverrideConfig];
    registerVar "mail.upstream.imapid" (VBool true)
      [withAttribute "zimbraReverseProxySendImapId"; withValueType ValueTypeBoolean; withOverrideType OverrideConfig];
    registerVar "mail.proxy.ssl" (VBool true)
      [withAttribute "zimbraReverseProxySSLToUpstreamEnabled"; withValueType ValueTypeBoolean; withOverrideType OverrideServer];
    registerVar "mail.ssl.preferserverciphers" (VBool true)
      [withAttribute "zimbraReverseProxySSLPreferServerCiphers"; withValueType ValueTypeBoolean; withOverrideType OverrideConfig];
    registerVar "mail.ssl.protocols" (VString "TLSv1.2 TLSv1.3")
      [withAttribute "zimbraReverseProxySSLProtocols"; withValueType ValueTypeCustom; withOverrideType OverrideServer; withCustomResolver WebSSLProtocols; withCustomFormatter SpacedList];
    registerVar "mail.ssl.ciphers" (VString "ECDHE-RSA-AES128-GCM-SHA256:ECDHE-ECDSA-AES128-GCM-SHA256")
      [withAttribute "zimbraReverseProxySSLCiphers"; withOverrideType OverrideConfig; withValueType ValueTypeString];
    registerVar "mail.ssl.ecdh.curve" (VString "auto")
      [withAttribute "zimbraReverseProxySSLECDHCurve"; withOverrideType OverrideConfig; withValueType ValueTypeString];
    registerVar "mail.saslapp" (VString "nginx")
      [withAttribute "zimbraReverseProxySaslApp"; withOverrideType OverrideConfig; withValueType ValueTypeString];
    registerVar "mail.sasl_host_from_ip" (VBool false)
      [withAttribute "zimbraReverseProxySaslHostFromIP"; withValueType ValueTypeBoolean; withOverrideType OverrideConfig];
    registerThrottleLimitVar "mail.imapmax" "zimbraReverseProxyIPLoginImapLimit";
    registerThrottleLimitVar "mail.pop3max" "zimbraReverseProxyIPLoginPop3Limit";
    registerThrottleLimitVar "mail.ipmax" "zimbraReverseProxyIPLoginLimit";
    registerThrottleTTLVar "mail.imapttl" "zimbraReverseProxyIPLoginImapLimitTime";
    registerThrottleTTLVar "mail.pop3ttl" "zimbraReverseProxyIPLoginPop3LimitTime";
    registerThrottleTTLVar "mail.ipttl" "zimbraReverseProxyIPLoginLimitTime";
    registerVar "mail.iprej" (VString "Login rejected from this IP")
      [withAttribute "zimbraReverseProxyIpThrottleMsg"; withOverrideType OverrideConfig; withValueType ValueTypeString]].

(** *** vars_admin.go *)
Definition registerAdminVariables : Vars → Vars :=
  run_all [
    registerVar "admin.console.upstream.name" (VString "zimbra_admin") [withValueType ValueTypeString];
    registerUpstreamServersVar "admin.upstream.:servers" (mkSpec ["mailbox"; "service"] "" "zimbraReverseProxyAdminPortAttribute" "zimbraAdminPort" 0);
    registerVar "admin.console.proxy.port" (VInt 9071)
      [withAttribute "zimbraAdminProxyPort"; withValueType ValueTypeInteger; withOverrideType OverrideConfig];
    registerUpstreamServersVar "admin.console.upstream.adminclient.:servers" (mkSpec ["mailbox"; "zimbraAdmin"] "" "zimbraReverseProxyAdminPortAttribute" "zimbraAdminPort" 0)].

(** *** vars_memcache.go *)
Definition registerMemcacheVariables : Vars → Vars :=
  run_all [
    registerVar "memcache.:servers" (VString "")
      [withValueType ValueTypeCustom; withOverrideType OverrideCustom; withCustomResolver MemcacheServers];
    registerVar "memcache.timeout" (VString "3000ms")
      [withAttribute "zimbraReverseProxyCacheFetchTimeout"; withValueType ValueTypeTime; withOverrideType OverrideConfig];
    registerVar "memcache.reconnect" (VString "60000ms")
      [withAttribute "zimbraReverseProxyCacheReconnectInterval"; withValueType ValueTypeTime; withOverrideType OverrideConfig];
    registerVar "memcache.ttl" (VString "3600000ms")
      [withAttribute "zimbraReverseProxyCacheEntryTTL"; withValueType ValueTypeTime; withOverrideType OverrideConfig];
    registerVar "memcache.servers" (VStrings []) [withOverrideType OverrideConfig; withCustomResolver MemcacheServers]].

(** *** vars_imap_pop.go *)
Definition registerIMAPPOPVariables : Vars → Vars :=
  run_all [
    registerVar "mail.imap.greeting" (VString "")
      [withAttribute "zimbraReverseProxyImapExposeVersionOnBanner"; withOverrideType OverrideCustom; withCustomResolver resolveIMAPGreeting];
    registerVar "mail.imap.enabled_capability" (VString "")
      [withAttribute "zimbraReverseProxyImapEnabledCapability"; withValueType ValueTypeString; withOverrideType OverrideConfig];
    registerVar "mail.imap.tls" (VString "only")
      [withAttribute "zimbraReverseProxyImapStartTlsMode"; withOverrideType OverrideServer; withValueType ValueTypeString];
    registerSASLConfigVar "mail.imap.sasl.plain.enabled" "zimbraReverseProxyImapSaslPlainEnabled" true;
    registerSASLConfigVar "mail.imap.sasl.gssapi.enabled" "zimbraReverseProxyImapSaslGssapiEnabled" false;
    registerVar "mail.pop3.greeting" (VString "")
      [withAttribute "zimbraReverseProxyPop3ExposeVersionOnBanner"; withOverrideType OverrideCustom; withCustomResolver resolvePOP3Greeting];
    registerVar "mail.pop3.enabled_capability" (VString "")
      [withAttribute "zimbraReverseProxyPop3EnabledCapability"; withValueType ValueTypeString; withOverrideType OverrideConfig];
    registerVar "mail.pop3.tls" (VString "only")
      [withAttribute "zimbraReverseProxyPop3StartTlsMode"; withOverrideType OverrideServer; withValueType ValueTypeString];
    registerSASLConfigVar "mail.pop3.sasl.plain.enabled" "zimbraReverseProxyPop3SaslPlainEnabled" true;
    registerSASLConfigVar "mail.pop3.sasl.gssapi.enabled" "zimbraReverseProxyPop3SaslGssapiEnabled" false;
    registerVar "mail.upstream.pop3xoip" (VBool true)
      [withAttribute "zimbraReverseProxySendPop3Xoip"; withValueType ValueTypeBoolean; withOverrideType OverrideConfig];
    registerVar "mail.saslhost.from.ip" (VString "off")
      [withAttribute "zimbraReverseProxySaslHostFromIP"; withOverrideType OverrideCustom; withCustomResolver SaslHostFromIP];
    registerVar "mail.imapcapa" (VStrings ["IMAP4rev1"; "ID"; "LITERAL+"; "SASL-IR"; "IDLE"; "NAMESPACE"])
      [withAttribute "zimbraReverseProxyImapEnabledCapability"; withValueType ValueTypeCustom; withOverrideType OverrideCustom; withCustomResolver IMAPCapabilities; withCustomFormatter Capabilities];
    registerVar "mail.pop3capa" (VStrings ["TOP"; "USER"; "UIDL"; "EXPIRE 31 USER"])
      [withAttribute "zimbraReverseProxyPop3EnabledCapability"; withValueType ValueTypeCustom; withOverrideType OverrideCustom; withCustomResolver POP3Capabilities; withCustomFormatter Capabilities];
    registerVar "mail.imapid" (VString "")
      [withValueType ValueTypeCustom; withOverrideType OverrideConfig; withCustomResolver IMAPId];
    registerAuthEnablerVar "mail.imap.authplain.enabled" "zimbraReverseProxyImapSaslPlainEnabled" true;
    registerAuthEnablerVar "mail.imap.authgssapi.enabled" "zimbraReverseProxyImapSaslGssapiEnabled" false;
    registerAuthEnablerVar "mail.pop3.authplain.enabled" "zimbraReverseProxyPop3SaslPlainEnabled" true;
    registerAuthEnablerVar "mail.pop3.authgssapi.enabled" "zimbraReverseProxyPop3SaslGssapiEnabled" false;
    registerVar "mail.imap.literalauth" (VBool true)
      [withAttribute "zimbraReverseProxyImapLiteralAuth"; withValueType ValueTypeBoolean; withOverrideType OverrideConfig]].

(** *** vars_sso.go *)
Definition registerSSOVariables : Vars → Vars :=
  run_all [
    registerVar "web.sso.enabled" (VBool false)
      [withAttribute "zimbraReverseProxyClientCertMode"; withValueType ValueTypeEnabler; withOverrideType OverrideConfig];
    registerVar "web.sso.default.enabled" (VBool false)
      [withAttribute "zimbraReverseProxyClientCertMode"; withValueType ValueTypeEnabler; withOverrideType OverrideConfig];
    registerVar "web.sso.certauth.enabled" (VBool false)
      [withAttribute "zimbraReverseProxyClientCertMode"; withValueType ValueTypeEnabler; withOverrideType OverrideConfig];
    registerVar "web.sso.certauth.default.enabled" (VBool false)
      [withAttribute "zimbraReverseProxyClientCertMode"; withValueType ValueTypeEnabler; withOverrideType OverrideConfig];
    registerVar "web.sso.certauth.port" (VInt 0)
      [withAttribute "zimbraMailSSLProxyClientCertPort"; withValueType ValueTypeInteger; withOverrideType OverrideServer]].

(** *** vars_lookup.go *)
Definition registerLookupVariables : Vars → Vars :=
  run_all [
    registerVar "lookup.target" (VString "")
      [withAttribute "zimbraReverseProxyLookupTarget"; withValueType ValueTypeString; withOverrideType OverrideConfig];
    registerVar "lookup.target.available" (VBool false)
      [withAttribute "zimbraReverseProxyLookupTarget"; withValueType ValueTypeBoolean; withOverrideType OverrideCustom; withCustomResolver LookupTargetAvailable];
    registerVar "lookup.available" (VBool false)
      [withValueType ValueTypeEnabler; withOverrideType OverrideCustom; withCustomResolver LookupAvailable];
    registerVar "lookup.caching.enabled" (VBool true)
      [withAttribute "zimbraReverseProxyZmlookupCachingEnabled"; withValueType ValueTypeBoolean; withOverrideType OverrideConfig];
    registerVar "zmlookup.:handlers" (VString "")
      [withValueType ValueTypeCustom; withOverrideType OverrideCustom; withCustomResolver LookupHandlers];
    registerVar "zmlookup.timeout" (VString "15000ms")
      [withAttribute "zimbraReverseProxyRouteLookupTimeout"; withValueType ValueTypeTime; withOverrideType OverrideServer];
    registerVar "zmlookup.retryinterval" (VString "60000ms")
      [withAttribute "zimbraReverseProxyRouteLookupTimeoutCache"; withValueType ValueTypeTime; withOverrideType OverrideServer];
    registerVar "zmlookup.caching" (VBool true)
      [withAttribute "zimbraReverseProxyZmlookupCachingEnabled"; withValueType ValueTypeBoolean; withOverrideType OverrideServer];
    registerVar "zmlookup.dpasswd" (VString "")
      [withAttribute "ldap_nginx_password"; withValueType ValueTypeString; withOverrideType OverrideLocalConfig];
    registerVar "zmprefix.url" (VString "https://carbonio.carbonio-system.svc.cluster.local")
      [withAttribute "zimbraMailURL"; withOverrideType OverrideConfig; withValueType ValueTypeString];
    registerVar "zmroute.timeout.connect" (VString "5s")
      [withAttribute "zimbraReverseProxyRouteLookupTimeoutConnect"; withValueType ValueTypeTime; withOverrideType OverrideConfig];
    registerVar "zmroute.timeout.read" (VString "60s")
      [withAttribute "zimbraReverseProxyRouteLookupTimeoutRead"; withValueType ValueTypeTime; withOverrideType OverrideConfig];
    registerVar "zmroute.timeout.send" (VString "60s")
      [withAttribute "zimbraReverseProxyRouteLookupTimeoutSend"; withValueType ValueTypeTime; withOverrideType OverrideConfig]].

(** *** vars_timeout.go *)
Definition registerTimeoutVariables : Vars → Vars :=
  run_all [
    registerVar "mail.authwait" (VInt 10000)
      [withAttribute "zimbraReverseProxyAuthWaitInterval"; withValueType ValueTypeTime; withOverrideType OverrideConfig];
    registerVar "mail.inactivity.timeout" (VString "1h")
      [withAttribute "zimbraReverseProxyInactivityTimeout"; withValueType ValueTypeTime; withOverrideType OverrideConfig];
    registerVar "web.upstream.connect.timeout" (VInt 25)
      [withAttribute "zimbraReverseProxyUpstreamConnectTimeout"; withValueType ValueTypeInteger; withOverrideType OverrideServer];
    registerVar "web.upstream.read.timeout" (VInt 60000)
      [withAttribute "zimbraReverseProxyUpstreamReadTimeout"; withValueType ValueTypeTimeInSec; withOverrideType OverrideConfig];
    registerVar "web.upstream.send.timeout" (VInt 60000)
      [withAttribute "zimbraReverseProxyUpstreamSendTimeout"; withValueType ValueTypeTimeInSec; withOverrideType OverrideConfig];
    registerVar "web.upstream.polling.timeout" (VInt 3600000)
      [withAttribute "zimbraReverseProxyUpstreamPollingTimeout"; withValueType ValueTypeTimeInSec; withOverrideType OverrideConfig];
    registerVar "lookup.timeout" (VString "15s")
      [withAttribute "zimbraReverseProxyRouteLookupTimeout"; withValueType ValueTypeTime; withOverrideType OverrideConfig];
    registerVar "lookup.retryinterval" (VString "60s")
      [withAttribute "zimbraReverseProxyCacheReconnectInterval"; withValueType ValueTypeTime; withOverrideType OverrideConfig];
    registerVar "lookup.dpasswd.cachettl" (VString "1h")
      [withAttribute "zimbraReverseProxyCacheEntryTTL"; withValueType ValueTypeTime; withOverrideType OverrideConfig];
    registerVar "lookup.cachefetchtimeout" (VString "10s")
      [withAttribute "zimbraReverseProxyCacheFetchTimeout"; withValueType ValueTypeTime; withOverrideType OverrideConfig];
    registerVar "web.upstream.noop.timeout" (VInt 1220)
      [withAttribute "zimbra_noop_max_timeout"; withValueType ValueTypeCustom; withOverrideType OverrideCustom; withCustomResolver (Timeout "zimbra_noop_max_timeout" 1200 20)];
    registerVar "web.upstream.waitset.timeout" (VInt 1220)
      [withAttribute "zimbra_waitset_max_request_timeout"; withValueType ValueTypeCustom; withOverrideType OverrideCustom; withCustomResolver (Timeout "zimbra_waitset_max_request_timeout" 1200 20)]].

(** *** vars_throttling.go *)
Definition registerThrottlingVariables : Vars → Vars :=
  run_all [
    registerVar "mail.limit.iplogin" (VInt 0)
      [withAttribute "zimbraReverseProxyIPLoginLimit"; withValueType ValueTypeInteger; withOverrideType OverrideConfig];
    registerVar "mail.limit.iplogintime" (VString "1h")
      [withAttribute "zimbraReverseProxyIPLoginLimitTime"; withValueType ValueTypeTime; withOverrideType OverrideConfig];
    registerVar "mail.limit.ipthrottlemsg" (VString "Login rejected due to IP address throttle")
      [withAttribute "zimbraReverseProxyIpThrottleMsg"; withOverrideType OverrideConfig; withValueType ValueTypeString];
    registerVar "mail.limit.userlogin" (VInt 0)
      [withAttribute "zimbraReverseProxyUserLoginLimit"; withValueType ValueTypeInteger; withOverrideType OverrideConfig];
    registerVar "mail.limit.userlogintime" (VString "1h")
      [withAttribute "zimbraReverseProxyUserLoginLimitTime"; withValueType ValueTypeTime; withOverrideType OverrideConfig];
    registerVar "mail.limit.userthrottlemsg" (VString "Login rejected due to user throttle")
      [withAttribute "zimbraReverseProxyUserThrottleMsg"; withOverrideType OverrideConfig; withValueType ValueTypeString]].

(** *** vars_xmpp.go *)
Definition registerXMPPVariables : Vars → Vars :=
  run_all [
    registerVar "web.xmpp.bosh.hostname" (VString "")
      [withAttribute "zimbraReverseProxyXmppBoshHostname"; withValueType ValueTypeString; withOverrideType OverrideConfig];
    registerVar "web.xmpp.bosh.port" (VInt 5222)
      [withAttribute "zimbraReverseProxyXmppBoshPort"; withValueType ValueTypeInteger; withOverrideType OverrideConfig];
    registerVar "web.xmpp.local.bind.url" (VString "")
      [withAttribute "zimbraReverseProxyXmppBoshLocalHttpBindURL"; withValueType ValueTypeString; withOverrideType OverrideConfig];
    registerVar "web.xmpp.remote.bind.url" (VString "")
      [withAttribute "zimbraReverseProxyXmppBoshRemoteHttpBindURL"; withValueType ValueTypeString; withOverrideType OverrideConfig]].

(** ** [RegisterVariables] *)
Definition RegisterVariables : Vars :=
  run_all [registerCoreVariables; registerSSLVariables; registerWebVariables; registerMailVariables; registerAdminVariables;
           registerMemcacheVariables; registerIMAPPOPVariables; registerSSOVariables; registerLookupVariables;
           registerTimeoutVariables; registerThrottlingVariables; registerXMPPVariables] ∅.
End register.

(** ** registry.go *)
Definition kindOf (t : ValueType) : Kind :=
  match t with
  | ValueTypeEnabler => KindEnabler
  | ValueTypeInteger | ValueTypeLong | ValueTypeBoolean | ValueTypeTime | ValueTypeTimeInSec => KindScalar
  | ValueTypeString | ValueTypeCustom => KindText
  end.

(** [newBareGenerator]: the layout of an installation and no configuration. *)
Definition bare_env : Env :=
  {| e_Local := None; e_Global := None; e_Server := None; e_WorkingDir := "/opt/zextras"; e_ConfDir := "/opt/zextras/conf";
     e_IncludesDir := "/opt/zextras/conf/nginx/includes"; e_ConfPrefix := "nginx.conf"; e_TemplatePrefix := "nginx.conf";
     e_ldap := false; e_servers := None; e_domains := None; e_service_servers := λ _, None; e_stat_size := λ _, None;
     e_lookup_ip := λ _, None; e_buildProps := None; e_frac := λ _ _, 0 |}.

Definition bare_variables : Vars := RegisterVariables bare_env.

Definition TemplateRegistry_Kind (name : string) : option Kind :=
  match bare_variables !! name with Some (Some v) => Some (kindOf (v_ValueType v)) | _ => None end.

Definition IsLineSwitch (name : string) : bool :=
  match bare_variables !! name with
  | Some (Some v) =>
      match kindOf (v_ValueType v) with KindEnabler => true | _ => false end || bool_decide (ExpandVariable bare_variables name = Some "#")
  | _ => false
  end.

Definition HasLeadingSpace (name : string) : bool :=
  negb (IsLineSwitch name) &&
  match ExpandVariable bare_variables name with Some text => HasPrefix text " " | None => false end.
