(* ===== verification/ProxyExplode.v ===== *)
(** * ProxyExplode: rendering the templates of the proxy configuration

    Models internal/proxy/template.go and template_explode.go: a template is rendered
    line by line with the variables of the generator; one whose first line is an
    explode directive is rendered once per domain or per server, the variables of the
    domain or server being put into the shared map and taken out again.  The writes go
    to a buffer in memory and do not fail.

    The block of a domain or server is what the variables of the generator and that
    domain or server alone render, and the variables are afterwards what they were, so
    that the templates can be rendered in any order with one processor. *)
From stdpp Require Import pretty.
From S2P Require Import Prelude Config Tmpl NetIP Proxy ProxyUpstream ProxyResolvers ProxyRegister.
Open Scope Z_scope.

(** ** Stable sorting ([slices.SortStableFunc]) *)
Section stable_sort.
Context {A : Type} (le : A → A → bool).

Fixpoint insert_sorted (x : A) (l : list A) : list A :=
  match l with [] => [x] | y :: l' => if le x y then x :: l else y :: insert_sorted x l' end.

Fixpoint stable_sort (l : list A) : list A :=
  match l with [] => [] | x :: l => insert_sorted x (stable_sort l) end.

Lemma elem_of_insert_sorted x y l : y ∈ insert_sorted x l ↔ y = x ∨ y ∈ l.
Proof.
  induction l as [|z l IH]; simpl; [set_solver|].
  destruct (le x z); rewrite ?elem_of_cons, ?IH; tauto.
Qed.

Lemma elem_of_stable_sort y l : y ∈ stable_sort l ↔ y ∈ l.
Proof. induction l as [|x l IH]; simpl; [done|]. rewrite elem_of_insert_sorted, elem_of_cons, IH. tauto. Qed.
End stable_sort.

Definition str_le (a b : string) : bool := bool_decide (String.le a b).

(** ** The processor (template.go)

    Providers replace the queries of the directory and of the name service where the
    configuration is rendered offline. *)
Record TemplateProcessor := {
  tp_domainProvider : option (list DomainInfo);
  tp_serverProvider : option (string → list ServerInfo);
  tp_hostResolver : option (string → option IP)
}.

(** [NewTemplateProcessor] *)
Definition NewTemplateProcessor : TemplateProcessor :=
  {| tp_domainProvider := None; tp_serverProvider := None; tp_hostResolver := None |}.

(** [processTemplateLines]: the text written. *)
Fixpoint processTemplateLines (vars : Vars) (skipComments : bool) (lines : list string) : string :=
  match lines with
  | [] => ""
  | line :: lines =>
      if skipComments && IsCommentLine line then processTemplateLines vars skipComments lines
      else interpolateLine vars line +:+ nl +:+ processTemplateLines vars skipComments lines
  end.

(** ** Variables of a domain *)
Definition clientCertVerifies (mode : string) : bool := String.eqb mode "on" || String.eqb mode "optional".

(** [vars[key]], nil when there is none. *)
Definition vget (vars : Vars) (key : string) : option Variable_ := default None (vars !! key).

Definition stringVar (value : string) : Variable_ := plainVar ValueTypeString (VString value).

Definition defaultVarString (v : option Variable_) : string :=
  match v with Some v => match v_Value v with VString s => s | _ => "" end | None => "" end.

Definition origVarPrefix : string := "_orig_".
Definition varKeySSLClientCertMode : string := "ssl.clientcertmode".
Definition varKeySSOCertAuth : string := "web.sso.certauth.enabled".
Definition domainScopedClientCertKeys : list string := [varKeySSLClientCertMode; VarSSLClientCA; varKeySSOCertAuth].

Definition save_orig (key : string) (vars : Vars) : Vars := <[origVarPrefix +:+ key := vget vars key]> vars.

Section explode.
Variables (E : Env) (tp : TemplateProcessor).

(** ** domaincerts.go: the paths *)
Definition domainCertsDir : string := e_ConfDir E +:+ "/domaincerts".

Definition domainCertFilePath (domainName ext : string) : string := domainCertsDir +:+ "/" +:+ domainName +:+ ext.

Definition domainSSLPathOrDefault (domainName pem ext : string) (defaultVar : option Variable_) : string :=
  if non_empty pem then domainCertFilePath domainName ext else defaultVarString defaultVar.

(** ** The domains and servers *)
Inductive LoadError := errNoDomainSource | errDomainQuery.

Definition dropUnsafeDomains (domains : list DomainInfo) : list DomainInfo :=
  filter (λ d, validateDomainInfo d = None) domains.

Definition domain_le (a b : DomainInfo) : bool := str_le (d_Name a) (d_Name b).

Definition loadDomains : LoadError + list DomainInfo :=
  let domainInfos :=
    match tp_domainProvider tp with
    | Some l => inr (Some l)
    | None =>
        if negb (e_ldap E) then inl errNoDomainSource
        else if negb (perVirtualHostnameEnabled E) then inr None
        else match e_domains E with Some l => inr (Some l) | None => inl errDomainQuery end
    end in
  match domainInfos with
  | inl e => inl e
  | inr None => inr []
  | inr (Some l) => inr (stable_sort domain_le (dropUnsafeDomains l))
  end.

Definition getDomains : list DomainInfo := match loadDomains with inl _ => [] | inr l => l end.

Definition server_le (a b : ServerInfo) : bool :=
  if bool_decide (si_Hostname a = si_Hostname b) then str_le (si_ID a) (si_ID b) else str_le (si_Hostname a) (si_Hostname b).

Definition getServersWithService (serviceName : string) : list ServerInfo :=
  let serverInfos :=
    match tp_serverProvider tp with
    | Some f => Some (f serviceName)
    | None => if e_ldap E then e_service_servers E serviceName else None
    end in
  match serverInfos with
  | None => []
  | Some l =>
      stable_sort server_le (filter (λ si, (String.eqb (si_Hostname si) "" || validHostToken (si_Hostname si)) = true) l)
  end.

Definition domainMeetsRequirements (domain : DomainInfo) (args : list string) : bool :=
  forallb (λ arg,
    if String.eqb arg "vhn" then non_empty (d_VirtualHostname domain)
    else if String.eqb arg "sso" then non_empty (d_ClientCertMode domain) && negb (String.eqb (d_ClientCertMode domain) "off")
    else true) args.

(** ** The address of a virtual host *)
Definition resolveVirtualHost (host : string) : option IP :=
  match ParseIP (trim_brackets host) with Some ip => Some ip | None => e_lookup_ip E host end.

Definition virtualIPPrefix (domain : DomainInfo) : string :=
  let sni := match getConfigValue E "zimbraReverseProxySNIEnabled" server_global with Some v => IsTruthy v | None => true end in
  let host := if String.eqb (d_VirtualIPAddress domain) "" then d_VirtualHostname domain else d_VirtualIPAddress domain in
  match default resolveVirtualHost (tp_hostResolver tp) host with
  | None => ""
  | Some ip =>
      if negb (is_v4 ip) then if sni then "[::]:" else "[" +:+ IP_String ip +:+ "]:"
      else if sni then "" else IP_String ip +:+ ":"
  end.

(** ** Setting and clearing the variables *)
Definition setDomainClientCertVariables (domain : DomainInfo) (vars : Vars) : Vars :=
  let vars := foldl (λ m key, save_orig key m) vars domainScopedClientCertKeys in
  let vars :=
    if non_empty (d_ClientCertMode domain) then
      <[varKeySSOCertAuth := Some (plainVar ValueTypeEnabler (VBool (clientCertVerifies (d_ClientCertMode domain))))]>
        (<[varKeySSLClientCertMode := Some (stringVar (d_ClientCertMode domain))]> vars)
    else
      <[varKeySSLClientCertMode := Some (stringVar (defaultVarString (vget vars "ssl.clientcertmode.default")))]> vars in
  <[VarSSLClientCA := Some (stringVar
      (if non_empty (d_ClientCertCA domain) then domainCertFilePath (d_Name domain) ".client.ca.crt"
       else defaultVarString (vget vars "ssl.clientcertca.default")))]> vars.

Definition setDomainVariables (domain : DomainInfo) (vars : Vars) : Vars :=
  let vars := <[VarVHN := Some (stringVar (d_VirtualHostname domain))]> vars in
  let vars := <[VarVIP := Some (stringVar (d_VirtualIPAddress domain))]> vars in
  let vars := save_orig VarSSLKey (save_orig VarSSLCrt vars) in
  let vars :=
    <[VarSSLCrt := Some (stringVar
        (domainSSLPathOrDefault (d_Name domain) (d_SSLCertificate domain) ".crt" (vget vars "ssl.crt.default")))]> vars in
  let vars :=
    <[VarSSLKey := Some (stringVar
        (domainSSLPathOrDefault (d_Name domain) (d_SSLPrivateKey domain) ".key" (vget vars "ssl.key.default")))]> vars in
  setDomainClientCertVariables domain vars.

(** The saved variable is put back, or the variable removed when there was none. *)
Definition restore_orig (key : string) (vars : Vars) : Vars :=
  match vars !! (origVarPrefix +:+ key) with
  | None => vars
  | Some None => delete (origVarPrefix +:+ key) (delete key vars)
  | Some (Some v) => delete (origVarPrefix +:+ key) (<[key := Some v]> vars)
  end.

Definition clearDomainVariables (vars : Vars) : Vars :=
  foldl (λ m key, restore_orig key m) (delete VarVIP (delete VarVHN vars)) (VarSSLCrt :: VarSSLKey :: domainScopedClientCertKeys).

Definition setServerVariables (server : ServerInfo) (vars : Vars) : Vars :=
  <[VarServerHostname := Some (stringVar (si_Hostname server))]> (<[VarServerID := Some (stringVar (si_ID server))]> vars).

Definition clearServerVariables (vars : Vars) : Vars := delete VarServerHostname (delete VarServerID vars).

(** [Variables[vip].Value = prefix] *)
Definition set_vip (prefix : string) (vars : Vars) : Vars := alter (λ v, set_value (VString prefix) <$> v) VarVIP vars.

(** ** The explode directives *)
Fixpoint explode_domains (args : list string) (lines : list string) (domains : list DomainInfo) (vars : Vars) : string * Vars :=
  match domains with
  | [] => ("", vars)
  | domain :: domains =>
      if negb (domainMeetsRequirements domain args) then explode_domains args lines domains vars
      else
        let vars := set_vip (virtualIPPrefix domain) (setDomainVariables domain vars) in
        let block := processTemplateLines vars false lines +:+ nl in
        let '(rest, vars) := explode_domains args lines domains (clearDomainVariables vars) in
        (block +:+ rest, vars)
  end.

Definition processExplodeDomain (argsStr : string) (lines : list string) (vars : Vars) : (string + string) * Vars :=
  match DomainArgs argsStr with
  | inl e => (inl e, vars)
  | inr args => let '(out, vars) := explode_domains args lines getDomains vars in (inr out, vars)
  end.

Fixpoint explode_servers (lines : list string) (servers : list ServerInfo) (vars : Vars) : string * Vars :=
  match servers with
  | [] => ("", vars)
  | server :: servers =>
      let vars := setServerVariables server vars in
      let block := processTemplateLines vars true lines in
      let '(rest, vars) := explode_servers lines servers (clearServerVariables vars) in
      (block +:+ rest, vars)
  end.

Definition processExplodeServer (serviceName : string) (lines : list string) (vars : Vars) : (string + string) * Vars :=
  match ServerService serviceName with
  | inl e => (inl e, vars)
  | inr service => let '(out, vars) := explode_servers lines (getServersWithService service) vars in (inr out, vars)
  end.

Definition processExplode (explodeType args : string) (lines : list string) (vars : Vars) : (string + string) * Vars :=
  if String.eqb explodeType ExplodeDomain then processExplodeDomain args lines vars
  else if String.eqb explodeType ExplodeServer then processExplodeServer args lines vars
  else (inl ("unknown explode type: " +:+ explodeType), vars).

Definition parseExplodeDirective (lines : list string) : option (string * string * list string) :=
  match lines with
  | [] => None
  | l :: rest => '(t, a) ← ParseExplode l; Some (t, a, rest)
  end.

(** [ProcessTemplate]: the error or the text, and the variables it leaves. *)
Definition ProcessTemplate (lines : list string) (vars : Vars) : (string + string) * Vars :=
  match parseExplodeDirective lines with
  | Some (explodeType, args, remaining) =>
      match processExplode explodeType args remaining vars with
      | (inl e, vars) => (inl ("error processing explode directive: " +:+ e), vars)
      | (inr out, vars) => (inr out, vars)
      end
  | None => (inr (processTemplateLines vars false lines), vars)
  end.
End explode.

(** ** Exploded templates do not leak variables *)

(** The variables the explosion of a domain overrides and restores. *)
Definition scoped_keys : list string := VarSSLCrt :: VarSSLKey :: domainScopedClientCertKeys.

(** The names that only exist while a template is exploded. *)
Definition transient_keys : list string :=
  [VarVHN; VarVIP; VarServerID; VarServerHostname] ++ ((λ k, origVarPrefix +:+ k) <$> scoped_keys).

(** No transient variable, and no nil pointer among the overridden ones. *)
Definition clean (vars : Vars) : Prop :=
  Forall (λ k, vars !! k = None) transient_keys ∧ Forall (λ k, vars !! k ≠ Some None) scoped_keys.

(** The variables a domain is rendered with. *)
Definition domain_vars (E : Env) (tp : TemplateProcessor) (d : DomainInfo) (vars : Vars) : Vars :=
  set_vip (virtualIPPrefix E tp d) (setDomainVariables E d vars).

Section restore.
Variables (E : Env) (tp : TemplateProcessor).

(** ** Restoring one variable *)
Lemma bool_decide_cons (k x : string) l : bool_decide (k ∈ x :: l) = bool_decide (k = x) || bool_decide (k ∈ l).
Proof. repeat case_bool_decide; simpl; set_solver. Qed.

Lemma restore_orig_lookup key m x k :
  m !! (origVarPrefix +:+ key) = Some x →
  restore_orig key m !! k =
    if bool_decide (k = origVarPrefix +:+ key) then None
    else if bool_decide (k = key) then Some <$> x else m !! k.
Proof.
  intros Hx. unfold restore_orig. rewrite Hx.
  repeat case_bool_decide; subst; destruct x as [v|]; simpl; simplify_map_eq; try done.
Qed.

Lemma foldl_restore_lookup keys m (old : string → option Variable_) k :
  NoDup keys →
  (∀ key, key ∈ keys → m !! (origVarPrefix +:+ key) = Some (old key)) →
  (∀ key key', key ∈ keys → key' ∈ keys → origVarPrefix +:+ key' ≠ key) →
  (∀ key key', key ∈ keys → key' ∈ keys → origVarPrefix +:+ key = origVarPrefix +:+ key' → key = key') →
  foldl (λ m key, restore_orig key m) m keys !! k =
    if bool_decide (k ∈ (λ key, origVarPrefix +:+ key) <$> keys) then None
    else if bool_decide (k ∈ keys) then Some <$> old k else m !! k.
Proof.
  revert m. induction keys as [|key keys IH]; intros m Hnd Hold Hdisj Hinj; simpl; [done|].
  apply NoDup_cons in Hnd as [Hni Hnd].
  assert (Hkey : m !! (origVarPrefix +:+ key) = Some (old key)) by (apply Hold; by left).
  rewrite IH; [|done| |intros ?? ??; apply Hdisj; by right|intros ?? ??; apply Hinj; by right].
  - rewrite (restore_orig_lookup key m (old key) k Hkey).
    rewrite !bool_decide_cons.
    destruct (bool_decide_reflect (k = origVarPrefix +:+ key)) as [->|]; simpl.
    { rewrite (bool_decide_eq_false_2 (_ ∈ keys)); [by case_bool_decide|].
      intros Hin. by apply (Hdisj (origVarPrefix +:+ key) key); [right|left|]. }
    destruct (bool_decide_reflect (k = key)) as [->|]; simpl; [|done].
    by rewrite (bool_decide_eq_false_2 (key ∈ keys)) by done.
  - intros key' Hk'. rewrite (restore_orig_lookup key m (old key)) by done.
    rewrite !bool_decide_eq_false_2; [apply Hold; by right| |].
    + apply Hdisj; [by left|by right].
    + intros Heq. apply Hni. rewrite <- (Hinj key' key); [done|by right|by left|done].
Qed.

(** ** What setting the variables of a domain leaves *)
Lemma domain_vars_saved d vars key :
  key ∈ scoped_keys → domain_vars E tp d vars !! (origVarPrefix +:+ key) = Some (vget vars key).
Proof.
  unfold scoped_keys, domainScopedClientCertKeys, domain_vars, set_vip, setDomainVariables, setDomainClientCertVariables, save_orig, vget.
  intros Hk. rewrite lookup_alter_ne by (by repeat (apply elem_of_cons in Hk as [->|Hk]); try set_solver).
  repeat (apply elem_of_cons in Hk as [->|Hk]); [..|by apply not_elem_of_nil in Hk]; simpl;
    destruct (non_empty (d_ClientCertMode d)); by simplify_map_eq.
Qed.

Lemma domain_vars_other d vars k :
  k ≠ VarVHN → k ≠ VarVIP → k ∉ (λ key, origVarPrefix +:+ key) <$> scoped_keys → k ∉ scoped_keys →
  domain_vars E tp d vars !! k = vars !! k.
Proof.
  unfold scoped_keys, domainScopedClientCertKeys, domain_vars, set_vip, setDomainVariables,
    setDomainClientCertVariables, save_orig. rewrite !fmap_cons, !not_elem_of_cons.
  intros Hvhn Hvip Ho Hs. rewrite lookup_alter_ne by done. cbn beta in *. simpl (foldl _ _ _).
  destruct (non_empty (d_ClientCertMode d)); destruct_and!; by rewrite !lookup_insert_ne by done.
Qed.

Lemma orig_inj a b : origVarPrefix +:+ a = origVarPrefix +:+ b → a = b.
Proof. unfold origVarPrefix. rewrite !string_app_cons, !string_app_nil_l. congruence. Qed.

Lemma scoped_orig_ne key key' : key ∈ scoped_keys → origVarPrefix +:+ key' ≠ key.
Proof.
  unfold origVarPrefix, scoped_keys, domainScopedClientCertKeys. rewrite !string_app_cons, string_app_nil_l.
  intros Hk Heq. subst key. repeat (apply elem_of_cons in Hk as [Hk|Hk]); [discriminate..|by apply elem_of_nil in Hk].
Qed.

Lemma scoped_NoDup : NoDup scoped_keys.
Proof. apply (bool_decide_unpack _). vm_compute. done. Qed.

Lemma domain_vars_clear d vars : clean vars → clearDomainVariables (domain_vars E tp d vars) = vars.
Proof.
  intros [Ht Hs]. rewrite Forall_forall in Ht, Hs.
  apply map_eq. intros k. unfold clearDomainVariables. fold scoped_keys.
  rewrite (foldl_restore_lookup scoped_keys _ (vget vars)).
  - case_bool_decide as Ho; [symmetry; apply Ht; unfold transient_keys; apply elem_of_app; by right|].
    case_bool_decide as Hk.
    { specialize (Hs k Hk). unfold vget. by destruct (vars !! k) as [[v|]|]. }
    destruct (decide (k = VarVIP)) as [->|]; [rewrite lookup_delete_eq, Ht; [done|unfold transient_keys; set_solver]|].
    rewrite lookup_delete_ne by done.
    destruct (decide (k = VarVHN)) as [->|]; [rewrite lookup_delete_eq, Ht; [done|unfold transient_keys; set_solver]|].
    rewrite lookup_delete_ne by done. by apply domain_vars_other.
  - apply scoped_NoDup.
  - intros key Hk. rewrite !lookup_delete_ne by done. by apply domain_vars_saved.
  - intros key key' Hk _. by apply scoped_orig_ne.
  - intros key key' _ _. apply orig_inj.
Qed.

(** ** The blocks *)
Definition domain_block (lines : list string) (vars : Vars) (d : DomainInfo) : string :=
  processTemplateLines (domain_vars E tp d vars) false lines +:+ nl.

Definition server_block (lines : list string) (vars : Vars) (s : ServerInfo) : string :=
  processTemplateLines (setServerVariables s vars) true lines.

(** The texts one after the other. *)
Definition concat_text (l : list string) : string := foldr String.append "" l.

Lemma explode_domains_blocks args lines domains vars :
  clean vars →
  explode_domains E tp args lines domains vars =
    (concat_text (domain_block lines vars <$> filter (λ d, domainMeetsRequirements d args = true) domains), vars).
Proof.
  intros Hc. induction domains as [|d domains IH]; [done|]. cbn [explode_domains].
  destruct (domainMeetsRequirements d args) eqn:Hd; cbn [negb].
  - rewrite filter_cons_True by done. fold (domain_vars E tp d vars).
    rewrite domain_vars_clear by done. by rewrite IH.
  - rewrite filter_cons_False by (by rewrite Hd). apply IH.
Qed.

Lemma server_vars_clear s vars : clean vars → clearServerVariables (setServerVariables s vars) = vars.
Proof.
  intros [Ht _]. unfold transient_keys in Ht. simpl in Ht. rewrite !Forall_cons in Ht. destruct_and!.
  unfold clearServerVariables, setServerVariables.
  rewrite (insert_insert_ne _ VarServerHostname VarServerID) by done.
  rewrite delete_insert_eq, delete_insert_ne by done. rewrite delete_insert_eq.
  rewrite (delete_id _ VarServerID) by done. by apply delete_id.
Qed.

Lemma explode_servers_blocks lines servers vars :
  clean vars → explode_servers lines servers vars = (concat_text (server_block lines vars <$> servers), vars).
Proof.
  intros Hc. induction servers as [|s servers IH]; [done|]. cbn [explode_servers].
  rewrite server_vars_clear by done. by rewrite IH.
Qed.

(** What a template stands for: the block of each domain or server, every one
    rendered from the variables of the generator, or its own lines. *)
Definition rendering (lines : list string) (vars : Vars) : string + string :=
  match parseExplodeDirective lines with
  | None => inr (processTemplateLines vars false lines)
  | Some (explodeType, args, remaining) =>
      let err e := inl ("error processing explode directive: " +:+ e) in
      if String.eqb explodeType ExplodeDomain then
        match DomainArgs args with
        | inl e => err e
        | inr args =>
            inr (concat_text
                   (domain_block remaining vars <$> filter (λ d, domainMeetsRequirements d args = true) (getDomains E tp)))
        end
      else if String.eqb explodeType ExplodeServer then
        match ServerService args with
        | inl e => err e
        | inr service => inr (concat_text (server_block remaining vars <$> getServersWithService E tp service))
        end
      else err ("unknown explode type: " +:+ explodeType)
  end.

Lemma ProcessTemplate_rendering lines vars :
  clean vars → ProcessTemplate E tp lines vars = (rendering lines vars, vars).
Proof.
  intros Hc. unfold ProcessTemplate, rendering.
  destruct (parseExplodeDirective lines) as [[[t a] remaining]|]; [|done].
  unfold processExplode. destruct (String.eqb t ExplodeDomain).
  { unfold processExplodeDomain. destruct (DomainArgs a); [done|]. by rewrite explode_domains_blocks. }
  destruct (String.eqb t ExplodeServer); [|done].
  unfold processExplodeServer. destruct (ServerService a); [done|]. by rewrite explode_servers_blocks.
Qed.
End restore.

(** The declared variables are clean, whatever the installation. *)
Lemma clean_registered E : clean (RegisterVariables E).
Proof.
  assert (Ht : Forall (λ k, RegisterVariables E !! k = None) transient_keys) by (repeat constructor).
  split; [done|].
  repeat constructor; vm_compute; discriminate.
Qed.

(** C13: rendering a template leaves every variable of the generator as it was, and the
    block of each domain or server is what it alone renders with these variables: no
    certificate, client certificate mode or host name of one domain reaches another,
    and the templates may be rendered in any order. *)
Theorem ProcessTemplate_isolated E tp lines vars :
  clean vars → ProcessTemplate E tp lines vars = (rendering E tp lines vars, vars).
Proof. apply ProcessTemplate_rendering. Qed.

(** Two domains, of which only the first has a certificate and a client certificate mode. *)
Definition two_domains : TemplateProcessor :=
  {| tp_domainProvider :=
       Some [{| d_Name := "a.org"; d_VirtualHostname := "mail.a.org"; d_VirtualIPAddress := ""; d_ClientCertMode := "on";
                d_ClientCertCA := ""; d_SSLCertificate := "cert"; d_SSLPrivateKey := "key" |};
             {| d_Name := "b.org"; d_VirtualHostname := "mail.b.org"; d_VirtualIPAddress := ""; d_ClientCertMode := "";
                d_ClientCertCA := ""; d_SSLCertificate := ""; d_SSLPrivateKey := "" |}];
     tp_serverProvider := None; tp_hostResolver := None |}.

Lemma ProcessTemplate_isolated_witness :
  ProcessTemplate bare_env two_domains ["!{explode domain(vhn)}"; "${vhn} ${ssl.crt} ${ssl.clientcertmode};"] (RegisterVariables bare_env) =
  (inr ("mail.a.org /opt/zextras/conf/domaincerts/a.org.crt on;" +:+ nl +:+ nl +:+
        "mail.b.org /opt/zextras/conf/nginx.crt off;" +:+ nl +:+ nl), RegisterVariables bare_env).
Proof.
  rewrite (ProcessTemplate_isolated bare_env two_domains _ _ (clean_registered bare_env)).
  apply (f_equal (λ out, (out, RegisterVariables bare_env))). vm_compute. reflexivity.
Defined.
