(* ===== verification/ProxyResolveProps.v ===== *)
(** * ProxyResolveProps: the variables do not depend on the order of their resolution

    Go ranges over the map of variables in an order of its own, the resolvers share a
    cache that any of them may fill first, and one resolver updates another variable.
    The values nevertheless are those that each variable gets on its own. *)
From stdpp Require Import pretty.
From S2P Require Import Prelude Config Tmpl NetIP Proxy ProxyUpstream ProxyResolvers ProxyRegister.
Open Scope Z_scope.

(** ** The constructor of a generator (config.go)

    The prefetch queries run in the order [order], the variables are met in the order
    [keys]; [None] is the error of a variable that cannot be converted. *)
Definition NewGenerator (E : Env) (order : list prefetch) (keys : list string) : option Gen :=
  let g := {| g_cache := PrefetchUpstreamData E order (Some empty_cache); g_vars := RegisterVariables E |} in
  match ResolveAllVariables E keys g with (true, g) => Some g | (false, _) => None end.

Section resolution.
Variable E : Env.

(** ** Caches that agree with the directory *)
Definition index_answer : option ByHost := if e_ldap E then indexServersByHost <$> e_servers E else None.

Record agrees (k : upstreamQueryCache) : Prop := {
  ag_attrs m : uc_attrs k = Some m → index_answer = Some m;
  ag_backends s : uc_backends k = Some s → ∃ m, index_answer = Some m ∧ s = buildReverseProxyBackends m buildUpstreamServer;
  ag_backendsSSL s : uc_backendsSSL k = Some s → ∃ m, index_answer = Some m ∧ s = buildReverseProxyBackends m buildUpstreamServerSSL;
  ag_memcached s : uc_memcached k = Some s → ∃ m, index_answer = Some m ∧ s = buildMemcachedServers m
}.

Definition agreeing (c : UCache) : Prop := from_option agrees True c.

(** A query that gives the same answer with every agreeing cache, and keeps it so. *)
Definition steady {A} (f : UCache → A * UCache) : Prop :=
  ∀ c, agreeing c → (f c).1 = (f None).1 ∧ agreeing (f c).2.

Lemma getServerAttrsByHostname_steady : steady (getServerAttrsByHostname E).
Proof.
  intros [k|] Hk; [|split; [done|]; unfold getServerAttrsByHostname; simpl; by destruct (e_ldap E), (e_servers E)].
  unfold getServerAttrsByHostname; simpl. destruct (uc_attrs k) as [m|] eqn:Hm.
  - pose proof (ag_attrs _ Hk m Hm) as Ha. unfold index_answer in Ha.
    destruct (e_ldap E); [|done]. simpl. destruct (e_servers E); by simplify_eq/=.
  - destruct (e_ldap E) eqn:Hl; simpl; [|done]. destruct (e_servers E) as [l|] eqn:Hs; simpl; [|done].
    split; [done|]. destruct Hk. split; simpl; auto. intros m' [= <-]. unfold index_answer. by rewrite Hl, Hs.
Qed.

Lemma serverAttrsForQuery_answer c : agreeing c → (serverAttrsForQuery E c).1 = index_answer ∧ agreeing (serverAttrsForQuery E c).2.
Proof.
  intros Hc. pose proof (getServerAttrsByHostname_steady c Hc) as [Ha Hg].
  assert (Hn : e_ldap E = true → (getServerAttrsByHostname E None).1 = index_answer).
  { intros Hl. unfold getServerAttrsByHostname, index_answer. simpl. rewrite Hl. by destruct (e_servers E). }
  unfold serverAttrsForQuery. destruct (c ≫= uc_attrs) as [m|] eqn:Hm.
  - split; [|done]. rewrite Ha. apply Hn.
    destruct c as [k|]; [|done]. simpl in Hm. pose proof (ag_attrs _ Hc m Hm) as Hi.
    unfold index_answer in Hi. by destruct (e_ldap E).
  - destruct (e_ldap E) eqn:Hl; [split; [rewrite Ha; by apply Hn|done]|].
    split; [|done]. unfold index_answer. by rewrite Hl.
Qed.

Lemma reverseProxyBackendsRaw_steady ssl : steady (reverseProxyBackendsRaw E ssl).
Proof.
  assert (H : ∀ c, agreeing c →
    (reverseProxyBackendsRaw E ssl c).1 = (λ m, buildReverseProxyBackends m (bp_build (backendsByParams ssl))) <$> index_answer ∧
    agreeing (reverseProxyBackendsRaw E ssl c).2).
  { intros c Hc. unfold reverseProxyBackendsRaw.
    destruct (c ≫= bp_servers (backendsByParams ssl)) as [s|] eqn:Hs.
    - split; [|done]. destruct c as [k|]; [|done]. simpl in Hs.
      assert (∃ m, index_answer = Some m ∧ s = buildReverseProxyBackends m (bp_build (backendsByParams ssl))) as (m & -> & ->)
        by (destruct ssl; [by apply (ag_backendsSSL _ Hc)|by apply (ag_backends _ Hc)]).
      done.
    - pose proof (serverAttrsForQuery_answer c Hc) as [Ha Hg].
      destruct (serverAttrsForQuery E c) as [[m|] c']; simpl in Ha; rewrite <- Ha; simpl; [|done].
      split; [done|]. destruct c' as [k|]; [|done]. simpl in Hg |- *.
      destruct Hg; destruct ssl; split; simpl; auto; intros s' [= <-]; eauto. }
  intros c Hc. rewrite (proj1 (H c Hc)), (proj1 (H None I)). split; [done|]. by apply H.
Qed.

Lemma getAllReverseProxyBackendsBy_steady ssl : steady (getAllReverseProxyBackendsBy E ssl).
Proof.
  intros c Hc. pose proof (reverseProxyBackendsRaw_steady ssl c Hc) as [Ha Hg]. unfold getAllReverseProxyBackendsBy.
  destruct (reverseProxyBackendsRaw E ssl c), (reverseProxyBackendsRaw E ssl None). simpl in *. by rewrite Ha.
Qed.

Lemma getAllMemcachedServers_steady : steady (getAllMemcachedServers E).
Proof.
  assert (H : ∀ c, agreeing c →
    (getAllMemcachedServers E c).1 = buildMemcachedServers <$> index_answer ∧ agreeing (getAllMemcachedServers E c).2).
  { intros c Hc. unfold getAllMemcachedServers. destruct (c ≫= uc_memcached) as [s|] eqn:Hs.
    - split; [|done]. destruct c as [k|]; [|done]. simpl in Hs.
      by destruct (ag_memcached _ Hc s Hs) as (m & -> & ->).
    - pose proof (serverAttrsForQuery_answer c Hc) as [Ha Hg].
      destruct (serverAttrsForQuery E c) as [[m|] c']; simpl in Ha; rewrite <- Ha; simpl; [|done].
      split; [done|]. destruct c' as [k|]; [|done]. simpl in Hg |- *.
      destruct Hg; split; simpl; auto; intros s' [= <-]; eauto. }
  intros c Hc. rewrite (proj1 (H c Hc)), (proj1 (H None I)). split; [done|]. by apply H.
Qed.

(** A query followed by a pure function is steady. *)
Lemma steady_map {A B} (f : UCache → A * UCache) (h : A → B) :
  steady f → steady (λ c, let '(a, c) := f c in (h a, c)).
Proof.
  intros Hf c Hc. pose proof (Hf c Hc) as [Ha Hg]. destruct (f c), (f None). simpl in *. by rewrite Ha.
Qed.

Lemma upstreamCandidates_steady spec : steady (upstreamCandidates E spec).
Proof. exact (steady_map _ (λ b, (λ m, sorted_items (select_servers E spec m)) <$> b) getServerAttrsByHostname_steady). Qed.

Lemma Prefetch_agreeing order c : agreeing c → agreeing (PrefetchUpstreamData E order c).
Proof.
  unfold PrefetchUpstreamData. revert c. induction order as [|p order IH]; intros c Hc; [done|]. simpl. apply IH.
  destruct p as [ssl|]; [by apply getAllReverseProxyBackendsBy_steady|by apply getAllMemcachedServers_steady].
Qed.

(** ** One variable *)

(** The port the listen addresses show, resolved from the variables [vars]. *)
Definition port_of (vars : Vars) : option (option Variable_) := refresh_port E vars !! "web.https.port".

Lemma resolveListenAddresses_port vars vars' :
  port_of vars = port_of vars' → (resolveListenAddresses E vars).1 = (resolveListenAddresses E vars').1.
Proof.
  intros Hp. unfold resolveListenAddresses. destruct (collectVirtualIPAddresses E); [done|]. simpl.
  unfold ExpandVariable. unfold port_of in Hp. by rewrite Hp.
Qed.

Lemma resolveListenAddresses_vars vars :
  (resolveListenAddresses E vars).2 = vars ∨ (resolveListenAddresses E vars).2 = refresh_port E vars.
Proof. unfold resolveListenAddresses. destruct (collectVirtualIPAddresses E); [by left|by right]. Qed.

(** The value a resolver gives on its own, without a cache. *)
Definition alone (vars : Vars) (r : ResolverId) : Val := (resolve E r {| g_cache := None; g_vars := vars |}).1.

Lemma on_cache_steady f g vars :
  steady f → agreeing (g_cache g) →
  (on_cache f g).1 = (on_cache f {| g_cache := None; g_vars := vars |}).1 ∧
  agreeing (g_cache (on_cache f g).2) ∧ g_vars (on_cache f g).2 = g_vars g.
Proof.
  intros Hf Hc. pose proof (Hf _ Hc) as [Ha Hg]. unfold on_cache. simpl.
  destruct (f (g_cache g)), (f None). simpl in *. by rewrite Ha.
Qed.

Lemma resolve_alone r g vars :
  agreeing (g_cache g) → port_of (g_vars g) = port_of vars →
  (resolve E r g).1 = alone vars r ∧ agreeing (g_cache (resolve E r g).2) ∧
  (g_vars (resolve E r g).2 = g_vars g ∨ g_vars (resolve E r g).2 = refresh_port E (g_vars g)).
Proof.
  intros Hc Hp. unfold alone.
  destruct r; try (by split_and!; [..|left]); cbn [resolve];
    try (match goal with |- context [on_cache ?f _] =>
      destruct (on_cache_steady f g vars) as (-> & ? & ->); [|done|by split_and!; [..|left]] end).
  - apply (steady_map _ _ getAllMemcachedServers_steady).
  - pose proof (resolveListenAddresses_port _ _ Hp) as Ha.
    pose proof (resolveListenAddresses_vars (g_vars g)) as Hv. simpl.
    destruct (resolveListenAddresses E (g_vars g)), (resolveListenAddresses E vars). simpl in *. by subst.
  - apply (steady_map (upstreamHasServers E spec)), (steady_map _ _ (upstreamCandidates_steady spec)).
  - apply (steady_map (upstream_servers E spec)), (steady_map _ _ (upstreamCandidates_steady spec)).
  - apply (steady_map _ _ (reverseProxyBackendsRaw_steady false)).
  - apply (steady_map _ _ (reverseProxyBackendsRaw_steady false)).
Qed.

(** ** All the variables *)
Section all.
Variable vars : Vars.

(** The value of a variable on its own; [None] when it cannot be converted. *)
Definition value_alone (v : Variable_) : option Val :=
  match v_CustomResolver v with Some r => Some (alone vars r) | None => lookup_configured E v end.

Definition resolved_var (v : Variable_) : Variable_ := from_option (λ val, set_value val v) v (value_alone v).

(** The variables, each with the value it gets on its own. *)
Definition resolved : Vars := fmap (M := option) resolved_var <$> vars.

Definition convertible (k : string) : bool :=
  match vars !! k with Some (Some v) => bool_decide (is_Some (value_alone v)) | _ => true end.

Abbreviation port := "web.https.port".

Hypothesis port_plain : ∀ p, vars !! port = Some (Some p) → v_CustomResolver p = None.

(** [todo] are the keys the loop has not met. *)
Definition progress_at (todo : list string) (m : Vars) (k : string) : Prop :=
  (k ∈ todo → m !! k = vars !! k ∨ (k = port ∧ m !! k = resolved !! k)) ∧ (k ∉ todo → m !! k = resolved !! k).

Definition progress_of (todo : list string) (m : Vars) : Prop := ∀ k, progress_at todo m k.

Lemma progress_either todo m k : progress_of todo m → m !! k = vars !! k ∨ m !! k = resolved !! k.
Proof. intros H. destruct (H k). destruct (decide (k ∈ todo)); naive_solver. Qed.

Lemma set_value_set_value a b v : set_value a (set_value b v) = set_value a v.
Proof. done. Qed.

Lemma lookup_configured_set_value val v : lookup_configured E (set_value val v) = lookup_configured E v.
Proof. done. Qed.

Lemma resolved_lookup k v : vars !! k = Some (Some v) → resolved !! k = Some (Some (resolved_var v)).
Proof. intros Hk. unfold resolved. by rewrite lookup_fmap, Hk. Qed.

(** A variable the loop meets is the declared one up to its value. *)
Lemma progress_var todo m k v :
  progress_of todo m → m !! k = Some (Some v) → ∃ v0, vars !! k = Some (Some v0) ∧ (v = v0 ∨ v = resolved_var v0).
Proof.
  intros H Hk. destruct (progress_either todo m k H) as [Hm|Hm]; rewrite Hk in Hm; [by exists v; eauto|].
  unfold resolved in Hm. rewrite lookup_fmap in Hm. destruct (vars !! k) as [[v0|]|]; simplify_eq/=. eauto.
Qed.

Lemma resolved_var_same v : v_CustomResolver (resolved_var v) = v_CustomResolver v ∧ lookup_configured E (resolved_var v) = lookup_configured E v.
Proof. unfold resolved_var. by destruct (value_alone v). Qed.

Lemma refresh_port_lookup todo m : progress_of todo m → refresh_port E m !! port = resolved !! port.
Proof.
  intros H. pose proof (progress_either _ _ port H) as Hr. unfold refresh_port.
  destruct (m !! port) as [[v|]|] eqn:Hm; [|rewrite Hm; destruct Hr as [Hr|Hr]; [|done]..].
  - destruct (progress_var _ _ _ _ H Hm) as (v0 & Hv0 & Hv). pose proof (port_plain _ Hv0) as Hp.
    rewrite (resolved_lookup _ _ Hv0).
    assert (lookup_configured E v = lookup_configured E v0) as -> by (destruct Hv as [->| ->]; [done|apply resolved_var_same]).
    unfold resolved_var, value_alone in Hv |- *. rewrite Hp in Hv |- *.
    destruct (lookup_configured E v0) as [val|]; simpl in *; [|rewrite Hm; by destruct Hv as [->| ->]].
    rewrite lookup_insert_eq. by destruct Hv as [->| ->].
  - unfold resolved. by rewrite lookup_fmap, <- Hr.
  - unfold resolved. by rewrite lookup_fmap, <- Hr.
Qed.

Lemma refresh_port_progress todo m : progress_of todo m → progress_of todo (refresh_port E m).
Proof.
  intros H k. destruct (decide (k = port)) as [->|Hk].
  - unfold progress_at. rewrite (refresh_port_lookup todo) by done. split; [by right|done].
  - assert (refresh_port E m !! k = m !! k) as He.
    { unfold refresh_port. destruct (m !! port) as [[v|]|]; [|done..].
      destruct (lookup_configured E v); [|done]. by rewrite lookup_insert_ne. }
    unfold progress_at. rewrite He. apply H.
Qed.

Lemma progress_start keys : (∀ k, is_Some (vars !! k) → k ∈ keys) → progress_of keys vars.
Proof.
  intros Hk k. split; [by left|]. intros Hn. unfold resolved. rewrite lookup_fmap.
  destruct (vars !! k) eqn:Hv; [|done]. exfalso. apply Hn, Hk. eauto.
Qed.

Lemma port_of_progress todo m : progress_of todo m → port_of m = port_of vars.
Proof.
  intros H. unfold port_of. rewrite (refresh_port_lookup todo m H).
  symmetry. apply (refresh_port_lookup (elements (dom vars))), progress_start.
  intros k Hk. by apply elem_of_elements, elem_of_dom.
Qed.

(** The value found for the next variable, and what the loop leaves. *)
Lemma LookupValue_alone todo v v0 k g :
  progress_of todo (g_vars g) → agreeing (g_cache g) → vars !! k = Some (Some v0) → (v = v0 ∨ v = resolved_var v0) →
  (LookupValue E v g).1 = value_alone v0 ∧ agreeing (g_cache (LookupValue E v g).2) ∧
  progress_of todo (g_vars (LookupValue E v g).2).
Proof.
  intros H Hc Hv0 Hv. unfold LookupValue, value_alone.
  destruct (resolved_var_same v0) as [Hr Hl].
  assert (v_CustomResolver v = v_CustomResolver v0) as -> by (by destruct Hv as [->| ->]).
  assert (lookup_configured E v = lookup_configured E v0) as -> by (by destruct Hv as [->| ->]).
  destruct (v_CustomResolver v0) as [r|]; [|done].
  destruct (resolve_alone r g vars Hc (port_of_progress _ _ H)) as (Ha & Hg & Hm).
  destruct (resolve E r g) as [val g']. simpl in *. subst val. split_and!; [done..|].
  destruct Hm as [->| ->]; [done|]. by apply refresh_port_progress.
Qed.

Lemma progress_step k keys m v0 val :
  k ∉ keys → vars !! k = Some (Some v0) → value_alone v0 = Some val → progress_of (k :: keys) m →
  progress_of keys (alter (λ v, set_value val <$> v) k m).
Proof.
  intros Hk Hv0 Hval H k'. unfold progress_at. destruct (decide (k' = k)) as [->|Hne].
  - rewrite lookup_alter_eq. split; [done|]. intros _. rewrite (resolved_lookup _ _ Hv0).
    unfold resolved_var. rewrite Hval. simpl.
    destruct (progress_either _ _ k H) as [->| ->]; [by rewrite Hv0|].
    rewrite (resolved_lookup _ _ Hv0). simpl. unfold resolved_var. by rewrite Hval.
  - rewrite lookup_alter_ne by done. destruct (H k') as [Hin Hout].
    split; intros Hk'; [apply Hin; by right|]. apply Hout. rewrite elem_of_cons. naive_solver.
Qed.

Lemma progress_skip k keys m :
  (∀ v, vars !! k ≠ Some (Some v)) → progress_of (k :: keys) m → progress_of keys m.
Proof.
  intros Hk H k'. destruct (H k') as [Hin Hout]. split; intros Hk'; [apply Hin; by right|].
  destruct (decide (k' = k)) as [->|Hne]; [|apply Hout; rewrite elem_of_cons; naive_solver].
  destruct (progress_either _ _ k H) as [->|]; [|done].
  unfold resolved. rewrite lookup_fmap. destruct (vars !! k) as [[v|]|] eqn:Hv; [|done..]. by destruct (Hk v).
Qed.

Lemma ResolveAllVariables_loop keys g :
  NoDup keys → agreeing (g_cache g) → progress_of keys (g_vars g) →
  (ResolveAllVariables E keys g).1 = forallb convertible keys ∧
  ((ResolveAllVariables E keys g).1 = true → g_vars (ResolveAllVariables E keys g).2 = resolved).
Proof.
  revert g. induction keys as [|k keys IH]; intros g Hnd Hc H.
  { split; [done|]. intros _. apply map_eq. intros k. apply H. by apply not_elem_of_nil. }
  apply NoDup_cons in Hnd as [Hk Hnd]. cbn [ResolveAllVariables forallb].
  destruct (g_vars g !! k) as [[v|]|] eqn:Hgk.
  { destruct (progress_var _ _ _ _ H Hgk) as (v0 & Hv0 & Hv).
    destruct (LookupValue_alone _ _ _ _ _ H Hc Hv0 Hv) as (Ha & Hg & Hm). unfold convertible at 1. rewrite Hv0.
    destruct (LookupValue E v g) as [[val|] g']; simpl in *; rewrite <- Ha; [|done].
    rewrite bool_decide_eq_true_2 by eauto. simpl. apply IH; [done..|]. simpl.
    by apply (progress_step k keys _ v0). }
  all: assert (Hno : ∀ v, vars !! k ≠ Some (Some v))
    by (intros v Hv; destruct (progress_either _ _ k H) as [Hr|Hr]; rewrite Hgk in Hr; [congruence|];
        rewrite (resolved_lookup _ _ Hv) in Hr; congruence).
  all: assert (convertible k = true) as ->
    by (unfold convertible; destruct (vars !! k) as [[v|]|] eqn:Hv; [by destruct (Hno v)|done..]).
  all: apply IH; [done..|]; by apply (progress_skip k).
Qed.
End all.
End resolution.

(** ** The generator *)
Lemma registered_port_plain E p : RegisterVariables E !! "web.https.port" = Some (Some p) → v_CustomResolver p = None.
Proof. vm_compute. intros [= <-]. done. Qed.

(** The variables of a generator: each declared variable with the value it gets on its
    own, or the error when one of them cannot be converted. *)
Definition declared_values (E : Env) : option Vars :=
  let vars := RegisterVariables E in
  if forallb (convertible E vars) (sorted_keys vars) then Some (resolved E vars) else None.

Lemma forallb_perm {A} (f : A → bool) l l' : l ≡ₚ l' → forallb f l = forallb f l'.
Proof. induction 1; simpl; try congruence. by destruct (f x), (f y). Qed.

Lemma ResolveAllVariables_values E vars order keys :
  (∀ p, vars !! "web.https.port" = Some (Some p) → v_CustomResolver p = None) → keys ≡ₚ sorted_keys vars →
  g_vars <$> (match ResolveAllVariables E keys {| g_cache := PrefetchUpstreamData E order (Some empty_cache); g_vars := vars |} with
              | (true, g) => Some g
              | (false, _) => None
              end) =
  if forallb (convertible E vars) (sorted_keys vars) then Some (resolved E vars) else None.
Proof.
  intros Hport Hp.
  destruct (ResolveAllVariables_loop E vars Hport keys
    {| g_cache := PrefetchUpstreamData E order (Some empty_cache); g_vars := vars |}) as [Hb Hv].
  - rewrite Hp. apply NoDup_sorted_keys.
  - apply Prefetch_agreeing. by split.
  - apply progress_start. intros k Hk. rewrite Hp. by apply elem_of_sorted_keys.
  - rewrite (forallb_perm _ _ _ Hp) in Hb. rewrite <- Hb.
    destruct (ResolveAllVariables E keys _) as [[] g]; simpl in *; [|done]. by rewrite Hv.
Qed.

Lemma NewGenerator_values E order keys :
  keys ≡ₚ sorted_keys (RegisterVariables E) → g_vars <$> NewGenerator E order keys = declared_values E.
Proof. apply ResolveAllVariables_values, registered_port_plain. Qed.

Lemma NewGenerator_resolved E order keys g :
  keys ≡ₚ sorted_keys (RegisterVariables E) → NewGenerator E order keys = Some g →
  g_vars g = resolved E (RegisterVariables E).
Proof.
  intros Hp Hg. pose proof (NewGenerator_values E order keys Hp) as Hv. rewrite Hg in Hv. revert Hv.
  unfold declared_values. generalize (RegisterVariables E). intros vars. simpl.
  destruct (forallb _ _); [|done]. by intros [= ->].
Qed.

(** ** Upstream blocks

    A block of a template is commented out by its [*.upstream.disable] variable and
    filled by a [:servers] variable. *)
Definition upstream_blocks : list (string * string) :=
  [("web.login.upstream.disable", "web.upstream.loginserver.:servers");
   ("web.ews.upstream.disable", "web.upstream.ewsserver.:servers");
   ("web.zx.upstream.disable", "web.upstream.zx.:servers");
   ("web.webclient.upstream.disable", "web.upstream.webclient.:servers");
   ("web.admin.upstream.disable", "web.admin.upstream.:servers")].

(** The resolver of a variable that is shown as its resolver gives it. *)
Definition shown_resolver (vars : Vars) (k : string) : option ResolverId :=
  match vars !! k with
  | Some (Some v) =>
      match v_ConfigText v, v_CustomFormatter v, v_ValueType v with
      | None, None, ValueTypeCustom => v_CustomResolver v
      | _, _, _ => None
      end
  | _ => None
  end.

Lemma expand_shown E vars k r :
  shown_resolver vars k = Some r → ExpandVariable (resolved E vars) k = Some (formatValue (alone E vars r)).
Proof.
  unfold shown_resolver, ExpandVariable, resolved. rewrite lookup_fmap.
  destruct (vars !! k) as [[v|]|]; [|done..]. simpl. intros Hr.
  unfold resolved_var, value_alone, format_variable.
  destruct v as [a vt ot dv val [] [] []]; simpl in *; try done; by destruct vt; simplify_eq/=.
Qed.

Lemma formatServersVar_empty l : String.eqb (formatServersVar l) "" = bool_decide (l = []).
Proof. destruct l as [|d l]; [done|]. unfold formatServersVar. cbn [foldr]. by rewrite string_app_cons. Qed.

(** The directives of a block, both variables of which come from them. *)
Lemma disable_servers E vars spec :
  ∃ text, alone E vars (UpstreamServers spec) = VString text ∧
          alone E vars (UpstreamDisable spec) = VString (if String.eqb text "" then "#" else "").
Proof.
  unfold alone. cbn [resolve]. unfold on_cache, disableForUpstream, upstreamHasServers, upstream_servers. simpl.
  destruct (upstreamCandidates E spec None) as [[l|] c]; simpl; [|eauto].
  eexists. split; [done|]. rewrite formatServersVar_empty.
  by destruct (upstreamDirectives E spec l) as [|x l'].
Qed.


(** A small installation: a mailbox server that is also the login server. *)
Definition sample_server : Attrs :=
  {[ "zimbraServiceHostname" := "mbs.example.com"; "zimbraServiceEnabled" := "mailbox";
     "zimbraReverseProxyLookupTarget" := "TRUE"; "zimbraMailMode" := "both"; "zimbraMailPort" := "8080" ]}.

Definition sample_env : Env :=
  {| e_Local := Some ∅;
     e_Global := Some {[ "zimbraReverseProxyUpstreamLoginServers" := "mbs.example.com" ]};
     e_Server := Some {[ "zimbraMailSSLProxyPort" := "443" ]};
     e_WorkingDir := "/opt/zextras"; e_ConfDir := "/opt/zextras/conf"; e_IncludesDir := "/opt/zextras/conf/nginx/includes";
     e_ConfPrefix := "nginx.conf"; e_TemplatePrefix := "nginx.conf"; e_ldap := true;
     e_servers := Some [("mbs.example.com", sample_server)]; e_domains := Some []; e_service_servers := λ _, Some [];
     e_stat_size := λ _, None; e_lookup_ip := λ _, None; e_buildProps := None; e_frac := λ _ _, 0 |}.



Definition sample_keys : list string := sorted_keys (RegisterVariables sample_env).

