(* ===== verification/ProxyGen.v ===== *)
(** * ProxyGen: generating the nginx configuration

    Models internal/proxy/generator.go, domaincerts.go, clientca.go and certbot.go: the
    discovery of the templates, the deployment of the certificates of the domains, and
    the rendering of every template into its file.  The state is the files, the
    variables, the runs of certbot, and the directory's answers, which the deployment
    itself changes; every access to the host takes the next fault of the course of
    events.  [WriteFileAtomic] is one step here: its own steps, and that no reader sees
    a part of the file, are the subject of [Files].  Log lines are left out. *)
From stdpp Require Import pretty.
From S2P Require Import Prelude Config Tmpl NetIP Proxy ProxyUpstream ProxyResolvers ProxyExplode.
Open Scope Z_scope.

Record PFile := { pf_data : string; pf_mode : Z }.

(** [Late n]: the access took effect, an append for [n] bytes only, and failed. *)
Inductive PFault := Fine | Fails | Late (n : nat).

Record PHost := {
  ph_files : gmap string PFile;
  ph_vars : Vars;
  ph_env : Env;
  ph_certbot : list (list string);
  ph_faults : list PFault
}.

Definition with_files (f : gmap string PFile → gmap string PFile) (h : PHost) : PHost :=
  {| ph_files := f (ph_files h); ph_vars := ph_vars h; ph_env := ph_env h; ph_certbot := ph_certbot h; ph_faults := ph_faults h |}.
Definition with_vars (f : Vars → Vars) (h : PHost) : PHost :=
  {| ph_files := ph_files h; ph_vars := f (ph_vars h); ph_env := ph_env h; ph_certbot := ph_certbot h; ph_faults := ph_faults h |}.
Definition with_env (f : Env → Env) (h : PHost) : PHost :=
  {| ph_files := ph_files h; ph_vars := ph_vars h; ph_env := f (ph_env h); ph_certbot := ph_certbot h; ph_faults := ph_faults h |}.

(** ** The state monad with errors *)
Definition GM (A : Type) : Type := PHost → (string + A) * PHost.

#[export] Instance GM_ret : MRet GM := λ A a h, (inr a, h).
#[export] Instance GM_bind : MBind GM := λ A B f m h,
  match m h with (inr a, h) => f a h | (inl e, h) => (inl e, h) end.

Definition throw {A} (e : string) : GM A := λ h, (inl e, h).
Definition asks {A} (f : PHost → A) : GM A := λ h, (inr (f h), h).
Definition modify (f : PHost → PHost) : GM unit := λ h, (inr tt, f h).

(** The error of a step, with the text the caller puts before it. *)
Definition in_context {A} (prefix : string) (m : GM A) : GM A := λ h,
  match m h with (inl e, h) => (inl (prefix +:+ e), h) | r => r end.

(** A loop that stops at the first error. *)
Fixpoint for_each {A} (f : A → GM unit) (l : list A) : GM unit :=
  match l with [] => mret tt | x :: l => _ ← f x; for_each f l end.

(** ** The host *)
Definition next_fault : GM PFault := λ h,
  (inr (default Fine (head (ph_faults h))),
   {| ph_files := ph_files h; ph_vars := ph_vars h; ph_env := ph_env h; ph_certbot := ph_certbot h; ph_faults := tail (ph_faults h) |}).

Definition generatedFileMode : Z := 416.
Definition domainCertFileMode : Z := 416.

Section host.
(** The texts of the errors of the operating system. *)
Variable os_error : string → string → string.

Definition ReadFile (path : string) : GM (option PFile) :=
  fault ← next_fault;
  match fault with Fine => asks (λ h, ph_files h !! path) | _ => mret None end.

Definition WriteFileAtomic (path data : string) (mode : Z) : GM unit :=
  fault ← next_fault;
  let put := modify (with_files (insert path {| pf_data := data; pf_mode := mode |})) in
  match fault with
  | Fine => put
  | Fails => throw (os_error "write" path)
  | Late _ => _ ← put; throw (os_error "write" path)
  end.

Definition MkdirAll (dir : string) : GM unit :=
  fault ← next_fault;
  match fault with Fine => mret tt | _ => throw (os_error "mkdir" dir) end.

(** The error of a removal is logged only. *)
Definition Remove (path : string) : GM unit :=
  fault ← next_fault;
  match fault with Fails => mret tt | _ => modify (with_files (delete path)) end.

(** An append to a file that must exist; its errors are logged only. *)
Definition Append (path text : string) : GM unit :=
  fault ← next_fault;
  let add t := modify (with_files (alter (λ f, {| pf_data := pf_data f +:+ t; pf_mode := pf_mode f |}) path)) in
  match fault with
  | Fine => add text
  | Fails => mret tt
  | Late n => add (take_string n text)
  end.

(** ** Paths *)
Definition slash : ascii := ascii_of_nat 47.

(** [filepath.Base] of a path that does not end in a slash. *)
Definition Base (path : string) : string := String.rev (span (λ c, negb (eqc slash c)) (String.rev path)).1.

Definition IsAbs (path : string) : bool := HasPrefix path "/".

(** ** The settings of a run *)
(** What a walk over a directory meets: its files in order, or an error. *)
Inductive Walk := WalkMissing | WalkFails | WalkFiles (l : list string).

Variables (walk : string → Walk) (TemplateDir : string).
Variables (DryRun ForceDNSResolution : bool).
(** The subdirectories of certbot's live directory and the names that resolve. *)
Variables (certbotDomainDirs : list string) (LookupHost : string → bool).
Variable tp : TemplateProcessor.

(** ** Discovering the templates (generator.go) *)
Definition discoverTemplatesInDir (dir : string) : string + list string :=
  match walk dir with
  | WalkMissing => inr []
  | WalkFails => inl (os_error "walk" dir)
  | WalkFiles l => inr (filter (λ path, HasSuffix path ".template" = true) l)
  end.

(** Templates by their name, the later path winning. *)
Definition by_base (m : gmap string string) (paths : list string) : gmap string string :=
  foldl (λ m path, <[Base path := path]> m) m paths.

Definition DiscoverTemplates (E : Env) : string + list string :=
  match discoverTemplatesInDir TemplateDir with
  | inl e => inl ("failed to discover standard templates: " +:+ e)
  | inr standardTemplates =>
      let customFiles := match discoverTemplatesInDir (e_ConfDir E +:+ "/nginx/templates_custom") with inr l => l | inl _ => [] end in
      inr (sort_by_key (λ s, s) (map_to_list (by_base (by_base ∅ standardTemplates) customFiles)).*2)
  end.

(** ** Certificates of the domains (domaincerts.go) *)
Definition writeIfChanged (path content : string) : GM unit :=
  existing ← ReadFile path;
  unchanged ← match existing with
              | Some f =>
                  if String.eqb (pf_data f) content
                  then info ← ReadFile path;
                       mret (match info with Some f => pf_mode f =? domainCertFileMode | None => false end)
                  else mret false
              | None => mret false
              end;
  if (unchanged : bool) then mret tt
  else in_context ("write " +:+ path +:+ ": ") (WriteFileAtomic path content domainCertFileMode).

Definition deployDomainCert (d : DomainInfo) : GM unit :=
  if String.eqb (d_SSLCertificate d) "" || String.eqb (d_SSLPrivateKey d) "" then mret tt
  else
    E ← asks ph_env;
    _ ← in_context ("unable to write certificate for domain " +:+ d_Name d +:+ ": ")
          (writeIfChanged (domainCertFilePath E (d_Name d) ".crt") (d_SSLCertificate d));
    in_context ("unable to write private key for domain " +:+ d_Name d +:+ ": ")
      (writeIfChanged (domainCertFilePath E (d_Name d) ".key") (d_SSLPrivateKey d)).

Definition deployDomainCerts (domains : list DomainInfo) : GM unit :=
  if DryRun then mret tt
  else
    E ← asks ph_env;
    _ ← in_context ("unable to create folder " +:+ domainCertsDir E +:+ ": ") (MkdirAll (domainCertsDir E));
    for_each deployDomainCert domains.

Definition domainsOwnFile (fileName : string) (domains : list DomainInfo) : bool :=
  existsb (λ d, Contains fileName (d_Name d)) domains.

(** The names of the files directly in a directory. *)
Definition dir_files (dir : string) (files : gmap string PFile) : list string :=
  sort_by_key (λ s, s)
    (omap (λ kv : string * PFile,
             match CutPrefix kv.1 (dir +:+ "/") with
             | (name, true) => if non_empty name && chars (λ c, negb (eqc slash c)) name then Some name else None
             | (_, false) => None
             end) (map_to_list files)).

(** A directory that cannot be read has no obsolete files. *)
Definition obsoleteDomainCertFiles (dir : string) (domains : list DomainInfo) : GM (list string) :=
  fault ← next_fault;
  match fault with
  | Fine =>
      asks (λ h, (λ name, dir +:+ "/" +:+ name) <$>
                   filter (λ name, domainsOwnFile name domains = false) (dir_files dir (ph_files h)))
  | _ => mret []
  end.

Definition removeObsoleteDomainCerts (domains : list DomainInfo) : GM unit :=
  E ← asks ph_env;
  paths ← obsoleteDomainCertFiles (domainCertsDir E) domains;
  if DryRun then mret tt else for_each Remove paths.

(** ** certbot.go *)
Definition certbotLiveDir (E : Env) : string := e_WorkingDir E +:+ "/common/certbot/etc/letsencrypt/live".
Definition certbotBinary (E : Env) : string := e_WorkingDir E +:+ "/libexec/certbot".

(** What certbot itself removes is not modelled; the run is recorded. *)
Definition deleteCertbotConfigs (domains : list DomainInfo) : GM unit :=
  E ← asks ph_env;
  let dirs := if String.eqb (e_WorkingDir E) "" then [] else certbotDomainDirs in
  let kept := filter (λ name, (negb (domainsOwnFile name domains) && negb (HasPrefix name "-")) = true) dirs in
  match kept with
  | [] => mret tt
  | _ =>
      if DryRun then mret tt
      else modify (λ h, {| ph_files := ph_files h; ph_vars := ph_vars h; ph_env := ph_env h;
                           ph_certbot := ph_certbot h ++ [certbotBinary E :: "delete" :: kept]; ph_faults := ph_faults h |})
  end.

Definition set_pair (cert key : string) (d : DomainInfo) : DomainInfo :=
  {| d_Name := d_Name d; d_VirtualHostname := d_VirtualHostname d; d_VirtualIPAddress := d_VirtualIPAddress d;
     d_ClientCertMode := d_ClientCertMode d; d_ClientCertCA := d_ClientCertCA d;
     d_SSLCertificate := cert; d_SSLPrivateKey := key |}.

(** The directory keeps what is written: later queries give the pair for the domain. *)
Definition store_pair (name cert key : string) (E : Env) : Env :=
  {| e_Local := e_Local E; e_Global := e_Global E; e_Server := e_Server E; e_WorkingDir := e_WorkingDir E;
     e_ConfDir := e_ConfDir E; e_IncludesDir := e_IncludesDir E; e_ConfPrefix := e_ConfPrefix E;
     e_TemplatePrefix := e_TemplatePrefix E; e_ldap := e_ldap E; e_servers := e_servers E;
     e_domains := map (λ d, if String.eqb (d_Name d) name then set_pair cert key d else d) <$> e_domains E;
     e_service_servers := e_service_servers E; e_stat_size := e_stat_size E; e_lookup_ip := e_lookup_ip E;
     e_buildProps := e_buildProps E; e_frac := e_frac E |}.

Definition SetDomainSSLCertKey (name cert key : string) : GM unit :=
  fault ← next_fault;
  match fault with
  | Fine => modify (with_env (store_pair name cert key))
  | Fails => throw "directory"
  | Late _ => _ ← modify (with_env (store_pair name cert key)); throw "directory"
  end.

Definition writeDomainPairToLDAP (name cert key : string) : GM unit :=
  E ← asks ph_env;
  in_context ("unable to update certificate and private key for domain " +:+ name +:+ ": ")
    (if e_ldap E then SetDomainSSLCertKey name cert key else throw "LDAP client not initialized").

(** Both files are read, whatever the first read gives. *)
Definition readCertbotPair (domainName : string) : GM (option (string * string)) :=
  E ← asks ph_env;
  if existsb (String.eqb domainName) certbotDomainDirs then
    let dir := certbotLiveDir E +:+ "/" +:+ domainName in
    cert ← ReadFile (dir +:+ "/fullchain.pem");
    key ← ReadFile (dir +:+ "/privkey.pem");
    mret (c ← cert; k ← key; Some (pf_data c, pf_data k))
  else mret None.

(** The loop over the domains; [saved] are the names met so far. *)
Fixpoint save_pairs (saved : list string) (domains : list DomainInfo) : GM (list DomainInfo) :=
  match domains with
  | [] => mret []
  | d :: domains =>
      pair ← readCertbotPair (d_Name d);
      match pair with
      | None => rest ← save_pairs saved domains; mret (d :: rest)
      | Some (cert, key) =>
          _ ← (if negb (existsb (String.eqb (d_Name d)) saved) &&
                  negb (String.eqb (d_SSLCertificate d) cert && String.eqb (d_SSLPrivateKey d) key)
               then writeDomainPairToLDAP (d_Name d) cert key else mret tt);
          rest ← save_pairs (d_Name d :: saved) domains;
          mret (set_pair cert key d :: rest)
      end
  end.

Definition saveCertbotPairsToLDAP (domains : list DomainInfo) : GM (list DomainInfo) :=
  E ← asks ph_env;
  if DryRun || String.eqb (e_WorkingDir E) "" then mret domains else save_pairs [] domains.

(** ** clientca.go *)
Definition add_ca (cas : list string) (ca : string) : list string :=
  if String.eqb (TrimSpace ca) "" || existsb (String.eqb ca) cas then cas else cas ++ [ca].

Definition loadAllClientCertCA (E : Env) (domains : list DomainInfo) : string :=
  Join (foldl add_ca [] (option_list (getConfigValue E "zimbraReverseProxyClientCertCA" server_global) ++ (d_ClientCertCA <$> domains))) nl.

Definition clientCertVerifyEnabled (E : Env) (domains : list DomainInfo) : bool :=
  clientCertVerifies (default "off" (getConfigValue E "zimbraReverseProxyClientCertMode" server_global)) ||
  existsb (λ d, clientCertVerifies (d_ClientCertMode d)) domains.

Definition setClientCAEnabled (enabled : bool) : GM unit :=
  modify (with_vars (alter (λ v, set_value (VBool enabled) <$> v) "ssl.clientcertca.enabled")).

Definition errClientCAMissing : string := "client certificate verification is enabled but no client cert ca is provided".

Definition syncClientCA (domains : list DomainInfo) : GM unit :=
  E ← asks ph_env;
  let clientCA := loadAllClientCertCA E domains in
  if String.eqb clientCA "" then
    _ ← setClientCAEnabled false;
    if clientCertVerifyEnabled E domains then throw errClientCAMissing else mret tt
  else
    _ ← setClientCAEnabled true;
    if DryRun then mret tt else writeIfChanged (clientCertCAPath E) clientCA.

(** ** The certificate pipeline (domaincerts.go) *)
Definition syncDomainCerts : GM unit :=
  E ← asks ph_env;
  match loadDomains E tp with
  | inl errNoDomainSource => mret tt
  | inl errDomainQuery => throw "failed to load domains: directory"
  | inr domains =>
      _ ← deleteCertbotConfigs domains;
      domains ← saveCertbotPairsToLDAP domains;
      _ ← deployDomainCerts domains;
      _ ← syncClientCA domains;
      removeObsoleteDomainCerts domains
  end.

(** ** Rendering (generator.go, template.go) *)
Definition template_path (name : string) : string := if IsAbs name then name else TemplateDir +:+ "/" +:+ name.

Definition LoadTemplate (name : string) : GM (list string) :=
  content ← ReadFile (template_path name);
  match content with
  | None => throw ("failed to read template file " +:+ name +:+ " from " +:+ template_path name +:+ ": " +:+
                   os_error "read" (template_path name))
  | Some f => mret (SplitLines (pf_data f))
  end.

Definition outputPath (E : Env) (outputName : string) : string :=
  (if String.eqb outputName (confPrefix E) then e_ConfDir E else e_IncludesDir E) +:+ "/" +:+ outputName.

Definition outputName (E : Env) (templateName : string) : option string := OutputName templateName (templatePrefix E) (confPrefix E).

Definition writeFile (path content : string) : GM unit :=
  if DryRun then mret tt
  else in_context ("failed to write file " +:+ path +:+ ": ") (WriteFileAtomic path content generatedFileMode).

(** [ProcessTemplate] on the variables of the state. *)
Definition process_template (lines : list string) : GM string := λ h,
  let '(out, vars) := ProcessTemplate (ph_env h) tp lines (ph_vars h) in (out, with_vars (λ _, vars) h).

Definition ProcessTemplateWithProcessor (templatePath outputName : string) : GM unit :=
  lines ← in_context ("failed to load template " +:+ templatePath +:+ ": ") (LoadTemplate templatePath);
  result ← in_context ("failed to process template " +:+ templatePath +:+ ": ") (process_template lines);
  E ← asks ph_env;
  in_context ("failed to write output " +:+ outputPath E outputName +:+ ": ") (writeFile (outputPath E outputName) result).

Record templateRunResult := { tr_success : nat; tr_failed : nat; tr_firstErr : option string }.

(** A template that fails does not stop the others. *)
Fixpoint processTemplates (templates : list string) (res : templateRunResult) (h : PHost) : templateRunResult * PHost :=
  match templates with
  | [] => (res, h)
  | templatePath :: templates =>
      match outputName (ph_env h) (Base templatePath) with
      | None => processTemplates templates res h
      | Some name =>
          match ProcessTemplateWithProcessor templatePath name h with
          | (inl e, h) =>
              processTemplates templates
                {| tr_success := tr_success res; tr_failed := S (tr_failed res); tr_firstErr := Some (default e (tr_firstErr res)) |} h
          | (inr _, h) =>
              processTemplates templates
                {| tr_success := S (tr_success res); tr_failed := tr_failed res; tr_firstErr := tr_firstErr res |} h
          end
      end
  end.

Definition no_result : templateRunResult := {| tr_success := 0; tr_failed := 0; tr_firstErr := None |}.

Definition appendConfGenResult (text : string) : GM unit :=
  if DryRun then mret tt
  else E ← asks ph_env; Append (e_ConfDir E +:+ "/" +:+ confPrefix E) (nl +:+ "#" +:+ text +:+ nl).

Definition confGenSuccessMarker : string := "__SUCCESS__".
Definition confGenErrorMarker : string := "__CONF_GEN_ERROR__:".

Definition ensureIncludesDir : GM unit :=
  E ← asks ph_env; in_context "failed to create directory: " (MkdirAll (e_IncludesDir E)).

Definition checkVirtualHostname (d : DomainInfo) : GM unit :=
  if String.eqb (d_VirtualHostname d) "" then mret tt
  else
    let host := if non_empty (d_VirtualIPAddress d) then d_VirtualIPAddress d else d_VirtualHostname d in
    if LookupHost host then mret tt
    else throw ("virtual host name " +:+ dquote +:+ d_VirtualHostname d +:+ dquote +:+ " is not resolvable: " +:+ os_error "lookup" host).

Definition checkVirtualHostnames : GM unit :=
  E ← asks ph_env; for_each checkVirtualHostname (getDomains E tp).

Definition GenerateAll : GM unit :=
  E ← asks ph_env;
  match DiscoverTemplates E with
  | inl e => throw ("failed to discover templates: " +:+ e)
  | inr [] => throw ("no templates found in " +:+ TemplateDir)
  | inr templates =>
      _ ← (if DryRun then mret tt else in_context "failed to create includes directory: " ensureIncludesDir);
      _ ← in_context "failed to sync domain certificates: " syncDomainCerts;
      _ ← (if ForceDNSResolution then checkVirtualHostnames else mret tt);
      res ← (λ h, let '(res, h) := processTemplates templates no_result h in (inr res, h)) : GM templateRunResult;
      match tr_failed res with
      | O => appendConfGenResult confGenSuccessMarker
      | S _ =>
          _ ← appendConfGenResult (confGenErrorMarker +:+ default "" (tr_firstErr res));
          throw ("failed to process " +:+ pretty (tr_failed res) +:+ " templates")
      end
  end.
End host.
