(* ===== verification/ProxyCertProps.v ===== *)
(** * ProxyCertProps: the certificates the configuration refers to are deployed

    When no access to the host fails: every template is rendered into its file from the
    same variables ([processTemplates_loop]); the pairs certbot renewed are stored in
    the directory, so that the domains rendered afterwards are those whose files were
    written, and the removal of obsolete files spares them. *)
From stdpp Require Import pretty.
From S2P Require Import Prelude Config Tmpl NetIP Proxy ProxyUpstream ProxyResolvers ProxyRegister ProxyExplode ProxyGen.
Open Scope Z_scope.

(** ** Accesses that do not fail *)
Lemma next_fault_none h : ph_faults h = [] → next_fault h = (inr Fine, h).
Proof. destruct h. simpl. by intros ->. Qed.

Lemma ReadFile_fine path h : ph_faults h = [] → ReadFile path h = (inr (ph_files h !! path), h).
Proof. intros Hf. unfold ReadFile, mbind, GM_bind. by rewrite next_fault_none. Qed.

Section host.
Variable os_error : string → string → string.

Lemma WriteFileAtomic_fine path data mode h :
  ph_faults h = [] →
  WriteFileAtomic os_error path data mode h = (inr tt, with_files (insert path {| pf_data := data; pf_mode := mode |}) h).
Proof. intros Hf. unfold WriteFileAtomic, mbind, GM_bind. by rewrite next_fault_none. Qed.

(** ** Rendering *)
Variables (TemplateDir : string) (tp : TemplateProcessor).

(** What the file of a template renders to, [None] when it is missing or its explode
    directive is malformed. *)
Definition template_text (h : PHost) (t : string) : option string :=
  f ← ph_files h !! template_path TemplateDir t;
  match rendering (ph_env h) tp (SplitLines (pf_data f)) (ph_vars h) with inr text => Some text | inl _ => None end.

Definition generated (text : string) : PFile := {| pf_data := text; pf_mode := generatedFileMode |}.

Lemma ProcessTemplateWithProcessor_fine t name h :
  ph_faults h = [] → clean (ph_vars h) →
  match template_text h t with
  | Some text =>
      ProcessTemplateWithProcessor os_error TemplateDir false tp t name h =
        (inr tt, with_files (insert (outputPath (ph_env h) name) (generated text)) h)
  | None => ∃ e, ProcessTemplateWithProcessor os_error TemplateDir false tp t name h = (inl e, h)
  end.
Proof.
  intros Hf Hc. unfold template_text, ProcessTemplateWithProcessor, mbind, GM_bind, in_context, LoadTemplate, mbind.
  unfold GM_bind. rewrite ReadFile_fine by done. simpl. destruct (ph_files h !! template_path TemplateDir t) as [f|]; simpl; [|eauto].
  unfold mret, GM_ret, process_template. rewrite ProcessTemplate_rendering by done. simpl.
  assert (with_vars (λ _, ph_vars h) h = h) as -> by (by destruct h).
  destruct (rendering _ _ _ _) as [e|text]; simpl; [eauto|]. unfold writeFile, in_context.
  by rewrite WriteFileAtomic_fine.
Qed.

(** The file of a template, [None] when the template is not generated. *)
Definition output_of (E : Env) (t : string) : option string := outputPath E <$> outputName E (Base t).

(** The templates that fail. *)
Definition fails (h : PHost) (t : string) : bool :=
  match output_of (ph_env h) t, template_text h t with Some _, None => true | _, _ => false end.

Definition failing (h : PHost) (templates : list string) : nat := length (List.filter (fails h) templates).

(** No two templates have the same output, and no output is a template. *)
Definition separate (E : Env) (templates : list string) : Prop :=
  NoDup (omap (output_of E) templates) ∧
  (∀ t p, t ∈ templates → p ∈ omap (output_of E) templates → template_path TemplateDir t ≠ p).

Lemma template_text_insert h t p f :
  template_path TemplateDir t ≠ p → template_text (with_files (insert p f) h) t = template_text h t.
Proof. intros Hp. unfold template_text. simpl. by rewrite lookup_insert_ne. Qed.

Lemma failing_insert h p f templates :
  (∀ t, t ∈ templates → template_path TemplateDir t ≠ p) →
  failing (with_files (insert p f) h) templates = failing h templates.
Proof.
  intros Hp. unfold failing. f_equal. apply List.filter_ext_in. intros t Ht%list_elem_of_In.
  unfold fails. rewrite template_text_insert by (by apply Hp). done.
Qed.

Lemma separate_cons E t templates : separate E (t :: templates) → separate E templates.
Proof.
  intros [Hnd Hs]. simpl in Hnd. split.
  - destruct (output_of E t); [by apply NoDup_cons in Hnd as [_ ?]|done].
  - intros t' p Ht' Hp. apply Hs; [by right|]. simpl. destruct (output_of E t); [by right|done].
Qed.

Lemma separate_head E t p templates :
  separate E (t :: templates) → output_of E t = Some p →
  (p ∉ omap (output_of E) templates) ∧ (∀ t', t' ∈ templates → template_path TemplateDir t' ≠ p).
Proof.
  intros [Hnd Hs] Hp. simpl in Hnd, Hs. rewrite Hp in Hnd, Hs. apply NoDup_cons in Hnd as [Hni _].
  split; [done|]. intros t' Ht'. apply Hs; [by right|by left].
Qed.

(** What the loop over the templates leaves. *)
Record rendered (h : PHost) (templates : list string) (failed : nat) (h' : PHost) : Prop := {
  rd_vars : ph_vars h' = ph_vars h;
  rd_env : ph_env h' = ph_env h;
  rd_faults : ph_faults h' = ph_faults h;
  rd_outputs t p : t ∈ templates → output_of (ph_env h) t = Some p →
    ph_files h' !! p = from_option (λ text, Some (generated text)) (ph_files h !! p) (template_text h t);
  rd_others p : p ∉ omap (output_of (ph_env h)) templates → ph_files h' !! p = ph_files h !! p;
  rd_failed : failed = failing h templates
}.

Lemma processTemplates_loop templates res h :
  ph_faults h = [] → clean (ph_vars h) → separate (ph_env h) templates →
  ∃ n, tr_failed (processTemplates os_error TemplateDir false tp templates res h).1 = (tr_failed res + n)%nat ∧
       rendered h templates n (processTemplates os_error TemplateDir false tp templates res h).2.
Proof.
  revert res h. induction templates as [|t templates IH]; intros res h Hf Hc Hs.
  { exists 0%nat. simpl. split; [lia|]. split; [done..| |done|done]. intros t p Ht. by apply elem_of_nil in Ht. }
  cbn [processTemplates].
  assert (Ho : output_of (ph_env h) t = outputPath (ph_env h) <$> outputName (ph_env h) (Base t)) by done.
  destruct (outputName (ph_env h) (Base t)) as [name|].
  2:{ destruct (IH res h Hf Hc (separate_cons _ _ _ Hs)) as (n & Hn & Hr). exists n. split; [done|].
      destruct Hr as [Hv He Hfl Hout Hoth Hfail]. split; [done..| | |].
      - intros t' p [->|Ht']%elem_of_cons Hp; [by rewrite Ho in Hp|]. by apply Hout.
      - intros p Hp. apply Hoth. simpl in Hp. by rewrite Ho in Hp.
      - rewrite Hfail. unfold failing. cbn [List.filter]. unfold fails at 2. by rewrite Ho. }
  set (p0 := outputPath (ph_env h) name) in *. simpl in Ho.
  destruct (separate_head _ _ _ _ Hs Ho) as [Hp0 Ht0].
  pose proof (ProcessTemplateWithProcessor_fine t name h Hf Hc) as Hpt. fold p0 in Hpt.
  destruct (template_text h t) as [text|] eqn:Htext.
  - rewrite Hpt. cbn beta iota. set (h1 := with_files (insert p0 (generated text)) h).
    destruct (IH {| tr_success := S (tr_success res); tr_failed := tr_failed res; tr_firstErr := tr_firstErr res |} h1 Hf Hc
                (separate_cons _ _ _ Hs)) as (n & Hn & Hr).
    exists n. split; [done|]. destruct Hr as [Hv He Hfl Hout Hoth Hfail]. split; [done..| | |].
    + intros t' p [->|Ht']%elem_of_cons Hp.
      * rewrite Ho in Hp. injection Hp as <-. rewrite Htext. simpl. rewrite Hoth by done. simpl. by rewrite lookup_insert_eq.
      * rewrite (Hout t' p Ht' Hp). unfold h1. rewrite template_text_insert by (by apply Ht0). simpl.
        rewrite lookup_insert_ne; [done|]. intros <-. apply Hp0, list_elem_of_omap. by exists t'.
    + intros p Hp. simpl in Hp. rewrite Ho in Hp. apply not_elem_of_cons in Hp as [Hne Hp].
      rewrite Hoth by done. simpl. by rewrite lookup_insert_ne.
    + rewrite Hfail. unfold h1. rewrite failing_insert by done. unfold failing. cbn [List.filter].
      unfold fails at 2. by rewrite Ho, Htext.
  - destruct Hpt as [e Hpt]. rewrite Hpt. cbn beta iota.
    destruct (IH {| tr_success := tr_success res; tr_failed := S (tr_failed res); tr_firstErr := Some (default e (tr_firstErr res)) |} h Hf Hc
                (separate_cons _ _ _ Hs)) as (n & Hn & Hr).
    exists (S n). split; [rewrite Hn; simpl; lia|]. destruct Hr as [Hv He Hfl Hout Hoth Hfail]. split; [done..| | |].
    + intros t' p [->|Ht']%elem_of_cons Hp; [|by apply Hout].
      rewrite Ho in Hp. injection Hp as <-. rewrite Htext. simpl. by apply Hoth.
    + intros p Hp. apply Hoth. simpl in Hp. rewrite Ho in Hp. by apply not_elem_of_cons in Hp as [_ ?].
    + rewrite Hfail. unfold failing. cbn [List.filter]. unfold fails at 2. by rewrite Ho, Htext.
Qed.
End host.

(** ** The pipeline of domaincerts.go *)

(** The entries of one domain hold the same pair: they are the virtual host names of
    one directory entry. *)
Definition one_pair (domains : list DomainInfo) : Prop :=
  ∀ d d', d ∈ domains → d' ∈ domains → d_Name d = d_Name d' →
    d_SSLCertificate d = d_SSLCertificate d' ∧ d_SSLPrivateKey d = d_SSLPrivateKey d'.

(** ** Sorting and filtering by what a pair does not change *)
Lemma insert_sorted_map {A B} (leA : A → A → bool) (leB : B → B → bool) (f : A → B) x l :
  (∀ a b, leB (f a) (f b) = leA a b) → insert_sorted leB (f x) (map f l) = map f (insert_sorted leA x l).
Proof. intros H. induction l as [|y l IH]; [done|]. simpl. rewrite H. destruct (leA x y); simpl; congruence. Qed.

Lemma stable_sort_map {A B} (leA : A → A → bool) (leB : B → B → bool) (f : A → B) l :
  (∀ a b, leB (f a) (f b) = leA a b) → stable_sort leB (map f l) = map f (stable_sort leA l).
Proof. intros H. induction l as [|x l IH]; [done|]. simpl. rewrite IH. by apply insert_sorted_map. Qed.

Lemma dropUnsafeDomains_map f l :
  (∀ d, validateDomainInfo (f d) = validateDomainInfo d) → dropUnsafeDomains (map f l) = map f (dropUnsafeDomains l).
Proof.
  intros H. unfold dropUnsafeDomains. induction l as [|d l IH]; [done|]. simpl. rewrite !filter_cons, H, IH.
  by destruct (decide (validateDomainInfo d = None)).
Qed.

Lemma elem_of_loadDomains E tp domains d :
  tp_domainProvider tp = None → loadDomains E tp = inr domains → d ∈ domains → ∃ l, e_domains E = Some l ∧ d ∈ l.
Proof.
  unfold loadDomains. intros ->. destruct (e_ldap E); [|done]. simpl.
  destruct (perVirtualHostnameEnabled E); simpl; [|intros [= <-] Hd; by apply elem_of_nil in Hd].
  destruct (e_domains E) as [l|]; [|done]. intros [= <-] Hd. exists l. split; [done|].
  apply elem_of_stable_sort in Hd. by apply list_elem_of_filter in Hd as [_ ?].
Qed.

Section certs.
Variables (os_error : string → string → string) (dirs : list string) (tp : TemplateProcessor).

(** ** Pairs of certbot *)
Lemma not_elem_existsb (x : string) l : x ∉ l → existsb (String.eqb x) l = false.
Proof.
  intros Hx. apply not_true_iff_false. intros (y & Hy & Heq%String.eqb_eq)%existsb_exists. subst y.
  by apply Hx, list_elem_of_In.
Qed.

Definition pair_of (files : gmap string PFile) (E : Env) (name : string) : option (string * string) :=
  if existsb (String.eqb name) dirs then
    let dir := certbotLiveDir E +:+ "/" +:+ name in
    c ← files !! (dir +:+ "/fullchain.pem"); k ← files !! (dir +:+ "/privkey.pem"); Some (pf_data c, pf_data k)
  else None.

Lemma readCertbotPair_fine name h :
  ph_faults h = [] → readCertbotPair dirs name h = (inr (pair_of (ph_files h) (ph_env h) name), h).
Proof.
  intros Hf. unfold readCertbotPair, pair_of, mbind, GM_bind. simpl. destruct (existsb _ _); [|done].
  unfold mbind, GM_bind. by rewrite !ReadFile_fine.
Qed.

Section pairs.
Variables (pair : string → option (string * string)).

Definition renew (d : DomainInfo) : DomainInfo :=
  match pair (d_Name d) with Some (c, k) => set_pair c k d | None => d end.

Definition store_named (E : Env) (name : string) : Env :=
  match pair name with Some (c, k) => store_pair name c k E | None => E end.

Definition store_all (names : list string) (E : Env) : Env := foldl store_named E names.

Definition renew_named (names : list string) (d : DomainInfo) : DomainInfo :=
  if decide (d_Name d ∈ names) then renew d else d.

Lemma renew_name d : d_Name (renew d) = d_Name d.
Proof. unfold renew. by destruct (pair (d_Name d)) as [[c k]|]. Qed.

Lemma renew_named_name names d : d_Name (renew_named names d) = d_Name d.
Proof. unfold renew_named. case_decide; [apply renew_name|done]. Qed.

Lemma renew_named_valid names d : validateDomainInfo (renew_named names d) = validateDomainInfo d.
Proof. unfold renew_named, renew. case_decide; [|done]. by destruct (pair (d_Name d)) as [[c k]|]. Qed.

Lemma renew_idem d : renew (renew d) = renew d.
Proof. unfold renew at 1. rewrite renew_name. unfold renew. by destruct (pair (d_Name d)) as [[c k]|]. Qed.

Lemma store_all_domains names E :
  e_domains (store_all names E) = map (renew_named names) <$> e_domains E.
Proof.
  unfold store_all. revert E. induction names as [|n names IH]; intros E; simpl.
  { destruct (e_domains E) as [l|]; [|done]. simpl. f_equal. symmetry. by rewrite <- (map_id l) at 2. }
  rewrite IH. unfold store_named. destruct (e_domains E) as [l|] eqn:Hl.
  2:{ destruct (pair n) as [[c k]|]; simpl; by rewrite Hl. }
  assert (e_domains (match pair n with Some (c, k) => store_pair n c k E | None => E end) =
          Some (map (λ d, if String.eqb (d_Name d) n then renew d else d) l)) as ->.
  { unfold renew. destruct (pair n) as [[c k]|] eqn:Hn; simpl; rewrite Hl; simpl; f_equal.
    - apply map_ext. intros d. destruct (String.eqb_spec (d_Name d) n) as [->|]; [by rewrite Hn|done].
    - rewrite <- (map_id l) at 1. apply map_ext. intros d.
      destruct (String.eqb_spec (d_Name d) n) as [->|]; [by rewrite Hn|done]. }
  simpl. f_equal. rewrite map_map. apply map_ext. intros d. unfold renew_named.
  destruct (String.eqb_spec (d_Name d) n) as [Hn|Hn].
  - rewrite renew_name, Hn. rewrite (decide_True (P := n ∈ n :: names)) by (by left).
    case_decide; [apply renew_idem|done].
  - destruct (decide (d_Name d ∈ names)); [rewrite decide_True by (by right)|rewrite decide_False by (by rewrite elem_of_cons; intros [?|?])]; done.
Qed.

Lemma store_all_rest names E :
  e_ConfDir (store_all names E) = e_ConfDir E ∧ e_WorkingDir (store_all names E) = e_WorkingDir E ∧
  e_ldap (store_all names E) = e_ldap E ∧ e_Global (store_all names E) = e_Global E ∧ e_Server (store_all names E) = e_Server E ∧
  e_Local (store_all names E) = e_Local E.
Proof.
  unfold store_all. revert E. induction names as [|n names IH]; intros E; [done|]. simpl.
  destruct (IH (store_named E n)) as (-> & -> & -> & -> & -> & ->). unfold store_named. by destruct (pair n) as [[c k]|].
Qed.
End pairs.

Lemma writeDomainPairToLDAP_fine name c k h :
  ph_faults h = [] → e_ldap (ph_env h) = true →
  writeDomainPairToLDAP name c k h = (inr tt, with_env (store_pair name c k) h).
Proof.
  intros Hf Hl. unfold writeDomainPairToLDAP, mbind, GM_bind, in_context. simpl. rewrite Hl.
  unfold SetDomainSSLCertKey, mbind, GM_bind. by rewrite next_fault_none.
Qed.

Lemma save_pairs_fine saved domains h :
  ph_faults h = [] → e_ldap (ph_env h) = true → one_pair domains →
  let pair := pair_of (ph_files h) (ph_env h) in
  ∃ names, save_pairs dirs saved domains h = (inr (map (renew pair) domains), with_env (store_all pair names) h) ∧
           (∀ d, d ∈ domains → d_Name d ∉ saved → renew pair d = d ∨ d_Name d ∈ names).
Proof.
  intros Hf Hl Hone pair. revert saved h Hf Hl pair.
  induction domains as [|d domains IH]; intros saved h Hf Hl pair.
  { exists []. split; [by destruct h|]. intros d Hd. by apply elem_of_nil in Hd. }
  assert (Hone' : one_pair domains) by (intros d1 d2 ??; apply Hone; by right). specialize (IH Hone').
  cbn [save_pairs]. unfold mbind, GM_bind. rewrite readCertbotPair_fine by done. fold pair. simpl map.
  destruct (pair (d_Name d)) as [[c k]|] eqn:Hp.
  2:{ destruct (IH saved h Hf Hl) as (names & Hs & Hn). exists names. unfold mbind, GM_bind. rewrite Hs. split.
      - unfold renew at 2. by rewrite Hp.
      - intros d' [->|Hd']%elem_of_cons Hsv; [left; unfold renew; by rewrite Hp|by apply Hn]. }
  assert (Hd : renew pair d = set_pair c k d) by (unfold renew; by rewrite Hp).
  destruct (negb (existsb (String.eqb (d_Name d)) saved) && negb (String.eqb (d_SSLCertificate d) c && String.eqb (d_SSLPrivateKey d) k)) eqn:Hw.
  - rewrite writeDomainPairToLDAP_fine by done. unfold mbind, GM_bind.
    destruct (IH (d_Name d :: saved) (with_env (store_pair (d_Name d) c k) h) Hf Hl) as (names & Hs & Hn).
    rewrite Hs. exists (d_Name d :: names). split.
    + rewrite Hd. unfold store_all. simpl. unfold store_named at 3. rewrite Hp. done.
    + intros d' Hd' Hsv. destruct (decide (d_Name d' = d_Name d)) as [He|He]; [right; rewrite He; by left|].
      apply elem_of_cons in Hd' as [->|Hd']; [done|].
      destruct (Hn d' Hd') as [?|?]; [by rewrite elem_of_cons; intros [?|?]|by left|right; by right].
  - unfold mbind, GM_bind, mret, GM_ret.
    destruct (IH (d_Name d :: saved) h Hf Hl) as (names & Hs & Hn). rewrite Hs. exists names. rewrite Hd.
    split; [done|]. intros d' Hd' Hsv. destruct (decide (d_Name d' = d_Name d)) as [He|He].
    + left. destruct (Hone d d') as [Hc Hk]; [by left|done|done|].
      rewrite not_elem_existsb in Hw by (by rewrite <- He). simpl in Hw.
      apply negb_false_iff, andb_true_iff in Hw as [Hw1%String.eqb_eq Hw2%String.eqb_eq].
      unfold renew. rewrite He, Hp. destruct d'. unfold set_pair. simpl in *. congruence.
    + apply elem_of_cons in Hd' as [->|Hd']; [done|].
      apply Hn; [done|]. by rewrite elem_of_cons; intros [?|?].
Qed.

(** The domains a query then gives are the renewed ones. *)
Lemma loadDomains_renewed pair names E domains :
  tp_domainProvider tp = None → loadDomains E tp = inr domains →
  (∀ d, d ∈ domains → renew pair d = d ∨ d_Name d ∈ names) →
  loadDomains (store_all pair names E) tp = inr (map (renew pair) domains).
Proof.
  intros Htp Hl Hd. destruct (store_all_rest pair names E) as (_ & _ & Hldap & Hg & Hs & _).
  assert (Hper : perVirtualHostnameEnabled (store_all pair names E) = perVirtualHostnameEnabled E)
    by (unfold perVirtualHostnameEnabled, server_global; simpl; by rewrite Hg, Hs).
  unfold loadDomains in *. rewrite Htp in *. rewrite Hldap, Hper, store_all_domains.
  destruct (e_ldap E); [|done]. simpl in *. destruct (perVirtualHostnameEnabled E); simpl in *; [|by injection Hl as <-].
  destruct (e_domains E) as [l|]; [|done]. simpl. injection Hl as <-. f_equal.
  rewrite dropUnsafeDomains_map by (intros d; apply renew_named_valid).
  rewrite (stable_sort_map domain_le) by (intros a b; unfold domain_le; by rewrite !renew_named_name).
  apply map_ext_in. intros d Hin%list_elem_of_In. unfold renew_named.
  case_decide; [done|]. by destruct (Hd d Hin).
Qed.

(** ** Deployment *)
Definition cert_file (content : string) : PFile := {| pf_data := content; pf_mode := domainCertFileMode |}.

Lemma writeIfChanged_fine path content h :
  ph_faults h = [] → writeIfChanged os_error path content h = (inr tt, with_files (insert path (cert_file content)) h).
Proof.
  intros Hf. unfold writeIfChanged, mbind, GM_bind. rewrite ReadFile_fine by done.
  assert (Hw : in_context ("write " +:+ path +:+ ": ") (WriteFileAtomic os_error path content domainCertFileMode) h =
               (inr tt, with_files (insert path (cert_file content)) h))
    by (unfold in_context; by rewrite WriteFileAtomic_fine).
  destruct (ph_files h !! path) as [f|] eqn:Hp; [|exact Hw].
  destruct (String.eqb_spec (pf_data f) content) as [<-|]; [|exact Hw].
  unfold mbind, GM_bind. rewrite ReadFile_fine, Hp by done. unfold mret, GM_ret.
  destruct (Z.eqb_spec (pf_mode f) domainCertFileMode) as [Hm|]; [|exact Hw].
  f_equal. unfold with_files. rewrite insert_id; [by destruct h|]. rewrite Hp. destruct f. simpl in *. by rewrite Hm.
Qed.

Definition has_pair (d : DomainInfo) : bool := negb (String.eqb (d_SSLCertificate d) "" || String.eqb (d_SSLPrivateKey d) "").

(** The files of a domain. *)
Definition put_pair (E : Env) (m : gmap string PFile) (d : DomainInfo) : gmap string PFile :=
  if has_pair d then
    <[domainCertFilePath E (d_Name d) ".key" := cert_file (d_SSLPrivateKey d)]>
      (<[domainCertFilePath E (d_Name d) ".crt" := cert_file (d_SSLCertificate d)]> m)
  else m.

Lemma for_each_deploy domains h :
  ph_faults h = [] →
  for_each (deployDomainCert os_error) domains h = (inr tt, with_files (λ m, foldl (put_pair (ph_env h)) m domains) h).
Proof.
  revert h. induction domains as [|d domains IH]; intros h Hf; [by destruct h|].
  cbn [for_each]. unfold mbind, GM_bind.
  assert (deployDomainCert os_error d h = (inr tt, with_files (λ m, put_pair (ph_env h) m d) h)) as ->.
  { unfold deployDomainCert, put_pair, has_pair. destruct (_ || _); simpl; [by destruct h|].
    unfold mbind, GM_bind, in_context. simpl. rewrite writeIfChanged_fine by done. simpl. by rewrite writeIfChanged_fine. }
  by rewrite IH.
Qed.

Lemma deployDomainCerts_fine domains h :
  ph_faults h = [] →
  deployDomainCerts os_error false domains h = (inr tt, with_files (λ m, foldl (put_pair (ph_env h)) m domains) h).
Proof.
  intros Hf. unfold deployDomainCerts, mbind, GM_bind, in_context, asks. unfold MkdirAll, mbind, GM_bind.
  rewrite next_fault_none by done. by apply for_each_deploy.
Qed.

(** *** Paths *)
Lemma string_app_tail_inj (a b t t' : string) :
  String.length t = String.length t' → a +:+ t = b +:+ t' → a = b ∧ t = t'.
Proof.
  intros Hl. revert b. induction a as [|c a IH]; intros [|c' b]; rewrite ?string_app_cons, ?string_app_nil_l; intros H.
  - done.
  - subst t. simpl in Hl. rewrite length_string_app in Hl. lia.
  - subst t'. simpl in Hl. rewrite length_string_app in Hl. lia.
  - injection H as -> H. by destruct (IH b H) as [-> ->].
Qed.

Lemma cert_path_inj E n n' ext ext' :
  String.length ext = String.length ext' →
  domainCertFilePath E n ext = domainCertFilePath E n' ext' → n = n' ∧ ext = ext'.
Proof.
  intros Hl H. unfold domainCertFilePath in H. apply (inj (String.append _)), (inj (String.append _)) in H.
  by apply string_app_tail_inj.
Qed.

Lemma cert_path_ca E n ext : domainCertFilePath E n ext ≠ clientCertCAPath E.
Proof.
  unfold domainCertFilePath, domainCertsDir, clientCertCAPath. rewrite string_app_assoc.
  intros H. by apply (inj (String.append _)) in H.
Qed.

(** The files of the domains, whatever the order they were written in. *)
Lemma put_pairs_lookup E m domains d :
  one_pair domains → d ∈ domains → has_pair d = true →
  foldl (put_pair E) m domains !! domainCertFilePath E (d_Name d) ".crt" = Some (cert_file (d_SSLCertificate d)) ∧
  foldl (put_pair E) m domains !! domainCertFilePath E (d_Name d) ".key" = Some (cert_file (d_SSLPrivateKey d)).
Proof.
  induction domains as [|d' domains IH] using rev_ind; intros Hone Hd Hp; [by apply elem_of_nil in Hd|].
  rewrite foldl_app. simpl. set (m' := foldl (put_pair E) m domains) in *.
  destruct (decide (d_Name d' = d_Name d)) as [He|He].
  - destruct (Hone d d') as [Hc Hk]; [done|set_solver|done|].
    unfold put_pair. unfold has_pair in *. rewrite <- Hc, <- Hk, Hp, He.
    split; [rewrite lookup_insert_ne, lookup_insert_eq; [done|]|by rewrite lookup_insert_eq].
    intros H. by apply cert_path_inj in H as [_ ?].
  - apply elem_of_app in Hd as [Hd|Hd]; [|apply list_elem_of_singleton in Hd; congruence].
    destruct IH as [IHc IHk]; [intros d1 d2 ??; apply Hone; set_solver|done|done|].
    unfold put_pair. destruct (has_pair d'); [|done].
    rewrite !lookup_insert_ne; [done|..]; intros H; apply cert_path_inj in H as [? ?]; done.
Qed.

(** ** The client CA and the obsolete files *)
Lemma syncClientCA_fine domains h h' :
  ph_faults h = [] → syncClientCA os_error false domains h = (inr tt, h') →
  ph_env h' = ph_env h ∧ ph_faults h' = [] ∧ (∀ p, p ≠ clientCertCAPath (ph_env h) → ph_files h' !! p = ph_files h !! p).
Proof.
  intros Hf. unfold syncClientCA, mbind, GM_bind, asks. destruct (String.eqb _ _); unfold mbind, GM_bind, setClientCAEnabled, modify.
  - destruct (clientCertVerifyEnabled _ _); intros [= <-]. done.
  - rewrite writeIfChanged_fine by done. intros [= <-]. split_and!; [done..|]. intros p Hp. simpl. by rewrite lookup_insert_ne.
Qed.

Definition delete_all (paths : list string) (m : gmap string PFile) : gmap string PFile := foldl (λ m p, delete p m) m paths.

Lemma for_each_Remove paths h :
  ph_faults h = [] → for_each Remove paths h = (inr tt, with_files (delete_all paths) h).
Proof.
  revert h. induction paths as [|p paths IH]; intros h Hf; [by destruct h|].
  cbn [for_each]. unfold mbind, GM_bind, Remove, mbind, GM_bind. rewrite next_fault_none by done. unfold modify.
  by rewrite IH.
Qed.

Lemma delete_all_lookup paths m p : p ∉ paths → delete_all paths m !! p = m !! p.
Proof.
  unfold delete_all. revert m. induction paths as [|q paths IH]; intros m Hp; [done|]. simpl.
  apply not_elem_of_cons in Hp as [Hne Hp]. rewrite IH by done. by apply lookup_delete_ne.
Qed.

Lemma Contains_prefix s t : Contains (s +:+ t) s = true.
Proof.
  assert (H : String.prefix s (s +:+ t) = true).
  { induction s as [|c s IH]; [by destruct t|]. rewrite string_app_cons. simpl. by destruct (ascii_dec c c). }
  revert H. generalize (s +:+ t). intros u H. destruct u; cbn [Contains]; by rewrite H.
Qed.

Lemma removeObsolete_spares domains h p d ext :
  ph_faults h = [] → d ∈ domains → p = domainCertFilePath (ph_env h) (d_Name d) ext →
  ∃ h', removeObsoleteDomainCerts false domains h = (inr tt, h') ∧ ph_env h' = ph_env h ∧ ph_files h' !! p = ph_files h !! p.
Proof.
  intros Hf Hd ->. unfold removeObsoleteDomainCerts, mbind, GM_bind, asks. unfold obsoleteDomainCertFiles, mbind, GM_bind.
  rewrite next_fault_none by done. unfold asks. rewrite for_each_Remove by done. eexists. split; [done|]. split; [done|].
  apply delete_all_lookup. intros (name & Hn & Hin)%list_elem_of_fmap.
  apply list_elem_of_filter in Hin as [Hown _]. unfold domainCertFilePath in Hn.
  apply (inj (String.append _)), (inj (String.append _)) in Hn. subst name.
  unfold domainsOwnFile in Hown. apply not_true_iff_false in Hown. apply Hown, existsb_exists.
  exists d. split; [by apply list_elem_of_In|]. apply Contains_prefix.
Qed.

(** ** The paths a domain is rendered with *)
Lemma domain_vars_ssl E d vars :
  ExpandVariable (domain_vars E tp d vars) VarSSLCrt =
    Some (domainSSLPathOrDefault E (d_Name d) (d_SSLCertificate d) ".crt" (vget vars "ssl.crt.default")) ∧
  ExpandVariable (domain_vars E tp d vars) VarSSLKey =
    Some (domainSSLPathOrDefault E (d_Name d) (d_SSLPrivateKey d) ".key" (vget vars "ssl.key.default")).
Proof.
  unfold ExpandVariable, domain_vars, set_vip, setDomainVariables, setDomainClientCertVariables, save_orig, vget.
  rewrite !lookup_alter_ne by done. simpl (foldl _ _ _).
  destruct (non_empty (d_ClientCertMode d)); by simplify_map_eq.
Qed.

(** ** The pipeline *)
Lemma deleteCertbotConfigs_fine domains h :
  ∃ h1, deleteCertbotConfigs false dirs domains h = (inr tt, h1) ∧
        ph_env h1 = ph_env h ∧ ph_faults h1 = ph_faults h ∧ ph_files h1 = ph_files h.
Proof.
  unfold deleteCertbotConfigs, mbind, GM_bind, asks, modify, mret, GM_ret.
  destruct (filter _ _); eexists; (split; [done|done]).
Qed.

Lemma renew_one_pair pair domains : one_pair domains → one_pair (map (renew pair) domains).
Proof.
  intros Hone d d' (e & <- & He)%list_elem_of_In%in_map_iff (e' & <- & He')%list_elem_of_In%in_map_iff Hn.
  rewrite !renew_name in Hn. unfold renew. rewrite Hn.
  destruct (pair (d_Name e')) as [[c k]|]; [done|]. apply Hone; [by apply list_elem_of_In..|done].
Qed.

Lemma saveCertbotPairs_fine domains h :
  ph_faults h = [] → tp_domainProvider tp = None → one_pair domains → loadDomains (ph_env h) tp = inr domains →
  ∃ f domains', saveCertbotPairsToLDAP false dirs domains h = (inr domains', with_env f h) ∧
    loadDomains (f (ph_env h)) tp = inr domains' ∧ one_pair domains'.
Proof.
  intros Hf Htp Hone Hl. unfold saveCertbotPairsToLDAP, mbind, GM_bind, asks. simpl.
  destruct (String.eqb _ _); [exists (λ E, E), domains; split_and!; [by destruct h|done..]|].
  assert (Hldap : e_ldap (ph_env h) = true).
  { unfold loadDomains in Hl. rewrite Htp in Hl. by destruct (e_ldap (ph_env h)). }
  destruct (save_pairs_fine [] domains h Hf Hldap Hone) as (names & Hs & Hn).
  exists (store_all (pair_of (ph_files h) (ph_env h)) names), (map (renew (pair_of (ph_files h) (ph_env h))) domains).
  split_and!; [done| |by apply renew_one_pair]. apply loadDomains_renewed; [done|done|].
  intros d Hd. apply Hn; [done|]. by apply not_elem_of_nil.
Qed.

(** What the pipeline leaves of a domain with a pair. *)
Lemma syncDomainCerts_files h h' domains :
  ph_faults h = [] → tp_domainProvider tp = None → loadDomains (ph_env h) tp = inr domains → one_pair domains →
  syncDomainCerts os_error false dirs tp h = (inr tt, h') →
  ∃ domains', loadDomains (ph_env h') tp = inr domains' ∧
    (∀ d, d ∈ domains' → has_pair d = true →
      ph_files h' !! domainCertFilePath (ph_env h') (d_Name d) ".crt" = Some (cert_file (d_SSLCertificate d)) ∧
      ph_files h' !! domainCertFilePath (ph_env h') (d_Name d) ".key" = Some (cert_file (d_SSLPrivateKey d))).
Proof.
  intros Hf Htp Hl Hone. unfold syncDomainCerts, mbind, GM_bind, asks. rewrite Hl.
  destruct (deleteCertbotConfigs_fine domains h) as (h1 & Hd & He1 & Hf1 & _). unfold mbind, GM_bind. rewrite Hd.
  destruct (saveCertbotPairs_fine domains h1) as (f & domains' & Hs & Hl' & Hone'); [by rewrite Hf1|done|done|by rewrite He1|].
  rewrite Hs. rewrite deployDomainCerts_fine by (simpl; by rewrite Hf1).
  set (h2 := with_files _ (with_env f h1)).
  destruct (syncClientCA os_error false domains' h2) as [[e|[]] h3] eqn:Hca; [done|].
  assert (Hf2 : ph_faults h2 = []) by (simpl; by rewrite Hf1).
  destruct (syncClientCA_fine _ _ _ Hf2 Hca) as (He3 & Hf3 & Hfiles).
  intros Hr. assert (He : ph_env h' = f (ph_env h1)).
  { unfold removeObsoleteDomainCerts, mbind, GM_bind, asks, obsoleteDomainCertFiles, mbind, GM_bind in Hr.
    unfold GM_bind in Hr. rewrite next_fault_none in Hr by done. unfold asks in Hr.
    rewrite for_each_Remove in Hr by done. injection Hr as <-. simpl. by rewrite He3. }
  exists domains'. split; [by rewrite He|]. intros d Hd' Hp. rewrite He.
  assert (Hstep : ∀ ext, ph_files h' !! domainCertFilePath (f (ph_env h1)) (d_Name d) ext =
                         ph_files h2 !! domainCertFilePath (f (ph_env h1)) (d_Name d) ext).
  { intros ext. destruct (removeObsolete_spares domains' h3 (domainCertFilePath (f (ph_env h1)) (d_Name d) ext) d ext Hf3 Hd')
      as (h'' & Hr' & _ & Hsp); [by rewrite He3|]. rewrite Hr in Hr'. injection Hr' as <-. rewrite Hsp.
    apply Hfiles. apply cert_path_ca. }
  rewrite !Hstep. unfold h2. simpl. by apply put_pairs_lookup.
Qed.

End certs.

(** A domain whose pair certbot has renewed, and a file of a domain that is gone. *)
Definition sample_domain : DomainInfo :=
  {| d_Name := "example.com"; d_VirtualHostname := "mail.example.com"; d_VirtualIPAddress := ""; d_ClientCertMode := "";
     d_ClientCertCA := ""; d_SSLCertificate := "old cert"; d_SSLPrivateKey := "old key" |}.

Definition sample_host : PHost :=
  {| ph_files :=
       {[ "/opt/zextras/common/certbot/etc/letsencrypt/live/example.com/fullchain.pem" := {| pf_data := "new cert"; pf_mode := 420 |};
          "/opt/zextras/common/certbot/etc/letsencrypt/live/example.com/privkey.pem" := {| pf_data := "new key"; pf_mode := 384 |};
          "/opt/zextras/conf/domaincerts/gone.org.crt" := {| pf_data := "cert"; pf_mode := 416 |} ]};
     ph_vars := ∅;
     ph_env :=
       {| e_Local := Some ∅; e_Global := Some ∅; e_Server := Some ∅; e_WorkingDir := "/opt/zextras"; e_ConfDir := "/opt/zextras/conf";
          e_IncludesDir := "/opt/zextras/conf/nginx/includes"; e_ConfPrefix := "nginx.conf"; e_TemplatePrefix := "nginx.conf";
          e_ldap := true; e_servers := Some []; e_domains := Some [sample_domain]; e_service_servers := λ _, Some [];
          e_stat_size := λ _, None; e_lookup_ip := λ _, None; e_buildProps := None; e_frac := λ _ _, 0 |};
     ph_certbot := []; ph_faults := [] |}.

Definition sample_sync : (string + unit) * PHost := syncDomainCerts (λ op _, op) false ["example.com"] NewTemplateProcessor sample_host.

