(* ===== verification/ProxyGenerateProps.v ===== *)
(** * ProxyGenerateProps: what a successful generation leaves

    The whole of [GenerateAll] when no access fails. *)
From stdpp Require Import pretty.
From S2P Require Import Prelude Config Tmpl NetIP Proxy ProxyUpstream ProxyResolvers ProxyRegister ProxyExplode ProxyGen ProxyCertProps.
Open Scope Z_scope.

(** ** Steps that keep the variables clean and add no faults *)
Definition keeps {A} (m : GM A) : Prop :=
  ∀ h, ph_faults h = [] → ph_faults (m h).2 = [] ∧ (clean (ph_vars h) → clean (ph_vars (m h).2)).

Create HintDb keeps.

Lemma keeps_ret {A} (a : A) : keeps (mret a).
Proof. by intros h Hf. Qed.

Lemma keeps_throw {A} e : keeps (throw (A := A) e).
Proof. by intros h Hf. Qed.

Lemma keeps_asks {A} (f : PHost → A) : keeps (asks f).
Proof. by intros h Hf. Qed.

Lemma keeps_bind {A B} (m : GM A) (f : A → GM B) : keeps m → (∀ a, keeps (f a)) → keeps (m ≫= f).
Proof.
  intros Hm Hk h Hf. unfold mbind, GM_bind. destruct (Hm h Hf) as [Hf' Hc].
  destruct (m h) as [[e|a] h']; simpl in *; [done|]. destruct (Hk a h' Hf'). split; auto.
Qed.

Lemma keeps_next_fault : keeps next_fault.
Proof. intros h Hf. rewrite next_fault_none by done. done. Qed.

Lemma keeps_with_files f : keeps (modify (with_files f)).
Proof. by intros h Hf. Qed.

Lemma keeps_with_env f : keeps (modify (with_env f)).
Proof. by intros h Hf. Qed.

Lemma keeps_in_context {A} p (m : GM A) : keeps m → keeps (in_context p m).
Proof. intros Hm h Hf. unfold in_context. specialize (Hm h Hf). by destruct (m h) as [[e|a] h']. Qed.

Lemma keeps_for_each {A} (f : A → GM unit) l : (∀ x, keeps (f x)) → keeps (for_each f l).
Proof. intros Hk. induction l as [|x l IH]; [apply keeps_ret|]. by apply keeps_bind. Qed.

#[export] Hint Resolve keeps_ret keeps_throw keeps_asks keeps_next_fault keeps_with_files keeps_with_env : keeps.

(** Taking a step apart. *)
Ltac keep_steps :=
  repeat first
    [ progress intros
    | solve [auto with keeps]
    | progress cbv zeta
    | apply keeps_bind
    | apply keeps_in_context
    | apply keeps_for_each
    | match goal with |- keeps (match ?x with _ => _ end) => destruct x end ].

Section host.
Variables (os_error : string → string → string) (dirs : list string) (tp : TemplateProcessor) (dry : bool).

Lemma keeps_ReadFile p : keeps (ReadFile p).
Proof. unfold ReadFile. keep_steps. Qed.

Lemma keeps_WriteFileAtomic p d m : keeps (WriteFileAtomic os_error p d m).
Proof. unfold WriteFileAtomic. keep_steps. Qed.

Lemma keeps_MkdirAll d : keeps (MkdirAll os_error d).
Proof. unfold MkdirAll. keep_steps. Qed.

#[local] Hint Resolve keeps_ReadFile keeps_WriteFileAtomic keeps_MkdirAll : keeps.

Lemma keeps_writeIfChanged p c : keeps (writeIfChanged os_error p c).
Proof. unfold writeIfChanged. keep_steps. Qed.

#[local] Hint Resolve keeps_writeIfChanged : keeps.

Lemma keeps_setClientCAEnabled b : keeps (setClientCAEnabled b).
Proof.
  intros h Hf. split; [done|]. simpl. intros [Ht Hs]. split.
  - eapply Forall_impl; [exact Ht|]. intros k Hk. destruct (decide (k = "ssl.clientcertca.enabled")) as [->|];
      [by rewrite lookup_alter_eq, Hk|by rewrite lookup_alter_ne].
  - eapply Forall_impl; [exact Hs|]. intros k Hk. destruct (decide (k = "ssl.clientcertca.enabled")) as [->|];
      [rewrite lookup_alter_eq; by destruct (ph_vars h !! _) as [[]|]|by rewrite lookup_alter_ne].
Qed.

#[local] Hint Resolve keeps_setClientCAEnabled : keeps.

Lemma keeps_deployDomainCerts l : keeps (deployDomainCerts os_error dry l).
Proof. unfold deployDomainCerts, deployDomainCert. keep_steps. Qed.

Lemma keeps_syncClientCA l : keeps (syncClientCA os_error dry l).
Proof. unfold syncClientCA. keep_steps. Qed.

Lemma keeps_removeObsolete l : keeps (removeObsoleteDomainCerts dry l).
Proof. unfold removeObsoleteDomainCerts, obsoleteDomainCertFiles, Remove. keep_steps. Qed.

Lemma keeps_save_pairs saved l : keeps (save_pairs dirs saved l).
Proof.
  revert saved. induction l as [|d l IH]; intros saved; simpl; [apply keeps_ret|].
  unfold readCertbotPair, writeDomainPairToLDAP, SetDomainSSLCertKey. keep_steps.
Qed.

Lemma keeps_deleteCertbotConfigs l : keeps (deleteCertbotConfigs dry dirs l).
Proof. unfold deleteCertbotConfigs. keep_steps. by intros h Hf. Qed.

#[local] Hint Resolve keeps_deployDomainCerts keeps_syncClientCA keeps_removeObsolete keeps_save_pairs keeps_deleteCertbotConfigs : keeps.

Lemma keeps_syncDomainCerts : keeps (syncDomainCerts os_error dry dirs tp).
Proof. unfold syncDomainCerts, saveCertbotPairsToLDAP. keep_steps. Qed.
End host.

Section generate.
Variables (os_error : string → string → string) (dirs : list string) (tp : TemplateProcessor).

(** ** The checks that change nothing *)
Lemma for_each_same {A} (f : A → GM unit) l h : (∀ x h, (f x h).2 = h) → (for_each f l h).2 = h.
Proof.
  intros Hs. revert h. induction l as [|x l IH]; intros h; [done|]. cbn [for_each]. unfold mbind, GM_bind.
  pose proof (Hs x h) as Hx. destruct (f x h) as [[e|a] h']; simpl in *; [done|]. rewrite IH. done.
Qed.

Lemma checkVirtualHostnames_same lookup h : (checkVirtualHostnames os_error lookup tp h).2 = h.
Proof.
  unfold checkVirtualHostnames, mbind, GM_bind, asks. apply for_each_same. intros d h'. unfold checkVirtualHostname.
  by repeat case_match.
Qed.

Variables (walk : string → Walk) (TemplateDir : string) (force : bool) (lookup : string → bool).

Definition conf_path (E : Env) : string := e_ConfDir E +:+ "/" +:+ confPrefix E.

(** The text the main file ends with. *)
Definition success_mark : string := nl +:+ "#" +:+ confGenSuccessMarker +:+ nl.

(** What a successful run goes through. *)
Lemma GenerateAll_run h h' :
  ph_faults h = [] →
  GenerateAll os_error walk TemplateDir false force dirs lookup tp h = (inr tt, h') →
  ∃ templates h1,
    DiscoverTemplates os_error walk TemplateDir (ph_env h) = inr templates ∧
    syncDomainCerts os_error false dirs tp h = (inr tt, h1) ∧
    tr_failed (processTemplates os_error TemplateDir false tp templates no_result h1).1 = 0%nat ∧
    appendConfGenResult false confGenSuccessMarker (processTemplates os_error TemplateDir false tp templates no_result h1).2 = (inr tt, h').
Proof.
  intros Hf. unfold GenerateAll, mbind, GM_bind, asks.
  destruct (DiscoverTemplates os_error walk TemplateDir (ph_env h)) as [e|[|t templates]]; [done|done|].
  unfold in_context at 1, ensureIncludesDir, mbind, GM_bind, asks. unfold GM_bind, in_context at 1, MkdirAll, mbind, GM_bind.
  unfold GM_bind. rewrite next_fault_none by done. unfold mret, GM_ret. unfold in_context at 1.
  destruct (syncDomainCerts os_error false dirs tp h) as [[e|[]] h1]; [done|].
  assert (Hc : ∀ r h2, (if force then checkVirtualHostnames os_error lookup tp else λ h, (inr tt, h)) h1 = (r, h2) → h2 = h1).
  { destruct force; [|by intros r h2 [= _ <-]]. intros r h2 Hc. pose proof (checkVirtualHostnames_same lookup h1) as Hs.
    by rewrite Hc in Hs. }
  destruct ((if force then checkVirtualHostnames os_error lookup tp else λ h, (inr tt, h)) h1) as [[e|[]] h2] eqn:Hck; [done|].
  rewrite (Hc _ _ eq_refl). intros H. exists (t :: templates), h1. split; [done|]. split; [done|].
  destruct (processTemplates os_error TemplateDir false tp (t :: templates) no_result h1) as [res h3].
  simpl. destruct (tr_failed res); [by split|].
  unfold mbind, GM_bind in H. by destruct (appendConfGenResult _ _ h3) as [[]].
Qed.

Lemma appendConfGenResult_fine text h h' :
  ph_faults h = [] → appendConfGenResult false text h = (inr tt, h') →
  ∀ p, ph_files h' !! p =
    (λ f, if bool_decide (p = conf_path (ph_env h))
          then {| pf_data := pf_data f +:+ nl +:+ "#" +:+ text +:+ nl; pf_mode := pf_mode f |} else f) <$> ph_files h !! p.
Proof.
  intros Hf. unfold appendConfGenResult, mbind, GM_bind, asks, Append, mbind, GM_bind. rewrite next_fault_none by done.
  intros [= <-] p. simpl. fold (conf_path (ph_env h)). case_bool_decide as Hp.
  - subst p. by rewrite lookup_alter_eq.
  - rewrite lookup_alter_ne by done. by destruct (ph_files h !! p).
Qed.

End generate.

(** Two templates, one of them exploded over the domain of [sample_host]. *)
Definition main_template : string := "/opt/zextras/conf/nginx/templates/nginx.conf.template".
Definition web_template : string := "/opt/zextras/conf/nginx/templates/nginx.conf.web.template".

Definition generate_host : PHost :=
  with_files (λ m,
    <[main_template := {| pf_data := "include web;" +:+ nl; pf_mode := 420 |}]>
      (<[web_template := {| pf_data := "!{explode domain(vhn)}" +:+ nl +:+ "server_name ${vhn};" +:+ nl; pf_mode := 420 |}]> m)) sample_host.

Definition sample_walk (dir : string) : Walk :=
  if String.eqb dir "/opt/zextras/conf/nginx/templates" then WalkFiles [main_template; web_template] else WalkMissing.

Definition sample_generate : (string + unit) * PHost :=
  GenerateAll (λ op _, op) sample_walk "/opt/zextras/conf/nginx/templates" false true ["example.com"] (λ _, true) NewTemplateProcessor
    generate_host.

Definition generate_synced : PHost := (syncDomainCerts (λ op _, op) false ["example.com"] NewTemplateProcessor generate_host).2.

Lemma sample_separate :
  separate "/opt/zextras/conf/nginx/templates" (ph_env generate_synced) [main_template; web_template].
Proof.
  assert (Ho : omap (output_of (ph_env generate_synced)) [main_template; web_template] =
               ["/opt/zextras/conf/nginx.conf"; "/opt/zextras/conf/nginx/includes/nginx.conf.web"]) by (vm_compute; reflexivity).
  split; rewrite Ho.
  - apply (bool_decide_unpack _). vm_compute. done.
  - intros t p Ht Hp.
    apply elem_of_cons in Ht as [-> | ->%list_elem_of_singleton]; apply elem_of_cons in Hp as [-> | ->%list_elem_of_singleton];
      vm_compute; discriminate.
Qed.

