(* ===== verification/ProxyOffline.v ===== *)
(** * ProxyOffline: overrides of the command line and offline rendering

    Models [ApplyOverrides] of internal/proxy/legacycli.go, the layout and settings of
    config.go, and offline.go: templates rendered from a fixture instead of the
    directory.  Reading the YAML of a fixture is left to its library; what it yields is
    the record [Fixture].  The concrete runs at the end show what the generator does in
    the cases its comments and its users would not expect. *)
From stdpp Require Import pretty.
From S2P Require Import Prelude Config Tmpl NetIP Proxy ProxyUpstream ProxyResolvers ProxyRegister ProxyExplode ProxyResolveProps ProxyGen ProxyCertProps.
Open Scope Z_scope.

(** ** legacycli.go *)
Definition set_text (text : string) (v : Variable_) : Variable_ :=
  {| v_Attribute := v_Attribute v; v_ValueType := v_ValueType v; v_OverrideType := v_OverrideType v;
     v_DefaultValue := v_DefaultValue v; v_Value := v_Value v; v_CustomFormatter := v_CustomFormatter v;
     v_CustomResolver := v_CustomResolver v; v_ConfigText := Some text |}.

(** An entry that is not [name=value], or that names no variable, is ignored. *)
Definition ApplyOverride (vars : Vars) (o : string) : Vars :=
  match CutByte "=" o with
  | Some (k, v) => if String.eqb k "" then vars else alter (fmap (set_text v)) k vars
  | None => vars
  end.

Definition ApplyOverrides (overrides : list string) (vars : Vars) : Vars := foldl ApplyOverride vars overrides.

(** ** config.go *)
Record Settings := {
  st_TemplateDir : string; st_IncludeDir : string; st_ConfPrefix : string; st_TemplatePrefix : string; st_ForceDNSResolution : bool }.

Record Layout := {
  ly_WorkingDir : string; ly_TemplateDir : string; ly_ConfDir : string; ly_IncludesDir : string;
  ly_ConfPrefix : string; ly_TemplatePrefix : string; ly_ForceDNSResolution : bool }.

(** The working directory is a clean path, so that joining is concatenation. *)
Definition setLayout (workDir : string) : Layout :=
  {| ly_WorkingDir := workDir; ly_TemplateDir := workDir +:+ "/conf/nginx/templates"; ly_ConfDir := workDir +:+ "/conf";
     ly_IncludesDir := workDir +:+ "/conf/nginx/includes"; ly_ConfPrefix := ""; ly_TemplatePrefix := ""; ly_ForceDNSResolution := false |}.

Definition or_else (s def : string) : string := if String.eqb s "" then def else s.

Definition applySettings (s : option Settings) (l : Layout) : Layout :=
  let s := default {| st_TemplateDir := ""; st_IncludeDir := ""; st_ConfPrefix := ""; st_TemplatePrefix := ""; st_ForceDNSResolution := false |} s in
  let prefix := or_else (st_ConfPrefix s) ConfPrefix in
  {| ly_WorkingDir := ly_WorkingDir l;
     ly_TemplateDir := or_else (st_TemplateDir s) (ly_TemplateDir l);
     ly_ConfDir := ly_ConfDir l;
     ly_IncludesDir := if String.eqb (st_IncludeDir s) "" then ly_IncludesDir l else ly_ConfDir l +:+ "/" +:+ st_IncludeDir s;
     ly_ConfPrefix := prefix;
     ly_TemplatePrefix := or_else (st_TemplatePrefix s) prefix;
     ly_ForceDNSResolution := st_ForceDNSResolution s |}.

(** ** offline.go *)

(** The values YAML gives. *)
Inductive YVal := YNil | YBool (b : bool) | YInt (z : Z) | YInt64 (z : Z) | YString (s : string) | YList (l : list YVal) | YOther.

Record Fixture := {
  fx_WorkDir : string;
  fx_Global : gmap string string;
  fx_Server : gmap string string;
  fx_Variables : gmap string YVal;
  fx_Domains : list DomainInfo;
  fx_Servers : gmap string (list ServerInfo)
}.

Fixpoint string_items (l : list YVal) : option (list string) :=
  match l with
  | [] => Some []
  | YString s :: l => (cons s) <$> string_items l
  | _ => None
  end.

Definition fixtureValue (v : YVal) : option Val :=
  match v with
  | YNil => Some VNil
  | YBool b => Some (VBool b)
  | YInt z => Some (VInt z)
  | YInt64 z => Some (VInt64 z)
  | YString s => Some (VString s)
  | YList l => VStrings <$> string_items l
  | YOther => None
  end.

(** What the host the fixture is rendered on gives: its files, names and properties. *)
Record HostFacts := { hf_stat_size : string → option Z; hf_lookup_ip : string → option IP; hf_buildProps : option string; hf_frac : string → Z → Z }.

Definition fixture_env (H : HostFacts) (fx : Fixture) : Env :=
  let l := applySettings None (setLayout (or_else (fx_WorkDir fx) "/opt/zextras")) in
  {| e_Local := None; e_Global := Some (fx_Global fx); e_Server := Some (fx_Server fx); e_WorkingDir := ly_WorkingDir l;
     e_ConfDir := ly_ConfDir l; e_IncludesDir := ly_IncludesDir l; e_ConfPrefix := ly_ConfPrefix l;
     e_TemplatePrefix := ly_TemplatePrefix l; e_ldap := false; e_servers := None; e_domains := None;
     e_service_servers := λ _, None; e_stat_size := hf_stat_size H; e_lookup_ip := hf_lookup_ip H;
     e_buildProps := hf_buildProps H; e_frac := hf_frac H |}.

(** One variable of the fixture: the value replaces what was resolved, and must be one
    that its variable can show. *)
Definition set_fixture_var (vars : Vars) (name : string) (y : YVal) : string + Vars :=
  match vars !! name, fixtureValue y with
  | Some (Some v), Some val =>
      let v' := {| v_Attribute := v_Attribute v; v_ValueType := v_ValueType v; v_OverrideType := v_OverrideType v;
                   v_DefaultValue := v_DefaultValue v; v_Value := val; v_CustomFormatter := v_CustomFormatter v;
                   v_CustomResolver := v_CustomResolver v; v_ConfigText := None |} in
      let vars := <[name := Some v']> vars in
      match ExpandVariable vars name with
      | Some _ => inr vars
      | None => inl ("fixture: variable " +:+ dquote +:+ name +:+ dquote)
      end
  | Some (Some _), None => inl ("fixture: variable " +:+ dquote +:+ name +:+ dquote)
  | _, _ => inl ("fixture: unknown variable " +:+ dquote +:+ name +:+ dquote)
  end.

Fixpoint set_fixture_vars (l : list (string * YVal)) (vars : Vars) : string + Vars :=
  match l with
  | [] => inr vars
  | (name, y) :: l => match set_fixture_var vars name y with inl e => inl e | inr vars => set_fixture_vars l vars end
  end.

(** [Fixture.generator]; [keys] is the order of the map of variables. *)
Definition fixture_generator (H : HostFacts) (fx : Fixture) (keys : list string) : string + Vars :=
  match NewGenerator (fixture_env H fx) [PrefetchBackends false; PrefetchBackends true; PrefetchMemcached] keys with
  | None => inl "failed to resolve variables"
  | Some g => set_fixture_vars (sorted_items (fx_Variables fx)) (g_vars g)
  end.

(** Bracketed or not; no name is looked up. *)
Definition literalHost (host : string) : option IP := ParseIP (trim_brackets host).

Definition offline_processor (fx : Fixture) : TemplateProcessor :=
  {| tp_domainProvider := Some (fx_Domains fx); tp_serverProvider := Some (λ service, default [] (fx_Servers fx !! service));
     tp_hostResolver := Some literalHost |}.

(** [filepath.Dir] of a path with a slash. *)
Definition Dir (path : string) : string := String.rev (drop_string 1 (span (λ c, negb (eqc slash c)) (String.rev path)).2).

Section render.
Variables (os_error : string → string → string) (templateDir outDir : string) (fx : Fixture).

(** The path of an output relative to the configuration directory. *)
Definition output_rel (E : Env) (name : string) : string := TrimPrefix (outputPath E name) (e_ConfDir E +:+ "/").

Definition renderTemplate (path outPath : string) : GM unit :=
  lines ← LoadTemplate os_error templateDir path;
  out ← in_context ("render " +:+ path +:+ ": ") (process_template (offline_processor fx) lines);
  _ ← MkdirAll os_error (Dir outPath);
  WriteFileAtomic os_error outPath out generatedFileMode.

(** The loop over the sorted templates: the files written and the errors met. *)
Fixpoint render_all (templates : list string) (h : PHost) : list string * list string * PHost :=
  match templates with
  | [] => ([], [], h)
  | path :: templates =>
      match outputName (ph_env h) (Base path) with
      | None => render_all templates h
      | Some name =>
          let rel := output_rel (ph_env h) name in
          match renderTemplate path (outDir +:+ "/" +:+ rel) h with
          | (inl e, h) => let '(written, errs, h) := render_all templates h in (written, e :: errs, h)
          | (inr _, h) => let '(written, errs, h) := render_all templates h in (rel :: written, errs, h)
          end
      end
  end.
End render.

(** [RenderOffline] of an absolute template directory on a host with the files of [h]:
    the error of the preparation, or the files written and the errors of the templates. *)
Definition RenderOffline (os_error : string → string → string) (walk : string → Walk) (H : HostFacts) (fx : Fixture) (keys : list string)
    (templateDir outDir : string) (files : gmap string PFile) (faults : list PFault) : string + (list string * list string * PHost) :=
  match fixture_generator H fx keys with
  | inl e => inl e
  | inr vars =>
      match discoverTemplatesInDir os_error walk templateDir with
      | inl e => inl ("find templates in " +:+ templateDir +:+ ": " +:+ e)
      | inr [] => inl ("no templates found in " +:+ templateDir)
      | inr templates =>
          inr (render_all os_error templateDir outDir fx (sort_by_key (λ s, s) templates)
                 {| ph_files := files; ph_vars := vars; ph_env := fixture_env H fx; ph_certbot := []; ph_faults := faults |})
      end
  end.

(** ** Where the proxy configuration departs from its comments *)

(** A bare header value may begin with the character of a comment, or end with a
    backslash: the rest of the line, or the semicolon, is then lost to nginx. *)
Example header_comment :
  header_directive "X-Trace: #1" = Some "add_header X-Trace #1;" ∧
  header_directive ("X-Path: c:" +:+ String backslash "") = Some ("add_header X-Path c:" +:+ String backslash ";").
Proof. split; vm_compute; reflexivity. Qed.

(** A server without a host name is indexed by its directory name and then selected
    under the empty name: the directive has no host. *)
Example upstream_without_host :
  (upstream_servers
     {| e_Local := None; e_Global := None; e_Server := None; e_WorkingDir := ""; e_ConfDir := ""; e_IncludesDir := "";
        e_ConfPrefix := ""; e_TemplatePrefix := ""; e_ldap := true;
        e_servers := Some [("mbs.example.com", delete "zimbraServiceHostname" sample_server)]; e_domains := None;
        e_service_servers := λ _, None; e_stat_size := λ _, None; e_lookup_ip := λ _, None; e_buildProps := None; e_frac := λ _ _, 0 |}
     (mkSpec mailClientSvcs "" "zimbraReverseProxyHttpPortAttribute" "zimbraMailPort" 0) None).1 =
  "server    :8080 fail_timeout=60s;" +:+ nl.
Proof. vm_compute. reflexivity. Qed.

(** An IPv6 virtual address is not bracketed before its port. *)
Example listen_ipv6 :
  formatListenDirectives ["2001:db8::1"] "" "443" = "    listen                  2001:db8::1:443 default_server;".
Proof. vm_compute. reflexivity. Qed.

(** The variables that switch the client certificate blocks on read a mode, which is
    never the text TRUE. *)
Example sso_never_enabled E :
  Forall (λ mode, convertValue E mode ValueTypeEnabler = Some (VBool false)) ["off"; "on"; "optional"; "optional_no_ca"].
Proof. repeat constructor. Qed.

(** An [int64] zero counts as enabled. *)
Example int64_zero_enabled : formatEnabler (VInt64 0) = "" ∧ formatEnabler (VInt 0) = "#".
Proof. split; reflexivity. Qed.

(** A domain with a certificate but no key, and one with a client CA: the files the
    rendered configuration names are not written. *)
Definition half_domain : DomainInfo :=
  {| d_Name := "half.org"; d_VirtualHostname := "mail.half.org"; d_VirtualIPAddress := ""; d_ClientCertMode := "optional";
     d_ClientCertCA := "ca"; d_SSLCertificate := "cert"; d_SSLPrivateKey := "" |}.

Definition half_host : PHost :=
  with_env (λ E, {| e_Local := e_Local E; e_Global := e_Global E; e_Server := e_Server E; e_WorkingDir := e_WorkingDir E;
     e_ConfDir := e_ConfDir E; e_IncludesDir := e_IncludesDir E; e_ConfPrefix := e_ConfPrefix E;
     e_TemplatePrefix := e_TemplatePrefix E; e_ldap := e_ldap E; e_servers := e_servers E; e_domains := Some [half_domain];
     e_service_servers := e_service_servers E; e_stat_size := e_stat_size E; e_lookup_ip := e_lookup_ip E;
     e_buildProps := e_buildProps E; e_frac := e_frac E |}) sample_host.

Example paths_without_files :
  let h := (syncDomainCerts (λ op _, op) false [] NewTemplateProcessor half_host).2 in
  let vars := domain_vars (ph_env h) NewTemplateProcessor half_domain ∅ in
  ExpandVariable vars VarSSLCrt = Some "/opt/zextras/conf/domaincerts/half.org.crt" ∧
  ph_files h !! "/opt/zextras/conf/domaincerts/half.org.crt" = None ∧
  ExpandVariable vars VarSSLClientCA = Some "/opt/zextras/conf/domaincerts/half.org.client.ca.crt" ∧
  ph_files h !! "/opt/zextras/conf/domaincerts/half.org.client.ca.crt" = None.
Proof. vm_compute. repeat split; reflexivity. Qed.

(** An offline rendering looks the lookup targets of the fixture up in the DNS. *)
Example offline_uses_dns :
  let fx := {| fx_WorkDir := ""; fx_Global := {[ "zimbraReverseProxyAvailableLookupTargets" := "mbs.example.com" ]}; fx_Server := ∅;
               fx_Variables := ∅; fx_Domains := []; fx_Servers := ∅ |} in
  let H ip := {| hf_stat_size := λ _, None; hf_lookup_ip := λ _, ip; hf_buildProps := None; hf_frac := λ _ _, 0 |} in
  resolveLookupHandlers (fixture_env (H None) fx) = VString "https://mbs.example.com:7072/service/extension/nginx-lookup" ∧
  resolveLookupHandlers (fixture_env (H (ParseIP "10.0.0.1")) fx) = VString "https://10.0.0.1:7072/service/extension/nginx-lookup".
Proof. split; vm_compute; reflexivity. Qed.
